(* ===== verification/_CoqProject ===== *)
-Q . S2P
Prelude.v
TableBuilder.v
TableQuick.v
TableRebuild.v
Buffers.v
BufferSpec.v
NetBuffers.v
Frame.v
MetaTable.v
SysMgr.v
Migration.v
Bitmap.v
MetaServer.v
Storage.v
Cluster.v
RdbDefine.v
RingQueue.v
RingSpec.v
LockSpec.v
Hash.v
Md5.v
Wal.v
WalSpec.v
Replication.v
WalLog.v
ReplicationSpec.v
Strings.v
Engine.v
EngineSpec.v
Requests.v
RequestsSpec.v
Rpc.v
RpcSpec.v
Client.v
ClientSpec.v
NetServer.v
NetSpec.v
NetSim.v
NetRun.v
Session.v
SessionSpec.v
Sync.v
SyncSpec.v
Fifo.v
FifoSpec.v
CList.v
Url.v
Config.v
ConfigSpec.v
ConfigSafe.v
BufQueue.v
BufQueueSpec.v
RaftBuf.v
RaftBufSpec.v
RaftLog.v
RaftLogSpec.v
StatInfo.v
StatSpec.v
RaftState.v
DayTime.v
ServerTable.v
ServerTableSpec.v
Shell.v
ShellSpec.v
NetAddr.v
NetAddrSpec.v
EventThread.v
EventThreadSpec.v
WorkQueue.v
WorkQueueSpec.v
FifoWrap.v
FifoWrapSpec.v
TableText.v
TableTextSpec.v
