(* ===== verification/Prelude.v ===== *)
(** * mybase: a verification of the core of a replicated key-value store

    mybase (src/) is a key-value store in C++.  A meta server keeps the routing tables, which
    map every bucket of the key space to a master and slaves, and storage servers keep the
    buckets.  Keys are hashed to buckets; clients and storage servers get the tables from the
    meta server.  When storage servers come and go the meta server computes new tables,
    and the storage servers move the buckets and report each one.

    ** Parts and files

    - [Prelude]: integers of fixed width as [Z] with their wrap-around, big-endian bytes,
      the option monad of executions without meaning, loops, shared list lemmas, the hint
      and rewrite databases [mybase] and [mybase_len] and the tactics [bool_cases],
      [split_if], [step_inv].
    - [TableBuilder]: src/src/meta/table_builder.{h,cc}, class [TableBuilder].  A table is a
      map from (copy, bucket) to a server (address and position mask).  The quick table
      ([buildQuickTable]) only drops dead servers; the rebuild ([rebuildTableNew]) places
      every missing copy and balances masters and copies.  The draws of [rand()] are a
      function, the loops that are not bounded have fuel.
    - [TableQuick], [TableRebuild]: the theorems about the two.
    - [Buffers], [BufferSpec]: src/src/public/buffers.{h,cc}, classes [DataBuffer] and
      [Buffer], and their contract as queues of bytes.
    - [NetBuffers]: the same source, classes [NBuffer] and [CBufferMgn].
    - [MetaTable]: src/src/meta/table_mgr.{h,cc} on src/src/common/filemapper.cc, the mapped
      file with a header and three tables (in use, as far as migrated, destination).
    - [SysMgr]: src/src/meta/sys_mgr.{h,cc}, the list of servers, liveness, both rebuilds on
      the mapped tables and the migration protocol.
    - [Migration]: the theorems about that protocol.
    - [Bitmap]: src/src/public/bitmap.h and src/src/common/validbucket.h, and the class
      [NumberSet] of sets of numbers that the bit map implements.
    - [Frame]: message numbers of src/src/common/defs.h and the frame of a message (length,
      channel, type, bytes), which all servers build and open in a [Buffer].
    - [MetaServer]: [MetaServer::process] of src/src/meta/meta.cc, frames in [Buffer]s around
      requests to [SysMgr].  The generated protobuf code is the class [MetaCodec].
    - [Storage]: src/src/storage/heartbeat.cc and migrate_mgr.cc, what a storage server does
      with the tables and what it reports.
    - [Cluster]: the meta server and the storage servers together.
    - [RdbDefine]: src/src/kvstore/rdb/rdb_define.{h,cc} and fdb_define.{h,cc}, the formats of
      stored keys and values.
    - [Wal]: src/src/common/wal.{h,cc}, the write-ahead log of a bucket: files with their
      indexes, batches of concurrent writers, reading, rollback and opening.
    - [WalSpec]: its files as a chain of segments and the theorems about its runs.
    - [Replication]: src/src/storage/bucket_mgr.{h,cc}, peer.h and the DUMP request of
      storage.cc: a master appends records, sends them to its copies, and their answers make
      commit tasks.  The log is the class [Log]; [WalLog] shows that the write-ahead log is one.
    - [ReplicationSpec]: master, copies and the network as a step relation, and its theorems.
    - [Engine]: src/src/kvstore/rdb/rdb_instance.{h,cc} and rdb_manager.cc, the store over
      RocksDB, whose calls are the class [Rocks] with the laws [RocksLaws]; a write that
      reports an error may or may not have been applied.
    - [EngineSpec]: the store as a map of values that age; two instances of the laws, one with
      writes that fail.
    - [Requests], [RequestsSpec]: [StorageServer::process] and the commit of records of
      src/src/storage/storage.cc and processor.cc, on [Replication] and [Engine]; the protobuf
      code is the class [StorageCodec].
    - [Rpc], [RpcSpec]: src/src/common/rpc/client.{h,cc} and session.cc, the pending requests
      of a connection and the reassembly of messages.
    - [Client], [ClientSpec]: src/src/client/kv_client_api.{h,cc}, start, routing, put and get of
      the client library against the two servers.
    - [RingQueue], [RingSpec], [LockSpec]: src/src/common/bufferqueue.{h,cc}, the classes
      [CBufferQueue] (a ring of bytes) and [CLockBufferQueue] (a ring and a second buffer).
    - [NetServer]: src/src/common/netserver.{h,cc}, class [IwServer], on [NetBuffers] and
      [RingQueue]: connections with their buffers, the cut of received bytes into requests, the
      queue of requests, answers, and the check for idle connections.  System calls enter with
      their results, and every event of a thread is one operation.
    - [NetSpec], [NetSim], [NetRun]: its contract (streams with a bounded queue of requests), the
      simulation event by event, and the theorems about whole runs.
    - [Fifo], [FifoSpec]: the class [FifoQueue] of bufferqueue.h, a queue of linked nodes without
      locks for a thread that pushes and one that pops, with its nodes in a heap.
    - [Session], [SessionSpec]: src/src/common/sessionmgn.{h,cc}, the timing wheel of sessions, and
      its contract as timers.
    - [Sync], [SyncSpec]: the locks [ReadWriteLock] and [RWLock] of src/src/public/common.{h,cc} and
      [AWaiter] of awaiter.{h,cc}, as steps of threads that interleave.
    - [Hash], [Md5], [Strings]: src/src/public/murmurhash2.cc, murmurhash3.cc, md5_encode.cc and
      the string helpers of common.cc.
    - [CList], [Url]: src/src/public/list.{h,cc}, lists whose elements are linked in a heap, and
      url.cc, the encoding for URLs.
    - [Config], [ConfigSpec], [ConfigSafe]: src/src/public/config.{h,cc}, class [CConfig]: lines
      parsed in place in their arrays, sections of keys with values, the answers and [toString].
    - [BufQueue], [BufQueueSpec]: the classes [BufferQueue] and [LockBufferQueue] of
      src/src/common/bufferqueue.{h,cc}, a ring of records whose lengths are stored in words.
    - [RaftBuf], [RaftBufSpec]: src/src/meta/raft/buffer_helper.{hxx,cc}, the fields of a raft
      buffer.
    - [RaftLog], [RaftLogSpec]: src/src/meta/raft/kv_log_store.{hxx,cc}, the log of raft in two
      column families of RocksDB.  The absent raft library and the database are the classes
      [EntryCodec], [RocksSorted] and [RocksReliable].
    - [RaftState]: kv_state_mgr.hxx and kv_state_machine.{hxx,cc} of the same directory, what a raft
      server keeps in files (class [FileCodec], with an instance) and its commits.
    - [StatInfo], [StatSpec]: src/src/common/stat_info.{h,cc} and [setStatInfo], [getStatInfo] of
      sys_mgr.cc, the counters of the servers and their sums.
    - [DayTime]: src/src/public/daytimetaskmgn.{h,cc}, tasks at a moment of every day.
    - [ServerTable], [ServerTableSpec]: src/src/storage/table_mgr.{h,cc}, the tables of a storage
      server and what a new table makes it do with its buckets.
    - [Shell], [ShellSpec]: src/src/client/kv_client.{h,cc}, the command line of the interactive
      client, its words and its commands.
    - [NetAddr], [NetAddrSpec]: addresses and paths of src/src/public/common.cc, with the class
      [Resolver] for the names of hosts.
    - [EventThread], [EventThreadSpec]: src/src/common/rpc/cthread.{h,cc}, class [CThread], a thread with
      an event loop to which others dispatch callbacks, as steps of the threads.
    - [WorkQueue], [WorkQueueSpec]: [CQueueThread] and [CThreadPool] of src/src/public/threadctl.{h,cc}
      and [CTMsgQueueCond] of bufferqueue.h, queues of work and of messages under a mutex.
    - [FifoWrap], [FifoWrapSpec]: [IpcFifoQueue] and [LockFifoQueue] of bufferqueue.h, which wait for the
      queue of linked nodes.
    - [TableText], [TableTextSpec]: the text of the table file in src/src/meta/table_mgr.cc, written and
      read.

    State is passed explicitly, one record per class.  An execution the source gives no
    meaning to (failed [assert], access outside of a block or mapping, null pointer, end
    iterator, signed overflow of a size, endless loop) is [None]; errors the source returns
    are values.  Where the order of a container is not fixed by the source (an unordered
    map, a protobuf map) it is an argument.

    ** What the theorems show

    - Tables ([TableQuick], [TableRebuild]): the quick table has exactly the live replicas
      of every bucket that has one, with a live master; the first table and every successful
      rebuild give each bucket with a live master all copies on distinct available servers;
      the two composed recover every bucket that had a live replica; the balancing loop ends
      and the rebuild never divides by zero.
    - Buffers ([BufferSpec], [NetBuffers]): messages written field by field are read back,
      growing and shrinking lose nothing, received bytes are appended or refused.
    - Migration ([Migration], [Storage], [Cluster]): a rebuild charges every server with
      its pending buckets, each report keeps the charges exact, the destination is put in
      use when, and not before, every pending bucket was reported; the storage servers on
      their own report all buckets that need data, so that the migration completes for
      every interleaving of their reports when every pending bucket needs data somewhere, and
      otherwise stays open.
    - Requests ([MetaServer], [RequestsSpec], [ClientSpec]): a framed request is executed and
      answered on its channel; a client that starts learns the table, its put goes to the
      master of the key's bucket, the put is logged, sent to a copy, committed by the
      copy's answer, executed in the engine and answered with the code of the database's own
      answer, and when that is success a get then finds the value.
    - Replication ([ReplicationSpec]): with messages lost, repeated and reordered the log of
      a copy is a beginning of the master's, nothing is handed to the engine that is not in a
      copy, no step gets stuck, and a copy that is reached catches up.
    - Engine ([EngineSpec]): histories of calls, compactions, restarts and database errors
      answer what a map of ageing values and the times of clearing answer, for nonempty keys and
      values, namespaces below 1024 and expiry times within 32 bits ([op_ok]); a value that was
      put stays.
    - RPC and queues ([RpcSpec], [RingSpec], [LockSpec]): a request ends once, answers cut in
      any pieces are put together; the ring and the queue with two buffers are queues; so is
      the queue of linked nodes ([FifoSpec]), for every interleaving of its two threads.
    - Network server ([NetRun]): whatever the order of events and however bytes arrive, every
      connection gets its requests to the workers whole and in order and its answers back whole
      and in order, the server never leaves a buffer or gets stuck, and closes exactly the
      connections that were idle.
    - Sessions ([SessionSpec]): the wheel hands out each session once, after its moment and at
      the first check a slot later.
    - Threads ([SyncSpec]): both locks exclude for every interleaving; waiting for a callback
      misses none and returns after it, or when its time is over.
    - Records in a ring ([BufQueueSpec]): whatever is pushed and popped, the ring of records and its
      form with a lock answer like a bounded queue of records, also across the end of the memory.
    - Raft ([RaftLogSpec], [RaftBufSpec], [RaftState]): appending, overwriting, packing, applying
      packs and compacting keep the log a sequence of terms and values with a first index; fields
      that were written are read; a server that starts again finds the state it wrote.
    - Statistics ([StatSpec]): the sums of the meta server are the sums over the servers that are
      counted, and a text of counters is read back.
    - Tables of a storage server ([ServerTableSpec]): an update takes over the table and computes
      which buckets to give up, to move and to copy to whom, and the list of servers.
    - Daily tasks ([DayTime]): a task runs once each day at its moment, in the order of moments.
    - Client program and addresses ([ShellSpec], [NetAddrSpec]): a line is cut into its words; an
      address is read back from its text when its port is below 2^15.
    - Event loops and work ([EventThreadSpec], [WorkQueueSpec], [FifoWrapSpec]): dispatched callbacks run
      once, in order, and none is forgotten although most dispatches do not wake the loop; stopping runs
      what was dispatched before; accepted work is handled once and a stop waits for it; a reader is not
      left waiting for a queue that has something.
    - Text of the table ([TableTextSpec]): a text with a line for every copy of every bucket, and
      addresses with ports below 2^15, is read into exactly the file it describes; rows of up to
      20 copies are written whole.
    - Hashes ([Hash], [Md5]): the code computes MurmurHash2 and the MD5 of RFC 1321, given as
      definitions of their own that share nothing with the model and are checked on published values.
    - Formats ([RdbDefine], [MetaTable], [Bitmap]): round trips, scan ranges that are exactly
      a bucket, the bit map as a finite set.
    - Configuration ([ConfigSpec], [ConfigSafe]): a file of lines that [line_ok] admits is read as
      its lines mean, errors end the loading and keep what was read; what [toString] writes of
      a configuration that such a file gave, or that is clean, is read back; loading stays inside
      its arrays for files whose lines are safe, and then the configuration keeps its types and the
      values that were there.
    - Helpers ([CList], [Url]): the linked list is a sequence, encoding for URLs can be undone.
    - Log ([WalSpec]): in every interleaving of writers and restarts the log keeps what was
      appended, reads back entries and ranges, and opens again on its files, also after a write
      that was cut behind a whole record.
    - Defects: lemmas and theorems about strings with a negative length, writes that free a
      wrapped block, stale bytes after readFromFile, reports past the last bucket, slaves or
      masters that only change places, a quick table during a migration, area scans, the
      counter of a bit map after reset, entries of the log that are written again or cut off,
      commits that go back or reach behind the end of a copy's log, puts without copies,
      message numbers used twice, answers on a descriptor used again, a writer that is
      never woken, session numbers used again, comments that become values, the buffer of
      [Md5Encode], packs of the raft log and its empty entries, a snapshot that is not kept, ports
      from 2^15 on, command lines of spaces, a stop that is overwritten or never arrives, refused
      callbacks that run, missed signals, null messages and rows that overrun their buffer state precisely where the code does not do what it means to.

    ** Fuel and bounds

    [rebuildTableNew] takes the fuel of its balancing loops; [TableRebuild] proves that as
    many turns as there are buckets are enough for the loop over masters.  The doubling
    loops of the buffers have fuel 32, enough for any 32-bit size, and the theorems assume
    sizes below [size_limit] = 2^29, for which no size computation of the source overflows.
    Table sizes are bounded so that the byte size of the mapping fits 31 bits.  In the runs of
    the log the data that waits stays below 64 MB ([batch_limit]), so that positions and
    indexes of a file fit 32 bits; opening a file has fuel for one more entry than it has
    bytes.
    The loop of the daily tasks has fuel for the seconds of a day, and the loops over the columns
    of a storage server's table for the length of the table.

    The exchange of a copy with its master ends within as many rounds as the master has
    entries, and five more ([copy_catches_up]).

    ** Not modelled

    Sockets, threads, timers and logging: what they call is modelled, in any order where
    several call; the databases and the protobuf code, which are parameters; failing
    writes of the log, and runs that go on after a write that was cut; the administration of the meta server over HTTP, which is
    composed of library calls and printing, and its use of the raft library, whose headers
    are not in the repository; UDP and the creation of sockets; the server side of the RPC
    layer, which sends a message back; a queue of work that is started again after its stop; the
    wrappers of files; the ForestDB
    engine, which has the operations of the modelled one; printing in the interactive client;
    the vendored JSON library. *)
From Stdlib Require Export ZArith Lia.
From stdpp Require Export base tactics numbers list list_numbers sorting gmap sets option.

#[export] Set Default Goal Selector "!".
#[global] Open Scope Z_scope.
#[global] Open Scope list_scope.

(** ** Machine integers: a [w]-bit unsigned value is a [Z] reduced modulo [2^w]. *)

Definition u8 (z : Z) : Z := z mod 2 ^ 8.
Definition u16 (z : Z) : Z := z mod 2 ^ 16.
Definition u32 (z : Z) : Z := z mod 2 ^ 32.
Definition u64 (z : Z) : Z := z mod 2 ^ 64.

(** The value of a two's complement 32-bit word. *)
Definition i32 (z : Z) : Z :=
  let m := z mod 2 ^ 32 in if m <? 2 ^ 31 then m else m - 2 ^ 32.

(** A byte as a signed [char]. *)
Definition schar (b : Z) : Z := if b <? 128 then b else b - 256.

Definition is_u8 (z : Z) : Prop := 0 <= z < 2 ^ 8.
Definition is_u16 (z : Z) : Prop := 0 <= z < 2 ^ 16.
Definition is_u32 (z : Z) : Prop := 0 <= z < 2 ^ 32.
Definition is_u64 (z : Z) : Prop := 0 <= z < 2 ^ 64.

#[export] Instance is_u8_dec z : Decision (is_u8 z).
Proof. unfold is_u8. apply _. Defined.

(** ** Steps that may fail

    [None] is an execution the C++ source gives no meaning to, or that ends the
    process: a failed [assert], an out of range access, a loop that does not end. *)

(** [assert_that b] is the source's [assert(b)]; binds are stdpp's [x ← c; k]. *)
Definition assert_that (b : bool) : option unit := if b then Some tt else None.

(** ** Hints and tactics *)

Create HintDb mybase.

(** Case analysis on every [if] and [match] on a boolean test of the goal or of a
    hypothesis, turning the integer tests into propositions. *)
Ltac bool_cases :=
  repeat match goal with
  | H : (_ && _)%bool = true |- _ => apply andb_prop in H; destruct H
  | H : (_ || _)%bool = false |- _ => apply orb_false_elim in H; destruct H
  | H : (_ =? _) = true |- _ => apply Z.eqb_eq in H
  | H : (_ =? _) = false |- _ => apply Z.eqb_neq in H
  | H : (_ <? _) = true |- _ => apply Z.ltb_lt in H
  | H : (_ <? _) = false |- _ => apply Z.ltb_ge in H
  | H : (_ <=? _) = true |- _ => apply Z.leb_le in H
  | H : (_ <=? _) = false |- _ => apply Z.leb_gt in H
  | H : bool_decide _ = true |- _ => apply bool_decide_eq_true_1 in H
  | H : bool_decide _ = false |- _ => apply bool_decide_eq_false_1 in H
  | H : negb _ = true |- _ => apply negb_true_iff in H
  | H : negb _ = false |- _ => apply negb_false_iff in H
  end.

Ltac split_if :=
  match goal with
  | |- context [if ?b then _ else _] =>
      lazymatch type of b with bool => let E := fresh "E" in destruct b eqn:E end
  end; bool_cases.

(** Stepping a bind by rewriting, where conversion would evaluate the continuation. *)
Lemma bind_Some_eq {A B} (f : A → option B) x : (Some x ≫= f) = f x.
Proof. done. Qed.

Lemma bind_Some_inv {A B} (o : option A) (f : A → option B) y :
  (x ← o; f x) = Some y → ∃ x, o = Some x ∧ f x = Some y.
Proof. destruct o as [x|]; simpl; [eauto|done]. Qed.

Lemma assert_that_Some b u : assert_that b = Some u → b = true.
Proof. by destruct b. Qed.

(** Inverts a hypothesis [(x ← c; k) = Some y], every bind of it. *)
Ltac step_inv H :=
  repeat match type of H with
  | mbind _ _ = Some _ =>
      let x := fresh "x" in let E := fresh "E" in
      apply bind_Some_inv in H; destruct H as (x & E & H)
  | assert_that _ = Some _ => apply assert_that_Some in H
  end.

(** ** Bytes *)

Lemma u8_bound z : is_u8 (u8 z).
Proof. unfold is_u8, u8. apply Z.mod_pos_bound. lia. Qed.

Lemma u8_id z : is_u8 z → u8 z = z.
Proof. unfold is_u8, u8. intros. by apply Z.mod_small. Qed.

Lemma u32_bound z : is_u32 (u32 z).
Proof. unfold is_u32, u32. apply Z.mod_pos_bound. lia. Qed.

Lemma u32_id z : is_u32 z → u32 z = z.
Proof. unfold is_u32, u32. intros. by apply Z.mod_small. Qed.

Lemma u64_id z : 0 <= z < 2 ^ 64 → u64 z = z.
Proof. intros. unfold u64. by apply Z.mod_small. Qed.

Lemma i32_id z : - 2 ^ 31 <= z < 2 ^ 31 → i32 z = z.
Proof.
  intros Hz. unfold i32. destruct (Z_le_gt_dec 0 z).
  - rewrite Z.mod_small by lia. split_if; lia.
  - replace (z mod 2 ^ 32) with (z + 2 ^ 32); [split_if; lia|].
    symmetry. rewrite <- (Z.mod_add z 1) by lia. apply Z.mod_small. lia.
Qed.

(** [be_bytes n z] is the [n] low bytes of [z], most significant first; this is the
    byte order of every integer the buffers write. *)
Fixpoint be_bytes (n : nat) (z : Z) : list Z :=
  match n with
  | O => []
  | S n => be_bytes n (Z.shiftr z 8) ++ [u8 z]
  end.

(** The value of a big-endian sequence of bytes, by the [n <<= 8; n |= b] loop. *)
Definition be_value (l : list Z) : Z :=
  foldl (λ n b, Z.lor (Z.shiftl n 8) b) 0 l.

Lemma length_be_bytes n z : length (be_bytes n z) = n.
Proof.
  revert z. induction n as [|n IH]; intros z; simpl; [done|].
  rewrite length_app, IH. simpl. lia.
Qed.

Lemma be_bytes_u8 n z : Forall is_u8 (be_bytes n z).
Proof.
  revert z. induction n as [|n IH]; intros z; simpl; [constructor|].
  apply Forall_app. split; [apply IH|]. repeat constructor; apply u8_bound.
Qed.

Lemma be_value_snoc l b : be_value (l ++ [b]) = Z.lor (Z.shiftl (be_value l) 8) b.
Proof. unfold be_value. by rewrite foldl_app. Qed.

(** Disjoint bits: a shifted number with a smaller one below it. *)
Lemma lor_shiftl n a b : 0 <= n → 0 <= b < 2 ^ n → Z.lor (Z.shiftl a n) b = a * 2 ^ n + b.
Proof.
  intros Hn [H1 H2]. rewrite <- Z.shiftl_mul_pow2 by lia.
  enough (Z.land (Z.shiftl a n) b = 0) by (pose proof (Z.add_lor_land (Z.shiftl a n) b); lia).
  apply Z.bits_inj'. intros k Hk.
  rewrite Z.land_spec, Z.bits_0, Z.shiftl_spec by lia.
  destruct (Z.lt_ge_cases k n).
  - by rewrite (Z.testbit_neg_r a (k - n)) by lia.
  - destruct (decide (b = 0)) as [->|]; [by rewrite Z.bits_0, andb_false_r|].
    rewrite (Z.bits_above_log2 b k); [apply andb_false_r|lia|].
    enough (Z.log2 b < n) by lia. apply Z.log2_lt_pow2; lia.
Qed.

Lemma lor_shiftl_8 a b : is_u8 b → Z.lor (Z.shiftl a 8) b = a * 2 ^ 8 + b.
Proof. intros H. by apply lor_shiftl. Qed.

(** Writing then reading an integer over [n] bytes keeps it modulo [2^(8n)]. *)
Lemma be_value_bytes n z : be_value (be_bytes n z) = z mod 2 ^ (8 * Z.of_nat n).
Proof.
  revert z. induction n as [|n IH]; intros z.
  { simpl. by rewrite Z.mod_1_r. }
  cbn [be_bytes]. rewrite be_value_snoc, IH, lor_shiftl_8 by apply u8_bound.
  unfold u8. rewrite Z.shiftr_div_pow2 by lia.
  replace (8 * Z.of_nat (S n)) with (8 + 8 * Z.of_nat n) by lia.
  rewrite Z.pow_add_r by lia.
  rewrite (Z.rem_mul_r z (2 ^ 8) (2 ^ (8 * Z.of_nat n))) by lia. lia.
Qed.

Lemma be_value_bytes_id n z :
  0 <= z < 2 ^ (8 * Z.of_nat n) → be_value (be_bytes n z) = z.
Proof. intros. rewrite be_value_bytes. by apply Z.mod_small. Qed.

Lemma be_value_bound l :
  Forall is_u8 l → 0 <= be_value l < 2 ^ (8 * Z.of_nat (length l)).
Proof.
  induction l as [|b l IH] using rev_ind; [cbn; lia|].
  rewrite Forall_app. intros [Hl Hb]. rewrite Forall_singleton in Hb.
  rewrite be_value_snoc, lor_shiftl_8 by apply Hb. rewrite length_app. simpl length.
  specialize (IH Hl). unfold is_u8 in Hb.
  replace (8 * Z.of_nat (length l + 1)) with (8 * Z.of_nat (length l) + 8) by lia.
  rewrite Z.pow_add_r by lia. lia.
Qed.

Lemma be_bytes_value l : Forall is_u8 l → be_bytes (length l) (be_value l) = l.
Proof.
  induction l as [|b l IH] using rev_ind; [done|].
  rewrite Forall_app. intros [Hl Hb]. rewrite Forall_singleton in Hb.
  rewrite be_value_snoc, lor_shiftl_8 by apply Hb. rewrite length_app.
  replace (length l + length [b])%nat with (S (length l)) by (simpl; lia).
  cbn [be_bytes].
  unfold is_u8 in Hb. rewrite Z.shiftr_div_pow2, Z.div_add_l, Z.div_small, Z.add_0_r by lia.
  rewrite IH by done. do 2 f_equal. unfold u8.
  rewrite Z.add_comm, Z.mod_add by lia. by apply Z.mod_small.
Qed.

#[global] Arguments be_bytes : simpl never.

(** ** Iteration: the loops [for (i = a; i < b; i++)] of the source *)

Definition range (a b : nat) : list nat := seq a (b - a).

Lemma elem_of_range a b i : i ∈ range a b ↔ (a <= i < b)%nat.
Proof. unfold range. rewrite elem_of_seq. lia. Qed.

Lemma range_S a b : (a <= b)%nat → range a (S b) = range a b ++ [b].
Proof.
  intros. unfold range. replace (S b - a)%nat with (S (b - a)) by lia.
  rewrite seq_S. do 2 f_equal. lia.
Qed.

Lemma elem_of_snoc {A} (x y : A) l : x ∈ l ++ [y] ↔ x ∈ l ∨ x = y.
Proof. by rewrite elem_of_app, list_elem_of_singleton. Qed.

(** A loop over a list with an early exit: [None] leaves the loop at once. *)
Fixpoint loop_until {A S : Type} (body : S → A → option S) (l : list A) (s : S) : option S :=
  match l with
  | [] => Some s
  | x :: l => match body s x with Some s' => loop_until body l s' | None => None end
  end.

Lemma loop_until_inv {A S} (P : S → Prop) (body : S → A → option S) l s s' :
  P s → (∀ s x s', x ∈ l → P s → body s x = Some s' → P s') →
  loop_until body l s = Some s' → P s'.
Proof.
  revert s. induction l as [|x l IH]; simpl; intros s Hs Hb H; [congruence|].
  destruct (body s x) eqn:E; [|done].
  eapply IH; [| |done].
  - eapply Hb; [left|exact Hs|exact E].
  - intros s1 y s2 Hy. apply Hb. by right.
Qed.

(** A loop over consecutive indices whose body never exits early. *)
Lemma loop_until_seq {T} (P : nat → T → Prop) (body : T → nat → option T) a n s :
  P a s → (∀ i s, (a <= i < a + n)%nat → P i s → ∃ s', body s i = Some s' ∧ P (S i) s') →
  ∃ s', loop_until body (seq a n) s = Some s' ∧ P (a + n)%nat s'.
Proof.
  revert a s. induction n as [|n IH]; intros a s Hs Hb; simpl.
  { exists s. by rewrite Nat.add_0_r. }
  destruct (Hb a s) as (s1 & -> & H1); [lia|done|].
  destruct (IH (S a) s1 H1) as (s2 & -> & H2).
  - intros. apply Hb; [lia|done].
  - exists s2. split; [done|]. by replace (a + S n)%nat with (S a + n)%nat by lia.
Qed.

(** A loop over indices whose body at [i] changes only what [get i] reads: the
    final value at [j] is what the body at [j] makes of the initial one. *)
Lemma foldl_local {S A} (I : S → Prop) (f : S → nat → S) (get : nat → S → A) n s j :
  (∀ s i, I s → I (f s i)) →
  (∀ s i k, I s → i ≠ k → get k (f s i) = get k s) →
  I s → (j < n)%nat →
  ∃ s', I s' ∧ get j s' = get j s ∧ get j (foldl f s (seq 0 n)) = get j (f s' j).
Proof.
  intros HI Hloc Hs. induction n as [|n IH]; intros Hj; [lia|].
  rewrite seq_S, foldl_app. simpl.
  assert (HIn : ∀ m, I (foldl f s (seq 0 m))).
  { intros m. induction m as [|m IHm]; [done|]. rewrite seq_S, foldl_app. simpl. by apply HI. }
  destruct (decide (j = n)) as [->|Hne].
  - exists (foldl f s (seq 0 n)). split_and!; [done| |done].
    clear IH Hj. assert (Hlt : ∀ m, (m <= n)%nat → get n (foldl f s (seq 0 m)) = get n s).
    { intros m. induction m as [|m IHm]; intros; [done|]. rewrite seq_S, foldl_app. simpl.
      rewrite Hloc; [|done|lia]. apply IHm. lia. }
    by apply Hlt.
  - destruct IH as (s' & Hs' & H1 & H2); [lia|].
    exists s'. split_and!; [done|done|]. rewrite Hloc; [done|done|lia].
Qed.

Lemma foldl_ext_in {S A} (f g : S → A → S) l s :
  (∀ s x, x ∈ l → f s x = g s x) → foldl f s l = foldl g s l.
Proof.
  revert s. induction l as [|x l IH]; intros s H; [done|]. simpl.
  rewrite H by left. apply IH. intros. apply H. by right.
Qed.

Lemma foldl_inv {S A} (I : S → Prop) (f : S → A → S) l s :
  (∀ s x, x ∈ l → I s → I (f s x)) → I s → I (foldl f s l).
Proof.
  revert s. induction l as [|x l IH]; intros s Hf Hs; [done|]. simpl.
  apply IH; [intros; apply Hf; [by right|done]|]. apply Hf; [by left|done].
Qed.

Lemma filter_nil_iff {A} (P : A → Prop) `{∀ x, Decision (P x)} l :
  filter P l = [] ↔ ∀ x, x ∈ l → ¬ P x.
Proof.
  transitivity (Forall (λ x, ¬ P x) l); [|apply list.Forall_forall].
  induction l as [|x l IH]; [by split; [constructor|]|].
  rewrite filter_cons, list.Forall_cons, <- IH. case_decide; [|tauto]. split; [done|tauto].
Qed.

Lemma range_split a b k :
  (a <= k < b)%nat → range a b = range a k ++ k :: range (S k) b.
Proof.
  intros H. unfold range. replace (b - a)%nat with ((k - a) + S (b - S k))%nat by lia.
  rewrite seq_app. simpl. f_equal. replace (a + (k - a))%nat with k by lia. done.
Qed.

Lemma filter_all {A} (P : A → Prop) `{∀ x, Decision (P x)} (l : list A) :
  (∀ x, x ∈ l → P x) → filter P l = l.
Proof.
  induction l as [|x l IH]; intros Hl; [done|].
  rewrite filter_cons, decide_True by (apply Hl; left). f_equal. apply IH.
  intros. apply Hl. by right.
Qed.

Lemma filter_fmap_comm {A B} (f : A → B) (P : B → Prop) `{∀ x, Decision (P x)} (l : list A) :
  filter P (f <$> l) = f <$> filter (λ x, P (f x)) l.
Proof.
  induction l as [|x l IH]; [done|]. rewrite fmap_cons, !filter_cons, IH. by case_decide.
Qed.

(** A list with no [P] after a non-[P] is its [P]s, then the rest. *)
Lemma compact_of_order {A} (P : A → Prop) `{∀ x, Decision (P x)} (l : list A) :
  (∀ a b x y, l !! a = Some x → l !! b = Some y → (a <= b)%nat → ¬ P x → ¬ P y) →
  l = filter P l ++ filter (λ x, ¬ P x) l.
Proof.
  induction l as [|x l IH]; intros Hord; [done|].
  rewrite !filter_cons. destruct (decide (P x)) as [Hx|Hx].
  - rewrite decide_False by tauto. simpl. f_equal. apply IH.
    intros a b y z Ha Hb Hab. apply (Hord (S a) (S b)); [done|done|lia].
  - rewrite (decide_True (P := ¬ P x)) by done.
    assert (Hall : ∀ y, y ∈ l → ¬ P y).
    { intros y (b & Hb)%list_elem_of_lookup. by apply (Hord 0%nat (S b) x y); auto with lia. }
    rewrite (proj2 (filter_nil_iff P l)) by done. simpl. f_equal. symmetry.
    by apply filter_all.
Qed.

Lemma take_drop_commute_sub {A} (l : list A) n m :
  take (n - m) (drop m l) = drop m (take n l).
Proof.
  destruct (decide (m <= n)%nat).
  - rewrite take_drop_commute. do 2 f_equal. lia.
  - rewrite (drop_ge (take n l)) by (rewrite length_take; lia).
    by replace (n - m)%nat with 0%nat by lia.
Qed.

Create Rewrite HintDb mybase_len.
#[export] Hint Rewrite @length_app @length_insert @length_replicate length_be_bytes
  @length_take @length_drop @length_fmap : mybase_len.

(** ** Runs of events *)

Section Runs.
Context {S E : Type} (exec : E → S → option S).

Fixpoint run_all (es : list E) (s : S) : option S :=
  match es with [] => Some s | e :: es => s ← exec e s; run_all es s end.

Lemma run_inv (I : S → Prop) es s s' :
  (∀ e s s', e ∈ es → I s → exec e s = Some s' → I s') → I s → run_all es s = Some s' → I s'.
Proof using Type.
  revert s. induction es as [|e es IH]; intros s Hstep Hs; cbn [run_all]; [by intros [= <-]|]. intros (s1 & He & Hr)%bind_Some.
  apply (IH s1); [|by apply (Hstep e s); [left|..]|done]. intros e' s2 s3 Hin. apply Hstep. by right.
Qed.
Lemma run_all_app es1 es2 s : run_all (es1 ++ es2) s = s ← run_all es1 s; run_all es2 s.
Proof using Type. revert s. induction es1 as [|e es1 IH]; intros s; [done|]. cbn [app run_all]. destruct (exec e s); [apply IH|done]. Qed.
End Runs.

(** What a sequence of operations observes. *)
Fixpoint run_obs {O A T} (f : O → T → option (A * T)) (ops : list O) (t : T) : option (list A * T) :=
  match ops with
  | [] => Some ([], t)
  | op :: ops => '(a, t) ← f op t; '(l, t) ← run_obs f ops t; Some (a :: l, t)
  end.

(** Steps that simulate a specification observe what it observes. *)
Lemma run_obs_refines {O A T U} (spec : O → U → option (A * U)) (exec : O → T → option (A * T)) (R : U → T → Prop) ops u t l u' :
  (∀ op u t a u', op ∈ ops → R u t → spec op u = Some (a, u') → ∃ t', exec op t = Some (a, t') ∧ R u' t') →
  R u t → run_obs spec ops u = Some (l, u') → ∃ t', run_obs exec ops t = Some (l, t') ∧ R u' t'.
Proof.
  revert u t l. induction ops as [|op ops IH]; intros u t l Hstep HR H; cbn [run_obs] in *; [injection H as <- <-; by exists t|].
  apply bind_Some in H as ([a u1] & Hs & H). apply bind_Some in H as ([l' u2] & Hr & [= <- <-]).
  destruct (Hstep op u t a u1) as (t1 & E1 & HR1); [by left|done|done|]. destruct (IH u1 t1 l') as (t2 & E2 & HR2); [|done|done|].
  - intros op' v w b v' Hin. apply Hstep. by right.
  - exists t2. rewrite E1. cbn [mbind option_bind]. by rewrite E2.
Qed.

(** ** Counting threads *)

Section Count.
Context {A : Type}.
Implicit Types (f : A → bool) (m : gmap nat A).

(** How many threads are at a place where [f] holds. *)
Definition count_of f m : Z := Z.of_nat (size (filter (λ x, f x.2 = true) m)).

Lemma count_bound f m : 0 <= count_of f m <= Z.of_nat (size m).
Proof using Type.
  unfold count_of. split; [lia|]. apply Nat2Z.inj_le. rewrite <-!size_dom. apply subseteq_size. apply dom_filter_subseteq.
Qed.

Lemma count_insert f m t a b : m !! t = Some a → count_of f (<[t := b]> m) = count_of f m - Z.b2z (f a) + Z.b2z (f b).
Proof using Type.
  intros Ht. unfold count_of.
  assert (Hd : Z.of_nat (size (filter (λ x, f x.2 = true) (delete t m))) = Z.of_nat (size (filter (λ x, f x.2 = true) m)) - Z.b2z (f a)).
  { rewrite map_filter_delete. destruct (f a) eqn:Ea; cbn [Z.b2z].
    - assert (E : filter (λ x, f x.2 = true) m !! t = Some a) by (by apply map_lookup_filter_Some).
      rewrite map_size_delete_Some by done. assert (size (filter (λ x, f x.2 = true) m) ≠ 0%nat); [|lia].
      intros H0. apply map_size_empty_inv in H0. by rewrite H0 in E.
    - rewrite delete_id; [lia|]. apply map_lookup_filter_None. right. intros x Hx. cbn. congruence. }
  destruct (f b) eqn:Eb; cbn [Z.b2z].
  - rewrite <-insert_delete_eq, map_filter_insert_True by done. rewrite map_size_insert_None; [lia|].
    apply map_lookup_filter_None. left. apply lookup_delete_eq.
  - rewrite map_filter_insert_False by (cbn; congruence). lia.
Qed.

Lemma count_zero f m t a : count_of f m = 0 → m !! t = Some a → f a = false.
Proof using Type.
  intros H0 Ht. destruct (f a) eqn:E; [|done]. unfold count_of in H0. assert (H1 : size (filter (λ x, f x.2 = true) m) = 0%nat) by lia.
  apply map_size_empty_inv in H1. assert (H2 : filter (λ x, f x.2 = true) m !! t = Some a) by (by apply map_lookup_filter_Some). by rewrite H1 in H2.
Qed.

Lemma count_pos f m t a : m !! t = Some a → f a = true → 0 < count_of f m.
Proof using Type.
  intros Ht Hf. pose proof (count_bound f m). destruct (Z.eq_dec (count_of f m) 0) as [H0|]; [|lia]. pose proof (count_zero f m t a H0 Ht). congruence.
Qed.

Lemma count_unique f m t u a b : count_of f m <= 1 → m !! t = Some a → f a = true → m !! u = Some b → f b = true → t = u.
Proof using Type.
  intros H1 Ht Ha Hu Hb. destruct (decide (t = u)) as [|Hne]; [done|]. exfalso.
  destruct (f a) eqn:Ea; [|done]. clear Ha. pose proof (count_bound f (delete t m)) as Hd.
  assert (Hc : count_of f (delete t m) = count_of f m - 1).
  { unfold count_of in *. rewrite map_filter_delete. rewrite map_size_delete_Some by (exists a; by apply map_lookup_filter_Some).
    pose proof (count_pos f m t a Ht Ea). unfold count_of in *. lia. }
  pose proof (count_pos f (delete t m) u b) as Hp. rewrite lookup_delete_ne in Hp by done. specialize (Hp Hu Hb). lia.
Qed.

Lemma count_fmap f (g : A → A) m : (∀ a, f (g a) = f a) → count_of f (g <$> m) = count_of f m.
Proof using Type.
  intros Hg. unfold count_of. f_equal. rewrite map_filter_fmap, map_size_fmap. f_equal. apply map_filter_ext. intros i x _. cbn. by rewrite Hg.
Qed.

Lemma count_none f m : map_Forall (λ _ a, f a = false) m → count_of f m = 0.
Proof using Type.
  intros Hf. unfold count_of. assert (E : filter (λ x, f x.2 = true) m = ∅); [|by rewrite E].
  apply map_empty. intros i. apply map_lookup_filter_None. right. intros x Hx Hfx. cbn in Hfx. specialize (Hf i x Hx). cbn in Hf. congruence.
Qed.
End Count.
