(* ===== verification/TableBuilder.v ===== *)
(** * The routing table builder (src/src/meta/table_builder.{h,cc})

    [TableBuilder] assigns the [copyCount] replicas of each of the [bucketCount]
    buckets to data servers.  This file holds its data and every operation of it;
    the properties are in [TableQuick] (quick table) and [TableRebuild] (destination
    table).

    Conventions.  A [std::map] is a [gmap]; where the source iterates over one, the
    iteration order is written out by sorting.  [m[k]] on a missing key inserts the
    value 0, written [touch].  [rand()] is an arbitrary stream [rand : nat → nat]; the
    position in it is part of the state.  Counters are unbounded integers: they count
    entries of one table. *)
From S2P Require Import Prelude.

(** [server_id_type]: the address of a server and its position mask; an address 0
    ([INVALID_FLAG]) marks an entry with no server. *)
Abbreviation server_id := (Z * Z)%type.
Abbreviation hash_table := (list (list (Z * Z))).

Definition INVALID_FLAG : Z := 0.

(** The return codes of [rebuildTableNew]. *)
Inductive build_code := BUILD_ERROR | BUILD_OK | BUILD_QUICK | BUILD_NO_CHANGE.

(** ** Tables: [hash_table[i][j]] is line (copy) [i], bucket [j] *)

Definition tget (t : hash_table) (i j : nat) : server_id :=
  default (0, 0) (t !! i ≫= λ line, line !! j).

Definition tset (t : hash_table) (i j : nat) (v : server_id) : hash_table :=
  alter (λ line, <[j := v]> line) i t.

(** ** Ordered iteration over [std::map] and [std::multimap] *)

Definition sid_leb (a b : server_id) : bool :=
  (a.1 <? b.1) || ((a.1 =? b.1) && (a.2 <=? b.2)).

Definition val_leb (x y : Z * server_id) : bool :=
  (x.1 <? y.1) || ((x.1 =? y.1) && sid_leb x.2 y.2).

Definition val_le (x y : Z * server_id) : Prop := Is_true (val_leb x y).

#[export] Instance val_le_dec : RelDecision val_le.
Proof. intros x y. unfold val_le. apply _. Defined.

(** [sortMapByValue]: the entries of a map as a multimap keyed by value.  Entries are
    inserted in key order and an equal value goes after the ones present. *)
Definition sortMapByValue (m : gmap server_id Z) : list (Z * server_id) :=
  merge_sort val_le ((λ kv, (kv.2, kv.1)) <$> map_to_list m).

(** The runs of equal value, which the source delimits with [upper_bound] and collects
    in a [std::set] before it draws from it. *)
Fixpoint group_by_value (l : list (Z * server_id)) : list (Z * list server_id) :=
  match l with
  | [] => []
  | (v, k) :: l =>
      match group_by_value l with
      | (v', g) :: r => if v =? v' then (v, k :: g) :: r else (v, [k]) :: (v', g) :: r
      | [] => [(v, [k])]
      end
  end.

(** [m[k]] as an lvalue read: inserts 0 when [k] is missing. *)
Definition touch (k : server_id) (m : gmap server_id Z) : gmap server_id Z :=
  match m !! k with Some _ => m | None => <[k := 0]> m end.

Definition at0 (m : gmap server_id Z) (k : server_id) : Z := default 0 (m !! k).

Definition set_at0 (m : gmap Z (gset server_id)) (k : Z) : gset server_id :=
  default ∅ (m !! k).

(** ** State

    [tb_conf] is what [setAvailableServer], [setPosMask] and the constructor fix;
    [tb_quick] what building a quick table changes; [tb_mig] what rebuilding the
    destination table changes. *)

Record tb_conf := {
  availableServer : gset server_id;
  posMask : Z;
  bucketCount : nat;
  copyCount : nat }.

Record tb_quick := {
  tokens_count_in_node_now : gmap server_id Z;
  mtokens_count_in_node : gmap server_id Z;
  mcount_server : gmap Z (gset server_id);
  mcandidate_node : gmap Z (gset server_id);
  master_server_capable : gmap server_id Z }.

Record tb_mig := {
  m_migrate_node_info : gmap server_id Z;
  s_migrate_node_info : gmap server_id Z;
  m_node_flag : gmap server_id Z;
  s_node_flag : gmap server_id Z;
  m_buckets_set : gmap server_id (gmap nat nat);
  s_buckets_set : gmap server_id (gmap nat nat);
  maxBucketCount : Z;
  maxMasterCount : Z;
  rng : nat }.

Definition empty_quick : tb_quick := {|
  tokens_count_in_node_now := ∅; mtokens_count_in_node := ∅; mcount_server := ∅;
  mcandidate_node := ∅; master_server_capable := ∅ |}.

(** The reference arguments [node_flag], [migrate_node_info], [count_info] and
    [buckets_set] of [chooseNode] and [chooseNodeInvalid] are, at every call, the [m_]
    members with [master_flag] true or the [s_] members with it false. *)
Definition node_flag (master : bool) (s : tb_mig) :=
  if master then m_node_flag s else s_node_flag s.
Definition migrate_node_info (master : bool) (s : tb_mig) :=
  if master then m_migrate_node_info s else s_migrate_node_info s.
Definition buckets_set (master : bool) (s : tb_mig) :=
  if master then m_buckets_set s else s_buckets_set s.
Definition count_info (master : bool) (s : tb_mig) :=
  if master then maxMasterCount s else maxBucketCount s.

Definition set_m_migrate (v : gmap server_id Z) (s : tb_mig) : tb_mig :=
  Build_tb_mig v (s_migrate_node_info s) (m_node_flag s) (s_node_flag s)
    (m_buckets_set s) (s_buckets_set s) (maxBucketCount s) (maxMasterCount s) (rng s).
Definition set_s_migrate (v : gmap server_id Z) (s : tb_mig) : tb_mig :=
  Build_tb_mig (m_migrate_node_info s) v (m_node_flag s) (s_node_flag s)
    (m_buckets_set s) (s_buckets_set s) (maxBucketCount s) (maxMasterCount s) (rng s).
Definition set_flag (master : bool) (v : gmap server_id Z) (s : tb_mig) : tb_mig :=
  Build_tb_mig (m_migrate_node_info s) (s_migrate_node_info s)
    (if master then v else m_node_flag s) (if master then s_node_flag s else v)
    (m_buckets_set s) (s_buckets_set s) (maxBucketCount s) (maxMasterCount s) (rng s).
Definition set_buckets (master : bool) (v : gmap server_id (gmap nat nat)) (s : tb_mig) : tb_mig :=
  Build_tb_mig (m_migrate_node_info s) (s_migrate_node_info s) (m_node_flag s) (s_node_flag s)
    (if master then v else m_buckets_set s) (if master then s_buckets_set s else v)
    (maxBucketCount s) (maxMasterCount s) (rng s).
Definition set_count (master : bool) (v : Z) (s : tb_mig) : tb_mig :=
  Build_tb_mig (m_migrate_node_info s) (s_migrate_node_info s) (m_node_flag s) (s_node_flag s)
    (m_buckets_set s) (s_buckets_set s)
    (if master then maxBucketCount s else v) (if master then v else maxMasterCount s) (rng s).
Definition set_rng (v : nat) (s : tb_mig) : tb_mig :=
  Build_tb_mig (m_migrate_node_info s) (s_migrate_node_info s) (m_node_flag s) (s_node_flag s)
    (m_buckets_set s) (s_buckets_set s) (maxBucketCount s) (maxMasterCount s) v.
Definition set_migrate (master : bool) (v : gmap server_id Z) (s : tb_mig) : tb_mig :=
  if master then set_m_migrate v s else set_s_migrate v s.

(** ** Servers *)

(** [setAvailableServer]: the server ids are those of the [ServerInfo] list. *)
Definition setAvailableServer (mask : Z) (ava_server : list Z) : gset server_id :=
  list_to_set ((λ id, (id, u32 (Z.land id mask))) <$> ava_server).

Definition isNodeAvailble (c : tb_conf) (node_id : server_id) : bool :=
  if node_id.1 =? INVALID_FLAG then false
  else bool_decide (node_id ∈ availableServer c).

(** ** Loading and writing the flat table *)

Definition loadHashTable (c : tb_conf) (p_hash_table : list Z) : hash_table :=
  (λ i, (λ j, let ip := default 0 (p_hash_table !! (i * bucketCount c + j)%nat) in
              (ip, u32 (Z.land ip (posMask c)))) <$> seq 0 (bucketCount c))
    <$> seq 0 (copyCount c).

Definition writeHashTable (c : tb_conf) (hash_table_data : hash_table) : list Z :=
  mjoin ((λ line : list server_id,
           (λ i, (default (0, 0) (line !! i)).1) <$> seq 0 (bucketCount c)) <$> hash_table_data).

(** ** Quick table: promote a live replica of every bucket whose master is gone *)

Definition changeTokensCountInNode (count_in_node : gmap server_id Z) (node_id : server_id)
    (count_server_map candidate_node_info : gmap Z (gset server_id))
    (server_capable_info : gmap server_id Z) (minus : bool)
    : gmap server_id Z * gmap Z (gset server_id) * gmap Z (gset server_id) * gmap server_id Z :=
  let n := at0 count_in_node node_id in
  let cap := at0 server_capable_info node_id in
  let n' := if minus then n - 1 else n + 1 in
  let cs1 := <[n := set_at0 count_server_map n ∖ {[node_id]}]> count_server_map in
  let cd1 := <[n - cap := set_at0 candidate_node_info (n - cap) ∖ {[node_id]}]> candidate_node_info in
  (<[node_id := n']> count_in_node,
   <[n' := {[node_id]} ∪ set_at0 cs1 n']> cs1,
   <[n' - cap := {[node_id]} ∪ set_at0 cd1 (n' - cap)]> cd1,
   touch node_id server_capable_info).

(** The search for the replica to promote: the available one of the lines
    [1 .. copyCount-1] that is master of the fewest buckets so far.  [-1] is "none". *)
Definition pickMasterLine (c : tb_conf) (idx : nat) (t : hash_table) (mtokens : gmap server_id Z)
    : Z * Z * gmap server_id Z :=
  foldl (λ '(chosen, mn, mt) next_line,
    let node_id := tget t next_line idx in
    if isNodeAvailble c node_id then
      let mt := touch node_id mt in
      if (mn =? -1) || (at0 mt node_id <? mn) then (Z.of_nat next_line, at0 mt node_id, mt)
      else (chosen, mn, mt)
    else (chosen, mn, mt)) (-1, -1, mtokens) (range 1 (copyCount c)).

Definition changeMasterNode (c : tb_conf) (idx : nat) (force_flag : bool)
    (q : tb_quick) (t : hash_table) : bool * tb_quick * hash_table :=
  let '(chosen_line_num, min_node_count, mt) := pickMasterLine c idx t (mtokens_count_in_node q) in
  let q := Build_tb_quick (tokens_count_in_node_now q) mt (mcount_server q)
             (mcandidate_node q) (master_server_capable q) in
  if min_node_count =? -1 then (false, q, t) else
  let chosen := Z.to_nat chosen_line_num in
  let new_master_node := tget t chosen idx in
  if negb force_flag &&
     (at0 (master_server_capable q) new_master_node <=? at0 (mtokens_count_in_node q) new_master_node)
  then (false, Build_tb_quick (tokens_count_in_node_now q) (mtokens_count_in_node q)
                 (mcount_server q) (mcandidate_node q)
                 (touch new_master_node (master_server_capable q)), t) else
  let org_node_id := tget t 0 idx in
  let t := tset t 0 idx new_master_node in
  let now := <[new_master_node := at0 (tokens_count_in_node_now q) new_master_node + 1]>
               (tokens_count_in_node_now q) in
  let '(mt, mc, md, cap) :=
    changeTokensCountInNode (mtokens_count_in_node q) new_master_node (mcount_server q)
      (mcandidate_node q) (master_server_capable q) false in
  if isNodeAvailble c org_node_id then
    let t := tset t chosen idx org_node_id in
    let '(mt, mc, md, cap) := changeTokensCountInNode mt org_node_id mc md cap true in
    (true, Build_tb_quick now mt mc md cap, t)
  else
    let t := tset t chosen idx (INVALID_FLAG, (tget t chosen idx).2) in
    (true, Build_tb_quick now mt mc md cap, t).

(** The three loops of [buildQuickTable]. *)
Definition quickMasterStep (c : tb_conf) (s : tb_quick * hash_table) (idx : nat)
    : tb_quick * hash_table :=
  let '(q, t) := s in
  if isNodeAvailble c (tget t 0 idx) then (q, t)
  else let '(_, q, t) := changeMasterNode c idx true q t in (q, t).

Definition quickMasters (c : tb_conf) (s : tb_quick * hash_table) : tb_quick * hash_table :=
  foldl (quickMasterStep c) s (seq 0 (bucketCount c)).

Definition quickClearCell (c : tb_conf) (line_number : nat) (t : hash_table) (idx : nat) : hash_table :=
  if isNodeAvailble c (tget t 0 idx) && negb (isNodeAvailble c (tget t line_number idx))
  then tset t line_number idx (0, 0) else t.

Definition quickClear (c : tb_conf) (t : hash_table) : hash_table :=
  foldl (λ t line_number, foldl (quickClearCell c line_number) t (seq 0 (bucketCount c)))
    t (range 1 (copyCount c)).

(** The first line [n > j] of bucket [i] that holds a server. *)
Definition nextValid (c : tb_conf) (t : hash_table) (i j : nat) : option nat :=
  list_find (λ n, (tget t n i).1 ≠ INVALID_FLAG) (range (S j) (copyCount c)) ≫= λ x, Some x.2.

Definition quickShiftCell (c : tb_conf) (i : nat) (t : hash_table) (j : nat) : hash_table :=
  if negb ((tget t j i).1 =? INVALID_FLAG) then t else
  match nextValid c t i j with
  | Some n => tset (tset t j i (tget t n i)) n i (INVALID_FLAG, INVALID_FLAG)
  | None => t
  end.

Definition quickShift (c : tb_conf) (t : hash_table) : hash_table :=
  foldl (λ t i, foldl (quickShiftCell c i) t (range 1 (copyCount c)))
    t (seq 0 (bucketCount c)).

Definition buildQuickTable (c : tb_conf) (q : tb_quick) (hash_table_dest : hash_table)
    : bool * tb_quick * hash_table :=
  let '(q, t) := quickMasters c (q, hash_table_dest) in
  (true, q, quickShift c (quickClear c t)).

(** ** Destination table *)

Definition initTokenCount (c : tb_conf) : gmap server_id Z :=
  gset_to_gmap 0 (availableServer c).

Definition updateNodeCount (node_id : server_id) (collector : gmap server_id Z)
    : bool * gmap server_id Z :=
  match collector !! node_id with
  | Some n => (true, <[node_id := n + 1]> collector)
  | None => (false, collector)
  end.

Definition initCandidateNew (node_min_count : Z) (pcount_server : gmap server_id Z)
    : gmap server_id Z :=
  (λ n, n - node_min_count) <$> pcount_server.

Definition checkNodeOk (c : tb_conf) (node : server_id) (bucket_num position : nat)
    (t : hash_table) : bool :=
  forallb (λ i, Nat.eqb position i || negb ((tget t i bucket_num).1 =? node.1))
    (seq 0 (copyCount c)).

Definition decrNodeCount (node : server_id) (m : gmap server_id Z) : gmap server_id Z :=
  if node.1 =? INVALID_FLAG then m else
  match m !! node with Some n => <[node := n - 1]> m | None => m end.

Definition incrNodeCount (node : server_id) (m : gmap server_id Z) : gmap server_id Z :=
  if node.1 =? INVALID_FLAG then m else
  match m !! node with Some n => <[node := n + 1]> m | None => m end.

(** [buckets_set[node].insert((bucket, position))]: keeps the position already there. *)
Definition insertBucketMap (node : server_id) (bucket position : nat)
    (bs : gmap server_id (gmap nat nat)) : gmap server_id (gmap nat nat) :=
  let m := default ∅ (bs !! node) in
  <[node := match m !! bucket with Some _ => m | None => <[bucket := position]> m end]> bs.

Definition eraseBucketMap (node : server_id) (bucket : nat)
    (bs : gmap server_id (gmap nat nat)) : gmap server_id (gmap nat nat) :=
  <[node := delete bucket (default ∅ (bs !! node))]> bs.

(** [checkRebuildNeed]: [inl b] is an early [return b], [inr s] the set of servers seen. *)
Fixpoint checkSlaves (c : tb_conf) (t : hash_table) (i : nat) (js : list nat)
    (s : gset server_id) : bool + gset server_id :=
  match js with
  | [] => inr s
  | j :: js =>
      let node := tget t j i in
      if node.1 =? INVALID_FLAG then inl true
      else if bool_decide (node ∈ availableServer c)
           then checkSlaves c t i js ({[node]} ∪ s)
           else inl false
  end.

Fixpoint checkBuckets (c : tb_conf) (t : hash_table) (idxs : list nat)
    (s : gset server_id) : bool + gset server_id :=
  match idxs with
  | [] => inr s
  | i :: idxs =>
      let master := tget t 0 i in
      if bool_decide (master ∈ availableServer c) then
        match checkSlaves c t i (range 1 (copyCount c)) ({[master]} ∪ s) with
        | inl b => inl b
        | inr s => checkBuckets c t idxs s
        end
      else checkBuckets c t idxs s
  end.

Definition checkRebuildNeed (c : tb_conf) (t : hash_table) : bool :=
  match checkBuckets c t (seq 0 (bucketCount c)) ∅ with
  | inl b => b
  | inr compare_server => negb (bool_decide (availableServer c = compare_server))
  end.

(** [initBucketSet]: which buckets each server is master (slave) of; a bucket whose
    master is not available is in neither. *)
Definition initBucketSet (c : tb_conf) (t : hash_table)
    : gmap server_id (gmap nat nat) * gmap server_id (gmap nat nat) :=
  let e := gset_to_gmap ∅ (availableServer c) in
  foldl (λ s i,
    let master := tget t 0 i in
    if bool_decide (master ∈ availableServer c) then
      (insertBucketMap master i 0 s.1,
       foldl (λ sb j, insertBucketMap (tget t j i) i j sb) s.2 (range 1 (copyCount c)))
    else s) (e, e) (seq 0 (bucketCount c)).

(** The counts of [tokens_count_in_node] and [mtokens_count_in_node]. *)
Definition countLine (c : tb_conf) (t : hash_table) (k : nat) (m : gmap server_id Z)
    : gmap server_id Z :=
  foldl (λ m i, (updateNodeCount (tget t k i) m).2) m (seq 0 (bucketCount c)).

Definition countTokens (c : tb_conf) (t : hash_table) : gmap server_id Z :=
  foldl (λ m k, countLine c t k m) (initTokenCount c) (seq 0 (length t)).

Definition countMasters (c : tb_conf) (t : hash_table) : gmap server_id Z :=
  if decide (t = []) then initTokenCount c else countLine c t 0 (initTokenCount c).

Section Rebuild.
Variable rand : nat → nat.

(** [getNode]: draws and erases a server of the set; the last one is not erased. *)
Definition getNode (servers_temp : list server_id) (mod_num r : nat)
    : server_id * list server_id * nat :=
  if Nat.eqb mod_num 1 then (default (0, 0) (servers_temp !! 0%nat), servers_temp, r)
  else let server_index := (rand r mod mod_num)%nat in
       match servers_temp !! server_index with
       | Some s => (s, delete server_index servers_temp, S r)
       | None => ((INVALID_FLAG, INVALID_FLAG), servers_temp, S r)
       end.

(** [for (n = mod_count; n > 0; n--)] over one group, until the body accepts a server. *)
Fixpoint tryGroup {R} (n : nat) (temp_server : list server_id) (r : nat)
    (body : server_id → option R) : option R * nat :=
  match n with
  | O => (None, r)
  | S n' =>
      let '(check_node_now, temp', r') := getNode temp_server n r in
      match body check_node_now with
      | Some x => (Some x, r')
      | None => tryGroup n' temp' r' body
      end
  end.

(** The loop over the groups, lowest value first; with [negative_only] it stops at the
    first value that is not negative. *)
Fixpoint tryGroups {R} (negative_only : bool) (gs : list (Z * list server_id)) (r : nat)
    (body : server_id → option R) : option R * nat :=
  match gs with
  | [] => (None, r)
  | (v, g) :: gs =>
      if negative_only && (0 <=? v) then (None, r) else
      match tryGroup (length g) g r body with
      | (Some x, r') => (Some x, r')
      | (None, r') => tryGroups negative_only gs r' body
      end
  end.

(** [temp_node_flag]: flag plus migrate count; reading the latter may insert keys. *)
Definition tempNodeFlag (master : bool) (s : tb_mig) : gmap server_id Z :=
  map_imap (λ k f, Some (f + at0 (migrate_node_info master s) k)) (node_flag master s).

Definition touchMigrate (master : bool) (s : tb_mig) : tb_mig :=
  set_migrate master
    (foldr touch (migrate_node_info master s) (elements (dom (node_flag master s)))) s.

(** [chooseNodeInvalid]: finds a server for an empty entry.  [None] is [return false]. *)
Definition placeInvalid (c : tb_conf) (bucket_num position : nat) (master : bool)
    (s : tb_mig) (t : hash_table) (check_node_now : server_id) : option (tb_mig * hash_table) :=
  if checkNodeOk c check_node_now bucket_num position t then
    let s := set_s_migrate (incrNodeCount check_node_now (s_migrate_node_info s)) s in
    let s := if master then set_m_migrate (incrNodeCount check_node_now (m_migrate_node_info s)) s
             else s in
    let s := set_buckets master
               (insertBucketMap check_node_now bucket_num position (buckets_set master s)) s in
    Some (s, tset t position bucket_num check_node_now)
  else None.

Definition chooseNodeInvalid (c : tb_conf) (bucket_num position : nat) (master : bool)
    (s : tb_mig) (t : hash_table) : option (tb_mig * hash_table) :=
  match tryGroups true (group_by_value (sortMapByValue (migrate_node_info master s))) (rng s)
          (placeInvalid c bucket_num position master s t) with
  | (Some (s', t'), r) => Some (set_rng r s', t')
  | (None, r) =>
      let flags := tempNodeFlag master s in
      let s := set_rng r (touchMigrate master s) in
      match tryGroups false (group_by_value (sortMapByValue flags)) (rng s)
              (placeInvalid c bucket_num position master s t) with
      | (Some (s', t'), r) => Some (set_rng r s', t')
      | (None, _) => None
      end
  end.

Definition chooseSlaveForInvalid (c : tb_conf) (i : nat) (st : tb_mig * hash_table)
    : option (tb_mig * hash_table) :=
  loop_until (λ st n,
    if (tget st.2 n i).1 =? INVALID_FLAG then chooseNodeInvalid c i n false st.1 st.2
    else Some st) (range 1 (copyCount c)) st.

Definition buildFirstTime (c : tb_conf) (st : tb_mig * hash_table) : option (tb_mig * hash_table) :=
  st ← loop_until (λ st i, chooseNodeInvalid c i 0 true st.1 st.2) (seq 0 (bucketCount c)) st;
  loop_until (λ st i,
    loop_until (λ st j, chooseNodeInvalid c i j false st.1 st.2) (range 1 (copyCount c)) st)
    (seq 0 (bucketCount c)) st.

(** [chooseNode]: moves one bucket away from the overloaded server [node_info].  The
    inner loop is over the buckets of that server, in order. *)
Definition bucketsOf (master : bool) (s : tb_mig) (node_info : server_id) : list (nat * nat) :=
  let m := default ∅ (buckets_set master s !! node_info) in
  omap (λ b, (λ p, (b, p)) <$> m !! b)
    (merge_sort le (elements (dom m))).

Definition moveBucket (master : bool) (node_info check_node_now : server_id) (b p : nat)
    (s : tb_mig) (t : hash_table) : tb_mig * hash_table :=
  (set_buckets master
     (eraseBucketMap node_info b (insertBucketMap check_node_now b p (buckets_set master s))) s,
   tset t p b check_node_now).

(** First pass: to a server below its share. *)
Definition moveToNegative (c : tb_conf) (master : bool) (node_info : server_id)
    (s : tb_mig) (t : hash_table) (check_node_now : server_id) : option (tb_mig * hash_table) :=
  '(_, (b, p)) ← list_find (λ bp, checkNodeOk c check_node_now bp.1 bp.2 t = true)
                   (bucketsOf master s node_info);
  let s := set_s_migrate (decrNodeCount node_info (s_migrate_node_info s)) s in
  let s := if master then set_m_migrate (decrNodeCount node_info (m_migrate_node_info s)) s else s in
  let s := set_s_migrate (incrNodeCount check_node_now (s_migrate_node_info s)) s in
  let s := if master then set_m_migrate (incrNodeCount check_node_now (m_migrate_node_info s)) s else s in
  Some (moveBucket master node_info check_node_now b p s t).

(** Second pass: to the server that exceeds its share the least. *)
Definition moveToFlagged (c : tb_conf) (master : bool) (node_info : server_id)
    (s : tb_mig) (t : hash_table) (check_node_now : server_id) : option (tb_mig * hash_table) :=
  '(_, (b, p)) ← list_find (λ bp, checkNodeOk c check_node_now bp.1 bp.2 t = true)
                   (bucketsOf master s node_info);
  let s := set_flag master (incrNodeCount check_node_now (node_flag master s)) s in
  let s := if master
           then let s := set_m_migrate (decrNodeCount node_info (m_migrate_node_info s)) s in
                let s := set_s_migrate (decrNodeCount node_info (s_migrate_node_info s)) s in
                set_s_migrate (incrNodeCount check_node_now (s_migrate_node_info s)) s
           else set_s_migrate (decrNodeCount node_info (s_migrate_node_info s)) s in
  let s := set_count master (count_info master s - 1) s in
  Some (moveBucket master node_info check_node_now b p s t).

Definition chooseNode (c : tb_conf) (master : bool) (node_info : server_id)
    (s : tb_mig) (t : hash_table) : tb_mig * hash_table :=
  match tryGroups true (group_by_value (sortMapByValue (migrate_node_info master s))) (rng s)
          (moveToNegative c master node_info s t) with
  | (Some (s', t'), r) => (set_rng r s', t')
  | (None, r) =>
      let flags := tempNodeFlag master s in
      let s := set_rng r (touchMigrate master s) in
      let s := set_flag master (touch node_info (node_flag master s)) s in
      if (at0 (node_flag master s) node_info =? 0) && (0 <? count_info master s) then
        let s := set_flag master (incrNodeCount node_info (node_flag master s)) s in
        let s := set_migrate master (decrNodeCount node_info (migrate_node_info master s)) s in
        (set_count master (count_info master s - 1) s, t)
      else
        match tryGroups false (group_by_value (sortMapByValue flags)) (rng s)
                (moveToFlagged c master node_info s t) with
        | (Some (s', t'), r) => (set_rng r s', t')
        | (None, r) => (set_rng r s, t)
        end
  end.

(** [while (it_while->first > 0) chooseNode(...)]: [None] when the fuel runs out. *)
Fixpoint chooseLoop (fuel : nat) (c : tb_conf) (master : bool) (st : tb_mig * hash_table)
    : option (tb_mig * hash_table) :=
  match list.last (sortMapByValue (migrate_node_info master st.1)) with
  | Some (v, node) =>
      if 0 <? v then
        match fuel with
        | O => None
        | S fuel => chooseLoop fuel c master (chooseNode c master node st.1 st.2)
        end
      else Some st
  | None => None
  end.

(** Step 1 of [rebuildTableNew] for one bucket with a live master and a missing slave:
    the master may become a slave when its server is master of too many buckets. *)
Definition demoteMaster (c : tb_conf) (i : nat) (s : tb_mig) (t : hash_table) : tb_mig * hash_table :=
  let master := tget t 0 i in
  let s := set_m_migrate (decrNodeCount master (m_migrate_node_info s)) s in
  match list_find (λ n, (tget t n i).1 = INVALID_FLAG) (range 1 (copyCount c)) with
  | Some (_, n) =>
      let s := set_buckets true (eraseBucketMap master i (m_buckets_set s)) s in
      let s := set_buckets false (insertBucketMap master i n (s_buckets_set s)) s in
      (s, tset (tset t n i master) 0 i (INVALID_FLAG, master.2))
  | None => (s, t)
  end.

Definition demoteAndFill (c : tb_conf) (i : nat) (s : tb_mig) (t : hash_table)
    : option (tb_mig * hash_table) :=
  let '(s, t) := demoteMaster c i s t in
  st ← chooseNodeInvalid c i 0 true s t;
  chooseSlaveForInvalid c i st.

(** Bucket [i] has a live master and a missing slave ([need_check_master]). *)
Definition fixMissing (c : tb_conf) (i : nat) (s : tb_mig) (t : hash_table)
    : option (tb_mig * hash_table) :=
  let master := tget t 0 i in
  let s := set_m_migrate (touch master (m_migrate_node_info s)) s in
  if at0 (m_migrate_node_info s) master <=? 0 then chooseSlaveForInvalid c i (s, t)
  else if (0 <? maxMasterCount s) && (at0 (m_node_flag s) master =? 0) then
    let s := set_flag true (incrNodeCount master (touch master (m_node_flag s))) s in
    let s := set_m_migrate (decrNodeCount master (m_migrate_node_info s)) s in
    chooseSlaveForInvalid c i (set_count true (maxMasterCount s - 1) s, t)
  else
    let s := if 0 <? maxMasterCount s then set_flag true (touch master (m_node_flag s)) s else s in
    let s := set_s_migrate (touch master (s_migrate_node_info s)) s in
    if at0 (s_migrate_node_info s) master <=? 0 then demoteAndFill c i s t
    else
      let s' := if 0 <? maxBucketCount s then set_flag false (touch master (s_node_flag s)) s else s in
      if (0 <? maxBucketCount s) && (at0 (s_node_flag s) master =? 0)
      then demoteAndFill c i s' t
      else chooseSlaveForInvalid c i (s', t).

Definition fixBucket (c : tb_conf) (st : tb_mig * hash_table) (i : nat)
    : option (tb_mig * hash_table) :=
  let '(s, t) := st in
  let master := tget t 0 i in
  if (master.1 =? INVALID_FLAG) || negb (bool_decide (master ∈ availableServer c)) then Some (s, t)
  else if existsb (λ j, (tget t j i).1 =? INVALID_FLAG) (range 1 (copyCount c))
  then fixMissing c i s t
  else Some (s, t).

(** The final check: how many servers hold more than the minimum share. *)
Definition overShare (bound : Z) (m : gmap server_id Z) : Z :=
  Z.of_nat (size (filter (λ kv, bound < kv.2) m)).

Definition threshold_value : Z := 8.

(** What a call of [rebuildTableNew] does: returns a code and the table, divides by a
    zero number of servers, or is still in one of its [while] loops. *)
Inductive rebuild_outcome :=
| Built (code : build_code) (t : hash_table)
| DividesByZero
| StillRunning.

(** The state on entry of step 1. *)
Definition initRebuild (c : tb_conf) (src : hash_table) (r : nat) : tb_mig :=
  let S := Z.of_nat (size (availableServer c)) in
  let B := Z.of_nat (bucketCount c) in
  let total := u32 (B * Z.of_nat (copyCount c)) in
  let '(mb, sb) := initBucketSet c src in
  {| m_migrate_node_info := initCandidateNew (i32 (B / S)) (countMasters c src);
     s_migrate_node_info := initCandidateNew (i32 (total / S)) (countTokens c src);
     m_node_flag := initTokenCount c;
     s_node_flag := initTokenCount c;
     m_buckets_set := mb;
     s_buckets_set := sb;
     maxBucketCount := i32 (total mod S);
     maxMasterCount := i32 (B mod S);
     rng := r |}.

(** The balance check that ends [rebuildTableNew]. *)
Definition balanceOk (c : tb_conf) (t : hash_table) : bool :=
  let S := Z.of_nat (size (availableServer c)) in
  let B := Z.of_nat (bucketCount c) in
  let total := u32 (B * Z.of_nat (copyCount c)) in
  let stat_count := overShare (i32 (total / S)) (countTokens c t) in
  let stat_m_count := overShare (i32 (B / S)) (countMasters c t) in
  negb ((threshold_value <? stat_m_count - i32 (B mod S)) ||
        (threshold_value <? stat_count - i32 (total mod S))).

Definition rebuildTableNew (fuel : nat) (c : tb_conf) (r : nat) (hash_table_source : hash_table)
    : rebuild_outcome :=
  let src := hash_table_source in
  if negb (checkRebuildNeed c src) then Built BUILD_NO_CHANGE src
  else if Nat.eqb (size (availableServer c)) 0 then DividesByZero
  else if Nat.ltb (size (availableServer c)) (copyCount c) then Built BUILD_ERROR src
  else
    match loop_until (fixBucket c) (seq 0 (bucketCount c)) (initRebuild c src r, src) with
    | None => Built BUILD_ERROR src
    | Some (s, t) =>
        if (tget t 0 0).1 =? INVALID_FLAG then
          if existsb (λ i, negb ((tget t 0 i).1 =? INVALID_FLAG)) (seq 0 (bucketCount c))
          then Built BUILD_ERROR t
          else match buildFirstTime c (s, t) with
               | Some (_, t) => Built BUILD_OK t
               | None => Built BUILD_ERROR t
               end
        else
          match chooseLoop fuel c true (s, t) with
          | None => StillRunning
          | Some st =>
              match chooseLoop fuel c false st with
              | None => StillRunning
              | Some (_, t) => if balanceOk c t then Built BUILD_OK t else Built BUILD_ERROR t
              end
          end
    end.
End Rebuild.

(** ** Facts on tables shared by the two building phases *)

(** A table has [copyCount] lines of [bucketCount] entries. *)
Definition wf_table (c : tb_conf) (t : hash_table) : Prop :=
  length t = copyCount c ∧ Forall (λ line, length line = bucketCount c) t.

(** The replicas of bucket [i], master first, and its slaves. *)
Definition column (c : tb_conf) (t : hash_table) (i : nat) : list server_id :=
  (λ k, tget t k i) <$> seq 0 (copyCount c).

Definition slaves (c : tb_conf) (t : hash_table) (i : nat) : list server_id :=
  (λ k, tget t k i) <$> range 1 (copyCount c).

Create HintDb table.

Lemma tset_wf c t i j v : wf_table c t → wf_table c (tset t i j v).
Proof.
  intros [Hl Hf]. unfold tset. split; [by rewrite length_alter|].
  apply Forall_lookup. intros k line. rewrite list_lookup_alter.
  destruct (decide (i = k)).
  - intros (line' & Hk & ->)%fmap_Some. rewrite length_insert.
    by eapply (Forall_lookup_1 _ _ _ _ Hf).
  - intros Hk. by eapply (Forall_lookup_1 _ _ _ _ Hf).
Qed.

Lemma tget_tset_eq c t i j v :
  wf_table c t → (i < copyCount c)%nat → (j < bucketCount c)%nat → tget (tset t i j v) i j = v.
Proof.
  intros [Hl Hf] Hi Hj. unfold tget, tset. rewrite list_lookup_alter, decide_True by done.
  destruct (lookup_lt_is_Some_2 t i) as [line Hline]; [lia|]. rewrite Hline. simpl.
  rewrite list_lookup_insert_eq; [done|].
  by rewrite (Forall_lookup_1 _ _ _ _ Hf Hline).
Qed.

Lemma tget_tset_ne t i j i' j' v :
  (i ≠ i' ∨ j ≠ j') → tget (tset t i j v) i' j' = tget t i' j'.
Proof.
  intros H. unfold tget, tset. rewrite list_lookup_alter.
  destruct (decide (i = i')) as [<-|]; [|done].
  destruct (t !! i); simpl; [|done]. rewrite list_lookup_insert_ne; [done|]. by destruct H.
Qed.

Lemma tget_tset c t i j i' j' v :
  wf_table c t → (i < copyCount c)%nat → (j < bucketCount c)%nat →
  tget (tset t i j v) i' j' = if decide (i = i' ∧ j = j') then v else tget t i' j'.
Proof.
  intros Hwf Hi Hj. case_decide as E.
  - destruct E as [<- <-]. by eapply tget_tset_eq.
  - apply tget_tset_ne. destruct (decide (i = i')); [right; naive_solver|by left].
Qed.

#[export] Hint Resolve tset_wf : table.

(** Rewrites every read of an updated table in the goal; [lia] settles the ranges. *)
Ltac tget_simpl :=
  repeat match goal with
  | |- context [tget (tset ?t ?i ?j ?v) ?i ?j] =>
      rewrite (tget_tset_eq _ t i j v) by (eauto with table; lia)
  | |- context [tget (tset ?t ?i ?j ?v) ?i' ?j'] =>
      rewrite (tget_tset_ne t i j i' j' v) by (first [left; lia | right; lia | auto])
  end.

Lemma lookup_column c t i k :
  (k < copyCount c)%nat → column c t i !! k = Some (tget t k i).
Proof. intros H. unfold column. by rewrite list_lookup_fmap, lookup_seq_lt. Qed.

Lemma length_column c t i : length (column c t i) = copyCount c.
Proof. unfold column. by rewrite length_fmap, length_seq. Qed.

Lemma column_cons c t i :
  (0 < copyCount c)%nat → column c t i = tget t 0 i :: slaves c t i.
Proof.
  intros H. unfold column, slaves, range. destruct (copyCount c) as [|C]; [lia|].
  simpl. by rewrite Nat.sub_0_r.
Qed.

Lemma column_ext c t t' i :
  (∀ k, (k < copyCount c)%nat → tget t k i = tget t' k i) → column c t i = column c t' i.
Proof.
  intros H. unfold column. apply list_fmap_ext. intros j k Hk.
  apply H. apply lookup_seq in Hk. lia.
Qed.

Lemma slaves_ext c t t' i :
  (∀ k, (1 <= k < copyCount c)%nat → tget t k i = tget t' k i) → slaves c t i = slaves c t' i.
Proof.
  intros H. unfold slaves. apply list_fmap_ext. intros j k Hk.
  apply H. unfold range in Hk. apply lookup_seq in Hk. lia.
Qed.

Lemma elem_of_column c t i x :
  x ∈ column c t i ↔ ∃ k, (k < copyCount c)%nat ∧ x = tget t k i.
Proof.
  unfold column. rewrite list_elem_of_fmap. split; intros (k & ? & ?); exists k.
  - rewrite elem_of_seq in *. split; [lia|done].
  - rewrite elem_of_seq. split; [done|lia].
Qed.

Lemma isNodeAvailble_spec c n :
  isNodeAvailble c n = true ↔ n.1 ≠ INVALID_FLAG ∧ n ∈ availableServer c.
Proof.
  unfold isNodeAvailble. destruct (n.1 =? INVALID_FLAG) eqn:E; bool_cases.
  - split; [done|]. tauto.
  - rewrite bool_decide_eq_true. tauto.
Qed.

Lemma isNodeAvailble_false c n :
  isNodeAvailble c n = false ↔ ¬ (n.1 ≠ INVALID_FLAG ∧ n ∈ availableServer c).
Proof. rewrite <- isNodeAvailble_spec. by destruct (isNodeAvailble c n). Qed.
