(* ===== verification/TableQuick.v ===== *)
(** * The quick table (src/src/meta/table_builder.cc, [buildQuickTable])

    When a server goes down the quick table restores service at once: a live replica of
    every bucket becomes its master and dead replicas are dropped.  The specification is
    one row at a time: the new row is the live part of the old one, master first, with
    the empty entries at the end. *)
From S2P Require Import Prelude TableBuilder.

(** The live replicas among [l], in order. *)
Definition live (c : tb_conf) (l : list server_id) : list server_id :=
  filter (λ n, isNodeAvailble c n = true) l.

(** An entry that holds a server. *)
Definition valid (n : server_id) : Prop := n.1 ≠ INVALID_FLAG.

#[export] Instance valid_dec n : Decision (valid n).
Proof. unfold valid. apply _. Defined.

(** Master counts, which the search for a new master compares with the sentinel -1. *)
Definition counts_nonneg (m : gmap server_id Z) : Prop := map_Forall (λ _ n, 0 <= n) m.

Definition quick_inv (c : tb_conf) (s : tb_quick * hash_table) : Prop :=
  wf_table c s.2 ∧ counts_nonneg (mtokens_count_in_node s.1).

(** ** Choosing the replica to promote *)

Lemma touch_nonneg k m : counts_nonneg m → counts_nonneg (touch k m).
Proof.
  intros H. unfold touch. destruct (m !! k); [done|]. by apply map_Forall_insert_2.
Qed.

Lemma touch_at0 k m k' : at0 (touch k m) k' = at0 m k'.
Proof.
  unfold touch, at0. destruct (m !! k) eqn:E; [done|].
  destruct (decide (k = k')) as [<-|]; simplify_map_eq; done.
Qed.

Lemma counts_at0 m k : counts_nonneg m → 0 <= at0 m k.
Proof. intros H. unfold at0. destruct (m !! k) eqn:E; simpl; [by eapply H|lia]. Qed.

(** What [pickMasterLine] returns: a line of a live replica, or none exists. *)
Definition pick_ok (c : tb_conf) (t : hash_table) (idx : nat) (seen : list nat)
    (r : Z * Z * gmap server_id Z) : Prop :=
  let '(chosen, mn, mt) := r in
  counts_nonneg mt ∧
  ((mn = -1 ∧ ∀ k, k ∈ seen → isNodeAvailble c (tget t k idx) = false) ∨
   (0 <= mn ∧ ∃ k, chosen = Z.of_nat k ∧ k ∈ seen ∧ isNodeAvailble c (tget t k idx) = true)).

Lemma pickMasterLine_ok c idx t mt :
  counts_nonneg mt →
  pick_ok c t idx (range 1 (copyCount c)) (pickMasterLine c idx t mt).
Proof.
  intros Hmt. unfold pickMasterLine. generalize (range 1 (copyCount c)). intros l.
  induction l as [|k l IH] using rev_ind.
  { split; [done|]. left. split; [done|]. intros k Hk. inversion Hk. }
  rewrite foldl_app. simpl. destruct (foldl _ _ l) as [[chosen mn] m]. destruct IH as [Hm Hor].
  destruct (isNodeAvailble c (tget t k idx)) eqn:Hk.
  - pose proof (counts_at0 _ (tget t k idx) (touch_nonneg (tget t k idx) _ Hm)).
    destruct ((mn =? -1) || _) eqn:E; (split; [by apply touch_nonneg|right]).
    + split; [done|]. exists k. rewrite elem_of_snoc. auto.
    + bool_cases. destruct Hor as [[-> Hno]|[? (k' & -> & Hk' & ?)]]; [done|].
      split; [done|]. exists k'. rewrite elem_of_snoc. auto.
  - split; [done|]. destruct Hor as [[-> Hno]|[? (k' & -> & Hk' & ?)]].
    + left. split; [done|]. intros k'. rewrite elem_of_snoc.
      intros [?| ->]; [by apply Hno|done].
    + right. split; [done|]. exists k'. rewrite elem_of_snoc. auto.
Qed.

(** ** Promoting: one bucket *)

(** [promoted c t t' i]: bucket [i] of [t'] is that of [t] with the live replica of some
    line [k] moved to the master line and its old entry emptied. *)
Definition promoted (c : tb_conf) (t t' : hash_table) (i : nat) : Prop :=
  ∃ k, (1 <= k < copyCount c)%nat ∧ isNodeAvailble c (tget t k i) = true ∧
    tget t' 0 i = tget t k i ∧ (tget t' k i).1 = INVALID_FLAG ∧
    ∀ j, (j < copyCount c)%nat → j ≠ 0%nat → j ≠ k → tget t' j i = tget t j i.

Lemma changeMasterNode_spec c idx q t b q' t' :
  quick_inv c (q, t) → (idx < bucketCount c)%nat →
  isNodeAvailble c (tget t 0 idx) = false →
  changeMasterNode c idx true q t = (b, q', t') →
  quick_inv c (q', t') ∧ (∀ k j, j ≠ idx → tget t' k j = tget t k j) ∧
  if b then promoted c t t' idx
  else t' = t ∧ ∀ k, (1 <= k < copyCount c)%nat → isNodeAvailble c (tget t k idx) = false.
Proof.
  intros [Hwf Hnn] Hidx Hdead. unfold changeMasterNode. simpl in Hwf, Hnn.
  pose proof (pickMasterLine_ok c idx t _ Hnn) as Hpick.
  destruct (pickMasterLine _ _ _ _) as [[chosen mn] mt]. destruct Hpick as [Hmt Hor].
  cbn -[changeTokensCountInNode].
  destruct Hor as [[-> Hno]|[Hmn (k & -> & Hk & Hav)]].
  { intros [= <- <- <-]. split_and!; [done|done|done|].
    intros k Hk. apply Hno. by apply elem_of_range. }
  apply elem_of_range in Hk. rewrite (proj2 (Z.eqb_neq mn (-1))) by lia.
  rewrite Nat2Z.id, Hdead. intros [= <- <- <-]. simpl.
  split_and!.
  - split; simpl; [by auto with table|].
    apply map_Forall_insert_2; [|done]. pose proof (counts_at0 _ (tget t k idx) Hmt). lia.
  - intros k' j Hj. by tget_simpl.
  - exists k. split_and!; [lia|lia|done| | |].
    + by tget_simpl.
    + by tget_simpl.
    + intros j ? Hj0 Hjk. by tget_simpl.
Qed.

Lemma tget_column c t t' i k :
  column c t i = column c t' i → (k < copyCount c)%nat → tget t k i = tget t' k i.
Proof.
  intros H Hk. apply (f_equal (lookup k)) in H. rewrite !lookup_column in H by done. congruence.
Qed.

Lemma promoted_ext c t1 t1' t2 t2' i :
  (0 < copyCount c)%nat → column c t1 i = column c t2 i → column c t1' i = column c t2' i →
  promoted c t1 t1' i → promoted c t2 t2' i.
Proof.
  intros HC H1 H2 (k & Hk & Hav & Hm & Hz & Hoth). exists k.
  rewrite <- !(tget_column _ _ _ _ k H1), <- (tget_column _ _ _ _ 0 H2),
    <- (tget_column _ _ _ _ k H2) by lia.
  split_and!; try done; try lia. intros j Hj ??.
  rewrite <- (tget_column _ _ _ _ j H1), <- (tget_column _ _ _ _ j H2) by done. by apply Hoth.
Qed.

(** The first loop: a live master stays, else a live replica is promoted, else the
    bucket has no live replica and stays as it is. *)
Definition mastered (c : tb_conf) (t t' : hash_table) (i : nat) : Prop :=
  if isNodeAvailble c (tget t 0 i) then column c t' i = column c t i
  else promoted c t t' i ∨
       (column c t' i = column c t i ∧
        ∀ k, (1 <= k < copyCount c)%nat → isNodeAvailble c (tget t k i) = false).

Lemma quickMasterStep_inv c s i :
  (i < bucketCount c)%nat → quick_inv c s → quick_inv c (quickMasterStep c s i).
Proof.
  intros Hi Hs. destruct s as [q t]. unfold quickMasterStep.
  destruct (isNodeAvailble c _) eqn:E; [done|].
  destruct (changeMasterNode c i true q t) as [[b q'] t'] eqn:E'.
  by destruct (changeMasterNode_spec _ _ _ _ _ _ _ Hs Hi E E') as [? _].
Qed.

Lemma quickMasterStep_local c s i j :
  (i < bucketCount c)%nat → quick_inv c s → i ≠ j →
  column c (quickMasterStep c s i).2 j = column c s.2 j.
Proof.
  intros Hi Hs Hij. destruct s as [q t]. unfold quickMasterStep.
  destruct (isNodeAvailble c _) eqn:E; [done|].
  destruct (changeMasterNode c i true q t) as [[b q'] t'] eqn:E'. simpl.
  destruct (changeMasterNode_spec _ _ _ _ _ _ _ Hs Hi E E') as (_ & H & _).
  apply column_ext. intros. apply H. congruence.
Qed.

Lemma quickMasterStep_at c s i :
  (0 < copyCount c)%nat → (i < bucketCount c)%nat → quick_inv c s →
  mastered c s.2 (quickMasterStep c s i).2 i.
Proof.
  intros HC Hi Hs. destruct s as [q t]. unfold mastered, quickMasterStep. simpl.
  destruct (isNodeAvailble c _) eqn:E; [done|].
  destruct (changeMasterNode c i true q t) as [[b q'] t'] eqn:E'. simpl.
  destruct (changeMasterNode_spec _ _ _ _ _ _ _ Hs Hi E E') as (_ & _ & H).
  destruct b; [by left|]. destruct H as [-> ?]. by right.
Qed.

Lemma mastered_ext c t1 t1' t2 t2' i :
  (0 < copyCount c)%nat → column c t1 i = column c t2 i → column c t1' i = column c t2' i →
  mastered c t1 t1' i → mastered c t2 t2' i.
Proof.
  intros HC H1 H2. unfold mastered.
  rewrite <- !(tget_column _ _ _ _ 0 H1) by lia. rewrite <- H1, <- H2.
  destruct (isNodeAvailble c _); [done|]. intros [Hp|[? Hno]].
  - left. by eapply promoted_ext.
  - right. split; [done|]. intros k Hk. rewrite <- !(tget_column _ _ _ _ k H1) by lia. auto.
Qed.

(** Indices in range of a loop over [seq 0 n], for [foldl_local]. *)
Definition masterStepIn (c : tb_conf) (s : tb_quick * hash_table) (i : nat) :=
  if decide (i < bucketCount c)%nat then quickMasterStep c s i else s.

Lemma quickMasters_step c s :
  quickMasters c s = foldl (masterStepIn c) s (seq 0 (bucketCount c)).
Proof.
  apply foldl_ext_in. intros a i Hi%elem_of_seq. unfold masterStepIn. by rewrite decide_True by lia.
Qed.

Lemma quickMasters_spec c s i :
  (0 < copyCount c)%nat → (i < bucketCount c)%nat → quick_inv c s →
  mastered c s.2 (quickMasters c s).2 i.
Proof.
  intros HC Hi Hs. rewrite quickMasters_step.
  destruct (foldl_local (quick_inv c) (masterStepIn c) (λ j s, column c s.2 j)
              (bucketCount c) s i) as (s' & Hs' & H1 & H2); [| |done|done|].
  - intros s' k ?. unfold masterStepIn. case_decide; [by apply quickMasterStep_inv|done].
  - intros s' k j ??. unfold masterStepIn. case_decide; [by apply quickMasterStep_local|done].
  - eapply mastered_ext; [done|exact H1|symmetry; exact H2|].
    unfold masterStepIn. rewrite decide_True by done. by apply quickMasterStep_at.
Qed.

Lemma quickMasters_wf c s : quick_inv c s → quick_inv c (quickMasters c s).
Proof.
  intros Hs. rewrite quickMasters_step. apply foldl_inv; [|done].
  intros s' i Hi ?. unfold masterStepIn. case_decide; [by apply quickMasterStep_inv|done].
Qed.

(** ** Dropping dead replicas *)

Definition dropCell (c : tb_conf) (t : hash_table) (k i : nat) : server_id :=
  if isNodeAvailble c (tget t 0 i) && negb (isNodeAvailble c (tget t k i))
  then (0, 0) else tget t k i.

Lemma clearLine_spec c t k n :
  wf_table c t → (1 <= k < copyCount c)%nat → (n <= bucketCount c)%nat →
  let t' := foldl (quickClearCell c k) t (seq 0 n) in
  wf_table c t' ∧
  ∀ k' i, tget t' k' i = if decide (k' = k ∧ (i < n)%nat) then dropCell c t k i else tget t k' i.
Proof.
  intros Hwf Hk. induction n as [|n IH]; intros Hn.
  { split; [done|]. intros. rewrite decide_False by lia. done. }
  destruct IH as [Hwf' IH]; [lia|]. rewrite seq_S, foldl_app. simpl.
  set (t1 := foldl _ t _) in *. unfold quickClearCell at 1 2.
  rewrite !IH, decide_False, decide_False by lia.
  split; [split_if; auto with table|]. intros k' i. split_if.
  - destruct (decide (k' = k ∧ i = n)) as [[-> ->]|Hne].
    + rewrite (tget_tset_eq c), decide_True by (done || lia). unfold dropCell. by rewrite H, H0.
    + rewrite tget_tset_ne, IH by lia. repeat case_decide; try done; lia.
  - rewrite IH. destruct (decide (k' = k ∧ i = n)) as [[-> ->]|Hne].
    + rewrite decide_False, decide_True by lia. unfold dropCell. by rewrite E.
    + repeat case_decide; try done; lia.
Qed.

Lemma quickClear_spec c t :
  wf_table c t →
  wf_table c (quickClear c t) ∧
  ∀ k i, (k < copyCount c)%nat → (i < bucketCount c)%nat →
    tget (quickClear c t) k i = if decide (k = 0)%nat then tget t 0 i else dropCell c t k i.
Proof.
  intros Hwf. unfold quickClear.
  enough (∀ m, (1 <= m)%nat → (m <= copyCount c)%nat →
    let t' := foldl (λ t l, foldl (quickClearCell c l) t (seq 0 (bucketCount c))) t (range 1 m) in
    wf_table c t' ∧ ∀ k i, (i < bucketCount c)%nat →
      tget t' k i = if decide (1 <= k < m)%nat then dropCell c t k i else tget t k i) as H.
  { destruct (decide (1 <= copyCount c)%nat) as [HC|HC].
    - destruct (H _ HC (le_n _)) as [? H']. split; [done|]. intros k i ??. rewrite H' by done.
      repeat case_decide; subst; try done; lia.
    - unfold range. replace (copyCount c - 1)%nat with 0%nat by lia. split; [done|]. lia. }
  intros m Hm. induction Hm as [|m Hm IH]; intros Hle.
  { unfold range. simpl. split; [done|]. intros. by rewrite decide_False by lia. }
  rewrite range_S, foldl_app by lia. simpl. destruct IH as [Hwf1 IH]; [lia|].
  destruct (clearLine_spec c _ m (bucketCount c) Hwf1) as [Hwf2 H2]; [lia|lia|].
  split; [done|]. intros k i Hi. rewrite H2.
  destruct (decide (k = m ∧ (i < bucketCount c)%nat)) as [[-> _]|Hne].
  - rewrite decide_True by lia. unfold dropCell.
    rewrite !IH, !decide_False by lia. done.
  - rewrite IH by done. repeat case_decide; try done; lia.
Qed.

(** ** Closing the gaps *)


Lemma nextValid_Some c t i j n :
  nextValid c t i j = Some n →
  (j < n < copyCount c)%nat ∧ valid (tget t n i) ∧
  ∀ k, (j < k < n)%nat → ¬ valid (tget t k i).
Proof.
  unfold nextValid. intros H. step_inv H. destruct x as [p n']. injection H as ->.
  apply list_find_Some in E as (Hl & Hv & Hbefore). simpl in Hv. unfold range in Hl.
  apply lookup_seq in Hl as Hl'. split_and!; [lia|lia|done|].
  intros k Hk Hval. apply (Hbefore (k - S j)%nat k); [|lia|done].
  unfold range. rewrite lookup_seq. lia.
Qed.

Lemma nextValid_None c t i j :
  nextValid c t i j = None → ∀ k, (j < k < copyCount c)%nat → ¬ valid (tget t k i).
Proof.
  unfold nextValid. destruct (list_find _ _) as [[]|] eqn:E; [done|]. intros _ k Hk.
  apply list_find_None in E. rewrite list.Forall_forall in E. apply E. apply elem_of_range. lia.
Qed.

(** What the inner loop keeps when it has treated the lines below [m] of bucket [i]. *)
Definition shift_inv (c : tb_conf) (t : hash_table) (i m : nat) (t' : hash_table) : Prop :=
  wf_table c t' ∧ (∀ k j, j ≠ i ∨ k = 0%nat → tget t' k j = tget t k j) ∧
  filter valid (slaves c t' i) = filter valid (slaves c t i) ∧
  (∀ x, x ∈ slaves c t' i → valid x ∨ x = (0, 0) ∨ x ∈ slaves c t i) ∧
  ∀ a b, (1 <= a < m)%nat → (a <= b < copyCount c)%nat →
    ¬ valid (tget t' a i) → ¬ valid (tget t' b i).

Lemma fmap_filter_range_ext t t' i a b :
  (∀ k, (a <= k < b)%nat → tget t' k i = tget t k i) →
  filter valid ((λ k, tget t' k i) <$> range a b) = filter valid ((λ k, tget t k i) <$> range a b).
Proof.
  intros H. f_equal. apply list_fmap_ext. intros n k Hk. apply H.
  unfold range in Hk. apply lookup_seq in Hk. lia.
Qed.

Lemma filter_invalid_range t i a b :
  (∀ k, (a <= k < b)%nat → ¬ valid (tget t k i)) → filter valid ((λ k, tget t k i) <$> range a b) = [].
Proof.
  intros H. apply filter_nil_iff. intros x (k & -> & Hk)%list_elem_of_fmap.
  apply H. by apply elem_of_range.
Qed.

(** Moving the next server into an empty entry keeps the order of the servers. *)
Lemma filter_shift c t i j n :
  wf_table c t → (i < bucketCount c)%nat → (1 <= j < n)%nat → (n < copyCount c)%nat →
  ¬ valid (tget t j i) → valid (tget t n i) → (∀ k, (j < k < n)%nat → ¬ valid (tget t k i)) →
  filter valid (slaves c (tset (tset t j i (tget t n i)) n i (INVALID_FLAG, INVALID_FLAG)) i)
  = filter valid (slaves c t i).
Proof.
  intros Hwf Hi Hj Hn Hjv Hnv Hbetween. set (t' := tset _ _ _ _).
  assert (Hfr : ∀ k, k ≠ j → k ≠ n → tget t' k i = tget t k i) by (intros; unfold t'; by tget_simpl).
  assert (H1 : tget t' j i = tget t n i) by (unfold t'; by tget_simpl).
  assert (H2 : tget t' n i = (0, 0)) by (unfold t'; by tget_simpl).
  unfold slaves. rewrite (range_split 1 (copyCount c) j), (range_split (S j) (copyCount c) n) by lia.
  rewrite !fmap_app, !fmap_cons, !fmap_app, !fmap_cons, !list.filter_app, !filter_cons, !list.filter_app,
    !filter_cons, H1, H2.
  rewrite (decide_True (P := valid (tget t n i))), (decide_False (P := valid (tget t j i))) by done.
  rewrite (decide_False (P := valid (0, 0))) by (intros H; by apply H).
  rewrite (filter_invalid_range t i (S j) n), (filter_invalid_range t' i (S j) n), !app_nil_l.
  - rewrite !(fmap_filter_range_ext t t'); [by rewrite decide_True by done| |]; intros; apply Hfr; lia.
  - intros. rewrite Hfr by lia. apply Hbetween. lia.
  - intros. apply Hbetween. lia.
Qed.

Lemma quickShiftCell_inv c t i m t' :
  (i < bucketCount c)%nat → (1 <= m < copyCount c)%nat →
  shift_inv c t i m t' → shift_inv c t i (S m) (quickShiftCell c i t' m).
Proof.
  intros Hi Hm (Hwf & Hfr & Hfil & Hel & Hord). unfold quickShiftCell.
  destruct (negb _) eqn:E; bool_cases.
  { split_and!; try done. intros a b Ha Hb.
    destruct (decide (a = m)) as [->|]; [by intros []|]. apply Hord; lia. }
  destruct (nextValid c t' i m) as [n|] eqn:En.
  - apply nextValid_Some in En as (Hn & Hnv & Hbetween).
    assert (Hmv : ¬ valid (tget t' m i)) by (unfold valid; tauto).
    split_and!.
    + auto with table.
    + intros k j Hkj. destruct Hkj as [?|Hk]; [|subst k]; tget_simpl; by apply Hfr; auto.
    + rewrite filter_shift by (done || lia). done.
    + intros x (k & -> & Hk)%list_elem_of_fmap. apply elem_of_range in Hk.
      destruct (decide (k = n)) as [->|]; [tget_simpl; by auto|].
      destruct (decide (k = m)) as [->|]; [tget_simpl; by auto|]. tget_simpl.
      apply Hel. apply list_elem_of_fmap. exists k. split; [done|]. apply elem_of_range. lia.
    + intros a b Ha Hb. destruct (decide (a = m)) as [->|]; [tget_simpl; done|].
      tget_simpl. intros Hav. destruct (Hord a n); [lia|lia|done|done].
  - pose proof (nextValid_None _ _ _ _ En) as Hnone. split_and!; try done.
    intros a b Ha Hb Hav. destruct (decide (b = a)) as [->|]; [done|].
    destruct (decide (a = m)) as [->|]; [apply Hnone; lia|]. apply (Hord a); [lia|lia|done].
Qed.

Lemma shiftBucket_inv c t i :
  wf_table c t → (i < bucketCount c)%nat → (1 <= copyCount c)%nat →
  shift_inv c t i (copyCount c) (foldl (quickShiftCell c i) t (range 1 (copyCount c))).
Proof.
  intros Hwf Hi HC.
  enough (∀ m, (1 <= m)%nat → (m <= copyCount c)%nat →
    shift_inv c t i m (foldl (quickShiftCell c i) t (range 1 m))) by auto.
  intros m Hm. induction Hm as [|m Hm IH]; intros Hle.
  { split_and!; try done; [auto|intros; lia]. }
  rewrite range_S, foldl_app by lia. simpl. apply quickShiftCell_inv; [done|lia|]. apply IH. lia.
Qed.

(** After the last loop the slaves of a bucket are the servers among those before it, in
    their order, then empty entries. *)
Lemma shift_inv_slaves c t i t' :
  shift_inv c t i (copyCount c) t' →
  ∃ rest, slaves c t' i = filter valid (slaves c t i) ++ rest ∧
    ∀ x, x ∈ rest → ¬ valid x ∧ (x = (0, 0) ∨ x ∈ slaves c t i).
Proof.
  intros (_ & _ & Hfil & Hel & Hord). exists (filter (λ x, ¬ valid x) (slaves c t' i)). split.
  - rewrite <- Hfil. apply compact_of_order. intros a b x y.
    unfold slaves, range. rewrite !list_lookup_fmap. intros Ha Hb Hab.
    apply fmap_Some in Ha as (a' & Ha & ->), Hb as (b' & Hb & ->).
    apply lookup_seq in Ha, Hb. apply Hord; lia.
  - intros x [Hv Hx]%list_elem_of_filter. split; [done|]. destruct (Hel x Hx); tauto.
Qed.

Lemma quickShift_bucket c t i :
  wf_table c t → (i < bucketCount c)%nat → (1 <= copyCount c)%nat →
  tget (quickShift c t) 0 i = tget t 0 i ∧
  ∃ rest, slaves c (quickShift c t) i = filter valid (slaves c t i) ++ rest ∧
    ∀ x, x ∈ rest → ¬ valid x ∧ (x = (0, 0) ∨ x ∈ slaves c t i).
Proof.
  intros Hwf Hi HC. unfold quickShift.
  set (step := λ t i, if decide (i < bucketCount c)%nat
                      then foldl (quickShiftCell c i) t (range 1 (copyCount c)) else t).
  rewrite (foldl_ext_in _ step).
  2:{ intros t' j Hj%elem_of_seq. unfold step. by rewrite decide_True by lia. }
  destruct (foldl_local (wf_table c) step (λ j t, column c t j) (bucketCount c) t i)
    as (t' & Hwf' & H1 & H2); [| |done|done|].
  - intros t' j Hwf'. unfold step. case_decide; [|done]. by apply (shiftBucket_inv c t' j).
  - intros t' j k Hwf' Hne. unfold step. case_decide; [|done]. apply column_ext.
    intros l _. apply (shiftBucket_inv c t' j); [done..|]. auto.
  - unfold step in H2 at 2. rewrite decide_True in H2 by done.
    pose proof (shiftBucket_inv c t' i Hwf' Hi HC) as Hinv.
    rewrite !column_cons in H1, H2 by lia. injection H1 as H1 H1s. injection H2 as H2 H2s.
    rewrite H2, H2s, <- H1, <- H1s. split; [apply Hinv; auto|]. by apply shift_inv_slaves.
Qed.

(** ** The whole quick table *)

Lemma live_valid_drop c t i l :
  isNodeAvailble c (tget t 0 i) = true →
  filter valid ((λ k, dropCell c t k i) <$> l) = live c ((λ k, tget t k i) <$> l).
Proof.
  intros Hm. unfold live. induction l as [|k l IH]; [done|].
  rewrite !fmap_cons, !filter_cons, IH. unfold dropCell. rewrite Hm. simpl.
  destruct (isNodeAvailble c (tget t k i)) eqn:E; simpl.
  - apply isNodeAvailble_spec in E as Hv. unfold valid.
    rewrite (decide_True (P := _.1 ≠ _)) by apply Hv. done.
  - done.
Qed.

(** A bucket with a live master: the rest of the row is its live slaves, then zeros. *)
Lemma cleanup_live c t i :
  wf_table c t → (i < bucketCount c)%nat → (1 <= copyCount c)%nat →
  isNodeAvailble c (tget t 0 i) = true →
  ∃ n, column c (quickShift c (quickClear c t)) i
       = tget t 0 i :: live c (slaves c t i) ++ replicate n (0, 0).
Proof.
  intros Hwf Hi HC Hm. destruct (quickClear_spec c t Hwf) as [Hwf' Hcl].
  destruct (quickShift_bucket c _ i Hwf' Hi HC) as (H0 & rest & Hs & Hrest).
  rewrite column_cons, H0, Hcl, decide_True, Hs by (done || lia).
  assert (Hsl : slaves c (quickClear c t) i = (λ k, dropCell c t k i) <$> range 1 (copyCount c)).
  { unfold slaves. apply list_fmap_ext. intros a k Hk. unfold range in Hk.
    apply lookup_seq in Hk. rewrite Hcl, decide_False by lia. done. }
  rewrite Hsl, live_valid_drop by done. exists (length rest). do 2 f_equal.
  symmetry. apply replicate_as_Forall_2; [done|]. apply list.Forall_forall. intros x Hx.
  destruct (Hrest x Hx) as [Hv [?|Hin]]; [done|]. rewrite Hsl in Hin.
  apply list_elem_of_fmap in Hin as (k & -> & _). revert Hv. unfold dropCell. rewrite Hm. simpl.
  destruct (isNodeAvailble c (tget t k i)) eqn:E; [|done].
  apply isNodeAvailble_spec in E as [? _]. by intros [].
Qed.

(** A bucket with no live master: nothing is dropped. *)
Lemma cleanup_dead c t i :
  wf_table c t → (i < bucketCount c)%nat → (1 <= copyCount c)%nat →
  isNodeAvailble c (tget t 0 i) = false →
  let t' := quickShift c (quickClear c t) in
  tget t' 0 i = tget t 0 i ∧ filter valid (slaves c t' i) = filter valid (slaves c t i).
Proof.
  intros Hwf Hi HC Hm. destruct (quickClear_spec c t Hwf) as [Hwf' Hcl].
  destruct (quickShift_bucket c _ i Hwf' Hi HC) as (H0 & rest & Hs & Hrest).
  assert (Hsl : slaves c (quickClear c t) i = slaves c t i).
  { apply slaves_ext. intros k Hk. rewrite Hcl, decide_False by lia. unfold dropCell.
    by rewrite Hm. }
  split; [by rewrite H0, Hcl, decide_True by (done || lia)|].
  rewrite Hs, list.filter_app, Hsl, (proj2 (filter_nil_iff valid rest)).
  - rewrite app_nil_r. apply filter_all. intros x Hx. by apply list_elem_of_filter in Hx as [? _].
  - intros x Hx. by destruct (Hrest x Hx).
Qed.

(** Promotion takes one live slave out of the row and keeps the others in order. *)
Lemma promoted_live c t t' i :
  (1 <= copyCount c)%nat → isNodeAvailble c (tget t 0 i) = false → promoted c t t' i →
  isNodeAvailble c (tget t' 0 i) = true ∧
  ∃ l1 l2, live c (column c t i) = l1 ++ tget t' 0 i :: l2 ∧ live c (slaves c t' i) = l1 ++ l2.
Proof.
  intros HC Hdead (k & Hk & Hav & H0 & Hk0 & Hoth). rewrite H0. split; [done|].
  exists (live c ((λ k, tget t k i) <$> range 1 k)),
    (live c ((λ k, tget t k i) <$> range (S k) (copyCount c))).
  rewrite column_cons by lia. unfold live, slaves.
  rewrite filter_cons, decide_False by congruence.
  rewrite (range_split 1 (copyCount c) k) by lia.
  rewrite !fmap_app, !fmap_cons, !list.filter_app, !filter_cons.
  rewrite decide_True by done. split; [done|].
  rewrite (decide_False (P := isNodeAvailble c (tget t' k i) = true)).
  - f_equal; f_equal; apply list_fmap_ext; intros a j Hj; unfold range in Hj;
      apply lookup_seq in Hj; apply Hoth; lia.
  - rewrite isNodeAvailble_spec. tauto.
Qed.

Lemma buildQuickTable_eq c q t b q' t' :
  buildQuickTable c q t = (b, q', t') →
  b = true ∧ t' = quickShift c (quickClear c (quickMasters c (q, t)).2).
Proof. unfold buildQuickTable. destruct (quickMasters c (q, t)). naive_solver. Qed.

Lemma live_cons_dead c n l : isNodeAvailble c n = false → live c (n :: l) = live c l.
Proof. intros H. unfold live. by rewrite filter_cons, decide_False by congruence. Qed.

Lemma live_nil_iff c l : live c l = [] ↔ ∀ x, x ∈ l → isNodeAvailble c x = false.
Proof.
  unfold live. rewrite filter_nil_iff. split; intros H x Hx; specialize (H x Hx);
    destruct (isNodeAvailble c x); congruence.
Qed.

(** The row specification of the quick table. *)
Definition quick_row (c : tb_conf) (row row' : list server_id) : Prop :=
  ∃ m l1 l2 n, live c row = l1 ++ m :: l2 ∧ row' = m :: l1 ++ l2 ++ replicate n (0, 0) ∧
    (∀ m0, head row = Some m0 → isNodeAvailble c m0 = true → m = m0 ∧ l1 = []).

Lemma quick_row_cleanup c t i :
  wf_table c t → (i < bucketCount c)%nat → (1 <= copyCount c)%nat →
  isNodeAvailble c (tget t 0 i) = true →
  quick_row c (column c t i) (column c (quickShift c (quickClear c t)) i).
Proof.
  intros Hwf Hi HC Hm. destruct (cleanup_live c t i) as [n Hn]; [done..|].
  exists (tget t 0 i), [], (live c (slaves c t i)), n. rewrite Hn, column_cons by lia.
  split_and!; [|done|naive_solver]. unfold live. by rewrite filter_cons, decide_True by done.
Qed.

Lemma quick_live_row c t b q' t' i :
  wf_table c t → (1 <= copyCount c)%nat → (i < bucketCount c)%nat →
  buildQuickTable c empty_quick t = (b, q', t') → live c (column c t i) ≠ [] →
  quick_row c (column c t i) (column c t' i).
Proof.
  intros Hwf HC Hi [-> ->]%buildQuickTable_eq Hlive.
  assert (Hinv : quick_inv c (empty_quick, t)) by (split; [done|apply map_Forall_empty]).
  pose proof (quickMasters_spec c _ i HC Hi Hinv) as Hms.
  destruct (quickMasters_wf c _ Hinv) as [Hwf' _].
  set (t1 := (quickMasters c (empty_quick, t)).2) in *. simpl in Hms. unfold mastered in Hms.
  destruct (isNodeAvailble c (tget t 0 i)) eqn:E0.
  { rewrite <- Hms. apply quick_row_cleanup; [done..|].
    by rewrite (tget_column c t1 t i 0 Hms). }
  destruct Hms as [Hp|[_ Hno]].
  - destruct (promoted_live c t t1 i) as (Hav & l1 & l2 & H1 & H2); [done..|].
    destruct (cleanup_live c t1 i) as [n Hn]; [done..|].
    exists (tget t1 0 i), l1, l2, n. rewrite H1, Hn, H2, <- app_assoc. split_and!; [done..|].
    rewrite column_cons by lia. simpl. intros m0 [= <-]. congruence.
  - destruct Hlive. apply live_nil_iff. intros x (k & Hk & ->)%elem_of_column.
    destruct (decide (k = 0)%nat) as [->|]; [done|]. apply Hno. lia.
Qed.

Lemma quick_dead_row c t b q' t' i :
  wf_table c t → (1 <= copyCount c)%nat → (i < bucketCount c)%nat →
  buildQuickTable c empty_quick t = (b, q', t') → live c (column c t i) = [] →
  tget t' 0 i = tget t 0 i ∧ filter valid (slaves c t' i) = filter valid (slaves c t i).
Proof.
  intros Hwf HC Hi [-> ->]%buildQuickTable_eq Hlive.
  assert (Hinv : quick_inv c (empty_quick, t)) by (split; [done|apply map_Forall_empty]).
  pose proof (quickMasters_spec c _ i HC Hi Hinv) as Hms.
  destruct (quickMasters_wf c _ Hinv) as [Hwf' _].
  set (t1 := (quickMasters c (empty_quick, t)).2) in *. simpl in Hms. unfold mastered in Hms.
  rewrite live_nil_iff in Hlive.
  assert (Hd : ∀ k, (k < copyCount c)%nat → isNodeAvailble c (tget t k i) = false).
  { intros k Hk. apply Hlive. apply elem_of_column. eauto. }
  rewrite (Hd 0%nat) in Hms by lia.
  destruct Hms as [(k & Hk & Hav & _)|[Hc _]]; [by rewrite Hd in Hav by lia|].
  assert (H0 : tget t1 0 i = tget t 0 i) by (by apply (tget_column c)).
  destruct (cleanup_dead c t1 i) as [-> ->]; [done..| |].
  - rewrite H0. by apply Hd.
  - split; [done|]. f_equal. apply slaves_ext. intros k Hk. by apply (tget_column c); [|lia].
Qed.

Lemma buildQuickTable_wf c t b q' t' :
  wf_table c t → (1 <= copyCount c)%nat → buildQuickTable c empty_quick t = (b, q', t') →
  wf_table c t'.
Proof.
  intros Hwf HC [-> ->]%buildQuickTable_eq.
  assert (Hinv : quick_inv c (empty_quick, t)) by (split; [done|apply map_Forall_empty]).
  destruct (quickMasters_wf c _ Hinv) as [Hwf' _]. apply quickClear_spec in Hwf' as [Hwf' _].
  unfold quickShift. apply foldl_inv; [|done]. intros t1 i Hi%elem_of_seq Hwf1.
  apply (shiftBucket_inv c t1 i Hwf1); [lia|done].
Qed.

(** C10: the quick table keeps service.  On a table of any shape with at least one copy, for
    every bucket that has a live replica, the new row is exactly the live replicas of the
    old row: one of them as master (the old master when it is live), the others after it in
    their old order, then empty entries. *)
Theorem buildQuickTable_row c t b q' t' i :
  wf_table c t → (1 <= copyCount c)%nat → (i < bucketCount c)%nat →
  buildQuickTable c empty_quick t = (b, q', t') → live c (column c t i) ≠ [] →
  quick_row c (column c t i) (column c t' i).
Proof. apply quick_live_row. Qed.

(** a bucket all of whose replicas are down keeps its master entry and the servers of
    its slaves, in order: the quick table never invents or forgets a location of data. *)
Lemma buildQuickTable_dead_row c t b q' t' i :
  wf_table c t → (1 <= copyCount c)%nat → (i < bucketCount c)%nat →
  buildQuickTable c empty_quick t = (b, q', t') → live c (column c t i) = [] →
  tget t' 0 i = tget t 0 i ∧ filter valid (slaves c t' i) = filter valid (slaves c t i).
Proof. apply quick_dead_row. Qed.

(** ** A concrete cluster: three copies of two buckets, server 2 down *)

Definition demo_conf : tb_conf :=
  {| availableServer := setAvailableServer 255 [1; 3; 4]; posMask := 255;
     bucketCount := 2; copyCount := 3 |}.

Definition demo_table : hash_table := loadHashTable demo_conf [2; 2; 0; 2; 3; 5].

Lemma buildQuickTable_row_witness :
  quick_row demo_conf (column demo_conf demo_table 0)
    (column demo_conf (buildQuickTable demo_conf empty_quick demo_table).2 0).
Proof.
  eapply (buildQuickTable_row demo_conf demo_table true _ _ 0).
  - split; [done|]. repeat constructor.
  - vm_compute. lia.
  - vm_compute. lia.
  - vm_compute. reflexivity.
  - vm_compute. discriminate.
Defined.

Lemma buildQuickTable_dead_row_witness :
  tget (buildQuickTable demo_conf empty_quick demo_table).2 0 1 = tget demo_table 0 1 ∧
  filter valid (slaves demo_conf (buildQuickTable demo_conf empty_quick demo_table).2 1)
    = filter valid (slaves demo_conf demo_table 1).
Proof.
  eapply (buildQuickTable_dead_row demo_conf demo_table true _ _ 1).
  - split; [done|]. repeat constructor.
  - vm_compute. lia.
  - vm_compute. lia.
  - vm_compute. reflexivity.
  - vm_compute. reflexivity.
Defined.
