(* ===== verification/TableRebuild.v ===== *)
(** * The destination table (src/src/meta/table_builder.cc, [rebuildTableNew])

    What a rebuild guarantees: replicas of a bucket are on distinct available servers, a
    bucket with a live master gets all its copies, a bucket without one is not touched,
    the search for a server of an empty entry never fails when there are as many servers
    as copies, the first table is complete, and the loop that balances masters ends. *)
From S2P Require Import Prelude TableBuilder TableQuick.

(** ** Specification *)

(** What [setAvailableServer] makes of servers with nonzero addresses. *)
Definition conf_ok (c : tb_conf) : Prop :=
  ∀ n, n ∈ availableServer c → n.1 ≠ INVALID_FLAG ∧ n.2 = u32 (Z.land n.1 (posMask c)).

(** Distinct servers at the lines below [m] of bucket [i]. *)
Definition distinct_upto (t : hash_table) (m i : nat) : Prop :=
  ∀ a b, (a < m)%nat → (b < m)%nat → a ≠ b →
    (tget t a i).1 ≠ INVALID_FLAG → (tget t a i).1 ≠ (tget t b i).1.

(** A bucket with all its copies, on distinct available servers. *)
Definition full_row (c : tb_conf) (t : hash_table) (i : nat) : Prop :=
  (∀ k, (k < copyCount c)%nat → tget t k i ∈ availableServer c) ∧
  distinct_upto t (copyCount c) i.

(** The four counters have exactly the available servers as keys. *)
Record keys_ok (c : tb_conf) (s : tb_mig) : Prop := {
  keys_migrate : ∀ m, dom (migrate_node_info m s) = availableServer c;
  keys_flag : ∀ m, dom (node_flag m s) = availableServer c }.

(** The state after [check_node_now] is put at ([bucket], [position]). *)
Definition placed (bucket position : nat) (master : bool) (k : server_id) (s : tb_mig) : tb_mig :=
  let s := set_s_migrate (incrNodeCount k (s_migrate_node_info s)) s in
  let s := if master then set_m_migrate (incrNodeCount k (m_migrate_node_info s)) s else s in
  set_buckets master (insertBucketMap k bucket position (buckets_set master s)) s.

(** ** Drawing servers: what a search over the groups returns *)

Section Draw.
Context {R : Type} (rand : nat → nat) (body : server_id → option R).

(** One draw removes one server of a group, except the last. *)
Lemma getNode_spec g n r k g' r' :
  length g = S n → getNode rand g (S n) r = (k, g', r') →
  k ∈ g ∧ (n = 0%nat ∨ ∃ i, g !! i = Some k ∧ g' = delete i g).
Proof.
  intros Hlen. unfold getNode. destruct (Nat.eqb_spec (S n) 1) as [Hn|Hn].
  - injection Hn as ->. destruct g as [|x [|]]; try done. simpl. intros [= <- <- <-].
    split; [left|left; lia].
  - set (i := (rand r mod S n)%nat).
    assert (Hi : (i < length g)%nat) by (rewrite Hlen; apply Nat.mod_upper_bound; lia).
    destruct (lookup_lt_is_Some_2 g i Hi) as [x Hx]. rewrite Hx. intros [= <- <- <-].
    split; [by eapply list_elem_of_lookup_2|right; eauto].
Qed.

Lemma tryGroup_Some n g r x r' :
  length g = n → tryGroup rand n g r body = (Some x, r') → ∃ k, k ∈ g ∧ body k = Some x.
Proof.
  revert g r. induction n as [|n IH]; intros g r Hlen; [done|]. cbn [tryGroup].
  destruct (getNode rand g (S n) r) as [[k g'] r1] eqn:Hget.
  destruct (getNode_spec _ _ _ _ _ _ Hlen Hget) as [Hk Hg'].
  destruct (body k) as [y|] eqn:Hb; [intros [= <- <-]; eauto|].
  destruct Hg' as [->|(i & Hi & ->)]; [done|].
  intros H. apply IH in H as (k' & Hk' & ?).
  - exists k'. split; [|done]. rewrite (delete_Permutation g i k) by done. by right.
  - rewrite length_delete by eauto. lia.
Qed.

Lemma tryGroup_None n g r r' :
  length g = n → tryGroup rand n g r body = (None, r') → ∀ k, k ∈ g → body k = None.
Proof.
  revert g r. induction n as [|n IH]; intros g r Hlen; cbn [tryGroup].
  { intros _ k Hk. destruct g; [inversion Hk|done]. }
  destruct (getNode rand g (S n) r) as [[k g'] r1] eqn:Hget.
  destruct (getNode_spec _ _ _ _ _ _ Hlen Hget) as [Hk Hg'].
  destruct (body k) as [y|] eqn:Hb; [done|].
  destruct Hg' as [->|(i & Hi & ->)].
  - intros _ k' Hk'. destruct g as [|x [|]]; try done.
    apply list_elem_of_singleton in Hk as ->, Hk' as ->. done.
  - intros H k'. rewrite (delete_Permutation g i k) by done. rewrite elem_of_cons.
    intros [->|Hk']; [done|]. eapply IH; [|done|done]. rewrite length_delete by eauto. lia.
Qed.

Lemma tryGroups_Some neg gs r x r' :
  tryGroups rand neg gs r body = (Some x, r') →
  ∃ v g k, (v, g) ∈ gs ∧ k ∈ g ∧ body k = Some x ∧ (neg = true → v < 0).
Proof.
  revert r. induction gs as [|[v g] gs IH]; intros r; [done|]. simpl.
  destruct (neg && (0 <=? v)) eqn:E; [done|].
  destruct (tryGroup rand (length g) g r body) as [[y|] r1] eqn:Hg.
  - intros [= -> ->]. apply tryGroup_Some in Hg as (k & Hk & ?); [|done].
    exists v, g, k. split_and!; [left|done|done|]. intros ->. simpl in E. bool_cases. lia.
  - intros H. apply IH in H as (v' & g' & k & ? & ? & ? & ?). exists v', g', k.
    split_and!; try done. by right.
Qed.

Lemma tryGroups_None gs r r' :
  tryGroups rand false gs r body = (None, r') → ∀ v g k, (v, g) ∈ gs → k ∈ g → body k = None.
Proof.
  revert r. induction gs as [|[v g] gs IH]; intros r; simpl.
  { intros _ v g k H. inversion H. }
  destruct (tryGroup rand (length g) g r body) as [[y|] r1] eqn:Hg; [done|].
  intros H v' g' k. rewrite elem_of_cons. intros [[= -> ->]|Hin] Hk.
  - by eapply tryGroup_None.
  - by eapply IH.
Qed.
End Draw.

(** The groups of a sorted map hold exactly its entries. *)
Lemma elem_of_group l v k :
  (v, k) ∈ l ↔ ∃ g, (v, g) ∈ group_by_value l ∧ k ∈ g.
Proof.
  induction l as [|[v' k'] l IH]; [split; [intros H|intros (? & H & _)]; inversion H|]. simpl.
  rewrite elem_of_cons, IH. clear IH.
  destruct (group_by_value l) as [|[v2 g2] gs].
  - split.
    + intros [[= -> ->]|(g & H & _)]; [|inversion H]. exists [k']. split; left.
    + intros (g & [= -> ->]%list_elem_of_singleton & ->%list_elem_of_singleton). by left.
  - destruct (v' =? v2) eqn:E; bool_cases.
    + subst v2. split.
      * intros [[= -> ->]|(g & Hg & Hk)]; [exists (k' :: g2); split; left|].
        apply elem_of_cons in Hg as [[= -> ->]|Hg]; [exists (k' :: g2); split; [left|by right]|].
        exists g. split; [by right|done].
      * intros (g & [[= -> ->]|Hg]%elem_of_cons & Hk).
        { apply elem_of_cons in Hk as [->|Hk]; [by left|]. right. exists g2. split; [left|done]. }
        right. exists g. split; [by right|done].
    + split.
      * intros [[= -> ->]|(g & Hg & Hk)]; [exists [k']; split; left|].
        exists g. split; [by right|done].
      * intros (g & [[= -> ->]|Hg]%elem_of_cons & Hk).
        { apply list_elem_of_singleton in Hk as ->. by left. }
        right. eauto.
Qed.

Lemma elem_of_sortMapByValue m v k : (v, k) ∈ sortMapByValue m ↔ m !! k = Some v.
Proof.
  unfold sortMapByValue. rewrite (merge_sort_Permutation val_le), list_elem_of_fmap.
  split.
  - intros ([k' v'] & [= -> ->] & H). by apply elem_of_map_to_list in H.
  - intros H. exists (k, v). split; [done|]. by apply elem_of_map_to_list.
Qed.

(** The last entry has the largest value. *)
#[export] Instance val_le_total : Total val_le.
Proof.
  intros [x [a p]] [y [b q]]. unfold val_le, val_leb, sid_leb. simpl. rewrite !Is_true_true.
  rewrite !orb_true_iff, !andb_true_iff, !orb_true_iff, !andb_true_iff, !Z.ltb_lt, !Z.eqb_eq, !Z.leb_le.
  lia.
Qed.

#[export] Instance val_le_trans : Transitive val_le.
Proof.
  intros [x [a p]] [y [b q]] [z [d r]]. unfold val_le, val_leb, sid_leb. simpl. rewrite !Is_true_true.
  rewrite !orb_true_iff, !andb_true_iff, !orb_true_iff, !andb_true_iff, !Z.ltb_lt, !Z.eqb_eq, !Z.leb_le.
  lia.
Qed.

Lemma val_le_fst x y : val_le x y → x.1 <= y.1.
Proof.
  unfold val_le, val_leb. rewrite Is_true_true, orb_true_iff, andb_true_iff, Z.ltb_lt, Z.eqb_eq. lia.
Qed.

Lemma sortMapByValue_sorted m : StronglySorted val_le (sortMapByValue m).
Proof. unfold sortMapByValue. apply (StronglySorted_merge_sort val_le). Qed.

Lemma StronglySorted_last {A} (R : A → A → Prop) l x y :
  Reflexive R → StronglySorted R l → list.last l = Some y → x ∈ l → R x y.
Proof.
  intros HR Hs. revert y. induction Hs as [|z l Hs IH Hz]; intros y; [done|].
  rewrite elem_of_cons, last_cons. destruct (list.last l) as [y'|] eqn:E.
  - intros [= ->] [->|Hx]; [|by apply IH]. rewrite list.Forall_forall in Hz.
    apply Hz. by apply last_Some_elem_of.
  - apply last_None in E as ->. intros [= ->] [->|Hx]; [done|inversion Hx].
Qed.

Lemma last_max m v node k x :
  list.last (sortMapByValue m) = Some (v, node) → m !! k = Some x → x <= v.
Proof.
  intros Hl Hk%elem_of_sortMapByValue.
  apply (val_le_fst (x, k) (v, node)).
  eapply StronglySorted_last; [|apply sortMapByValue_sorted|done|done].
  intros z. by destruct (val_le_total z z).
Qed.

(** A search over a map: the accepted server is a key, and a full search that accepts
    none has refused every key. *)
Lemma search_Some {R} rand neg m r (body : server_id → option R) x r' :
  tryGroups rand neg (group_by_value (sortMapByValue m)) r body = (Some x, r') →
  ∃ k v, m !! k = Some v ∧ body k = Some x ∧ (neg = true → v < 0).
Proof.
  intros (v & g & k & Hg & Hk & Hb & Hneg)%tryGroups_Some. exists k, v. split_and!; [|done|done].
  apply elem_of_sortMapByValue, elem_of_group. eauto.
Qed.

Lemma search_None {R} rand m r (body : server_id → option R) r' :
  tryGroups rand false (group_by_value (sortMapByValue m)) r body = (None, r') →
  ∀ k, k ∈ dom m → body k = None.
Proof.
  intros H k [v Hv]%elem_of_dom. apply elem_of_sortMapByValue, elem_of_group in Hv as (g & Hg & Hk).
  by eapply tryGroups_None.
Qed.

(** ** Placing a server *)

Lemma checkNodeOk_spec c k b p t :
  checkNodeOk c k b p t = true ↔
  ∀ i, (i < copyCount c)%nat → i ≠ p → (tget t i b).1 ≠ k.1.
Proof.
  unfold checkNodeOk. rewrite forallb_forall. split.
  - intros H i Hi Hne. specialize (H i). rewrite in_seq in H.
    destruct (orb_prop _ _ (H ltac:(lia))) as [?%Nat.eqb_eq|E]; [congruence|].
    by bool_cases.
  - intros H i Hi. rewrite in_seq in Hi. destruct (Nat.eqb_spec p i); [done|]. simpl.
    apply negb_true_iff, Z.eqb_neq, H; [lia|done].
Qed.

(** An entry set to a server that passes [checkNodeOk] keeps a row distinct. *)
Lemma distinct_tset c t m i p k :
  wf_table c t → (i < bucketCount c)%nat → (p < copyCount c)%nat → (m <= copyCount c)%nat →
  checkNodeOk c k i p t = true →
  (∀ a b, (a < m)%nat → (b < m)%nat → a ≠ p → b ≠ p → a ≠ b →
     (tget t a i).1 ≠ INVALID_FLAG → (tget t a i).1 ≠ (tget t b i).1) →
  distinct_upto (tset t p i k) m i.
Proof.
  intros Hwf Hi Hp Hm Hok H a b Ha Hb Hab. rewrite checkNodeOk_spec in Hok.
  destruct (decide (a = p)) as [->|]; [|destruct (decide (b = p)) as [->|]]; tget_simpl.
  - intros _ Heq. by apply (Hok b); [lia| |].
  - intros _. apply Hok; [lia|done].
  - by apply H.
Qed.

Lemma NoDup_addresses c : conf_ok c → NoDup (fst <$> elements (availableServer c)).
Proof.
  intros Hc. apply NoDup_fmap_2_strong; [|apply NoDup_elements].
  intros [a x] [b y] Ha%elem_of_elements Hb%elem_of_elements. simpl. intros ->.
  destruct (Hc _ Ha) as [_ Hx], (Hc _ Hb) as [_ Hy]. simpl in *. congruence.
Qed.

(** With as many servers as copies, some server suits any entry of any row. *)
Lemma some_node_ok c b p t :
  conf_ok c → (copyCount c <= size (availableServer c))%nat → (p < copyCount c)%nat →
  ∃ k, k ∈ availableServer c ∧ checkNodeOk c k b p t = true.
Proof.
  intros Hc Hsize Hp.
  destruct (decide (Forall (λ k, checkNodeOk c k b p t = false) (elements (availableServer c))))
    as [Hall|Hex].
  - exfalso. set (others := (λ i, (tget t i b).1) <$> (range 0 p ++ range (S p) (copyCount c))).
    assert (Hlen : length others = (copyCount c - 1)%nat).
    { unfold others, range. rewrite length_fmap, length_app, !length_seq. lia. }
    assert (Hle : (length (fst <$> elements (availableServer c)) <= length others)%nat).
    { apply submseteq_length, NoDup_submseteq; [by apply NoDup_addresses|].
      intros x (k & -> & Hk)%list_elem_of_fmap. rewrite list.Forall_forall in Hall.
      specialize (Hall k Hk). destruct (decide (k.1 ∈ others)) as [|Hno]; [done|].
      rewrite (proj2 (checkNodeOk_spec c k b p t)) in Hall; [done|].
      intros i Hi Hne Heq. apply Hno. apply list_elem_of_fmap. exists i. split; [done|].
      rewrite elem_of_app, !elem_of_range. lia. }
    rewrite length_fmap in Hle. change (length (elements _)) with (size (availableServer c)) in Hle. lia.
  - apply not_Forall_Exists in Hex; [|apply _]. apply list.Exists_exists in Hex as (k & Hk & Hok).
    exists k. split; [by apply elem_of_elements|]. simpl in Hok. by destruct (checkNodeOk c k b p t).
Qed.

(** ** Keys of the counters *)

Lemma dom_incrNodeCount k m : dom (incrNodeCount k m) = dom m.
Proof.
  unfold incrNodeCount. destruct (k.1 =? INVALID_FLAG); [done|].
  destruct (m !! k) eqn:E; [|done]. apply dom_insert_lookup_L. eauto.
Qed.

Lemma dom_decrNodeCount k m : dom (decrNodeCount k m) = dom m.
Proof.
  unfold decrNodeCount. destruct (k.1 =? INVALID_FLAG); [done|].
  destruct (m !! k) eqn:E; [|done]. apply dom_insert_lookup_L. eauto.
Qed.

Lemma touch_id k m : k ∈ dom m → touch k m = m.
Proof. intros [v Hv]%elem_of_dom. unfold touch. by rewrite Hv. Qed.

Lemma foldr_touch_id l m : (∀ k, k ∈ l → k ∈ dom m) → foldr touch m l = m.
Proof.
  induction l as [|k l IH]; intros H; [done|]. simpl.
  rewrite IH by (intros; apply H; by right). apply touch_id, H. left.
Qed.

Lemma set_migrate_id m s : set_migrate m (migrate_node_info m s) s = s.
Proof. by destruct m, s. Qed.

Lemma touchMigrate_id c m s : keys_ok c s → touchMigrate m s = s.
Proof.
  intros [Hm Hf]. unfold touchMigrate. rewrite foldr_touch_id, set_migrate_id; [done|].
  intros k. by rewrite elem_of_elements, Hm, Hf.
Qed.

Lemma dom_tempNodeFlag m s : dom (tempNodeFlag m s) = dom (node_flag m s).
Proof.
  unfold tempNodeFlag. apply dom_imap_L. intros k. rewrite elem_of_dom.
  split; [intros [x Hx]; eauto|intros (x & Hx & _); eauto].
Qed.

Lemma keys_placed c b p m k s : keys_ok c s → keys_ok c (placed b p m k s).
Proof.
  intros [Hm Hf]. pose proof (Hm true). pose proof (Hm false).
  split; intros m'; destruct m, m'; simpl; rewrite ?dom_incrNodeCount;
    first [apply Hm | apply (Hf true) | apply (Hf false) | done].
Qed.

Lemma keys_set_rng c r s : keys_ok c s → keys_ok c (set_rng r s).
Proof. intros [Hm Hf]. split; intros m; [apply (Hm m)|apply (Hf m)]. Qed.

(** ** Filling an empty entry never fails *)

Section Fill.
Context (rand : nat → nat) (c : tb_conf) (Hc : conf_ok c)
  (Hsize : (copyCount c <= size (availableServer c))%nat).

Lemma placeInvalid_Some b p m s t k x :
  placeInvalid c b p m s t k = Some x →
  checkNodeOk c k b p t = true ∧ x = (placed b p m k s, tset t p b k).
Proof.
  unfold placeInvalid. destruct (checkNodeOk c k b p t); [|done]. intros [= <-].
  split; [done|]. by destruct m.
Qed.

Lemma chooseNodeInvalid_spec b p m s t :
  keys_ok c s → (p < copyCount c)%nat →
  ∃ k r, chooseNodeInvalid rand c b p m s t = Some (set_rng r (placed b p m k s), tset t p b k) ∧
    k ∈ availableServer c ∧ checkNodeOk c k b p t = true.
Proof.
  intros Hs Hp. unfold chooseNodeInvalid.
  destruct (tryGroups rand true _ _ _) as [[[s' t']|] r] eqn:E.
  { apply search_Some in E as (k & v & Hk & [Hok [= -> ->]]%placeInvalid_Some & _).
    exists k, r. split_and!; [done| |done]. rewrite <- (keys_migrate _ _ Hs m).
    by eapply elem_of_dom_2. }
  rewrite (touchMigrate_id c) by done. simpl.
  destruct (tryGroups rand false _ _ _) as [[[s' t']|] r'] eqn:E'.
  { apply search_Some in E' as (k & v & Hk & [Hok [= -> ->]]%placeInvalid_Some & _).
    exists k, r'. split_and!; [|rewrite <- (keys_flag _ _ Hs m), <- dom_tempNodeFlag;
      by eapply elem_of_dom_2|done]. by destruct m. }
  exfalso. destruct (some_node_ok c b p t Hc Hsize Hp) as (k & Hk & Hok).
  pose proof (search_None _ _ _ _ _ E' k) as Hnone.
  rewrite dom_tempNodeFlag, (keys_flag _ _ Hs m) in Hnone. specialize (Hnone Hk).
  unfold placeInvalid in Hnone. by rewrite Hok in Hnone.
Qed.

(** ** The first table *)

(** What holds when [buildFirstTime] has filled the buckets below [i] and the lines below
    [j] of bucket [i]; every bucket from [i] on has a master. *)
Record first_inv (i j : nat) (st : tb_mig * hash_table) : Prop := {
  fi_keys : keys_ok c st.1;
  fi_wf : wf_table c st.2;
  fi_full : ∀ i', (i' < i)%nat → full_row c st.2 i';
  fi_masters : ∀ i', (i <= i' < bucketCount c)%nat → tget st.2 0 i' ∈ availableServer c;
  fi_row : ∀ k, (k < j)%nat → tget st.2 k i ∈ availableServer c;
  fi_distinct : distinct_upto st.2 j i }.

Lemma full_row_ext t t' i :
  (∀ k, (k < copyCount c)%nat → tget t' k i = tget t k i) → full_row c t i → full_row c t' i.
Proof.
  intros H [Hav Hd]. split.
  - intros k Hk. rewrite H by done. auto.
  - intros a b Ha Hb. rewrite !H by done. auto.
Qed.

Lemma firstMasters_ok s t :
  keys_ok c s → wf_table c t → (1 <= copyCount c)%nat →
  ∃ st, loop_until (λ st i, chooseNodeInvalid rand c i 0 true st.1 st.2) (seq 0 (bucketCount c)) (s, t)
        = Some st ∧ first_inv 0 0 st.
Proof.
  intros Hs Hwf HC.
  destruct (loop_until_seq (λ i st, keys_ok c st.1 ∧ wf_table c st.2 ∧
      ∀ i', (i' < i)%nat → tget st.2 0 i' ∈ availableServer c)
    (λ st i, chooseNodeInvalid rand c i 0 true st.1 st.2) 0 (bucketCount c) (s, t))
    as (st & Hst & Hk & Hwf' & Hm).
  - split_and!; [done|done|lia].
  - intros i [s1 t1] Hi (Hk & Hwf1 & Hm). simpl in *.
    destruct (chooseNodeInvalid_spec i 0 true s1 t1) as (k & r & -> & Hkav & _); [done|lia|].
    eexists. split; [done|]. simpl.
    split_and!; [by apply keys_set_rng, keys_placed|auto with table|]. intros i' Hi'.
    destruct (decide (i' = i)) as [->|]; tget_simpl; [done|]. apply Hm. lia.
  - exists st. split; [done|]. split; try done; try (intros; lia); [|intros ??; lia].
    intros i' Hi'. apply Hm. lia.
Qed.

Lemma firstSlave_ok i j st :
  (i < bucketCount c)%nat → (1 <= j < copyCount c)%nat → first_inv i j st →
  ∃ st', chooseNodeInvalid rand c i j false st.1 st.2 = Some st' ∧ first_inv i (S j) st'.
Proof.
  intros Hi Hj [Hk Hwf Hf Hm Hr Hd]. destruct st as [s t]. simpl in *.
  destruct (chooseNodeInvalid_spec i j false s t) as (k & r & -> & Hkav & Hok); [done|lia|].
  eexists. split; [done|]. split; simpl.
  - by apply keys_set_rng, keys_placed.
  - auto with table.
  - intros i' Hi'. eapply full_row_ext; [|by apply Hf]. intros. by tget_simpl.
  - intros i' Hi'. tget_simpl. by apply Hm.
  - intros a Ha. destruct (decide (a = j)) as [->|]; tget_simpl; [done|]. apply Hr. lia.
  - apply (distinct_tset c); try done; try lia. intros a b Ha Hb ???. apply Hd; lia.
Qed.

Lemma firstRow_ok i st :
  (i < bucketCount c)%nat → (1 <= copyCount c)%nat → first_inv i 0 st →
  ∃ st', loop_until (λ st j, chooseNodeInvalid rand c i j false st.1 st.2) (range 1 (copyCount c)) st
         = Some st' ∧ first_inv (S i) 0 st'.
Proof.
  intros Hi HC [Hk Hwf Hf Hm _ _]. unfold range.
  destruct (loop_until_seq (first_inv i)
    (λ st j, chooseNodeInvalid rand c i j false st.1 st.2) 1 (copyCount c - 1) st)
    as (st' & -> & [Hk' Hwf' Hf' Hm' Hr' Hd']).
  - split; try done.
    + intros k Hk1. replace k with 0%nat by lia. apply Hm. lia.
    + intros a b Ha Hb. lia.
  - intros j st1 Hj. apply firstSlave_ok; [done|lia].
  - exists st'. split; [done|]. replace (1 + (copyCount c - 1))%nat with (copyCount c) in * by lia.
    split; try done; try (intros; lia); [| |intros ??; lia].
    + intros i' Hi'. destruct (decide (i' = i)) as [->|]; [done|]. apply Hf'. lia.
    + intros. apply Hm'. lia.
Qed.

Lemma buildFirstTime_ok s t :
  keys_ok c s → wf_table c t → (1 <= copyCount c)%nat →
  ∃ s' t', buildFirstTime rand c (s, t) = Some (s', t') ∧
    ∀ i, (i < bucketCount c)%nat → full_row c t' i.
Proof.
  intros Hs Hwf HC. unfold buildFirstTime.
  destruct (firstMasters_ok s t) as (st & -> & Hst); [done..|]. simpl.
  destruct (loop_until_seq (λ i st, first_inv i 0 st)
    (λ st i, loop_until (λ st j, chooseNodeInvalid rand c i j false st.1 st.2)
               (range 1 (copyCount c)) st) 0 (bucketCount c) st)
    as ([s' t'] & -> & [_ _ Hf _ _ _]); [done| |].
  - intros i st1 Hi. apply firstRow_ok; [lia|done].
  - exists s', t'. split; [done|]. apply Hf.
Qed.
End Fill.

(** ** Rebuilding: the invariant *)

Definition bucketsIn (bs : gmap server_id (gmap nat nat)) (n : server_id) : gmap nat nat :=
  default ∅ (bs !! n).

(** Entry ([b], [p]) is recorded for server [n]. *)
Definition entry (m : bool) (s : tb_mig) (n : server_id) (b p : nat) : Prop :=
  bucketsIn (buckets_set m s) n !! b = Some p.

Definition row_ok (c : tb_conf) (t : hash_table) (i : nat) : Prop :=
  distinct_upto t (copyCount c) i ∧
  ∀ k, (k < copyCount c)%nat → (tget t k i).1 ≠ INVALID_FLAG → tget t k i ∈ availableServer c.

Definition filled (c : tb_conf) (t : hash_table) (i : nat) : Prop :=
  ∀ k, (k < copyCount c)%nat → (tget t k i).1 ≠ INVALID_FLAG.

(** [minShare] is the floor [m_tokens_per_node_min]. *)
Definition minShare (c : tb_conf) : Z :=
  i32 (Z.of_nat (bucketCount c) / Z.of_nat (size (availableServer c))).

(** The state of a rebuild of [src]: buckets with a live master have distinct available
    servers, the others are as in [src]; the recorded entries are those of the table; and
    a server records at least as many master entries as its counter says it exceeds its
    share by. *)
Record rb_inv (c : tb_conf) (src : hash_table) (s : tb_mig) (t : hash_table) : Prop := {
  rb_keys : keys_ok c s;
  rb_wf : wf_table c t;
  rb_live : ∀ i, (i < bucketCount c)%nat → isNodeAvailble c (tget src 0 i) = true → row_ok c t i;
  rb_dead : ∀ i, (i < bucketCount c)%nat → isNodeAvailble c (tget src 0 i) = false →
              column c t i = column c src i;
  rb_entry : ∀ m n b p, n ∈ availableServer c → entry m s n b p →
              (b < bucketCount c)%nat ∧ isNodeAvailble c (tget src 0 b) = true ∧
              (p < copyCount c)%nat ∧ (if m then p = 0%nat else 1 <= p)%nat ∧ tget t p b = n;
  rb_le : ∀ n, n ∈ availableServer c →
              at0 (m_migrate_node_info s) n + minShare c <=
              Z.of_nat (size (bucketsIn (m_buckets_set s) n)) }.

(** [t'] differs from [t] at bucket [i] at most. *)
Definition only_bucket (i : nat) (t t' : hash_table) : Prop :=
  ∀ k j, j ≠ i → tget t' k j = tget t k j.

(** Counters other than the master counters do not matter, and those may decrease. *)
Lemma rb_weaken c src s s' t :
  rb_inv c src s t → keys_ok c s' →
  m_buckets_set s' = m_buckets_set s → s_buckets_set s' = s_buckets_set s →
  (∀ n, at0 (m_migrate_node_info s') n <= at0 (m_migrate_node_info s) n) →
  rb_inv c src s' t.
Proof.
  intros [Hk Hwf Hl Hd He Hle] Hk' Hm Hs Hmig. split; try done.
  - intros m n b p Hn. unfold entry, buckets_set. intros Hent. apply (He m n b p Hn).
    unfold entry, buckets_set. destruct m; congruence.
  - intros n Hn. rewrite Hm. specialize (Hle n Hn). specialize (Hmig n). lia.
Qed.

Lemma at0_decr n k m : at0 (decrNodeCount n m) k = at0 m k - (if decide (k = n ∧ n ∈ dom m ∧ n.1 ≠ 0) then 1 else 0).
Proof.
  unfold decrNodeCount, INVALID_FLAG. destruct (n.1 =? 0) eqn:E; bool_cases.
  { rewrite decide_False by tauto. lia. }
  destruct (m !! n) as [v|] eqn:Em.
  - unfold at0. destruct (decide (n = k)) as [<-|Hne].
    + rewrite lookup_insert_eq, Em, decide_True; [done|].
      split_and!; [done|by eapply elem_of_dom_2|done].
    + rewrite lookup_insert_ne, decide_False by (done || by intros [-> _]). lia.
  - rewrite decide_False; [lia|]. rewrite elem_of_dom, Em. intros (_ & [? ?] & _). done.
Qed.

Lemma at0_incr n k m : at0 (incrNodeCount n m) k = at0 m k + (if decide (k = n ∧ n ∈ dom m ∧ n.1 ≠ 0) then 1 else 0).
Proof.
  unfold incrNodeCount, INVALID_FLAG. destruct (n.1 =? 0) eqn:E; bool_cases.
  { rewrite decide_False by tauto. lia. }
  destruct (m !! n) as [v|] eqn:Em.
  - unfold at0. destruct (decide (n = k)) as [<-|Hne].
    + rewrite lookup_insert_eq, Em, decide_True; [done|].
      split_and!; [done|by eapply elem_of_dom_2|done].
    + rewrite lookup_insert_ne, decide_False by (done || by intros [-> _]). lia.
  - rewrite decide_False; [lia|]. rewrite elem_of_dom, Em. intros (_ & [? ?] & _). done.
Qed.

(** Insertion and removal of recorded entries. *)
Lemma bucketsIn_insert n b p bs n' :
  bucketsIn (insertBucketMap n b p bs) n' =
  if decide (n' = n) then match bucketsIn bs n !! b with
                          | Some _ => bucketsIn bs n | None => <[b := p]> (bucketsIn bs n) end
  else bucketsIn bs n'.
Proof.
  unfold insertBucketMap, bucketsIn. case_decide as E.
  - subst. by rewrite lookup_insert_eq.
  - by rewrite lookup_insert_ne.
Qed.

Lemma bucketsIn_erase n b bs n' :
  bucketsIn (eraseBucketMap n b bs) n' =
  if decide (n' = n) then delete b (bucketsIn bs n) else bucketsIn bs n'.
Proof.
  unfold eraseBucketMap, bucketsIn. case_decide as E.
  - subst. by rewrite lookup_insert_eq.
  - by rewrite lookup_insert_ne.
Qed.

Lemma size_delete_ge (b : nat) (m : gmap nat nat) : (size m <= S (size (delete b m)))%nat.
Proof.
  destruct (m !! b) eqn:E.
  - rewrite <- (insert_delete_id m b n E) at 1. rewrite map_size_insert_None; [done|].
    apply lookup_delete_eq.
  - rewrite delete_id by done. lia.
Qed.

Section Steps.
Context (rand : nat → nat) (c : tb_conf) (src : hash_table) (Hc : conf_ok c)
  (Hsize : (copyCount c <= size (availableServer c))%nat).

Lemma avail_addr n : n ∈ availableServer c → n.1 ≠ INVALID_FLAG.
Proof. intros Hn. by apply Hc. Qed.

Lemma avail_iff n : isNodeAvailble c n = true ↔ n ∈ availableServer c.
Proof. rewrite isNodeAvailble_spec. split; [tauto|]. intros Hn. split; [by apply Hc|done]. Qed.

(** Setting one entry of a live bucket: the table part of the invariant. *)
Lemma row_ok_tset t b p k :
  wf_table c t → (b < bucketCount c)%nat → (p < copyCount c)%nat →
  k ∈ availableServer c → checkNodeOk c k b p t = true →
  row_ok c t b → row_ok c (tset t p b k) b.
Proof.
  intros Hwf Hb Hp Hk Hok [Hd Hav]. split.
  - apply (distinct_tset c); try done. intros. by apply Hd.
  - intros j Hj. destruct (decide (j = p)) as [->|]; tget_simpl; [done|]. by apply Hav.
Qed.

Lemma row_ok_other t b p k i :
  i ≠ b → row_ok c t i → row_ok c (tset t p b k) i.
Proof.
  intros Hne [Hd Hav]. split.
  - intros x y. rewrite !(tget_tset_ne t p b) by auto. apply Hd.
  - intros x. rewrite (tget_tset_ne t p b) by auto. apply Hav.
Qed.

Lemma live_tset t b p k :
  wf_table c t → (b < bucketCount c)%nat → (p < copyCount c)%nat →
  k ∈ availableServer c → checkNodeOk c k b p t = true →
  (∀ i, (i < bucketCount c)%nat → isNodeAvailble c (tget src 0 i) = true → row_ok c t i) →
  ∀ i, (i < bucketCount c)%nat → isNodeAvailble c (tget src 0 i) = true → row_ok c (tset t p b k) i.
Proof.
  intros Hwf Hb Hp Hk Hok H i Hi Hl. destruct (decide (i = b)) as [->|].
  - by apply row_ok_tset; auto.
  - apply row_ok_other; auto.
Qed.

Lemma dead_tset t b p k :
  isNodeAvailble c (tget src 0 b) = true →
  (∀ i, (i < bucketCount c)%nat → isNodeAvailble c (tget src 0 i) = false →
     column c t i = column c src i) →
  ∀ i, (i < bucketCount c)%nat → isNodeAvailble c (tget src 0 i) = false →
     column c (tset t p b k) i = column c src i.
Proof.
  intros Hl H i Hi Hd. rewrite <- H by done. apply column_ext. intros j _.
  apply tget_tset_ne. right. congruence.
Qed.

(** Filling an empty entry. *)
Lemma rb_place s t b p (m : bool) k r :
  rb_inv c src s t → (b < bucketCount c)%nat → isNodeAvailble c (tget src 0 b) = true →
  (p < copyCount c)%nat → (if m then p = 0%nat else 1 <= p)%nat → (tget t p b).1 = INVALID_FLAG →
  k ∈ availableServer c → checkNodeOk c k b p t = true →
  rb_inv c src (set_rng r (placed b p m k s)) (tset t p b k).
Proof.
  intros [Hk Hwf Hl Hd He Hle] Hb Hlive Hp Hpm Hinv Hkav Hok.
  assert (Hold : ∀ (m' : bool) n b' p', n ∈ availableServer c → entry m' s n b' p' →
     (b' < bucketCount c)%nat ∧ isNodeAvailble c (tget src 0 b') = true ∧
     (p' < copyCount c)%nat ∧ (if m' then p' = 0%nat else 1 <= p')%nat ∧ tget (tset t p b k) p' b' = n).
  { intros m' n b' p' Hn Hent. destruct (He m' n b' p' Hn Hent) as (?&?&?&?&Ht).
    split_and!; try done. rewrite tget_tset_ne; [done|].
    destruct (decide (p = p')) as [<-|]; [|by left]. right. intros ->.
    apply (avail_addr n Hn). by rewrite <- Ht. }
  split; [by apply keys_set_rng, keys_placed|auto with table|by apply live_tset|by apply dead_tset| |].
  - intros m' n b' p' Hn Hent.
    destruct (decide (m' = m)) as [->|Hm].
    + assert (Hent' : bucketsIn (insertBucketMap k b p (buckets_set m s)) n !! b' = Some p')
        by (by destruct m). clear Hent. rewrite bucketsIn_insert in Hent'.
      case_decide as Hnk; [subst n|by apply (Hold m)].
      destruct (bucketsIn _ k !! b) eqn:Eb; [by apply (Hold m)|].
      apply lookup_insert_Some in Hent' as [[<- <-]|[_ Hent]]; [|by apply (Hold m)].
      split_and!; try done. by apply (tget_tset_eq c).
    + apply (Hold m'); [done|]. by destruct m, m'.
  - intros n Hn. specialize (Hle n Hn). destruct m; simpl; [|done]. subst p.
    rewrite at0_incr, bucketsIn_insert. case_decide as E.
    + destruct E as [-> _]. rewrite decide_True by done.
      destruct (bucketsIn (m_buckets_set s) k !! b) as [p'|] eqn:Eb.
      * destruct (He true k b p' Hkav Eb) as (_ & _ & _ & -> & Ht).
        destruct (avail_addr k Hkav). by rewrite <- Ht.
      * rewrite map_size_insert_None by done. lia.
    + case_decide; [|lia]. subst n. destruct E. split_and!; [done| |by apply avail_addr].
      pose proof (keys_migrate _ _ Hk true) as Hdom. simpl in Hdom. by rewrite Hdom.
Qed.

(** Filling by [chooseNodeInvalid]: it succeeds, and changes one bucket. *)
Lemma rb_chooseNodeInvalid s t b p (m : bool) :
  rb_inv c src s t → (b < bucketCount c)%nat → isNodeAvailble c (tget src 0 b) = true →
  (p < copyCount c)%nat → (if m then p = 0%nat else 1 <= p)%nat → (tget t p b).1 = INVALID_FLAG →
  ∃ s' t', chooseNodeInvalid rand c b p m s t = Some (s', t') ∧ rb_inv c src s' t' ∧
    only_bucket b t t' ∧ (tget t' p b).1 ≠ INVALID_FLAG ∧
    ∀ k, k ≠ p → tget t' k b = tget t k b.
Proof.
  intros Hi Hb Hl Hp Hpm Hinv.
  destruct (chooseNodeInvalid_spec rand c Hc Hsize b p m s t (rb_keys _ _ _ _ Hi) Hp)
    as (k & r & -> & Hk & Hok).
  eexists _, _. pose proof (rb_wf _ _ _ _ Hi). split_and!; [done|by apply rb_place| | |].
  - intros k' j Hj. by apply tget_tset_ne; auto.
  - rewrite (tget_tset_eq c) by done. by apply avail_addr.
  - intros k' Hk'. apply tget_tset_ne. auto.
Qed.

Lemma only_bucket_trans i t1 t2 t3 : only_bucket i t1 t2 → only_bucket i t2 t3 → only_bucket i t1 t3.
Proof. intros H1 H2 k j Hj. by rewrite H2, H1. Qed.

Lemma rb_chooseSlaveForInvalid s t i :
  rb_inv c src s t → (i < bucketCount c)%nat → isNodeAvailble c (tget src 0 i) = true →
  (1 <= copyCount c)%nat → (tget t 0 i).1 ≠ INVALID_FLAG →
  ∃ s' t', chooseSlaveForInvalid rand c i (s, t) = Some (s', t') ∧ rb_inv c src s' t' ∧
    only_bucket i t t' ∧ filled c t' i.
Proof.
  intros Hi Hb Hl HC Hm. unfold chooseSlaveForInvalid, range.
  destruct (loop_until_seq (λ n st, rb_inv c src st.1 st.2 ∧ only_bucket i t st.2 ∧
      ∀ k, (k < n)%nat → (tget st.2 k i).1 ≠ INVALID_FLAG)
    (λ st n, if (tget st.2 n i).1 =? INVALID_FLAG then chooseNodeInvalid rand c i n false st.1 st.2
             else Some st) 1 (copyCount c - 1) (s, t)) as ([s' t'] & -> & Hinv & Ho & Hf).
  - split_and!; [done|intros ???; done|]. intros k Hk. by replace k with 0%nat by lia.
  - intros n [s1 t1] Hn (Hinv & Ho & Hf). simpl in *.
    destruct ((tget t1 n i).1 =? INVALID_FLAG) eqn:E; bool_cases.
    + destruct (rb_chooseNodeInvalid s1 t1 i n false) as (s2 & t2 & -> & ? & ? & ? & Hoth);
        [done|done|done|lia|lia|done|].
      eexists. split; [done|]. split_and!; [done|by eapply only_bucket_trans|].
      intros k Hk. simpl. destruct (decide (k = n)) as [->|]; [done|].
      rewrite Hoth by done. apply Hf. lia.
    + eexists. split; [done|]. split_and!; [done|done|]. intros k Hk. simpl.
      destruct (decide (k = n)) as [->|]; [done|]. apply Hf. lia.
  - eexists _, _. split_and!; [done|done|done|]. intros k Hk. apply Hf. lia.
Qed.

(** The row of a bucket whose master [x] moved to the empty line [n]. *)
Lemma row_ok_demoted t t' i n y :
  (1 <= n < copyCount c)%nat → tget t 0 i ∈ availableServer c →
  tget t' 0 i = (INVALID_FLAG, y) → tget t' n i = tget t 0 i →
  (∀ k, k ≠ 0%nat ∧ k ≠ n → tget t' k i = tget t k i) →
  row_ok c t i → row_ok c t' i.
Proof.
  intros Hn Hmav H0 H1 H2 [Hdist Hav]. split.
  - intros a b Ha Hb Hab. destruct (decide (a = 0)%nat) as [->|]; [rewrite H0; by intros []|].
    destruct (decide (a = n)) as [->|]; [rewrite H1|rewrite (H2 a) by auto].
    + destruct (decide (b = 0)%nat) as [->|]; [by rewrite H0|]. rewrite H2 by auto.
      apply (Hdist 0%nat b); lia.
    + intros Hv. destruct (decide (b = 0)%nat) as [->|]; [by rewrite H0|].
      destruct (decide (b = n)) as [->|]; [rewrite H1; apply (Hdist a 0%nat); [lia|lia|done|done]|].
      rewrite H2 by auto. by apply Hdist.
  - intros k Hkc. destruct (decide (k = 0)%nat) as [->|]; [rewrite H0; by intros []|].
    destruct (decide (k = n)) as [->|]; [by rewrite H1|]. rewrite H2 by auto. by apply Hav.
Qed.

(** Demoting a live master of a bucket with an empty slave entry [n]. *)
Lemma rb_demote s t i n :
  rb_inv c src s t → (i < bucketCount c)%nat → isNodeAvailble c (tget src 0 i) = true →
  (1 <= n < copyCount c)%nat → (tget t n i).1 = INVALID_FLAG →
  let master := tget t 0 i in master ∈ availableServer c →
  rb_inv c src
    (set_buckets false (insertBucketMap master i n (s_buckets_set s))
       (set_buckets true (eraseBucketMap master i (m_buckets_set s))
          (set_m_migrate (decrNodeCount master (m_migrate_node_info s)) s)))
    (tset (tset t n i master) 0 i (INVALID_FLAG, master.2)).
Proof.
  intros [Hk Hwf Hl Hd He Hle] Hi Hlive Hn Hempty master Hmav. set (t' := tset _ 0 _ _).
  destruct (Hl i Hi Hlive) as [Hdist _].
  assert (H0 : tget t' 0 i = (INVALID_FLAG, master.2)) by (unfold t'; by tget_simpl).
  assert (H1 : tget t' n i = master) by (unfold t'; by tget_simpl).
  assert (H2 : ∀ k j, j ≠ i ∨ (k ≠ 0%nat ∧ k ≠ n) → tget t' k j = tget t k j).
  { intros k j Hkj. unfold t'. rewrite !tget_tset_ne; [done| |];
      destruct Hkj as [?|[? ?]]; auto. }
  assert (Hent : ∀ m x b p, x ∈ availableServer c → entry m s x b p → (b = i → x ≠ master) →
     (b < bucketCount c)%nat ∧ isNodeAvailble c (tget src 0 b) = true ∧
     (p < copyCount c)%nat ∧ (if m then p = 0%nat else 1 <= p)%nat ∧ tget t' p b = x).
  { intros m x b p Hx Hent Hne. destruct (He m x b p Hx Hent) as (?&?&?&?&Ht).
    split_and!; try done. rewrite H2; [done|]. destruct (decide (b = i)) as [->|]; [right|by left].
    specialize (Hne eq_refl). split; intros ->; [by rewrite <- Ht in Hne|].
    apply (avail_addr x Hx). by rewrite <- Ht. }
  split.
  - destruct Hk as [Hk1 Hk2]. split; intros m; [|apply (Hk2 m)].
    destruct m; simpl; [|apply (Hk1 false)]. rewrite dom_decrNodeCount. apply (Hk1 true).
  - unfold t'. auto with table.
  - intros j Hj Hlj. destruct (decide (j = i)) as [->|Hne].
    + apply (row_ok_demoted t t' i n master.2); auto.
    + destruct (Hl j Hj Hlj) as [Hd' Hav']. split.
      * intros a b. rewrite !(H2 _ j) by auto. apply Hd'.
      * intros k. rewrite !(H2 _ j) by auto. apply Hav'.
  - intros j Hj Hdj. rewrite <- (Hd j) by done. apply column_ext. intros k _. apply H2.
    left. congruence.
  - intros m x b p Hx Hent'. unfold entry in Hent'. destruct m; simpl in Hent'.
    + rewrite bucketsIn_erase in Hent'. case_decide; [|apply (Hent true); auto with congruence].
      subst x. apply lookup_delete_Some in Hent' as [??]. by apply (Hent true).
    + rewrite bucketsIn_insert in Hent'. case_decide as Ex; [subst x|by apply (Hent false)].
      destruct (bucketsIn (s_buckets_set s) master !! i) as [p'|] eqn:Eb.
      * destruct (He false master i p' Hx Eb) as (_ & _ & Hp' & Hp1 & Ht). exfalso.
        apply (Hdist 0%nat p'); [lia|lia|lia|by apply avail_addr|by rewrite Ht].
      * apply lookup_insert_Some in Hent' as [[<- <-]|[? Hb]].
        -- split_and!; [done|done|lia|lia|done].
        -- apply (Hent false); [done|done|congruence].
  - intros x Hx. simpl. specialize (Hle x Hx). rewrite at0_decr, bucketsIn_erase.
    pose proof (size_delete_ge i (bucketsIn (m_buckets_set s) master)).
    pose proof (keys_migrate _ _ Hk true) as Hdom. simpl in Hdom.
    destruct (decide (x = master)) as [->|].
    + rewrite decide_True; [lia|]. rewrite Hdom. split_and!; [done|done|by apply avail_addr].
    + rewrite decide_False by tauto. lia.
Qed.

(** Changes of the counters that the invariant allows. *)
Lemma rb_set_flag s t m v :
  dom v = availableServer c → rb_inv c src s t → rb_inv c src (set_flag m v s) t.
Proof.
  intros Hv Hi. destruct (rb_keys _ _ _ _ Hi) as [H1 H2].
  eapply rb_weaken; [done| |done|done|done]. split; intros m'; [apply (H1 m')|].
  destruct m, m'; simpl; try done; [apply (H2 false)|apply (H2 true)].
Qed.

Lemma rb_set_count s t m v : rb_inv c src s t → rb_inv c src (set_count m v s) t.
Proof.
  intros Hi. destruct (rb_keys _ _ _ _ Hi) as [H1 H2].
  eapply rb_weaken; [done| |done|done|done]. split; intros m'; [apply (H1 m')|apply (H2 m')].
Qed.

Lemma rb_decr_m s t k :
  rb_inv c src s t → rb_inv c src (set_m_migrate (decrNodeCount k (m_migrate_node_info s)) s) t.
Proof.
  intros Hi. destruct (rb_keys _ _ _ _ Hi) as [H1 H2]. eapply rb_weaken; [done| |done|done|].
  - split; intros m'; [|apply (H2 m')]. destruct m'; simpl; [|apply (H1 false)].
    rewrite dom_decrNodeCount. apply (H1 true).
  - intros n. simpl. rewrite at0_decr. case_decide; lia.
Qed.

Lemma rb_dom_flag s t m : rb_inv c src s t → dom (node_flag m s) = availableServer c.
Proof. intros Hi. apply (rb_keys _ _ _ _ Hi). Qed.

Lemma rb_touch_m s t k :
  rb_inv c src s t → k ∈ availableServer c →
  set_m_migrate (touch k (m_migrate_node_info s)) s = s.
Proof.
  intros Hi Hk. pose proof (keys_migrate _ _ (rb_keys _ _ _ _ Hi) true) as Hd. simpl in Hd.
  rewrite touch_id by (by rewrite Hd). by destruct s.
Qed.

Lemma rb_touch_s s t k :
  rb_inv c src s t → k ∈ availableServer c →
  set_s_migrate (touch k (s_migrate_node_info s)) s = s.
Proof.
  intros Hi Hk. pose proof (keys_migrate _ _ (rb_keys _ _ _ _ Hi) false) as Hd. simpl in Hd.
  rewrite touch_id by (by rewrite Hd). by destruct s.
Qed.

Lemma dom_touch_flag s t m k :
  rb_inv c src s t → k ∈ availableServer c → dom (touch k (node_flag m s)) = availableServer c.
Proof. intros Hi Hk. by rewrite touch_id; rewrite (rb_dom_flag s t m Hi). Qed.

(** ** Step 1: one bucket *)

Definition fixed (i : nat) (t : hash_table) (r : option (tb_mig * hash_table)) : Prop :=
  ∃ s' t', r = Some (s', t') ∧ rb_inv c src s' t' ∧ only_bucket i t t' ∧ filled c t' i.

Lemma rb_demoteAndFill s t i :
  rb_inv c src s t → (i < bucketCount c)%nat → isNodeAvailble c (tget src 0 i) = true →
  tget t 0 i ∈ availableServer c →
  existsb (λ j, (tget t j i).1 =? INVALID_FLAG) (range 1 (copyCount c)) = true →
  fixed i t (demoteAndFill rand c i s t).
Proof.
  intros Hi Hb Hl Hm Hex. unfold demoteAndFill, demoteMaster.
  destruct (list_find _ _) as [[x n]|] eqn:E.
  2:{ exfalso. apply list_find_None in E. rewrite list.Forall_forall in E.
      apply existsb_exists in Hex as (j & Hj & Hz). bool_cases. apply (E j); [|done].
      by apply list_elem_of_In. }
  apply list_find_Some in E as (Hx & Hz & _).
  apply list_elem_of_lookup_2, elem_of_range in Hx.
  pose proof (rb_demote s t i n Hi Hb Hl Hx Hz Hm) as Hd. cbv zeta in Hd.
  set (t1 := tset _ 0 _ _) in *. cbn [fst snd].
  assert (Ho : only_bucket i t t1).
  { intros k j Hj. unfold t1. by rewrite !tget_tset_ne by auto. }
  assert (H0 : (tget t1 0 i).1 = INVALID_FLAG).
  { pose proof (rb_wf _ _ _ _ Hi). unfold t1. rewrite (tget_tset_eq c); [done|auto with table|lia|done]. }
  destruct (rb_chooseNodeInvalid _ _ i 0 true Hd Hb Hl) as (s2 & t2 & E2 & Hi2 & Ho2 & Hv2 & _);
    [lia|done|done|].
  simpl in E2 |- *. rewrite E2. simpl.
  destruct (rb_chooseSlaveForInvalid s2 t2 i) as (s3 & t3 & -> & Hi3 & Ho3 & Hf3); [done..|lia|done|].
  eexists _, _. split_and!; [done|done| |done].
  eapply only_bucket_trans; [eapply only_bucket_trans; [exact Ho|exact Ho2]|exact Ho3].
Qed.

Lemma rb_fill s t i :
  rb_inv c src s t → (i < bucketCount c)%nat → isNodeAvailble c (tget src 0 i) = true →
  (1 <= copyCount c)%nat → tget t 0 i ∈ availableServer c →
  fixed i t (chooseSlaveForInvalid rand c i (s, t)).
Proof. intros. apply rb_chooseSlaveForInvalid; try done. by apply avail_addr. Qed.

Lemma rb_fixMissing s t i :
  rb_inv c src s t → (i < bucketCount c)%nat → isNodeAvailble c (tget src 0 i) = true →
  (1 <= copyCount c)%nat → tget t 0 i ∈ availableServer c →
  existsb (λ j, (tget t j i).1 =? INVALID_FLAG) (range 1 (copyCount c)) = true →
  fixed i t (fixMissing rand c i s t).
Proof.
  intros Hi Hb Hl HC Hm Hex. unfold fixMissing. cbv zeta. rewrite !(rb_touch_m s t) by done.
  pose proof (dom_touch_flag s t true _ Hi Hm) as Hdm. simpl in Hdm.
  destruct (_ <=? 0); [by apply rb_fill|].
  destruct (_ && _).
  { apply rb_fill; try done. apply rb_set_count, rb_decr_m, rb_set_flag; [|done].
    by rewrite dom_incrNodeCount. }
  set (s1 := if 0 <? maxMasterCount s then _ else s).
  assert (Hi1 : rb_inv c src s1 t) by (unfold s1; split_if; [by apply rb_set_flag|done]).
  rewrite !(rb_touch_s s1 t) by done.
  destruct (_ <=? 0); [by apply rb_demoteAndFill|].
  set (s2 := if 0 <? maxBucketCount s1 then _ else s1).
  assert (Hi2 : rb_inv c src s2 t).
  { unfold s2. split_if; [|done]. apply rb_set_flag; [|done]. by apply (dom_touch_flag s1 t false). }
  destruct (_ && _); [by apply rb_demoteAndFill|by apply rb_fill].
Qed.

Lemma rb_fixBucket s t i :
  rb_inv c src s t → (i < bucketCount c)%nat → (1 <= copyCount c)%nat →
  tget t 0 i = tget src 0 i →
  ∃ s' t', fixBucket rand c (s, t) i = Some (s', t') ∧ rb_inv c src s' t' ∧ only_bucket i t t' ∧
    (isNodeAvailble c (tget src 0 i) = true → filled c t' i).
Proof.
  intros Hi Hb HC Hsrc. unfold fixBucket.
  assert (Hcond : ((tget t 0 i).1 =? INVALID_FLAG) || negb (bool_decide (tget t 0 i ∈ availableServer c))
    = negb (isNodeAvailble c (tget src 0 i))).
  { rewrite Hsrc. unfold isNodeAvailble. by destruct (_ =? _). }
  rewrite Hcond. destruct (isNodeAvailble c (tget src 0 i)) eqn:Hl; simpl.
  2:{ eexists _, _. split_and!; [done|done|intros ???; done|done]. }
  assert (Hm : tget t 0 i ∈ availableServer c) by (rewrite Hsrc; by apply avail_iff).
  destruct (existsb _ _) eqn:Hex.
  - destruct (rb_fixMissing s t i) as (s' & t' & ? & ? & ? & ?); [done..|].
    eexists _, _. by split_and!.
  - eexists _, _. split_and!; [done|done|intros ???; done|]. intros _ k Hk Hz.
    destruct (decide (k = 0)%nat) as [->|]; [by apply (avail_addr _ Hm)|].
    apply not_true_iff_false in Hex. apply Hex, existsb_exists. exists k.
    split; [apply list_elem_of_In, elem_of_range; lia|]. by apply Z.eqb_eq.
Qed.

Lemma rb_step1 s t :
  rb_inv c src s t → (1 <= copyCount c)%nat → (∀ k j, tget t k j = tget src k j) →
  ∃ s' t', loop_until (fixBucket rand c) (seq 0 (bucketCount c)) (s, t) = Some (s', t') ∧
    rb_inv c src s' t' ∧
    ∀ i, (i < bucketCount c)%nat → isNodeAvailble c (tget src 0 i) = true → filled c t' i.
Proof.
  intros Hi HC Hsame.
  destruct (loop_until_seq (λ i st, rb_inv c src st.1 st.2 ∧
      (∀ j, (j < i)%nat → isNodeAvailble c (tget src 0 j) = true → filled c st.2 j) ∧
      ∀ k j, (i <= j)%nat → tget st.2 k j = tget src k j)
    (fixBucket rand c) 0 (bucketCount c) (s, t)) as ([s' t'] & -> & Hi' & Hf & _).
  - split_and!; [done|lia|auto].
  - intros i [s1 t1] Hib (Hi1 & Hf1 & Hs1). cbn [fst snd] in *.
    destruct (rb_fixBucket s1 t1 i) as (s2 & t2 & -> & Hi2 & Ho & Hf2); [done|lia|done|auto|].
    eexists. split; [done|]. split_and!; [done| |].
    + intros j Hj Hl. simpl. destruct (decide (j = i)) as [->|]; [by apply Hf2|].
      intros k Hk. rewrite Ho by done. apply (Hf1 j); [lia|done|done].
    + intros k j Hj. simpl. rewrite Ho by lia. apply Hs1. lia.
  - eexists _, _. split_and!; [done|done|]. intros. by apply Hf.
Qed.

(** ** Moving a bucket to another server *)

(** What [rb_entry] asks of one entry. *)
Definition entry_ok (t : hash_table) (m : bool) (n : server_id) (b p : nat) : Prop :=
  (b < bucketCount c)%nat ∧ isNodeAvailble c (tget src 0 b) = true ∧
  (p < copyCount c)%nat ∧ (if m then p = 0%nat else 1 <= p)%nat ∧ tget t p b = n.

(** A move of ([b], [p]) from [node] to [k] leaves every other entry true. *)
Lemma move_other (m m' : bool) s t node k b p n b' p' :
  rb_inv c src s t → node ∈ availableServer c → entry m s node b p →
  n ∈ availableServer c → entry m' s n b' p' → ¬ (m' = m ∧ n = node ∧ b' = b) →
  entry_ok (tset t p b k) m' n b' p'.
Proof.
  intros Hi Hnode Hent Hn Hent' Hne.
  destruct (rb_entry _ _ _ _ Hi m node b p Hnode Hent) as (Hb & Hlive & Hp & Hpm & Ht).
  destruct (rb_entry _ _ _ _ Hi m' n b' p' Hn Hent') as (?&?&?&Hpm'&Ht').
  split_and!; try done. rewrite tget_tset_ne; [done|].
  destruct (decide (p = p' ∧ b = b')) as [[<- <-]|]; [|destruct (decide (p = p')); [right|left]; tauto].
  exfalso. apply Hne. split_and!; [destruct m, m'; lia || done|congruence|done].
Qed.

Lemma move_entry (m : bool) s s' t node k b p n b' p' :
  rb_inv c src s t → node ∈ availableServer c → entry m s node b p →
  buckets_set m s' = eraseBucketMap node b (insertBucketMap k b p (buckets_set m s)) →
  n ∈ availableServer c → entry m s' n b' p' → entry_ok (tset t p b k) m n b' p'.
Proof.
  intros Hi Hnode Hent Hbm Hn Hent'.
  destruct (rb_entry _ _ _ _ Hi m node b p Hnode Hent) as (Hb & Hlive & Hp & Hpm & _).
  pose proof (rb_wf _ _ _ _ Hi). unfold entry in Hent'.
  rewrite Hbm, bucketsIn_erase, !bucketsIn_insert in Hent'.
  assert (Hin : ¬ (n = node ∧ b' = b) →
    (if decide (n = k) then match bucketsIn (buckets_set m s) k !! b with
       | Some _ => bucketsIn (buckets_set m s) k
       | None => <[b := p]> (bucketsIn (buckets_set m s) k) end
     else bucketsIn (buckets_set m s) n) !! b' = Some p' → entry_ok (tset t p b k) m n b' p').
  { intros Hne Hl'. case_decide as E; [subst n|by apply (move_other m m s t node); [..|tauto]].
    destruct (bucketsIn _ k !! b) eqn:Eb; [by apply (move_other m m s t node); [..|tauto]|].
    apply lookup_insert_Some in Hl' as [[<- <-]|[_ Hl']]; [|by apply (move_other m m s t node); [..|tauto]].
    split_and!; try done. by apply (tget_tset_eq c). }
  destruct (decide (n = node)) as [->|Hnn]; [|by apply Hin; [tauto|]].
  apply lookup_delete_Some in Hent' as [Hbb Hent']. apply Hin; [by intros [_ ->]|done].
Qed.

(** The sizes of the recorded master entries. *)
Lemma move_le s s' t node k b p n :
  rb_inv c src s t → node ∈ availableServer c → k ∈ availableServer c → entry true s node b p →
  m_buckets_set s' = eraseBucketMap node b (insertBucketMap k b p (m_buckets_set s)) →
  Z.of_nat (size (bucketsIn (m_buckets_set s) n))
    + (if decide (n = k ∧ k ≠ node) then 1 else 0) - (if decide (n = node) then 1 else 0)
  <= Z.of_nat (size (bucketsIn (m_buckets_set s') n)).
Proof.
  intros Hi Hnode Hkav Hent Hbm.
  destruct (rb_entry _ _ _ _ Hi true node b p Hnode Hent) as (_ & _ & _ & -> & Ht).
  rewrite Hbm, bucketsIn_erase, !bucketsIn_insert.
  destruct (decide (n = node)) as [->|Hnn].
  - pose proof (size_delete_ge b (bucketsIn (m_buckets_set s) node)).
    rewrite (decide_False (P := node = k ∧ _)) by (intros [<- []]; done).
    case_decide as E; [|lia]. subst k. unfold entry in Hent. simpl in Hent. rewrite Hent. lia.
  - destruct (decide (n = k)) as [->|]; [|rewrite decide_False by tauto; lia].
    rewrite decide_True by done.
    destruct (bucketsIn (m_buckets_set s) k !! b) as [p'|] eqn:Eb.
    + destruct (rb_entry _ _ _ _ Hi true k b p' Hkav Eb) as (_ & _ & _ & -> & Ht'). congruence.
    + rewrite map_size_insert_None by done. lia.
Qed.

Lemma rb_move (m : bool) s s' t node k b p :
  rb_inv c src s t → node ∈ availableServer c → k ∈ availableServer c →
  entry m s node b p → checkNodeOk c k b p t = true → keys_ok c s' →
  buckets_set m s' = eraseBucketMap node b (insertBucketMap k b p (buckets_set m s)) →
  buckets_set (negb m) s' = buckets_set (negb m) s →
  (∀ n, at0 (m_migrate_node_info s') n <= at0 (m_migrate_node_info s) n
     + (if m then (if decide (n = k ∧ k ≠ node) then 1 else 0) else 0)
     - (if m then (if decide (n = node) then 1 else 0) else 0)) →
  rb_inv c src s' (tset t p b k).
Proof.
  intros Hi Hnode Hkav Hent Hok Hkeys Hbm Hbo Hmig.
  destruct (rb_entry _ _ _ _ Hi m node b p Hnode Hent) as (Hb & Hlive & Hp & _).
  pose proof (rb_wf _ _ _ _ Hi) as Hwf. pose proof (rb_live _ _ _ _ Hi) as Hl.
  pose proof (rb_dead _ _ _ _ Hi) as Hd.
  split; [done|by apply tset_wf|by apply live_tset|by apply dead_tset| |].
  - intros m' n b' p' Hn Hent'. destruct (decide (m' = m)) as [->|Hm]; [by apply (move_entry m s s' t node)|].
    apply (move_other m m' s t node); [done|done|done|done| |tauto]. unfold entry in *.
    replace m' with (negb m) in * by (by destruct m, m'). by rewrite <- Hbo.
  - intros n Hn. pose proof (rb_le _ _ _ _ Hi n Hn). specialize (Hmig n).
    destruct m; simpl in Hbm, Hbo; [|rewrite Hbo; lia].
    pose proof (move_le s s' t node k b p n Hi Hnode Hkav Hent Hbm). lia.
Qed.

Lemma elem_of_bucketsOf m s node b p : (b, p) ∈ bucketsOf m s node ↔ entry m s node b p.
Proof.
  unfold bucketsOf, entry, bucketsIn. rewrite list_elem_of_omap. split.
  - intros (b' & _ & (p' & Hp & [= <- <-])%fmap_Some). done.
  - intros H. exists b. rewrite H. split; [|done].
    rewrite (merge_sort_Permutation le), elem_of_elements. by eapply elem_of_dom_2.
Qed.

(** One step of balancing masters: the counter of [node] goes down by one and no counter
    goes up above zero. *)
Definition shrinks (node : server_id) (s s' : tb_mig) : Prop :=
  at0 (m_migrate_node_info s') node = at0 (m_migrate_node_info s) node - 1 ∧
  ∀ n, n ≠ node → at0 (m_migrate_node_info s') n <= Z.max 0 (at0 (m_migrate_node_info s) n).

(** What one call of [chooseNode] achieves. *)
Definition moved (m : bool) (node : server_id) (s : tb_mig) (t : hash_table)
    (s' : tb_mig) (t' : hash_table) : Prop :=
  rb_inv c src s' t' ∧ (∀ i, filled c t i → filled c t' i) ∧ (m = true → shrinks node s s').

Lemma filled_tset t p b k i :
  wf_table c t → (p < copyCount c)%nat → (b < bucketCount c)%nat → k ∈ availableServer c →
  filled c t i → filled c (tset t p b k) i.
Proof.
  intros Hwf Hp Hb Hk Hf j Hj. rewrite (tget_tset c) by done. case_decide; [by apply avail_addr|].
  by apply Hf.
Qed.

Lemma find_bucket m s t node k :
  match list_find (λ bp, checkNodeOk c k bp.1 bp.2 t = true) (bucketsOf m s node) with
  | Some (_, (b, p)) => entry m s node b p ∧ checkNodeOk c k b p t = true
  | None => ∀ b p, entry m s node b p → checkNodeOk c k b p t = false
  end.
Proof.
  destruct (list_find _ _) as [[x [b p]]|] eqn:E.
  - apply list_find_Some in E as (Hx%list_elem_of_lookup_2 & Hok & _). split; [|done].
    by apply elem_of_bucketsOf.
  - intros b p Hbp%elem_of_bucketsOf. apply list_find_None in E. rewrite list.Forall_forall in E.
    specialize (E _ Hbp). simpl in E. by apply not_true_iff_false.
Qed.

Ltac dom_solve Hk :=
  split; intros [|]; simpl; rewrite ?dom_incrNodeCount, ?dom_decrNodeCount;
  first [apply (keys_migrate _ _ Hk true) | apply (keys_migrate _ _ Hk false)
        | apply (keys_flag _ _ Hk true) | apply (keys_flag _ _ Hk false)].

Lemma rb_moveToNegative m s t node k s' t' :
  rb_inv c src s t → node ∈ availableServer c → k ∈ availableServer c → k ≠ node →
  at0 (migrate_node_info m s) k < 0 →
  moveToNegative c m node s t k = Some (s', t') → moved m node s t s' t'.
Proof.
  intros Hi Hn Hk Hne Hneg. unfold moveToNegative. pose proof (find_bucket m s t node k) as Hfind.
  destruct (list_find _ _) as [[x [b p]]|]; [|done]. destruct Hfind as [Hent Hok].
  cbn -[set_s_migrate set_m_migrate moveBucket]. unfold moveBucket. intros [= <- <-].
  destruct (rb_entry _ _ _ _ Hi m node b p Hn Hent) as (Hb & _ & Hp & _).
  pose proof (rb_keys _ _ _ _ Hi) as Hkeys.
  pose proof (keys_migrate _ _ Hkeys true) as Hdom. simpl in Hdom.
  assert (Hat : ∀ n, at0 (incrNodeCount k (decrNodeCount node (m_migrate_node_info s))) n =
    at0 (m_migrate_node_info s) n + (if decide (n = k ∧ k ≠ node) then 1 else 0)
      - (if decide (n = node) then 1 else 0)).
  { intros n. rewrite at0_incr, at0_decr, dom_decrNodeCount, Hdom.
    pose proof (avail_addr k Hk). pose proof (avail_addr node Hn). unfold INVALID_FLAG in *.
    repeat case_decide; subst; tauto || lia. }
  split_and!.
  - apply (rb_move m s _ t node k b p); try done.
    + destruct m; dom_solve Hkeys.
    + by destruct m.
    + by destruct m.
    + intros n. destruct m; simpl; [rewrite Hat; lia|lia].
  - intros i. apply filled_tset; [by apply (rb_wf _ _ _ _ Hi)|done..].
  - intros ->. simpl in *. split.
    + simpl. rewrite Hat, (decide_True (P := node = node)), decide_False by (done || (intros [E ?]; congruence)). lia.
    + intros n Hnn. simpl. rewrite Hat, (decide_False (P := n = node)) by done.
      destruct (decide (n = k ∧ k ≠ node)) as [[-> _]|]; [lia|]. rewrite Z.add_0_r, Z.sub_0_r. apply Z.le_max_r.
Qed.

Lemma rb_moveToFlagged m s t node k s' t' :
  rb_inv c src s t → node ∈ availableServer c → k ∈ availableServer c →
  moveToFlagged c m node s t k = Some (s', t') → moved m node s t s' t'.
Proof.
  intros Hi Hn Hk. unfold moveToFlagged. pose proof (find_bucket m s t node k) as Hfind.
  destruct (list_find _ _) as [[x [b p]]|]; [|done]. destruct Hfind as [Hent Hok].
  cbn -[set_s_migrate set_m_migrate set_count set_flag moveBucket]. unfold moveBucket. intros [= <- <-].
  destruct (rb_entry _ _ _ _ Hi m node b p Hn Hent) as (Hb & _ & Hp & _).
  pose proof (rb_keys _ _ _ _ Hi) as Hkeys.
  pose proof (keys_migrate _ _ Hkeys true) as Hdom. simpl in Hdom.
  assert (Hat : ∀ n, at0 (decrNodeCount node (m_migrate_node_info s)) n =
    at0 (m_migrate_node_info s) n - (if decide (n = node) then 1 else 0)).
  { intros n. rewrite at0_decr, Hdom. pose proof (avail_addr node Hn). unfold INVALID_FLAG in *.
    repeat case_decide; subst; tauto || lia. }
  split_and!.
  - apply (rb_move m s _ t node k b p); try done.
    + destruct m; dom_solve Hkeys.
    + by destruct m.
    + by destruct m.
    + intros n. destruct m; simpl; [rewrite Hat; repeat case_decide; lia|lia].
  - intros i. apply filled_tset; [by apply (rb_wf _ _ _ _ Hi)|done..].
  - intros ->. split; simpl.
    + rewrite Hat, decide_True by done. lia.
    + intros n Hnn. rewrite Hat, decide_False by done. lia.
Qed.

Lemma rb_set_rng s t r : rb_inv c src s t → rb_inv c src (set_rng r s) t.
Proof.
  intros Hi. eapply rb_weaken; [done|apply keys_set_rng, (rb_keys _ _ _ _ Hi)|done|done|done].
Qed.

Lemma set_flag_id m s : set_flag m (node_flag m s) s = s.
Proof. by destruct m, s. Qed.

(** "Try self": one bucket over the share is charged to the server's flag. *)
Lemma rb_self m s t node :
  rb_inv c src s t → node ∈ availableServer c →
  let s1 := set_flag m (incrNodeCount node (node_flag m s)) s in
  let s2 := set_migrate m (decrNodeCount node (migrate_node_info m s1)) s1 in
  moved m node s t (set_count m (count_info m s2 - 1) s2) t.
Proof.
  intros Hi Hn s1 s2. pose proof (rb_keys _ _ _ _ Hi) as Hk.
  assert (Hi1 : rb_inv c src s1 t).
  { apply rb_set_flag; [|done]. rewrite dom_incrNodeCount. by apply (rb_dom_flag s t). }
  pose proof (keys_migrate _ _ Hk true) as Hdom. simpl in Hdom.
  split_and!; [|done|].
  - apply rb_set_count. unfold s2. destruct m; simpl; [exact (rb_decr_m s1 t node Hi1)|].
    eapply rb_weaken; [exact Hi1| |done|done|done]. destruct (rb_keys _ _ _ _ Hi1) as [Ha Hb].
    split; [|done]. intros [|]; simpl; [apply (Ha true)|].
    rewrite dom_decrNodeCount. apply (Ha false).
  - intros ->. pose proof (avail_addr node Hn). unfold INVALID_FLAG in *.
    split; simpl; [|intros n Hne]; rewrite at0_decr, Hdom.
    + rewrite decide_True by done. done.
    + rewrite decide_False by tauto. lia.
Qed.

(** An overloaded server with a recorded entry is itself an acceptable target. *)
Lemma self_ok m s t node b p :
  rb_inv c src s t → node ∈ availableServer c → entry m s node b p → checkNodeOk c node b p t = true.
Proof.
  intros Hi Hn Hent. destruct (rb_entry _ _ _ _ Hi m node b p Hn Hent) as (Hb & Hl & Hp & _ & Ht).
  destruct (rb_live _ _ _ _ Hi b Hb Hl) as [Hd _]. apply checkNodeOk_spec. intros i HiC Hne Heq.
  apply (Hd p i); [done|done|done| |]; rewrite Ht; [by apply avail_addr|done].
Qed.

Lemma rb_chooseNode m s t node s' t' :
  rb_inv c src s t → node ∈ availableServer c → 0 < at0 (migrate_node_info m s) node →
  (m = true → 0 <= minShare c) →
  chooseNode rand c m node s t = (s', t') → moved m node s t s' t'.
Proof.
  intros Hi Hn Hpos Hms. unfold chooseNode. pose proof (rb_keys _ _ _ _ Hi) as Hk.
  destruct (tryGroups rand true _ _ _) as [[[s1 t1]|] r] eqn:E.
  { intros [= <- <-]. apply search_Some in E as (k & v & Hkv & Hmv & Hneg).
    assert (Hv : at0 (migrate_node_info m s) k = v) by (unfold at0; by rewrite Hkv).
    destruct (rb_moveToNegative m s t node k s1 t1) as (Hi1 & Hf & Hsh); try done.
    - rewrite <- (keys_migrate _ _ Hk m). by eapply elem_of_dom_2.
    - intros ->. specialize (Hneg eq_refl). lia.
    - rewrite Hv. by apply Hneg.
    - split_and!; [by apply rb_set_rng|done|done]. }
  rewrite (touchMigrate_id c) by done. cbv zeta.
  rewrite (touch_id node) by (rewrite (keys_flag _ _ (keys_set_rng c r s Hk) m); done).
  rewrite !set_flag_id. pose proof (rb_set_rng s t r Hi) as Hir.
  destruct (_ && _); [intros [= <- <-]; exact (rb_self m (set_rng r s) t node Hir Hn)|].
  destruct (tryGroups rand false _ _ _) as [[[s1 t1]|] r1] eqn:E'; intros [= <- <-].
  { apply search_Some in E' as (k & v & Hkv & Hmv & _).
    destruct (rb_moveToFlagged m (set_rng r s) t node k s1 t1) as (Hi1 & Hf & Hsh); try done.
    - rewrite <- (keys_flag _ _ Hk m), <- dom_tempNodeFlag. by eapply elem_of_dom_2.
    - split_and!; [by apply rb_set_rng|done|done]. }
  split_and!; [by apply rb_set_rng|done|]. intros ->. exfalso. specialize (Hms eq_refl).
  pose proof (rb_le _ _ _ _ Hi node Hn) as Hle. simpl in Hpos.
  destruct (decide (bucketsIn (m_buckets_set s) node = ∅)) as [Hemp|Hne].
  { rewrite Hemp, map_size_empty in Hle. lia. }
  apply map_choose in Hne as (b & p & Hbp).
  pose proof (search_None _ _ _ _ _ E' node) as Hnone.
  rewrite dom_tempNodeFlag, (keys_flag _ _ Hk true) in Hnone. specialize (Hnone Hn).
  unfold moveToFlagged in Hnone. pose proof (find_bucket true (set_rng r s) t node node) as Hfind.
  destruct (list_find _ _) as [[x [b' p']]|]; [done|].
  specialize (Hfind b p Hbp). by rewrite (self_ok true s t node b p Hi Hn Hbp) in Hfind.
Qed.

(** ** The balancing loops *)

Lemma last_sorted m v node : list.last (sortMapByValue m) = Some (v, node) → m !! node = Some v.
Proof. intros H%last_Some_elem_of. by apply elem_of_sortMapByValue. Qed.

Lemma rb_chooseLoop fuel m s t s' t' :
  rb_inv c src s t → (m = true → 0 <= minShare c) →
  chooseLoop rand fuel c m (s, t) = Some (s', t') →
  rb_inv c src s' t' ∧ ∀ i, filled c t i → filled c t' i.
Proof.
  intros Hi Hms. revert s t Hi. induction fuel as [|fuel IH]; intros s t Hi; cbn [chooseLoop fst snd].
  all: destruct (list.last _) as [[v node]|] eqn:E; [|done].
  all: destruct (0 <? v) eqn:Ev; [|by intros [= <- <-]; auto].
  { done. }
  bool_cases. apply last_sorted in E. destruct (chooseNode rand c m node s t) as [s1 t1] eqn:Ec.
  destruct (rb_chooseNode m s t node s1 t1) as (Hi1 & Hf1 & _); try done.
  - rewrite <- (keys_migrate _ _ (rb_keys _ _ _ _ Hi) m). by eapply elem_of_dom_2.
  - unfold at0. by rewrite E.
  - intros H. destruct (IH s1 t1 Hi1 H) as [? Hf]. auto.
Qed.

Lemma chooseLoop_done fuel m s t s' t' :
  chooseLoop rand fuel c m (s, t) = Some (s', t') → ∀ n, at0 (migrate_node_info m s') n <= 0.
Proof.
  revert s t. induction fuel as [|fuel IH]; intros s t; cbn [chooseLoop fst snd].
  all: destruct (list.last _) as [[v node]|] eqn:E; [|done].
  all: destruct (0 <? v) eqn:Ev; bool_cases;
    [|intros [= <- <-] n; unfold at0; destruct (_ !! n) eqn:En; simpl; [|lia];
      pose proof (last_max _ _ _ _ _ E En); lia].
  - done.
  - destruct (chooseNode rand c m node s t) as [s1 t1]. apply IH.
Qed.

(** The total excess of masters, which every turn of the first loop decreases. *)
Definition excess (s : tb_mig) : Z :=
  foldr (λ n z, Z.max 0 (at0 (m_migrate_node_info s) n) + z) 0 (elements (availableServer c)).

Lemma excess_nonneg s : 0 <= excess s.
Proof. unfold excess. induction (elements _); simpl; lia. Qed.

Lemma shrinks_excess node s s' :
  node ∈ availableServer c → 0 < at0 (m_migrate_node_info s) node → shrinks node s s' →
  excess s' < excess s.
Proof.
  intros Hn Hpos [Hnode Hoth]. unfold excess. apply elem_of_elements in Hn.
  assert (Hle : ∀ l, foldr (λ n z, Z.max 0 (at0 (m_migrate_node_info s') n) + z) 0 l <=
                     foldr (λ n z, Z.max 0 (at0 (m_migrate_node_info s) n) + z) 0 l).
  { induction l as [|n l IH]; simpl; [lia|].
    destruct (decide (n = node)) as [->|Hne]; [lia|]. specialize (Hoth n Hne). lia. }
  induction (elements (availableServer c)) as [|n l IH]; [inversion Hn|]. simpl.
  apply elem_of_cons in Hn as [<-|Hn].
  - specialize (Hle l). lia.
  - specialize (IH Hn). destruct (decide (n = node)) as [->|Hne]; [lia|].
    specialize (Hoth n Hne). lia.
Qed.

Lemma master_loop_ends fuel s t :
  rb_inv c src s t → availableServer c ≠ ∅ → 0 <= minShare c → excess s <= Z.of_nat fuel →
  ∃ st', chooseLoop rand fuel c true (s, t) = Some st'.
Proof.
  intros Hi Hne Hms. revert s t Hi. induction fuel as [|fuel IH]; intros s t Hi Hex;
    cbn [chooseLoop fst snd].
  all: destruct (list.last (sortMapByValue _)) as [[v node]|] eqn:E.
  2,4: exfalso; apply last_None in E; apply set_choose_L in Hne as [n Hn];
    rewrite <- (keys_migrate _ _ (rb_keys _ _ _ _ Hi) true) in Hn;
    apply elem_of_dom in Hn as [v Hv]; apply elem_of_sortMapByValue in Hv; rewrite E in Hv; inversion Hv.
  all: apply last_sorted in E; destruct (0 <? v) eqn:Ev; bool_cases; [|eauto].
  all: assert (Hn : node ∈ availableServer c)
    by (rewrite <- (keys_migrate _ _ (rb_keys _ _ _ _ Hi) true); by eapply elem_of_dom_2).
  all: assert (Hat : 0 < at0 (m_migrate_node_info s) node)
    by (unfold at0; change (m_migrate_node_info s) with (migrate_node_info true s); by rewrite E).
  - exfalso. destruct (chooseNode rand c true node s t) as [s1 t1] eqn:Ec.
    destruct (rb_chooseNode true s t node s1 t1) as (Hi1 & _ & Hsh); try done.
    pose proof (shrinks_excess node s s1 Hn Hat (Hsh eq_refl)). pose proof (excess_nonneg s1). lia.
  - destruct (chooseNode rand c true node s t) as [s1 t1] eqn:Ec.
    destruct (rb_chooseNode true s t node s1 t1) as (Hi1 & _ & Hsh); try done.
    pose proof (shrinks_excess node s s1 Hn Hat (Hsh eq_refl)). apply IH; [done|lia].
Qed.

(** The recorded master entries of distinct servers are distinct buckets, so the excess is
    at most the number of buckets. *)
Lemma excess_bound s t : rb_inv c src s t → 0 <= minShare c → excess s <= Z.of_nat (bucketCount c).
Proof.
  intros Hi Hms. unfold excess.
  enough (∀ l (X : gset nat), NoDup l → (∀ n, n ∈ l → n ∈ availableServer c) →
    (∀ n, n ∈ l → dom (bucketsIn (m_buckets_set s) n) ⊆ X) →
    foldr (λ n z, Z.max 0 (at0 (m_migrate_node_info s) n) + z) 0 l <= Z.of_nat (size X)) as H.
  { etrans; [apply (H _ (list_to_set (seq 0 (bucketCount c)))); [apply NoDup_elements|..]|].
    - intros n. by rewrite elem_of_elements.
    - intros n Hn%elem_of_elements b Hb. apply elem_of_dom in Hb as [p Hp].
      destruct (rb_entry _ _ _ _ Hi true n b p Hn Hp) as (? & _).
      apply elem_of_list_to_set, elem_of_seq. lia.
    - rewrite size_list_to_set by apply NoDup_seq. by rewrite length_seq. }
  induction l as [|n l IH]; intros X Hnd Hav Hsub; simpl; [lia|].
  apply list.NoDup_cons in Hnd as [Hnl Hnd]. set (D := dom (bucketsIn (m_buckets_set s) n)).
  assert (Hn : n ∈ availableServer c) by (apply Hav; left).
  assert (HD : D ⊆ X) by (apply Hsub; left).
  specialize (IH (X ∖ D) Hnd). rewrite size_difference in IH by done.
  pose proof (subseteq_size _ _ HD). pose proof (rb_le _ _ _ _ Hi n Hn).
  assert (size D = size (bucketsIn (m_buckets_set s) n)) by apply size_dom.
  enough (foldr (λ n z, Z.max 0 (at0 (m_migrate_node_info s) n) + z) 0 l <= Z.of_nat (size X - size D)%nat) by lia.
  apply IH; [intros; apply Hav; by right|]. intros n' Hn' b Hb.
  apply elem_of_difference. split; [by eapply Hsub; [right|]|]. intros Hb'.
  apply elem_of_dom in Hb as [p Hp], Hb' as [p' Hp'].
  destruct (rb_entry _ _ _ _ Hi true n' b p) as (_ & _ & _ & -> & Ht); [apply Hav; by right|done|].
  destruct (rb_entry _ _ _ _ Hi true n b p' Hn Hp') as (_ & _ & _ & -> & Ht'). congruence.
Qed.
End Steps.

(** ** The initial state *)

(** A table a rebuild may start from: buckets with a live master have distinct servers, all
    available (what the quick table leaves, see [TableQuick]). *)
Definition src_ok (c : tb_conf) (src : hash_table) : Prop :=
  wf_table c src ∧
  ∀ i, (i < bucketCount c)%nat → isNodeAvailble c (tget src 0 i) = true → row_ok c src i.

Lemma dom_updateNodeCount n m : dom (updateNodeCount n m).2 = dom m.
Proof.
  unfold updateNodeCount. destruct (m !! n) eqn:E; [|done]. apply dom_insert_lookup_L. eauto.
Qed.

Lemma dom_countLine c t k m : dom (countLine c t k m) = dom m.
Proof.
  unfold countLine. apply (foldl_inv (λ x, dom x = dom m)); [|done].
  intros m' i _ <-. apply dom_updateNodeCount.
Qed.

Lemma dom_initTokenCount c : dom (initTokenCount c) = availableServer c.
Proof. apply dom_gset_to_gmap. Qed.

Lemma dom_countTokens c t : dom (countTokens c t) = availableServer c.
Proof.
  unfold countTokens. apply (foldl_inv (λ x, dom x = availableServer c)).
  - intros m k _ <-. apply dom_countLine.
  - apply dom_initTokenCount.
Qed.

Lemma dom_countMasters c t : dom (countMasters c t) = availableServer c.
Proof.
  unfold countMasters. case_decide; [|rewrite dom_countLine]; apply dom_initTokenCount.
Qed.

Lemma keys_init c src r : keys_ok c (initRebuild c src r).
Proof.
  unfold initRebuild. destruct (initBucketSet c src) as [mb sb].
  split; intros [|]; simpl; unfold initCandidateNew; rewrite ?dom_fmap_L;
    auto using dom_countTokens, dom_countMasters, dom_initTokenCount.
Qed.

(** The recorded entries after the buckets below [i]. *)
Definition initBucketStep (c : tb_conf) (t : hash_table) s i :=
  let master := tget t 0 i in
  if bool_decide (master ∈ availableServer c) then
    (insertBucketMap master i 0 s.1,
     foldl (λ sb j, insertBucketMap (tget t j i) i j sb) s.2 (range 1 (copyCount c)))
  else s.

Definition initBucketsUpto (c : tb_conf) (t : hash_table) (i : nat) :=
  foldl (initBucketStep c t)
    (gset_to_gmap ∅ (availableServer c), gset_to_gmap ∅ (availableServer c)) (seq 0 i).

Lemma bucketsIn_empty (X : gset server_id) n : bucketsIn (gset_to_gmap ∅ X) n = ∅.
Proof. unfold bucketsIn. rewrite lookup_gset_to_gmap. by case_guard. Qed.

Lemma init_entry_true c t i n b p :
  bucketsIn (initBucketsUpto c t i).1 n !! b = Some p →
  (b < i)%nat ∧ p = 0%nat ∧ tget t 0 b = n ∧ n ∈ availableServer c.
Proof.
  induction i as [|i IH]; unfold initBucketsUpto.
  { simpl. rewrite bucketsIn_empty, lookup_empty. done. }
  rewrite seq_S, foldl_app. cbn [foldl]. fold (initBucketsUpto c t i).
  change (0 + i)%nat with i.
  unfold initBucketStep. destruct (bool_decide _) eqn:E; bool_cases.
  2:{ intros H. destruct (IH H) as (?&?&?&?). split_and!; auto; lia. }
  cbn [fst]. rewrite bucketsIn_insert. case_decide as En.
  - subst n. destruct (bucketsIn _ _ !! i) eqn:Ei.
    + intros H. destruct (IH H) as (?&?&?&?). split_and!; auto; lia.
    + intros [[<- <-]|[_ H]]%lookup_insert_Some; [split_and!; auto; lia|].
      destruct (IH H) as (?&?&?&?). split_and!; auto; lia.
  - intros H. destruct (IH H) as (?&?&?&?). split_and!; auto; lia.
Qed.

Lemma init_entry_false c t i n b p :
  bucketsIn (initBucketsUpto c t i).2 n !! b = Some p →
  (b < i)%nat ∧ tget t 0 b ∈ availableServer c ∧ (1 <= p < copyCount c)%nat ∧ tget t p b = n.
Proof.
  set (I := λ i (bs : gmap server_id (gmap nat nat)), ∀ n b p, bucketsIn bs n !! b = Some p →
    (b < i)%nat ∧ tget t 0 b ∈ availableServer c ∧ (1 <= p < copyCount c)%nat ∧ tget t p b = n).
  enough (I i (initBucketsUpto c t i).2) as H by apply H.
  induction i as [|i IH]; unfold initBucketsUpto.
  { simpl. intros n' b' p'. by rewrite bucketsIn_empty, lookup_empty. }
  rewrite seq_S, foldl_app. cbn [foldl]. fold (initBucketsUpto c t i).
  change (0 + i)%nat with i.
  assert (IHS : I (S i) (initBucketsUpto c t i).2).
  { intros n' b' p' H. destruct (IH n' b' p' H) as (?&?&?&?). split_and!; auto; lia. }
  unfold initBucketStep. destruct (bool_decide _) eqn:E; bool_cases; [|done]. cbn [snd].
  apply foldl_inv; [|done]. intros bs j Hj%elem_of_range Hbs n' b' p'.
  rewrite bucketsIn_insert. case_decide as En; [|apply Hbs]. subst n'.
  destruct (bucketsIn bs _ !! i); [apply Hbs|].
  intros [[<- <-]|[_ H]]%lookup_insert_Some; [|by apply Hbs]. split_and!; auto; lia.
Qed.

(** A server is counted at most as often as it has recorded master entries. *)
Lemma init_count c t i n :
  n ∈ availableServer c →
  at0 (foldl (λ m i, (updateNodeCount (tget t 0 i) m).2) (initTokenCount c) (seq 0 i)) n <=
  Z.of_nat (size (bucketsIn (initBucketsUpto c t i).1 n)).
Proof.
  intros Hn. induction i as [|i IH]; unfold initBucketsUpto.
  { simpl. unfold at0, initTokenCount. rewrite lookup_gset_to_gmap. case_guard; simpl; lia. }
  rewrite !seq_S, !foldl_app. cbn [foldl]. fold (initBucketsUpto c t i).
  change (0 + i)%nat with i.
  set (m := foldl _ (initTokenCount c) _) in *.
  assert (Hdom : dom m = availableServer c).
  { apply (foldl_inv (λ x, dom x = availableServer c)); [|apply dom_initTokenCount].
    intros m' k _ <-. apply dom_updateNodeCount. }
  unfold initBucketStep, updateNodeCount. destruct (bool_decide _) eqn:E; bool_cases.
  - destruct (m !! tget t 0 i) as [v|] eqn:Ev; [|apply not_elem_of_dom in Ev; by rewrite Hdom in Ev].
    simpl in *. rewrite bucketsIn_insert. unfold at0 in *. case_decide as En.
    + subst n. rewrite lookup_insert_eq. rewrite Ev in IH. simpl in *.
      destruct (bucketsIn _ _ !! i) eqn:Ei; [|rewrite map_size_insert_None by done; lia].
      apply init_entry_true in Ei as [? _]. lia.
    + by rewrite lookup_insert_ne by done.
  - destruct (m !! tget t 0 i) as [v|] eqn:Ev; [|done].
    apply elem_of_dom_2 in Ev. by rewrite Hdom in Ev.
Qed.

Lemma rb_init c src r :
  conf_ok c → (1 <= copyCount c)%nat → src_ok c src → rb_inv c src (initRebuild c src r) src.
Proof.
  intros Hc HC [Hwf Hl].
  assert (Hbs : initBucketSet c src = initBucketsUpto c src (bucketCount c)) by done.
  split; [apply keys_init|done|done|done| |].
  - intros m n b p Hn. unfold entry, initRebuild. rewrite Hbs.
    destruct (initBucketsUpto c src (bucketCount c)) as [mb sb] eqn:E. destruct m; simpl.
    + intros H. pose proof (init_entry_true c src (bucketCount c) n b p) as Hent. rewrite E in Hent.
      destruct (Hent H) as (?&->&Ht&?). split_and!; try done.
      apply (avail_iff c Hc). by rewrite Ht.
    + intros H. pose proof (init_entry_false c src (bucketCount c) n b p) as Hent. rewrite E in Hent.
      destruct (Hent H) as (?&?&?&?). split_and!; try done; try lia. by apply (avail_iff c Hc).
  - intros n Hn. pose proof (init_count c src (bucketCount c) n Hn) as Hcnt.
    unfold initRebuild. rewrite Hbs. destruct (initBucketsUpto c src (bucketCount c)) as [mb sb].
    simpl in *. unfold initCandidateNew, at0 in *. rewrite lookup_fmap. unfold countMasters, countLine.
    rewrite decide_False by (intros ->; destruct Hwf as [Hlen _]; simpl in Hlen; lia).
    destruct (foldl _ (initTokenCount c) _ !! n) eqn:E; simpl in *; unfold minShare; [lia|].
    exfalso. apply not_elem_of_dom in E. apply E.
    change (n ∈ dom (countLine c src 0 (initTokenCount c))). by rewrite dom_countLine, dom_initTokenCount.
Qed.

(** ** The whole rebuild *)

Lemma checkBuckets_dead c t l s :
  (∀ i, i ∈ l → tget t 0 i ∉ availableServer c) → checkBuckets c t l s = inr s.
Proof.
  induction l as [|i l IH]; intros H; [done|]. simpl.
  rewrite bool_decide_eq_false_2 by (apply H; left). apply IH. intros. apply H. by right.
Qed.

Lemma minShare_nonneg c : Z.of_nat (bucketCount c) < 2 ^ 31 → 0 <= minShare c.
Proof.
  intros HB. unfold minShare, i32. set (q := _ / _).
  assert (0 <= q <= Z.of_nat (bucketCount c)).
  { unfold q. destruct (decide (size (availableServer c) = 0%nat)) as [->|].
    - rewrite Z.div_0_r. lia.
    - split; [apply Z.div_pos; lia|apply Z.div_le_upper_bound; nia]. }
  rewrite Z.mod_small by lia. split_if; lia.
Qed.

Lemma full_row_of c src s t i :
  rb_inv c src s t → (i < bucketCount c)%nat → isNodeAvailble c (tget src 0 i) = true →
  filled c t i → full_row c t i.
Proof.
  intros Hi Hb Hl Hf. destruct (rb_live _ _ _ _ Hi i Hb Hl) as [Hd Hav]. split; [|done].
  intros k Hk. apply Hav; [done|]. by apply Hf.
Qed.

(** With no live master the first step does nothing. *)
Lemma step1_dead rand c st l :
  conf_ok c → (∀ i, i ∈ l → (tget st.2 0 i).1 = INVALID_FLAG) →
  loop_until (fixBucket rand c) l st = Some st.
Proof.
  intros Hc. induction l as [|i l IH]; intros H; [done|]. destruct st as [s t]. simpl in *.
  rewrite (H i) by left. simpl. apply IH. intros. apply H. by right.
Qed.

Lemma existsb_all_false {A} (f : A → bool) l : (∀ x, x ∈ l → f x = false) → existsb f l = false.
Proof.
  intros H. apply not_true_iff_false. intros (x & Hx & Hf)%existsb_exists.
  rewrite H in Hf; [done|]. by apply list_elem_of_In.
Qed.

(** C11: the first table.  When no bucket has a master yet and there are at least as many
    servers as copies, a rebuild succeeds, whatever the random draws, and every bucket gets
    all its copies on distinct available servers. *)
Theorem rebuild_first_table rand fuel c r src :
  conf_ok c → (1 <= copyCount c <= size (availableServer c))%nat → wf_table c src →
  (∀ i, (i < bucketCount c)%nat → (tget src 0 i).1 = INVALID_FLAG) →
  ∃ t, rebuildTableNew rand fuel c r src = Built BUILD_OK t ∧
    ∀ i, (i < bucketCount c)%nat → full_row c t i.
Proof.
  intros Hc [HC Hsize] Hwf Hnone. unfold rebuildTableNew.
  assert (Hneed : checkRebuildNeed c src = true).
  { unfold checkRebuildNeed. rewrite checkBuckets_dead.
    - apply negb_true_iff, bool_decide_eq_false_2. intros H. rewrite H, size_empty in Hsize. lia.
    - intros i Hi%elem_of_seq Hav. apply (proj1 (Hc _ Hav)). apply Hnone. lia. }
  rewrite Hneed. simpl. destruct (Nat.eqb_spec (size (availableServer c)) 0); [lia|].
  destruct (Nat.ltb_spec (size (availableServer c)) (copyCount c)); [lia|].
  rewrite step1_dead; [|done|intros i Hi%elem_of_seq; apply Hnone; lia].
  assert (H0 : (tget src 0 0).1 = INVALID_FLAG).
  { destruct (bucketCount c) as [|B] eqn:HB; [|apply Hnone; lia].
    destruct Hwf as [_ Hf]. unfold tget. destruct (src !! 0%nat) as [line|] eqn:E; [|done]. simpl.
    pose proof (Forall_lookup_1 _ _ _ _ Hf E) as Hl. simpl in Hl. rewrite HB in Hl.
    by destruct line. }
  rewrite H0. simpl. rewrite existsb_all_false.
  2:{ intros i Hi%elem_of_seq. rewrite Hnone by lia. done. }
  destruct (buildFirstTime_ok rand c Hc Hsize (initRebuild c src r) src) as (s' & t' & -> & Hfull);
    [apply keys_init|done|done|]. eauto.
Qed.

(** What the steps of a rebuild with at least one live master produce. *)
Lemma rebuild_steps rand fuel c r src t :
  conf_ok c → (1 <= copyCount c)%nat → Z.of_nat (bucketCount c) < 2 ^ 31 → src_ok c src →
  (∃ j, (j < bucketCount c)%nat ∧ isNodeAvailble c (tget src 0 j) = true) →
  rebuildTableNew rand fuel c r src = Built BUILD_OK t →
  ∃ s, rb_inv c src s t ∧
    ∀ i, (i < bucketCount c)%nat → isNodeAvailble c (tget src 0 i) = true → filled c t i.
Proof.
  intros Hc HC HB Hsrc (j & Hj & Hlj). unfold rebuildTableNew.
  destruct (negb _); [done|]. destruct (Nat.eqb _ _); [done|].
  destruct (Nat.ltb_spec (size (availableServer c)) (copyCount c)) as [|Hsize]; [done|].
  pose proof (rb_init c src r Hc HC Hsrc) as Hinit.
  destruct (rb_step1 rand c src Hc Hsize _ _ Hinit HC) as (s1 & t1 & -> & Hi1 & Hf1); [done|].
  destruct ((tget t1 0 0).1 =? INVALID_FLAG) eqn:E0.
  - replace (existsb _ _) with true; [done|]. symmetry. apply existsb_exists. exists j.
    split; [apply in_seq; lia|]. apply negb_true_iff, Z.eqb_neq. by apply Hf1.
  - destruct (chooseLoop rand fuel c true (s1, t1)) as [[s2 t2]|] eqn:E2; [|done].
    destruct (rb_chooseLoop rand c src Hc Hsize fuel true s1 t1 s2 t2) as [Hi2 Hf2];
      [done|intros _; by apply minShare_nonneg|done|].
    destruct (chooseLoop rand fuel c false (s2, t2)) as [[s3 t3]|] eqn:E3; [|done].
    destruct (rb_chooseLoop rand c src Hc Hsize fuel false s2 t2 s3 t3) as [Hi3 Hf3]; [done|done|done|].
    destruct (balanceOk c t3); [|done]. intros [= <-]. exists s3. split; [done|]. auto.
Qed.

(** A successful rebuild gives every bucket with a live master all its copies, on
    distinct available servers. *)
Lemma rebuild_full_rows rand fuel c r src t i :
  conf_ok c → (1 <= copyCount c)%nat → Z.of_nat (bucketCount c) < 2 ^ 31 → src_ok c src →
  rebuildTableNew rand fuel c r src = Built BUILD_OK t →
  (i < bucketCount c)%nat → isNodeAvailble c (tget src 0 i) = true → full_row c t i.
Proof.
  intros Hc HC HB Hsrc Hr Hi Hl.
  destruct (rebuild_steps rand fuel c r src t) as (s & Hinv & Hf); [by eauto..|].
  eapply full_row_of; eauto.
Qed.

(** a bucket whose master is down is left exactly as it was, unless no bucket at all has
    a live master.  (With a single copy this is every bucket of a lost server: the rebuild
    never reassigns them.) *)
Lemma rebuild_dead_rows rand fuel c r src t i j :
  conf_ok c → (1 <= copyCount c)%nat → Z.of_nat (bucketCount c) < 2 ^ 31 → src_ok c src →
  rebuildTableNew rand fuel c r src = Built BUILD_OK t →
  (j < bucketCount c)%nat → isNodeAvailble c (tget src 0 j) = true →
  (i < bucketCount c)%nat → isNodeAvailble c (tget src 0 i) = false →
  column c t i = column c src i.
Proof.
  intros Hc HC HB Hsrc Hr Hj Hlj Hi Hd.
  destruct (rebuild_steps rand fuel c r src t) as (s & Hinv & _); [by eauto..|].
  by apply (rb_dead _ _ _ _ Hinv).
Qed.

(** a rebuild never divides by zero: with no server available it reports that there is
    nothing to change before it computes a share. *)
Lemma rebuild_no_division_by_zero rand fuel c r src :
  rebuildTableNew rand fuel c r src ≠ DividesByZero.
Proof.
  unfold rebuildTableNew. destruct (negb (checkRebuildNeed c src)) eqn:Hneed; [done|].
  destruct (Nat.eqb_spec (size (availableServer c)) 0) as [Hz|].
  - apply size_empty_inv in Hz. fold_leibniz. bool_cases. unfold checkRebuildNeed in Hneed.
    rewrite checkBuckets_dead in Hneed by (intros; rewrite Hz; apply not_elem_of_empty). rewrite Hz in Hneed. bool_cases. done.
  - repeat match goal with |- context [match ?x with _ => _ end] => destruct x; try done end.
Qed.

(** C12: the loop that balances masters ends.  The first step succeeds, and then as many
    turns as there are buckets are enough for the loop to reach a state where no server
    exceeds its share. *)
Theorem master_loop_terminates rand fuel c r src :
  conf_ok c → (1 <= copyCount c <= size (availableServer c))%nat →
  Z.of_nat (bucketCount c) < 2 ^ 31 → src_ok c src → (bucketCount c <= fuel)%nat →
  ∃ st st', loop_until (fixBucket rand c) (seq 0 (bucketCount c)) (initRebuild c src r, src) = Some st ∧
    chooseLoop rand fuel c true st = Some st' ∧ ∀ n, at0 (m_migrate_node_info st'.1) n <= 0.
Proof.
  intros Hc [HC Hsize] HB Hsrc Hfuel.
  pose proof (rb_init c src r Hc HC Hsrc) as Hinit.
  destruct (rb_step1 rand c src Hc Hsize _ _ Hinit HC) as (s1 & t1 & E & Hi1 & _); [done|].
  pose proof (minShare_nonneg c HB) as Hms.
  destruct (master_loop_ends rand c src Hc Hsize fuel s1 t1) as [[s2 t2] Hst']; [done| |done|..].
  - intros He. rewrite He, size_empty in Hsize. lia.
  - pose proof (excess_bound c src Hsize s1 t1 Hi1 Hms). lia.
  - exists (s1, t1), (s2, t2). split_and!; [done|done|]. simpl. by eapply (chooseLoop_done rand c Hsize fuel true).
Qed.

(** ** After a failure: quick table, then rebuild *)

Lemma live_addresses c t i :
  distinct_upto t (copyCount c) i → NoDup (fst <$> live c (column c t i)).
Proof.
  intros Hd. unfold live, column. rewrite filter_fmap_comm, <- list_fmap_compose.
  apply NoDup_fmap_2_strong; [|apply list.NoDup_filter, NoDup_seq].
  intros a b [Ha Hsa]%list_elem_of_filter [Hb Hsb]%list_elem_of_filter. simpl in *.
  rewrite elem_of_seq in Hsa, Hsb. intros Heq. destruct (decide (a = b)) as [|Hne]; [done|].
  apply isNodeAvailble_spec in Ha as [Ha _].
  by destruct (Hd a b ltac:(lia) ltac:(lia) Hne Ha).
Qed.

(** A row made of live servers and zeros, with distinct addresses. *)
Lemma row_ok_live c t i l n :
  column c t i = l ++ replicate n (0, 0) → (∀ x, x ∈ l → x ∈ availableServer c) →
  NoDup (fst <$> l) → row_ok c t i.
Proof.
  intros Hcol Hav Hnd.
  assert (Hget : ∀ k, (k < copyCount c)%nat → (tget t k i).1 ≠ INVALID_FLAG → l !! k = Some (tget t k i)).
  { intros k Hk Hv. pose proof (lookup_column c t i k Hk) as Hl. rewrite Hcol in Hl.
    apply lookup_app_Some in Hl as [Hl|[_ [Hl _]%lookup_replicate]]; [done|]. by rewrite Hl in Hv. }
  split.
  - intros a b Ha Hb Hab Hv Heq. pose proof (Hget a Ha Hv) as Hla.
    rewrite Heq in Hv. pose proof (Hget b Hb Hv) as Hlb.
    apply Hab, (NoDup_lookup (fst <$> l) a b (tget t a i).1 Hnd); rewrite list_lookup_fmap.
    + by rewrite Hla.
    + rewrite Hlb. simpl. by rewrite Heq.
  - intros k Hk Hv. apply Hav. by eapply list_elem_of_lookup_2, Hget.
Qed.

Lemma quick_row_ok c t t' i :
  distinct_upto t (copyCount c) i → quick_row c (column c t i) (column c t' i) → row_ok c t' i.
Proof.
  intros Hd (m & l1 & l2 & n & Hlive & Hrow & _).
  assert (Hp : m :: l1 ++ l2 ≡ₚ live c (column c t i)) by (rewrite Hlive; by rewrite Permutation_middle).
  apply (row_ok_live c t' i (m :: l1 ++ l2) n).
  - rewrite Hrow. simpl. by rewrite <- app_assoc.
  - intros x. rewrite Hp. intros [Hx _]%list_elem_of_filter. by apply isNodeAvailble_spec in Hx as [_ ?].
  - rewrite Hp. by apply live_addresses.
Qed.

Lemma quick_master_live c t t' i :
  quick_row c (column c t i) (column c t' i) → (1 <= copyCount c)%nat →
  isNodeAvailble c (tget t' 0 i) = true.
Proof.
  intros (m & l1 & l2 & n & Hlive & Hrow & _) HC. rewrite column_cons in Hrow by lia.
  injection Hrow as -> _. assert (Hin : m ∈ live c (column c t i)) by (rewrite Hlive, elem_of_app; right; left).
  by apply list_elem_of_filter in Hin as [? _].
Qed.

(** What the quick table leaves is a table a rebuild may start from. *)
Lemma quick_src_ok c t b q' t' :
  wf_table c t → (1 <= copyCount c)%nat →
  (∀ j, (j < bucketCount c)%nat → distinct_upto t (copyCount c) j) →
  buildQuickTable c empty_quick t = (b, q', t') → src_ok c t'.
Proof.
  intros Hwf HC Hd Hq. split; [by eapply buildQuickTable_wf|]. intros i Hi Hl.
  destruct (decide (live c (column c t i) = [])) as [Hnil|Hne].
  - destruct (quick_dead_row c t b q' t' i) as [H0 _]; [done..|]. exfalso.
    rewrite live_nil_iff in Hnil. rewrite H0, Hnil in Hl; [done|].
    apply elem_of_column. exists 0%nat. split; [lia|done].
  - eapply quick_row_ok; [by apply Hd|]. by eapply quick_live_row.
Qed.

(** C9: recovery from lost servers, end to end.  Take a table whose rows have distinct
    servers and build the quick table, then rebuild from it.  When the rebuild reports
    success, every bucket that had a live replica before has all its copies again, on
    distinct available servers. *)
Theorem quick_then_rebuild rand fuel c r t b q' t' t'' i :
  conf_ok c → (1 <= copyCount c)%nat → Z.of_nat (bucketCount c) < 2 ^ 31 → wf_table c t →
  (∀ j, (j < bucketCount c)%nat → distinct_upto t (copyCount c) j) →
  buildQuickTable c empty_quick t = (b, q', t') →
  rebuildTableNew rand fuel c r t' = Built BUILD_OK t'' →
  (i < bucketCount c)%nat → live c (column c t i) ≠ [] → full_row c t'' i.
Proof.
  intros Hc HC HB Hwf Hd Hq Hr Hi Hl.
  assert (Hm : isNodeAvailble c (tget t' 0 i) = true)
    by (eapply quick_master_live; [by eapply quick_live_row|done]).
  destruct (rebuild_steps rand fuel c r t' t'') as (s & Hinv & Hf); eauto using quick_src_ok.
  eapply full_row_of; eauto.
Qed.

(** ** Witnesses: four servers, one of them lost *)

Definition demo_rand (n : nat) : nat := (7 * n + 3)%nat.

Definition demo4 : tb_conf :=
  {| availableServer := setAvailableServer 255 [1; 3; 4]; posMask := 255;
     bucketCount := 4; copyCount := 2 |}.

Definition demo4_empty : hash_table := loadHashTable demo4 [0; 0; 0; 0; 0; 0; 0; 0].
Definition demo4_table : hash_table := loadHashTable demo4 [2; 1; 3; 4; 1; 2; 1; 3].
Definition demo4_lost : hash_table := loadHashTable demo4 [1; 1; 2; 4; 0; 0; 2; 3].
Definition demo4_quick : hash_table := (buildQuickTable demo4 empty_quick demo4_table).2.

Lemma demo4_conf_ok : conf_ok demo4.
Proof.
  intros n. change (availableServer demo4) with (setAvailableServer 255 [1; 3; 4]).
  unfold setAvailableServer. rewrite elem_of_list_to_set, list_elem_of_fmap. intros (id & -> & Hid). simpl.
  rewrite !elem_of_cons, elem_of_nil in Hid. split; [|done]. destruct Hid as [->|[->|[->|[]]]]; done.
Qed.

Lemma demo4_wf l : wf_table demo4 (loadHashTable demo4 l).
Proof. split; [done|]. repeat constructor. Qed.

(** Both copies of every bucket are on different servers. *)
Lemma demo4_distinct j : (j < 4)%nat → distinct_upto demo4_table 2 j.
Proof.
  intros Hj a b Ha Hb Hab. destruct j as [|[|[|[|j]]]]; try lia;
    destruct a as [|[|a]]; try lia; destruct b as [|[|b]]; try lia; vm_compute; congruence.
Qed.

Lemma demo4_src_ok : src_ok demo4 demo4_lost.
Proof.
  split; [apply demo4_wf|]. intros i Hi Hl. simpl in Hi.
  destruct i as [|[|[|[|i]]]]; try lia; try (vm_compute in Hl; discriminate Hl); split;
    try (intros a b Ha Hb Hab; simpl in Ha, Hb; destruct a as [|[|a]]; try lia;
         destruct b as [|[|b]]; try lia; vm_compute; congruence);
    intros k Hk; simpl in Hk; destruct k as [|[|k]]; try lia; vm_compute; try congruence;
    intros _; exact I.
Qed.

Lemma rebuild_first_table_witness :
  ∃ t, rebuildTableNew demo_rand 0 demo4 0 demo4_empty = Built BUILD_OK t ∧
    ∀ i, (i < 4)%nat → full_row demo4 t i.
Proof.
  apply (rebuild_first_table demo_rand 0 demo4 0 demo4_empty).
  - apply demo4_conf_ok.
  - vm_compute. lia.
  - apply demo4_wf.
  - intros i Hi. simpl in Hi. destruct i as [|[|[|[|i]]]]; try lia; reflexivity.
Defined.

Lemma rebuild_full_rows_witness :
  ∃ t, rebuildTableNew demo_rand 20 demo4 0 demo4_lost = Built BUILD_OK t ∧ full_row demo4 t 1.
Proof.
  eexists. split; [vm_compute; reflexivity|].
  apply (rebuild_full_rows demo_rand 20 demo4 0 demo4_lost).
  - apply demo4_conf_ok.
  - simpl. lia.
  - simpl. lia.
  - apply demo4_src_ok.
  - vm_compute. reflexivity.
  - simpl. lia.
  - vm_compute. reflexivity.
Defined.

Lemma rebuild_dead_rows_witness :
  ∃ t, rebuildTableNew demo_rand 20 demo4 0 demo4_lost = Built BUILD_OK t ∧
    column demo4 t 2 = column demo4 demo4_lost 2.
Proof.
  eexists. split; [vm_compute; reflexivity|].
  apply (rebuild_dead_rows demo_rand 20 demo4 0 demo4_lost _ 2 1).
  - apply demo4_conf_ok.
  - simpl. lia.
  - simpl. lia.
  - apply demo4_src_ok.
  - vm_compute. reflexivity.
  - simpl. lia.
  - vm_compute. reflexivity.
  - simpl. lia.
  - vm_compute. reflexivity.
Defined.

Lemma master_loop_terminates_witness :
  ∃ st st', loop_until (fixBucket demo_rand demo4) (seq 0 4) (initRebuild demo4 demo4_lost 0, demo4_lost)
      = Some st ∧
    chooseLoop demo_rand 4 demo4 true st = Some st' ∧ ∀ n, at0 (m_migrate_node_info st'.1) n <= 0.
Proof.
  apply (master_loop_terminates demo_rand 4 demo4 0 demo4_lost).
  - apply demo4_conf_ok.
  - vm_compute. lia.
  - simpl. lia.
  - apply demo4_src_ok.
  - simpl. lia.
Defined.

Lemma quick_then_rebuild_witness :
  ∃ t, rebuildTableNew demo_rand 20 demo4 0 demo4_quick = Built BUILD_OK t ∧ full_row demo4 t 0.
Proof.
  eexists. split; [vm_compute; reflexivity|].
  eapply (quick_then_rebuild demo_rand 20 demo4 0 demo4_table true _ demo4_quick).
  - apply demo4_conf_ok.
  - simpl. lia.
  - simpl. lia.
  - apply demo4_wf.
  - apply demo4_distinct.
  - vm_compute. reflexivity.
  - vm_compute. reflexivity.
  - simpl. lia.
  - vm_compute. discriminate.
Defined.
