(* ===== verification/Buffers.v ===== *)
(** * Byte buffers (src/src/public/buffers.{h,cc})

    [DataBuffer] and [Buffer] are the wire buffers of every message: a block with a write
    position and a read position.  [NBuffer] is the receive buffer of a connection and
    [CBufferMgn] a growing text buffer.

    Conventions.  The four pointers are the block ([None] is the null pointer) and two
    offsets in it; [_pend] is the end of the block.  Allocation succeeds.  Fresh memory
    holds arbitrary bytes [junk].  [None] is an execution the source gives no meaning to: a
    failed [assert], an access outside of the block, a signed overflow or an endless loop
    of the doubling loops. *)
From S2P Require Import Prelude.

Definition DEFAULT_MAX_NBUFFER_SIZE : Z := 1024 * 1024 + 256.
Definition DEFAULT_MAX_DATABUFFER_SIZE : Z := 2048.

(** ** Blocks of memory *)

(** [memcpy] of [l] to offset [off] of a block. *)
Definition poke (m : list Z) (off : Z) (l : list Z) : option (list Z) :=
  if (0 <=? off) && (off + Z.of_nat (length l) <=? Z.of_nat (length m))
  then Some (take (Z.to_nat off) m ++ l ++ drop (Z.to_nat off + length l) m)
  else None.

(** The [len] bytes at offset [off]. *)
Definition peek (m : list Z) (off len : Z) : option (list Z) :=
  if (0 <=? off) && (0 <=? len) && (off + len <=? Z.of_nat (length m))
  then Some (take (Z.to_nat len) (drop (Z.to_nat off) m))
  else None.

(** [while (!ok(len)) len <<= 1] on an [int32_t]. *)
Fixpoint double_until (fuel : nat) (len : Z) (ok : Z → bool) : option Z :=
  if ok len then Some len else
  match fuel with
  | O => None
  | S fuel => if (len <? 0) || (2 ^ 31 <=? 2 * len) then None else double_until fuel (2 * len) ok
  end.

(** ** [DataBuffer] and [Buffer] *)

(** [block] is what [_pstart.._pend] points to; [wrapping] is [_wrapBuf == _pstart], the
    block belongs to the caller; [userFreed] records that a caller's block was freed. *)
Record data_buffer := {
  block : option (list Z);
  pfree : Z;
  pdata : Z;
  wrapping : bool;
  userFreed : bool }.

Definition bytes (b : data_buffer) : list Z := default [] (block b).
Definition pend (b : data_buffer) : Z := Z.of_nat (length (bytes b)).

Definition DataBuffer_new : data_buffer :=
  {| block := None; pfree := 0; pdata := 0; wrapping := false; userFreed := false |}.
Definition DataBuffer_wrap (wrapbuf : list Z) : data_buffer :=
  {| block := Some wrapbuf; pfree := 0; pdata := 0; wrapping := true; userFreed := false |}.

Definition set_pfree (v : Z) (b : data_buffer) : data_buffer :=
  Build_data_buffer (block b) v (pdata b) (wrapping b) (userFreed b).
Definition set_pdata (v : Z) (b : data_buffer) : data_buffer :=
  Build_data_buffer (block b) (pfree b) v (wrapping b) (userFreed b).
Definition set_bytes (m : list Z) (b : data_buffer) : data_buffer :=
  Build_data_buffer (Some m) (pfree b) (pdata b) (wrapping b) (userFreed b).

Definition destroy (b : data_buffer) : data_buffer :=
  match block b with
  | None => b
  | Some _ => Build_data_buffer None 0 0 (wrapping b) (userFreed b)
  end.

Definition getDataLen (b : data_buffer) : Z := u32 (pfree b).
Definition getFreeLen (b : data_buffer) : Z := i32 (pend b - pfree b).

Definition clear (b : data_buffer) : data_buffer := set_pdata 0 (set_pfree 0 b).

Definition drainData (b : data_buffer) (len : Z) : data_buffer :=
  let b := set_pdata (pdata b + len) b in
  if pfree b <=? pdata b then clear b else b.

Definition pourData (b : data_buffer) (len : Z) : option data_buffer :=
  _ ← assert_that (len <=? pend b - pfree b);
  Some (set_pfree (pfree b + len) b).

Definition stripData (b : data_buffer) (len : Z) : option data_buffer :=
  _ ← assert_that (len <=? pfree b - pdata b);
  Some (set_pfree (pfree b - len) b).

Definition pos (b : data_buffer) (p : Z) : bool * data_buffer :=
  if u32 (pfree b) <=? p then (false, b) else (true, set_pdata p b).

Definition expect (b : data_buffer) (len : Z) : bool := negb (pfree b <? pdata b + len).

Section Buffers.
Variable junk : nat → Z.

Definition malloc (len : Z) : list Z := junk <$> seq 0 (Z.to_nat len).

Definition expand (b : data_buffer) (need : Z) : option data_buffer :=
  match block b with
  | None =>
      len ← double_until 32 256 (λ len, need <=? len);
      Some (Build_data_buffer (Some (malloc len)) 0 0 false (userFreed b))
  | Some m =>
      if pend b - pfree b <? need then
        let flen := i32 (pend b - pfree b) in
        let dlen := i32 (pfree b) in
        if (flen <? need) || (flen * 4 <? dlen) then
          bufsize ← double_until 32 (i32 (pend b * 2)) (λ bufsize, need <=? bufsize - dlen);
          newbuf ← (if 0 <? dlen then data ← peek m 0 dlen; poke (malloc bufsize) 0 data
                    else Some (malloc bufsize));
          Some (Build_data_buffer (Some newbuf) dlen (u32 (pdata b)) false
                  (userFreed b || wrapping b))
        else
          data ← peek m (pdata b) dlen;
          m' ← poke m 0 data;
          Some (Build_data_buffer (Some m') dlen (u32 (pdata b)) (wrapping b) (userFreed b))
      else Some b
  end.

Definition ensureFree := expand.

Definition shrink (b : data_buffer) : option (bool * data_buffer) :=
  match block b with
  | None => Some (false, b)
  | Some m =>
      if (pend b <=? DEFAULT_MAX_DATABUFFER_SIZE) || (DEFAULT_MAX_DATABUFFER_SIZE <? pfree b - pdata b)
      then Some (false, b) else
      let dlen := Z.max 0 (i32 (pfree b - pdata b)) in
      let newbuf := malloc DEFAULT_MAX_DATABUFFER_SIZE in
      newbuf ← (if 0 <? dlen then data ← peek m (pdata b) dlen; poke newbuf 0 data else Some newbuf);
      Some (true, Build_data_buffer (Some newbuf) dlen 0 false (userFreed b))
  end.

(** *** Writing *)

(** Stores [l] at the write position, which the caller has made room for. *)
Definition put (b : data_buffer) (l : list Z) : option data_buffer :=
  m ← poke (bytes b) (pfree b) l;
  Some (set_pfree (pfree b + Z.of_nat (length l)) (set_bytes m b)).

Definition writeInt8 (b : data_buffer) (n : Z) : option data_buffer :=
  b ← expand b 1; put b (be_bytes 1 n).
Definition writeInt16 (b : data_buffer) (n : Z) : option data_buffer :=
  b ← expand b 2; put b (be_bytes 2 n).
Definition writeInt32 (b : data_buffer) (n : Z) : option data_buffer :=
  b ← expand b 4; put b (be_bytes 4 n).
Definition writeInt64 (b : data_buffer) (n : Z) : option data_buffer :=
  b ← expand b 8; put b (be_bytes 8 n).

Definition writeBytes (b : data_buffer) (src : list Z) : option data_buffer :=
  b ← expand b (i32 (Z.of_nat (length src))); put b src.

(** [writeString(const std::string&)]. *)
Definition writeString (b : data_buffer) (str : list Z) : option data_buffer :=
  let len := i32 (Z.of_nat (length str)) in
  b ← expand b (i32 (len + 4));
  b ← writeInt32 b len;
  writeBytes b str.

(** [writeString(const char* )]: [str] is [None] for a null pointer, else the characters
    before the terminating zero, which is written too. *)
Definition writeCString (b : data_buffer) (str : option (list Z)) : option data_buffer :=
  let data := match str with Some (x :: l) => (x :: l) ++ [0] | _ => [] end in
  let len := i32 (Z.of_nat (length data)) in
  b ← expand b (i32 (len + 4));
  b ← writeInt32 b len;
  writeBytes b data.

Fixpoint writeAll (w : data_buffer → Z → option data_buffer) (b : data_buffer) (v : list Z)
    : option data_buffer :=
  match v with
  | [] => Some b
  | x :: v => b ← w b x; writeAll w b v
  end.

(** [writeVector] of 32-bit and of 64-bit elements. *)
Definition writeVector32 (b : data_buffer) (v : list Z) : option data_buffer :=
  b ← writeInt32 b (u32 (Z.of_nat (length v))); writeAll writeInt32 b v.
Definition writeVector64 (b : data_buffer) (v : list Z) : option data_buffer :=
  b ← writeInt32 b (u32 (Z.of_nat (length v))); writeAll writeInt64 b v.

(** [fillInt*]: writes at a place of a block reserved before. *)
Definition fillInt8 (m : list Z) (dst n : Z) : option (list Z) := poke m dst (be_bytes 1 n).
Definition fillInt16 (m : list Z) (dst n : Z) : option (list Z) := poke m dst (be_bytes 2 n).
Definition fillInt32 (m : list Z) (dst n : Z) : option (list Z) := poke m dst (be_bytes 4 n).
Definition fillInt64 (m : list Z) (dst n : Z) : option (list Z) := poke m dst (be_bytes 8 n).

(** *** Reading *)

Definition readInt (k : Z) (b : data_buffer) : option (Z * data_buffer) :=
  _ ← assert_that (pdata b + k <=? pfree b);
  l ← peek (bytes b) (pdata b) k;
  Some (be_value l, set_pdata (pdata b + k) b).

Definition readInt8 (b : data_buffer) := readInt 1 b.
Definition readInt16 (b : data_buffer) := readInt 2 b.
Definition readInt32 (b : data_buffer) := readInt 4 b.
Definition readInt64 (b : data_buffer) := readInt 8 b.

(** [readBytes]: the bytes read, or [None] inside for [return false]. *)
Definition readBytes (b : data_buffer) (len : Z) : option (option (list Z) * data_buffer) :=
  if pfree b <? pdata b + len then Some (None, b) else
  l ← peek (bytes b) (pdata b) len;
  let b := set_pdata (pdata b + len) b in
  _ ← assert_that (pdata b <=? pfree b);
  Some (Some l, b).

(** The length a string read uses: the stored one, cut to what the buffer holds. *)
Definition cutLen (b : data_buffer) (slen : Z) : Z :=
  if pfree b - pdata b <? slen then i32 (pfree b - pdata b) else slen.

Definition readString (b : data_buffer) (str : list Z) : option (bool * list Z * data_buffer) :=
  if pfree b <? pdata b + 4 then Some (false, str, b) else
  '(n, b) ← readInt32 b;
  let slen := cutLen b (i32 n) in
  l ← (if 0 <? slen then peek (bytes b) (pdata b) slen else Some []);
  let b := set_pdata (pdata b + slen) b in
  _ ← assert_that (pdata b <=? pfree b);
  Some (true, str ++ l, b).

(** [readString(char*&, int32_t)]: a null [str] is allocated, the last byte copied is
    replaced by a zero. *)
Definition readCString (b : data_buffer) (str : option (list Z)) (len : Z)
    : option (bool * option (list Z) * data_buffer) :=
  if pfree b <? pdata b + 4 then Some (false, str, b) else
  '(n, b) ← readInt32 b;
  let slen := cutLen b (i32 n) in
  let '(str, len) := match str with
                     | None => if 0 <? slen then (Some (malloc slen), slen) else (None, len)
                     | Some _ => (str, len)
                     end in
  let len := Z.min len slen in
  str ← (if 0 <? len then
           l ← peek (bytes b) (pdata b) len;
           s ← str;
           s ← poke s 0 l;
           s ← poke s (len - 1) [0];
           Some (Some s)
         else Some str);
  let b := set_pdata (pdata b + slen) b in
  _ ← assert_that (pdata b <=? pfree b);
  Some (true, str, b).

Fixpoint readAll (rd : data_buffer → option (Z * data_buffer)) (cast : Z → Z) (n : nat)
    (b : data_buffer) : option (list Z * data_buffer) :=
  match n with
  | O => Some ([], b)
  | S n => '(x, b) ← rd b; '(l, b) ← readAll rd cast n b; Some (cast x :: l, b)
  end.

(** [readVector], which appends to [v]; [cast] is the conversion to the element type. *)
Definition readVector (rd : data_buffer → option (Z * data_buffer)) (cast : Z → Z)
    (b : data_buffer) (v : list Z) : option (list Z * data_buffer) :=
  '(len, b) ← readInt32 b;
  '(l, b) ← readAll rd cast (Z.to_nat len) b;
  Some (v ++ l, b).

Definition i64 (z : Z) : Z := let m := z mod 2 ^ 64 in if m <? 2 ^ 63 then m else m - 2 ^ 64.

Definition readVectorI32 := readVector readInt32 i32.
Definition readVectorU32 := readVector readInt32 u32.
Definition readVectorI64 := readVector readInt64 i64.
Definition readVectorU64 := readVector readInt64 u64.

(** [findBytes]: compares the byte with [findstr[0]] as a signed character; the bound is
    taken from the start of the block while the comparison starts at the read position. *)
Fixpoint findFrom (fuel : nat) (m : list Z) (data i dLen : Z) (findstr : list Z) : option Z :=
  if dLen <=? i then Some (-1) else
  match fuel with
  | O => None
  | S fuel =>
      c ← head <$> peek m (data + i) 1;
      if bool_decide (c = schar <$> head findstr) then
        l ← peek m (data + i) (Z.of_nat (length findstr));
        if bool_decide (l = findstr) then Some i else findFrom fuel m data (i + 1) dLen findstr
      else findFrom fuel m data (i + 1) dLen findstr
  end.

Definition findBytes (b : data_buffer) (findstr : list Z) : option Z :=
  let dLen := i32 (pfree b - Z.of_nat (length findstr) + 1) in
  findFrom (Z.to_nat dLen) (bytes b) (pdata b) 0 dLen findstr.

(** *** [Buffer]: the same operations on a block that is full when it wraps one *)

Definition Buffer_wrap (wrapbuf : list Z) : data_buffer :=
  {| block := Some wrapbuf; pfree := Z.of_nat (length wrapbuf); pdata := 0;
     wrapping := true; userFreed := false |}.

Definition Buffer_expand (b : data_buffer) (need : Z) : option data_buffer := expand b need.

Definition Buffer_alloc (size : Z) : option data_buffer := Buffer_expand DataBuffer_new size.

Definition dataLen (b : data_buffer) : Z := i32 (pfree b).
Definition curDataLen (b : data_buffer) : Z := i32 (pfree b - pdata b).
Definition freeLen (b : data_buffer) : Z := i32 (pend b - pfree b).

Definition Buffer_pos (b : data_buffer) (p : Z) : bool * data_buffer :=
  if u32 (pfree b) <=? p then (false, b) else (true, set_pdata p b).

Definition Buffer_pourData (b : data_buffer) (len : Z) : bool * data_buffer :=
  if pend b - pfree b <? len then (false, b) else (true, set_pfree (pfree b + len) b).

Definition Buffer_writeInt16 (b : data_buffer) (n : Z) := b ← Buffer_expand b 2; put b (be_bytes 2 n).
Definition Buffer_writeInt32 (b : data_buffer) (n : Z) := b ← Buffer_expand b 4; put b (be_bytes 4 n).
Definition Buffer_writeInt64 (b : data_buffer) (n : Z) := b ← Buffer_expand b 8; put b (be_bytes 8 n).
Definition Buffer_writeBytes (b : data_buffer) (src : list Z) : option data_buffer :=
  b ← Buffer_expand b (i32 (Z.of_nat (length src))); put b src.
Definition Buffer_writeString (b : data_buffer) (str : list Z) : option data_buffer :=
  let len := i32 (Z.of_nat (length str)) in
  b ← Buffer_expand b (i32 (len + 4));
  b ← Buffer_writeInt32 b len;
  Buffer_writeBytes b str.
Definition Buffer_fillInt8 := fillInt8.
Definition Buffer_fillInt16 := fillInt16.
Definition Buffer_fillInt32 := fillInt32.
Definition Buffer_fillInt64 := fillInt64.
Definition Buffer_readInt8 (b : data_buffer) := readInt 1 b.
Definition Buffer_readInt16 (b : data_buffer) := readInt 2 b.
Definition Buffer_readInt32 (b : data_buffer) := readInt 4 b.
Definition Buffer_readInt64 (b : data_buffer) := readInt 8 b.
Definition Buffer_readBytes (b : data_buffer) (len : Z) := readBytes b len.
Definition Buffer_readString (b : data_buffer) (str : list Z) := readString b str.
End Buffers.
