(* ===== verification/BufferSpec.v ===== *)
(** * Buffers as byte queues

    The contract of [DataBuffer] and [Buffer] (src/src/public/buffers.cc): the unread bytes
    form a queue.  Every write appends to it, every read takes from its front, growing and
    shrinking keep it, and a message written field by field is read back field by field. *)
From S2P Require Import Prelude Buffers.

(** ** The abstract state *)

(** The bytes written and not yet read. *)
Definition contents (b : data_buffer) : list Z :=
  take (Z.to_nat (pfree b - pdata b)) (drop (Z.to_nat (pdata b)) (bytes b)).

(** The sizes for which no size computation of the buffers overflows. *)
Definition size_limit : Z := 2 ^ 29.

Record wf_buf (b : data_buffer) : Prop := {
  wb_order : 0 <= pdata b <= pfree b;
  wb_end : pfree b <= pend b;
  wb_cap : pend b <= 2 * size_limit;
  wb_bytes : Forall is_u8 (bytes b);
  wb_null : block b = None ∨ 0 < pend b }.

(** ** Blocks *)

Lemma length_malloc junk len : 0 <= len → Z.of_nat (length (malloc junk len)) = len.
Proof. intros. unfold malloc. rewrite length_fmap, length_seq. lia. Qed.

Lemma malloc_u8 junk len : (∀ i, is_u8 (junk i)) → Forall is_u8 (malloc junk len).
Proof. intros H. apply list.Forall_forall. intros x (i & -> & _)%list_elem_of_fmap. apply H. Qed.

Lemma peek_Some m off len :
  0 <= off → 0 <= len → off + len <= Z.of_nat (length m) →
  peek m off len = Some (take (Z.to_nat len) (drop (Z.to_nat off) m)).
Proof.
  intros. unfold peek. rewrite !(proj2 (Z.leb_le _ _)) by lia. done.
Qed.

Lemma poke_Some m off l :
  0 <= off → off + Z.of_nat (length l) <= Z.of_nat (length m) →
  poke m off l = Some (take (Z.to_nat off) m ++ l ++ drop (Z.to_nat off + length l) m).
Proof. intros. unfold poke. rewrite !(proj2 (Z.leb_le _ _)) by lia. done. Qed.

Lemma poke_length m off l m' : poke m off l = Some m' → length m' = length m.
Proof.
  unfold poke. destruct (_ && _) eqn:E; [|done]. bool_cases. intros [= <-].
  autorewrite with mybase_len. lia.
Qed.

Lemma poke_u8 m off l m' : Forall is_u8 m → Forall is_u8 l → poke m off l = Some m' → Forall is_u8 m'.
Proof.
  intros Hm Hl. unfold poke. destruct (_ && _); [|done]. intros [= <-].
  rewrite !Forall_app. split_and!; [by apply Forall_take|done|by apply Forall_drop].
Qed.

(** The doubling loop: it ends with a size at least [t], and below twice [t] unless the
    first size is enough. *)
Lemma double_until_ok fuel len t ok :
  (∀ l, ok l = (t <=? l)) → 0 < len < 2 ^ 31 → t <= 2 ^ 30 → t <= len * 2 ^ Z.of_nat fuel →
  ∃ r, double_until fuel len ok = Some r ∧ t <= r ∧ (r = len ∨ (len <= r ∧ r < 2 * t)).
Proof.
  intros Hok. revert len. induction fuel as [|fuel IH]; intros len Hlen Ht Hf; simpl; rewrite Hok.
  - rewrite (proj2 (Z.leb_le _ _)) by lia. exists len. auto with lia.
  - destruct (t <=? len) eqn:E; bool_cases; [exists len; auto with lia|].
    rewrite (proj2 (Z.ltb_ge _ _)), (proj2 (Z.leb_gt _ _)) by lia. cbn [orb].
    destruct (IH (2 * len)) as (r & -> & Hr & Hor); [lia|done| |].
    + rewrite Nat2Z.inj_succ, Z.pow_succ_r in Hf by lia. lia.
    + exists r. split_and!; [done|done|]. right. lia.
Qed.

(** ** Growing *)

Section Grow.
Context (junk : nat → Z) (Hjunk : ∀ i, is_u8 (junk i)).

(** What [expand] guarantees: room, and everything written is still there. *)
Definition grown (b : data_buffer) (need : Z) (b' : data_buffer) : Prop :=
  wf_buf b' ∧ need <= pend b' - pfree b' ∧ pfree b' = pfree b ∧ pdata b' = pdata b ∧
  take (Z.to_nat (pfree b)) (bytes b') = take (Z.to_nat (pfree b)) (bytes b) ∧ block b' ≠ None.

Lemma expand_null b need :
  wf_buf b → block b = None → 0 <= need <= size_limit → ∃ b', expand junk b need = Some b' ∧ grown b need b'.
Proof.
  intros [Ho He Hc Hb _] Hn Hneed. unfold expand, size_limit in *. rewrite Hn.
  assert (pfree b = 0 ∧ pdata b = 0) as [Hf Hd].
  { unfold pend, bytes in He. rewrite Hn in He. simpl in He. lia. }
  destruct (double_until_ok 32 256 need (λ len, need <=? len)) as (r & -> & Hr & Hor);
    [done|lia|lia|lia|]. simpl.
  pose proof (length_malloc junk r ltac:(lia)) as Hlen.
  eexists. split; [done|]. unfold grown, pend, bytes, pend, size_limit. simpl. rewrite Hlen, Hf, Hd.
  split_and!; try lia; try done. split; unfold pend, bytes, size_limit; simpl; try lia.
  by apply malloc_u8.
Qed.

Lemma expand_grow b m need :
  wf_buf b → block b = Some m → pend b - pfree b < need → pfree b + need <= size_limit →
  ∃ b', expand junk b need = Some b' ∧ grown b need b' ∧ wrapping b' = false ∧
    userFreed b' = userFreed b || wrapping b.
Proof.
  intros [Ho He Hc Hb Hnull] Hm Hlt Hsz. unfold expand, size_limit in *. rewrite Hm.
  rewrite (proj2 (Z.ltb_lt _ _)) by lia.
  assert (Hpos : 0 < pend b) by (destruct Hnull; [congruence|done]).
  rewrite !i32_id by lia. rewrite (proj2 (Z.ltb_lt (pend b - pfree b) need)) by lia. cbn [orb].
  destruct (double_until_ok 32 (pend b * 2) (pfree b + need) (λ bs, need <=? bs - pfree b))
    as (r & -> & Hr & Hor); [|lia|lia|lia|].
  { intros l. destruct (need <=? l - pfree b) eqn:E; bool_cases; symmetry;
      [apply Z.leb_le|apply Z.leb_gt]; lia. }
  simpl. pose proof (length_malloc junk r ltac:(lia)) as Hlen.
  assert (Hbm : bytes b = m) by (unfold bytes; by rewrite Hm).
  assert (Hpend : pend b = Z.of_nat (length m)) by (unfold pend; by rewrite Hbm).
  assert (Hu : u32 (pdata b) = pdata b) by (apply u32_id; unfold is_u32; lia).
  set (data := take (Z.to_nat (pfree b)) m).
  assert (Hdl : Z.of_nat (length data) = pfree b) by (unfold data; rewrite length_take; lia).
  destruct (0 <? pfree b) eqn:E; bool_cases.
  - rewrite peek_Some by lia. simpl. change (drop (Z.to_nat 0) m) with m. fold data.
    rewrite poke_Some by lia. simpl. eexists. split; [done|].
    split_and!; [|done|done]. unfold grown, pend, bytes. simpl. rewrite Hm. simpl.
    set (m' := data ++ _).
    assert (Hm' : Z.of_nat (length m') = r) by (unfold m'; autorewrite with mybase_len; lia).
    rewrite Hm', Hu. split_and!; try lia; try done.
    + split; unfold pend, bytes, size_limit; simpl; rewrite ?Hm'; try lia.
      unfold m'. rewrite Forall_app. rewrite Hbm in Hb.
      split; [by apply Forall_take|apply Forall_drop; by apply malloc_u8].
    + unfold m'. rewrite take_app_le by lia. unfold data. rewrite take_take. f_equal. lia.
  - simpl. eexists. split; [done|]. split_and!; [|done|done].
    unfold grown, pend, bytes. simpl. rewrite Hlen, Hu. split_and!; try lia; try done.
    + split; unfold pend, bytes, size_limit; simpl; try lia. by apply malloc_u8.
    + by replace (Z.to_nat (pfree b)) with 0%nat by lia.
Qed.

Lemma expand_ok b need :
  wf_buf b → 0 <= need → pfree b + need <= size_limit → ∃ b', expand junk b need = Some b' ∧ grown b need b'.
Proof.
  intros Hb Hneed Hsz. destruct (block b) as [m|] eqn:Hm.
  - destruct (decide (pend b - pfree b < need)) as [Hlt|Hge].
    + destruct (expand_grow b m need) as (b' & ? & ? & _); eauto.
    + exists b. unfold expand. rewrite Hm, (proj2 (Z.ltb_ge _ _)) by lia.
      split; [done|]. split_and!; try done; [lia|congruence].
  - apply expand_null; try done. pose proof (wb_order _ Hb). pose proof (wb_end _ Hb). lia.
Qed.

Lemma grown_contents b need b' : wf_buf b → grown b need b' → contents b' = contents b.
Proof.
  intros [Ho _ _ _ _] (_ & _ & Hf & Hd & Ht & _). unfold contents. rewrite Hf, Hd.
  replace (Z.to_nat (pfree b - pdata b)) with (Z.to_nat (pfree b) - Z.to_nat (pdata b))%nat by lia.
  by rewrite !take_drop_commute_sub, Ht.
Qed.

(** ** Writing appends *)

(** [appended b l b']: [b'] is [b] with [l] appended to the queue. *)
Definition appended (b : data_buffer) (l : list Z) (b' : data_buffer) : Prop :=
  wf_buf b' ∧ contents b' = contents b ++ l ∧ pfree b' = pfree b + Z.of_nat (length l) ∧ pdata b' = pdata b.

Lemma put_ok b l :
  wf_buf b → block b ≠ None → Forall is_u8 l → Z.of_nat (length l) <= pend b - pfree b →
  ∃ b', put b l = Some b' ∧ appended b l b'.
Proof.
  intros [Ho He Hc Hb Hn] Hnn Hl Hlen. unfold put, pend in *.
  destruct (poke (bytes b) (pfree b) l) as [m'|] eqn:Hp; [|rewrite poke_Some in Hp by lia; done].
  pose proof (poke_length _ _ _ _ Hp) as Hlm. pose proof (poke_u8 _ _ _ _ Hb Hl Hp) as Hu.
  rewrite poke_Some in Hp by lia. injection Hp as Hm'. simpl. eexists. split; [done|].
  split_and!; [|clear Hlm Hu|done|done].
  - split; unfold pend, bytes; simpl; try lia; [done|]. right. destruct Hn; [done|lia].
  - unfold contents, bytes at 1. simpl. rewrite <- Hm'. set (m := bytes b) in *.
    set (d := Z.to_nat (pdata b)). set (f := Z.to_nat (pfree b)).
    assert (d <= f <= length m)%nat by lia.
    replace (Z.to_nat (pfree b + Z.of_nat (length l) - pdata b)) with (f - d + length l)%nat by lia.
    replace (Z.to_nat (pfree b - pdata b)) with (f - d)%nat by lia.
    rewrite drop_app_le by (rewrite length_take; lia).
    rewrite take_app_ge by (rewrite length_drop, length_take; lia).
    rewrite take_drop_commute_sub. f_equal.
    rewrite length_drop, length_take.
    replace (f - d + length l - (Init.Nat.min f (length m) - d))%nat with (length l) by lia.
    by rewrite take_app_length.
Qed.

Lemma grown_put b need b1 l :
  wf_buf b → grown b need b1 → Forall is_u8 l → Z.of_nat (length l) <= need →
  ∃ b', put b1 l = Some b' ∧ appended b l b'.
Proof.
  intros Hb Hg Hl Hlen. pose proof (grown_contents _ _ _ Hb Hg) as Hc.
  destruct Hg as (Hwf & Hroom & Hf & Hd & _ & Hnn).
  destruct (put_ok b1 l) as (b' & Hp & ? & Hc' & ? & ?); [done|done|done|lia|].
  exists b'. split; [done|]. split_and!; [done|by rewrite Hc', Hc|lia|lia].
Qed.

Lemma write_ok b l need :
  wf_buf b → Forall is_u8 l → Z.of_nat (length l) = need → pfree b + need <= size_limit →
  ∃ b', (b ← expand junk b need; put b l) = Some b' ∧ appended b l b'.
Proof.
  intros Hb Hl Hlen Hsz. destruct (expand_ok b need) as (b1 & -> & Hg); [done|lia|done|]. simpl.
  eapply grown_put; eauto. lia.
Qed.

Lemma appended_trans b l1 b1 l2 b2 : appended b l1 b1 → appended b1 l2 b2 → appended b (l1 ++ l2) b2.
Proof.
  intros (_ & Hc1 & Hf1 & Hd1) (Hw2 & Hc2 & Hf2 & Hd2). split_and!; [done| | |congruence].
  - by rewrite Hc2, Hc1, app_assoc.
  - rewrite length_app. lia.
Qed.

Lemma writeInt8_ok b n :
  wf_buf b → pfree b + 1 <= size_limit → ∃ b', writeInt8 junk b n = Some b' ∧ appended b (be_bytes 1 n) b'.
Proof. intros. apply write_ok; auto using be_bytes_u8. Qed.
Lemma writeInt16_ok b n :
  wf_buf b → pfree b + 2 <= size_limit → ∃ b', writeInt16 junk b n = Some b' ∧ appended b (be_bytes 2 n) b'.
Proof. intros. apply write_ok; auto using be_bytes_u8. Qed.
Lemma writeInt32_ok b n :
  wf_buf b → pfree b + 4 <= size_limit → ∃ b', writeInt32 junk b n = Some b' ∧ appended b (be_bytes 4 n) b'.
Proof. intros. apply write_ok; auto using be_bytes_u8. Qed.
Lemma writeInt64_ok b n :
  wf_buf b → pfree b + 8 <= size_limit → ∃ b', writeInt64 junk b n = Some b' ∧ appended b (be_bytes 8 n) b'.
Proof. intros. apply write_ok; auto using be_bytes_u8. Qed.

Lemma writeBytes_ok b l :
  wf_buf b → Forall is_u8 l → pfree b + Z.of_nat (length l) <= size_limit →
  ∃ b', writeBytes junk b l = Some b' ∧ appended b l b'.
Proof.
  intros Hb Hl Hsz. pose proof (wb_order _ Hb). unfold writeBytes.
  rewrite i32_id by (unfold size_limit in *; lia). apply write_ok; auto.
Qed.

Lemma writeString_ok b s :
  wf_buf b → Forall is_u8 s → pfree b + Z.of_nat (length s) + 4 <= size_limit →
  ∃ b', writeString junk b s = Some b' ∧ appended b (be_bytes 4 (Z.of_nat (length s)) ++ s) b'.
Proof.
  intros Hb Hs Hsz. pose proof (wb_order _ Hb). unfold writeString. cbv zeta.
  rewrite (i32_id (Z.of_nat (length s))) by (unfold size_limit in *; lia).
  rewrite i32_id by (unfold size_limit in *; lia).
  destruct (expand_ok b (Z.of_nat (length s) + 4)) as (b1 & -> & Hg); [done|lia|lia|]. simpl.
  pose proof (grown_contents _ _ _ Hb Hg) as Hc. destruct Hg as (Hw1 & _ & Hf1 & Hd1 & _).
  destruct (writeInt32_ok b1 (Z.of_nat (length s))) as (b2 & -> & Ha2); [done|lia|]. simpl.
  pose proof Ha2 as (Hw2 & Hc2 & Hf2 & Hd2). rewrite length_be_bytes in Hf2.
  destruct (writeBytes_ok b2 s) as (b3 & -> & Ha3); [done|done|lia|].
  exists b3. split; [done|]. destruct (appended_trans _ _ _ _ _ Ha2 Ha3) as (? & Hc3 & Hf3 & ?).
  split_and!; [done|by rewrite Hc3, Hc|by rewrite Hf3, Hf1|lia].
Qed.

Lemma writeAll_ok w k b v :
  (∀ b n, wf_buf b → pfree b + Z.of_nat k <= size_limit →
     ∃ b', w b n = Some b' ∧ appended b (be_bytes k n) b') →
  wf_buf b → pfree b + Z.of_nat (k * length v) <= size_limit →
  ∃ b', writeAll w b v = Some b' ∧ appended b (mjoin (be_bytes k <$> v)) b'.
Proof.
  intros Hw. revert b. induction v as [|x v IH]; intros b Hb Hsz; simpl.
  - exists b. split; [done|]. split_and!; [done|by rewrite app_nil_r|simpl; lia|done].
  - simpl in Hsz. destruct (Hw b x) as (b1 & -> & Ha); [done|lia|]. simpl.
    pose proof Ha as (Hw1 & _ & Hf1 & _). rewrite length_be_bytes in Hf1.
    destruct (IH b1) as (b2 & -> & Ha2); [done|lia|]. exists b2. split; [done|].
    by eapply appended_trans.
Qed.

(** ** Reading takes from the front *)

(** [taken b l b']: the queue of [b] is [l] followed by that of [b']. *)
Definition taken (b : data_buffer) (l : list Z) (b' : data_buffer) : Prop :=
  wf_buf b' ∧ contents b = l ++ contents b' ∧ pfree b' = pfree b ∧ bytes b' = bytes b ∧
  pdata b' = pdata b + Z.of_nat (length l).

Lemma contents_length b : wf_buf b → Z.of_nat (length (contents b)) = pfree b - pdata b.
Proof.
  intros [Ho He _ _ _]. unfold contents, pend in *. rewrite length_take, length_drop. lia.
Qed.

Lemma take_front b l rest :
  wf_buf b → contents b = l ++ rest →
  peek (bytes b) (pdata b) (Z.of_nat (length l)) = Some l ∧
  taken b l (set_pdata (pdata b + Z.of_nat (length l)) b) ∧
  pdata b + Z.of_nat (length l) <= pfree b.
Proof.
  intros Hb Hc. pose proof Hc as Hc0.
  pose proof (contents_length b Hb) as Hlen. rewrite Hc, length_app in Hlen.
  pose proof Hb as [Ho He Hcap Hu Hn]. unfold contents, pend in *.
  set (d := Z.to_nat (pdata b)) in *. set (m := bytes b) in *.
  replace (Z.to_nat (pfree b - pdata b)) with (length l + length rest)%nat in Hc by lia.
  assert (Hl : take (length l) (drop d m) = l).
  { apply (f_equal (take (length l))) in Hc. rewrite take_take, take_app_length in Hc.
    by rewrite Nat.min_l in Hc by lia. }
  assert (Hr : take (length rest) (drop (d + length l) m) = rest).
  { apply (f_equal (drop (length l))) in Hc. rewrite drop_app_length in Hc.
    rewrite <- drop_drop, take_drop_commute. exact Hc. }
  split_and!; [|split_and!; try done|lia].
  - rewrite peek_Some by lia. rewrite Nat2Z.id. fold d m. by rewrite Hl.
  - split; simpl; try done. lia.
  - trans (l ++ rest); [exact Hc0|]. f_equal. unfold contents.
    change (bytes (set_pdata _ b)) with m. cbn [pfree pdata set_pdata].
    replace (Z.to_nat (pfree b - (pdata b + Z.of_nat (length l)))) with (length rest) by lia.
    by replace (Z.to_nat (pdata b + Z.of_nat (length l))) with (d + length l)%nat by lia.
Qed.

(** ** Reads *)

Lemma readInt_ok b l rest :
  wf_buf b → contents b = l ++ rest →
  ∃ b', readInt (Z.of_nat (length l)) b = Some (be_value l, b') ∧ taken b l b' ∧ contents b' = rest.
Proof.
  intros Hb Hc. destruct (take_front b l rest Hb Hc) as (Hp & Ht & Hle).
  eexists. split; [|split; [exact Ht|]].
  - unfold readInt. rewrite (proj2 (Z.leb_le _ _)) by done. simpl. by rewrite Hp.
  - destruct Ht as (_ & Ht & _). rewrite Hc in Ht. by apply app_inv_head in Ht.
Qed.

Lemma readInt_bytes k b n rest :
  wf_buf b → contents b = be_bytes k n ++ rest → 0 <= n < 2 ^ (8 * Z.of_nat k) →
  ∃ b', readInt (Z.of_nat k) b = Some (n, b') ∧ wf_buf b' ∧ contents b' = rest.
Proof.
  intros Hb Hc Hn. destruct (readInt_ok b _ _ Hb Hc) as (b' & Hr & (? & _) & ?).
  rewrite length_be_bytes, be_value_bytes_id in Hr by done. eauto.
Qed.

Lemma readString_ok b s rest acc :
  wf_buf b → Z.of_nat (length s) < 2 ^ 31 → contents b = be_bytes 4 (Z.of_nat (length s)) ++ s ++ rest →
  ∃ b', readString b acc = Some (true, acc ++ s, b') ∧ wf_buf b' ∧ contents b' = rest.
Proof.
  intros Hb Hlen Hc. pose proof (contents_length b Hb) as Hl.
  rewrite Hc, !length_app, length_be_bytes in Hl. unfold readString.
  rewrite (proj2 (Z.ltb_ge _ _)) by lia.
  destruct (readInt_bytes 4 b (Z.of_nat (length s)) (s ++ rest)) as (b1 & Hr & Hw1 & Hc1); [done|done|lia|].
  change (readInt32 b) with (readInt (Z.of_nat 4) b). rewrite Hr. cbn [mbind option_bind].
  pose proof (contents_length b1 Hw1) as Hl1. rewrite Hc1, length_app in Hl1.
  rewrite i32_id by lia. unfold cutLen. rewrite (proj2 (Z.ltb_ge _ _)) by lia.
  destruct (take_front b1 s rest Hw1 Hc1) as (Hp & (Hw2 & Ht & _) & Hle).
  rewrite Hc1 in Ht. apply app_inv_head in Ht.
  destruct (0 <? Z.of_nat (length s)) eqn:E; bool_cases.
  - rewrite Hp. cbn [mbind option_bind]. cbn [set_pdata pdata pfree].
    rewrite (proj2 (Z.leb_le _ _)) by done. simpl. eauto.
  - destruct s; [|simpl in E; lia]. cbn [mbind option_bind set_pdata pdata pfree].
    rewrite (proj2 (Z.leb_le _ _)) by done. simpl. eauto.
Qed.

Lemma readAll_ok k rd cast v b rest :
  rd = readInt (Z.of_nat k) →
  Forall (λ x, 0 <= x < 2 ^ (8 * Z.of_nat k) ∧ cast x = x) v →
  wf_buf b → contents b = mjoin (be_bytes k <$> v) ++ rest →
  ∃ b', readAll rd cast (length v) b = Some (v, b') ∧ wf_buf b' ∧ contents b' = rest.
Proof.
  intros -> Hv. revert b. induction Hv as [|x v [Hx Hcast] Hv IH]; intros b Hb Hc; simpl.
  { eauto. }
  simpl in Hc. rewrite <- app_assoc in Hc.
  destruct (readInt_bytes k b x _ Hb Hc Hx) as (b1 & -> & Hw1 & Hc1). simpl.
  destruct (IH b1 Hw1 Hc1) as (b2 & -> & ? & ?). simpl. rewrite Hcast. eauto.
Qed.

(** ** Messages: a sequence of fields *)

Inductive field :=
| F8 (n : Z) | F16 (n : Z) | F32 (n : Z) | F64 (n : Z) | FString (s : list Z)
| FVec32 (v : list Z) | FVec64 (v : list Z).

(** What the reader knows of a field before reading it. *)
Inductive shape := S8 | S16 | S32 | S64 | SString | SVec32 | SVec64.

Definition shape_of (f : field) : shape :=
  match f with
  | F8 _ => S8 | F16 _ => S16 | F32 _ => S32 | F64 _ => S64 | FString _ => SString
  | FVec32 _ => SVec32 | FVec64 _ => SVec64
  end.

Definition field_ok (f : field) : Prop :=
  match f with
  | F8 n => is_u8 n | F16 n => is_u16 n | F32 n => is_u32 n | F64 n => is_u64 n
  | FString s => Forall is_u8 s
  | FVec32 v => Forall is_u32 v
  | FVec64 v => Forall is_u64 v
  end.

(** The bytes of a field on the wire. *)
Definition encode (f : field) : list Z :=
  match f with
  | F8 n => be_bytes 1 n | F16 n => be_bytes 2 n | F32 n => be_bytes 4 n | F64 n => be_bytes 8 n
  | FString s => be_bytes 4 (Z.of_nat (length s)) ++ s
  | FVec32 v => be_bytes 4 (Z.of_nat (length v)) ++ mjoin (be_bytes 4 <$> v)
  | FVec64 v => be_bytes 4 (Z.of_nat (length v)) ++ mjoin (be_bytes 8 <$> v)
  end.

Definition write_field (b : data_buffer) (f : field) : option data_buffer :=
  match f with
  | F8 n => writeInt8 junk b n | F16 n => writeInt16 junk b n
  | F32 n => writeInt32 junk b n | F64 n => writeInt64 junk b n
  | FString s => writeString junk b s
  | FVec32 v => writeVector32 junk b v | FVec64 v => writeVector64 junk b v
  end.

Definition read_field (b : data_buffer) (s : shape) : option (field * data_buffer) :=
  match s with
  | S8 => '(n, b) ← readInt8 b; Some (F8 n, b)
  | S16 => '(n, b) ← readInt16 b; Some (F16 n, b)
  | S32 => '(n, b) ← readInt32 b; Some (F32 n, b)
  | S64 => '(n, b) ← readInt64 b; Some (F64 n, b)
  | SString => '(_, s, b) ← readString b []; Some (FString s, b)
  | SVec32 => '(v, b) ← readVectorU32 b []; Some (FVec32 v, b)
  | SVec64 => '(v, b) ← readVectorU64 b []; Some (FVec64 v, b)
  end.

Fixpoint write_message (b : data_buffer) (fs : list field) : option data_buffer :=
  match fs with
  | [] => Some b
  | f :: fs => b ← write_field b f; write_message b fs
  end.

Fixpoint read_message (b : data_buffer) (ss : list shape) : option (list field * data_buffer) :=
  match ss with
  | [] => Some ([], b)
  | s :: ss => '(f, b) ← read_field b s; '(fs, b) ← read_message b ss; Some (f :: fs, b)
  end.

Definition encode_all (fs : list field) : list Z := mjoin (encode <$> fs).

Lemma length_join_bytes k v : length (mjoin (be_bytes k <$> v)) = (k * length v)%nat.
Proof.
  induction v as [|x v IH]; [simpl; lia|].
  change (mjoin _) with (be_bytes k x ++ mjoin (be_bytes k <$> v)).
  rewrite length_app, length_be_bytes, IH. simpl. lia.
Qed.

Lemma writeVector_ok w k b v :
  (∀ b n, wf_buf b → pfree b + Z.of_nat k <= size_limit →
     ∃ b', w b n = Some b' ∧ appended b (be_bytes k n) b') →
  wf_buf b → pfree b + 4 + Z.of_nat (k * length v) <= size_limit → (1 <= k)%nat →
  ∃ b', (b ← writeInt32 junk b (u32 (Z.of_nat (length v))); writeAll w b v) = Some b' ∧
    appended b (be_bytes 4 (Z.of_nat (length v)) ++ mjoin (be_bytes k <$> v)) b'.
Proof.
  intros Hw Hb Hsz Hk. pose proof (wb_order _ Hb). unfold size_limit in *.
  rewrite u32_id by (unfold is_u32; nia).
  destruct (writeInt32_ok b (Z.of_nat (length v))) as (b1 & -> & Ha); [done|unfold size_limit; lia|].
  cbn [mbind option_bind]. pose proof Ha as (Hw1 & _ & Hf1 & _). rewrite length_be_bytes in Hf1.
  destruct (writeAll_ok w k b1 v Hw Hw1) as (b2 & -> & Ha2); [unfold size_limit; lia|].
  exists b2. split; [done|]. by eapply appended_trans.
Qed.

Lemma write_field_ok b f :
  wf_buf b → field_ok f → pfree b + Z.of_nat (length (encode f)) <= size_limit →
  ∃ b', write_field b f = Some b' ∧ appended b (encode f) b'.
Proof.
  intros Hb Hf Hsz. destruct f; simpl in *; rewrite ?length_app, ?length_be_bytes, ?length_join_bytes in Hsz.
  - apply writeInt8_ok; [done|lia].
  - apply writeInt16_ok; [done|lia].
  - apply writeInt32_ok; [done|lia].
  - apply writeInt64_ok; [done|lia].
  - apply writeString_ok; [done|done|lia].
  - apply writeVector_ok; [|done|lia|lia]. intros. apply writeInt32_ok; [done|lia].
  - apply writeVector_ok; [|done|lia|lia]. intros. apply writeInt64_ok; [done|lia].
Qed.

Lemma readVector_ok k rd cast v b rest :
  rd = readInt (Z.of_nat k) →
  Forall (λ x, 0 <= x < 2 ^ (8 * Z.of_nat k) ∧ cast x = x) v → Z.of_nat (length v) < 2 ^ 32 →
  wf_buf b → contents b = (be_bytes 4 (Z.of_nat (length v)) ++ mjoin (be_bytes k <$> v)) ++ rest →
  ∃ b', readVector rd cast b [] = Some (v, b') ∧ wf_buf b' ∧ contents b' = rest.
Proof.
  intros Hrd Hv Hlen Hb Hc. rewrite <- app_assoc in Hc. unfold readVector.
  destruct (readInt_bytes 4 b (Z.of_nat (length v)) _ Hb Hc) as (b1 & Hr & Hw1 & Hc1); [lia|].
  change (readInt32 b) with (readInt (Z.of_nat 4) b). rewrite Hr. cbn [mbind option_bind].
  rewrite Nat2Z.id. destruct (readAll_ok k rd cast v b1 rest Hrd Hv Hw1 Hc1) as (b2 & -> & ? & ?).
  simpl. eauto.
Qed.

Lemma read_field_ok b f rest :
  wf_buf b → field_ok f → Z.of_nat (length (encode f)) <= size_limit → contents b = encode f ++ rest →
  ∃ b', read_field b (shape_of f) = Some (f, b') ∧ wf_buf b' ∧ contents b' = rest.
Proof.
  intros Hb Hf Hsz Hc. unfold size_limit in Hsz.
  destruct f; cbn [encode field_ok shape_of read_field] in *;
    rewrite ?length_app, ?length_be_bytes, ?length_join_bytes in Hsz.
  - destruct (readInt_bytes 1 b n rest Hb Hc Hf) as (b' & Hr & ? & ?).
    change (readInt8 b) with (readInt (Z.of_nat 1) b). rewrite Hr. simpl. eauto.
  - destruct (readInt_bytes 2 b n rest Hb Hc Hf) as (b' & Hr & ? & ?).
    change (readInt16 b) with (readInt (Z.of_nat 2) b). rewrite Hr. simpl. eauto.
  - destruct (readInt_bytes 4 b n rest Hb Hc Hf) as (b' & Hr & ? & ?).
    change (readInt32 b) with (readInt (Z.of_nat 4) b). rewrite Hr. simpl. eauto.
  - destruct (readInt_bytes 8 b n rest Hb Hc Hf) as (b' & Hr & ? & ?).
    change (readInt64 b) with (readInt (Z.of_nat 8) b). rewrite Hr. simpl. eauto.
  - rewrite <- app_assoc in Hc.
    destruct (readString_ok b s rest [] Hb ltac:(lia) Hc) as (b' & -> & ? & ?). simpl. eauto.
  - destruct (readVector_ok 4 readInt32 u32 v b rest) as (b' & Hr & ? & ?); [done| |lia|done|done|].
    { eapply list.Forall_impl; [exact Hf|]. intros x Hx. split; [exact Hx|by apply u32_id]. }
    unfold readVectorU32. rewrite Hr. simpl. eauto.
  - destruct (readVector_ok 8 readInt64 u64 v b rest) as (b' & Hr & ? & ?); [done| |lia|done|done|].
    { eapply list.Forall_impl; [exact Hf|]. intros x Hx. split; [exact Hx|by apply Z.mod_small]. }
    unfold readVectorU64. rewrite Hr. simpl. eauto.
Qed.

Lemma write_message_ok fs b :
  wf_buf b → Forall field_ok fs → pfree b + Z.of_nat (length (encode_all fs)) <= size_limit →
  ∃ b', write_message b fs = Some b' ∧ appended b (encode_all fs) b'.
Proof.
  intros Hb Hfs. revert b Hb. induction Hfs as [|f fs Hf Hfs IH]; intros b Hb Hsz; simpl.
  - exists b. split; [done|]. split_and!; [done|by rewrite app_nil_r|simpl; lia|done].
  - change (encode_all (f :: fs)) with (encode f ++ encode_all fs) in *. rewrite length_app in Hsz.
    destruct (write_field_ok b f) as (b1 & -> & Ha); [done|done|lia|]. simpl.
    pose proof Ha as (Hw1 & _ & Hf1 & _).
    destruct (IH b1 Hw1) as (b2 & -> & Ha2); [lia|].
    exists b2. split; [done|]. by eapply appended_trans.
Qed.

Lemma read_message_ok fs b rest :
  Forall field_ok fs → Z.of_nat (length (encode_all fs)) <= size_limit → wf_buf b →
  contents b = encode_all fs ++ rest →
  ∃ b', read_message b (shape_of <$> fs) = Some (fs, b') ∧ wf_buf b' ∧ contents b' = rest.
Proof.
  intros Hfs. revert b. induction Hfs as [|f fs Hf Hfs IH]; intros b Hsz Hb Hc; [simpl; eauto|].
  rewrite fmap_cons. cbn [read_message].
  change (encode_all (f :: fs)) with (encode f ++ encode_all fs) in *.
  rewrite length_app in Hsz. rewrite <- app_assoc in Hc.
  destruct (read_field_ok b f _ Hb Hf ltac:(lia) Hc) as (b1 & -> & Hw1 & Hc1).
  cbn [mbind option_bind]. destruct (IH b1) as (b2 & -> & ? & ?); [lia|done|done|]. simpl. eauto.
Qed.

(** ** Properties *)

(** C17: a message survives the wire.  From any buffer with nothing unread, writing a sequence
    of fields whose encoding fits and reading the same shapes gives the fields back and
    leaves nothing unread. *)
Theorem message_roundtrip b fs :
  wf_buf b → contents b = [] → Forall field_ok fs →
  pfree b + Z.of_nat (length (encode_all fs)) <= size_limit →
  ∃ b1 b2, write_message b fs = Some b1 ∧ read_message b1 (shape_of <$> fs) = Some (fs, b2) ∧
    contents b2 = [].
Proof.
  intros Hb Hc Hfs Hsz. destruct (write_message_ok fs b Hb Hfs Hsz) as (b1 & Hw & Hw1 & Hc1 & Hf1 & _).
  pose proof (wb_order _ Hb).
  destruct (read_message_ok fs b1 []) as (b2 & Hr & _ & Hc2); [done|lia|done|by rewrite app_nil_r, Hc1, Hc|].
  eauto.
Qed.

(** Growing a buffer never loses data.  [expand] ends, makes the room asked for, and
    keeps both positions, every byte written and the unread queue. *)
Lemma expand_keeps_data b need :
  wf_buf b → 0 <= need → pfree b + need <= size_limit →
  ∃ b', expand junk b need = Some b' ∧ wf_buf b' ∧ need <= pend b' - pfree b' ∧
    pfree b' = pfree b ∧ pdata b' = pdata b ∧ contents b' = contents b ∧
    take (Z.to_nat (pfree b)) (bytes b') = take (Z.to_nat (pfree b)) (bytes b).
Proof.
  intros Hb Hn Hsz. destruct (expand_ok b need Hb Hn Hsz) as (b' & He & Hg).
  exists b'. pose proof (grown_contents b need b' Hb Hg). destruct Hg as (?&?&?&?&?&_). by split_and!.
Qed.

Lemma shrink_new m d dlen newbuf :
  0 <= d → 0 < dlen → d + dlen <= Z.of_nat (length m) → dlen <= Z.of_nat (length newbuf) →
  ∃ m', (data ← peek m d dlen; poke newbuf 0 data) = Some m' ∧
    length m' = length newbuf ∧
    take (Z.to_nat dlen) m' = take (Z.to_nat dlen) (drop (Z.to_nat d) m).
Proof.
  intros Hd Hl Hm Hn. rewrite peek_Some by lia. cbn [mbind option_bind].
  set (data := take (Z.to_nat dlen) _).
  assert (Hlen : length data = Z.to_nat dlen) by (unfold data; rewrite length_take, length_drop; lia).
  rewrite poke_Some by lia. eexists. split_and!; [done| |].
  - rewrite !length_app, length_take, length_drop. lia.
  - change (take (Z.to_nat 0) newbuf ++ data ++ drop (Z.to_nat 0 + length data) newbuf)
      with (data ++ drop (length data) newbuf).
    by rewrite take_app_le, take_ge by lia.
Qed.

(** shrinking keeps the unread queue, never frees a block of the caller, and when it
    does shrink the block has the default size and the positions restart at its beginning. *)
Lemma shrink_keeps_unread b :
  wf_buf b →
  ∃ r b', shrink junk b = Some (r, b') ∧ contents b' = contents b ∧ userFreed b' = userFreed b ∧
    (r = true → pend b' = DEFAULT_MAX_DATABUFFER_SIZE ∧ pdata b' = 0).
Proof.
  intros Hb. pose proof Hb as [Ho He Hc Hu Hn]. unfold shrink. destruct (block b) as [m|] eqn:Hm.
  2:{ eexists _, _. by split_and!. }
  destruct (_ || _) eqn:E; [eexists _, _; by split_and!|]. bool_cases.
  assert (Hbm : bytes b = m) by (unfold bytes; by rewrite Hm).
  unfold pend, size_limit, DEFAULT_MAX_DATABUFFER_SIZE in *. rewrite Hbm in *.
  rewrite i32_id, Z.max_r by lia. cbv zeta.
  pose proof (length_malloc junk 2048 ltac:(lia)) as Hlen.
  destruct (0 <? pfree b - pdata b) eqn:E0; bool_cases.
  - destruct (shrink_new m (pdata b) (pfree b - pdata b) (malloc junk 2048)) as (m' & -> & Hl & Ht);
      [lia..|]. cbn [mbind option_bind]. eexists _, _.
    split_and!; [done| |done|intros _; split; [unfold bytes; simpl; lia|done]].
    unfold contents. cbn [pfree pdata]. rewrite Z.sub_0_r. change (drop (Z.to_nat 0) ?x) with x.
    rewrite Hbm, <- Ht. done.
  - cbn [mbind option_bind]. eexists _, _.
    split_and!; [done| |done|intros _; split; [unfold bytes; simpl; lia|done]].
    unfold contents. cbn [pfree pdata]. by replace (Z.to_nat (pfree b - pdata b - 0)) with 0%nat by lia;
      replace (Z.to_nat (pfree b - pdata b)) with 0%nat by lia.
Qed.
End Grow.

(** a string whose stored length exceeds what the buffer holds is cut to the bytes that
    are there, and reading it empties the buffer. *)
Lemma readString_cut b n s acc :
  wf_buf b → contents b = be_bytes 4 n ++ s → Z.of_nat (length s) < n < 2 ^ 31 →
  ∃ b', readString b acc = Some (true, acc ++ s, b') ∧ contents b' = [].
Proof.
  intros Hb Hc Hn. pose proof (contents_length b Hb) as Hl.
  rewrite Hc, !length_app, length_be_bytes in Hl. unfold readString.
  rewrite (proj2 (Z.ltb_ge _ _)) by lia.
  destruct (readInt_bytes 4 b n s) as (b1 & Hr & Hw1 & Hc1); [done|done|lia|].
  change (readInt32 b) with (readInt (Z.of_nat 4) b). rewrite Hr. cbn [mbind option_bind].
  pose proof (contents_length b1 Hw1) as Hl1. rewrite Hc1 in Hl1. rewrite i32_id by lia. unfold cutLen.
  rewrite (proj2 (Z.ltb_lt _ _)) by lia. rewrite <- Hl1, i32_id by lia.
  destruct (take_front b1 s [] Hw1) as (Hp & (Hw2 & Ht & _) & Hle); [by rewrite app_nil_r|].
  rewrite Hc1 in Ht. rewrite <- (app_nil_r s) in Ht at 1. apply app_inv_head in Ht.
  destruct (0 <? Z.of_nat (length s)) eqn:E; bool_cases.
  - rewrite Hp. cbn [mbind option_bind set_pdata pdata pfree].
    rewrite (proj2 (Z.leb_le _ _)) by done. simpl. eauto.
  - destruct s; [|simpl in E; lia]. cbn [mbind option_bind set_pdata pdata pfree].
    rewrite (proj2 (Z.leb_le _ _)) by done. simpl. eauto.
Qed.

(** a stored length of 2^31 or more is taken as a negative number: the read reports
    success with an empty string and moves the read position backwards; when that is before
    the block, the next read is outside of it. *)
Lemma readString_negative b n s acc :
  wf_buf b → contents b = be_bytes 4 n ++ s → 2 ^ 31 <= n < 2 ^ 32 →
  ∃ b', readString b acc = Some (true, acc, b') ∧ pdata b' = pdata b + 4 + (n - 2 ^ 32) ∧
    (pdata b + 4 < 2 ^ 32 - n → readInt8 b' = None).
Proof.
  intros Hb Hc Hn. pose proof (contents_length b Hb) as Hl.
  rewrite Hc, !length_app, length_be_bytes in Hl. pose proof (wb_order _ Hb). unfold readString.
  rewrite (proj2 (Z.ltb_ge _ _)) by lia.
  destruct (readInt_ok b (be_bytes 4 n) s Hb Hc) as (b1 & Hr & (Hw1 & _ & Hf1 & _ & Hd1) & Hc1).
  rewrite length_be_bytes, be_value_bytes_id in * by lia.
  change (readInt32 b) with (readInt (Z.of_nat 4) b). rewrite Hr. cbn [mbind option_bind].
  assert (Hi : i32 n = n - 2 ^ 32).
  { unfold i32. rewrite Z.mod_small by lia. split_if; lia. }
  rewrite Hi. pose proof (wb_order _ Hw1). unfold cutLen.
  rewrite (proj2 (Z.ltb_ge _ _)) by lia. rewrite (proj2 (Z.ltb_ge 0 _)) by lia.
  cbn [mbind option_bind set_pdata pdata pfree]. rewrite (proj2 (Z.leb_le _ _)) by lia.
  cbn [mbind option_bind assert_that]. rewrite app_nil_r. eexists. split_and!; [done|simpl; lia|].
  intros Hneg. unfold readInt8, readInt. simpl. rewrite (proj2 (Z.leb_le _ _)) by lia. simpl.
  unfold peek. by rewrite (proj2 (Z.leb_gt 0 _)) by lia.
Qed.

(** who frees a wrapped block.  Writing past the end of a block of the caller frees it,
    although [destroy] and [shrink] leave such a block to its owner. *)
Lemma write_frees_wrapped junk m n :
  (∀ i, is_u8 (junk i)) → 0 < Z.of_nat (length m) < 4 → Forall is_u8 m →
  ∃ b, writeInt32 junk (DataBuffer_wrap m) n = Some b ∧ userFreed b = true ∧
    userFreed (destroy (DataBuffer_wrap m)) = false.
Proof.
  intros Hj Hm Hu. assert (Hw : wf_buf (DataBuffer_wrap m)).
  { split; unfold pend, bytes, size_limit; simpl; try lia; done. }
  destruct (expand_grow junk Hj (DataBuffer_wrap m) m 4) as (b & Hb & Hg & _ & Hf);
    [done|done|unfold pend, bytes; simpl; lia|unfold size_limit; simpl; lia|].
  unfold writeInt32. rewrite Hb. cbn [mbind option_bind].
  destruct (grown_put (DataBuffer_wrap m) 4 b (be_bytes 4 n)) as (b' & Hp & _);
    [done|done|apply be_bytes_u8|by rewrite length_be_bytes|].
  exists b'. split_and!; [done| |done]. unfold put in Hp. step_inv Hp. injection Hp as <-. done.
Qed.

(** ** Witnesses *)

Definition demo_junk (i : nat) : Z := 7.

Lemma demo_junk_u8 i : is_u8 (demo_junk i).
Proof. unfold is_u8, demo_junk. lia. Qed.

Lemma wf_new : wf_buf DataBuffer_new.
Proof. split; unfold pend, bytes, size_limit; simpl; try lia; [constructor|by left]. Qed.

Definition demo_fields : list field := [F8 3; F32 4294967295; FString [104; 105]; FVec64 [1; 2 ^ 63]].

Lemma message_roundtrip_witness :
  ∃ b1 b2, write_message demo_junk DataBuffer_new demo_fields = Some b1 ∧
    read_message b1 (shape_of <$> demo_fields) = Some (demo_fields, b2) ∧ contents b2 = [].
Proof.
  apply (message_roundtrip demo_junk demo_junk_u8 DataBuffer_new demo_fields).
  - apply wf_new.
  - reflexivity.
  - repeat constructor; vm_compute; congruence.
  - vm_compute. congruence.
Defined.

Definition demo_full : data_buffer :=
  {| block := Some [1; 2; 3]; pfree := 3; pdata := 1; wrapping := false; userFreed := false |}.

Lemma demo_full_wf : wf_buf demo_full.
Proof.
  split; unfold pend, bytes, size_limit; simpl; try lia. repeat constructor; vm_compute; congruence.
Qed.

Lemma expand_keeps_data_witness :
  ∃ b', expand demo_junk demo_full 10 = Some b' ∧ wf_buf b' ∧ 10 <= pend b' - pfree b' ∧
    pfree b' = 3 ∧ pdata b' = 1 ∧ contents b' = [2; 3] ∧ take 3 (bytes b') = [1; 2; 3].
Proof.
  apply (expand_keeps_data demo_junk demo_junk_u8 demo_full 10).
  - apply demo_full_wf.
  - lia.
  - vm_compute. congruence.
Defined.

Definition demo_large : data_buffer :=
  {| block := Some (replicate 3000 9); pfree := 2500; pdata := 2497; wrapping := true; userFreed := false |}.

Lemma shrink_keeps_unread_witness :
  ∃ r b', shrink demo_junk demo_large = Some (r, b') ∧ contents b' = [9; 9; 9] ∧ userFreed b' = false ∧
    (r = true → pend b' = DEFAULT_MAX_DATABUFFER_SIZE ∧ pdata b' = 0).
Proof.
  apply (shrink_keeps_unread demo_junk demo_large).
  split; [vm_compute; split; congruence|vm_compute; congruence|vm_compute; congruence| |right; vm_compute; congruence].
  apply Forall_replicate. vm_compute. split; congruence.
Defined.

Definition demo_string (n : Z) : data_buffer :=
  {| block := Some (be_bytes 4 n ++ [104; 105]); pfree := 6; pdata := 0; wrapping := true; userFreed := false |}.

Lemma demo_string_wf n : wf_buf (demo_string n).
Proof.
  assert (Hl : pend (demo_string n) = 6).
  { change (pend (demo_string n)) with (Z.of_nat (length (be_bytes 4 n ++ [104; 105]))).
    by rewrite length_app, length_be_bytes. }
  split; rewrite ?Hl; unfold size_limit; cbn [pdata pfree demo_string]; try lia.
  change (Forall is_u8 (be_bytes 4 n ++ [104; 105])). apply Forall_app.
  split; [apply be_bytes_u8|]. repeat constructor; vm_compute; congruence.
Qed.

Lemma readString_cut_witness :
  ∃ b', readString (demo_string 1000) [] = Some (true, [104; 105], b') ∧ contents b' = [].
Proof.
  apply (readString_cut (demo_string 1000) 1000 [104; 105] []).
  - apply demo_string_wf.
  - reflexivity.
  - simpl. lia.
Defined.

Lemma readString_negative_witness :
  ∃ b', readString (demo_string (2 ^ 32 - 8)) [] = Some (true, [], b') ∧ pdata b' = - 4 ∧ readInt8 b' = None.
Proof.
  destruct (readString_negative (demo_string (2 ^ 32 - 8)) (2 ^ 32 - 8) [104; 105] [])
    as (b' & H1 & H2 & H3).
  - apply demo_string_wf.
  - reflexivity.
  - lia.
  - exists b'. split; [exact H1|]. split; [rewrite H2; reflexivity|]. apply H3. simpl. lia.
Defined.

Lemma write_frees_wrapped_witness :
  ∃ b, writeInt32 demo_junk (DataBuffer_wrap [1; 2]) 5 = Some b ∧ userFreed b = true ∧
    userFreed (destroy (DataBuffer_wrap [1; 2])) = false.
Proof.
  apply (write_frees_wrapped demo_junk [1; 2] 5).
  - apply demo_junk_u8.
  - simpl. lia.
  - repeat constructor; vm_compute; congruence.
Defined.
