(* ===== verification/NetBuffers.v ===== *)
(** * Connection and text buffers (src/src/public/buffers.{h,cc}, [NBuffer], [CBufferMgn])

    [NBuffer] collects the bytes of a connection up to a maximum; [CBufferMgn] is a text
    that grows.  Both are modelled with the whole block, so that what lies behind the last
    byte (the slack of [NBuffer], the terminator of [CBufferMgn]) is part of the state. *)
From S2P Require Import Prelude Buffers.

(** ** [NBuffer] *)

Record nbuffer := { m_buf : list Z; m_len : Z; m_index : Z; m_maxBufLen : Z }.

Definition NBuffer_getFreeLen (b : nbuffer) : Z :=
  let left := m_len b - m_index b in if left <? 0 then 0 else left.

(** [reallocBuf]: a zeroed block of [len + 8] bytes with the first [m_index] bytes copied. *)
Definition reallocBuf (b : nbuffer) (len : Z) : option (bool * nbuffer) :=
  data ← peek (m_buf b) 0 (m_index b);
  newbuf ← poke (replicate (Z.to_nat (len + 8)) 0) 0 data;
  Some (true, Build_nbuffer newbuf len (m_index b) (m_maxBufLen b)).

Definition setNewSize (b : nbuffer) (len : Z) : option (bool * nbuffer) :=
  if m_len b <? 0 then Some (false, b)
  else if m_len b <? len then reallocBuf b len
  else if len =? m_len b then Some (true, b)
  else if len <=? m_index b then Some (false, b)
  else reallocBuf b len.

Definition NBuffer_new (maxBufLen : Z) : option nbuffer :=
  snd <$> setNewSize (Build_nbuffer [] 0 0 maxBufLen) 512.

Definition NBuffer_release (b : nbuffer) : option nbuffer :=
  let b := Build_nbuffer (m_buf b) (m_len b) 0 (m_maxBufLen b) in
  if 128 * 1024 <? m_len b then snd <$> setNewSize b 512 else Some b.

(** The size loop of [expand], on an [int32_t]. *)
Fixpoint growLen (fuel : nat) (newLen wanted maxLen : Z) : option Z :=
  match fuel with
  | O => None
  | S fuel =>
      let newLen := 2 * newLen in
      if 2 ^ 31 <=? newLen then None
      else if maxLen <? newLen then Some maxLen
      else if wanted <=? newLen then Some newLen
      else growLen fuel newLen wanted maxLen
  end.

Definition NBuffer_expand (b : nbuffer) (expandLen : Z) : option nbuffer :=
  if expandLen <=? 0 then Some b else
  newLen ← growLen 32 (m_len b) (m_len b + expandLen) (m_maxBufLen b);
  if m_len b <? newLen then snd <$> setNewSize b newLen else Some b.

Definition copyBuf (b : nbuffer) (buf : list Z) : option (bool * nbuffer) :=
  let len := Z.of_nat (length buf) in
  b' ← (if NBuffer_getFreeLen b <? len then NBuffer_expand b len else Some b);
  if NBuffer_getFreeLen b' <? len then Some (false, b') else
  m ← poke (m_buf b') (m_index b') buf;
  Some (true, Build_nbuffer m (m_len b') (m_index b' + len) (m_maxBufLen b')).

Definition setMaxBuffLen (b : nbuffer) (max_buff_len : Z) : bool * nbuffer :=
  if i32 max_buff_len <? m_index b then (false, b)
  else (true, Build_nbuffer (m_buf b) (m_len b) (m_index b) (i32 max_buff_len)).

Definition addIndex (b : nbuffer) (len : Z) : option nbuffer :=
  let b := Build_nbuffer (m_buf b) (m_len b) (m_index b + len) (m_maxBufLen b) in
  if NBuffer_getFreeLen b <? 4096 then NBuffer_expand b 4096 else Some b.

Definition shrinkFromFront (b : nbuffer) (len : Z) : option nbuffer :=
  let left := m_index b - len in
  m ← (if 0 <? left then data ← peek (m_buf b) len left; poke (m_buf b) 0 data else Some (m_buf b));
  Some (Build_nbuffer m (m_len b) left (m_maxBufLen b)).

Definition checkCanOp (b : nbuffer) (len : Z) : bool := negb (m_maxBufLen b <=? m_index b + len).

(** ** [CBufferMgn] *)

Record cbuffer := { c_buf : option (list Z); m_pos : Z; m_size : Z }.

Definition CBufferMgn_new : cbuffer := {| c_buf := None; m_pos := 0; m_size := 0 |}.

(** A zeroed block of [size] bytes with the [oldsize] bytes of the old one. *)
Definition regrow (b : cbuffer) (size : Z) : option cbuffer :=
  if 2 ^ 31 <=? size then None else
  let tmp := replicate (Z.to_nat size) 0 in
  m ← match c_buf b with
      | None => Some tmp
      | Some old => data ← peek old 0 (m_size b); poke tmp 0 data
      end;
  Some (Build_cbuffer (Some m) (m_pos b) size).

Definition appendChar (b : cbuffer) (ch : Z) : option cbuffer :=
  b ← (if m_size b <=? m_pos b + 5
       then regrow b (if m_size b * 2 =? 0 then 128 else m_size b * 2) else Some b);
  m ← c_buf b;
  m ← poke m (m_pos b) [ch];
  Some (Build_cbuffer (Some m) (m_pos b + 1) (m_size b)).

(** The characters of a C string: those before the first zero. *)
Fixpoint strlen_prefix (l : list Z) : list Z :=
  match l with [] => [] | x :: l => if x =? 0 then [] else x :: strlen_prefix l end.

(** [append(str, len)]: [None] is a null pointer, a zero [len] stands for [strlen]. *)
Definition appendStr (b : cbuffer) (str : option (list Z)) (len : Z) : option cbuffer :=
  match str with
  | None => Some b
  | Some s =>
      let len := if len =? 0 then Z.of_nat (length (strlen_prefix s)) else len in
      if len <=? 0 then Some b else
      b ← (if m_size b <=? m_pos b + len + 5 then regrow b (2 * (m_size b + len)) else Some b);
      data ← peek s 0 len;
      m ← c_buf b;
      m ← poke m (m_pos b) data;
      Some (Build_cbuffer (Some m) (m_pos b + len) (m_size b))
  end.

Definition CBufferMgn_release (b : cbuffer) : cbuffer := CBufferMgn_new.

Definition deepCopy (b lft : cbuffer) : option cbuffer :=
  appendStr (CBufferMgn_release b) (c_buf lft) (m_pos lft).

(** [readFromFile]: [chunks] is what the successive calls of [read] return, [ok] whether the
    last one returned 0 rather than an error. *)
Definition readFromFile (b : cbuffer) (opened : bool) (chunks : list (list Z)) (ok : bool)
    : option (bool * cbuffer) :=
  let b := Build_cbuffer (c_buf b) 0 (m_size b) in
  if opened then
    b ← foldl (λ ob ch, b ← ob; appendStr b (Some ch) (Z.of_nat (length ch))) (Some b) chunks;
    Some (ok, b)
  else Some (false, b).

(** ** [NBuffer]: the collected bytes *)

Definition collected (b : nbuffer) : list Z := take (Z.to_nat (m_index b)) (m_buf b).

Record nb_inv (b : nbuffer) : Prop := {
  nb_index : 0 <= m_index b <= m_len b;
  nb_block : Z.of_nat (length (m_buf b)) = m_len b + 8;
  nb_pos : 0 < m_len b;
  nb_max : m_maxBufLen b < 2 ^ 30;
  nb_len : m_len b < 2 ^ 30 }.

Lemma poke_zero_front m data :
  Z.of_nat (length data) <= Z.of_nat (length m) → poke m 0 data = Some (data ++ drop (length data) m).
Proof.
  intros H. unfold poke. rewrite !(proj2 (Z.leb_le _ _)) by lia. done.
Qed.

Lemma peek_prefix m len :
  0 <= len <= Z.of_nat (length m) → peek m 0 len = Some (take (Z.to_nat len) m).
Proof. intros H. unfold peek. rewrite !(proj2 (Z.leb_le _ _)) by lia. done. Qed.

Lemma reallocBuf_ok b len :
  nb_inv b → m_index b <= len < 2 ^ 30 → 0 < len →
  ∃ b', reallocBuf b len = Some (true, b') ∧ nb_inv b' ∧ m_len b' = len ∧
    m_index b' = m_index b ∧ m_maxBufLen b' = m_maxBufLen b ∧ collected b' = collected b.
Proof.
  intros [Hi Hb Hp Hm Hl] Hlen Hpos. unfold reallocBuf. rewrite peek_prefix by lia.
  cbn [mbind option_bind]. set (data := take _ _).
  assert (Hd : Z.of_nat (length data) = m_index b) by (unfold data; rewrite length_take; lia).
  rewrite poke_zero_front by (rewrite length_replicate; lia). cbn [mbind option_bind].
  eexists. split_and!; [done| |done|done|done|].
  - split; simpl; try lia. autorewrite with mybase_len. lia.
  - unfold collected. simpl. rewrite take_app_le by lia. fold data. apply take_ge. lia.
Qed.

(** The size loop stops at the maximum or at a size that is large enough. *)
Lemma growLen_ok fuel n wanted mx :
  0 < n < 2 ^ 30 → mx < 2 ^ 30 → wanted <= n * 2 ^ Z.of_nat fuel → (1 <= fuel)%nat → n < wanted →
  ∃ r, growLen fuel n wanted mx = Some r ∧ (r = mx ∨ (wanted <= r ∧ r <= mx)).
Proof.
  revert n. induction fuel as [|fuel IH]; intros n Hn Hmx Hw Hf Hlt; [lia|]. cbn [growLen].
  rewrite (proj2 (Z.leb_gt (2 ^ 31) _)) by lia.
  destruct (mx <? 2 * n) eqn:E1; bool_cases; [eauto|].
  destruct (wanted <=? 2 * n) eqn:E2; bool_cases; [exists (2 * n); split; [done|right; lia]|].
  destruct fuel as [|fuel]; [change (2 ^ Z.of_nat 1) with 2 in Hw; lia|].
  apply IH; try lia. rewrite (Nat2Z.inj_succ (S fuel)), Z.pow_succ_r in Hw by lia. lia.
Qed.

Lemma NBuffer_expand_ok b len :
  nb_inv b → 0 < len < 2 ^ 30 →
  ∃ b', NBuffer_expand b len = Some b' ∧ nb_inv b' ∧ m_index b' = m_index b ∧
    m_maxBufLen b' = m_maxBufLen b ∧ collected b' = collected b ∧
    m_len b' <= Z.max (m_len b) (m_maxBufLen b) ∧
    (m_len b + len <= m_len b' ∨ m_maxBufLen b <= m_len b').
Proof.
  intros Hb Hlen. pose proof Hb as [Hi Hbl Hp Hm Hl]. unfold NBuffer_expand.
  rewrite (proj2 (Z.leb_gt _ _)) by lia.
  destruct (growLen_ok 32 (m_len b) (m_len b + len) (m_maxBufLen b)) as (r & -> & Hr); [lia..|].
  cbn [mbind option_bind]. destruct (m_len b <? r) eqn:E; bool_cases.
  - unfold setNewSize. rewrite (proj2 (Z.ltb_ge _ _)), (proj2 (Z.ltb_lt _ _)) by lia.
    destruct (reallocBuf_ok b r) as (b' & -> & ? & Hlr & ? & ? & ?); [done|lia|lia|].
    exists b'. split_and!; try done; lia.
  - exists b. split_and!; try done; lia.
Qed.

(** Receiving.  [copyBuf] appends the bytes or, when they do not fit under the maximum,
    refuses them and keeps what was collected; it refuses only then. *)
Lemma copyBuf_appends b buf :
  nb_inv b → 0 < Z.of_nat (length buf) < 2 ^ 30 →
  ∃ r b', copyBuf b buf = Some (r, b') ∧
    if r then collected b' = collected b ++ buf ∧ m_index b' = m_index b + Z.of_nat (length buf)
    else nb_inv b' ∧ collected b' = collected b ∧
         m_maxBufLen b < m_index b + Z.of_nat (length buf).
Proof.
  intros Hb Hlen. unfold copyBuf. set (len := Z.of_nat (length buf)) in *. cbv zeta.
  assert (∃ b', (if NBuffer_getFreeLen b <? len then NBuffer_expand b len else Some b) = Some b' ∧
    nb_inv b' ∧ m_index b' = m_index b ∧ collected b' = collected b ∧
    (len <= m_len b' - m_index b' ∨ m_maxBufLen b <= m_len b')) as (b' & -> & Hb' & Hi' & Hc' & Hor).
  { pose proof Hb as [Hi Hbl Hp Hm Hl]. unfold NBuffer_getFreeLen.
    rewrite (proj2 (Z.ltb_ge (m_len b - m_index b) 0)) by lia.
    destruct (_ <? len) eqn:E; bool_cases.
    - destruct (NBuffer_expand_ok b len) as (b' & -> & ? & ? & ? & ? & ? & ?); [done|done|].
      exists b'. split_and!; try done. lia.
    - exists b. split_and!; try done. lia. }
  cbn [mbind option_bind]. pose proof Hb' as [Hi Hbl Hp Hm Hl]. unfold NBuffer_getFreeLen.
  rewrite (proj2 (Z.ltb_ge (m_len b' - m_index b') 0)) by lia. destruct (_ <? len) eqn:E; bool_cases.
  - exists false, b'. split_and!; try done. lia.
  - unfold poke. rewrite !(proj2 (Z.leb_le _ _)) by lia. cbn [andb mbind option_bind].
    eexists true, _. split_and!; [done| |simpl; lia]. rewrite <- Hc'. unfold collected.
    cbn [m_index m_buf]. rewrite app_assoc, take_app_le by (autorewrite with mybase_len; lia).
    apply take_ge. autorewrite with mybase_len. lia.
Qed.

(** ** [CBufferMgn]: a zero-terminated text *)

Definition text (b : cbuffer) : list Z := take (Z.to_nat (m_pos b)) (default [] (c_buf b)).

(** The block has [m_size] bytes, and everything from the end of the text on is zero. *)
Definition cb_inv (b : cbuffer) : Prop :=
  match c_buf b with
  | None => m_pos b = 0 ∧ m_size b = 0
  | Some m => ∃ n, m = text b ++ replicate (S n) 0 ∧ m_size b = Z.of_nat (length m) ∧
      m_pos b = Z.of_nat (length (text b))
  end.

Lemma text_Some m p sz : text (Build_cbuffer (Some m) p sz) = take (Z.to_nat p) m.
Proof. done. Qed.

Lemma regrow_ok b size :
  cb_inv b → m_size b < size < 2 ^ 31 →
  ∃ b', regrow b size = Some b' ∧ cb_inv b' ∧ text b' = text b ∧ m_pos b' = m_pos b ∧
    m_size b' = size ∧ c_buf b' ≠ None.
Proof.
  intros Hb Hs. unfold regrow. rewrite (proj2 (Z.leb_gt _ _)) by lia. unfold cb_inv in Hb.
  destruct (c_buf b) as [m|] eqn:Em; cbv zeta.
  - destruct Hb as (n & Hm & Hsz & Hpos). rewrite peek_prefix by lia. cbn [mbind option_bind].
    rewrite take_ge by lia. rewrite poke_zero_front by (rewrite length_replicate; lia).
    cbn [mbind option_bind]. eexists. split; [done|].
    assert (Hlm : length m = (length (text b) + S n)%nat) by (rewrite Hm, length_app, length_replicate; lia).
    assert (Ht : text (Build_cbuffer (Some (m ++ drop (length m) (replicate (Z.to_nat size) 0)))
                  (m_pos b) size) = text b).
    { rewrite text_Some, take_app_le by lia.
      unfold text. rewrite Em. done. }
    split_and!; [|done|done|done|done]. unfold cb_inv. cbn [c_buf m_size m_pos]. rewrite Ht.
    exists (n + (Z.to_nat size - length m))%nat. rewrite drop_replicate. split_and!.
    + rewrite Hm at 1. rewrite <- app_assoc, <- replicate_add. done.
    + autorewrite with mybase_len. lia.
    + done.
  - destruct Hb as [Hp Hz]. cbn [mbind option_bind]. eexists. split; [done|].
    assert (Ht : text b = []) by (unfold text; rewrite Em; apply take_nil).
    split_and!; [|rewrite Ht; unfold text; simpl; by rewrite Hp|done|done|done].
    unfold cb_inv, text. simpl. rewrite Hp. simpl. exists (Z.to_nat size - 1)%nat.
    rewrite length_replicate. split_and!; [by replace (Z.to_nat size) with (S (Z.to_nat size - 1)) at 1 by lia|lia|done].
Qed.

Lemma cb_put b l :
  cb_inv b → c_buf b ≠ None → m_pos b + Z.of_nat (length l) < m_size b →
  ∃ m, (m ← c_buf b; poke m (m_pos b) l) = Some m ∧
    cb_inv (Build_cbuffer (Some m) (m_pos b + Z.of_nat (length l)) (m_size b)) ∧
    text (Build_cbuffer (Some m) (m_pos b + Z.of_nat (length l)) (m_size b)) = text b ++ l.
Proof.
  intros Hb Hn Hlt. unfold cb_inv in Hb. destruct (c_buf b) as [m|] eqn:Em; [|done].
  destruct Hb as (n & Hm & Hsz & Hpos). cbn [mbind option_bind].
  assert (Hlm : length m = (length (text b) + S n)%nat) by (rewrite Hm, length_app, length_replicate; lia).
  assert (Htm : text b = take (Z.to_nat (m_pos b)) m) by (unfold text; by rewrite Em).
  unfold poke. rewrite !(proj2 (Z.leb_le _ _)) by lia. cbn [andb]. eexists. split; [done|].
  assert (Hmm : take (Z.to_nat (m_pos b)) m ++ l ++ drop (Z.to_nat (m_pos b) + length l) m
                = (text b ++ l) ++ replicate (S (n - length l)) 0).
  { rewrite <- Htm, <- app_assoc. do 2 f_equal. rewrite Hm at 1. rewrite drop_app_ge by lia.
    rewrite drop_replicate. f_equal. lia. }
  assert (Htext : text (Build_cbuffer (Some (take (Z.to_nat (m_pos b)) m ++ l ++
      drop (Z.to_nat (m_pos b) + length l) m)) (m_pos b + Z.of_nat (length l)) (m_size b)) = text b ++ l).
  { rewrite text_Some, Hmm, take_app_le.
    - apply take_ge. rewrite length_app. lia.
    - rewrite length_app. lia. }
  split; [|done]. unfold cb_inv. cbn [c_buf m_size m_pos]. rewrite Htext.
  exists (n - length l)%nat. split_and!; [done| |rewrite length_app; lia].
  rewrite Hmm. autorewrite with mybase_len. lia.
Qed.

(** appending to a text buffer adds exactly the bytes, and the text stays followed by a
    zero byte inside the block, so that [c_str] is always terminated. *)
Lemma appendStr_text b s :
  cb_inv b → s ≠ [] → 2 * (m_size b + Z.of_nat (length s)) < 2 ^ 31 →
  ∃ b', appendStr b (Some s) (Z.of_nat (length s)) = Some b' ∧ cb_inv b' ∧ text b' = text b ++ s.
Proof.
  intros Hb Hs Hsz. assert (Hpos : 0 < Z.of_nat (length s)) by (destruct s; [done|simpl; lia]).
  unfold appendStr. rewrite (proj2 (Z.eqb_neq _ _)) by lia. cbv zeta.
  rewrite (proj2 (Z.leb_gt _ _)) by lia.
  assert (0 <= m_pos b <= m_size b) as Hps.
  { unfold cb_inv in Hb. destruct (c_buf b); [|lia]. destruct Hb as (n & Hm & -> & ->).
    split; [lia|]. rewrite Hm, length_app. lia. }
  assert (∃ b1, (if m_size b <=? m_pos b + Z.of_nat (length s) + 5
                 then regrow b (2 * (m_size b + Z.of_nat (length s))) else Some b) = Some b1 ∧
    cb_inv b1 ∧ text b1 = text b ∧ c_buf b1 ≠ None ∧
    m_pos b1 + Z.of_nat (length s) < m_size b1) as (b1 & -> & Hb1 & Ht1 & Hn1 & Hlt).
  { destruct (_ <=? _) eqn:E; bool_cases.
    - destruct (regrow_ok b (2 * (m_size b + Z.of_nat (length s)))) as (b1 & -> & ? & ? & Hp & Hsz1 & ?);
        [done|lia|]. exists b1. split_and!; try done. lia.
    - exists b. split_and!; try done; [|lia]. intros Hnone. unfold cb_inv in Hb.
      rewrite Hnone in Hb. lia. }
  cbn [mbind option_bind]. rewrite peek_prefix by lia. cbn [mbind option_bind].
  rewrite Nat2Z.id, take_ge by lia.
  destruct (cb_put b1 s Hb1 Hn1 Hlt) as (m & Hm & Hinv & Htext).
  destruct (c_buf b1) as [m1|]; [|done]. cbn [mbind option_bind] in Hm |- *. rewrite Hm.
  cbn [mbind option_bind]. eexists. split_and!; [done|done|]. by rewrite Htext, Ht1.
Qed.

(** loading a file into a buffer that already holds text restarts at position 0 but
    keeps the old block: the text has the right length, while the byte behind it is a byte
    of the old text and not the terminator. *)
Lemma readFromFile_stale_tail :
  ∃ b b', appendStr CBufferMgn_new (Some [97; 98; 99; 100]) 4 = Some b ∧
    readFromFile b true [[120; 121]] true = Some (true, b') ∧
    text b' = [120; 121] ∧ default [] (c_buf b') !! 2%nat = Some 99.
Proof. eexists _, _. split_and!; vm_compute; reflexivity. Qed.

(** ** Witnesses *)

Definition demo_nbuffer : nbuffer :=
  {| m_buf := replicate 520 0; m_len := 512; m_index := 500; m_maxBufLen := 600 |}.

Lemma copyBuf_appends_witness :
  ∃ r b', copyBuf demo_nbuffer (replicate 50 7) = Some (r, b') ∧
    if r then collected b' = collected demo_nbuffer ++ replicate 50 7 ∧ m_index b' = 550
    else nb_inv b' ∧ collected b' = collected demo_nbuffer ∧ 600 < 550.
Proof.
  apply (copyBuf_appends demo_nbuffer (replicate 50 7)).
  - split; vm_compute; try (split; congruence); congruence.
  - vm_compute. split; congruence.
Defined.

Lemma appendStr_text_witness :
  ∃ b', appendStr CBufferMgn_new (Some [104; 105]) 2 = Some b' ∧ cb_inv b' ∧ text b' = [104; 105].
Proof.
  apply (appendStr_text CBufferMgn_new [104; 105]).
  - split; reflexivity.
  - discriminate.
  - vm_compute. reflexivity.
Defined.
