(* ===== verification/Frame.v ===== *)
(** * Frames (src/src/common/defs.h, meta/meta.cc, storage/storage.cc)

    Clients, storage servers and the meta server speak in frames: the length of the frame, a
    channel, the type of the message and a protobuf message.  A server reads the front of a
    frame, answers on the channel and checks the length. *)
From S2P Require Import Prelude Buffers BufferSpec.

(** [MessageType] and the results every server knows. *)
Definition KV_REQ_MESSAGE_PUT : Z := 1.
Definition KV_RES_MESSAGE_RETURN : Z := 2.
Definition KV_REQ_MESSAGE_GET : Z := 3.
Definition KV_RES_MESSAGE_GET : Z := 4.
Definition KV_REQ_MESSAGE_GET_META : Z := 5.
Definition KV_RES_MESSAGE_GET_META : Z := 6.
Definition KV_REQ_HEARTBEAT_MESSAGE : Z := 7.
Definition KV_RES_HEARTBEAT_MESSAGE : Z := 8.
Definition KV_REQ_MESSAGE_DUMP : Z := 9.
Definition KV_RES_MESSAGE_DUMP_RETURN : Z := 10.
Definition KV_REQ_BUCKET_HEARTBEAT : Z := 11.
Definition KV_REQ_MESSAGE_FINISH_MIGRATE : Z := 12.
Definition OP_RETURN_SUCCESS : Z := 0.
Definition OP_RETURN_FAILED : Z := -1.

Section Frame.
Context (junk : nat → Z).

(** How every request and response is put together in a [Buffer]. *)
Definition makeFrame (channelid mtype : Z) (value : list Z) : option (list Z) :=
  b ← Buffer_alloc junk 1024;
  b ← Buffer_writeInt32 junk b 0;
  b ← Buffer_writeInt32 junk b channelid;
  b ← Buffer_writeInt32 junk b mtype;
  b ← Buffer_writeBytes junk b value;
  m ← Buffer_fillInt32 (bytes b) 0 (dataLen b);
  peek m 0 (dataLen b).

(** The beginning of [process]: channel, type and the bytes of the message. *)
Definition openFrame (buf : list Z) : option (Z * Z * list Z) :=
  '(real_len, b) ← Buffer_readInt32 (Buffer_wrap buf);
  _ ← assert_that (real_len =? Z.of_nat (length buf));
  '(channelid, b) ← Buffer_readInt32 b;
  '(mtype, b) ← Buffer_readInt32 b;
  value ← peek (bytes b) (pdata b) (curDataLen b);
  Some (channelid, mtype, value).
End Frame.

(** ** Frames on the wire *)

(** The bytes of a frame. *)
Definition frameBytes (channelid mtype : Z) (value : list Z) : list Z :=
  be_bytes 4 (12 + Z.of_nat (length value)) ++ be_bytes 4 channelid ++ be_bytes 4 mtype ++ value.

Lemma length_frameBytes ch ty v : length (frameBytes ch ty v) = (12 + length v)%nat.
Proof. unfold frameBytes. rewrite !length_app, !length_be_bytes. lia. Qed.

Lemma writeInt32_step junk b n :
  (∀ i, is_u8 (junk i)) → wf_buf b → pfree b + 4 <= size_limit →
  ∃ b', Buffer_writeInt32 junk b n = Some b' ∧ appended b (be_bytes 4 n) b'.
Proof.
  intros Hj Hb Hsz. apply (write_ok junk Hj b (be_bytes 4 n) 4); [done|apply be_bytes_u8| |done].
  by rewrite length_be_bytes.
Qed.

Lemma makeFrame_bytes junk ch ty v :
  (∀ i, is_u8 (junk i)) → Forall is_u8 v → 12 + Z.of_nat (length v) <= size_limit →
  makeFrame junk ch ty v = Some (frameBytes ch ty v).
Proof.
  intros Hj Hv Hsz. unfold makeFrame, Buffer_alloc, Buffer_expand, size_limit in *.
  destruct (expand_ok junk Hj DataBuffer_new 1024) as (b0 & -> & Hw0 & _ & Hf0 & Hd0 & _);
    [apply wf_new|lia|unfold size_limit; simpl; lia|]. cbn [mbind option_bind].
  simpl in Hf0, Hd0.
  destruct (writeInt32_step junk b0 0) as (b1 & -> & Ha1); [done|done|unfold size_limit; lia|].
  cbn [mbind option_bind]. pose proof Ha1 as (Hw1 & _ & Hf1 & _). rewrite length_be_bytes in Hf1.
  destruct (writeInt32_step junk b1 ch) as (b2 & -> & Ha2); [done|done|unfold size_limit; lia|].
  cbn [mbind option_bind]. pose proof Ha2 as (Hw2 & _ & Hf2 & _). rewrite length_be_bytes in Hf2.
  destruct (writeInt32_step junk b2 ty) as (b3 & -> & Ha3); [done|done|unfold size_limit; lia|].
  cbn [mbind option_bind]. pose proof Ha3 as (Hw3 & _ & Hf3 & _). rewrite length_be_bytes in Hf3.
  destruct (writeBytes_ok junk Hj b3 v) as (b4 & Hb4 & Ha4); [done|done|unfold size_limit; lia|].
  change (Buffer_writeBytes junk b3 v) with (writeBytes junk b3 v). rewrite Hb4. cbn [mbind option_bind].
  pose proof (appended_trans _ _ _ _ _ (appended_trans _ _ _ _ _ (appended_trans _ _ _ _ _ Ha1 Ha2) Ha3) Ha4)
    as (Hw & Hc & Hf & Hd).
  rewrite !length_app, !length_be_bytes, Hf0 in Hf. rewrite Hd0 in Hd.
  assert (Hpf : pfree b4 = 12 + Z.of_nat (length v)) by lia.
  assert (Hc0 : contents b0 = []) by (unfold contents; by rewrite Hf0, Hd0).
  rewrite Hc0, app_nil_l in Hc. unfold contents in Hc. rewrite Hd, Z.sub_0_r, drop_0 in Hc.
  pose proof (wb_end _ Hw) as He. unfold pend in He. unfold dataLen, Buffer_fillInt32, fillInt32.
  rewrite i32_id by lia. rewrite poke_Some by (rewrite ?length_be_bytes; lia). cbn [mbind option_bind].
  change (Z.to_nat 0) with 0%nat. rewrite length_be_bytes, take_0, app_nil_l, Nat.add_0_l.
  rewrite peek_Some by (rewrite ?length_app, ?length_drop, ?length_be_bytes; lia). f_equal.
  change (Z.to_nat 0) with 0%nat.
  rewrite drop_0, take_app_ge by (rewrite length_be_bytes; lia).
  unfold frameBytes. rewrite length_be_bytes, Hpf. f_equal.
  rewrite take_drop_commute. replace (4 + (Z.to_nat (12 + Z.of_nat (length v)) - 4))%nat
    with (Z.to_nat (12 + Z.of_nat (length v))) by lia.
  rewrite Hpf in Hc. by rewrite Hc, <- !app_assoc, drop_app_length' by (by rewrite length_be_bytes).
Qed.

Lemma openFrame_bytes ch ty v :
  Forall is_u8 v → 12 + Z.of_nat (length v) <= size_limit → is_u32 ch → is_u32 ty →
  openFrame (frameBytes ch ty v) = Some (ch, ty, v).
Proof.
  intros Hv Hsz Hch Hty. unfold openFrame. pose proof (length_frameBytes ch ty v) as Hl.
  unfold size_limit, is_u32 in *.
  assert (Hw : wf_buf (Buffer_wrap (frameBytes ch ty v))).
  { split; unfold pend, bytes, size_limit; simpl; try lia.
    unfold frameBytes. rewrite !Forall_app. split_and!; [apply be_bytes_u8..|done]. }
  assert (Hc : contents (Buffer_wrap (frameBytes ch ty v)) = frameBytes ch ty v).
  { unfold contents, bytes. cbn [pfree pdata block Buffer_wrap default]. rewrite Z.sub_0_r, Nat2Z.id.
    apply firstn_all. }
  unfold frameBytes in Hc at 2. unfold Buffer_readInt32.
  destruct (readInt_bytes 4 _ _ _ Hw Hc) as (b1 & Hr1 & Hw1 & Hc1); [lia|].
  change (Z.of_nat 4) with 4 in Hr1. rewrite Hr1. cbn [mbind option_bind].
  rewrite (proj2 (Z.eqb_eq _ _)) by lia. cbn [assert_that mbind option_bind].
  destruct (readInt_bytes 4 _ _ _ Hw1 Hc1) as (b2 & Hr2 & Hw2 & Hc2); [lia|].
  change (Z.of_nat 4) with 4 in Hr2. rewrite Hr2. cbn [mbind option_bind].
  destruct (readInt_bytes 4 _ _ _ Hw2 Hc2) as (b3 & Hr3 & Hw3 & Hc3); [lia|].
  change (Z.of_nat 4) with 4 in Hr3. rewrite Hr3. cbn [mbind option_bind].
  pose proof (contents_length b3 Hw3) as Hcl. rewrite Hc3 in Hcl.
  rewrite <- (app_nil_r v) in Hc3. destruct (take_front b3 v [] Hw3 Hc3) as (Hp & _).
  unfold curDataLen. rewrite <- Hcl, i32_id by lia. by rewrite Hp.
Qed.
