(* ===== verification/MetaTable.v ===== *)
(** * The table file of the meta server (src/src/meta/table_mgr.{h,cc})

    The server table is a memory-mapped file: nine 32-bit words of header and three tables
    of 64-bit server addresses one after the other, the table in use ([hashTable]), the
    table as far as the migration got ([mHashTable]) and the destination ([dHashTable]).
    [FileMapper] (src/src/common/filemapper.cc) is modelled by what it does to the file: a
    mapping with a size truncates or extends the file with zeros.

    [None] is an access through a null pointer or outside of the mapping. *)
From S2P Require Import Prelude.

Definition sKvHtmVersion : Z := 0x31766257.

(** The header, in the order of [mapMetaData]. *)
Record meta_hdr := {
  flag : Z;
  clientVersion : Z;
  serverVersion : Z;
  pluginsVersion : Z;
  namespaceCapacityVersion : Z;
  lastLoadConfigTime : Z;
  migrateBlockCount : Z;
  serverCopyCount : Z;
  serverBucketCount : Z }.

(** The mapped file: the header and the 64-bit words behind it. *)
Record table_file := { hdr : meta_hdr; cells : list Z }.

(** [TableMgr]: the mapping, and the copies of the tables that are sent to clients and to
    data servers. *)
Record table_mgr := {
  mapped : option table_file;
  fileOpened : bool;
  deflateForClient : list Z;
  deflateForDataServer : list Z }.

(** [init], which [close] ends with. *)
Definition init_mgr : table_mgr :=
  {| mapped := None; fileOpened := false; deflateForClient := []; deflateForDataServer := [] |}.

Definition closeTable (m : table_mgr) : table_mgr := init_mgr.

(** ** Sizes *)

Definition hashTableSize (bucket_count copy_count : Z) : Z := u32 (bucket_count * copy_count).
Definition hashTableByteSize (bucket_count copy_count : Z) : Z :=
  u32 (hashTableSize bucket_count copy_count * 8).
Definition serverTableSize (bucket_count copy_count : Z) : Z :=
  u32 (hashTableByteSize bucket_count copy_count * 3 + 4 * 9).

Definition getBucketCount (m : table_mgr) : Z :=
  match mapped m with Some f => serverBucketCount (hdr f) | None => 0 end.
Definition getCopyCount (m : table_mgr) : Z :=
  match mapped m with Some f => serverCopyCount (hdr f) | None => 0 end.

(** Buckets, copies and entries of a mapped file, as loop bounds and offsets. *)
Definition buckets (f : table_file) : nat := Z.to_nat (serverBucketCount (hdr f)).
Definition copies (f : table_file) : nat := Z.to_nat (serverCopyCount (hdr f)).
Definition entries (f : table_file) : nat :=
  Z.to_nat (hashTableSize (serverBucketCount (hdr f)) (serverCopyCount (hdr f))).

(** ** Opening and creating *)

(** The words behind the header of a file mapped with [size] bytes. *)
Definition resizeCells (size : Z) (l : list Z) : list Z :=
  let n := Z.to_nat ((size - 36) / 8) in take n l ++ replicate (n - length l) 0.

(** [openFile(name, create_length)] on a file, [None] if it does not exist; a length that is
    not positive as an [int32_t] maps the file as it is, for reading. *)
Definition openFile (f : option table_file) (create_length : Z) : option table_file :=
  if 0 <? i32 create_length then
    match f with
    | Some f => Some (Build_table_file (hdr f) (resizeCells create_length (cells f)))
    | None => Some (Build_table_file (Build_meta_hdr 0 0 0 0 0 0 0 0 0) (resizeCells create_length []))
    end
  else f.

(** [create]: [disk] is the file of that name. *)
Definition create (disk : option table_file) (bucket_count copy_count : Z) (m : table_mgr)
    : bool * table_mgr :=
  match disk with
  | Some _ => (false, m)
  | None =>
      match openFile None (serverTableSize bucket_count copy_count) with
      | None => (false, closeTable m)
      | Some f =>
          let h := {| flag := sKvHtmVersion; clientVersion := 1; serverVersion := 1;
                      pluginsVersion := 1; namespaceCapacityVersion := 1;
                      lastLoadConfigTime := lastLoadConfigTime (hdr f);
                      migrateBlockCount := -1; serverCopyCount := copy_count;
                      serverBucketCount := bucket_count |} in
          let n := Z.to_nat (hashTableByteSize bucket_count copy_count / 8) in
          (true, {| mapped := Some (Build_table_file h (replicate (min n (length (cells f))) 0
                                                          ++ drop n (cells f)));
                    fileOpened := true; deflateForClient := []; deflateForDataServer := [] |})
      end
  end.

Definition openTable (disk : option table_file) (m : table_mgr) : bool * table_mgr :=
  match disk with
  | None => (false, closeTable m)
  | Some f =>
      if negb (flag (hdr f) =? sKvHtmVersion) then (false, closeTable m) else
      let size := serverTableSize (serverBucketCount (hdr f)) (serverCopyCount (hdr f)) in
      match openFile (Some f) size with
      | None => (false, closeTable m)
      | Some f => (true, {| mapped := Some f; fileOpened := true;
                            deflateForClient := []; deflateForDataServer := [] |})
      end
  end.

Definition setServerBucketCount (n : Z) (m : table_mgr) : bool * table_mgr :=
  match mapped m with
  | Some f =>
      let h := hdr f in
      if serverBucketCount h =? 0 then
        (true, Build_table_mgr (Some (Build_table_file
           (Build_meta_hdr (flag h) (clientVersion h) (serverVersion h) (pluginsVersion h)
              (namespaceCapacityVersion h) (lastLoadConfigTime h) (migrateBlockCount h)
              (serverCopyCount h) n) (cells f)))
           (fileOpened m) (deflateForClient m) (deflateForDataServer m))
      else (false, m)
  | None => (false, m)
  end.

Definition setCopyCount (n : Z) (m : table_mgr) : bool * table_mgr :=
  match mapped m with
  | Some f =>
      let h := hdr f in
      if serverCopyCount h =? 0 then
        (true, Build_table_mgr (Some (Build_table_file
           (Build_meta_hdr (flag h) (clientVersion h) (serverVersion h) (pluginsVersion h)
              (namespaceCapacityVersion h) (lastLoadConfigTime h) (migrateBlockCount h)
              n (serverBucketCount h)) (cells f)))
           (fileOpened m) (deflateForClient m) (deflateForDataServer m))
      else (false, m)
  | None => (false, m)
  end.

(** ** The three tables *)

(** The table at word offset [off] of the mapping. *)
Definition tableAt (f : table_file) (off : nat) : option (list Z) :=
  if decide (off + entries f <= length (cells f))%nat
  then Some (take (entries f) (drop off (cells f))) else None.

Definition hashTable (f : table_file) := tableAt f 0.
Definition mHashTable (f : table_file) := tableAt f (entries f).
Definition dHashTable (f : table_file) := tableAt f (2 * entries f).

(** Writes the words [l] at offset [off]. *)
Definition writeAt (f : table_file) (off : nat) (l : list Z) : option table_file :=
  if decide (off + length l <= length (cells f))%nat
  then Some (Build_table_file (hdr f) (take off (cells f) ++ l ++ drop (off + length l) (cells f)))
  else None.

Definition writeHash (f : table_file) (l : list Z) := writeAt f 0 l.
Definition writeM (f : table_file) (l : list Z) := writeAt f (entries f) l.
Definition writeD (f : table_file) (l : list Z) := writeAt f (2 * entries f) l.

Definition set_hdr (h : meta_hdr) (f : table_file) : table_file := Build_table_file h (cells f).

(** [deflateHashTable]: clients get the table in use, data servers that and the destination. *)
Definition deflateHashTable (m : table_mgr) : option table_mgr :=
  f ← mapped m;
  h ← hashTable f;
  d ← dHashTable f;
  Some (Build_table_mgr (mapped m) (fileOpened m) h (h ++ d)).

(** A file whose mapping holds exactly the three tables. *)
Record wf_file (f : table_file) : Prop := {
  wf_sizes : 0 <= serverBucketCount (hdr f) ∧ 0 <= serverCopyCount (hdr f) ∧
             serverBucketCount (hdr f) * serverCopyCount (hdr f) * 24 + 36 < 2 ^ 31;
  wf_cells : length (cells f) = (3 * entries f)%nat }.

Lemma entries_eq f : wf_file f → entries f = (buckets f * copies f)%nat.
Proof.
  intros [(HB & HC & Hsz) _]. unfold entries, buckets, copies, hashTableSize, u32.
  rewrite Z.mod_small by nia. rewrite Z2Nat.inj_mul by lia. done.
Qed.

Lemma tableAt_Some f off :
  (off + entries f <= length (cells f))%nat → tableAt f off = Some (take (entries f) (drop off (cells f))).
Proof. intros H. unfold tableAt. by rewrite decide_True. Qed.

Lemma length_resizeCells size l : length (resizeCells size l) = Z.to_nat ((size - 36) / 8).
Proof. unfold resizeCells. rewrite length_app, length_take, length_replicate. lia. Qed.

(** Sizes that do not wrap. *)
Lemma sizes_exact b c :
  0 <= b → 0 <= c → b * c * 24 + 36 < 2 ^ 31 →
  hashTableByteSize b c = b * c * 8 ∧ serverTableSize b c = b * c * 24 + 36.
Proof.
  intros Hb Hc Hsz. unfold hashTableByteSize, serverTableSize, hashTableByteSize, hashTableSize, u32.
  assert (0 <= b * c) by nia. rewrite !(Z.mod_small (b * c)) by lia.
  rewrite !(Z.mod_small (b * c * 8)) by lia. rewrite Z.mod_small by lia. lia.
Qed.

Lemma div_cells b c : (b * c * 24 + 36 - 36) / 8 = 3 * (b * c).
Proof. replace (b * c * 24 + 36 - 36) with (3 * (b * c) * 8) by lia. by rewrite Z.div_mul. Qed.

(** a table file that was created can be opened again.  [create] on a new file gives three
    empty tables, and opening the file that is then on disk maps the same header and tables. *)
Lemma create_then_open m m' b c :
  0 < b → 0 < c → b * c * 24 + 36 < 2 ^ 31 → ∀ f ok m1,
  create None b c m = (ok, m1) → mapped m1 = Some f →
  ok = true ∧ wf_file f ∧ cells f = replicate (3 * (buckets f * copies f)) 0 ∧
  ∃ m2, openTable (Some f) m' = (true, m2) ∧ mapped m2 = Some f.
Proof.
  intros Hb Hc Hsz f ok m1. unfold create.
  destruct (sizes_exact b c) as [Hbs Hts]; [lia|lia|done|]. unfold openFile at 1. rewrite Hts, Hbs.
  rewrite i32_id by nia. rewrite (proj2 (Z.ltb_lt 0 _)) by nia. intros [= <- <-] [= <-].
  cbn [cells]. set (N := Z.to_nat (3 * (b * c))).
  assert (Hcells : resizeCells (b * c * 24 + 36) [] = replicate N 0).
  { unfold resizeCells. rewrite div_cells, take_nil. simpl. by rewrite Nat.sub_0_r. }
  assert (H8 : Z.to_nat (b * c * 8 / 8) = Z.to_nat (b * c)) by (by rewrite Z.div_mul).
  rewrite Hcells, length_replicate, H8, drop_replicate, <- replicate_add.
  replace (min (Z.to_nat (b * c)) N + (N - Z.to_nat (b * c)))%nat with N by lia.
  assert (Hent : entries (Build_table_file {| flag := sKvHtmVersion; clientVersion := 1; serverVersion := 1;
     pluginsVersion := 1; namespaceCapacityVersion := 1; lastLoadConfigTime := 0; migrateBlockCount := -1;
     serverCopyCount := c; serverBucketCount := b |} (replicate N 0)) = Z.to_nat (b * c)).
  { unfold entries, hashTableSize, u32. cbn [hdr serverBucketCount serverCopyCount].
    rewrite Z.mod_small; [done|nia]. }
  split_and!; [done| | |].
  - split; [simpl; lia|]. rewrite Hent. cbn [cells]. rewrite length_replicate. unfold N. nia.
  - unfold buckets, copies. cbn [hdr cells serverBucketCount serverCopyCount]. f_equal.
    unfold N. rewrite !Z2Nat.inj_mul by lia. lia.
  - unfold openTable, openFile. cbn [hdr flag serverBucketCount serverCopyCount].
    rewrite Z.eqb_refl. cbn [negb]. rewrite Hts, i32_id by nia.
    rewrite (proj2 (Z.ltb_lt 0 _)) by nia. eexists. split; [done|]. cbn [mapped hdr cells]. do 2 f_equal.
    unfold resizeCells. rewrite div_cells, length_replicate. fold N.
    rewrite take_replicate, <- replicate_add. f_equal. lia.
Qed.

Lemma create_then_open_witness :
  true = true ∧ ∃ f, mapped (create None 2 3 init_mgr).2 = Some f ∧ wf_file f.
Proof.
  split; [reflexivity|]. eexists. split; [vm_compute; reflexivity|].
  apply (create_then_open init_mgr init_mgr 2 3 ltac:(lia) ltac:(lia) ltac:(lia) _ true
           (create None 2 3 init_mgr).2); vm_compute; reflexivity.
Defined.
