(* ===== verification/SysMgr.v ===== *)
(** * The system manager of the meta server (src/src/meta/sys_mgr.{h,cc})

    Keeps the list of storage servers and their liveness, builds the routing tables with
    [TableBuilder] when servers come and go, and follows the migration from the table in
    use to the destination table.

    The time is an argument of the operations that read the clock.  Writing to the system
    database succeeds or not as an argument says.  The order in which a protobuf map is
    visited is an argument.  [None] is an execution that aborts or has no meaning: a failed
    [assert], a null or invalid pointer or iterator, a rebuild that does not end. *)
From S2P Require Import Prelude TableBuilder MetaTable.

Definition sMinConfigVersion : Z := 10.
Definition sDefaultPosMask : Z := 0xffff.

(** [ServerInfo::Status] and [ServerInfo] (src/src/protos/meta.proto). *)
Inductive status := Alive | Down | ForceDown | Initial.
#[export] Instance status_eq_dec : EqDecision status.
Proof. solve_decision. Defined.

Record server_info := { serverid : Z; lasttime : Z; stat : status }.

Record sys_mgr := {
  tableMgr : table_mgr;
  nodelist : gmap Z server_info;
  namespaces : gmap Z Z;
  availableServers : gset Z;
  migrateMachine : gmap Z Z;
  minConfigVersion : Z;
  sysPosMask : Z }.

Definition set_tableMgr (m : table_mgr) (s : sys_mgr) : sys_mgr :=
  Build_sys_mgr m (nodelist s) (namespaces s) (availableServers s) (migrateMachine s)
    (minConfigVersion s) (sysPosMask s).
Definition set_nodelist (n : gmap Z server_info) (s : sys_mgr) : sys_mgr :=
  Build_sys_mgr (tableMgr s) n (namespaces s) (availableServers s) (migrateMachine s)
    (minConfigVersion s) (sysPosMask s).
Definition set_namespaces (n : gmap Z Z) (s : sys_mgr) : sys_mgr :=
  Build_sys_mgr (tableMgr s) (nodelist s) n (availableServers s) (migrateMachine s)
    (minConfigVersion s) (sysPosMask s).
Definition set_available (a : gset Z) (s : sys_mgr) : sys_mgr :=
  Build_sys_mgr (tableMgr s) (nodelist s) (namespaces s) a (migrateMachine s)
    (minConfigVersion s) (sysPosMask s).
Definition set_migrateMachine (m : gmap Z Z) (s : sys_mgr) : sys_mgr :=
  Build_sys_mgr (tableMgr s) (nodelist s) (namespaces s) (availableServers s) m
    (minConfigVersion s) (sysPosMask s).
Definition set_file (f : table_file) (s : sys_mgr) : sys_mgr :=
  set_tableMgr (Build_table_mgr (Some f) (fileOpened (tableMgr s))
    (deflateForClient (tableMgr s)) (deflateForDataServer (tableMgr s))) s.

(** ** Servers *)

Definition addStorageServer (now : Z) (serialized put_ok : bool) (srv_id : Z) (s : sys_mgr)
    : bool * sys_mgr :=
  match nodelist s !! srv_id with
  | Some _ => (false, s)
  | None =>
      let s := set_nodelist (<[srv_id := {| serverid := srv_id; lasttime := now; stat := Initial |}]>
                               (nodelist s)) s in
      (serialized && put_ok, s)
  end.

Definition doHeartbeat (now : Z) (srv_id : Z) (s : sys_mgr) : bool * sys_mgr :=
  match nodelist s !! srv_id with
  | None => (false, s)
  | Some i => (true, set_nodelist (<[srv_id := {| serverid := serverid i; lasttime := now;
                                                  stat := Alive |}]> (nodelist s)) s)
  end.

(** What [sysDb->Get] and the parser return to [loadSysData]. *)
Inductive sys_data_read :=
| NotFound | ReadFailed | ParseFailed
| ReadOk (nodes : gmap Z server_info) (ns : gmap Z Z).

Definition loadSysData (now : Z) (r : sys_data_read) (s : sys_mgr) : bool * sys_mgr :=
  let refresh s := set_nodelist
    ((λ i, if decide (stat i = Alive) then {| serverid := serverid i; lasttime := now; stat := stat i |}
           else i) <$> nodelist s) s in
  match r with
  | NotFound => (true, refresh s)
  | ReadFailed | ParseFailed => (false, s)
  | ReadOk nodes ns => (true, refresh (set_namespaces ns (set_nodelist nodes s)))
  end.

(** [getUpNode]: the ids of the alive servers, which also become the available ones. *)
Definition upNodes (s : sys_mgr) : list Z :=
  (λ kv, serverid kv.2) <$> filter (λ kv, stat kv.2 = Alive) (map_to_list (nodelist s)).

Definition getUpNode (s : sys_mgr) : list Z * sys_mgr :=
  (upNodes s, set_available (list_to_set (upNodes s)) s).

(** ** Versions and namespaces *)

Definition incrVersion (s : sys_mgr) (v : Z) : Z :=
  let v := u32 (v + 1) in if v <? minConfigVersion s then minConfigVersion s else v.

(** The three versions that the table operations advance. *)
Definition bump (s : sys_mgr) (client server ns : bool) (h : meta_hdr) : meta_hdr :=
  {| flag := flag h;
     clientVersion := if client then incrVersion s (clientVersion h) else clientVersion h;
     serverVersion := if server then incrVersion s (serverVersion h) else serverVersion h;
     pluginsVersion := pluginsVersion h;
     namespaceCapacityVersion := if ns then incrVersion s (namespaceCapacityVersion h)
                                 else namespaceCapacityVersion h;
     lastLoadConfigTime := lastLoadConfigTime h;
     migrateBlockCount := migrateBlockCount h;
     serverCopyCount := serverCopyCount h;
     serverBucketCount := serverBucketCount h |}.

Definition set_migrateBlockCount (n : Z) (h : meta_hdr) : meta_hdr :=
  {| flag := flag h; clientVersion := clientVersion h; serverVersion := serverVersion h;
     pluginsVersion := pluginsVersion h; namespaceCapacityVersion := namespaceCapacityVersion h;
     lastLoadConfigTime := lastLoadConfigTime h; migrateBlockCount := n;
     serverCopyCount := serverCopyCount h; serverBucketCount := serverBucketCount h |}.

Definition createNameSpace (serialized put_ok : bool) (ns capacity : Z) (s : sys_mgr)
    : option (bool * sys_mgr) :=
  f ← mapped (tableMgr s);
  let s := set_file (set_hdr (bump s false false true (hdr f)) f) s in
  Some (serialized && put_ok, set_namespaces (<[ns := capacity]> (namespaces s)) s).

Definition getNamespaceCapacityInfo (s : sys_mgr) : gmap Z Z := namespaces s.

(** [loadConfig]: the configured bucket and copy counts, minimal version and mask; [disk]
    is the table file of the configured directory. *)
Definition loadConfig (disk : option table_file) (bucket_count copy_count min_version mask : Z)
    (s : sys_mgr) : sys_mgr :=
  let t := tableMgr s in
  let t := if fileOpened t then t else (create disk (u32 bucket_count) (u32 copy_count) t).2 in
  Build_sys_mgr t (nodelist s) (namespaces s) (availableServers s) (migrateMachine s)
    (if u32 min_version <? sMinConfigVersion then sMinConfigVersion else u32 min_version)
    (if mask =? 0 then sDefaultPosMask else mask).

(** ** Migration *)

Definition isMigrating (f : table_file) : bool := negb (migrateBlockCount (hdr f) =? -1).

(** Entry of copy [j], bucket [i] in a table of [b] buckets. *)
Definition at_ (b : nat) (t : list Z) (j i : nat) : Z := default 0 (t !! (j * b + i)%nat).

(** Whether [fillMigrateMachine] counts bucket [i]: another master, or a slave of the
    destination that is no slave now. *)
Definition migrateBucket (b c : nat) (m d : list Z) (i : nat) : bool :=
  negb (at_ b m 0 i =? at_ b d 0 i) ||
  existsb (λ j, negb (existsb (λ k, at_ b d j i =? at_ b m k i) (range 1 c))) (range 1 c).

Definition fillStep (b c : nat) (m d : list Z) (acc : Z * gmap Z Z) (i : nat) : Z * gmap Z Z :=
  let n := at_ b m 0 i in
  if n =? 0 then acc
  else if migrateBucket b c m d i then (acc.1 + 1, <[n := default 0 (acc.2 !! n) + 1]> acc.2)
  else acc.

Definition fillMigrateMachine (b c : nat) (m d : list Z) : Z * gmap Z Z :=
  foldl (fillStep b c m d) (0, ∅) (seq 0 b).

(** The configuration of the builder both rebuilds use. *)
Definition builderConf (f : table_file) (up : list Z) : tb_conf :=
  {| availableServer := setAvailableServer sDefaultPosMask up; posMask := sDefaultPosMask;
     bucketCount := buckets f; copyCount := copies f |}.

Definition firstRun (m : list Z) : bool := forallb (λ x, x =? 0) m.

(** The quick table of both rebuilds: only with several copies and a table in use. *)
Definition quickOf (c : tb_conf) (m : list Z) : bool * hash_table :=
  let t := loadHashTable c m in
  if Nat.ltb 1 (copyCount c) && negb (firstRun m)
  then let '(ok, _, t) := buildQuickTable c empty_quick t in (ok, t)
  else (true, t).

Definition rebuildQuickTable (s : sys_mgr) : option sys_mgr :=
  let '(up, s) := getUpNode s in
  f ← mapped (tableMgr s);
  m ← mHashTable f;
  let c := builderConf f up in
  let '(ok, t) := quickOf c m in
  if negb ok then Some (set_file (set_hdr (bump s true true false (hdr f)) f) s) else
  let l := writeHashTable c t in
  f ← writeM f l;
  f ← writeHash f l;
  f ← writeD f l;
  let s := set_file (set_hdr (bump s true true true (hdr f)) f) s in
  tm ← deflateHashTable (tableMgr s);
  Some (set_tableMgr tm s).

(** With one copy, entries of servers that are gone are taken from the destination. *)
Definition replaceLost (up : gset Z) (l d : list Z) : list Z :=
  imap (λ i x, if bool_decide (x ∈ up) then x else default 0 (d !! i)) l.

(** What [rebuild] does with the destination table it got. *)
Definition applyRebuild (c : tb_conf) (first_run : bool) (quick dest : hash_table)
    (f : table_file) (s : sys_mgr) : option sys_mgr :=
  let d := writeHashTable c dest in
  f ← writeD f d;
  let q := writeHashTable c quick in
  let q := if Nat.leb (copies f) 1 then replaceLost (availableServers s) q d else q in
  f ← writeM f (if first_run then d else q);
  f ← writeHash f (if first_run then d else q);
  m ← mHashTable f;
  d ← dHashTable f;
  let r := if first_run then (0, migrateMachine s)
           else fillMigrateMachine (buckets f) (copies f) m d in
  let h := set_migrateBlockCount (if 0 <? r.1 then r.1 else -1) (hdr f) in
  let s := set_migrateMachine r.2 (set_file (set_hdr (bump s true true true h) f) s) in
  tm ← deflateHashTable (tableMgr s);
  Some (set_tableMgr tm s).

Definition rebuild (rand : nat → nat) (fuel r : nat) (s : sys_mgr) : option sys_mgr :=
  let '(up, s) := getUpNode s in
  f ← mapped (tableMgr s);
  m ← mHashTable f;
  let c := builderConf f up in
  let first_run := firstRun m in
  let '(ok, quick) := quickOf c m in
  if negb ok then Some (set_file (set_hdr (bump s true true false (hdr f)) f) s) else
  match rebuildTableNew rand fuel c r quick with
  | Built BUILD_NO_CHANGE _ | Built BUILD_ERROR _ => Some s
  | Built _ dest => applyRebuild c first_run quick dest f s
  | _ => None
  end.

(** [setMigratingHashtable]: a server reports bucket [bucket_id] migrated.  The two tables
    are accessed in the mapping, whatever the index. *)
Definition copyCell (f : table_file) (bucket_id : nat) (st : list Z * bool) (i : nat)
    : option (list Z * bool) :=
  let idx := Z.to_nat (u32 (Z.of_nat (i * buckets f + bucket_id))) in
  m ← st.1 !! (entries f + idx)%nat;
  d ← st.1 !! (2 * entries f + idx)%nat;
  if m =? d then Some st else Some (<[(entries f + idx)%nat := d]> st.1, true).

Definition finishOne (server_id : Z) (mm : gmap Z Z) : option (gmap Z Z) :=
  n ← mm !! server_id;
  Some (if n - 1 =? 0 then delete server_id mm else <[server_id := n - 1]> mm).

Definition setMigratingHashtable (bucket_id : Z) (server_id : Z) (s : sys_mgr) : option sys_mgr :=
  f ← mapped (tableMgr s);
  if (serverBucketCount (hdr f) <? bucket_id) || negb (isMigrating f) then Some s else
  m0 ← cells f !! (entries f + Z.to_nat bucket_id)%nat;
  if negb (m0 =? server_id) then Some s else
  st ← foldl (λ st i, st ← st; copyCell f (Z.to_nat bucket_id) st i)
                 (Some (cells f, false)) (seq 0 (copies f));
  let f' := Build_table_file (hdr f) st.1 in
  if (st.2 : bool) then
    mm ← finishOne server_id (migrateMachine s);
    Some (set_migrateMachine mm
            (set_file (set_hdr (set_migrateBlockCount (migrateBlockCount (hdr f) - 1) (hdr f)) f') s))
  else Some (set_file f' s).

Definition doFinishMigrate (server_id server_version bucket_id : Z) (s : sys_mgr)
    : option (bool * sys_mgr) :=
  f ← mapped (tableMgr s);
  if negb (server_version =? serverVersion (hdr f)) then Some (false, s)
  else s ← setMigratingHashtable (u32 bucket_id) server_id s; Some (true, s).

Definition checkMigrateComplete (s : sys_mgr) : option (bool * sys_mgr) :=
  f ← mapped (tableMgr s);
  if migrateBlockCount (hdr f) =? -1 then Some (true, s)
  else if negb (bool_decide (migrateMachine s = ∅)) then Some (false, s)
  else
    m ← mHashTable f;
    d ← dHashTable f;
    _ ← assert_that (bool_decide (m = d));
    f ← writeHash f d;
    let s := set_file (set_hdr (bump s true true false (hdr f)) f) s in
    tm ← deflateHashTable (tableMgr s);
    let s := set_tableMgr tm s in
    f ← mapped (tableMgr s);
    Some (true, set_file (set_hdr (set_migrateBlockCount (-1) (hdr f)) f) s).

Definition hardCheckMigrateComplete (s : sys_mgr) : option sys_mgr :=
  f ← mapped (tableMgr s);
  m ← mHashTable f;
  d ← dHashTable f;
  Some (if bool_decide (m = d) then set_migrateMachine ∅ s else s).

Definition getMigratingMachines (s : sys_mgr) : list (Z * Z) := map_to_list (migrateMachine s).

(** One turn of [serverCheck]: servers silent for four seconds go down, each time with a
    quick table; [order] is the order in which the node list is visited. *)
Definition isSilent (now : Z) (i : server_info) : bool :=
  bool_decide (stat i = Alive) && (lasttime i <? now) && (4 <=? now - lasttime i).

Definition checkServer (now : Z) (s : sys_mgr) (id : Z) : option sys_mgr :=
  match nodelist s !! id with
  | Some i =>
      if isSilent now i then
        rebuildQuickTable (set_nodelist (<[id := {| serverid := serverid i; lasttime := lasttime i;
                                                    stat := Down |}]> (nodelist s)) s)
      else Some s
  | None => Some s
  end.

Definition serverCheck (now : Z) (order : list Z) (s : sys_mgr) : option sys_mgr :=
  s ← foldl (λ s id, s ← s; checkServer now s id) (Some s) order;
  '(_, s) ← checkMigrateComplete s;
  Some s.

(** The constructor: opens the table file and restores the list of migrating servers. *)
Definition SysMgr_new (disk : option table_file) : option sys_mgr :=
  let '(ok, t) := openTable disk init_mgr in
  let s := {| tableMgr := t; nodelist := ∅; namespaces := ∅; availableServers := ∅;
              migrateMachine := ∅; minConfigVersion := sMinConfigVersion;
              sysPosMask := sDefaultPosMask |} in
  if ok then
    f ← mapped t;
    s ← (if 0 <? migrateBlockCount (hdr f) then
           m ← mHashTable f;
           d ← dHashTable f;
           Some (set_migrateMachine (fillMigrateMachine (buckets f) (copies f) m d).2 s)
         else Some s);
    tm ← deflateHashTable (tableMgr s);
    Some (set_tableMgr tm s)
  else Some s.

(** [getHashTable(mode)] and [getHashTableDeflateData(mode)]. *)
Definition getHashTable (mode : Z) (s : sys_mgr) : option (list Z) :=
  f ← mapped (tableMgr s);
  if mode =? 0 then hashTable f else if mode =? 1 then mHashTable f else dHashTable f.

Definition getHashTableDeflateData (mode : Z) (s : sys_mgr) : list Z :=
  if mode =? 0 then deflateForClient (tableMgr s) else deflateForDataServer (tableMgr s).
