(* ===== verification/Migration.v ===== *)
(** * Following a migration (src/src/meta/sys_mgr.cc)

    After a rebuild the meta server waits until every bucket whose replicas change has been
    reported by its master, in any order and with repeated or misplaced reports, and then
    puts the destination table in use.  This file proves that protocol correct on the
    states a rebuild leaves, and states what goes wrong outside of them. *)
From S2P Require Import Prelude TableBuilder TableQuick MetaTable SysMgr.

(** ** Entries of the mapping *)

Definition mcell (f : table_file) (k i : nat) : Z :=
  default 0 (cells f !! (entries f + (k * buckets f + i))%nat).
Definition dcell (f : table_file) (k i : nat) : Z :=
  default 0 (cells f !! (2 * entries f + (k * buckets f + i))%nat).

(** Bucket [i] has a replica that differs from the destination. *)
Definition pending (f : table_file) (i : nat) : Prop :=
  ∃ k, (k < copies f)%nat ∧ mcell f k i ≠ dcell f k i.

#[export] Instance pending_dec f i : Decision (pending f i).
Proof.
  destruct (decide (Exists (λ k, mcell f k i ≠ dcell f k i) (seq 0 (copies f)))) as [H|H].
  - left. apply list.Exists_exists in H as (k & Hk%elem_of_seq & H). exists k. split; [lia|done].
  - right. intros (k & Hk & Hne). apply H, list.Exists_exists. exists k.
    split; [apply elem_of_seq; lia|done].
Defined.

Definition pendingBuckets (f : table_file) : list nat := filter (pending f) (seq 0 (buckets f)).
Definition pendingOf (f : table_file) (n : Z) : list nat :=
  filter (λ i, pending f i ∧ mcell f 0 i = n) (seq 0 (buckets f)).

(** The count a map entry stands for: no entry is zero. *)
Definition counted (n : nat) : option Z := if decide (n = 0%nat) then None else Some (Z.of_nat n).

(** While migrating: every server is charged with its pending buckets. *)
Record mig_inv (s : sys_mgr) (f : table_file) : Prop := {
  mi_mapped : mapped (tableMgr s) = Some f;
  mi_wf : wf_file f;
  mi_copies : (1 <= copies f)%nat;
  mi_block : migrateBlockCount (hdr f) = Z.of_nat (length (pendingBuckets f));
  mi_machine : ∀ n, migrateMachine s !! n = counted (length (pendingOf f n)) }.

(** ** Copying one bucket *)

(** The words of the copies below [n] of bucket [b] in the table of the migration. *)
Definition slots (f : table_file) (b n : nat) : list nat := (λ k, entries f + (k * buckets f + b))%nat <$> seq 0 n.

Lemma elem_of_slots f b n p :
  p ∈ slots f b n ↔ ∃ k, (k < n)%nat ∧ p = (entries f + (k * buckets f + b))%nat.
Proof.
  unfold slots. rewrite list_elem_of_fmap. split; intros (k & ? & ?); exists k.
  - rewrite elem_of_seq in *. split; [lia|done].
  - rewrite elem_of_seq. split; [done|lia].
Qed.

Lemma index_bound f (Hwf : wf_file f) k i :
  (k < copies f)%nat → (i < buckets f)%nat → (k * buckets f + i < entries f)%nat.
Proof. intros. rewrite entries_eq by done. nia. Qed.

Section Copy.
Context (f : table_file) (Hwf : wf_file f) (b : nat) (Hb : (b < buckets f)%nat).

Lemma index_u32 k :
  (k < copies f)%nat → Z.to_nat (u32 (Z.of_nat (k * buckets f + b))) = (k * buckets f + b)%nat.
Proof.
  intros Hk. pose proof (index_bound f Hwf k b Hk Hb) as Hi. rewrite entries_eq in Hi by done.
  destruct Hwf as [(H1 & H2 & H3) _]. unfold u32. rewrite Z.mod_small; [apply Nat2Z.id|].
  unfold buckets, copies in *. split; [lia|].
  assert (Z.of_nat (Z.to_nat (serverBucketCount (hdr f)) * Z.to_nat (serverCopyCount (hdr f))) =
    serverBucketCount (hdr f) * serverCopyCount (hdr f)) by (rewrite Nat2Z.inj_mul, !Z2Nat.id by lia; done).
  lia.
Qed.

(** The mapping when the copies below [n] of bucket [b] have been copied. *)
Definition copied (n : nat) (cs : list Z) : Prop :=
  length cs = length (cells f) ∧
  ∀ p, cs !! p = if decide (p ∈ slots f b n)
                 then cells f !! (p + entries f)%nat else cells f !! p.

Lemma lookup_d cs n k :
  copied n cs → (n <= copies f)%nat → (k < copies f)%nat →
  cs !! (2 * entries f + (k * buckets f + b))%nat = Some (dcell f k b).
Proof.
  intros [_ Hcs] Hn Hk. pose proof (index_bound f Hwf k b Hk Hb). rewrite Hcs, decide_False.
  - unfold dcell. destruct (lookup_lt_is_Some_2 (cells f) (2 * entries f + (k * buckets f + b))) as [x ->].
    + rewrite (wf_cells f Hwf). lia.
    + done.
  - intros (j & Hj & Heq)%elem_of_slots. pose proof (index_bound f Hwf j b ltac:(lia) Hb). lia.
Qed.

Lemma lookup_m cs n :
  copied n cs → (n < copies f)%nat → cs !! (entries f + (n * buckets f + b))%nat = Some (mcell f n b).
Proof.
  intros [_ Hcs] Hn. pose proof (index_bound f Hwf n b Hn Hb). rewrite Hcs, decide_False.
  - unfold mcell. destruct (lookup_lt_is_Some_2 (cells f) (entries f + (n * buckets f + b))) as [x ->]; [|done].
    rewrite (wf_cells f Hwf). lia.
  - intros (j & Hj & Heq)%elem_of_slots. assert (j * buckets f = n * buckets f)%nat by lia. nia.
Qed.

Lemma copied_S n cs :
  copied n cs → (n < copies f)%nat →
  copied (S n) (<[(entries f + (n * buckets f + b))%nat := dcell f n b]> cs).
Proof.
  intros Hc Hn. pose proof Hc as [Hl Hcs]. pose proof (index_bound f Hwf n b Hn Hb).
  split; [by rewrite length_insert|]. intros p.
  destruct (decide (p = entries f + (n * buckets f + b))%nat) as [->|Hp].
  - rewrite list_lookup_insert_eq by (rewrite Hl, (wf_cells f Hwf); lia). rewrite decide_True by (apply elem_of_slots; eauto).
    symmetry. replace (entries f + (n * buckets f + b) + entries f)%nat
      with (2 * entries f + (n * buckets f + b))%nat by lia.
    eapply (lookup_d (cells f) 0); [|lia|done]. split; [done|]. intros q.
    rewrite decide_False; [done|]. intros (k & Hk & _)%elem_of_slots. lia.
  - rewrite list_lookup_insert_ne by done. rewrite Hcs.
    destruct (decide (p ∈ slots f b n)) as [(k & ? & ?)%elem_of_slots|Hno].
    + rewrite decide_True; [done|]. apply elem_of_slots. exists k. split; [lia|done].
    + rewrite decide_False; [done|]. intros (k & Hk & Heq)%elem_of_slots. apply Hno, elem_of_slots.
      exists k. split; [|done].
      destruct (decide (k = n)) as [->|]; [done|lia].
Qed.

Lemma copied_same n cs :
  copied n cs → (n < copies f)%nat → mcell f n b = dcell f n b → copied (S n) cs.
Proof.
  intros Hc Hn Heq. pose proof (copied_S n cs Hc Hn) as Hs. rewrite list_insert_id in Hs; [done|].
  rewrite <- Heq. by apply (lookup_m cs n).
Qed.

(** The loop of [setMigratingHashtable]. *)
Lemma copyLoop n :
  (n <= copies f)%nat →
  ∃ cs r, foldl (λ st i, st ← st; copyCell f b st i) (Some (cells f, false)) (seq 0 n) = Some (cs, r) ∧
    copied n cs ∧ (r = true ↔ ∃ k, (k < n)%nat ∧ mcell f k b ≠ dcell f k b).
Proof.
  induction n as [|n IH]; intros Hn.
  { exists (cells f), false. split_and!; [done| |].
    - split; [done|]. intros p. rewrite decide_False; [done|]. intros (k & Hk & _)%elem_of_slots. lia.
    - split; [done|]. intros (k & Hk & _). lia. }
  destruct IH as (cs & r & Hf & Hc & Hr); [lia|].
  rewrite seq_S, foldl_app. cbn [foldl]. rewrite Hf. cbn [mbind option_bind].
  change (0 + n)%nat with n. unfold copyCell. rewrite index_u32 by lia. cbn [fst].
  rewrite (lookup_m cs n Hc), (lookup_d cs n n Hc) by lia. cbn [mbind option_bind].
  destruct (mcell f n b =? dcell f n b) eqn:E; bool_cases.
  - exists cs, r. split_and!; [done|by apply copied_same|]. rewrite Hr. split.
    + intros (k & Hk & ?). exists k. split; [lia|done].
    + intros (k & Hk & ?). exists k. split; [|done]. destruct (decide (k = n)); [congruence|lia].
  - eexists _, _. split_and!; [done|by apply copied_S|]. split; [|done]. intros _. exists n. auto.
Qed.
End Copy.

(** ** The mapping after a report *)

(** [finished f b f']: bucket [b] of the migration table is that of the destination, and
    nothing else of the mapping changes. *)
Record finished (f : table_file) (b : nat) (f' : table_file) : Prop := {
  fin_buckets : buckets f' = buckets f;
  fin_copies : copies f' = copies f;
  fin_wf : wf_file f';
  fin_m : ∀ k i, (k < copies f)%nat → (i < buckets f)%nat →
            mcell f' k i = if decide (i = b) then dcell f k i else mcell f k i;
  fin_d : ∀ k i, (k < copies f)%nat → (i < buckets f)%nat → dcell f' k i = dcell f k i;
  fin_hash : hashTable f' = hashTable f;
  fin_dest : dHashTable f' = dHashTable f }.

Lemma take_drop_ext {A} (l1 l2 : list A) a n :
  length l1 = length l2 → (∀ p, (a <= p < a + n)%nat → l1 !! p = l2 !! p) →
  take n (drop a l1) = take n (drop a l2).
Proof.
  intros Hl H. apply list_eq. intros i. destruct (decide (i < n)%nat).
  - rewrite !lookup_take_lt, !lookup_drop by done. apply H. lia.
  - rewrite !lookup_take_ge by lia. done.
Qed.

Lemma copied_finished f b cs h :
  wf_file f → (b < buckets f)%nat → copied f b (copies f) cs →
  serverBucketCount h = serverBucketCount (hdr f) → serverCopyCount h = serverCopyCount (hdr f) →
  finished f b (Build_table_file h cs).
Proof.
  intros Hwf Hb [Hl Hcs] HB HC.
  assert (He : entries (Build_table_file h cs) = entries f) by (unfold entries; simpl; by rewrite HB, HC).
  assert (Hbk : buckets (Build_table_file h cs) = buckets f) by (unfold buckets; simpl; by rewrite HB).
  assert (Hcp : copies (Build_table_file h cs) = copies f) by (unfold copies; simpl; by rewrite HC).
  assert (Hout : ∀ p, (p < entries f ∨ 2 * entries f <= p)%nat → cs !! p = cells f !! p).
  { intros p Hp. rewrite Hcs, decide_False; [done|]. intros (k & Hk & ->)%elem_of_slots.
    pose proof (index_bound f Hwf k b Hk Hb). lia. }
  pose proof (wf_cells f Hwf) as Hlen.
  split; [done|done| | | | |].
  - destruct Hwf as [Hs _]. split; simpl; [by rewrite HB, HC|]. by rewrite He, Hl, Hlen.
  - intros k i Hk Hi. unfold mcell, dcell. rewrite He, Hbk. cbn [cells]. rewrite Hcs.
    case_decide as E; case_decide as E'; subst.
    + do 2 f_equal. lia.
    + exfalso. apply elem_of_slots in E as (k' & Hk' & Heq). apply E'.
      assert (k = k') as ->; nia.
    + destruct E. apply elem_of_slots. eauto.
    + done.
  - intros k i Hk Hi. unfold dcell. rewrite He, Hbk. cbn [cells]. by rewrite Hout by lia.
  - unfold hashTable, tableAt. cbn [cells]. rewrite He, Hl. rewrite decide_True by lia.
    rewrite (decide_True (P := _ <= _)%nat) by lia. f_equal. apply take_drop_ext; [done|].
    intros p Hp. apply Hout. lia.
  - unfold dHashTable, tableAt. cbn [cells]. rewrite He, Hl. rewrite decide_True by lia.
    rewrite (decide_True (P := _ <= _)%nat) by lia. f_equal. apply take_drop_ext; [done|].
    intros p Hp. apply Hout. lia.
Qed.

Lemma pending_finished f b f' i :
  finished f b f' → (b < buckets f)%nat → (i < buckets f)%nat →
  pending f' i ↔ pending f i ∧ i ≠ b.
Proof.
  intros Hf Hb Hi. unfold pending. rewrite (fin_copies _ _ _ Hf). split.
  - intros (k & Hk & Hne). rewrite (fin_m _ _ _ Hf), (fin_d _ _ _ Hf) in Hne by done.
    case_decide; [done|]. eauto.
  - intros [(k & Hk & Hne) Hib]. exists k. split; [done|].
    rewrite (fin_m _ _ _ Hf), (fin_d _ _ _ Hf), decide_False by done. done.
Qed.

Lemma filter_ext_in {A} (P Q : A → Prop) `{∀ x, Decision (P x)} `{∀ x, Decision (Q x)} (l : list A) :
  (∀ x, x ∈ l → P x ↔ Q x) → filter P l = filter Q l.
Proof.
  induction l as [|x l IH]; intros Hl; [done|]. rewrite !filter_cons.
  rewrite IH by (intros; apply Hl; by right). pose proof (Hl x ltac:(left)).
  do 2 case_decide; tauto.
Qed.

(** Removing one element of a filtered list without duplicates. *)
Lemma filter_remove {A} `{EqDecision A} (P Q : A → Prop) `{∀ x, Decision (P x)} `{∀ x, Decision (Q x)}
    (l : list A) b :
  NoDup l → b ∈ l → P b → (∀ x, x ∈ l → Q x ↔ P x ∧ x ≠ b) →
  length (filter P l) = S (length (filter Q l)).
Proof.
  induction l as [|x l IH]; intros Hnd Hb HP HQ; [inversion Hb|].
  apply list.NoDup_cons in Hnd as [Hx Hnd]. rewrite !filter_cons. apply elem_of_cons in Hb as [->|Hb].
  - rewrite decide_True by done. rewrite (decide_False (P := Q x)) by (rewrite HQ by left; tauto).
    simpl. do 2 f_equal. apply filter_ext_in. intros y Hy. rewrite HQ by (by right).
    split; [|tauto]. intros ?. split; [done|]. by intros ->.
  - assert (Hne : x ≠ b) by (by intros ->). pose proof (HQ x ltac:(left)) as Hqx.
    pose proof (IH Hnd Hb HP ltac:(intros; apply HQ; by right)) as IH'.
    do 2 case_decide; simpl; tauto || lia.
Qed.

Lemma counts_finished f b f' :
  finished f b f' → (b < buckets f)%nat → (1 <= copies f)%nat → pending f b →
  length (pendingBuckets f) = S (length (pendingBuckets f')) ∧
  length (pendingOf f (mcell f 0 b)) = S (length (pendingOf f' (mcell f 0 b))) ∧
  ∀ n, n ≠ mcell f 0 b → pendingOf f' n = pendingOf f n.
Proof.
  intros Hf Hb HC Hp. unfold pendingBuckets, pendingOf. rewrite (fin_buckets _ _ _ Hf).
  assert (Hin : b ∈ seq 0 (buckets f)) by (apply elem_of_seq; lia).
  assert (Hm0 : ∀ i, (i < buckets f)%nat → i ≠ b → mcell f' 0 i = mcell f 0 i).
  { intros i Hi Hne. by rewrite (fin_m _ _ _ Hf), decide_False by (done || lia). }
  split_and!.
  - apply (filter_remove _ _ _ b); [apply NoDup_seq|done|done|].
    intros i Hi%elem_of_seq. apply pending_finished; [done|done|lia].
  - apply (filter_remove _ _ _ b); [apply NoDup_seq|done|done|].
    intros i Hi%elem_of_seq. rewrite (pending_finished f b f') by (done || lia).
    destruct (decide (i = b)); [tauto|]. rewrite Hm0 by (done || lia). tauto.
  - intros n Hn. apply filter_ext_in. intros i Hi%elem_of_seq.
    rewrite (pending_finished f b f') by (done || lia).
    destruct (decide (i = b)) as [->|]; [|rewrite Hm0 by (done || lia); tauto].
    split; [tauto|]. intros [_ ?]. congruence.
Qed.

Lemma counts_unchanged f b f' :
  finished f b f' → (b < buckets f)%nat → (1 <= copies f)%nat → ¬ pending f b →
  pendingBuckets f' = pendingBuckets f ∧ ∀ n, pendingOf f' n = pendingOf f n.
Proof.
  intros Hf Hb HC Hp. unfold pendingBuckets, pendingOf. rewrite (fin_buckets _ _ _ Hf).
  assert (Hpe : ∀ i, (i < buckets f)%nat → pending f' i ↔ pending f i).
  { intros i Hi. rewrite (pending_finished f b f') by done.
    destruct (decide (i = b)) as [->|]; tauto. }
  assert (Hm0 : ∀ i, (i < buckets f)%nat → mcell f' 0 i = mcell f 0 i).
  { intros i Hi. rewrite (fin_m _ _ _ Hf) by (done || lia). case_decide as E; [subst i|done].
    destruct (decide (mcell f 0 b = dcell f 0 b)); [done|]. destruct Hp. exists 0%nat. split; [lia|done]. }
  split; [|intros n]; apply filter_ext_in; intros i Hi%elem_of_seq.
  - apply Hpe. lia.
  - rewrite Hpe, Hm0 by lia. done.
Qed.

(** ** One report *)

Lemma counted_S n : counted (S n) = Some (Z.of_nat (S n)).
Proof. done. Qed.

Lemma finishOne_ok mm n k :
  mm !! n = counted (S k) →
  ∃ mm', finishOne n mm = Some mm' ∧ mm' !! n = counted k ∧ ∀ n', n' ≠ n → mm' !! n' = mm !! n'.
Proof.
  intros Hn. unfold finishOne. rewrite Hn, counted_S. cbn [mbind option_bind].
  eexists. split; [done|]. destruct (Z.of_nat (S k) - 1 =? 0) eqn:E; bool_cases.
  - assert (k = 0%nat) as -> by lia. split; [by rewrite lookup_delete_eq|].
    intros n' Hn'. by rewrite lookup_delete_ne.
  - split; [rewrite lookup_insert_eq; unfold counted; rewrite decide_False by lia; f_equal; lia|].
    intros n' Hn'. by rewrite lookup_insert_ne.
Qed.

Lemma report_ok s f b n :
  mig_inv s f → (b < buckets f)%nat →
  ∃ s' f', setMigratingHashtable (Z.of_nat b) n s = Some s' ∧ mig_inv s' f' ∧
    ((mcell f 0 b = n ∧ finished f b f') ∨ (mcell f 0 b ≠ n ∧ f' = f)).
Proof.
  intros Hinv Hb. pose proof Hinv as [Hm Hwf HC Hbl Hma]. unfold setMigratingHashtable. rewrite Hm.
  cbn [mbind option_bind]. rewrite (proj2 (Z.ltb_ge _ _)) by (unfold buckets in Hb; lia).
  unfold isMigrating. rewrite (proj2 (Z.eqb_neq (migrateBlockCount (hdr f)) (-1))) by lia. cbn [negb orb].
  pose proof (index_bound f Hwf 0 b HC Hb) as Hidx.
  rewrite Nat2Z.id. assert (Hcell : cells f !! (entries f + b)%nat = Some (mcell f 0 b)).
  { unfold mcell. simpl. destruct (lookup_lt_is_Some_2 (cells f) (entries f + b)) as [x ->]; [|done].
    rewrite (wf_cells f Hwf). lia. }
  rewrite Hcell. cbn [mbind option_bind].
  destruct (mcell f 0 b =? n) eqn:E; bool_cases; cbn [negb]; [|eexists _, _; split_and!; eauto].
  destruct (copyLoop f Hwf b Hb (copies f)) as (cs & r & -> & Hc & Hr); [done|].
  cbn [mbind option_bind fst snd]. destruct r.
  - assert (Hp : pending f b) by (by apply Hr).
    set (h := set_migrateBlockCount (migrateBlockCount (hdr f) - 1) (hdr f)).
    pose proof (copied_finished f b cs h Hwf Hb Hc eq_refl eq_refl) as Hf.
    destruct (counts_finished f b _ Hf Hb HC Hp) as (Hn1 & Hn2 & Hn3). rewrite E in Hn2, Hn3.
    destruct (finishOne_ok (migrateMachine s) n (length (pendingOf (Build_table_file h cs) n)))
      as (mm & -> & Hmm & Hmo); [by rewrite Hma, Hn2|].
    cbn [mbind option_bind]. eexists _, (Build_table_file h cs). split_and!; [done| |by left].
    split; [done|apply Hf|by rewrite (fin_copies _ _ _ Hf)|simpl; lia|].
    intros n'. simpl. destruct (decide (n' = n)) as [->|Hne]; [done|].
    by rewrite Hmo, Hma, Hn3 by done.
  - assert (Hp : ¬ pending f b) by (intros Hp; apply Hr in Hp; done).
    pose proof (copied_finished f b cs (hdr f) Hwf Hb Hc eq_refl eq_refl) as Hf.
    destruct (counts_unchanged f b _ Hf Hb HC Hp) as (Hn1 & Hn2).
    eexists _, (Build_table_file (hdr f) cs). split_and!; [done| |by left].
    split; [done|apply Hf|by rewrite (fin_copies _ _ _ Hf)|by rewrite Hn1|].
    intros n'. rewrite Hn2. apply Hma.
Qed.

(** A sequence of reports ([bucket], [server]). *)
Definition reports (s : sys_mgr) (l : list (Z * Z)) : option sys_mgr :=
  foldl (λ s bn, s ← s; setMigratingHashtable bn.1 bn.2 s) (Some s) l.

(** Progress from the file [f0]: a bucket is untouched or no longer pending. *)
Definition progress (f0 f : table_file) : Prop :=
  buckets f = buckets f0 ∧ copies f = copies f0 ∧ dHashTable f = dHashTable f0 ∧
  ∀ i, (i < buckets f0)%nat →
    (∀ k, (k < copies f0)%nat → mcell f k i = mcell f0 k i ∧ dcell f k i = dcell f0 k i) ∨ ¬ pending f i.

Lemma report_progress f0 s f b :
  mig_inv s f → progress f0 f → (b < buckets f0)%nat →
  ∃ s' f', setMigratingHashtable (Z.of_nat b) (mcell f0 0 b) s = Some s' ∧ mig_inv s' f' ∧
    progress f0 f' ∧ ¬ pending f' b ∧
    ∀ i, (i < buckets f0)%nat → ¬ pending f i → ¬ pending f' i.
Proof.
  intros Hinv (HB & HC & Hd & Hpr) Hb. pose proof (mi_copies _ _ Hinv) as HC1.
  destruct (report_ok s f b (mcell f0 0 b)) as (s' & f' & Hs & Hinv' & Hor); [done|lia|].
  exists s', f'. split_and!; [done|done| | |].
  - destruct Hor as [[_ Hf]|[_ ->]]; [|done]. split_and!.
    + by rewrite (fin_buckets _ _ _ Hf).
    + by rewrite (fin_copies _ _ _ Hf).
    + by rewrite (fin_dest _ _ _ Hf).
    + intros i Hi. destruct (decide (i = b)) as [->|Hne].
      { right. rewrite (pending_finished f b f') by (done || lia). tauto. }
      destruct (Hpr i Hi) as [Hsame|Hnp].
      * left. intros k Hk. rewrite (fin_m _ _ _ Hf), (fin_d _ _ _ Hf), decide_False by (done || lia).
        by apply Hsame.
      * right. rewrite (pending_finished f b f') by (done || lia). tauto.
  - destruct Hor as [[_ Hf]|[Hne ->]].
    + rewrite (pending_finished f b f') by (done || lia). tauto.
    + destruct (Hpr b Hb) as [Hsame|]; [|done]. destruct Hne. apply Hsame. lia.
  - intros i Hi Hnp. destruct Hor as [[_ Hf]|[_ ->]]; [|done].
    rewrite (pending_finished f b f') by (done || lia). tauto.
Qed.

Lemma reports_progress f0 bs s f :
  mig_inv s f → progress f0 f → (∀ b, b ∈ bs → (b < buckets f0)%nat) →
  ∃ s' f', reports s ((λ b, (Z.of_nat b, mcell f0 0 b)) <$> bs) = Some s' ∧ mig_inv s' f' ∧
    progress f0 f' ∧ ∀ i, (i < buckets f0)%nat → i ∈ bs ∨ ¬ pending f i → ¬ pending f' i.
Proof.
  revert s f. induction bs as [|b bs IH]; intros s f Hinv Hpr Hbs.
  { exists s, f. split_and!; try done. intros i _ [Hi|?]; [inversion Hi|done]. }
  destruct (report_progress f0 s f b) as (s1 & f1 & Hs1 & Hinv1 & Hpr1 & Hb1 & Hmono);
    [done|done|apply Hbs; left|].
  destruct (IH s1 f1) as (s2 & f2 & Hs2 & Hinv2 & Hpr2 & Hdone); [done|done|intros; apply Hbs; by right|].
  exists s2, f2. unfold reports. rewrite fmap_cons. cbn [foldl mbind option_bind fst snd].
  rewrite Hs1. split_and!; [done|done|done|]. intros i Hi Hor. apply Hdone; [done|].
  rewrite elem_of_cons in Hor. destruct Hor as [[->|?]|?]; auto.
Qed.

(** ** Completion *)

Lemma lookup_table f off p :
  (off + entries f <= length (cells f))%nat → (p < entries f)%nat →
  take (entries f) (drop off (cells f)) !! p = cells f !! (off + p)%nat.
Proof. intros. by rewrite lookup_take_lt, lookup_drop by done. Qed.

(** With nothing pending the two tables are the same words. *)
Lemma tables_equal f :
  wf_file f → (∀ i, (i < buckets f)%nat → ¬ pending f i) → mHashTable f = dHashTable f.
Proof.
  intros Hwf Hno. pose proof (wf_cells f Hwf) as Hl. unfold mHashTable, dHashTable.
  rewrite !tableAt_Some by lia. f_equal. apply list_eq. intros p.
  destruct (decide (p < entries f)%nat) as [Hp|Hp].
  2:{ rewrite !lookup_take_ge by lia. done. }
  rewrite !lookup_table by lia. rewrite entries_eq in Hp by done.
  set (k := (p / buckets f)%nat). set (i := (p mod buckets f)%nat).
  assert (Hb : buckets f ≠ 0%nat) by (intros H0; rewrite H0 in Hp; lia).
  assert (Hpk : p = (k * buckets f + i)%nat) by (rewrite (Nat.div_mod_eq p (buckets f)) at 1; unfold k, i; lia).
  assert (Hi : (i < buckets f)%nat) by (by apply Nat.mod_upper_bound).
  assert (Hk : (k < copies f)%nat) by (apply Nat.Div0.div_lt_upper_bound; lia).
  assert (Heq : mcell f k i = dcell f k i).
  { destruct (decide (mcell f k i = dcell f k i)); [done|]. destruct (Hno i Hi). by exists k. }
  unfold mcell, dcell in Heq. rewrite <- Hpk in Heq. pose proof (entries_eq f Hwf).
  destruct (lookup_lt_is_Some_2 (cells f) (entries f + p)) as [x Hx]; [lia|].
  destruct (lookup_lt_is_Some_2 (cells f) (2 * entries f + p)) as [y Hy]; [lia|].
  rewrite Hx, Hy in *. simpl in Heq. congruence.
Qed.

Lemma pendingBuckets_nil f :
  (∀ i, (i < buckets f)%nat → ¬ pending f i) → pendingBuckets f = [] ∧ ∀ n, pendingOf f n = [].
Proof.
  intros Hno. unfold pendingBuckets, pendingOf.
  split; [|intros n]; apply filter_nil_iff; intros i Hi%elem_of_seq; [apply Hno; lia|].
  intros [Hp _]. by apply (Hno i); [lia|].
Qed.

Lemma writeHash_ok f l :
  wf_file f → length l = entries f →
  ∃ f', writeHash f l = Some f' ∧ hdr f' = hdr f ∧ wf_file f' ∧ hashTable f' = Some l ∧
    mHashTable f' = mHashTable f ∧ dHashTable f' = dHashTable f.
Proof.
  intros Hwf Hl. pose proof (wf_cells f Hwf) as Hc. unfold writeHash, writeAt.
  rewrite decide_True by lia. eexists. split; [done|]. set (f' := Build_table_file _ _).
  assert (He : entries f' = entries f) by done.
  assert (Hcells : cells f' = l ++ drop (entries f) (cells f)) by (unfold f'; simpl; by rewrite Hl).
  assert (Hlen : length (cells f') = length (cells f)).
  { rewrite Hcells, length_app, length_drop. lia. }
  assert (Hdrop : ∀ off, (entries f <= off)%nat → drop off (cells f') = drop off (cells f)).
  { intros off Hoff. rewrite Hcells, drop_app_ge by lia. rewrite drop_drop. f_equal. lia. }
  split_and!.
  - done.
  - destruct Hwf as [Hs _]. split; [done|]. by rewrite Hlen, He.
  - unfold hashTable. rewrite tableAt_Some by (rewrite He, Hlen; lia). rewrite He, Hcells, drop_0, <- Hl.
    f_equal. apply take_app_length.
  - unfold mHashTable. rewrite !tableAt_Some, He, Hdrop by (rewrite ?He, ?Hlen; lia). done.
  - unfold dHashTable. rewrite !tableAt_Some, He, Hdrop by (rewrite ?He, ?Hlen; lia). done.
Qed.

(** The destination table in use, no migration, and the copies sent out up to date. *)
Definition migrated (d : list Z) (s : sys_mgr) : Prop :=
  ∃ f, mapped (tableMgr s) = Some f ∧ hashTable f = Some d ∧ mHashTable f = Some d ∧
    dHashTable f = Some d ∧ isMigrating f = false ∧ deflateForClient (tableMgr s) = d ∧
    deflateForDataServer (tableMgr s) = d ++ d.

Lemma check_complete s f :
  mig_inv s f → (∀ i, (i < buckets f)%nat → ¬ pending f i) →
  ∃ s' d, checkMigrateComplete s = Some (true, s') ∧ dHashTable f = Some d ∧ migrated d s'.
Proof.
  intros Hinv Hno. destruct Hinv as [Hm Hwf HC Hbl Hma].
  destruct (pendingBuckets_nil f Hno) as [Hnil Hnils].
  assert (Hmm : migrateMachine s = ∅).
  { apply map_eq. intros n. by rewrite Hma, Hnils, lookup_empty. }
  pose proof (wf_cells f Hwf) as Hc. pose proof (tables_equal f Hwf Hno) as Heq.
  assert (∃ d, dHashTable f = Some d ∧ length d = entries f) as (d & Hd & Hdl).
  { unfold dHashTable. rewrite tableAt_Some by lia. eexists. split; [done|].
    rewrite length_take, length_drop. lia. }
  destruct (writeHash_ok f d Hwf Hdl) as (f1 & Hw & Hh1 & Hwf1 & Hh & Hm1 & Hd1).
  unfold checkMigrateComplete. rewrite Hm. cbn [mbind option_bind].
  rewrite (proj2 (Z.eqb_neq (migrateBlockCount (hdr f)) (-1))) by lia.
  rewrite Hmm, bool_decide_eq_true_2 by done. cbn [negb]. rewrite Heq, Hd. cbn [mbind option_bind].
  rewrite bool_decide_eq_true_2 by done. cbn [assert_that mbind option_bind]. rewrite Hw.
  cbn [mbind option_bind]. unfold deflateHashTable. cbn -[hashTable dHashTable bump].
  set (f2 := set_hdr _ f1).
  assert (Ht : hashTable f2 = Some d ∧ dHashTable f2 = Some d ∧ mHashTable f2 = Some d).
  { split_and!; [exact Hh|rewrite <- Hd, <- Hd1; done|]. rewrite <- Hd, <- Heq, <- Hm1. done. }
  destruct Ht as (Ht1 & Ht2 & Ht3). rewrite Ht1, Ht2. cbn [mbind option_bind].
  eexists _, d. split_and!; [done|done|]. eexists. split_and!; [done|exact Ht1|exact Ht3|exact Ht2|done|done|done].
Qed.

(** A migration completes.  Start in a state where every server is charged with its
    pending buckets.  Once the masters have reported every pending bucket, in any order,
    with repetitions and with reports of buckets that were not pending, no step has failed
    and the next check puts the destination table in use and ends the migration. *)
Lemma migration_completes s f bs :
  mig_inv s f → (∀ b, b ∈ bs → (b < buckets f)%nat) →
  (∀ i, (i < buckets f)%nat → pending f i → i ∈ bs) →
  ∃ s1 s2 d, reports s ((λ b, (Z.of_nat b, mcell f 0 b)) <$> bs) = Some s1 ∧
    checkMigrateComplete s1 = Some (true, s2) ∧ dHashTable f = Some d ∧ migrated d s2.
Proof.
  intros Hinv Hbs Hall.
  destruct (reports_progress f bs s f) as (s1 & f1 & Hs1 & Hinv1 & (HB & _ & Hd & _) & Hdone); [done| |done|].
  { split_and!; [done|done|done|]. intros i Hi. left. auto. }
  destruct (check_complete s1 f1) as (s2 & d & Hc & Hd1 & Hmig); [done| |].
  { intros i Hi. rewrite HB in Hi. apply Hdone; [done|].
    destruct (decide (pending f i)); [left; by apply Hall|by right]. }
  exists s1, s2, d. rewrite <- Hd. by split_and!.
Qed.

(** Any report, correct or not, for an existing bucket is safe during a migration: the
    call succeeds, the charges stay exact, and either the report came from the master of the
    bucket, which is then no longer pending, or nothing changed. *)
Lemma report_safe s f b n :
  mig_inv s f → (b < buckets f)%nat →
  ∃ s' f', setMigratingHashtable (Z.of_nat b) n s = Some s' ∧ mig_inv s' f' ∧
    ((mcell f 0 b = n ∧ ¬ pending f' b ∧
      ∀ i, (i < buckets f)%nat → i ≠ b → pending f' i ↔ pending f i) ∨ (mcell f 0 b ≠ n ∧ f' = f)).
Proof.
  intros Hinv Hb. destruct (report_ok s f b n Hinv Hb) as (s' & f' & Hs & Hinv' & Hor).
  exists s', f'. split_and!; [done|done|]. destruct Hor as [[Hn Hf]|[Hn ->]]; [left|by right].
  split_and!; [done| |].
  - rewrite (pending_finished f b f') by done. tauto.
  - intros i Hi Hne. rewrite (pending_finished f b f') by done. tauto.
Qed.

Lemma pending_check s f i :
  mig_inv s f → (i < buckets f)%nat → pending f i → checkMigrateComplete s = Some (false, s).
Proof.
  intros [Hm Hwf HC Hbl Hma] Hi Hp. unfold checkMigrateComplete. rewrite Hm. cbn [mbind option_bind].
  rewrite (proj2 (Z.eqb_neq (migrateBlockCount (hdr f)) (-1))) by lia.
  rewrite bool_decide_eq_false_2; [done|]. intros Hemp.
  specialize (Hma (mcell f 0 i)). rewrite Hemp, lookup_empty in Hma.
  assert (Hin : i ∈ pendingOf f (mcell f 0 i)).
  { apply list_elem_of_filter. split; [done|]. apply elem_of_seq. lia. }
  unfold counted in Hma. case_decide as E; [|done]. apply length_zero_iff_nil in E. rewrite E in Hin.
  inversion Hin.
Qed.

(** while a bucket is pending the migration is not ended: the check answers false and
    changes nothing. *)
Lemma check_waits s f i :
  mig_inv s f → (i < buckets f)%nat → pending f i → checkMigrateComplete s = Some (false, s).
Proof. apply pending_check. Qed.

(** ** A rebuild starts a migration *)

Definition toMigrate (b c : nat) (m d : list Z) (i : nat) : Prop :=
  at_ b m 0 i ≠ 0 ∧ migrateBucket b c m d i = true.

#[export] Instance toMigrate_dec b c m d i : Decision (toMigrate b c m d i).
Proof. unfold toMigrate. apply _. Defined.

Lemma filter_snoc {A} (P : A → Prop) `{∀ x, Decision (P x)} (l : list A) x :
  filter P (l ++ [x]) = filter P l ++ if decide (P x) then [x] else [].
Proof. rewrite list.filter_app, filter_cons. by case_decide. Qed.

Lemma fill_spec b c m d n :
  let r := foldl (fillStep b c m d) (0, ∅) (seq 0 n) in
  r.1 = Z.of_nat (length (filter (toMigrate b c m d) (seq 0 n))) ∧
  ∀ x, r.2 !! x = counted (length (filter (λ i, toMigrate b c m d i ∧ at_ b m 0 i = x) (seq 0 n))).
Proof.
  induction n as [|n [IH1 IH2]]; [split; [done|intros x; apply lookup_empty]|].
  rewrite seq_S, foldl_app. cbn [foldl]. change (0 + n)%nat with n.
  set (r := foldl _ _ _) in *. unfold fillStep.
  assert (Hno : ¬ toMigrate b c m d n →
    r.1 = Z.of_nat (length (filter (toMigrate b c m d) (seq 0 n ++ [n]))) ∧
    ∀ x, r.2 !! x = counted (length (filter (λ i, toMigrate b c m d i ∧ at_ b m 0 i = x) (seq 0 n ++ [n])))).
  { intros Hn. split; [|intros x]; rewrite filter_snoc, decide_False, app_nil_r by tauto; auto. }
  destruct (at_ b m 0 n =? 0) eqn:E0; bool_cases; [apply Hno; unfold toMigrate; tauto|].
  destruct (migrateBucket b c m d n) eqn:Em; [|apply Hno; unfold toMigrate; rewrite Em; by intros [_ ?]].
  assert (Hn : toMigrate b c m d n) by done. cbn [fst snd]. split.
  - rewrite filter_snoc, decide_True, length_app by done. simpl. lia.
  - intros x. rewrite filter_snoc. destruct (decide (at_ b m 0 n = x)) as [<-|Hne].
    + rewrite lookup_insert_eq, decide_True, length_app by done. rewrite IH2. simpl.
      rewrite Nat.add_1_r. unfold counted at 2. rewrite decide_False by lia. f_equal.
      unfold counted. case_decide; simpl; lia.
    + rewrite lookup_insert_ne, decide_False, app_nil_r by tauto. apply IH2.
Qed.

Lemma at_cell f off t k i :
  tableAt f off = Some t → (k * buckets f + i < entries f)%nat →
  at_ (buckets f) t k i = default 0 (cells f !! (off + (k * buckets f + i))%nat).
Proof.
  unfold tableAt. case_decide as E; [|done]. intros [= <-] Hp. unfold at_. by rewrite lookup_table.
Qed.

(** A bucket that is counted is pending. *)
Lemma counted_pending f m d i :
  wf_file f → mHashTable f = Some m → dHashTable f = Some d → (i < buckets f)%nat → (1 <= copies f)%nat →
  migrateBucket (buckets f) (copies f) m d i = true → pending f i.
Proof.
  intros Hwf Hm Hd Hi HC Hmig.
  assert (Hmc : ∀ k, (k < copies f)%nat → at_ (buckets f) m k i = mcell f k i).
  { intros k Hk. by apply at_cell, index_bound. }
  assert (Hdc : ∀ k, (k < copies f)%nat → at_ (buckets f) d k i = dcell f k i).
  { intros k Hk. by apply at_cell, index_bound. }
  unfold migrateBucket in Hmig. apply orb_prop in Hmig as [H|H].
  - bool_cases. exists 0%nat. rewrite <- Hmc, <- Hdc by lia. split; [lia|done].
  - apply existsb_exists in H as (j & Hj%list_elem_of_In%elem_of_range & Hno). exists j.
    split; [lia|]. rewrite <- Hmc, <- Hdc by lia. intros Heq. apply negb_true_iff, not_true_iff_false in Hno.
    apply Hno, existsb_exists. exists j. split; [apply list_elem_of_In, elem_of_range; lia|].
    by apply Z.eqb_eq.
Qed.

Lemma writeAt_keeps f off l f' :
  writeAt f off l = Some f' → hdr f' = hdr f ∧ length (cells f') = length (cells f).
Proof.
  unfold writeAt. case_decide; [|done]. intros [= <-]. split; [done|]. simpl.
  rewrite !length_app, length_take, length_drop. lia.
Qed.

Lemma wf_keeps f f' : hdr f' = hdr f → length (cells f') = length (cells f) → wf_file f → wf_file f'.
Proof.
  intros Hh Hl [Hs Hc]. assert (He : entries f' = entries f) by (unfold entries; by rewrite Hh).
  split; [by rewrite Hh|]. by rewrite Hl, He.
Qed.

Lemma applyRebuild_inv c first quick dest f s s' f' m d :
  wf_file f → (1 <= copies f)%nat → applyRebuild c first quick dest f s = Some s' →
  mapped (tableMgr s') = Some f' → isMigrating f' = true →
  mHashTable f' = Some m → dHashTable f' = Some d →
  (∀ i, (i < buckets f')%nat → mcell f' 0 i ≠ 0) →
  (∀ i, (i < buckets f')%nat → pending f' i → migrateBucket (buckets f') (copies f') m d i = true) →
  mig_inv s' f'.
Proof.
  intros Hwf HC Hr Hmap' Hmig Hm Hd Hmaster Hperm. unfold applyRebuild in Hr. cbv zeta in Hr.
  apply bind_Some_inv in Hr as (f1 & Hf1 & Hr); apply bind_Some_inv in Hr as (f2 & Hf2 & Hr);
    apply bind_Some_inv in Hr as (f3 & Hf3 & Hr); apply bind_Some_inv in Hr as (m1 & Hm1 & Hr);
    apply bind_Some_inv in Hr as (d1 & Hd1 & Hr); apply bind_Some_inv in Hr as (tm & Htm & Hr).
  apply writeAt_keeps in Hf1 as [Hh1 Hl1], Hf2 as [Hh2 Hl2], Hf3 as [Hh3 Hl3].
  assert (Hwf3 : wf_file f3) by (apply (wf_keeps f); [congruence|congruence|exact Hwf]).
  injection Hr as <-. unfold deflateHashTable in Htm. simpl in Htm. step_inv Htm. injection Htm as <-.
  simpl in Hmap'. injection Hmap' as <-. destruct first; [done|].
  set (r := fillMigrateMachine _ _ _ _) in *. set (f' := set_hdr _ f3) in *.
  assert (Hb : buckets f' = buckets f3) by done. assert (Hc : copies f' = copies f3) by done.
  assert (Hmm : m1 = m) by (apply (inj Some); rewrite <- Hm1; exact Hm). subst m1.
  assert (Hdd : d1 = d) by (apply (inj Some); rewrite <- Hd1; exact Hd). subst d1.
  assert (HC3 : (1 <= copies f3)%nat) by (unfold copies in *; congruence).
  destruct (fill_spec (buckets f3) (copies f3) m d (buckets f3)) as [Hcnt Hmach]. fold (fillMigrateMachine
    (buckets f3) (copies f3) m d) in Hcnt, Hmach. fold r in Hcnt, Hmach.
  assert (Hiff : ∀ i, i ∈ seq 0 (buckets f3) → toMigrate (buckets f3) (copies f3) m d i ↔ pending f' i).
  { intros i Hi%elem_of_seq. split.
    - intros [_ Hmi]. apply (counted_pending f' m d); try done; [|lia]. by destruct Hwf3.
    - intros Hp. split; [|apply Hperm; [simpl; lia|done]].
      rewrite (at_cell f3 (entries f3) m 0 i) by (done || (apply index_bound; [done|lia|lia])).
      apply Hmaster. simpl. lia. }
  assert (Hat : ∀ i, i ∈ seq 0 (buckets f3) → at_ (buckets f3) m 0 i = mcell f' 0 i).
  { intros i Hi%elem_of_seq. apply (at_cell f' (entries f')); [done|].
    apply (index_bound f3); [done|lia|lia]. }
  split; [done|by destruct Hwf3|done| |].
  - rewrite (filter_ext_in _ (pending f') _ Hiff) in Hcnt. fold (pendingBuckets f') in Hcnt.
    unfold isMigrating in Hmig. simpl in Hmig |- *. by destruct (0 <? r.1).
  - intros n. simpl. rewrite Hmach. do 2 f_equal. apply filter_ext_in. intros i Hi.
    by rewrite (Hiff i Hi), (Hat i Hi).
Qed.

(** A rebuild that starts a migration charges every server with exactly its pending
    buckets, provided every bucket has a master and no bucket changes only in the order of
    its slaves. *)
Lemma rebuild_starts_migration rand fuel r s s' f f' m d :
  mapped (tableMgr s) = Some f → wf_file f → (1 <= copies f)%nat → isMigrating f = false →
  rebuild rand fuel r s = Some s' → mapped (tableMgr s') = Some f' → isMigrating f' = true →
  mHashTable f' = Some m → dHashTable f' = Some d →
  (∀ i, (i < buckets f')%nat → mcell f' 0 i ≠ 0) →
  (∀ i, (i < buckets f')%nat → pending f' i → migrateBucket (buckets f') (copies f') m d i = true) →
  mig_inv s' f'.
Proof.
  intros Hmap Hwf HC Hnm Hr Hmap' Hmig Hm Hd Hmaster Hperm. unfold rebuild, getUpNode in Hr.
  set (s0 := set_available _ s) in *. change (tableMgr s0) with (tableMgr s) in Hr.
  rewrite Hmap in Hr. cbn [mbind option_bind] in Hr. apply bind_Some_inv in Hr as (m0 & Hm0 & Hr).
  destruct (quickOf _ m0) as [ok quick]. destruct ok; cbn [negb] in Hr.
  2:{ injection Hr as <-. simpl in Hmap'. injection Hmap' as <-. change (isMigrating f = true) in Hmig. congruence. }
  assert (Hsame : Some s0 = Some s' → mig_inv s' f').
  { intros [= <-]. change (mapped (tableMgr s0)) with (mapped (tableMgr s)) in Hmap'.
    rewrite Hmap in Hmap'. injection Hmap' as ->. by rewrite Hnm in Hmig. }
  destruct (rebuildTableNew _ _ _ _ _) as [code dest| |]; [|done|done].
  destruct code; [by apply Hsame| | |by apply Hsame]; by eapply applyRebuild_inv.
Qed.

(** ** A quick table in the middle of a migration *)

Lemma writeAt_lookup f off l f' p :
  writeAt f off l = Some f' →
  cells f' !! p = if decide (off <= p < off + length l)%nat then l !! (p - off)%nat else cells f !! p.
Proof.
  unfold writeAt. case_decide as Hle; [|done]. intros [= <-]. simpl.
  destruct (decide (p < off)%nat).
  - rewrite lookup_app_l by (rewrite length_take; lia). rewrite lookup_take_lt by done.
    by rewrite decide_False by lia.
  - rewrite lookup_app_r by (rewrite length_take; lia). rewrite length_take, Nat.min_l by lia.
    destruct (decide (p < off + length l)%nat).
    + rewrite lookup_app_l by lia. by rewrite decide_True by lia.
    + rewrite lookup_app_r, lookup_drop, decide_False by lia. f_equal. lia.
Qed.

Lemma length_writeHashTable c t : length (writeHashTable c t) = (length t * bucketCount c)%nat.
Proof.
  unfold writeHashTable. induction t as [|line t IH]; [done|].
  rewrite fmap_cons. change (mjoin (?x :: ?y)) with (x ++ mjoin y).
  rewrite length_app, IH, length_fmap, length_seq. simpl. lia.
Qed.

Lemma loadHashTable_wf c l : wf_table c (loadHashTable c l).
Proof.
  unfold loadHashTable. split; [by rewrite length_fmap, length_seq|].
  apply list.Forall_forall. intros line (i & -> & _)%list_elem_of_fmap. by rewrite length_fmap, length_seq.
Qed.

Lemma quickOf_length c m ok t :
  (1 <= copyCount c)%nat → quickOf c m = (ok, t) →
  length (writeHashTable c t) = (copyCount c * bucketCount c)%nat.
Proof.
  intros HC. unfold quickOf. rewrite length_writeHashTable. destruct (_ && _).
  - destruct (buildQuickTable c empty_quick _) as [[ok' q] t'] eqn:E. intros [= _ <-].
    destruct (buildQuickTable_wf c _ _ _ _ (loadHashTable_wf c m) HC E) as [-> _]. done.
  - intros [= _ <-]. by destruct (loadHashTable_wf c m) as [-> _].
Qed.

(** What [rebuildQuickTable] leaves behind while a migration runs: three equal tables, and
    the bookkeeping of the migration untouched. *)
Definition stuck (s : sys_mgr) (f : table_file) : Prop :=
  mapped (tableMgr s) = Some f ∧ wf_file f ∧ (1 <= copies f)%nat ∧ isMigrating f = true ∧
  migrateMachine s ≠ ∅ ∧ ∀ i, (i < buckets f)%nat → ¬ pending f i.

Lemma quick_stuck s s' f :
  mapped (tableMgr s) = Some f → wf_file f → (1 <= copies f)%nat → isMigrating f = true →
  migrateMachine s ≠ ∅ → rebuildQuickTable s = Some s' → ∃ f', stuck s' f' ∧ buckets f' = buckets f.
Proof.
  intros Hm Hwf HC Hmig Hmm Hr. unfold rebuildQuickTable, getUpNode in Hr.
  set (s0 := set_available _ s) in *. change (tableMgr s0) with (tableMgr s) in Hr. rewrite Hm in Hr.
  cbn [mbind option_bind] in Hr. apply bind_Some_inv in Hr as (m & _ & Hr).
  set (c := builderConf f (upNodes s)) in *. destruct (quickOf c m) as [ok t] eqn:Hq.
  assert (ok = true) as ->.
  { unfold quickOf in Hq. destruct (_ && _); [|congruence]. unfold buildQuickTable in Hq.
    destruct (quickMasters c _). congruence. }
  cbn [negb] in Hr. pose proof (quickOf_length c m true t HC Hq) as Hlen.
  set (l := writeHashTable c t) in *. change (copyCount c) with (copies f) in Hlen.
  change (bucketCount c) with (buckets f) in Hlen.
  apply bind_Some_inv in Hr as (f1 & H1 & Hr). apply bind_Some_inv in Hr as (f2 & H2 & Hr).
  apply bind_Some_inv in Hr as (f3 & H3 & Hr). cbv zeta in Hr. apply bind_Some_inv in Hr as (tm & Htm & Hr).
  injection Hr as <-. unfold deflateHashTable in Htm. simpl in Htm. step_inv Htm. injection Htm as <-.
  pose proof (writeAt_keeps _ _ _ _ H1) as [Hh1 Hl1]. pose proof (writeAt_keeps _ _ _ _ H2) as [Hh2 Hl2].
  pose proof (writeAt_keeps _ _ _ _ H3) as [Hh3 Hl3].
  assert (He : entries f = (buckets f * copies f)%nat) by (by apply entries_eq).
  assert (He2 : entries f2 = entries f) by (unfold entries; congruence).
  set (f' := set_hdr _ f3). exists f'.
  assert (Hbk : buckets f' = buckets f) by (unfold buckets, f'; simpl; congruence).
  assert (Hcp : copies f' = copies f) by (unfold copies, f'; simpl; congruence).
  assert (He' : entries f' = entries f) by (unfold entries, f'; simpl; congruence).
  split; [|done]. split_and!.
  - done.
  - apply (wf_keeps (set_hdr (hdr f') f)); [done|simpl; congruence|].
    destruct Hwf as [Hs Hc]. split; [simpl; congruence|]. simpl. rewrite Hc. by rewrite <- He'.
  - by rewrite Hcp.
  - unfold isMigrating in *. simpl. congruence.
  - done.
  - intros i Hi (k & Hk & Hne). apply Hne. rewrite Hbk in Hi. rewrite Hcp in Hk.
    pose proof (index_bound f Hwf k i Hk Hi) as Hidx. unfold mcell, dcell. rewrite He', Hbk.
    change (cells f') with (cells f3). rewrite !(writeAt_lookup _ _ _ _ _ H3), He2.
    rewrite decide_False, decide_True by lia.
    rewrite (writeAt_lookup _ _ _ _ _ H2), decide_False by lia.
    rewrite (writeAt_lookup _ _ _ _ _ H1), decide_True by lia. do 2 f_equal. lia.
Qed.

Lemma stuck_report s f b n :
  stuck s f → (b < buckets f)%nat →
  ∃ s' f', setMigratingHashtable (Z.of_nat b) n s = Some s' ∧ stuck s' f' ∧ buckets f' = buckets f.
Proof.
  intros (Hm & Hwf & HC & Hmig & Hmm & Hno) Hb. unfold setMigratingHashtable. rewrite Hm.
  cbn [mbind option_bind]. rewrite (proj2 (Z.ltb_ge _ _)) by (unfold buckets in Hb; lia).
  rewrite Hmig. cbn [negb orb]. pose proof (index_bound f Hwf 0 b HC Hb) as Hidx. rewrite Nat2Z.id.
  destruct (lookup_lt_is_Some_2 (cells f) (entries f + b)) as [x ->]; [rewrite (wf_cells f Hwf); lia|].
  cbn [mbind option_bind]. destruct (negb (x =? n)); [exists s, f; done|].
  destruct (copyLoop f Hwf b Hb (copies f)) as (cs & r & -> & Hc & Hr); [done|].
  cbn [mbind option_bind fst snd]. destruct r; [exfalso; apply (Hno b Hb); by apply Hr|].
  pose proof (copied_finished f b cs (hdr f) Hwf Hb Hc eq_refl eq_refl) as Hf.
  eexists _, (Build_table_file (hdr f) cs). split_and!; [done| |done].
  split_and!; [done|apply Hf|done|done|done|]. intros i Hi.
  rewrite (pending_finished f b _ _ Hf) by done. intros [Hp _]. exact (Hno i Hi Hp).
Qed.

Lemma stuck_reports l s f :
  stuck s f → (∀ bn, bn ∈ l → 0 <= bn.1 < Z.of_nat (buckets f)) →
  ∃ s' f', reports s l = Some s' ∧ stuck s' f'.
Proof.
  revert s f. induction l as [|[b n] l IH]; intros s f Hs Hl; [exists s, f; done|].
  assert (Hb : 0 <= b < Z.of_nat (buckets f)) by (apply (Hl (b, n)); left).
  destruct (stuck_report s f (Z.to_nat b) n Hs) as (s1 & f1 & Hs1 & Hst1 & Hb1); [lia|].
  rewrite Z2Nat.id in Hs1 by lia.
  destruct (IH s1 f1 Hst1) as (s2 & f2 & Hs2 & Hst2); [intros; rewrite Hb1; apply Hl; by right|].
  exists s2, f2. split; [|done]. unfold reports. cbn [foldl mbind option_bind fst snd]. by rewrite Hs1.
Qed.

(** a server loss during a migration blocks it for good.  The quick table makes the three
    tables equal but keeps the list of servers that still migrate, so whatever is reported
    afterwards the migration is never seen as complete. *)
Lemma quick_table_blocks_migration s s' f l :
  mapped (tableMgr s) = Some f → wf_file f → (1 <= copies f)%nat → isMigrating f = true →
  migrateMachine s ≠ ∅ → rebuildQuickTable s = Some s' →
  (∀ bn, bn ∈ l → 0 <= bn.1 < Z.of_nat (buckets f)) →
  ∃ s1, reports s' l = Some s1 ∧ checkMigrateComplete s1 = Some (false, s1).
Proof.
  intros Hm Hwf HC Hmig Hmm Hr Hl.
  destruct (quick_stuck s s' f) as (f' & Hst & Hb); [done..|].
  destruct (stuck_reports l s' f' Hst) as (s1 & f1 & Hs1 & Hm1 & _ & _ & Hmig1 & Hmm1 & _);
    [by rewrite Hb|].
  exists s1. split; [done|]. unfold checkMigrateComplete. rewrite Hm1. cbn [mbind option_bind].
  unfold isMigrating in Hmig1. apply negb_true_iff in Hmig1. rewrite Hmig1.
  by rewrite bool_decide_eq_false_2.
Qed.

(** ** Concrete states *)

Definition demo_hdr (mbc c b : Z) : meta_hdr :=
  {| flag := sKvHtmVersion; clientVersion := 20; serverVersion := 20; pluginsVersion := 1;
     namespaceCapacityVersion := 20; lastLoadConfigTime := 0; migrateBlockCount := mbc;
     serverCopyCount := c; serverBucketCount := b |}.

Definition demo_sys (h : meta_hdr) (h_ m d : list Z) (mm : gmap Z Z) : sys_mgr :=
  {| tableMgr := {| mapped := Some (Build_table_file h (h_ ++ m ++ d)); fileOpened := true;
                    deflateForClient := []; deflateForDataServer := [] |};
     nodelist := {[1 := {| serverid := 1; lasttime := 0; stat := Alive |};
                   2 := {| serverid := 2; lasttime := 0; stat := Alive |}]};
     namespaces := ∅; availableServers := {[1; 2]}; migrateMachine := mm;
     minConfigVersion := 10; sysPosMask := sDefaultPosMask |}.

(** Bucket 1 gets another master and is the only one counted; the slaves of bucket 0 change
    places. *)
Definition demo_permuted : sys_mgr :=
  demo_sys (demo_hdr 1 3 2) [1; 1; 2; 2; 3; 3] [1; 1; 2; 2; 3; 3] [1; 2; 3; 1; 2; 3]
    (fillMigrateMachine 2 3 [1; 1; 2; 2; 3; 3] [1; 2; 3; 1; 2; 3]).2.

(** slaves that only change places are not counted as a migration, yet the check
    compares the tables word by word: with another bucket migrating, the report of that
    bucket leads to the failure of the assertion. *)
Lemma permuted_slaves_abort :
  ∃ s, reports demo_permuted [(1, 1)] = Some s ∧
    migrateMachine s = ∅ ∧ checkMigrateComplete s = None.
Proof. exists (default demo_permuted (reports demo_permuted [(1, 1)])). split_and!; vm_compute; reflexivity. Qed.

Lemma copyCell_length f b st i st' : copyCell f b st i = Some st' → length st'.1 = length st.1.
Proof.
  unfold copyCell. intros H. step_inv H. destruct (_ =? _); injection H as <-; [done|]. simpl.
  apply length_insert.
Qed.

Lemma copyLoop_length f b l cs r st' :
  foldl (λ st i, st ← st; copyCell f b st i) (Some (cs, r)) l = Some st' → length st'.1 = length cs.
Proof.
  revert cs r. induction l as [|i l IH]; intros cs r; cbn [foldl mbind option_bind]; [by intros [= <-]|].
  destruct (copyCell f b (cs, r) i) as [[cs1 r1]|] eqn:E.
  - intros H. rewrite (IH cs1 r1 H). by apply copyCell_length in E.
  - intros H. exfalso. clear -H. induction l as [|j l IHl]; [done|]. by apply IHl.
Qed.

(** the bound on the bucket of a report is off by one.  During a migration, a report of
    bucket number [bucketCount] is not refused: sent by the server found in the word it
    names, it reads outside of the mapping. *)
Lemma report_past_end s f :
  mapped (tableMgr s) = Some f → wf_file f → (1 <= copies f)%nat → (1 <= buckets f)%nat →
  isMigrating f = true → ∃ n, setMigratingHashtable (Z.of_nat (buckets f)) n s = None.
Proof.
  intros Hm Hwf HC HB Hmig. pose proof (entries_eq f Hwf) as He.
  destruct (lookup_lt_is_Some_2 (cells f) (entries f + buckets f)) as [n Hn];
    [rewrite (wf_cells f Hwf); nia|].
  exists n. unfold setMigratingHashtable. rewrite Hm. cbn [mbind option_bind].
  rewrite (proj2 (Z.ltb_ge _ _)) by (unfold buckets in *; lia). rewrite Hmig. cbn [negb orb].
  rewrite Nat2Z.id, Hn. cbn [mbind option_bind]. rewrite Z.eqb_refl. cbn [negb].
  destruct (copies f) as [|C] eqn:EC; [lia|]. rewrite seq_S, foldl_app. cbn [foldl].
  destruct (foldl _ _ (seq 0 C)) as [st|] eqn:Est; [|done]. apply copyLoop_length in Est.
  cbn [mbind option_bind]. unfold copyCell. change (0 + C)%nat with C.
  assert (Hidx : (C * buckets f + buckets f)%nat = entries f) by lia. rewrite Hidx.
  assert (Hu : Z.to_nat (u32 (Z.of_nat (entries f))) = entries f).
  { destruct Hwf as [(? & ? & ?) _]. unfold u32. rewrite Z.mod_small; [apply Nat2Z.id|].
    unfold entries, hashTableSize, u32. split; [lia|]. rewrite Z.mod_small by nia. nia. }
  rewrite Hu. destruct (st.1 !! (entries f + entries f)%nat) as [x|]; [|done]. cbn [mbind option_bind].
  rewrite lookup_ge_None_2; [done|]. rewrite Est, (wf_cells f Hwf). lia.
Qed.

(** *** Witnesses: bucket 0 goes from server 1 to server 2, bucket 1 stays *)

Definition demo_mig : sys_mgr :=
  demo_sys (demo_hdr 1 2 2) [1; 1; 2; 2] [1; 1; 2; 2] [2; 1; 1; 2] {[1 := 1]}.
Definition demo_mig_file : table_file :=
  Build_table_file (demo_hdr 1 2 2) [1; 1; 2; 2; 1; 1; 2; 2; 2; 1; 1; 2].

Lemma demo_mig_inv : mig_inv demo_mig demo_mig_file.
Proof.
  split; [done|split; [simpl; lia|done]|vm_compute; lia|vm_compute; done|].
  intros n. destruct (decide (n = 1)) as [->|Hne]; [vm_compute; done|].
  change (migrateMachine demo_mig) with ({[1 := 1]} : gmap Z Z). rewrite lookup_singleton_ne by done.
  symmetry. unfold pendingOf. rewrite (proj2 (filter_nil_iff _ _)); [done|].
  intros i Hi%elem_of_seq [_ Hn]. change (buckets demo_mig_file) with 2%nat in Hi.
  destruct i as [|[|i]]; [vm_compute in Hn; congruence..|lia].
Qed.

Lemma migration_completes_witness :
  ∃ s1 s2 d, reports demo_mig [(1, 1); (0, 1); (0, 1)] = Some s1 ∧
    checkMigrateComplete s1 = Some (true, s2) ∧ dHashTable demo_mig_file = Some d ∧ migrated d s2.
Proof.
  apply (migration_completes demo_mig demo_mig_file [1; 0; 0]%nat).
  - apply demo_mig_inv.
  - intros b Hb. change (buckets demo_mig_file) with 2%nat.
    rewrite !elem_of_cons, elem_of_nil in Hb. destruct Hb as [->|[->|[->|[]]]]; lia.
  - intros i Hi _. change (buckets demo_mig_file) with 2%nat in Hi. rewrite !elem_of_cons. lia.
Defined.

Lemma report_safe_witness :
  ∃ s' f', setMigratingHashtable 0 7 demo_mig = Some s' ∧ mig_inv s' f' ∧
    ((mcell demo_mig_file 0 0 = 7 ∧ ¬ pending f' 0 ∧
      ∀ i, (i < 2)%nat → i ≠ 0%nat → pending f' i ↔ pending demo_mig_file i) ∨
     (mcell demo_mig_file 0 0 ≠ 7 ∧ f' = demo_mig_file)).
Proof.
  apply (report_safe demo_mig demo_mig_file 0 7).
  - apply demo_mig_inv.
  - vm_compute. lia.
Defined.

Lemma check_waits_witness : checkMigrateComplete demo_mig = Some (false, demo_mig).
Proof.
  apply (check_waits demo_mig demo_mig_file 0).
  - apply demo_mig_inv.
  - vm_compute. lia.
  - exists 0%nat. split; [vm_compute; lia|vm_compute; discriminate].
Defined.

Definition demo_before : sys_mgr :=
  demo_sys (demo_hdr (-1) 2 2) [1; 1; 2; 2] [1; 1; 0; 0] [1; 1; 2; 2] ∅.
Definition demo_before_file : table_file :=
  Build_table_file (demo_hdr (-1) 2 2) [1; 1; 2; 2; 1; 1; 0; 0; 1; 1; 2; 2].
Definition demo_rebuilt : option sys_mgr := rebuild (λ n, n) 20 0 demo_before.
Definition demo_rebuilt_file : option table_file := s ← demo_rebuilt; mapped (tableMgr s).

Lemma rebuild_starts_migration_witness :
  ∃ s' f', demo_rebuilt = Some s' ∧ demo_rebuilt_file = Some f' ∧ mig_inv s' f'.
Proof.
  exists (default demo_before demo_rebuilt), (default demo_before_file demo_rebuilt_file).
  split; [vm_compute; reflexivity|]. split; [vm_compute; reflexivity|].
  eapply (rebuild_starts_migration (λ n, n) 20 0 demo_before _ demo_before_file).
  - reflexivity.
  - split; [simpl; lia|reflexivity].
  - vm_compute. lia.
  - reflexivity.
  - vm_compute. reflexivity.
  - reflexivity.
  - vm_compute. reflexivity.
  - vm_compute. reflexivity.
  - vm_compute. reflexivity.
  - intros i Hi. vm_compute in Hi. destruct i as [|[|i]]; [vm_compute; discriminate..|lia].
  - intros i Hi _. vm_compute in Hi. destruct i as [|[|i]]; [vm_compute; reflexivity..|lia].
Defined.

Lemma quick_table_blocks_migration_witness :
  ∃ s' s1, rebuildQuickTable demo_mig = Some s' ∧ reports s' [(0, 1); (1, 1)] = Some s1 ∧
    checkMigrateComplete s1 = Some (false, s1).
Proof.
  exists (default demo_mig (rebuildQuickTable demo_mig)).
  destruct (quick_table_blocks_migration demo_mig
    (default demo_mig (rebuildQuickTable demo_mig)) demo_mig_file [(0, 1); (1, 1)]) as (s1 & H1 & H2).
  - reflexivity.
  - apply demo_mig_inv.
  - vm_compute. lia.
  - reflexivity.
  - intros H. apply (f_equal (lookup 1)) in H. vm_compute in H. discriminate H.
  - vm_compute. reflexivity.
  - intros bn Hbn. rewrite !elem_of_cons, elem_of_nil in Hbn.
    destruct Hbn as [->|[->|[]]]; vm_compute; split; congruence.
  - exists s1. split; [vm_compute; reflexivity|]. split; [exact H1|exact H2].
Defined.

Lemma report_past_end_witness : ∃ n, setMigratingHashtable 2 n demo_mig = None.
Proof.
  apply (report_past_end demo_mig demo_mig_file).
  - reflexivity.
  - apply demo_mig_inv.
  - vm_compute. lia.
  - vm_compute. lia.
  - reflexivity.
Defined.
