(* ===== verification/Bitmap.v ===== *)
(** * The bit map and the set of valid buckets (src/src/public/bitmap.h,
      src/src/common/validbucket.h)

    [CBitMap] is an array of bytes with a count of the bits set.  The variants with and
    without the mutex do the same, so one definition models both.  [CValidBucketMgn] is an
    array of flags of fixed size.  [None] is an access outside of the array.

    The clients of a bit map use it as a set of numbers: the class [NumberSet] states that
    promise, and [bitmap_numberset] discharges it. *)
From S2P Require Import Prelude.

(** ** [CBitMap] *)

Record bitmap := { bitSize : Z; byteCount : Z; bitValue : option (list Z) }.

(** [resize_unsafe], the constructor with [flag = false]. *)
Definition CBitMap_resize (num : Z) (flag : bool) (m : bitmap) : bitmap :=
  let n := u32 (Z.shiftr num 3 + 1) in
  {| bitSize := if flag then num else 0; byteCount := n;
     bitValue := Some (replicate (Z.to_nat n) (if flag then 0xff else 0)) |}.

Definition CBitMap_new (num : Z) : bitmap :=
  let n := u32 (Z.shiftr num 3 + 1) in
  {| bitSize := 0; byteCount := n; bitValue := Some (replicate (Z.to_nat n) 0) |}.

Definition CBitMap_reset (m : bitmap) : bitmap :=
  match bitValue m with
  | None => m
  | Some _ => {| bitSize := bitSize m; byteCount := byteCount m;
                 bitValue := Some (replicate (Z.to_nat (byteCount m)) 0) |}
  end.

Definition CBitMap_set (num : Z) (m : bitmap) : option bitmap :=
  match bitValue m with
  | None => Some m
  | Some l =>
      let index := Z.to_nat (Z.shiftr num 3) in
      let pos := num mod 8 in
      b ← l !! index;
      let size := if negb (Z.land (Z.shiftr b pos) 1 =? 1) then u32 (bitSize m + 1) else bitSize m in
      Some {| bitSize := size; byteCount := byteCount m;
              bitValue := Some (<[index := u8 (Z.lor b (Z.shiftl 1 pos))]> l) |}
  end.

Definition CBitMap_clear (num : Z) (m : bitmap) : option bitmap :=
  match bitValue m with
  | None => Some m
  | Some l =>
      let index := Z.to_nat (Z.shiftr num 3) in
      let pos := num mod 8 in
      b ← l !! index;
      let size := if negb (Z.land (Z.shiftr b pos) 1 =? 0) then u32 (bitSize m - 1) else bitSize m in
      Some {| bitSize := size; byteCount := byteCount m;
              bitValue := Some (<[index := u8 (Z.land b (Z.lnot (Z.shiftl 1 pos)))]> l) |}
  end.

Definition CBitMap_test (num : Z) (m : bitmap) : option bool :=
  match bitValue m with
  | None => Some false
  | Some l =>
      b ← l !! Z.to_nat (Z.shiftr num 3);
      Some (negb (Z.land b (Z.shiftl 1 (num mod 8)) =? 0))
  end.

Definition CBitMap_size (m : bitmap) : Z := bitSize m.

(** ** [CValidBucketMgn] *)

Definition sMaxBucketNumber : Z := 65536.

Record valid_buckets := { m_bucketArray : list Z; m_fromMaster : bool }.

Definition ValidBucket_clean : valid_buckets :=
  {| m_bucketArray := replicate (Z.to_nat sMaxBucketNumber) 0; m_fromMaster := false |}.

Definition ValidBucket_add1 (l : list Z) (i : Z) : option (list Z) :=
  if (0 <=? i) && (i <? sMaxBucketNumber) then Some (<[Z.to_nat i := 1]> l) else None.

Definition ValidBucket_add (vec : list Z) (v : valid_buckets) : option valid_buckets :=
  l ← foldl (λ l i, l ← l; ValidBucket_add1 l i) (Some (m_bucketArray v)) vec;
  Some {| m_bucketArray := l; m_fromMaster := m_fromMaster v |}.

Definition setFromMaster (b : bool) (v : valid_buckets) : valid_buckets :=
  {| m_bucketArray := m_bucketArray v; m_fromMaster := b |}.

Definition ValidBucket_valid (bucket : Z) (v : valid_buckets) : option bool :=
  if negb (m_fromMaster v) then Some true
  else if (0 <=? bucket) && (bucket <? sMaxBucketNumber)
  then x ← m_bucketArray v !! Z.to_nat bucket; Some (x =? 1) else None.

(** ** A set of numbers below a bound *)

(** [M] keeps a set of numbers from 0 to below a capacity that adding does not change. *)
Class NumberSet (M : Type) := {
  ns_ok : M → Prop;
  ns_capacity : M → Z;
  ns_add : Z → M → option M;
  ns_test : Z → M → option bool;
  ns_add_ok m n : ns_ok m → 0 <= n < ns_capacity m →
    ∃ m', ns_add n m = Some m' ∧ ns_ok m' ∧ ns_capacity m' = ns_capacity m;
  ns_test_add m m' n k : ns_ok m → 0 <= n < ns_capacity m → 0 <= k < ns_capacity m →
    ns_add n m = Some m' → ns_test k m' = (b ← ns_test k m; Some (bool_decide (k = n) || b)) }.

(** ** The bit map as a finite set *)

(** The bytes are bytes, there are [count] ([byteCount]) of them, and the bits set are the set [s], whose
    size is the counter. *)
Record represents (m : bitmap) (s : gset Z) : Prop := {
  rep_bytes : ∃ l, bitValue m = Some l ∧ length l = Z.to_nat (byteCount m) ∧ Forall is_u8 l ∧
    ∀ n, 0 <= n → n ∈ s ↔ ∃ b, l !! Z.to_nat (n / 8) = Some b ∧ Z.testbit b (n mod 8) = true;
  rep_count : 0 <= byteCount m < 2 ^ 29;
  rep_bound : ∀ n, n ∈ s → 0 <= n;
  rep_size : bitSize m = Z.of_nat (size s) }.

Lemma shiftr3 n : Z.shiftr n 3 = n / 8.
Proof. by rewrite Z.shiftr_div_pow2. Qed.

Lemma testbit_land1 b k : 0 <= k → Z.land (Z.shiftr b k) 1 = Z.b2z (Z.testbit b k).
Proof.
  intros Hk. change 1 with (Z.ones 1) at 1. rewrite Z.land_ones by lia. change (2 ^ 1) with 2.
  rewrite <- Z.bit0_mod, Z.shiftr_spec by lia. by rewrite Z.add_0_l.
Qed.

Lemma bit_mask_test b k : 0 <= k → negb (Z.land b (Z.shiftl 1 k) =? 0) = Z.testbit b k.
Proof.
  intros Hk. rewrite Z.shiftl_1_l. destruct (Z.testbit b k) eqn:E.
  - apply negb_true_iff, Z.eqb_neq. intros H0. apply (f_equal (λ z, Z.testbit z k)) in H0.
    rewrite Z.land_spec, E, Z.pow2_bits_true, Z.testbit_0_l in H0 by lia. done.
  - apply negb_false_iff, Z.eqb_eq. apply Z.bits_inj'. intros j Hj.
    rewrite Z.land_spec, Z.testbit_0_l. destruct (decide (j = k)) as [->|Hne]; [by rewrite E|].
    rewrite Z.pow2_bits_false by lia. apply andb_false_r.
Qed.

(** The byte with bit [k] replaced by [v], and what its bits are. *)
Definition put_bit (v : bool) (b k : Z) : Z :=
  if v then u8 (Z.lor b (Z.shiftl 1 k)) else u8 (Z.land b (Z.lnot (Z.shiftl 1 k))).

Lemma put_bit_u8 v b k : is_u8 (put_bit v b k).
Proof. unfold put_bit, u8, is_u8. destruct v; apply Z.mod_pos_bound; lia. Qed.

Lemma put_bit_spec v b k j :
  0 <= k < 8 → 0 <= j < 8 → Z.testbit (put_bit v b k) j = if decide (j = k) then v else Z.testbit b j.
Proof.
  intros Hk Hj. unfold put_bit, u8. destruct v; rewrite Z.mod_pow2_bits_low by lia.
  - rewrite Z.lor_spec, Z.shiftl_1_l. destruct (decide (j = k)) as [->|Hne].
    + rewrite Z.pow2_bits_true by lia. apply orb_true_r.
    + rewrite Z.pow2_bits_false by lia. apply orb_false_r.
  - rewrite Z.land_spec, Z.lnot_spec, Z.shiftl_1_l by lia. destruct (decide (j = k)) as [->|Hne].
    + rewrite Z.pow2_bits_true by lia. apply andb_false_r.
    + rewrite Z.pow2_bits_false by lia. apply andb_true_r.
Qed.

Lemma div_mod_inj n k : n / 8 = k / 8 → n mod 8 = k mod 8 → n = k.
Proof. intros. rewrite (Z.div_mod n 8), (Z.div_mod k 8) by lia. lia. Qed.

(** One bit written: the set gains or loses that number and nothing else. *)
Definition put_num (v : bool) (n : Z) (s : gset Z) : gset Z := if v then {[n]} ∪ s else s ∖ {[n]}.

Lemma elem_put_num v n k s : k ∈ put_num v n s ↔ if decide (k = n) then v = true else k ∈ s.
Proof.
  unfold put_num. destruct v; [rewrite elem_of_union|rewrite elem_of_difference]; rewrite elem_of_singleton;
    destruct (decide (k = n)); split; intros; intuition congruence.
Qed.

Lemma bits_put v n (l : list Z) b (s : gset Z) :
  0 <= n → l !! Z.to_nat (n / 8) = Some b →
  (∀ k, 0 <= k → k ∈ s ↔ ∃ b, l !! Z.to_nat (k / 8) = Some b ∧ Z.testbit b (k mod 8) = true) →
  ∀ k, 0 <= k → k ∈ put_num v n s ↔
    ∃ b', <[Z.to_nat (n / 8) := put_bit v b (n mod 8)]> l !! Z.to_nat (k / 8) = Some b' ∧
          Z.testbit b' (k mod 8) = true.
Proof.
  intros Hn Hl Hs k Hk. rewrite elem_put_num. pose proof (Z.mod_pos_bound n 8). pose proof (Z.mod_pos_bound k 8).
  assert (0 <= n / 8) by (apply Z.div_pos; lia). assert (0 <= k / 8) by (apply Z.div_pos; lia).
  destruct (decide (k / 8 = n / 8)) as [Hd|Hd].
  - rewrite Hd, list_lookup_insert_eq by (by eapply lookup_lt_Some). split.
    + intros Hin. eexists. split; [done|]. rewrite put_bit_spec by lia.
      destruct (decide (k = n)) as [->|Hne]; [by rewrite decide_True|].
      rewrite decide_False by (intros ?; by apply Hne, div_mod_inj).
      apply Hs in Hin as (b' & Hb' & Ht); [|done]. rewrite Hd in Hb'. congruence.
    + intros (b' & [= <-] & Ht). rewrite put_bit_spec in Ht by lia.
      destruct (decide (k = n)) as [->|Hne]; [by rewrite decide_True in Ht|].
      rewrite decide_False in Ht by (intros ?; by apply Hne, div_mod_inj).
      apply Hs; [done|]. exists b. by rewrite Hd.
  - rewrite list_lookup_insert_ne by lia. rewrite decide_False by (intros ->; done). by apply Hs.
Qed.

Lemma size_put_num v n (s : gset Z) :
  Z.of_nat (size (put_num v n s)) =
    Z.of_nat (size s) + (if v then if decide (n ∈ s) then 0 else 1 else if decide (n ∈ s) then -1 else 0).
Proof.
  unfold put_num. destruct v, (decide (n ∈ s)) as [Hin|Hin].
  - rewrite (proj1 (subseteq_union_L {[n]} s)); [lia|]. by apply singleton_subseteq_l.
  - rewrite size_union by set_solver. rewrite size_singleton. lia.
  - rewrite size_difference by set_solver. rewrite size_singleton.
    assert (size s ≠ 0%nat); [|lia]. intros ?%size_empty_iff. set_solver.
  - rewrite difference_disjoint_L; [lia|]. by apply disjoint_singleton_r.
Qed.

(** [set] and [clear] are the two cases of writing a bit. *)
Definition CBitMap_put (v : bool) : Z → bitmap → option bitmap :=
  if v then CBitMap_set else CBitMap_clear.

Lemma size_bound m s :
  represents m s → Z.of_nat (size s) <= 8 * byteCount m.
Proof.
  intros [(l & _ & Hlen & _ & Hs) Hc Hb _].
  assert (Hsub : s ⊆ list_to_set (seqZ 0 (8 * byteCount m))).
  { intros n Hn. rewrite elem_of_list_to_set, elem_of_seqZ. pose proof (Hb n Hn).
    apply Hs in Hn as (b & Hl%lookup_lt_Some & _); [|done].
    assert (0 <= n / 8) by (apply Z.div_pos; lia). pose proof (Z.div_mod n 8). pose proof (Z.mod_pos_bound n 8). lia. }
  apply subseteq_size in Hsub. rewrite size_list_to_set in Hsub by apply NoDup_seqZ.
  rewrite length_seqZ in Hsub. lia.
Qed.

Lemma represents_put v n m s :
  represents m s → 0 <= n < 8 * byteCount m →
  ∃ m', CBitMap_put v n m = Some m' ∧ represents m' (put_num v n s) ∧ byteCount m' = byteCount m.
Proof.
  intros Hrep Hn. pose proof (size_bound m s Hrep) as Hsz.
  pose proof Hrep as [(l & Hl & Hlen & Hu8 & Hs) Hc Hb Hsize].
  assert (Hdiv : 0 <= n / 8 < byteCount m) by (split; [apply Z.div_pos; lia|apply Z.div_lt_upper_bound; lia]).
  destruct (lookup_lt_is_Some_2 l (Z.to_nat (n / 8))) as [b Hbl]; [lia|].
  pose proof (Z.mod_pos_bound n 8) as Hm8.
  assert (Hin : Z.testbit b (n mod 8) = bool_decide (n ∈ s)).
  { apply eq_bool_prop_intro. rewrite bool_decide_spec, (Hs n), Is_true_true by lia.
    split; [eauto|intros (b' & ? & ?); congruence]. }
  pose proof (size_put_num v n s) as Hsp.
  exists {| bitSize := Z.of_nat (size (put_num v n s)); byteCount := byteCount m;
            bitValue := Some (<[Z.to_nat (n / 8) := put_bit v b (n mod 8)]> l) |}.
  split_and!; [|split|done].
  - unfold CBitMap_put, CBitMap_set, CBitMap_clear, put_bit.
    destruct v; rewrite Hl, shiftr3, Hbl; cbn [mbind option_bind]; rewrite testbit_land1 by lia;
      rewrite Hsize, Hsp; do 2 f_equal; rewrite Hin; destruct (decide (n ∈ s)) as [Hi|Hi];
      [rewrite bool_decide_eq_true_2|rewrite bool_decide_eq_false_2|
       rewrite bool_decide_eq_true_2|rewrite bool_decide_eq_false_2]; try done;
      cbn [Z.b2z Z.eqb negb Pos.eqb]; unfold u32; rewrite ?Z.mod_small; lia.
  - eexists. split_and!; [done|by rewrite length_insert| |exact (bits_put v n l b s (proj1 Hn) Hbl Hs)].
    apply list.Forall_insert; [done|apply put_bit_u8].
  - done.
  - intros k Hk. rewrite elem_put_num in Hk. destruct (decide (k = n)); [lia|by apply Hb].
  - done.
Qed.

Lemma represents_test n m s :
  represents m s → 0 <= n < 8 * byteCount m → CBitMap_test n m = Some (bool_decide (n ∈ s)).
Proof.
  intros [(l & Hl & Hlen & _ & Hs) Hc _ _] Hn. unfold CBitMap_test. rewrite Hl, shiftr3.
  assert (Hdiv : 0 <= n / 8 < byteCount m) by (split; [apply Z.div_pos; lia|apply Z.div_lt_upper_bound; lia]).
  destruct (lookup_lt_is_Some_2 l (Z.to_nat (n / 8))) as [b Hbl]; [lia|]. rewrite Hbl. cbn [mbind option_bind].
  rewrite bit_mask_test by (apply Z.mod_pos_bound; lia). f_equal. symmetry. apply eq_bool_prop_intro.
  rewrite bool_decide_spec, (Hs n), Is_true_true by lia. split; [intros (b' & ? & ?); congruence|eauto].
Qed.

Lemma represents_new num m :
  0 <= num < 2 ^ 32 - 8 →
  represents (CBitMap_resize num false m) ∅ ∧ num < 8 * byteCount (CBitMap_resize num false m).
Proof.
  intros Hn. unfold CBitMap_resize. rewrite shiftr3. pose proof (Z.div_mod num 8). pose proof (Z.mod_pos_bound num 8).
  assert (0 <= num / 8) by (apply Z.div_pos; lia). unfold u32. rewrite Z.mod_small by lia.
  cbn [byteCount]. split; [split; cbn [bitValue byteCount bitSize]|lia].
  - eexists. split_and!; [done|by rewrite length_replicate| |].
    + apply list.Forall_replicate. unfold is_u8. lia.
    + intros n Hn0. split; [set_solver|]. intros (b & Hb & Ht).
      apply lookup_replicate in Hb as [-> _]. by rewrite Z.testbit_0_l in Ht.
  - lia.
  - set_solver.
  - by rewrite size_empty.
Qed.

#[export] Instance bitmap_numberset : NumberSet bitmap.
Proof.
  refine {| ns_ok m := ∃ s, represents m s; ns_capacity m := 8 * byteCount m;
            ns_add := CBitMap_set; ns_test := CBitMap_test |}.
  - intros m n [s Hs] Hn. destruct (represents_put true n m s) as (m' & H & Hr & Hc); [done..|].
    exists m'. split_and!; [done|by eexists|lia].
  - intros m m' n k [s Hs] Hn Hk Hset. destruct (represents_put true n m s) as (m'' & H & Hr & Hc); [done..|].
    simpl in H. assert (m'' = m') as -> by congruence.
    rewrite (represents_test k m s), (represents_test k m' (put_num true n s)) by (done || lia).
    cbn [mbind option_bind]. f_equal. apply eq_bool_prop_intro.
    rewrite orb_True, !bool_decide_spec, elem_put_num. destruct (decide (k = n)); intuition.
Defined.

(** ** Programs over a bit map *)

Inductive bit_op := OpSet (n : Z) | OpClear (n : Z) | OpTest (n : Z) | OpSize | OpResize (num : Z).

Definition bitmap_step (m : bitmap) (o : bit_op) : option (Z * bitmap) :=
  match o with
  | OpSet n => m ← CBitMap_set n m; Some (0, m)
  | OpClear n => m ← CBitMap_clear n m; Some (0, m)
  | OpTest n => b ← CBitMap_test n m; Some (Z.b2z b, m)
  | OpSize => Some (CBitMap_size m, m)
  | OpResize num => Some (0, CBitMap_resize num false m)
  end.

(** The specification: a finite set of numbers and the largest one allowed. *)
Definition set_step (ms : Z * gset Z) (o : bit_op) : Z * (Z * gset Z) :=
  let '(num, s) := ms in
  match o with
  | OpSet n => (0, (num, {[n]} ∪ s))
  | OpClear n => (0, (num, s ∖ {[n]}))
  | OpTest n => (Z.b2z (bool_decide (n ∈ s)), (num, s))
  | OpSize => (Z.of_nat (size s), (num, s))
  | OpResize num => (0, (num, ∅))
  end.

Definition op_ok (num : Z) (o : bit_op) : Prop :=
  match o with
  | OpSet n | OpClear n | OpTest n => 0 <= n <= num
  | OpSize => True
  | OpResize num => 0 <= num < 2 ^ 32 - 8
  end.

Fixpoint run_bitmap (m : bitmap) (os : list bit_op) : option (list Z) :=
  match os with
  | [] => Some []
  | o :: os => '(r, m) ← bitmap_step m o; rs ← run_bitmap m os; Some (r :: rs)
  end.

Fixpoint run_set (ms : Z * gset Z) (os : list bit_op) : list Z :=
  match os with
  | [] => []
  | o :: os => let '(r, ms) := set_step ms o in r :: run_set ms os
  end.

Fixpoint ops_ok (num : Z) (os : list bit_op) : Prop :=
  match os with
  | [] => True
  | o :: os => op_ok num o ∧ ops_ok (match o with OpResize n => n | _ => num end) os
  end.

Lemma bitmap_step_sim m num s o :
  represents m s → num < 8 * byteCount m → op_ok num o →
  ∃ r m', bitmap_step m o = Some (r, m') ∧ (set_step (num, s) o).1 = r ∧
    represents m' (set_step (num, s) o).2.2 ∧ (set_step (num, s) o).2.1 < 8 * byteCount m' ∧
    (set_step (num, s) o).2.1 = match o with OpResize n => n | _ => num end.
Proof.
  intros Hr Hn Hok. destruct o as [n|n|n| |k]; simpl in Hok.
  - destruct (represents_put true n m s) as (m' & H & Hr' & Hc); [done|lia|].
    exists 0, m'. simpl in *. rewrite H. cbn [mbind option_bind]. split_and!; [done..|lia|done].
  - destruct (represents_put false n m s) as (m' & H & Hr' & Hc); [done|lia|].
    exists 0, m'. simpl in *. rewrite H. cbn [mbind option_bind]. split_and!; [done..|lia|done].
  - eexists _, m. cbn [bitmap_step]. rewrite (represents_test n m s) by (done || lia).
    cbn [mbind option_bind]. split_and!; done.
  - exists (CBitMap_size m), m. simpl. split_and!; [done| |done..]. symmetry. apply Hr.
  - destruct (represents_new k m Hok) as [Hr' Hk]. eexists 0, _. simpl. split_and!; done.
Qed.

Lemma run_bitmap_sim os m num s :
  represents m s → num < 8 * byteCount m → ops_ok num os → run_bitmap m os = Some (run_set (num, s) os).
Proof.
  revert m num s. induction os as [|o os IH]; intros m num s Hr Hn Hok; [done|]. destruct Hok as [Ho Hok].
  destruct (bitmap_step_sim m num s o) as (r & m' & Hstep & Hres & Hr' & Hn' & Hnum); [done..|].
  cbn [run_bitmap run_set]. rewrite Hstep. cbn [mbind option_bind].
  destruct (set_step (num, s) o) as [r' [num' s']]. simpl in *. subst r' num'.
  by rewrite (IH m' _ s' Hr' Hn' Hok).
Qed.

(** A bit map is a finite set with its size.  Every program of set, clear, test, size and
    resize on numbers up to the size asked for runs without leaving the array and observes
    exactly what it observes on a set. *)
Lemma bitmap_refines_set num os :
  0 <= num < 2 ^ 32 - 8 → ops_ok num os →
  run_bitmap (CBitMap_new num) os = Some (run_set (num, ∅) os).
Proof.
  intros Hn Hok. destruct (represents_new num (CBitMap_new num) Hn) as [Hr Hb].
  by apply run_bitmap_sim.
Qed.

Lemma bitmap_refines_set_witness :
  run_bitmap (CBitMap_new 9) [OpSet 9; OpSet 3; OpSet 9; OpSize; OpClear 3; OpTest 3; OpTest 9; OpSize]
    = Some [0; 0; 0; 2; 0; 0; 1; 1].
Proof.
  rewrite (bitmap_refines_set 9 _ ltac:(lia)); [vm_compute; reflexivity|]. simpl. lia.
Defined.

(** [reset] empties the set and leaves the counter: afterwards no number is in the set,
    yet [size] still answers what it did before. *)
Lemma reset_keeps_size m s n :
  represents m s → 0 <= n < 8 * byteCount m →
  CBitMap_test n (CBitMap_reset m) = Some false ∧ CBitMap_size (CBitMap_reset m) = Z.of_nat (size s).
Proof.
  intros [(l & Hl & _) Hc _ Hs] Hn. unfold CBitMap_reset. rewrite Hl. split; [|done].
  unfold CBitMap_test. cbn [bitValue]. rewrite shiftr3, lookup_replicate_2; [done|].
  assert (n / 8 < byteCount m) by (apply Z.div_lt_upper_bound; lia). assert (0 <= n / 8) by (apply Z.div_pos; lia). lia.
Qed.

Lemma reset_keeps_size_witness :
  ∃ m, CBitMap_set 5 (CBitMap_new 9) = Some m ∧
    CBitMap_test 5 (CBitMap_reset m) = Some false ∧ CBitMap_size (CBitMap_reset m) = 1.
Proof.
  destruct (represents_new 9 (CBitMap_new 9) ltac:(lia)) as [Hr Hb].
  destruct (represents_put true 5 _ _ Hr) as (m & Hm & Hr' & Hc); [vm_compute; split; congruence|].
  exists m. split; [exact Hm|]. change 1 with (Z.of_nat (size (put_num true 5 (∅ : gset Z)))).
  apply (reset_keeps_size m _ 5 Hr'). rewrite Hc. vm_compute. split; congruence.
Defined.
