(* ===== verification/MetaServer.v ===== *)
(** * Requests to the meta server (src/src/meta/meta.cc)

    [MetaServer::process] takes a frame (length, channel, type and a protobuf message),
    runs the operation of [SysMgr] it names and answers with a frame on the same channel.

    The protobuf code is generated from src/src/proto and is a parameter: the class
    [MetaCodec] has the parsers and serialisers that the server and the storage servers use,
    with the documented property that parsing what was serialised gives the message back. *)
From S2P Require Import Prelude Buffers BufferSpec Frame TableBuilder MetaTable SysMgr.

(** [KvResponseHeartbeat]; the table as 64-bit words. *)
Record heartbeat_resp := {
  hb_code : Z;
  hb_clientversion : Z;
  hb_serverversion : Z;
  hb_bucketcount : Z;
  hb_copycount : Z;
  hb_nscapacityversion : Z;
  hb_nscapacity : gmap Z Z;
  hb_serverid : Z;
  hb_metaservers : list Z;
  hb_table : list Z }.

Inductive request :=
| ReqGetMeta
| ReqHeartbeat (serverid : Z)
| ReqFinishMigrate (bucketid serverid : Z).

Inductive response :=
| RespGetMeta (table : list Z) (metaversion bucketcount copycount : Z)
| RespHeartbeat (r : heartbeat_resp)
| RespReturn (metaversion : Z).

Definition request_type (r : request) : Z :=
  match r with
  | ReqGetMeta => KV_REQ_MESSAGE_GET_META
  | ReqHeartbeat _ => KV_REQ_HEARTBEAT_MESSAGE
  | ReqFinishMigrate _ _ => KV_REQ_MESSAGE_FINISH_MIGRATE
  end.

Definition response_type (r : response) : Z :=
  match r with
  | RespGetMeta _ _ _ _ => KV_RES_MESSAGE_GET_META
  | RespHeartbeat _ => KV_RES_HEARTBEAT_MESSAGE
  | RespReturn _ => KV_RES_MESSAGE_RETURN
  end.

(** Requests whose numbers fit their protobuf types. *)
Definition request_ok (r : request) : Prop :=
  match r with
  | ReqGetMeta => True
  | ReqHeartbeat n => 0 <= n < 2 ^ 64
  | ReqFinishMigrate b n => 0 <= b < 2 ^ 32 ∧ 0 <= n < 2 ^ 64
  end.

Class MetaCodec := {
  parseGetMeta : list Z → bool;
  parseHeartbeat : list Z → option Z;
  parseFinishMigrate : list Z → option (Z * Z);
  serializeRequest : request → list Z;
  serializeResponse : response → list Z;
  request_bytes r : Forall is_u8 (serializeRequest r);
  response_bytes r : Forall is_u8 (serializeResponse r);
  parse_getmeta : parseGetMeta (serializeRequest ReqGetMeta) = true;
  parse_heartbeat n : request_ok (ReqHeartbeat n) → parseHeartbeat (serializeRequest (ReqHeartbeat n)) = Some n;
  parse_finish b n : request_ok (ReqFinishMigrate b n) →
    parseFinishMigrate (serializeRequest (ReqFinishMigrate b n)) = Some (b, n) }.

(** ** Operations *)

Section Server.
Context `{MetaCodec} (junk : nat → Z) (sLocalServerAddr : Z).

Definition getMeta (s : sys_mgr) : option response :=
  f ← mapped (tableMgr s);
  Some (RespGetMeta (getHashTableDeflateData 0 s) (clientVersion (hdr f))
          (getBucketCount (tableMgr s)) (getCopyCount (tableMgr s))).

Definition heartbeatAnswer (rc : bool) (s : sys_mgr) : option heartbeat_resp :=
  f ← mapped (tableMgr s);
  Some {| hb_code := if rc then 0 else OP_RETURN_FAILED;
          hb_clientversion := clientVersion (hdr f);
          hb_serverversion := serverVersion (hdr f);
          hb_bucketcount := getBucketCount (tableMgr s);
          hb_copycount := getCopyCount (tableMgr s);
          hb_nscapacityversion := namespaceCapacityVersion (hdr f);
          hb_nscapacity := getNamespaceCapacityInfo s;
          hb_serverid := sLocalServerAddr;
          hb_metaservers := [sLocalServerAddr];
          hb_table := getHashTableDeflateData 1 s |}.

(** The three cases of the switch; [None] inside is "no answer". *)
Definition handle (now_sec mtype : Z) (value : list Z) (s : sys_mgr)
    : option (option response * sys_mgr) :=
  if mtype =? KV_REQ_MESSAGE_GET_META then
    if negb (parseGetMeta value) then Some (None, s)
    else r ← getMeta s; Some (Some r, s)
  else if mtype =? KV_REQ_HEARTBEAT_MESSAGE then
    match parseHeartbeat value with
    | None => Some (None, s)
    | Some n =>
        let '(rc, s) := doHeartbeat now_sec n s in
        r ← heartbeatAnswer rc s; Some (Some (RespHeartbeat r), s)
    end
  else if mtype =? KV_REQ_MESSAGE_FINISH_MIGRATE then
    match parseFinishMigrate value with
    | None => Some (None, s)
    | Some (b, n) =>
        s ← setMigratingHashtable (u32 b) n s;
        f ← mapped (tableMgr s);
        Some (Some (RespReturn (clientVersion (hdr f))), s)
    end
  else Some (None, s).

(** [process]: [tv_sec], [tv_usec] of the arrival, [now_us] and [now_sec] the clock. *)
Definition process (tv_sec tv_usec now_us now_sec : Z) (buf : list Z) (s : sys_mgr)
    : option (option (list Z) * sys_mgr) :=
  '(channelid, mtype, value) ← openFrame buf;
  let reqtime := u64 (tv_sec * 1000 * 1000 + tv_usec) in
  if u64 (reqtime + 1000 * 1000) <=? now_us then Some (None, s) else
  '(r, s) ← handle now_sec mtype value s;
  match r with
  | None => Some (None, s)
  | Some r =>
      out ← makeFrame junk channelid (response_type r) (serializeResponse r);
      Some (Some out, s)
  end.

End Server.

(** ** Serving a request *)

Section Serving.
Context `{MetaCodec} (junk : nat → Z) (Hjunk : ∀ i, is_u8 (junk i)) (self : Z).

(** What a request means, without frames and messages. *)
Definition serve (now : Z) (r : request) (s : sys_mgr) : option (response * sys_mgr) :=
  match r with
  | ReqGetMeta => a ← getMeta s; Some (a, s)
  | ReqHeartbeat n =>
      let '(rc, s) := doHeartbeat now n s in
      a ← heartbeatAnswer self rc s; Some (RespHeartbeat a, s)
  | ReqFinishMigrate b n =>
      s ← setMigratingHashtable b n s;
      f ← mapped (tableMgr s);
      Some (RespReturn (clientVersion (hdr f)), s)
  end.

Lemma handle_serve now r s a s' :
  request_ok r → serve now r s = Some (a, s') →
  handle self now (request_type r) (serializeRequest r) s = Some (Some a, s').
Proof using.
  intros Hok Hs. unfold handle. destruct r as [|n|b n]; cbn [request_type serve] in *.
  - change (KV_REQ_MESSAGE_GET_META =? KV_REQ_MESSAGE_GET_META) with true. rewrite parse_getmeta.
    cbn [negb]. apply bind_Some_inv in Hs as (x & -> & [= <- <-]). done.
  - change (KV_REQ_HEARTBEAT_MESSAGE =? KV_REQ_MESSAGE_GET_META) with false.
    change (KV_REQ_HEARTBEAT_MESSAGE =? KV_REQ_HEARTBEAT_MESSAGE) with true. rewrite parse_heartbeat by done.
    destruct (doHeartbeat now n s) as [rc s1]. apply bind_Some_inv in Hs as (x & -> & [= <- <-]). done.
  - change (KV_REQ_MESSAGE_FINISH_MIGRATE =? KV_REQ_MESSAGE_GET_META) with false.
    change (KV_REQ_MESSAGE_FINISH_MIGRATE =? KV_REQ_HEARTBEAT_MESSAGE) with false.
    change (KV_REQ_MESSAGE_FINISH_MIGRATE =? KV_REQ_MESSAGE_FINISH_MIGRATE) with true.
    rewrite parse_finish by done. destruct Hok as [Hb _]. unfold u32. rewrite Z.mod_small by done.
    apply bind_Some_inv in Hs as (s1 & -> & Hs). cbn [mbind option_bind].
    apply bind_Some_inv in Hs as (f & -> & [= <- <-]). done.
Qed.

Lemma request_type_u32 r : is_u32 (request_type r).
Proof using. destruct r; split; done. Qed.
Lemma response_type_u32 a : is_u32 (response_type a).
Proof using. destruct a; split; done. Qed.

Lemma process_answer tv_sec tv_usec now_us now buf s ch ty v a s' :
  openFrame buf = Some (ch, ty, v) →
  now_us < u64 (u64 (tv_sec * 1000 * 1000 + tv_usec) + 1000 * 1000) →
  handle self now ty v s = Some (Some a, s') →
  process junk self tv_sec tv_usec now_us now buf s =
    (out ← makeFrame junk ch (response_type a) (serializeResponse a); Some (Some out, s')).
Proof using.
  intros Ho Ht Hh. unfold process. rewrite Ho, bind_Some_eq. cbv beta iota.
  apply Z.leb_gt in Ht. rewrite Ht, Hh, bind_Some_eq. cbv beta iota. reflexivity.
Qed.

(** C29: a request frame is answered on its channel.  A request that a storage server frames,
    whose operation succeeds and which arrives in time, changes the state as the operation
    does, and the answer is a frame that opens to the same channel, the type of the answer
    and the serialised answer. *)
Theorem request_served tv_sec tv_usec now_us now r ch s a s' :
  request_ok r → is_u32 ch → serve now r s = Some (a, s') →
  12 + Z.of_nat (length (serializeRequest r)) <= size_limit →
  12 + Z.of_nat (length (serializeResponse a)) <= size_limit →
  now_us < u64 (u64 (tv_sec * 1000 * 1000 + tv_usec) + 1000 * 1000) →
  ∃ frame out, makeFrame junk ch (request_type r) (serializeRequest r) = Some frame ∧
    process junk self tv_sec tv_usec now_us now frame s = Some (Some out, s') ∧
    openFrame out = Some (ch, response_type a, serializeResponse a).
Proof using Hjunk.
  intros Hok Hch Hs Hq Ha Ht. exists (frameBytes ch (request_type r) (serializeRequest r)),
    (frameBytes ch (response_type a) (serializeResponse a)).
  pose proof (request_type_u32 r) as Hr. pose proof (response_type_u32 a) as Hra.
  pose proof (request_bytes r) as Hrb. pose proof (response_bytes a) as Hab.
  split; [by apply makeFrame_bytes|]. split; [|by apply openFrame_bytes].
  rewrite (process_answer _ _ _ _ _ _ ch (request_type r) (serializeRequest r) a s');
    [|by apply openFrame_bytes|exact Ht|by apply handle_serve].
  rewrite makeFrame_bytes by assumption. rewrite bind_Some_eq. reflexivity.
Qed.

(** A request that is a second old when it is read is dropped: nothing is answered and
    the state stays. *)
Lemma late_request_dropped tv_sec tv_usec now_us now r ch s :
  is_u32 ch → 12 + Z.of_nat (length (serializeRequest r)) <= size_limit →
  u64 (u64 (tv_sec * 1000 * 1000 + tv_usec) + 1000 * 1000) <= now_us →
  ∃ frame, makeFrame junk ch (request_type r) (serializeRequest r) = Some frame ∧
    process junk self tv_sec tv_usec now_us now frame s = Some (None, s).
Proof using Hjunk.
  intros Hch Hq Ht. exists (frameBytes ch (request_type r) (serializeRequest r)).
  pose proof (request_type_u32 r) as Hr. pose proof (request_bytes r) as Hrb.
  split; [by apply makeFrame_bytes|].
  unfold process. rewrite openFrame_bytes, bind_Some_eq by assumption. cbv beta iota.
  apply Z.leb_le in Ht. rewrite Ht. reflexivity.
Qed.
End Serving.

(** ** Witnesses: fixed-width messages *)

Definition demo_parseFinish (l : list Z) : option (Z * Z) :=
  if decide (length l = 12%nat) then Some (be_value (take 4 l), be_value (drop 4 l)) else None.
Definition demo_request (r : request) : list Z :=
  match r with
  | ReqGetMeta => []
  | ReqHeartbeat n => be_bytes 8 n
  | ReqFinishMigrate b n => be_bytes 4 b ++ be_bytes 8 n
  end.
Definition demo_response (r : response) : list Z :=
  match r with
  | RespGetMeta t v b c => mjoin (be_bytes 8 <$> v :: b :: c :: t)
  | RespHeartbeat a => mjoin (be_bytes 8 <$> hb_code a :: hb_serverversion a :: hb_table a)
  | RespReturn v => be_bytes 8 v
  end.

Lemma demo_words_u8 l : Forall is_u8 (mjoin (be_bytes 8 <$> l)).
Proof.
  induction l as [|x l IH]; [by apply Forall_nil|]. rewrite fmap_cons. cbn [mjoin list_join].
  apply Forall_app. split; [apply be_bytes_u8|exact IH].
Qed.

Definition demo_codec : MetaCodec.
Proof.
  refine {| parseGetMeta l := bool_decide (l = []);
            parseHeartbeat l := if decide (length l = 8%nat) then Some (be_value l) else None;
            parseFinishMigrate := demo_parseFinish;
            serializeRequest := demo_request; serializeResponse := demo_response |}.
  - intros [|n|b n]; cbn [demo_request]; [by apply Forall_nil|apply be_bytes_u8|].
    apply Forall_app. split; apply be_bytes_u8.
  - intros [t v b c|a|v]; [apply demo_words_u8..|apply be_bytes_u8].
  - reflexivity.
  - intros n Hn. cbn [demo_request]. rewrite decide_True by apply length_be_bytes.
    by rewrite be_value_bytes_id.
  - intros b n [Hb Hn]. cbn [demo_request]. unfold demo_parseFinish.
    rewrite decide_True by (rewrite length_app, !length_be_bytes; done).
    rewrite take_app_length', drop_app_length' by (by rewrite length_be_bytes).
    by rewrite !be_value_bytes_id.
Defined.

Definition demo_meta : sys_mgr :=
  {| tableMgr := {| mapped := Some {| hdr := Build_meta_hdr sKvHtmVersion 3 4 1 5 0 (-1) 1 2; cells := [7; 7; 7; 7; 7; 7] |};
                    fileOpened := true; deflateForClient := [7; 7]; deflateForDataServer := [7; 7; 7; 7] |};
     nodelist := {[7 := {| serverid := 7; lasttime := 0; stat := Initial |}]};
     namespaces := ∅; availableServers := {[7]}; migrateMachine := ∅;
     minConfigVersion := 10; sysPosMask := sDefaultPosMask |}.

Lemma request_served_witness :
  ∃ a s' frame out, serve 1 10 (ReqHeartbeat 7) demo_meta = Some (a, s') ∧
    @makeFrame demo_junk 5 KV_REQ_HEARTBEAT_MESSAGE (demo_request (ReqHeartbeat 7)) = Some frame ∧
    @process demo_codec demo_junk 1 10 0 10000001 10 frame demo_meta = Some (Some out, s') ∧
    openFrame out = Some (5, KV_RES_HEARTBEAT_MESSAGE, demo_response a).
Proof.
  exists (default (RespReturn 0) (fst <$> serve 1 10 (ReqHeartbeat 7) demo_meta)),
    (default demo_meta (snd <$> serve 1 10 (ReqHeartbeat 7) demo_meta)).
  destruct (@request_served demo_codec demo_junk demo_junk_u8 1 10 0 10000001 10 (ReqHeartbeat 7) 5 demo_meta
    (default (RespReturn 0) (fst <$> serve 1 10 (ReqHeartbeat 7) demo_meta))
    (default demo_meta (snd <$> serve 1 10 (ReqHeartbeat 7) demo_meta))) as (frame & out & H1 & H2 & H3).
  - vm_compute. split; congruence.
  - vm_compute. split; congruence.
  - vm_compute. reflexivity.
  - vm_compute. congruence.
  - vm_compute. congruence.
  - vm_compute. reflexivity.
  - exists frame, out. split; [vm_compute; reflexivity|]. split; [exact H1|]. split; [exact H2|exact H3].
Defined.
