(* ===== verification/Storage.v ===== *)
(** * Tables and migrations at a storage server (src/src/storage/heartbeat.cc,
      migrate_mgr.cc, bucket_mgr.{h,cc})

    A storage server asks the meta server for the tables with its heartbeat.  A newer table
    makes it open the logs of the buckets it holds, know the slaves of the buckets it is
    master of, and note the buckets it has to hand over, which the migration thread then
    reports to the meta server one by one.

    [self] is the address of the server.  [None] is an access outside of an array. *)
From S2P Require Import Prelude TableBuilder MetaTable SysMgr Migration MetaServer.

(** What the heartbeat sees of a [BucketMgr]: whether [initial] was called, and its peers. *)
Record bucket_mgr := { opened : bool; peers : gset Z }.

Definition BucketMgr_new : bucket_mgr := {| opened := false; peers := ∅ |}.
Definition BucketMgr_initial (m : bucket_mgr) : bucket_mgr := {| opened := true; peers := peers m |}.

Definition addPeer (srv_id : Z) (m : bucket_mgr) : bool * bucket_mgr :=
  if bool_decide (srv_id ∈ peers m) then (false, m)
  else (true, {| opened := opened m; peers := {[srv_id]} ∪ peers m |}).

Definition rmvPeer (srv_id : Z) (m : bucket_mgr) : bool * bucket_mgr :=
  if bool_decide (srv_id ∈ peers m)
  then (true, {| opened := opened m; peers := peers m ∖ {[srv_id]} |}) else (false, m).

(** The parts of [StorageServer] the heartbeat changes. *)
Record storage := {
  st_bucketCount : Z;
  st_copyCount : Z;
  metaVersion : Z;
  bucketMgr : option (list bucket_mgr);
  migrates : gmap Z (list Z) }.

Definition set_migrates (m : gmap Z (list Z)) (s : storage) : storage :=
  Build_storage (st_bucketCount s) (st_copyCount s) (metaVersion s) (bucketMgr s) m.
Definition set_bucketMgr (m : list bucket_mgr) (s : storage) : storage :=
  Build_storage (st_bucketCount s) (st_copyCount s) (metaVersion s) (Some m) (migrates s).

(** The answer to a heartbeat: a failed call, another message, bytes that do not parse, or
    the message. *)
Inductive hb_answer := HbFailed | HbUnexpected | HbUnparsed | HbMessage (m : heartbeat_resp).

Section Server.
Context (self : Z).

Definition word (t : list Z) (i : Z) : option Z := t !! Z.to_nat i.

(** ** Buckets to hand over *)

(** Whether [dest] serves bucket [index] in the table in use, looking at copies [js]. *)
Fixpoint findSource (t : list Z) (b index dest : Z) (js : list Z) : option bool :=
  match js with
  | [] => Some false
  | j :: js =>
      s ← word t (u32 (index + u32 (b * j)));
      if dest =? s then Some true else findSource t b index dest js
  end.

Definition calculateCopy (t : list Z) (b c index : Z) (mg : gmap Z (list Z)) (i : Z)
    : option (gmap Z (list Z)) :=
  dest ← word t (u32 (b * c) + u32 (index + u32 (b * i)));
  found ← findSource t b index dest (seqZ 0 c);
  Some (if (found : bool) then mg else <[index := default [] (mg !! index) ++ [dest]]> mg).

Definition calculateMigrates (t : list Z) (index : Z) (s : storage) : option storage :=
  mg ← foldl (λ mg i, mg ← mg; calculateCopy t (st_bucketCount s) (st_copyCount s) index mg i)
             (Some (migrates s)) (seqZ 0 (st_copyCount s));
  Some (set_migrates mg s).

Definition updateEntry (t : list Z) (s : storage) (i : Z) : option storage :=
  x ← word t i;
  if (self =? x) && (i <? st_bucketCount s) &&
     (u32 (st_copyCount s * st_bucketCount s) <? Z.of_nat (length t))
  then calculateMigrates t i s else Some s.

(** [updateServerTable]: also whether the migration thread is woken. *)
Definition updateServerTable (t : list Z) (s : storage) : option (bool * storage) :=
  s' ← foldl (λ s i, s ← s; updateEntry t s i) (Some s)
             (seqZ 0 (u32 (st_copyCount s * st_bucketCount s)));
  Some (negb (bool_decide (migrates s' = ∅)), s').

(** ** The heartbeat *)

(** One copy [j] of bucket [i]: a slave becomes a peer, an own entry opens the log. *)
Definition holdCopy (t : list Z) (b i : Z) (m : bucket_mgr) (j : Z) : option bucket_mgr :=
  x0 ← word t i;
  x ← word t (u32 (i + u32 (j * b)));
  let m := if self =? x0 then (addPeer x m).2 else m in
  Some (if negb (self =? x) then m else BucketMgr_initial m).

Definition holdBucket (t : list Z) (b c : Z) (ms : list bucket_mgr) (i : Z) : option (list bucket_mgr) :=
  x0 ← word t i;
  m ← ms !! Z.to_nat i;
  let m := if self =? x0 then BucketMgr_initial m else m in
  m ← foldl (λ m j, m ← m; holdCopy t b i m j) (Some m) (seqZ 1 (c - 1));
  Some (<[Z.to_nat i := m]> ms).

Definition hbCallback (a : hb_answer) (s : storage) : option storage :=
  match a with
  | HbFailed | HbUnexpected | HbUnparsed => Some s
  | HbMessage m =>
      let ms := match bucketMgr s with
                | Some ms => ms
                | None => replicate (Z.to_nat (hb_bucketcount m)) BucketMgr_new
                end in
      let s := Build_storage (hb_bucketcount m) (hb_copycount m) (metaVersion s) (Some ms) (migrates s) in
      if hb_serverversion m <=? metaVersion s then Some s else
      ms ← foldl (λ ms i, ms ← ms; holdBucket (hb_table m) (st_bucketCount s) (st_copyCount s) ms i)
                 (Some ms) (seqZ 0 (st_bucketCount s));
      '(_, s) ← updateServerTable (hb_table m)
                  (Build_storage (st_bucketCount s) (st_copyCount s) (hb_serverversion m) (Some ms) (migrates s));
      Some s
  end.

(** ** The migration thread *)

(** One turn of [migrateRun]: the buckets in the order of the map, each reported as migrated
    (the transfer itself is not implemented), and nothing left to do. *)
Definition migrateRun (s : storage) : list (Z * Z) * storage :=
  ((λ b, (b, self)) <$> merge_sort Z.le (elements (dom (migrates s))), set_migrates ∅ s).

End Server.

(** ** Rows of a table of [b] buckets and [c] copies at word offset [off] *)

Definition cellAt (t : list Z) (b off i j : Z) : Z := default 0 (t !! Z.to_nat (off + (i + b * j))).
Definition rowAt (t : list Z) (b c off i : Z) : list Z := cellAt t b off i <$> seqZ 0 c.

(** Servers of the destination that do not serve bucket [i] now. *)
Definition missing (t : list Z) (b c i : Z) : list Z :=
  filter (λ d, d ∉ rowAt t b c 0 i) (rowAt t b c (b * c) i).

(** Adding them to the noted migrations. *)
Definition note (i : Z) (l : list Z) (mg : gmap Z (list Z)) : gmap Z (list Z) :=
  if decide (l = []) then mg else <[i := default [] (mg !! i) ++ l]> mg.

Lemma note_app i l1 l2 mg : note i l2 (note i l1 mg) = note i (l1 ++ l2) mg.
Proof.
  unfold note. destruct (decide (l1 = [])) as [->|H1]; [done|].
  rewrite (decide_False (P := l1 ++ l2 = [])) by (by intros [? ?]%app_eq_nil).
  destruct (decide (l2 = [])) as [->|H2]; [by rewrite app_nil_r|].
  by rewrite lookup_insert_eq, insert_insert_eq, app_assoc.
Qed.

Lemma note_lookup i l mg k :
  note i l mg !! k = if decide (k = i ∧ l ≠ []) then Some (default [] (mg !! i) ++ l) else mg !! k.
Proof.
  unfold note. destruct (decide (l = [])) as [->|Hl].
  - rewrite decide_False; [done|]. by intros [_ ?].
  - destruct (decide (k = i)) as [->|Hne].
    + rewrite lookup_insert_eq, decide_True by done. done.
    + rewrite lookup_insert_ne, decide_False by (done || by intros [? _]). done.
Qed.

Section Tables.
Context (t : list Z) (b c : Z) (Hb : 0 < b) (Hc : 0 < c) (Hbc : 2 * (b * c) < 2 ^ 31)
  (Hlen : 2 * (b * c) <= Z.of_nat (length t)).

Lemma cell_index off i j :
  0 <= off <= b * c → 0 <= i < b → 0 <= j < c →
  u32 (i + u32 (b * j)) = i + b * j ∧ 0 <= off + (i + b * j) < Z.of_nat (length t).
Proof using Hb Hc Hbc Hlen.
  intros Ho Hi Hj. assert (0 <= b * j) by nia. assert (i + b * j < b * c) by nia.
  unfold u32. rewrite (Z.mod_small (b * j)) by lia. rewrite Z.mod_small by lia. lia.
Qed.

Lemma word_cell off i j :
  0 <= off <= b * c → 0 <= i < b → 0 <= j < c →
  word t (off + u32 (i + u32 (b * j))) = Some (cellAt t b off i j).
Proof using Hb Hc Hbc Hlen.
  intros Ho Hi Hj. destruct (cell_index off i j) as [-> Hr]; [done..|]. unfold word, cellAt.
  destruct (lookup_lt_is_Some_2 t (Z.to_nat (off + (i + b * j)))) as [x ->]; [lia|done].
Qed.

Lemma findSource_spec i dest js :
  0 <= i < b → (∀ j, j ∈ js → 0 <= j < c) →
  findSource t b i dest js = Some (bool_decide (dest ∈ cellAt t b 0 i <$> js)).
Proof using Hb Hc Hbc Hlen.
  intros Hi. induction js as [|j js IH]; intros Hjs.
  - cbn [findSource fmap list_fmap]. by rewrite bool_decide_eq_false_2 by apply not_elem_of_nil.
  - cbn [findSource fmap list_fmap]. pose proof (word_cell 0 i j) as Hw. rewrite Z.add_0_l in Hw.
    rewrite Hw by (done || nia || (apply Hjs; left)). cbn [mbind option_bind].
    destruct (Z.eqb_spec dest (cellAt t b 0 i j)) as [->|Hne].
    + rewrite bool_decide_eq_true_2; [done|left].
    + rewrite IH by (intros; apply Hjs; by right). f_equal. apply bool_decide_ext.
      change (list_fmap _ _ (cellAt t b 0 i) js) with (cellAt t b 0 i <$> js).
      rewrite elem_of_cons. tauto.
Qed.

Lemma calculateCopy_spec i j mg :
  0 <= i < b → 0 <= j < c →
  calculateCopy t b c i mg j =
    Some (note i (filter (λ d, d ∉ rowAt t b c 0 i) [cellAt t b (b * c) i j]) mg).
Proof using Hb Hc Hbc Hlen.
  intros Hi Hj. unfold calculateCopy. assert (0 <= b * c) by nia.
  assert (u32 (b * c) = b * c) as -> by (unfold u32; rewrite Z.mod_small; lia).
  rewrite word_cell by (done || lia). cbn [mbind option_bind].
  rewrite findSource_spec by (done || (intros ? ?%elem_of_seqZ; lia)). cbn [mbind option_bind]. f_equal.
  fold (rowAt t b c 0 i). rewrite filter_cons, filter_nil. unfold note. case_bool_decide as E.
  - rewrite (decide_False (P := _ ∉ _)) by tauto. by rewrite decide_True.
  - rewrite (decide_True (P := _ ∉ _)) by done. by rewrite decide_False.
Qed.

Lemma calculateMigrates_spec i s :
  0 <= i < b → st_bucketCount s = b → st_copyCount s = c →
  calculateMigrates t i s = Some (set_migrates (note i (missing t b c i) (migrates s)) s).
Proof using Hb Hc Hbc Hlen.
  intros Hi Hsb Hsc. unfold calculateMigrates. rewrite Hsb, Hsc. unfold missing, rowAt at 2.
  assert (Hg : ∀ js mg, (∀ j, j ∈ js → 0 <= j < c) →
    foldl (λ mg j, mg ← mg; calculateCopy t b c i mg j) (Some mg) js =
    Some (note i (filter (λ d, d ∉ rowAt t b c 0 i) (cellAt t b (b * c) i <$> js)) mg)).
  { induction js as [|j js IH]; intros mg Hjs; [done|]. cbn [foldl mbind option_bind].
    rewrite calculateCopy_spec by (done || (apply Hjs; left)). rewrite IH by (intros; apply Hjs; by right).
    rewrite note_app, <- list.filter_app. done. }
  rewrite Hg by (intros ? ?%elem_of_seqZ; lia). done.
Qed.

Context (self : Z).

(** What [updateServerTable] does to the entry of bucket [i]. *)
Definition handedOver (i : Z) : list Z :=
  if decide (0 <= i < b ∧ t !! Z.to_nat i = Some self) then missing t b c i else [].

Lemma updateEntry_spec i s :
  0 <= i < b * c → st_bucketCount s = b → st_copyCount s = c →
  updateEntry self t s i = Some (set_migrates (note i (handedOver i) (migrates s)) s).
Proof using Hb Hc Hbc Hlen.
  intros Hi Hsb Hsc. unfold updateEntry, word.
  destruct (lookup_lt_is_Some_2 t (Z.to_nat i)) as [x Hx]; [lia|]. rewrite Hx. cbn [mbind option_bind].
  rewrite Hsb, Hsc. unfold u32. rewrite (Z.mul_comm c b), Z.mod_small by lia.
  rewrite (proj2 (Z.ltb_lt (b * c) _)) by lia. rewrite andb_true_r. unfold handedOver. rewrite Hx.
  destruct (Z.eqb_spec self x) as [<-|Hne], (Z.ltb_spec i b); cbn [andb].
  - rewrite decide_True by (split; [lia|done]). apply calculateMigrates_spec; [lia|done|done].
  - rewrite decide_False by lia. by destruct s.
  - rewrite decide_False by (intros [_ [= ->]]; done). by destruct s.
  - rewrite decide_False by lia. by destruct s.
Qed.

Lemma updateLoop_spec ks s :
  NoDup ks → (∀ i, i ∈ ks → 0 <= i < b * c) → st_bucketCount s = b → st_copyCount s = c →
  ∃ mg, foldl (λ s i, s ← s; updateEntry self t s i) (Some s) ks = Some (set_migrates mg s) ∧
    ∀ k, mg !! k = if decide (k ∈ ks ∧ handedOver k ≠ [])
                   then Some (default [] (migrates s !! k) ++ handedOver k) else migrates s !! k.
Proof using Hb Hc Hbc Hlen.
  revert s. induction ks as [|i ks IH]; intros s Hnd His Hsb Hsc.
  - exists (migrates s). split; [by destruct s|]. intros k. rewrite decide_False; [done|].
    intros [Hk _]. by apply not_elem_of_nil in Hk.
  - apply list.NoDup_cons in Hnd as [Hi Hnd]. cbn [foldl mbind option_bind].
    rewrite updateEntry_spec by (done || apply His; left).
    destruct (IH (set_migrates (note i (handedOver i) (migrates s)) s)) as (mg & Hf & Hmg);
      [done|intros; apply His; by right|done|done|].
    exists mg. split; [exact Hf|]. intros k. rewrite Hmg. cbn [migrates set_migrates].
    rewrite !note_lookup. destruct (decide (k = i)) as [->|Hne].
    + rewrite (decide_False (P := i ∈ ks ∧ _)) by (intros [? _]; done).
      destruct (decide (handedOver i = [])) as [E|E]; [rewrite !decide_False by (intros [_ ?]; done); done|].
      rewrite !decide_True by (first [split; [left|done]|done]). done.
    + rewrite !(decide_False (P := k = i ∧ _)) by (intros [? _]; done). apply decide_ext.
      rewrite elem_of_cons. tauto.
Qed.

Lemma updateServerTable_spec s :
  st_bucketCount s = b → st_copyCount s = c →
  ∃ mg, updateServerTable self t s = Some (negb (bool_decide (mg = ∅)), set_migrates mg s) ∧
    ∀ k, mg !! k = if decide (handedOver k = []) then migrates s !! k
                   else Some (default [] (migrates s !! k) ++ handedOver k).
Proof using Hb Hc Hbc Hlen.
  intros Hsb Hsc. unfold updateServerTable. rewrite Hsb, Hsc. unfold u32.
  rewrite (Z.mul_comm c b), Z.mod_small by nia.
  destruct (updateLoop_spec (seqZ 0 (b * c)) s) as (mg & -> & Hmg);
    [apply NoDup_seqZ|intros ? ?%elem_of_seqZ; lia|done|done|].
  exists mg. split; [done|]. intros k. rewrite Hmg. unfold handedOver.
  destruct (decide (0 <= k < b ∧ t !! Z.to_nat k = Some self)) as [[Hk _]|Hk].
  - destruct (decide (missing t b c k = [])) as [E|E]; [by rewrite decide_False by tauto|].
    rewrite decide_True; [done|]. split; [apply elem_of_seqZ; nia|done].
  - rewrite decide_False by tauto. by rewrite decide_True.
Qed.
(** What a newer table does to the manager of bucket [i]. *)
Definition held (i : Z) (m : bucket_mgr) : bucket_mgr :=
  {| opened := opened m || bool_decide (self ∈ rowAt t b c 0 i);
     peers := if decide (cellAt t b 0 i 0 = self)
              then list_to_set (tail (rowAt t b c 0 i)) ∪ peers m else peers m |}.

Lemma addPeer_ext x m :
  opened (addPeer x m).2 = opened m ∧ peers (addPeer x m).2 = {[x]} ∪ peers m.
Proof using.
  unfold addPeer. case_bool_decide; cbn [snd opened peers]; split; try done.
  symmetry. by apply subseteq_union_L, singleton_subseteq_l.
Qed.

Lemma word_master i : 0 <= i < b → word t i = Some (cellAt t b 0 i 0).
Proof using Hb Hc Hbc Hlen.
  intros Hi. pose proof (word_cell 0 i 0) as Hw. rewrite Z.mul_0_r in Hw.
  assert (0 <= b * c) by nia. unfold u32 in Hw at 2. rewrite Z.mod_0_l, Z.add_0_l, Z.add_0_r in Hw by lia.
  unfold u32 in Hw. rewrite Z.mod_small in Hw by nia. apply Hw; lia.
Qed.

Lemma holdCopy_spec i j m :
  0 <= i < b → 0 <= j < c →
  holdCopy self t b i m j =
    let m := if self =? cellAt t b 0 i 0 then (addPeer (cellAt t b 0 i j) m).2 else m in
    Some (if negb (self =? cellAt t b 0 i j) then m else BucketMgr_initial m).
Proof using Hb Hc Hbc Hlen.
  intros Hi Hj. unfold holdCopy. rewrite (word_master i Hi).
  pose proof (word_cell 0 i j) as Hw. rewrite Z.add_0_l in Hw.
  cbn [mbind option_bind]. rewrite (Z.mul_comm j b), Hw by (done || nia). done.
Qed.

Lemma holdCopies_spec i js m :
  0 <= i < b → (∀ j, j ∈ js → 0 <= j < c) →
  foldl (λ m j, m ← m; holdCopy self t b i m j) (Some m) js =
    Some {| opened := opened m || bool_decide (self ∈ cellAt t b 0 i <$> js);
            peers := if decide (cellAt t b 0 i 0 = self)
                     then list_to_set (cellAt t b 0 i <$> js) ∪ peers m else peers m |}.
Proof using Hb Hc Hbc Hlen.
  intros Hi. revert m. induction js as [|j js IH]; intros m Hjs.
  - cbn [foldl fmap list_fmap list_to_set]. rewrite bool_decide_eq_false_2 by apply not_elem_of_nil.
    rewrite orb_false_r, union_empty_l_L. destruct m, (decide _); done.
  - cbn [foldl mbind option_bind]. rewrite holdCopy_spec by (done || (apply Hjs; left)).
    rewrite IH by (intros; apply Hjs; by right). clear IH. f_equal.
    destruct (addPeer_ext (cellAt t b 0 i j) m) as [Ho Hp]. rewrite fmap_cons. cbn [list_to_set].
    assert (Hel : bool_decide (self ∈ cellAt t b 0 i j :: (cellAt t b 0 i <$> js)) =
      (self =? cellAt t b 0 i j) || bool_decide (self ∈ cellAt t b 0 i <$> js)).
    { apply eq_bool_prop_intro. rewrite orb_True, !bool_decide_spec, elem_of_cons, Is_true_true, Z.eqb_eq.
      split; intros; tauto. }
    rewrite Hel. destruct (Z.eqb_spec self (cellAt t b 0 i 0)) as [E0|E0].
    + rewrite !decide_True by done.
      destruct (self =? cellAt t b 0 i j); cbn [negb BucketMgr_initial opened peers orb]; rewrite ?Ho, Hp;
        f_equal; rewrite ?orb_true_r; try done;
        by rewrite (assoc_L (∪)), (comm_L (∪) (list_to_set _) {[_]}).
    + rewrite !decide_False by congruence.
      destruct (self =? cellAt t b 0 i j); cbn [negb BucketMgr_initial opened peers orb]; f_equal.
      by rewrite orb_true_r.
Qed.

Lemma holdBucket_spec i ms m :
  0 <= i < b → ms !! Z.to_nat i = Some m →
  holdBucket self t b c ms i = Some (<[Z.to_nat i := held i m]> ms).
Proof using Hb Hc Hbc Hlen.
  intros Hi Hm. unfold holdBucket. rewrite (word_master i Hi), Hm. cbn [mbind option_bind].
  rewrite holdCopies_spec by (done || (intros ? ?%elem_of_seqZ; lia)). cbn [mbind option_bind].
  do 2 f_equal. unfold held, rowAt. rewrite (seqZ_cons 0 c) by lia. cbn [fmap list_fmap tail].
  change (Z.succ 0) with 1. rewrite Z.sub_1_r.
  change (list_fmap _ _ (cellAt t b 0 i) (seqZ 1 (Z.pred c))) with (cellAt t b 0 i <$> seqZ 1 (Z.pred c)).
  destruct (Z.eqb_spec self (cellAt t b 0 i 0)) as [E|E].
  - rewrite (bool_decide_eq_true_2 (self ∈ cellAt t b 0 i 0 :: _)) by (rewrite <- E; left).
    cbn [BucketMgr_initial opened peers]. rewrite orb_true_l, orb_true_r. done.
  - f_equal. f_equal. apply bool_decide_ext. rewrite elem_of_cons. tauto.
Qed.

Lemma holdLoop_spec ks ms :
  NoDup ks → (∀ i, i ∈ ks → 0 <= i < b) → length ms = Z.to_nat b →
  ∃ ms', foldl (λ ms i, ms ← ms; holdBucket self t b c ms i) (Some ms) ks = Some ms' ∧
    length ms' = length ms ∧
    ∀ k, 0 <= k < b → ms' !! Z.to_nat k = (if decide (k ∈ ks) then held k else id) <$> ms !! Z.to_nat k.
Proof using Hb Hc Hbc Hlen.
  revert ms. induction ks as [|i ks IH]; intros ms Hnd Hks Hl.
  - exists ms. split_and!; [done..|]. intros k _. rewrite decide_False by apply not_elem_of_nil.
    by rewrite option_fmap_id.
  - apply list.NoDup_cons in Hnd as [Hi Hnd]. assert (Hib : 0 <= i < b) by (apply Hks; left).
    destruct (lookup_lt_is_Some_2 ms (Z.to_nat i)) as [m Hm]; [lia|]. cbn [foldl mbind option_bind].
    rewrite (holdBucket_spec i ms m) by done.
    destruct (IH (<[Z.to_nat i := held i m]> ms)) as (ms' & Hf & Hl' & Hms');
      [done|intros; apply Hks; by right|by rewrite length_insert|].
    exists ms'. split_and!; [done|by rewrite Hl', length_insert|]. intros k Hk. rewrite Hms' by done.
    destruct (decide (k = i)) as [->|Hne].
    + rewrite decide_False by done. rewrite decide_True by left.
      rewrite list_lookup_insert_eq, Hm by lia. done.
    + rewrite list_lookup_insert_ne by lia. f_equal.
      apply decide_ext. rewrite elem_of_cons. tauto.
Qed.
End Tables.

(** ** A newer table *)

(** The managers a heartbeat starts from. *)
Definition managers (b : Z) (s : storage) : list bucket_mgr :=
  default (replicate (Z.to_nat b) BucketMgr_new) (bucketMgr s).

Lemma hbCallback_spec self m s :
  let t := hb_table m in let b := hb_bucketcount m in let c := hb_copycount m in
  0 < b → 0 < c → 2 * (b * c) < 2 ^ 31 → 2 * (b * c) <= Z.of_nat (length t) →
  metaVersion s < hb_serverversion m → length (managers b s) = Z.to_nat b →
  ∃ ms mg, hbCallback self (HbMessage m) s = Some (Build_storage b c (hb_serverversion m) (Some ms) mg) ∧
    (∀ k, 0 <= k < b → ms !! Z.to_nat k = held t b c self k <$> managers b s !! Z.to_nat k) ∧
    (∀ k, mg !! k = if decide (handedOver t b c self k = []) then migrates s !! k
                    else Some (default [] (migrates s !! k) ++ handedOver t b c self k)).
Proof.
  intros t b c Hb Hc Hbc Hlen Hv Hms. cbn [hbCallback]. fold b c.
  change (match bucketMgr s with Some ms => ms | None => replicate (Z.to_nat b) BucketMgr_new end)
    with (managers b s).
  cbn [metaVersion st_bucketCount st_copyCount migrates]. rewrite (proj2 (Z.leb_gt _ _)) by done. fold t.
  destruct (holdLoop_spec t b c Hb Hc Hbc Hlen self (seqZ 0 b) (managers b s)) as (ms & -> & Hl & Hk);
    [apply NoDup_seqZ|intros ? ?%elem_of_seqZ; lia|done|]. rewrite bind_Some_eq.
  destruct (updateServerTable_spec t b c Hb Hc Hbc Hlen self
    (Build_storage b c (hb_serverversion m) (Some ms) (migrates s))) as (mg & -> & Hmg); [done..|].
  exists ms, mg. split; [done|]. split; [|exact Hmg]. intros k Hkb. rewrite Hk by done.
  rewrite decide_True; [done|]. apply elem_of_seqZ. lia.
Qed.

(** C30: what a storage server does with a newer table.  Every bucket in whose row it occurs
    has its log opened; of the buckets it is master of it has all slaves as peers, and no
    others are added; and it notes as migrations exactly the buckets it is master of that
    have servers in the destination which do not serve them now, with those servers. *)
Theorem heartbeat_applies_table self m s :
  let t := hb_table m in let b := hb_bucketcount m in let c := hb_copycount m in
  0 < b → 0 < c → 2 * (b * c) < 2 ^ 31 → 2 * (b * c) <= Z.of_nat (length t) →
  metaVersion s < hb_serverversion m → length (managers b s) = Z.to_nat b →
  ∃ s', hbCallback self (HbMessage m) s = Some s' ∧ metaVersion s' = hb_serverversion m ∧
    (∀ k, 0 <= k < b → ∃ o o', managers b s !! Z.to_nat k = Some o ∧
       managers b s' !! Z.to_nat k = Some o' ∧
       (opened o' = true ↔ opened o = true ∨ self ∈ rowAt t b c 0 k) ∧
       (∀ p, p ∈ peers o' ↔ p ∈ peers o ∨ (cellAt t b 0 k 0 = self ∧ p ∈ tail (rowAt t b c 0 k)))) ∧
    (∀ k d, (∃ l, migrates s' !! k = Some l ∧ d ∈ l) ↔
       (∃ l, migrates s !! k = Some l ∧ d ∈ l) ∨
       (0 <= k < b ∧ t !! Z.to_nat k = Some self ∧ d ∈ rowAt t b c (b * c) k ∧ d ∉ rowAt t b c 0 k)).
Proof.
  intros t b c Hb Hc Hbc Hlen Hv Hms.
  destruct (hbCallback_spec self m s) as (ms & mg & Hs' & Hk & Hmg); [done..|].
  eexists. split; [exact Hs'|]. split; [done|]. fold t b c in Hk, Hmg. split.
  - intros k Hkb. destruct (lookup_lt_is_Some_2 (managers b s) (Z.to_nat k)) as [o Ho]; [lia|].
    exists o, (held t b c self k o). split; [done|]. split.
    { unfold managers at 1. cbn [bucketMgr default]. change (ms !! Z.to_nat k = Some (held t b c self k o)).
      rewrite Hk, Ho by done. done. }
    split.
    + cbn [held opened]. rewrite orb_true_iff, bool_decide_eq_true. done.
    + intros p. cbn [held peers]. destruct (decide (cellAt t b 0 k 0 = self)) as [E|E].
      * rewrite elem_of_union, elem_of_list_to_set. tauto.
      * tauto.
  - intros k d. cbn [migrates]. rewrite Hmg. unfold handedOver.
    assert (Hmiss : d ∈ missing t b c k ↔ (d ∉ rowAt t b c 0 k) ∧ d ∈ rowAt t b c (b * c) k).
    { unfold missing. rewrite list_elem_of_filter. done. }
    destruct (decide (0 <= k < b ∧ t !! Z.to_nat k = Some self)) as [Hd|Hd].
    + destruct (decide (missing t b c k = [])) as [E|E].
      * rewrite E in Hmiss. pose proof (not_elem_of_nil d). tauto.
      * split.
        -- intros (l & [= <-] & Hin%elem_of_app). destruct Hin as [Hin|Hin]; [|right; tauto].
           destruct (migrates s !! k) as [l|]; [left; eauto|by apply not_elem_of_nil in Hin].
        -- intros Hor. eexists. split; [done|]. rewrite elem_of_app. destruct Hor as [(l & -> & Hin)|Hin]; [by left|].
           right. tauto.
    + rewrite decide_True by done. tauto.
Qed.

(** Witness: server 1 is master of bucket 0 and slave of bucket 1; bucket 0 moves to server 3. *)
Definition demo_resp : heartbeat_resp :=
  {| hb_code := 0; hb_clientversion := 20; hb_serverversion := 20; hb_bucketcount := 2; hb_copycount := 2;
     hb_nscapacityversion := 20; hb_nscapacity := ∅; hb_serverid := 9; hb_metaservers := [9];
     hb_table := [1; 2; 2; 1; 3; 2; 2; 1] |}.

Definition demo_server : storage :=
  {| st_bucketCount := 0; st_copyCount := 0; metaVersion := 0; bucketMgr := None; migrates := ∅ |}.

Lemma heartbeat_applies_table_witness :
  ∃ s', hbCallback 1 (HbMessage demo_resp) demo_server = Some s' ∧ ∃ l, migrates s' !! 0 = Some l ∧ 3 ∈ l.
Proof.
  destruct (heartbeat_applies_table 1 demo_resp demo_server) as (s' & Hs & _ & _ & Hm).
  - vm_compute. reflexivity.
  - vm_compute. reflexivity.
  - vm_compute. reflexivity.
  - vm_compute. congruence.
  - vm_compute. reflexivity.
  - reflexivity.
  - exists s'. split; [exact Hs|]. apply Hm. right. split_and!.
    + vm_compute. congruence.
    + vm_compute. reflexivity.
    + reflexivity.
    + change (rowAt _ _ _ _ _) with [3; 2]. left.
    + change (rowAt _ _ _ _ _) with [1; 2]. rewrite !elem_of_cons, elem_of_nil. lia.
Defined.
