(* ===== verification/Cluster.v ===== *)
(** * A migration across the cluster

    The meta server and the storage servers together: the storage servers learn the tables
    from the answers to their heartbeats ([Storage.hbCallback] on
    [MetaServer.heartbeatAnswer]), report the buckets they hand over
    ([Storage.migrateRun]), and the meta server counts the reports
    ([SysMgr.setMigratingHashtable], [SysMgr.checkMigrateComplete]).  The reports of
    different servers arrive in any order. *)
From S2P Require Import Prelude TableBuilder MetaTable SysMgr Migration MetaServer Storage.

(** The reports of server [n] in state [st] when it gets the answer [m]. *)
Definition serverReports (m : heartbeat_resp) (st : Z → storage) (n : Z) : option (list (Z * Z)) :=
  s ← hbCallback n (HbMessage m) (st n); Some (migrateRun n s).1.

(** The reports of the servers [ns] together. *)
Fixpoint allReports (m : heartbeat_resp) (st : Z → storage) (ns : list Z) : option (list (Z * Z)) :=
  match ns with
  | [] => Some []
  | n :: ns => r ← serverReports m st n; rs ← allReports m st ns; Some (r ++ rs)
  end.

(** A storage server that has not yet seen a table of version [v]. *)
Definition fresh (v : Z) (s : storage) : Prop :=
  bucketMgr s = None ∧ migrates s = ∅ ∧ metaVersion s < v.

(** Bucket [i] gets a server that does not have it. *)
Definition needsData (f : table_file) (i : nat) : Prop :=
  ∃ k, (k < copies f)%nat ∧ ∀ j, (j < copies f)%nat → dcell f k i ≠ mcell f j i.

Lemma pending_needsData f i : needsData f i → pending f i.
Proof. intros (k & Hk & Hj). exists k. split; [done|]. intros E. by apply (Hj k Hk). Qed.

Section Cluster.
Context (s : sys_mgr) (f : table_file) (h d : list Z) (self : Z) (rc : bool) (m : heartbeat_resp)
  (st : Z → storage)
  (Hinv : mig_inv s f) (HB : (0 < buckets f)%nat)
  (Hm : mHashTable f = Some h) (Hd : dHashTable f = Some d)
  (Hsent : deflateForDataServer (tableMgr s) = h ++ d)
  (Hans : heartbeatAnswer self rc s = Some m).

Abbreviation t := (hb_table m).
Abbreviation b := (hb_bucketcount m).
Abbreviation c := (hb_copycount m).

Lemma answer_fields :
  t = h ++ d ∧ b = Z.of_nat (buckets f) ∧ c = Z.of_nat (copies f) ∧
  hb_serverversion m = serverVersion (hdr f) ∧
  length h = entries f ∧ length d = entries f ∧ Z.of_nat (entries f) = b * c.
Proof using Hinv HB Hm Hd Hsent Hans.
  destruct Hinv as [Hmap Hwf HC _ _]. unfold heartbeatAnswer in Hans. rewrite Hmap, bind_Some_eq in Hans.
  injection Hans as <-. cbn [hb_table hb_bucketcount hb_copycount hb_serverversion].
  unfold getBucketCount, getCopyCount. rewrite Hmap. pose proof (wf_cells f Hwf) as Hc.
  unfold mHashTable, dHashTable in Hm, Hd. rewrite tableAt_Some in Hm, Hd by lia.
  injection Hm as <-. injection Hd as <-. pose proof (entries_eq f Hwf) as He.
  destruct Hwf as [(Hb0 & Hc0 & Hsz) _]. unfold buckets, copies in *.
  rewrite !length_take, !length_drop. split_and!; try lia. exact Hsent.
Qed.

Lemma sizes_ok : 0 < b ∧ 0 < c ∧ 2 * (b * c) < 2 ^ 31 ∧ 2 * (b * c) <= Z.of_nat (length t).
Proof using Hinv HB Hm Hd Hsent Hans.
  destruct answer_fields as (Ht & Hb & Hc & _ & Hlh & Hld & He). pose proof (mi_copies _ _ Hinv) as HC.
  destruct (wf_sizes _ (mi_wf _ _ Hinv)) as (Hb0 & Hc0 & Hsz). rewrite Ht, length_app.
  unfold buckets, copies in *. split_and!; lia.
Qed.

Lemma cells_sent i k :
  (i < buckets f)%nat → (k < copies f)%nat →
  cellAt t b 0 (Z.of_nat i) (Z.of_nat k) = mcell f k i ∧
  cellAt t b (b * c) (Z.of_nat i) (Z.of_nat k) = dcell f k i.
Proof using Hinv HB Hm Hd Hsent Hans.
  intros Hi Hk. destruct answer_fields as (Ht & Hb & Hc & _ & Hlh & Hld & He).
  pose proof (mi_wf _ _ Hinv) as Hwf. pose proof (index_bound f Hwf k i Hk Hi) as Hidx.
  pose proof (wf_cells f Hwf) as Hcl. unfold mHashTable, dHashTable in Hm, Hd.
  rewrite tableAt_Some in Hm, Hd by lia. injection Hm as Hh. injection Hd as Hdd.
  unfold cellAt, mcell, dcell. rewrite Ht, <- He, Hb.
  replace (Z.to_nat (0 + (Z.of_nat i + Z.of_nat (buckets f) * Z.of_nat k)))
    with (k * buckets f + i)%nat by lia.
  replace (Z.to_nat (Z.of_nat (entries f) + (Z.of_nat i + Z.of_nat (buckets f) * Z.of_nat k)))
    with (entries f + (k * buckets f + i))%nat by lia. split.
  - rewrite lookup_app_l by lia. rewrite <- Hh, lookup_table by lia. done.
  - rewrite lookup_app_r by lia. rewrite Hlh, <- Hdd. 
    replace (entries f + (k * buckets f + i) - entries f)%nat with (k * buckets f + i)%nat by lia.
    rewrite lookup_table by lia. done.
Qed.

Lemma elem_of_rowSent i x :
  (i < buckets f)%nat →
  (x ∈ rowAt t b c 0 (Z.of_nat i) ↔ ∃ k, (k < copies f)%nat ∧ x = mcell f k i) ∧
  (x ∈ rowAt t b c (b * c) (Z.of_nat i) ↔ ∃ k, (k < copies f)%nat ∧ x = dcell f k i).
Proof using Hinv HB Hm Hd Hsent Hans.
  intros Hi. destruct answer_fields as (_ & _ & Hc & _).
  assert (Hrow : ∀ off (g : nat → Z), (∀ k, (k < copies f)%nat → cellAt t b off (Z.of_nat i) (Z.of_nat k) = g k) →
    x ∈ rowAt t b c off (Z.of_nat i) ↔ ∃ k, (k < copies f)%nat ∧ x = g k).
  { intros off g Hg. unfold rowAt. rewrite list_elem_of_fmap. split.
    - intros (j & -> & Hj%elem_of_seqZ). exists (Z.to_nat j). split; [lia|]. rewrite <- Hg by lia. by rewrite Z2Nat.id by lia.
    - intros (k & Hk & ->). exists (Z.of_nat k). rewrite Hg by done. split; [done|]. apply elem_of_seqZ. lia. }
  split; apply Hrow; intros k Hk; by apply cells_sent.
Qed.

Lemma missing_needsData i :
  (i < buckets f)%nat → missing t b c (Z.of_nat i) ≠ [] ↔ needsData f i.
Proof using Hinv HB Hm Hd Hsent Hans.
  intros Hi. unfold missing. split.
  - intros Hne. destruct (filter _ _) as [|x l] eqn:E; [done|].
    assert (Hx : x ∈ x :: l) by left. rewrite <- E, list_elem_of_filter in Hx. destruct Hx as [Hn Hin].
    destruct (elem_of_rowSent i x Hi) as [Hs Hds]. apply Hds in Hin as (k & Hk & ->).
    exists k. split; [done|]. intros j Hj Heq. apply Hn, Hs. eauto.
  - intros (k & Hk & Hno) Hnil. rewrite filter_nil_iff in Hnil. apply (Hnil (dcell f k i)).
    + apply elem_of_rowSent; [done|]. eauto.
    + intros Hin. apply elem_of_rowSent in Hin as (j & Hj & Heq); [|done]. by apply (Hno j Hj).
Qed.

Lemma master_sent i : (i < buckets f)%nat → t !! i = Some (mcell f 0 i).
Proof using Hinv HB Hm Hd Hsent Hans.
  intros Hi. destruct sizes_ok as (Hb0 & Hc0 & Hbc & Hlen). pose proof (mi_copies _ _ Hinv) as HC.
  destruct answer_fields as (_ & Hb & _).
  pose proof (word_master t b c Hb0 Hc0 Hbc Hlen (Z.of_nat i) ltac:(lia)) as Hw.
  destruct (cells_sent i 0 Hi HC) as [Hcell _]. change (Z.of_nat 0) with 0 in Hcell. rewrite Hcell in Hw.
  unfold word in Hw. by rewrite Nat2Z.id in Hw.
Qed.

Lemma handedOver_needsData n k :
  handedOver t b c n k ≠ [] ↔
  ∃ i, k = Z.of_nat i ∧ (i < buckets f)%nat ∧ mcell f 0 i = n ∧ needsData f i.
Proof using Hinv HB Hm Hd Hsent Hans.
  destruct answer_fields as (_ & Hb & _). unfold handedOver.
  destruct (decide (0 <= k < b ∧ t !! Z.to_nat k = Some n)) as [[Hk Hn]|Hno].
  - assert (Hik : (Z.to_nat k < buckets f)%nat) by lia. rewrite master_sent in Hn by done. injection Hn as Hn.
    rewrite <- (Z2Nat.id k) at 1 by lia. rewrite missing_needsData by done. split.
    + intros Hnd. exists (Z.to_nat k). split_and!; [lia|done..].
    + intros (i & -> & _ & _ & Hnd). by rewrite Nat2Z.id.
  - split; [done|]. intros (i & -> & Hi & Hn & _) _. apply Hno. split; [lia|].
    rewrite Nat2Z.id, master_sent, Hn by done. done.
Qed.

(** A server reports exactly its buckets that need data. *)
Lemma serverReports_spec n :
  fresh (serverVersion (hdr f)) (st n) →
  ∃ r, serverReports m st n = Some r ∧
    ∀ x, x ∈ r ↔ ∃ i, x = (Z.of_nat i, n) ∧ (i < buckets f)%nat ∧ mcell f 0 i = n ∧ needsData f i.
Proof using Hinv HB Hm Hd Hsent Hans.
  intros (Hbm & Hmg0 & Hv). destruct sizes_ok as (Hb0 & Hc0 & Hbc & Hlen).
  destruct answer_fields as (_ & _ & _ & Hsv & _).
  destruct (hbCallback_spec n m (st n)) as (ms & mg & Hcb & _ & Hmg); [done..|by rewrite Hsv| |].
  { unfold managers. rewrite Hbm. apply length_replicate. }
  eexists. unfold serverReports. rewrite Hcb. split; [done|]. intros [x y]. cbn [migrateRun migrates fst].
  rewrite list_elem_of_fmap.
  assert (Hdom : ∀ k, k ∈ merge_sort Z.le (elements (dom mg)) ↔ handedOver t b c n k ≠ []).
  { intros k. rewrite merge_sort_Permutation, elem_of_elements, elem_of_dom, Hmg, Hmg0, lookup_empty.
    destruct (decide (handedOver t b c n k = [])) as [E|E]; [|by eauto].
    split; [by intros [? [=]]|done]. }
  split.
  - intros (k & [= -> ->] & Hk%Hdom). apply handedOver_needsData in Hk as (i & -> & ?). eauto.
  - intros (i & [= -> ->] & Hi). exists (Z.of_nat i). split; [done|]. apply Hdom, handedOver_needsData. eauto.
Qed.

(** All servers together report the buckets that need data, each with its master. *)
Lemma allReports_spec ns :
  (∀ n, n ∈ ns → fresh (serverVersion (hdr f)) (st n)) →
  ∃ rs, allReports m st ns = Some rs ∧
    ∀ x, x ∈ rs ↔ ∃ i, x = (Z.of_nat i, mcell f 0 i) ∧ (i < buckets f)%nat ∧ mcell f 0 i ∈ ns ∧ needsData f i.
Proof using Hinv HB Hm Hd Hsent Hans.
  induction ns as [|n ns IH]; intros Hfr.
  - exists []. split; [done|]. intros x. rewrite elem_of_nil. split; [done|].
    intros (i & _ & _ & Hin & _). by apply not_elem_of_nil in Hin.
  - destruct (serverReports_spec n) as (r & Hr & Hrx); [apply Hfr; left|].
    destruct IH as (rs & Hrs & Hrsx); [intros; apply Hfr; by right|].
    exists (r ++ rs). cbn [allReports]. rewrite Hr, bind_Some_eq, Hrs, bind_Some_eq. split; [done|].
    intros x. rewrite elem_of_app, Hrx, Hrsx. split.
    + intros [(i & -> & Hi & Hn & Hnd)|(i & -> & Hi & Hn & Hnd)]; exists i; rewrite elem_of_cons;
        split_and!; rewrite ?Hn; auto.
    + intros (i & -> & Hi & Hin & Hnd). apply elem_of_cons in Hin as [Hn|Hn]; [left|right]; exists i;
        split_and!; rewrite ?Hn; auto.
Qed.

Lemma reports_keep l s0 f0 i :
  mig_inv s0 f0 → (i < buckets f0)%nat → pending f0 i →
  (∀ x, x ∈ l → ∃ j, x.1 = Z.of_nat j ∧ (j < buckets f0)%nat ∧ j ≠ i) →
  ∃ s1 f1, reports s0 l = Some s1 ∧ mig_inv s1 f1 ∧ buckets f1 = buckets f0 ∧ pending f1 i.
Proof using.
  revert s0 f0. induction l as [|x l IH]; intros s0 f0 Hi Hib Hp Hl; [by exists s0, f0|].
  destruct (Hl x) as (j & Hj & Hjb & Hji); [left|].
  destruct (report_ok s0 f0 j x.2 Hi Hjb) as (s1 & f1 & Hs1 & Hi1 & Hor).
  assert (Hf1 : buckets f1 = buckets f0 ∧ pending f1 i).
  { destruct Hor as [[_ Hf]|[_ ->]]; [|done]. split; [apply (fin_buckets _ _ _ Hf)|].
    by apply (pending_finished f0 j f1). }
  destruct Hf1 as [Hb1 Hp1].
  destruct (IH s1 f1) as (s2 & f2 & Hs2 & Hi2 & Hb2 & Hp2); [done|by rewrite Hb1|done| |].
  { intros y Hy. rewrite Hb1. apply Hl. by right. }
  exists s2, f2. unfold reports. cbn [foldl]. rewrite bind_Some_eq, Hj, Hs1. split_and!; [done|done|congruence|done].
Qed.

(** The two sides disagree on which buckets migrate.  A bucket whose row changes without
    getting a new server (a master and a slave that change places) is counted by the meta
    server and reported by no storage server: after all reports, in any order, the migration
    is not complete, and no server has anything left to report. *)
Lemma swapped_bucket_blocks ns i :
  (∀ n, n ∈ ns → fresh (serverVersion (hdr f)) (st n)) →
  (i < buckets f)%nat → pending f i → ¬ needsData f i →
  ∃ rs, allReports m st ns = Some rs ∧ ∀ l, l ≡ₚ rs →
    ∃ s1, reports s l = Some s1 ∧ checkMigrateComplete s1 = Some (false, s1).
Proof using Hinv HB Hm Hd Hsent Hans.
  intros Hfr Hi Hp Hnd. destruct (allReports_spec ns Hfr) as (rs & Hrs & Hx). exists rs. split; [done|].
  intros l Hl. destruct (reports_keep l s f i) as (s1 & f1 & Hs1 & Hinv1 & Hb1 & Hp1); [done..| |].
  { intros x Hin. rewrite Hl in Hin. apply Hx in Hin as (j & -> & Hj & _ & Hj2). exists j.
    split_and!; [done|done|]. intros ->. done. }
  exists s1. split; [done|]. apply (pending_check s1 f1 i); [done|by rewrite Hb1|done].
Qed.

(** C13: a migration completes across the cluster, or is blocked by a bucket that gets no new server.  The meta server is migrating and has sent
    the tables; every master is among the servers [ns], none of which has a table or logs yet.  The reports that
    the servers send on their own all succeed, in any order.  When all of them have arrived, the next check
    puts the destination table in use if every bucket whose row changes gets a server that does not have it; and if
    there is one that does not (its servers only change places), the migration is not complete, and no server has anything left to report. *)
Theorem cluster_migration_completes ns :
  (∀ n, n ∈ ns → fresh (serverVersion (hdr f)) (st n)) →
  (∀ i, (i < buckets f)%nat → mcell f 0 i ∈ ns) →
  ∃ rs, allReports m st ns = Some rs ∧ ∀ l, l ≡ₚ rs →
    ∃ s1, reports s l = Some s1 ∧
      ((∀ i, (i < buckets f)%nat → pending f i → needsData f i) →
        ∃ s2, checkMigrateComplete s1 = Some (true, s2) ∧ migrated d s2) ∧
      (∀ i, (i < buckets f)%nat → pending f i → ¬ needsData f i → checkMigrateComplete s1 = Some (false, s1)).
Proof using Hinv HB Hm Hd Hsent Hans.
  intros Hfr Hns. destruct (allReports_spec ns Hfr) as (rs & Hrs & Hx). exists rs. split; [done|].
  intros l Hl. set (bs := (λ x : Z * Z, Z.to_nat x.1) <$> l).
  assert (Hlbs : l = (λ i, (Z.of_nat i, mcell f 0 i)) <$> bs).
  { unfold bs. rewrite <- list_fmap_compose. rewrite <- (list_fmap_id l) at 1. apply list_fmap_ext.
    intros j x Hj%list_elem_of_lookup_2. rewrite Hl in Hj. apply Hx in Hj as (i & -> & _).
    unfold compose. cbn [fst id]. by rewrite Nat2Z.id. }
  assert (Hbs : ∀ i, i ∈ bs ↔ (i < buckets f)%nat ∧ mcell f 0 i ∈ ns ∧ needsData f i).
  { intros i. unfold bs. rewrite list_elem_of_fmap. split.
    - intros (x & -> & Hin). rewrite Hl in Hin. apply Hx in Hin as (j & -> & ?). cbn [fst]. by rewrite Nat2Z.id.
    - intros Hi. exists (Z.of_nat i, mcell f 0 i). split; [symmetry; apply Nat2Z.id|]. rewrite Hl. apply Hx. eauto. }
  destruct (reports_progress f bs s f) as (s1 & f1 & Hs1 & Hinv1 & (HB1 & _ & Hd1 & _) & Hdone); [done| | |].
  { split_and!; [done|done|done|]. intros i Hi. left. auto. }
  { intros i Hi. by apply Hbs in Hi as [? _]. }
  rewrite <- Hlbs in Hs1. exists s1. split; [done|]. split.
  - intros Hneed. destruct (check_complete s1 f1) as (s2 & d' & Hc & Hd' & Hmig); [done| |].
    { intros i Hi. rewrite HB1 in Hi. apply Hdone; [done|].
      destruct (decide (pending f i)); [left; apply Hbs; auto|by right]. }
    exists s2. split; [done|]. rewrite Hd1, Hd in Hd'. by injection Hd' as ->.
  - intros i Hi Hp Hnd. destruct (swapped_bucket_blocks ns i Hfr Hi Hp Hnd) as (rs' & Hrs' & Hl').
    assert (rs' = rs) as -> by congruence. destruct (Hl' l Hl) as (s1' & E & Hc). by assert (s1' = s1) as -> by congruence.
Qed.
End Cluster.

(** ** Witnesses: two buckets, two copies, servers 1, 2 and 3 *)

Definition demo_storage (n : Z) : storage :=
  {| st_bucketCount := 0; st_copyCount := 0; metaVersion := 0; bucketMgr := None; migrates := ∅ |}.

Definition demo_file (d : list Z) : table_file :=
  Build_table_file (demo_hdr 1 2 2) ([1; 1; 2; 2] ++ [1; 1; 2; 2] ++ d).

(** The meta server while bucket 0 is migrated by server 1. *)
Definition demo_sending (d : list Z) : sys_mgr :=
  set_tableMgr (Build_table_mgr (Some (demo_file d)) true [1; 1; 2; 2] ([1; 1; 2; 2] ++ d))
    (demo_sys (demo_hdr 1 2 2) [1; 1; 2; 2] [1; 1; 2; 2] d {[1 := 1]}).

Definition demo_answer (d : list Z) : heartbeat_resp :=
  {| hb_code := 0; hb_clientversion := 20; hb_serverversion := 20; hb_bucketcount := 2; hb_copycount := 2;
     hb_nscapacityversion := 20; hb_nscapacity := ∅; hb_serverid := 9; hb_metaservers := [9];
     hb_table := [1; 1; 2; 2] ++ d |}.

Lemma demo_sending_inv x y : x ≠ 1 → mig_inv (demo_sending [x; 1; y; 2]) (demo_file [x; 1; y; 2]).
Proof.
  intros Hx.
  assert (Hp0 : pending (demo_file [x; 1; y; 2]) 0) by (exists 0%nat; split; [vm_compute; lia|exact (not_eq_sym Hx)]).
  assert (Hp1 : ¬ pending (demo_file [x; 1; y; 2]) 1).
  { intros (k & Hk & Hne). change (copies _) with 2%nat in Hk.
    destruct k as [|[|k]]; [by apply Hne..|lia]. }
  assert (Hfilter : ∀ P (HP : ∀ i, Decision (P i)), filter P (seq 0 (buckets (demo_file [x; 1; y; 2]))) =
    (if decide (P 0%nat) then [0%nat] else []) ++ (if decide (P 1%nat) then [1%nat] else [])).
  { intros P HP. change (seq 0 _) with [0; 1]%nat. rewrite !filter_cons, filter_nil.
    by destruct (decide (P 0%nat)), (decide (P 1%nat)). }
  split; [done|split; [simpl; lia|done]|vm_compute; lia| |].
  - unfold pendingBuckets. rewrite Hfilter, decide_True, decide_False by done. done.
  - intros n. unfold pendingOf. rewrite Hfilter. rewrite (decide_False (P := pending _ 1 ∧ _)) by tauto.
    change (migrateMachine _) with ({[1 := 1]} : gmap Z Z).
    destruct (decide (n = 1)) as [->|Hne].
    + rewrite decide_True by done. by rewrite lookup_singleton_eq.
    + rewrite decide_False, lookup_singleton_ne; [done|done|]. intros [_ E]. apply Hne. by rewrite <- E.
Qed.

Lemma demo_master i : (i < 2)%nat → mcell (demo_file [3; 1; 2; 2]) 0 i ∈ [1; 2; 3].
Proof. intros Hi. destruct i as [|[|i]]; [left..|lia]. Qed.

Lemma cluster_migration_completes_witness :
  ∃ rs, allReports (demo_answer [3; 1; 2; 2]) demo_storage [1; 2; 3] = Some rs ∧ ∀ l, l ≡ₚ rs →
    ∃ s1 s2, reports (demo_sending [3; 1; 2; 2]) l = Some s1 ∧ checkMigrateComplete s1 = Some (true, s2) ∧
      migrated [3; 1; 2; 2] s2.
Proof.
  destruct (cluster_migration_completes (demo_sending [3; 1; 2; 2]) (demo_file [3; 1; 2; 2]) [1; 1; 2; 2]
    [3; 1; 2; 2] 9 true (demo_answer [3; 1; 2; 2]) demo_storage) with (ns := [1; 2; 3]) as (rs & Hrs & Hl).
  - apply demo_sending_inv. lia.
  - vm_compute. lia.
  - reflexivity.
  - reflexivity.
  - reflexivity.
  - reflexivity.
  - intros n _. split_and!; reflexivity.
  - intros i Hi. apply demo_master. exact Hi.
  - exists rs. split; [exact Hrs|]. intros l Hp. destruct (Hl l Hp) as (s1 & E & Hc & _). destruct Hc as (s2 & Hc2 & Hm2).
    { intros i Hi Hpi. change (buckets _) with 2%nat in Hi. destruct i as [|[|i]]; [| |lia].
      - exists 0%nat. split; [vm_compute; lia|]. intros j Hj. change (copies _) with 2%nat in Hj.
        destruct j as [|[|j]]; [vm_compute; congruence..|lia].
      - exfalso. destruct Hpi as (k & Hk & Hne). change (copies _) with 2%nat in Hk.
        destruct k as [|[|k]]; [by apply Hne..|lia]. }
    exists s1, s2. split; [exact E|]. split; [exact Hc2|exact Hm2].
Defined.

Lemma swapped_bucket_blocks_witness :
  ∃ rs, allReports (demo_answer [2; 1; 1; 2]) demo_storage [1; 2] = Some rs ∧ ∀ l, l ≡ₚ rs →
    ∃ s1, reports (demo_sending [2; 1; 1; 2]) l = Some s1 ∧ checkMigrateComplete s1 = Some (false, s1).
Proof.
  apply (swapped_bucket_blocks (demo_sending [2; 1; 1; 2]) (demo_file [2; 1; 1; 2]) [1; 1; 2; 2]
    [2; 1; 1; 2] 9 true (demo_answer [2; 1; 1; 2]) demo_storage) with (i := 0%nat).
  - apply demo_sending_inv. lia.
  - vm_compute. lia.
  - reflexivity.
  - reflexivity.
  - reflexivity.
  - reflexivity.
  - intros n _. split_and!; reflexivity.
  - vm_compute. lia.
  - exists 0%nat. split; [vm_compute; lia|vm_compute; congruence].
  - intros (k & Hk & Hno). change (copies _) with 2%nat in Hk. destruct k as [|[|k]]; [| |lia].
    + apply (Hno 1%nat); [vm_compute; lia|reflexivity].
    + apply (Hno 0%nat); [vm_compute; lia|reflexivity].
Defined.
