(* ===== verification/RdbDefine.v ===== *)
(** * Keys and values of the store (src/src/kvstore/rdb/rdb_define.{h,cc},
      src/src/kvstore/fdb/fdb_define.{h,cc})

    A stored key is three bytes of bucket, most significant first, two bytes of area, least
    significant first, and the user's key; a stored value is eleven bytes of meta data and
    the user's value.  A scan of a bucket is the range between two bucket prefixes in the
    bytewise order of the database.  The RocksDB and ForestDB classes have the same code;
    the definitions named after [Rdb] model both.

    [None] is an access outside of the data. *)
From S2P Require Import Prelude Buffers BufferSpec.

Definition sRdbKeyBucketSize : nat := 3.
Definition sRdbKeyAreaSize : nat := 2.
Definition sMaxBucketNumber24 : Z := Z.shiftl 1 24 - 2.

(** ** [RdbKey] *)

(** [data_] with its size ([None] is the null pointer), and whether it was allocated here. *)
Record rdb_key := { key_data : option (list Z); key_alloc : bool }.

Definition RdbKey_new : rdb_key := {| key_data := None; key_alloc := false |}.

Definition RdbKey_destroy (k : rdb_key) : rdb_key :=
  if negb (key_alloc k) then k else
  match key_data k with None => k | Some _ => {| key_data := None; key_alloc := false |} end.

(** Writes the three bytes at the front of [buf]. *)
Definition encodeBucketNumber (buf : list Z) (bucket_number : Z) : list Z :=
  foldl (λ buf i, <[(sRdbKeyBucketSize - i - 1)%nat := Z.land (Z.shiftr bucket_number (Z.of_nat i * 8)) 0xff]> buf)
    buf (seq 0 sRdbKeyBucketSize).

Definition decodeBucketNumber (buf : list Z) : option Z :=
  foldl (λ n i, n ← n; b ← buf !! i;
           Some (Z.lor n (Z.shiftl b ((Z.of_nat sRdbKeyBucketSize - Z.of_nat i - 1) * 8))))
    (Some 0) (seq 0 sRdbKeyBucketSize).

(** The two bytes of the area. *)
Definition encodeArea (area : Z) : list Z := [Z.land area 0xff; Z.land (Z.shiftr area 8) 0xff].

Definition decodeArea (buf : list Z) : option Z :=
  b1 ← buf !! 1%nat; b0 ← buf !! 0%nat; Some (Z.lor (Z.shiftl b1 8) b0).

(** [set]: an empty key leaves everything as it is; [junk] is the fresh memory. *)
Definition RdbKey_set (junk : nat → Z) (key : list Z) (bucket_number area : Z) (k : rdb_key)
    : option rdb_key :=
  if decide (key = []) then Some k else
  let meta := Z.of_nat (sRdbKeyBucketSize + sRdbKeyAreaSize) in
  let data := malloc junk (meta + Z.of_nat (length key)) in
  let data := encodeBucketNumber data bucket_number in
  data ← poke data (Z.of_nat sRdbKeyBucketSize) (encodeArea area);
  data ← poke data meta key;
  Some {| key_data := Some data; key_alloc := true |}.

Definition RdbKey_assign (data : option (list Z)) (k : rdb_key) : rdb_key :=
  {| key_data := data; key_alloc := false |}.

Definition RdbKey_size (k : rdb_key) : nat := length (default [] (key_data k)).

Definition RdbKey_key (k : rdb_key) : option (list Z) :=
  drop (sRdbKeyBucketSize + sRdbKeyAreaSize) <$> key_data k.
Definition RdbKey_keySize (k : rdb_key) : nat :=
  let meta_size := (sRdbKeyBucketSize + sRdbKeyAreaSize)%nat in
  if Nat.ltb meta_size (RdbKey_size k) then (RdbKey_size k - meta_size)%nat else 0%nat.
Definition mergedKey (k : rdb_key) : option (list Z) := drop sRdbKeyBucketSize <$> key_data k.
Definition mergedKeySize (k : rdb_key) : nat :=
  if Nat.ltb sRdbKeyBucketSize (RdbKey_size k) then (RdbKey_size k - sRdbKeyBucketSize)%nat else 0%nat.

Definition RdbKey_area (k : rdb_key) : option Z :=
  match key_data k with
  | None => Some (-1)
  | Some data => decodeArea (drop sRdbKeyBucketSize data)
  end.

Definition getBucketNumber (k : rdb_key) : option Z := data ← key_data k; decodeBucketNumber data.

Definition buildScanKey (bucket_number : Z) : list Z * list Z :=
  (encodeBucketNumber (replicate sRdbKeyBucketSize 0) bucket_number,
   encodeBucketNumber (replicate sRdbKeyBucketSize 0) (i32 (bucket_number + 1))).

Definition buildScanKeyWithArea (area : Z) : list Z * list Z :=
  let buf n a := encodeBucketNumber (replicate sRdbKeyBucketSize 0) n ++ encodeArea a in
  (buf 0 area, buf sMaxBucketNumber24 (i32 (area + 1))).

(** ** [ValueMeta] and [RdbItem] *)

Record value_meta := { v_flag : Z; v_version : Z; v_mdate : Z; v_edate : Z }.

Definition ValueMeta_size : nat := 11.

Definition encodeToBuf (m : value_meta) : list Z :=
  [u8 (Z.shiftr (v_edate m) 24); u8 (Z.shiftr (v_edate m) 16); u8 (Z.shiftr (v_edate m) 8); u8 (v_edate m);
   u8 (Z.shiftr (v_mdate m) 24); u8 (Z.shiftr (v_mdate m) 16); u8 (Z.shiftr (v_mdate m) 8); u8 (v_mdate m);
   u8 (Z.shiftr (u8 (v_version m)) 8); u8 (v_version m);
   u8 (v_flag m)].

(** [<<= 8] and [|=] on a 32-bit and on a 16-bit variable. *)
Definition push32 (x b : Z) : Z := Z.lor (u32 (Z.shiftl x 8)) b.
Definition push16 (x b : Z) : Z := Z.lor (u16 (Z.shiftl x 8)) b.

Definition decodeFromBuf (buf : list Z) : option value_meta :=
  match buf with
  | e0 :: e1 :: e2 :: e3 :: m0 :: m1 :: m2 :: m3 :: v0 :: v1 :: f :: _ =>
      Some {| v_flag := f; v_version := push16 v0 v1;
              v_mdate := push32 (push32 (push32 m0 m1) m2) m3;
              v_edate := push32 (push32 (push32 e0 e1) e2) e3 |}
  | _ => None
  end.

Record rdb_item := { item_meta : value_meta; item_data : option (list Z); item_alloc : bool }.

Definition RdbItem_new : rdb_item :=
  {| item_meta := Build_value_meta 0 0 0 0; item_data := None; item_alloc := false |}.

Definition RdbItem_destroy (i : rdb_item) : rdb_item :=
  if negb (item_alloc i) then i else
  match item_data i with
  | None => i
  | Some _ => {| item_meta := item_meta i; item_data := None; item_alloc := false |}
  end.

Definition RdbItem_set (value : list Z) (i : rdb_item) : rdb_item :=
  if decide (value = []) then i else
  {| item_meta := item_meta i; item_data := Some (encodeToBuf (item_meta i) ++ value); item_alloc := true |}.

(** [assign] keeps [alloc_] as [destroy] left it. *)
Definition RdbItem_assign (data : option (list Z)) (i : rdb_item) : option rdb_item :=
  let i := RdbItem_destroy i in
  let l := default [] data in
  m ← (if Nat.leb ValueMeta_size (length l) then decodeFromBuf l else Some (item_meta i));
  Some {| item_meta := m; item_data := data; item_alloc := item_alloc i |}.

Definition RdbItem_value (i : rdb_item) : option (list Z) := drop ValueMeta_size <$> item_data i.
Definition RdbItem_valueSize (i : rdb_item) : nat :=
  let size := length (default [] (item_data i)) in
  if Nat.leb size ValueMeta_size then 0%nat else (size - ValueMeta_size)%nat.

(** The same code with [fdb] names. *)
Definition FdbKey_set := RdbKey_set.
Definition FdbKey_assign := RdbKey_assign.
Definition FdbKey_destroy := RdbKey_destroy.
Definition FdbItem_set := RdbItem_set.
Definition FdbItem_assign := RdbItem_assign.
Definition FdbItem_destroy := RdbItem_destroy.

(** ** Keys *)

Lemma land_ff z : Z.land z 0xff = u8 z.
Proof. change 0xff with (Z.ones 8). by rewrite Z.land_ones. Qed.

Lemma encodeBucketNumber_bytes buf n :
  (3 <= length buf)%nat → encodeBucketNumber buf n = be_bytes 3 n ++ drop 3 buf.
Proof.
  intros Hl. destruct buf as [|x0 [|x1 [|x2 buf]]]; simpl in Hl; [lia..|].
  unfold encodeBucketNumber, sRdbKeyBucketSize. cbn. rewrite !land_ff.
  change (be_bytes 3 n) with ((([] ++ [u8 (Z.shiftr (Z.shiftr n 8) 8)]) ++ [u8 (Z.shiftr n 8)]) ++ [u8 n]).
  rewrite Z.shiftr_shiftr by lia. cbn. done.
Qed.

Lemma decodeBucketNumber_bytes n rest :
  0 <= n < 2 ^ 24 → decodeBucketNumber (be_bytes 3 n ++ rest) = Some n.
Proof.
  intros Hn. pose proof (be_bytes_u8 3 n) as Hu. pose proof (length_be_bytes 3 n) as Hl.
  pose proof (be_value_bytes_id 3 n Hn) as Hv.
  destruct (be_bytes 3 n) as [|x0 [|x1 [|x2 [|? ?]]]]; simpl in Hl; try lia.
  unfold decodeBucketNumber, sRdbKeyBucketSize. cbn -[Z.lor Z.shiftl]. f_equal.
  unfold be_value in Hv. cbn -[Z.lor Z.shiftl] in Hv. rewrite <- Hv. rewrite Z.shiftl_0_l, !Z.lor_0_l.
  rewrite Z.shiftl_0_r, !Z.shiftl_lor, Z.shiftl_shiftl by lia. done.
Qed.

Lemma encodeArea_bytes a rest : 0 <= a < 2 ^ 16 → decodeArea (encodeArea a ++ rest) = Some a.
Proof.
  intros Ha. unfold decodeArea, encodeArea. cbn -[Z.lor Z.shiftl Z.land Z.shiftr]. f_equal. rewrite !land_ff.
  rewrite lor_shiftl_8 by apply u8_bound. unfold u8. rewrite Z.shiftr_div_pow2 by lia.
  rewrite (Z.mod_small (a / 2 ^ 8)); [pose proof (Z.div_mod a (2 ^ 8)); lia|].
  split; [apply Z.div_pos; lia|apply Z.div_lt_upper_bound; lia].
Qed.

(** The bytes of a stored key. *)
Lemma RdbKey_set_bytes junk key n a k :
  key ≠ [] →
  RdbKey_set junk key n a k = Some {| key_data := Some (be_bytes 3 n ++ encodeArea a ++ key); key_alloc := true |}.
Proof.
  intros Hk. unfold RdbKey_set. rewrite decide_False by done. cbv zeta.
  set (data := malloc junk _).
  assert (Hl : length data = (5 + length key)%nat).
  { unfold data, malloc. rewrite length_fmap, length_seq. unfold sRdbKeyBucketSize, sRdbKeyAreaSize. lia. }
  rewrite encodeBucketNumber_bytes by lia.
  rewrite poke_Some; [|simpl; lia|rewrite length_app, length_be_bytes, length_drop; unfold sRdbKeyBucketSize; simpl length; lia].
  rewrite bind_Some_eq. change (Z.to_nat (Z.of_nat sRdbKeyBucketSize)) with 3%nat.
  rewrite take_app_length', drop_app_ge, drop_drop by (rewrite length_be_bytes; simpl; lia).
  rewrite length_be_bytes. change (3 + (3 + length (encodeArea a) - 3))%nat with 5%nat.
  rewrite poke_Some; [|simpl; lia|rewrite !length_app, length_be_bytes, length_drop; unfold sRdbKeyBucketSize, sRdbKeyAreaSize; simpl length; lia].
  rewrite bind_Some_eq. change (Z.to_nat (Z.of_nat (sRdbKeyBucketSize + sRdbKeyAreaSize))) with 5%nat.
  rewrite !app_assoc.
  rewrite take_app_length' by (rewrite length_app, length_be_bytes; done).
  rewrite (drop_ge (_ ++ _)); [by rewrite app_nil_r, <- app_assoc|].
  rewrite !length_app, length_be_bytes, length_drop. simpl. lia.
Qed.

(** A stored key gives its parts back: the bucket, the area, the user's key and its
    size, for buckets of 24 and areas of 16 bits. *)
Lemma key_roundtrip junk key n a k :
  key ≠ [] → 0 <= n < 2 ^ 24 → 0 <= a < 2 ^ 16 →
  ∃ k', RdbKey_set junk key n a k = Some k' ∧ getBucketNumber k' = Some n ∧ RdbKey_area k' = Some a ∧
    RdbKey_key k' = Some key ∧ RdbKey_keySize k' = length key ∧
    mergedKey k' = Some (encodeArea a ++ key) ∧ mergedKeySize k' = (2 + length key)%nat.
Proof.
  intros Hk Hn Ha. eexists. split; [by apply RdbKey_set_bytes|].
  assert (Hlen : RdbKey_size {| key_data := Some (be_bytes 3 n ++ encodeArea a ++ key); key_alloc := true |}
    = (5 + length key)%nat).
  { unfold RdbKey_size. cbn [key_data default]. change (length (be_bytes 3 n ++ encodeArea a ++ key) = (5 + length key)%nat).
    rewrite !length_app, length_be_bytes. done. }
  unfold RdbKey_keySize, mergedKeySize. rewrite Hlen.
  assert (length key ≠ 0%nat) by (by destruct key).
  split_and!.
  - unfold getBucketNumber. cbn [key_data]. rewrite bind_Some_eq. by apply decodeBucketNumber_bytes.
  - unfold RdbKey_area. cbn [key_data]. rewrite drop_app_length' by (by rewrite length_be_bytes).
    exact (encodeArea_bytes a key Ha).
  - reflexivity.
  - unfold sRdbKeyBucketSize, sRdbKeyAreaSize. rewrite (proj2 (Nat.ltb_lt _ _)) by lia. lia.
  - reflexivity.
  - unfold sRdbKeyBucketSize, sRdbKeyAreaSize. rewrite (proj2 (Nat.ltb_lt _ _)) by lia. lia.
Qed.

(** ** Scans *)

(** The bytewise order of the database. *)
Fixpoint bytes_compare (l1 l2 : list Z) : comparison :=
  match l1, l2 with
  | [], [] => Eq
  | [], _ :: _ => Lt
  | _ :: _, [] => Gt
  | x :: l1, y :: l2 => match x ?= y with Eq => bytes_compare l1 l2 | c => c end
  end.

(** [k] is in the half-open range of a scan. *)
Definition in_scan (r : list Z * list Z) (k : list Z) : bool :=
  match bytes_compare k r.1, bytes_compare k r.2 with
  | Lt, _ => false
  | _, Lt => true
  | _, _ => false
  end.

Lemma be_bytes_S n z : be_bytes (S n) z = be_bytes n (Z.shiftr z 8) ++ [u8 z].
Proof. done. Qed.

Lemma compare_be_bytes n x y r1 r2 :
  0 <= x < 2 ^ (8 * Z.of_nat n) → 0 <= y < 2 ^ (8 * Z.of_nat n) →
  bytes_compare (be_bytes n x ++ r1) (be_bytes n y ++ r2) =
    match x ?= y with Eq => bytes_compare r1 r2 | c => c end.
Proof.
  revert x y r1 r2. induction n as [|n IH]; intros x y r1 r2 Hx Hy.
  { replace x with 0 by (simpl in *; lia). replace y with 0 by (simpl in *; lia). done. }
  rewrite !be_bytes_S, <- !app_assoc.
  replace (8 * Z.of_nat (S n)) with (8 * Z.of_nat n + 8) in Hx, Hy by lia. rewrite Z.pow_add_r in Hx, Hy by lia.
  rewrite !Z.shiftr_div_pow2 by lia.
  rewrite IH by (split; [apply Z.div_pos; lia|apply Z.div_lt_upper_bound; lia]).
  cbn [app bytes_compare]. unfold u8. pose proof (Z.div_mod x (2 ^ 8)). pose proof (Z.div_mod y (2 ^ 8)).
  pose proof (Z.mod_pos_bound x (2 ^ 8)). pose proof (Z.mod_pos_bound y (2 ^ 8)).
  destruct (Z.compare_spec (x / 2 ^ 8) (y / 2 ^ 8)), (Z.compare_spec (x mod 2 ^ 8) (y mod 2 ^ 8)),
    (Z.compare_spec x y); try done; lia.
Qed.

(** A scan of a bucket visits exactly its keys.  For every key stored in any bucket and
    area, the key is in the range [buildScanKey] gives for bucket [n] if and only if it is
    stored in bucket [n]. *)
Lemma scan_is_bucket junk key n n' a k k' data :
  key ≠ [] → 0 <= n < 2 ^ 24 - 1 → 0 <= n' < 2 ^ 24 →
  RdbKey_set junk key n' a k = Some k' → key_data k' = Some data →
  in_scan (buildScanKey n) data = true ↔ n' = n.
Proof.
  intros Hk Hn Hn'. rewrite RdbKey_set_bytes by done. intros Hset Hdata.
  assert (data = be_bytes 3 n' ++ encodeArea a ++ key) as ->.
  { apply (inj Some) in Hset. subst k'. symmetry. exact (inj Some _ _ Hdata). }
  unfold in_scan, buildScanKey. cbn [fst snd]. rewrite i32_id by lia.
  rewrite !encodeBucketNumber_bytes by (rewrite length_replicate; done).
  rewrite !compare_be_bytes by (simpl; lia).
  destruct (Z.compare_spec n' n), (Z.compare_spec n' (n + 1)); try lia; split; intros; try done; lia.
Qed.

(** a scan by area does not separate areas.  The range for area 1 contains a key of
    area 2 (and of every area, in a bucket between the two ends). *)
Lemma area_scan_leaks :
  ∃ k data, RdbKey_set (λ _, 0) [1] 5 2 RdbKey_new = Some k ∧ key_data k = Some data ∧
    in_scan (buildScanKeyWithArea 1) data = true.
Proof. eexists _, _. split; [reflexivity|]. split; [reflexivity|]. vm_compute. reflexivity. Qed.

(** ** Values *)

Record meta_ok (m : value_meta) : Prop := {
  mo_flag : is_u8 (v_flag m);
  mo_version : is_u16 (v_version m);
  mo_mdate : is_u32 (v_mdate m);
  mo_edate : is_u32 (v_edate m) }.

Lemma push32_value x b : 0 <= x < 2 ^ 24 → is_u8 b → push32 x b = x * 2 ^ 8 + b.
Proof.
  intros Hx Hb. unfold push32, u32. rewrite Z.mod_small by (rewrite Z.shiftl_mul_pow2; lia).
  by apply lor_shiftl_8.
Qed.

Lemma decode_u32 e :
  is_u32 e →
  push32 (push32 (push32 (u8 (Z.shiftr e 24)) (u8 (Z.shiftr e 16))) (u8 (Z.shiftr e 8))) (u8 e) = e.
Proof.
  intros He. pose proof (be_value_bytes_id 4 e He) as Hv. pose proof (be_bytes_u8 4 e) as Hu.
  change (be_bytes 4 e) with
    [u8 (Z.shiftr (Z.shiftr (Z.shiftr e 8) 8) 8); u8 (Z.shiftr (Z.shiftr e 8) 8); u8 (Z.shiftr e 8); u8 e] in Hv.
  rewrite !Z.shiftr_shiftr in Hv by lia. change (8 + (8 + 8)) with 24 in Hv. change (8 + 8) with 16 in Hv.
  pose proof (u8_bound (Z.shiftr e 24)) as H1. pose proof (u8_bound (Z.shiftr e 16)) as H2.
  pose proof (u8_bound (Z.shiftr e 8)) as H3. pose proof (u8_bound e) as H4. unfold is_u8 in *.
  etrans; [|exact Hv]. clear Hv Hu. unfold be_value. cbn [foldl]. rewrite Z.shiftl_0_l, Z.lor_0_l.
  rewrite !lor_shiftl_8 by (unfold is_u8; lia).
  rewrite (push32_value (u8 (Z.shiftr e 24))) by (unfold is_u8; lia).
  rewrite (push32_value (_ * _ + u8 (Z.shiftr e 16))) by (unfold is_u8; lia).
  rewrite push32_value by (unfold is_u8; lia). done.
Qed.

Lemma decode_encode m rest :
  meta_ok m →
  decodeFromBuf (encodeToBuf m ++ rest) =
    Some {| v_flag := v_flag m; v_version := v_version m mod 2 ^ 8; v_mdate := v_mdate m; v_edate := v_edate m |}.
Proof.
  intros [Hf Hv Hm He]. unfold encodeToBuf. cbn [app decodeFromBuf]. rewrite !decode_u32 by done.
  do 2 f_equal; [by apply Z.mod_small|].
  assert (Hz : u8 (Z.shiftr (u8 (v_version m)) 8) = 0).
  { pose proof (u8_bound (v_version m)) as Hb. unfold is_u8 in Hb.
    rewrite Z.shiftr_div_pow2, Z.div_small by lia. done. }
  rewrite Hz. unfold push16. rewrite Z.shiftl_0_l. cbn. done.
Qed.

(** A stored value gives back the value, the flag and both dates; of the version only the
    low byte survives: what is read is the version modulo 256. *)
Lemma item_roundtrip value i :
  value ≠ [] → meta_ok (item_meta i) →
  ∃ data i', item_data (RdbItem_set value i) = Some data ∧
    RdbItem_assign (Some data) RdbItem_new = Some i' ∧
    RdbItem_value i' = Some value ∧ RdbItem_valueSize i' = length value ∧
    v_flag (item_meta i') = v_flag (item_meta i) ∧ v_mdate (item_meta i') = v_mdate (item_meta i) ∧
    v_edate (item_meta i') = v_edate (item_meta i) ∧
    v_version (item_meta i') = v_version (item_meta i) mod 2 ^ 8.
Proof.
  intros Hv Hm. unfold RdbItem_set. rewrite decide_False by done. cbn [item_data].
  eexists _, _. split; [done|]. assert (length value ≠ 0%nat) by (by destruct value).
  split.
  { unfold RdbItem_assign. change (default [] (Some ?l)) with l. cbv zeta.
    change (length (encodeToBuf (item_meta i) ++ value)) with (11 + length value)%nat.
    rewrite (proj2 (Nat.leb_le _ _)) by (unfold ValueMeta_size; lia).
    rewrite decode_encode by done. rewrite bind_Some_eq. reflexivity. }
  split_and!; try done.
  unfold RdbItem_valueSize. cbn [item_data]. change (default [] (Some ?l)) with l. cbv zeta.
  change (length (encodeToBuf (item_meta i) ++ value)) with (11 + length value)%nat.
  unfold ValueMeta_size. rewrite (proj2 (Nat.leb_gt _ _)) by lia. lia.
Qed.

Lemma key_roundtrip_witness :
  ∃ k', RdbKey_set (λ _, 7) [104; 105] 70000 513 RdbKey_new = Some k' ∧ getBucketNumber k' = Some 70000 ∧
    RdbKey_area k' = Some 513 ∧ RdbKey_key k' = Some [104; 105] ∧ RdbKey_keySize k' = 2%nat ∧
    mergedKey k' = Some ([1; 2] ++ [104; 105]) ∧ mergedKeySize k' = 4%nat.
Proof. apply (key_roundtrip (λ _, 7) [104; 105] 70000 513 RdbKey_new); [discriminate|lia|lia]. Defined.

Lemma scan_is_bucket_witness : in_scan (buildScanKey 255) [0; 0; 255; 2; 0; 9] = true ↔ 255 = 255.
Proof.
  apply (scan_is_bucket (λ _, 7) [9] 255 255 2 RdbKey_new
    {| key_data := Some [0; 0; 255; 2; 0; 9]; key_alloc := true |}); [discriminate|lia|lia|reflexivity|reflexivity].
Defined.
