(* ===== verification/RingQueue.v ===== *)
(** * Queues of messages in a ring of bytes (src/src/common/bufferqueue.{h,cc})

    [CBufferQueue] keeps messages in a ring of bytes behind a header: every message is its
    length (8 bytes, as the machine stores them) and its bytes, wrapped around the end where
    needed.  [CLockBufferQueue] is the queue that threads share, with a second buffer that a
    single reader empties first.

    A pointer into [_data] is its offset.  The buffers of the caller are as long as the sizes
    it passes; what is written to them is the result.  [Full] is a thrown exception, mostly
    [buffer_full].
    [None] is an execution without meaning: a failed assertion or an access outside of the
    ring.  [CGuard] and [cv] only serialise: operations are atomic, a wait that ends with an
    empty queue finds nothing. *)
From S2P Require Import Prelude Buffers.

(** Integers as the machine stores them, least significant byte first. *)
Definition le_bytes (n : nat) (z : Z) : list Z := reverse (be_bytes n z).
Definition le_value (l : list Z) : Z := be_value (reverse l).

(** What an operation that may throw does. *)
Inductive outcome (A : Type) := Done (a : A) | Full.
Arguments Done {A} a.
Arguments Full {A}.

(** ** [CBufferQueue] *)

Definition ReserveLen : Z := 8.
Definition headerSize : Z := 40.

Record ring := {
  iBufSize : Z;
  iReserveLen : Z;
  iBegin : Z;
  iEnd : Z;
  iCount : Z;
  rdata : list Z }.

Definition set_begin (v : Z) (r : ring) : ring :=
  Build_ring (iBufSize r) (iReserveLen r) v (iEnd r) (iCount r) (rdata r).
Definition set_end (v : Z) (r : ring) : ring :=
  Build_ring (iBufSize r) (iReserveLen r) (iBegin r) v (iCount r) (rdata r).
Definition set_count (v : Z) (r : ring) : ring :=
  Build_ring (iBufSize r) (iReserveLen r) (iBegin r) (iEnd r) v (rdata r).
Definition set_rdata (m : list Z) (r : ring) : ring :=
  Build_ring (iBufSize r) (iReserveLen r) (iBegin r) (iEnd r) (iCount r) m.

Definition GetLen (m : list Z) (off : Z) : option Z := l ← peek m off 8; Some (le_value l).
Definition SetLen (m : list Z) (off u : Z) : option (list Z) := poke m off (le_bytes 8 u).

(** [create] on a block of [bufSize] aligned bytes; [mem] is what the ring held before. *)
Definition Ring_create (bufSize : Z) (mem : list Z) : outcome ring :=
  if bufSize <=? headerSize + 8 + ReserveLen then Full else
  Done {| iBufSize := bufSize - headerSize; iReserveLen := ReserveLen; iBegin := 0; iEnd := 0;
          iCount := 0; rdata := mem |}.

(** [attach] to a block whose header is that of [r]. *)
Definition Ring_attach (bufSize : Z) (r : ring) : outcome ring :=
  if bufSize <=? headerSize + 8 + ReserveLen then Full
  else if negb (iBufSize r =? bufSize - headerSize) then Full
  else if negb (iReserveLen r =? ReserveLen) then Full
  else if iBufSize r <=? iBegin r then Full
  else if bufSize - headerSize <? iEnd r then Full
  else Done r.

Definition isEmpty (r : ring) : bool := iBegin r =? iEnd r.
Definition Ring_count (r : ring) : Z := iCount r.

Definition isFull (len : Z) (r : ring) : option bool :=
  if len =? 0 then Some false
  else if iEnd r =? iBegin r then Some (iBufSize r <? len + 8 + ReserveLen)
  else if iBegin r <? iEnd r then
    _ ← assert_that (iBegin r + 8 <? iEnd r);
    Some (iBufSize r - iEnd r + iBegin r <? 8 + len + ReserveLen)
  else
    _ ← assert_that (iEnd r + ReserveLen <=? iBegin r);
    Some (iBegin r - iEnd r <? 8 + len + ReserveLen).

(** The message at the front when the used part is not split: its length. *)
Definition frontLen (r : ring) : option Z :=
  _ ← assert_that (iBegin r + 8 <? iEnd r);
  len ← GetLen (rdata r) (iBegin r);
  _ ← assert_that (u64 (iBegin r + 8 + len) <=? iEnd r);
  Some len.

(** The 8 bytes of a length that is split over the end of the ring. *)
Definition splitLen (m : list Z) (size begin : Z) : option Z :=
  a ← peek m begin (size - begin);
  b ← peek m 0 (begin + 8 - size);
  Some (le_value (a ++ b)).

(** The same when it is split: length, start of the data and position behind it. *)
Definition frontSplit (r : ring) : option (Z * Z * Z) :=
  _ ← assert_that (iEnd r + ReserveLen <=? iBegin r);
  _ ← assert_that (iBegin r + 1 <=? iBufSize r);
  if iBufSize r <? iBegin r + 8 then
    len ← splitLen (rdata r) (iBufSize r) (iBegin r);
    let from := iBegin r + 8 - iBufSize r in
    let new_begin := u64 (from + len) in
    _ ← assert_that (new_begin <=? iEnd r);
    Some (len, from, new_begin)
  else
    len ← GetLen (rdata r) (iBegin r);
    let from := if iBegin r + 8 =? iBufSize r then 0 else iBegin r + 8 in
    if u64 (iBegin r + 8 + len) <? iBufSize r then Some (len, from, u64 (iBegin r + 8 + len))
    else
      let new_begin := u64 (u64 (iBegin r + 8 + len) - iBufSize r) in
      _ ← assert_that (new_begin <=? iEnd r);
      Some (len, from, new_begin).

(** The bytes from [from] to [to], around the end when [to] is not behind [from]. *)
Definition gather (m : list Z) (size from to len : Z) : option (list Z) :=
  if from <? to then
    _ ← assert_that (to - from =? len);
    peek m from len
  else
    a ← peek m from (size - from);
    b ← peek m 0 to;
    _ ← assert_that (size - (from - to) =? len);
    Some (a ++ b).

Definition decCount (r : ring) : ring := if iCount r =? 0 then r else set_count (iCount r - 1) r.

(** [dequeue] into one buffer of [buffersize] bytes; [Done None] is false. *)
Definition Ring_dequeue (buffersize : Z) (r : ring) : option (outcome (option (list Z)) * ring) :=
  if isEmpty r then Some (Done None, r) else
  let r := decCount r in
  if iBegin r <? iEnd r then
    len ← frontLen r;
    let r' := set_begin (iBegin r + (len + 8)) r in
    if buffersize <? len then Some (Full, r') else
    d ← peek (rdata r) (iBegin r + 8) len;
    Some (Done (Some d), r')
  else
    '(len, from, to) ← frontSplit r;
    let r' := set_begin to r in
    if buffersize <? len then Some (Full, r') else
    d ← gather (rdata r) (iBufSize r) from to len;
    Some (Done (Some d), r').

Definition Ring_peek (buffersize : Z) (r : ring) : option (outcome (option (list Z)) * ring) :=
  if isEmpty r then Some (Done None, r) else
  if iBegin r <? iEnd r then
    len ← frontLen r;
    if buffersize <? len then Some (Full, r) else
    d ← peek (rdata r) (iBegin r + 8) len;
    Some (Done (Some d), r)
  else
    '(len, from, to) ← frontSplit r;
    if buffersize <? len then Some (Full, r) else
    d ← gather (rdata r) (iBufSize r) from to len;
    Some (Done (Some d), r).

(** The data of a message split over two buffers, the first of [size1] bytes; [from] and the
    data do not reach around the end. *)
Definition twoParts (m : list Z) (from len size1 : Z) : option (list Z * list Z) :=
  if len <? size1 then a ← peek m from len; Some (a, [])
  else a ← peek m from size1; b ← peek m (from + size1) (len - size1); Some (a, b).

(** The same for data that may reach around the end. *)
Definition gather2 (m : list Z) (size from to len size1 : Z) : option (list Z * list Z) :=
  if from <? to then
    _ ← assert_that (to - from =? len);
    twoParts m from len size1
  else
    _ ← assert_that (size - (from - to) =? len);
    if len <? size1 then
      a ← peek m from (size - from); b ← peek m 0 to; Some (a ++ b, [])
    else if size - from <? size1 then
      a ← peek m from (size - from);
      b ← peek m 0 (size1 - (size - from));
      c ← peek m (from + size1 - size) (len - size1);
      Some (a ++ b, c)
    else
      a ← peek m from size1;
      b ← peek m (from + size1) (size - from - size1);
      c ← peek m 0 (len - (size - from));
      Some (a, b ++ c).

(** [dequeue] into two buffers. *)
Definition Ring_dequeue2 (size1 size2 : Z) (r : ring) : option (outcome (option (list Z * list Z)) * ring) :=
  let buffersize := u32 (size1 + size2) in
  if isEmpty r then Some (Done None, r) else
  let r := decCount r in
  if iBegin r <? iEnd r then
    len ← frontLen r;
    let r' := set_begin (iBegin r + (len + 8)) r in
    if buffersize <? len then Some (Full, r') else
    d ← twoParts (rdata r) (iBegin r + 8) len size1;
    Some (Done (Some d), r')
  else
    '(len, from, to) ← frontSplit r;
    let r' := set_begin to r in
    if buffersize <? len then Some (Full, r') else
    d ← gather2 (rdata r) (iBufSize r) from to len size1;
    Some (Done (Some d), r').

(** [peek] into two buffers; a message that does not fit is skipped when it is not split. *)
Definition Ring_peek2 (size1 size2 : Z) (r : ring) : option (outcome (option (list Z * list Z)) * ring) :=
  let buffersize := u32 (size1 + size2) in
  if isEmpty r then Some (Done None, r) else
  if iBegin r <? iEnd r then
    len ← frontLen r;
    if buffersize <? len then Some (Full, set_begin (iBegin r + (len + 8)) r) else
    d ← twoParts (rdata r) (iBegin r + 8) len size1;
    Some (Done (Some d), r)
  else
    '(len, from, to) ← frontSplit r;
    if buffersize <? len then Some (Full, r) else
    d ← gather2 (rdata r) (iBufSize r) from to len size1;
    Some (Done (Some d), r).

(** A length written at [e], around the end of a ring of [size] bytes. *)
Definition putSplitLen (m : list Z) (size e len : Z) : option (list Z) :=
  let tmp := le_bytes 8 len in
  m ← poke m e (take (Z.to_nat (size - e)) tmp);
  poke m 0 (drop (Z.to_nat (size - e)) tmp).

(** [enqueue] of one buffer. *)
Definition Ring_enqueue (buffer : list Z) (r : ring) : option (outcome unit * ring) :=
  let len := Z.of_nat (length buffer) in
  if len =? 0 then Some (Done tt, r) else
  full ← isFull len r;
  if (full : bool) then Some (Full, r) else
  let size := iBufSize r in
  let e := iEnd r in
  '(m, e') ←
    (if size <? e + 8 then
       m ← putSplitLen (rdata r) size e len;
       m ← poke m (e + 8 - size) buffer;
       let e' := len + e + 8 - size in
       _ ← assert_that (e' + ReserveLen <=? iBegin r);
       Some (m, e')
     else if size <? e + 8 + len then
       m ← SetLen (rdata r) e len;
       let n := Z.to_nat (size - e - 8) in
       m ← poke m (e + 8) (take n buffer);
       m ← poke m 0 (drop n buffer);
       let e' := len - (size - e - 8) in
       _ ← assert_that (e' + ReserveLen <=? iBegin r);
       Some (m, e')
     else
       m ← SetLen (rdata r) e len;
       m ← poke m (e + 8) buffer;
       Some (m, (e + 8 + len) mod size));
  Some (Done tt, set_count (u32 (iCount r + 1)) (set_end e' (set_rdata m r))).

(** [enqueue] of two buffers as one message. *)
Definition Ring_enqueue2 (buffer1 buffer2 : list Z) (r : ring) : option (outcome unit * ring) :=
  let len1 := Z.of_nat (length buffer1) in
  let len2 := Z.of_nat (length buffer2) in
  let len := u32 (len1 + len2) in
  if len =? 0 then Some (Done tt, r) else
  full ← isFull len r;
  if (full : bool) then Some (Full, r) else
  let size := iBufSize r in
  let e := iEnd r in
  '(m, e') ←
    (if size <? e + 8 then
       m ← putSplitLen (rdata r) size e len;
       m ← poke m (e + 8 - size) buffer1;
       m ← poke m (e + 8 - size + len1) buffer2;
       let e' := len + e + 8 - size in
       _ ← assert_that (e' + ReserveLen <=? iBegin r);
       Some (m, e')
     else if size <? e + 8 + len then
       m ← SetLen (rdata r) e len;
       m ← (if size <? e + 8 + len1 then
              let n := Z.to_nat (size - e - 8) in
              m ← poke m (e + 8) (take n buffer1);
              m ← poke m 0 (drop n buffer1);
              poke m (len1 - (size - e - 8)) buffer2
            else
              let n := Z.to_nat (size - e - 8 - len1) in
              m ← poke m (e + 8) buffer1;
              m ← poke m (e + 8 + len1) (take n buffer2);
              poke m 0 (drop n buffer2));
       let e' := len - (size - e - 8) in
       _ ← assert_that (e' + ReserveLen <=? iBegin r);
       Some (m, e')
     else
       m ← SetLen (rdata r) e len;
       m ← poke m (e + 8) buffer1;
       m ← poke m (e + 8 + len1) buffer2;
       Some (m, (e + 8 + len) mod size));
  Some (Done tt, set_count (u32 (iCount r + 1)) (set_end e' (set_rdata m r))).

(** [getAllData]: the used part of the ring; the ring is empty afterwards. *)
Definition getAllData (r : ring) : option (option (list Z) * ring) :=
  if isEmpty r then Some (None, r) else
  l ← (if iBegin r <? iEnd r then peek (rdata r) (iBegin r) (u32 (iEnd r - iBegin r))
       else
         a ← peek (rdata r) (iBegin r) (iBufSize r - iBegin r);
         b ← peek (rdata r) 0 (iEnd r);
         Some (a ++ b));
  Some (Some l, set_count 0 (set_end 0 (set_begin 0 r))).

(** ** [CLockBufferQueue] *)

(** [m_tmp] is the second buffer of a single reader, with [m_tmpIndex] and [m_tmpEnd]. *)
Record lock_queue := {
  m_size : Z;
  m_queue : ring;
  m_isCond : bool;
  m_tmp : option (list Z);
  m_tmpIndex : Z;
  m_tmpEnd : Z }.

Definition set_queue (r : ring) (q : lock_queue) : lock_queue :=
  Build_lock_queue (m_size q) r (m_isCond q) (m_tmp q) (m_tmpIndex q) (m_tmpEnd q).
Definition set_tmp (t : option (list Z)) (i e : Z) (q : lock_queue) : lock_queue :=
  Build_lock_queue (m_size q) (m_queue q) (m_isCond q) t i e.

(** [init]; [junk] is the fresh memory. *)
Definition LockQueue_init (size : Z) (isCond singleread : bool) (junk : list Z) : outcome lock_queue :=
  match Ring_create size (take (Z.to_nat (size - headerSize)) junk) with
  | Full => Full
  | Done r => Done {| m_size := size; m_queue := r; m_isCond := isCond;
                      m_tmp := if singleread then Some (take (Z.to_nat size) junk) else None;
                      m_tmpIndex := 0; m_tmpEnd := 0 |}
  end.

Definition LockQueue_enqueue2 (b1 b2 : list Z) (q : lock_queue) : option (outcome unit * lock_queue) :=
  '(o, r) ← Ring_enqueue2 b1 b2 (m_queue q); Some (o, set_queue r q).
Definition LockQueue_enqueue (b : list Z) (q : lock_queue) : option (outcome unit * lock_queue) :=
  '(o, r) ← Ring_enqueue b (m_queue q); Some (o, set_queue r q).

(** [enqueue] of several units: as many as fit, in order. *)
Fixpoint LockQueue_enqueueAll (units : list (list Z * option (list Z))) (q : lock_queue)
    : option (nat * lock_queue) :=
  match units with
  | [] => Some (O, q)
  | (b1, b2) :: units =>
      '(o, q) ← (match b2 with Some b2 => LockQueue_enqueue2 b1 b2 q | None => LockQueue_enqueue b1 q end);
      match o with
      | Full => Some (O, q)
      | Done _ => '(n, q) ← LockQueue_enqueueAll units q; Some (S n, q)
      end
  end.

Definition resetTmp (q : lock_queue) : lock_queue := set_tmp (m_tmp q) 0 0 q.

(** [dequeueFromBuffer]; the first buffer is filled, [size2] bounds the second. *)
Definition dequeueFromBuffer (size1 size2 : Z) (q : lock_queue)
    : option (option (list Z * list Z) * lock_queue) :=
  match m_tmp q with
  | None => Some (None, q)
  | Some t =>
      let leftlen := m_tmpEnd q - m_tmpIndex q in
      if leftlen =? 0 then Some (None, q)
      else if leftlen <? 8 then Some (None, resetTmp q)
      else
        packetlen ← GetLen t (m_tmpIndex q);
        let idx := m_tmpIndex q + 8 in
        if m_tmpEnd q <? idx + packetlen then Some (None, resetTmp q)
        else if packetlen <? size1 then Some (None, resetTmp q)
        else
          a ← peek t idx size1;
          if size2 <? packetlen - size1 then Some (None, resetTmp q)
          else
            b ← peek t (idx + size1) (packetlen - size1);
            Some (Some (a, b), set_tmp (m_tmp q) (idx + packetlen) (m_tmpEnd q) q)
  end.

(** [dequeueNoBuffer]: an exception of the queue is caught. *)
Definition dequeueNoBuffer (size1 size2 msec : Z) (q : lock_queue)
    : option (option (list Z * list Z) * lock_queue) :=
  if isEmpty (m_queue q) && ((msec =? 0) || negb (m_isCond q)) then Some (None, q) else
  '(o, r) ← Ring_dequeue2 size1 size2 (m_queue q);
  Some (match o with Done d => d | Full => None end, set_queue r q).

Definition getQueueDataToBuffer (q : lock_queue) : option (bool * lock_queue) :=
  match m_tmp q with
  | None => Some (false, q)
  | Some t =>
      '(o, r) ← getAllData (m_queue q);
      match o with
      | None => Some (false, set_queue r q)
      | Some l =>
          t ← poke t 0 l;
          Some (true, set_tmp (Some t) 0 (Z.of_nat (length l)) (set_queue r q))
      end
  end.

(** [dequeue] into two buffers. *)
Definition LockQueue_dequeue2 (size1 size2 msec : Z) (q : lock_queue)
    : option (option (list Z * list Z) * lock_queue) :=
  '(d, q) ← dequeueFromBuffer size1 size2 q;
  match d with
  | Some d => Some (Some d, q)
  | None =>
      '(d, q) ← dequeueNoBuffer size1 size2 msec q;
      match d with
      | Some d => '(_, q) ← getQueueDataToBuffer q; Some (Some d, q)
      | None => Some (None, q)
      end
  end.

(** [dequeue] into one buffer; the second buffer is not looked at. *)
Definition LockQueue_dequeue (size msec : Z) (q : lock_queue) : option (option (list Z) * lock_queue) :=
  if isEmpty (m_queue q) && ((msec =? 0) || negb (m_isCond q)) then Some (None, q) else
  '(o, r) ← Ring_dequeue size (m_queue q);
  Some (match o with Done d => d | Full => None end, set_queue r q).

Definition LockQueue_isEmpty (q : lock_queue) : bool := isEmpty (m_queue q).
