(* ===== verification/RingSpec.v ===== *)
(** * The ring of bytes as a queue of messages

    A ring is viewed from a position on, around its end ([view]), and written the same way
    ([rput]); the operations of [CBufferQueue] are reads and writes of this view, whatever
    branch of the source they take.  The abstract queue is a list of messages with the bytes
    they may take. *)
From S2P Require Import Prelude Buffers RingQueue.

(** ** Views of a ring *)

(** Position [j] of a ring of [B] bytes, at most once around. *)
Definition wr (B j : nat) : nat := if decide (j < B)%nat then j else (j - B)%nat.

Definition view (m : list Z) (p n : nat) : list Z := (λ i, m !!! wr (length m) (p + i)) <$> seq 0 n.

(** [l] written from position [p] on. *)
Definition rput (m : list Z) (p : nat) (l : list Z) : list Z :=
  imap (λ j x, default x (l !! (if decide (p <= j)%nat then j - p else j + length m - p)%nat)) m.

Ltac wr_lia := unfold wr in *; repeat case_decide; lia.

Lemma length_view m p n : length (view m p n) = n.
Proof. unfold view. by rewrite length_fmap, length_seq. Qed.

Lemma length_rput m p l : length (rput m p l) = length m.
Proof. apply length_imap. Qed.

Lemma wr_lt B j : (j < 2 * B)%nat → (wr B j < B)%nat.
Proof. wr_lia. Qed.

Lemma view_lookup m p n i :
  (i < n)%nat → (p + i < 2 * length m)%nat → view m p n !! i = m !! wr (length m) (p + i).
Proof.
  intros Hi Hp. unfold view. rewrite list_lookup_fmap, lookup_seq_lt by done. simpl.
  symmetry. apply list_lookup_lookup_total_lt. by apply wr_lt.
Qed.

Lemma rput_lookup m p l j :
  (j < length m)%nat →
  rput m p l !! j = Some (default (m !!! j) (l !! (if decide (p <= j)%nat then j - p else j + length m - p)%nat)).
Proof.
  intros Hj. unfold rput. rewrite list_lookup_imap.
  destruct (lookup_lt_is_Some_2 m j Hj) as [x Hx]. rewrite (list_lookup_total_correct _ _ _ Hx), Hx. done.
Qed.

Lemma view_app m p n1 n2 :
  (p < length m)%nat → (n1 + n2 <= length m)%nat →
  view m p (n1 + n2) = view m p n1 ++ view m (wr (length m) (p + n1)) n2.
Proof.
  intros Hp Hn. unfold view. rewrite seq_app, fmap_app. f_equal.
  replace (seq (0 + n1) n2) with (Nat.add n1 <$> seq 0 n2) by (rewrite fmap_add_seq; f_equal; lia).
  rewrite <- list_fmap_compose. apply list_fmap_ext. intros i j Hij.
  apply lookup_seq in Hij as [-> Hi]. simpl. f_equal. wr_lia.
Qed.

Lemma peek_view m off len p n :
  off = Z.of_nat p → len = Z.of_nat n → (p + n <= length m)%nat → peek m off len = Some (view m p n).
Proof.
  intros -> -> Hp. unfold peek. rewrite !(proj2 (Z.leb_le _ _)) by lia. cbn [andb]. f_equal. rewrite !Nat2Z.id.
  apply list_eq. intros i. destruct (decide (i < n)%nat) as [Hi|Hi].
  - rewrite lookup_take_lt, lookup_drop, view_lookup by lia. f_equal. wr_lia.
  - rewrite !lookup_ge_None_2; [done|rewrite length_view; lia|rewrite length_take; lia].
Qed.

Lemma poke_rput m off p l :
  off = Z.of_nat p → (p + length l <= length m)%nat → poke m off l = Some (rput m p l).
Proof.
  intros -> Hp. unfold poke. rewrite !(proj2 (Z.leb_le _ _)) by lia. cbn [andb]. f_equal. rewrite !Nat2Z.id.
  apply list_eq. intros j. destruct (decide (j < length m)%nat) as [Hj|Hj].
  2:{ rewrite !lookup_ge_None_2; [done|rewrite length_rput; lia|].
      rewrite !length_app, length_take, length_drop. lia. }
  rewrite rput_lookup by done. case_decide as Hc.
  - rewrite lookup_app_r, length_take_le by (rewrite ?length_take; lia).
    destruct (decide (j - p < length l)%nat) as [Hl|Hl].
    + rewrite lookup_app_l by done. destruct (lookup_lt_is_Some_2 l (j - p) Hl) as [x ->]. done.
    + rewrite (lookup_ge_None_2 l) by lia. rewrite lookup_app_r, lookup_drop by lia. simpl.
      replace (p + length l + (j - p - length l))%nat with j by lia. by apply list_lookup_lookup_total_lt.
  - rewrite (lookup_ge_None_2 l) by lia. simpl. rewrite lookup_app_l, lookup_take_lt by (rewrite ?length_take; lia).
    by apply list_lookup_lookup_total_lt.
Qed.

Lemma rput_app m p l1 l2 :
  (p < length m)%nat → (length l1 + length l2 <= length m)%nat →
  rput m p (l1 ++ l2) = rput (rput m p l1) (wr (length m) (p + length l1)) l2.
Proof.
  intros Hp Hl. apply list_eq. intros j. destruct (decide (j < length m)%nat) as [Hj|Hj].
  2:{ rewrite !lookup_ge_None_2 by (rewrite !length_rput; lia). done. }
  rewrite !rput_lookup by (rewrite ?length_rput; done). rewrite length_rput. f_equal.
  set (k := (if decide (p <= j)%nat then j - p else j + length m - p)%nat).
  set (k2 := (if decide (wr (length m) (p + length l1) <= j)%nat then _ else _)).
  rewrite (list_lookup_total_correct _ _ _ (rput_lookup m p l1 j Hj)). fold k.
  destruct (decide (k < length l1)%nat) as [Hk|Hk].
  - rewrite lookup_app_l by done. destruct (lookup_lt_is_Some_2 l1 k Hk) as [x ->]. simpl.
    rewrite (lookup_ge_None_2 l2); [done|]. unfold k, k2 in *. wr_lia.
  - rewrite lookup_app_r by lia. rewrite (lookup_ge_None_2 l1) by lia. simpl.
    assert (k - length l1 = k2 ∨ (length l2 <= k - length l1 ∧ length l2 <= k2))%nat as [->|[H1 H2]]
      by (unfold k, k2 in *; wr_lia).
    + done.
    + by rewrite !(lookup_ge_None_2 l2) by lia.
Qed.

Lemma rput_nil m p : rput m p [] = m.
Proof.
  apply list_eq. intros j. unfold rput. rewrite list_lookup_imap, lookup_nil. by destruct (m !! j).
Qed.

Lemma view_rput_same m p l :
  (p < length m)%nat → (length l <= length m)%nat → view (rput m p l) p (length l) = l.
Proof.
  intros Hp Hl. apply list_eq. intros i. destruct (decide (i < length l)%nat) as [Hi|Hi].
  2:{ rewrite !lookup_ge_None_2 by (rewrite ?length_view; lia). done. }
  rewrite view_lookup, length_rput, rput_lookup by (rewrite ?length_rput; first [lia|wr_lia]).
  destruct (lookup_lt_is_Some_2 l i Hi) as [x Hx].
  replace (if decide _ then _ else _)%nat with i by wr_lia. by rewrite Hx.
Qed.

Lemma view_rput_before m q n l :
  (q < length m)%nat → (n + length l <= length m)%nat →
  view (rput m (wr (length m) (q + n)) l) q n = view m q n.
Proof.
  intros Hq Hn. apply list_eq. intros i. destruct (decide (i < n)%nat) as [Hi|Hi].
  2:{ rewrite !lookup_ge_None_2 by (rewrite ?length_view; lia). done. }
  rewrite !view_lookup, length_rput, rput_lookup by (rewrite ?length_rput; first [lia|wr_lia]).
  rewrite lookup_ge_None_2 by wr_lia. simpl. symmetry. apply list_lookup_lookup_total_lt. wr_lia.
Qed.

(** ** Reading around the end *)

(** Steps a read, a write or an assertion at the head of the goal. *)
Ltac peek_step p n :=
  match goal with |- (peek ?m ?off ?len ≫= _) = _ => rewrite (peek_view m off len p n) by lia; rewrite bind_Some_eq end.
Ltac poke_step p :=
  match goal with |- (poke ?m ?off ?l ≫= _) = _ =>
    rewrite (poke_rput m off p l) by (rewrite ?length_rput; lia); rewrite bind_Some_eq end.
Ltac assert_step :=
  match goal with |- (assert_that ?b ≫= _) = _ =>
    replace b with true by (symmetry; first [apply Z.leb_le|apply Z.ltb_lt|apply Z.eqb_eq]; lia);
    cbn [assert_that]; rewrite bind_Some_eq end.

Lemma gather_view m from len :
  (from < length m)%nat → (0 < len < length m)%nat →
  gather m (Z.of_nat (length m)) (Z.of_nat from) (Z.of_nat (wr (length m) (from + len))) (Z.of_nat len) =
    Some (view m from len).
Proof.
  intros Hf Hl. unfold gather. destruct (decide (from + len < length m)%nat) as [Hw|Hw].
  - replace (wr (length m) (from + len)) with (from + len)%nat by wr_lia.
    rewrite (proj2 (Z.ltb_lt _ _)) by lia. rewrite (proj2 (Z.eqb_eq _ _)) by lia. cbn [assert_that].
    rewrite bind_Some_eq. apply (peek_view _ _ _ from len); lia.
  - set (to := wr _ _). assert (Hto : to = (from + len - length m)%nat) by (unfold to; wr_lia).
    rewrite (proj2 (Z.ltb_ge _ _)) by lia. peek_step from%nat (length m - from)%nat.
    peek_step 0%nat to%nat.
    assert_step. replace len with ((length m - from) + to)%nat by lia. rewrite view_app by lia.
    do 2 f_equal. f_equal. wr_lia.
Qed.

Definition parts (size1 : nat) (d : list Z) : list Z * list Z :=
  if decide (length d < size1)%nat then (d, []) else (take size1 d, drop size1 d).

Lemma view_split m p n k :
  (p < length m)%nat → (n <= length m)%nat → (k <= n)%nat →
  take k (view m p n) = view m p k ∧ drop k (view m p n) = view m (wr (length m) (p + k)) (n - k).
Proof.
  intros Hp Hn Hk. replace n with (k + (n - k))%nat at 1 2 by lia. rewrite view_app by lia.
  rewrite take_app_length', drop_app_length' by (by rewrite length_view). done.
Qed.

Lemma twoParts_view m from len size1 :
  (from + len <= length m)%nat → (from < length m)%nat →
  twoParts m (Z.of_nat from) (Z.of_nat len) (Z.of_nat size1) = Some (parts size1 (view m from len)).
Proof.
  intros Hf Hfl. unfold twoParts, parts. rewrite length_view. case_decide as Hc.
  - rewrite (proj2 (Z.ltb_lt _ _)) by lia. peek_step from len. done.
  - rewrite (proj2 (Z.ltb_ge _ _)) by lia. peek_step from%nat size1%nat.
    peek_step (from + size1)%nat (len - size1)%nat.
    destruct (view_split m from len size1) as [-> ->]; [lia..|]. do 2 f_equal.
    destruct (decide (from + size1 < length m)%nat); [f_equal; wr_lia|].
    by replace (len - size1)%nat with 0%nat by lia.
Qed.

Lemma gather2_view m from len size1 :
  (from < length m)%nat → (0 < len < length m)%nat →
  gather2 m (Z.of_nat (length m)) (Z.of_nat from) (Z.of_nat (wr (length m) (from + len))) (Z.of_nat len)
    (Z.of_nat size1) = Some (parts size1 (view m from len)).
Proof.
  intros Hf Hl. unfold gather2. destruct (decide (from + len < length m)%nat) as [Hw|Hw].
  - replace (wr (length m) (from + len)) with (from + len)%nat by wr_lia.
    rewrite (proj2 (Z.ltb_lt _ _)) by lia. rewrite (proj2 (Z.eqb_eq _ _)) by lia. cbn [assert_that].
    rewrite bind_Some_eq. apply twoParts_view; lia.
  - set (to := wr _ _). assert (Hto : to = (from + len - length m)%nat) by (unfold to; wr_lia).
    rewrite (proj2 (Z.ltb_ge (Z.of_nat from) _)) by lia. rewrite (proj2 (Z.eqb_eq _ _)) by lia. cbn [assert_that].
    rewrite bind_Some_eq. set (k := (length m - from)%nat).
    assert (Hv : view m from len = view m from k ++ view m 0 to).
    { replace len with (k + to)%nat by lia. rewrite view_app by lia. do 2 f_equal. wr_lia. }
    unfold parts. rewrite length_view. case_decide as Hc.
    { rewrite (proj2 (Z.ltb_lt _ _)) by lia. peek_step from%nat k%nat.
      peek_step 0%nat to. by rewrite Hv. }
    rewrite (proj2 (Z.ltb_ge (Z.of_nat len) _)) by lia.
    destruct (Z.ltb_spec (Z.of_nat (length m) - Z.of_nat from) (Z.of_nat size1)) as [Hs|Hs].
    + peek_step from%nat k%nat.
      peek_step 0%nat (size1 - k)%nat.
      peek_step (from + size1 - length m)%nat (len - size1)%nat.
      destruct (view_split m from len size1) as [-> ->]; [lia..|].
      assert (Hv1 : view m from size1 = view m from k ++ view m 0 (size1 - k)).
      { replace size1 with (k + (size1 - k))%nat at 1 by lia. rewrite view_app by lia. do 2 f_equal. wr_lia. }
      rewrite Hv1. do 3 f_equal. wr_lia.
    + peek_step from%nat size1%nat.
      peek_step (from + size1)%nat (k - size1)%nat.
      peek_step 0%nat to%nat.
      destruct (view_split m from len size1) as [-> ->]; [lia..|]. do 2 f_equal.
      destruct (decide (size1 = k)) as [->|Hne].
      * rewrite Nat.sub_diag. simpl. replace (len - k)%nat with to by lia. f_equal. wr_lia.
      * replace (len - size1)%nat with ((k - size1) + to)%nat by lia.
        rewrite view_app by wr_lia. f_equal; [f_equal; wr_lia|f_equal; wr_lia].
Qed.

(** ** Messages in a ring *)

Lemma length_le_bytes n z : length (le_bytes n z) = n.
Proof. unfold le_bytes. by rewrite length_reverse, length_be_bytes. Qed.

Lemma le_value_bytes n z : 0 <= z < 2 ^ (8 * Z.of_nat n) → le_value (le_bytes n z) = z.
Proof. intros Hz. unfold le_value, le_bytes. rewrite reverse_involutive. by apply be_value_bytes_id. Qed.

Definition enc (d : list Z) : list Z := le_bytes 8 (Z.of_nat (length d)) ++ d.
Definition encs (ds : list (list Z)) : list Z := mjoin (enc <$> ds).

Lemma length_enc d : length (enc d) = (8 + length d)%nat.
Proof. unfold enc. by rewrite length_app, length_le_bytes. Qed.

Lemma encs_cons d ds : encs (d :: ds) = enc d ++ encs ds.
Proof. done. Qed.

Lemma encs_snoc ds d : encs (ds ++ [d]) = encs ds ++ enc d.
Proof. unfold encs. rewrite fmap_app, join_app. simpl. by rewrite app_nil_r. Qed.

Lemma encs_length_ge ds : (8 * length ds <= length (encs ds))%nat.
Proof.
  induction ds as [|d ds IH]; [simpl; lia|]. rewrite encs_cons, length_app, length_enc. simpl length. lia.
Qed.

(** The ring [r] holds the messages [ds]. *)
Record ring_ok (ds : list (list Z)) (r : ring) : Prop := {
  ro_size : iBufSize r = Z.of_nat (length (rdata r));
  ro_room : (16 < length (rdata r))%nat ∧ Z.of_nat (length (rdata r)) < 2 ^ 32;
  ro_begin : 0 <= iBegin r < iBufSize r;
  ro_used : (length (encs ds) + 8 <= length (rdata r))%nat;
  ro_end : iEnd r = Z.of_nat (wr (length (rdata r)) (Z.to_nat (iBegin r) + length (encs ds)));
  ro_view : view (rdata r) (Z.to_nat (iBegin r)) (length (encs ds)) = encs ds;
  ro_msgs : Forall (λ d, d ≠ []) ds;
  ro_count : iCount r = Z.of_nat (length ds) }.

Lemma GetLen_view m off p len :
  off = Z.of_nat p → (p + 8 <= length m)%nat → 0 <= len < 2 ^ 64 → view m p 8 = le_bytes 8 len → GetLen m off = Some len.
Proof.
  intros -> Hp Hl Hv. unfold GetLen. peek_step p 8%nat. by rewrite Hv, le_value_bytes.
Qed.

Lemma splitLen_view m p len :
  (p < length m < p + 8)%nat → (8 <= length m)%nat → 0 <= len < 2 ^ 64 → view m p 8 = le_bytes 8 len →
  splitLen m (Z.of_nat (length m)) (Z.of_nat p) = Some len.
Proof.
  intros Hp Hm Hl Hv. unfold splitLen. peek_step p (length m - p)%nat. peek_step 0%nat (p + 8 - length m)%nat.
  rewrite <- (le_value_bytes 8 len Hl), <- Hv. do 2 f_equal.
  replace 8%nat with ((length m - p) + (p + 8 - length m))%nat at 2 by lia. rewrite view_app by lia.
  do 2 f_equal. wr_lia.
Qed.

Section Front.
Context (d : list Z) (ds : list (list Z)) (r : ring) (Hr : ring_ok (d :: ds) r).
Abbreviation B := (length (rdata r)).
Abbreviation b := (Z.to_nat (iBegin r)).

Lemma front_used : length (encs (d :: ds)) = (8 + length d + length (encs ds))%nat ∧ (0 < length d)%nat.
Proof using Hr.
  rewrite encs_cons, length_app, length_enc. split; [lia|].
  pose proof (ro_msgs _ _ Hr) as Hm. apply list.Forall_cons in Hm as [Hd _]. destruct d; simpl; [done|lia].
Qed.

Lemma front_view :
  view (rdata r) b 8 = le_bytes 8 (Z.of_nat (length d)) ∧ view (rdata r) (wr B (b + 8)) (length d) = d ∧
  view (rdata r) (wr B (b + 8 + length d)) (length (encs ds)) = encs ds.
Proof using Hr.
  destruct Hr as [Hs [Hm H32] Hb Hu He Hv _ _]. destruct front_used as [Hf Hd]. rewrite Hf in Hu, Hv.
  rewrite Hs in Hb. rewrite <- Nat.add_assoc, view_app, view_app in Hv by (try wr_lia).
  rewrite encs_cons in Hv. unfold enc in Hv. rewrite <- app_assoc in Hv.
  apply app_inj_1 in Hv as [Hv1 Hv]; [|by rewrite length_view, length_le_bytes].
  apply app_inj_1 in Hv as [Hv2 Hv3]; [|by rewrite length_view]. split_and!; [done|done|].
  rewrite <- Hv3 at 2. f_equal. wr_lia.
Qed.

Lemma front_whole :
  iBegin r < iEnd r →
  frontLen r = Some (Z.of_nat (length d)) ∧ wr B (b + 8) = (b + 8)%nat ∧ (b + 8 + length d <= B)%nat ∧
  iBegin r + (Z.of_nat (length d) + 8) = Z.of_nat (wr B (b + 8 + length d)).
Proof using Hr.
  intros Hlt. destruct front_view as (Hv1 & _ & _). destruct front_used as [Hf Hd].
  destruct Hr as [Hs [Hm H32] Hb Hu He _ _ _]. rewrite Hf in Hu, He. rewrite Hs in Hb.
  assert (Hw : (b + (8 + length d + length (encs ds)) < B)%nat) by wr_lia.
  assert (HeE : iEnd r = iBegin r + Z.of_nat (8 + length d + length (encs ds))) by (rewrite He; wr_lia).
  split_and!; [|wr_lia|lia|wr_lia].
  unfold frontLen. assert_step. rewrite (GetLen_view _ _ b (Z.of_nat (length d))), bind_Some_eq by (done || lia).
  rewrite u64_id by lia. assert_step. done.
Qed.

Lemma front_split :
  iEnd r < iBegin r →
  frontSplit r = Some (Z.of_nat (length d), Z.of_nat (wr B (b + 8)), Z.of_nat (wr B (wr B (b + 8) + length d))).
Proof using Hr.
  intros Hlt. destruct front_view as (Hv1 & _ & _). destruct front_used as [Hf Hd].
  destruct Hr as [Hs [Hm H32] Hb Hu He _ _ _]. rewrite Hf in Hu, He. rewrite Hs in Hb.
  assert (Hw : (B <= b + (8 + length d + length (encs ds)))%nat) by wr_lia.
  assert (HeE : iEnd r = iBegin r + Z.of_nat (8 + length d + length (encs ds)) - Z.of_nat B) by (rewrite He; wr_lia).
  unfold frontSplit, ReserveLen. rewrite Hs. do 2 assert_step.
  destruct (Z.ltb_spec (Z.of_nat B) (iBegin r + 8)) as [Hsp|Hsp].
  - replace (iBegin r) with (Z.of_nat b) at 1 by lia.
    rewrite (splitLen_view _ b (Z.of_nat (length d))), bind_Some_eq by (done || lia).
    rewrite u64_id by lia. assert_step. do 2 f_equal; [f_equal; wr_lia|wr_lia].
  - rewrite (GetLen_view _ _ b (Z.of_nat (length d))), bind_Some_eq by (done || lia). rewrite !u64_id by lia.
    assert (Hfrom : (if iBegin r + 8 =? Z.of_nat B then 0 else iBegin r + 8) = Z.of_nat (wr B (b + 8)))
      by (destruct (Z.eqb_spec (iBegin r + 8) (Z.of_nat B)); wr_lia).
    rewrite Hfrom. destruct (Z.ltb_spec (iBegin r + 8 + Z.of_nat (length d)) (Z.of_nat B)) as [Hl|Hl].
    + do 2 f_equal. wr_lia.
    + rewrite u64_id by lia. assert_step. do 2 f_equal. wr_lia.
Qed.
End Front.

(** ** Taking messages *)

(** The ring after its first message, of [n] bytes, was taken. *)
Definition popped (n : nat) (r : ring) : ring :=
  set_begin (Z.of_nat (wr (length (rdata r)) (Z.to_nat (iBegin r) + 8 + n))) (decCount r).

Lemma empty_isEmpty r : ring_ok [] r → isEmpty r = true.
Proof.
  intros [Hs [Hm _] Hb _ He _ _ _]. unfold isEmpty. apply Z.eqb_eq. rewrite He. change (length (encs [])) with 0%nat. wr_lia.
Qed.

Lemma nonempty_split d ds r :
  ring_ok (d :: ds) r → isEmpty r = false ∧ (iBegin r < iEnd r ∨ iEnd r < iBegin r).
Proof.
  intros Hr. destruct (front_used d ds r Hr) as [Hf Hd]. destruct Hr as [Hs [Hm _] Hb Hu He _ _ _].
  rewrite Hf in Hu, He. assert (iBegin r ≠ iEnd r) by (rewrite He; wr_lia).
  unfold isEmpty. split; [by apply Z.eqb_neq|lia].
Qed.

Lemma popped_ok d ds r : ring_ok (d :: ds) r → ring_ok ds (popped (length d) r).
Proof.
  intros Hr. destruct (front_used d ds r Hr) as [Hf Hd]. destruct (front_view d ds r Hr) as (_ & _ & Hv).
  destruct Hr as [Hs [Hm H32] Hb Hu He _ Hms Hct]. rewrite Hf in Hu, He.
  assert (Hdec : decCount r = set_count (Z.of_nat (length ds)) r).
  { unfold decCount. rewrite Hct. simpl length. rewrite (proj2 (Z.eqb_neq _ 0)) by lia. f_equal. lia. }
  unfold popped. rewrite Hdec. split; cbn [iBufSize iReserveLen iBegin iEnd iCount rdata set_begin set_count]; try done.
  - wr_lia.
  - lia.
  - rewrite He, Nat2Z.id. f_equal. wr_lia.
  - rewrite Nat2Z.id. exact Hv.
  - by apply list.Forall_cons in Hms as [_ ?].
Qed.

(** A read of the first message by [whole] or, around the end, by [split]. *)
Lemma decCount_fields r :
  iBufSize (decCount r) = iBufSize r ∧ iBegin (decCount r) = iBegin r ∧ iEnd (decCount r) = iEnd r ∧
  rdata (decCount r) = rdata r ∧ frontLen (decCount r) = frontLen r ∧ frontSplit (decCount r) = frontSplit r.
Proof. unfold decCount. by destruct (iCount r =? 0). Qed.

Lemma wr_wr B p n : (p < B)%nat → (8 + n <= B)%nat → wr B (wr B (p + 8) + n) = wr B (p + 8 + n).
Proof. wr_lia. Qed.

Lemma dequeue_ok size d ds r :
  ring_ok (d :: ds) r →
  Ring_dequeue size r =
    Some (if size <? Z.of_nat (length d) then Full else Done (Some d), popped (length d) r).
Proof.
  intros Hr. destruct (nonempty_split d ds r Hr) as [Hne Hsp]. destruct (front_used d ds r Hr) as [Hf Hd].
  destruct (front_view d ds r Hr) as (_ & Hv & _). destruct (decCount_fields r) as (E1 & E2 & E3 & E4 & E5 & E6).
  pose proof (ro_size _ _ Hr) as Hs. pose proof (ro_begin _ _ Hr) as Hb. pose proof (ro_used _ _ Hr) as Hu.
  unfold Ring_dequeue. rewrite Hne. cbv zeta. rewrite E1, E2, E3, E4, E5, E6. destruct Hsp as [Hlt|Hlt].
  - rewrite (proj2 (Z.ltb_lt _ _)) by done. destruct (front_whole d ds r Hr Hlt) as (Hfl & Hw & Hle & Hnb).
    rewrite Hfl, bind_Some_eq, Hnb. fold (popped (length d) r). destruct (size <? _); [done|].
    peek_step (Z.to_nat (iBegin r) + 8)%nat (length d). by rewrite <- Hw, Hv.
  - rewrite (proj2 (Z.ltb_ge _ _)) by lia. rewrite (front_split d ds r Hr Hlt), bind_Some_eq. cbv beta iota.
    rewrite Hs, gather_view, wr_wr by (rewrite ?Hs in Hb; first [lia|wr_lia]). fold (popped (length d) r).
    rewrite bind_Some_eq, Hv. by destruct (size <? _).
Qed.

Lemma peek_ok size d ds r :
  ring_ok (d :: ds) r →
  Ring_peek size r = Some (if size <? Z.of_nat (length d) then Full else Done (Some d), r).
Proof.
  intros Hr. destruct (nonempty_split d ds r Hr) as [Hne Hsp]. destruct (front_used d ds r Hr) as [Hf Hd].
  destruct (front_view d ds r Hr) as (_ & Hv & _).
  pose proof (ro_size _ _ Hr) as Hs. pose proof (ro_begin _ _ Hr) as Hb. pose proof (ro_used _ _ Hr) as Hu.
  unfold Ring_peek. rewrite Hne. destruct Hsp as [Hlt|Hlt].
  - rewrite (proj2 (Z.ltb_lt _ _)) by done. destruct (front_whole d ds r Hr Hlt) as (Hfl & Hw & Hle & _).
    rewrite Hfl, bind_Some_eq. destruct (size <? _); [done|].
    peek_step (Z.to_nat (iBegin r) + 8)%nat (length d). by rewrite <- Hw, Hv.
  - rewrite (proj2 (Z.ltb_ge _ _)) by lia. rewrite (front_split d ds r Hr Hlt), bind_Some_eq. cbv beta iota.
    rewrite Hs, gather_view by (rewrite ?Hs in Hb; first [lia|wr_lia]).
    rewrite bind_Some_eq, Hv. by destruct (size <? _).
Qed.

Lemma dequeue2_ok size1 size2 d ds r :
  0 <= size1 → ring_ok (d :: ds) r →
  Ring_dequeue2 size1 size2 r =
    Some (if u32 (size1 + size2) <? Z.of_nat (length d) then Full else Done (Some (parts (Z.to_nat size1) d)),
          popped (length d) r).
Proof.
  intros H1 Hr. destruct (nonempty_split d ds r Hr) as [Hne Hsp]. destruct (front_used d ds r Hr) as [Hf Hd].
  destruct (front_view d ds r Hr) as (_ & Hv & _). destruct (decCount_fields r) as (E1 & E2 & E3 & E4 & E5 & E6).
  pose proof (ro_size _ _ Hr) as Hs. pose proof (ro_begin _ _ Hr) as Hb. pose proof (ro_used _ _ Hr) as Hu.
  unfold Ring_dequeue2. rewrite Hne. cbv zeta. rewrite E1, E2, E3, E4, E5, E6.
  destruct (Z_of_nat_complete size1 H1) as [s1 ->]. rewrite Nat2Z.id. destruct Hsp as [Hlt|Hlt].
  - rewrite (proj2 (Z.ltb_lt _ _)) by done. destruct (front_whole d ds r Hr Hlt) as (Hfl & Hw & Hle & Hnb).
    rewrite Hfl, bind_Some_eq, Hnb. fold (popped (length d) r). destruct (u32 _ <? _); [done|].
    replace (iBegin r + 8) with (Z.of_nat (Z.to_nat (iBegin r) + 8)) by lia.
    rewrite twoParts_view, bind_Some_eq by lia. by rewrite <- Hw, Hv.
  - rewrite (proj2 (Z.ltb_ge _ _)) by lia. rewrite (front_split d ds r Hr Hlt), bind_Some_eq. cbv beta iota.
    rewrite Hs, gather2_view, wr_wr by (rewrite ?Hs in Hb; first [lia|wr_lia]). fold (popped (length d) r).
    rewrite bind_Some_eq, Hv. by destruct (u32 _ <? _).
Qed.

(** ** Adding messages *)

Lemma used_pos ds r : ring_ok ds r → ds = [] ∨ (8 < length (encs ds))%nat.
Proof.
  intros Hr. destruct ds as [|d ds]; [by left|right]. destruct (front_used d ds r Hr) as [-> ?]. lia.
Qed.

(** Only the bytes in use count, not where they are. *)
Lemma isFull_ok len ds r :
  ring_ok ds r → 0 < len →
  isFull len r = Some (iBufSize r <? Z.of_nat (length (encs ds)) + 8 + len + ReserveLen).
Proof.
  intros Hr Hl. destruct (used_pos ds r Hr) as [->|Hu8]; destruct Hr as [Hs [Hm H32] Hb Hu He _ _ _];
    unfold isFull, ReserveLen in *; rewrite (proj2 (Z.eqb_neq _ 0)) by lia.
  - change (length (encs [])) with 0%nat in *. rewrite (proj2 (Z.eqb_eq _ _)) by (rewrite He; wr_lia).
    do 2 f_equal. lia.
  - destruct (decide (Z.to_nat (iBegin r) + length (encs ds) < length (rdata r))%nat) as [Hw|Hw].
    + assert (HeE : iEnd r = iBegin r + Z.of_nat (length (encs ds))) by (rewrite He; wr_lia).
      rewrite (proj2 (Z.eqb_neq _ _)) by lia. rewrite (proj2 (Z.ltb_lt _ _)) by lia. assert_step.
      f_equal. apply eq_true_iff_eq. rewrite !Z.ltb_lt. lia.
    + assert (HeE : iEnd r = iBegin r + Z.of_nat (length (encs ds)) - iBufSize r) by (rewrite He; wr_lia).
      rewrite (proj2 (Z.eqb_neq _ _)) by lia. rewrite (proj2 (Z.ltb_ge _ _)) by lia. assert_step.
      f_equal. apply eq_true_iff_eq. rewrite !Z.ltb_lt. lia.
Qed.

(** The ring after message [d] was added. *)
Definition pushed (d : list Z) (r : ring) : ring :=
  set_count (u32 (iCount r + 1))
    (set_end (Z.of_nat (wr (length (rdata r)) (Z.to_nat (iEnd r) + 8 + length d)))
       (set_rdata (rput (rdata r) (Z.to_nat (iEnd r)) (enc d)) r)).

Lemma pushed_ok d ds r :
  ring_ok ds r → d ≠ [] → (length (encs ds) + 8 + length d + 8 <= length (rdata r))%nat →
  ring_ok (ds ++ [d]) (pushed d r).
Proof.
  intros [Hs [Hm H32] Hb Hu He Hv Hms Hct] Hd Hroom. pose proof (encs_length_ge ds).
  assert (Hl : length (encs (ds ++ [d])) = (length (encs ds) + (8 + length d))%nat)
    by (by rewrite encs_snoc, length_app, length_enc).
  split; unfold pushed; cbn [iBufSize iReserveLen iBegin iEnd iCount rdata set_begin set_end set_count set_rdata];
    rewrite ?length_rput; try done.
  - rewrite Hl. lia.
  - rewrite Hl, He, Nat2Z.id. f_equal. wr_lia.
  - rewrite Hl, He, Nat2Z.id, view_app by (rewrite ?length_rput; lia). rewrite encs_snoc, length_rput. f_equal.
    + rewrite view_rput_before; [done|lia|]. rewrite length_enc. lia.
    + rewrite <- (length_enc d). apply view_rput_same; [wr_lia|]. rewrite length_enc. lia.
  - apply Forall_app. by rewrite Forall_singleton.
  - rewrite length_app, Hct. unfold u32. rewrite Z.mod_small by lia. simpl. lia.
Qed.

(** Writing a length and data around the end is one [rput]. *)
Lemma putSplitLen_rput m e len :
  (e < length m < e + 8)%nat → (8 <= length m)%nat →
  putSplitLen m (Z.of_nat (length m)) (Z.of_nat e) len = Some (rput m e (le_bytes 8 len)).
Proof.
  intros He Hm. unfold putSplitLen. set (k := Z.to_nat (Z.of_nat (length m) - Z.of_nat e)).
  assert (Hk : k = (length m - e)%nat) by lia. pose proof (length_le_bytes 8 len) as Hl.
  rewrite (poke_rput _ _ e) by (rewrite ?length_take; lia). rewrite bind_Some_eq.
  rewrite (poke_rput _ _ 0) by (rewrite ?length_rput, ?length_drop; lia). f_equal.
  rewrite <- (take_drop k (le_bytes 8 len)) at 3. rewrite rput_app by (rewrite ?length_take, ?length_drop; lia).
  f_equal. rewrite length_take_le by lia. wr_lia.
Qed.

Lemma rput_enc m e d :
  (e < length m)%nat → (8 + length d <= length m)%nat →
  rput m e (enc d) = rput (rput m e (le_bytes 8 (Z.of_nat (length d)))) (wr (length m) (e + 8)) d.
Proof. intros He Hd. unfold enc. rewrite rput_app by (rewrite ?length_le_bytes; lia). by rewrite length_le_bytes. Qed.

(** The new end, in the two forms of the source. *)
Lemma push_end e n B :
  (e < B)%nat → (8 + n < B)%nat →
  (Z.of_nat e + 8 + Z.of_nat n) mod Z.of_nat B = Z.of_nat (wr B (e + 8 + n)) ∧
  ((B <= e + 8 + n)%nat → Z.of_nat (wr B (e + 8 + n)) = Z.of_nat (e + 8 + n - B)).
Proof.
  intros He Hn. split; [|wr_lia]. unfold wr. case_decide as Hc.
  - rewrite Z.mod_small; lia.
  - replace (Z.of_nat e + 8 + Z.of_nat n) with (Z.of_nat (e + 8 + n - B) + 1 * Z.of_nat B) by lia.
    rewrite Z.mod_add, Z.mod_small; lia.
Qed.

Lemma bind_assoc {X Y T} (o : option X) (f : X → option Y) (g : Y → option T) :
  ((x ← o; f x) ≫= g) = (x ← o; f x ≫= g).
Proof. by destruct o. Qed.

(** A write at [p] that ends at the end of the ring or before, and one that reaches around. *)
Lemma poke_wr m off p l :
  off = Z.of_nat p → (p + length l <= length m)%nat → poke m off l = Some (rput m (wr (length m) p) l).
Proof.
  intros -> Hp. rewrite (poke_rput _ _ p) by (done || lia). f_equal.
  destruct (decide (p < length m)%nat); [f_equal; wr_lia|]. destruct l; [by rewrite !rput_nil|simpl in *; lia].
Qed.

Lemma poke_around m off p l n :
  off = Z.of_nat p → n = (length m - p)%nat → (p <= length m)%nat → (n <= length l <= length m)%nat →
  (m ← poke m off (take n l); poke m 0 (drop n l)) = Some (rput m (wr (length m) p) l).
Proof.
  intros -> -> Hp Hl. rewrite (poke_wr m _ p), bind_Some_eq by (rewrite ?length_take; lia).
  rewrite (poke_wr _ _ 0) by (rewrite ?length_rput, ?length_drop; lia). rewrite length_rput. f_equal.
  destruct (decide (p < length m)%nat) as [Hlt|Hge].
  - replace (rput m (wr (length m) p) l)
      with (rput m (wr (length m) p) (take (length m - p) l ++ drop (length m - p) l)) by (by rewrite take_drop).
    rewrite rput_app by (rewrite ?length_take, ?length_drop; wr_lia).
    f_equal. rewrite length_take. wr_lia.
  - replace (length m - p)%nat with 0%nat by lia. rewrite take_0, drop_0, rput_nil. f_equal. wr_lia.
Qed.

Section Push.
Context (ds : list (list Z)) (r : ring) (Hr : ring_ok ds r) (d : list Z) (Hd : d ≠ []).
Hypothesis Hroom : (length (encs ds) + 8 + length d + 8 <= length (rdata r))%nat.

Lemma push_facts :
  iEnd r = Z.of_nat (Z.to_nat (iEnd r)) ∧ (Z.to_nat (iEnd r) < length (rdata r))%nat ∧
  ((length (rdata r) <= Z.to_nat (iEnd r) + 8 + length d)%nat →
   Z.of_nat (Z.to_nat (iEnd r) + 8 + length d - length (rdata r)) + ReserveLen <= iBegin r) ∧
  isFull (Z.of_nat (length d)) r = Some false ∧ (0 < length d)%nat.
Proof using Hr Hd Hroom.
  assert (Hdl : (0 < length d)%nat) by (destruct d; simpl; [done|lia]).
  pose proof (ro_end _ _ Hr) as He. pose proof (ro_begin _ _ Hr) as Hb. pose proof (ro_size _ _ Hr) as Hs.
  split_and!.
  - lia.
  - rewrite He, Nat2Z.id. wr_lia.
  - unfold ReserveLen. rewrite He, Nat2Z.id. wr_lia.
  - rewrite (isFull_ok _ ds) by (done || lia). f_equal. apply Z.ltb_ge. unfold ReserveLen. lia.
  - done.
Qed.

Lemma enqueue_ok : Ring_enqueue d r = Some (Done tt, pushed d r).
Proof using Hr Hd Hroom.
  destruct push_facts as (HeZ & HeB & Hwrap & Hfull & Hl). pose proof (ro_size _ _ Hr) as Hs.
  unfold Ring_enqueue. rewrite (proj2 (Z.eqb_neq _ 0)) by lia. rewrite Hfull, bind_Some_eq.
  set (e := Z.to_nat (iEnd r)) in *. rewrite HeZ, Hs. unfold ReserveLen in *.
  destruct (push_end e (length d) (length (rdata r))) as [Hend Hend']; [lia..|].
  match goal with |- (?inner ≫= _) = _ => assert (Hin : inner =
    Some (rput (rdata r) e (enc d), Z.of_nat (wr (length (rdata r)) (e + 8 + length d)))) end.
  { rewrite (rput_enc (rdata r) e d) by lia.
    set (m1 := rput (rdata r) e (le_bytes 8 (Z.of_nat (length d)))).
    assert (Hm1 : length m1 = length (rdata r)) by apply length_rput.
    pose proof (length_le_bytes 8 (Z.of_nat (length d))) as H8.
    destruct (Z.ltb_spec (Z.of_nat (length (rdata r))) (Z.of_nat e + 8)) as [Hc1|Hc1].
    - rewrite putSplitLen_rput, bind_Some_eq by lia. fold m1. poke_step (e + 8 - length (rdata r))%nat.
      assert_step. rewrite Hend' by lia. do 3 f_equal; [wr_lia|lia].
    - unfold SetLen.
      destruct (Z.ltb_spec (Z.of_nat (length (rdata r))) (Z.of_nat e + 8 + Z.of_nat (length d))) as [Hc2|Hc2].
      + poke_step e. fold m1. rewrite <- bind_assoc.
        rewrite (poke_around m1 _ (e + 8)), bind_Some_eq by lia. rewrite Hm1. assert_step. rewrite Hend' by lia.
        do 3 f_equal. lia.
      + poke_step e. fold m1. rewrite (poke_wr m1 _ (e + 8)), bind_Some_eq by lia. by rewrite Hm1, Hend. }
  rewrite Hin, bind_Some_eq. done.
Qed.

(** Two buffers are one message. *)
Lemma enqueue2_ok d1 d2 : d = d1 ++ d2 → Ring_enqueue2 d1 d2 r = Some (Done tt, pushed d r).
Proof using Hr Hd Hroom.
  intros E. destruct push_facts as (HeZ & HeB & Hwrap & Hfull & Hl). destruct (ro_room _ _ Hr) as [Hm H32].
  pose proof (ro_size _ _ Hr) as Hs. assert (Hlen : length d = (length d1 + length d2)%nat) by (by rewrite E, length_app).
  assert (HlZ : Z.of_nat (length d1) + Z.of_nat (length d2) = Z.of_nat (length d)) by lia.
  unfold Ring_enqueue2. rewrite HlZ, u32_id by (unfold is_u32; lia).
  rewrite (proj2 (Z.eqb_neq _ 0)) by lia. rewrite Hfull, bind_Some_eq.
  set (e := Z.to_nat (iEnd r)) in *. rewrite HeZ, Hs. unfold ReserveLen in *.
  destruct (push_end e (length d) (length (rdata r))) as [Hend Hend']; [lia..|].
  match goal with |- (?inner ≫= _) = _ => assert (Hin : inner =
    Some (rput (rdata r) e (enc d), Z.of_nat (wr (length (rdata r)) (e + 8 + length d)))) end;
    [|rewrite Hin, bind_Some_eq; done].
  rewrite (rput_enc (rdata r) e d) by lia.
  set (m1 := rput (rdata r) e (le_bytes 8 (Z.of_nat (length d)))).
  assert (Hm1 : length m1 = length (rdata r)) by apply length_rput.
  pose proof (length_le_bytes 8 (Z.of_nat (length d))) as H8.
  rewrite E, (rput_app m1) by (rewrite ?Hm1; wr_lia). rewrite <- E, Hm1.
  set (m2 := rput m1 (wr (length (rdata r)) (e + 8)) d1).
  assert (Hm2 : length m2 = length (rdata r)) by (by unfold m2; rewrite length_rput).
  destruct (Z.ltb_spec (Z.of_nat (length (rdata r))) (Z.of_nat e + 8)) as [Hc1|Hc1].
  - rewrite putSplitLen_rput, bind_Some_eq by lia. fold m1.
    rewrite (poke_rput m1 _ (e + 8 - length (rdata r))), bind_Some_eq by lia.
    replace (e + 8 - length (rdata r))%nat with (wr (length (rdata r)) (e + 8)) by wr_lia. fold m2.
    rewrite (poke_wr m2 _ (e + 8 + length d1 - length (rdata r))), bind_Some_eq by lia.
    assert_step. rewrite Hend', Hm2 by lia. do 3 f_equal; [wr_lia|lia].
  - unfold SetLen.
    destruct (Z.ltb_spec (Z.of_nat (length (rdata r))) (Z.of_nat e + 8 + Z.of_nat (length d))) as [Hc2|Hc2];
      poke_step e; fold m1.
    + match goal with |- (?inner ≫= _) = _ => assert (Hin : inner =
        Some (rput m2 (wr (length (rdata r)) (wr (length (rdata r)) (e + 8) + length d1)) d2)) end.
      { destruct (Z.ltb_spec (Z.of_nat (length (rdata r))) (Z.of_nat e + 8 + Z.of_nat (length d1))) as [Hc3|Hc3].
        - rewrite <- bind_assoc. rewrite (poke_around m1 _ (e + 8)), bind_Some_eq by lia. rewrite Hm1. fold m2.
          rewrite (poke_wr m2 _ (e + 8 + length d1 - length (rdata r))) by lia. rewrite Hm2. do 2 f_equal. wr_lia.
        - rewrite (poke_wr m1 _ (e + 8)), bind_Some_eq by lia. rewrite Hm1. fold m2.
          rewrite (poke_around m2 _ (e + 8 + length d1)) by lia. rewrite Hm2. do 2 f_equal. wr_lia. }
      rewrite Hin, bind_Some_eq. assert_step. rewrite Hend' by lia. do 2 f_equal. lia.
    + rewrite (poke_wr m1 _ (e + 8)), bind_Some_eq by lia. rewrite Hm1. fold m2.
      rewrite (poke_wr m2 _ (e + 8 + length d1)), bind_Some_eq by lia. rewrite Hm2, Hend. do 3 f_equal. wr_lia.
Qed.
End Push.

(** ** Everything at once *)

Definition emptied (r : ring) : ring := set_count 0 (set_end 0 (set_begin 0 r)).

Lemma getAllData_ok ds r :
  ring_ok ds r →
  getAllData r = Some (match ds with [] => (None, r) | _ => (Some (encs ds), emptied r) end).
Proof.
  intros Hr. destruct ds as [|d ds]; [unfold getAllData; by rewrite (empty_isEmpty r Hr)|].
  destruct (nonempty_split d ds r Hr) as [Hne Hsp]. destruct Hr as [Hs [Hm H32] Hb Hu He Hv _ _].
  set (n := length (encs (d :: ds))) in *. unfold getAllData. rewrite Hne.
  assert (Hin : (if iBegin r <? iEnd r then peek (rdata r) (iBegin r) (u32 (iEnd r - iBegin r))
    else a ← peek (rdata r) (iBegin r) (iBufSize r - iBegin r); b ← peek (rdata r) 0 (iEnd r); Some (a ++ b))
    = Some (encs (d :: ds))); [|by rewrite Hin, bind_Some_eq].
  rewrite <- Hv. set (b := Z.to_nat (iBegin r)) in *. destruct Hsp as [Hlt|Hlt].
  - rewrite (proj2 (Z.ltb_lt _ _)) by done. assert (HeE : iEnd r = iBegin r + Z.of_nat n) by (rewrite He; wr_lia).
    apply (peek_view _ _ _ b n); [lia| |wr_lia]. rewrite u32_id by (unfold is_u32; lia). lia.
  - rewrite (proj2 (Z.ltb_ge _ _)) by lia.
    assert (HeE : iEnd r = iBegin r + Z.of_nat n - iBufSize r) by (rewrite He; wr_lia).
    peek_step b (length (rdata r) - b)%nat. peek_step 0%nat (b + n - length (rdata r))%nat.
    replace n with ((length (rdata r) - b) + (b + n - length (rdata r)))%nat at 2 by lia.
    rewrite view_app by lia. do 2 f_equal. f_equal. wr_lia.
Qed.

Lemma emptied_ok ds r : ring_ok ds r → ring_ok [] (emptied r).
Proof.
  intros [Hs [Hm H32] Hb Hu He Hv _ _].
  split; unfold emptied; cbn [iBufSize iBegin iEnd iCount rdata set_begin set_end set_count]; try done.
  - lia.
  - change (length (encs [])) with 0%nat. lia.
  - change (length (encs [])) with 0%nat. change (Z.to_nat 0) with 0%nat. wr_lia.
Qed.

Lemma create_ok size mem :
  headerSize + 16 < size < 2 ^ 32 → Z.of_nat (length mem) = size - headerSize →
  ∃ r, Ring_create size mem = Done r ∧ ring_ok [] r ∧ iBufSize r = size - headerSize.
Proof.
  intros Hs Hm. unfold Ring_create, headerSize, ReserveLen in *. rewrite (proj2 (Z.leb_gt _ _)) by lia.
  eexists. split; [done|]. split; [|done].
  split; cbn [iBufSize iBegin iEnd iCount rdata]; try done; try lia;
    change (length (encs [])) with 0%nat; try lia. wr_lia.
Qed.

(** ** The queue that the ring implements *)

Inductive queue_op :=
| Enqueue (d : list Z) | Enqueue2 (d1 d2 : list Z) | Dequeue (size : Z) | Dequeue2 (size1 size2 : Z)
| Peek (size : Z) | Count | IsEmpty | TakeAll.

Inductive queue_obs :=
| Sent (o : outcome unit) | Got (o : outcome (option (list Z))) | Got2 (o : outcome (option (list Z * list Z)))
| Counted (n : Z) | Emptiness (b : bool) | Taken (o : option (list Z)).

(** What the program asks of the ring. *)
Definition ring_op (op : queue_op) (r : ring) : option (queue_obs * ring) :=
  match op with
  | Enqueue d => '(o, r) ← Ring_enqueue d r; Some (Sent o, r)
  | Enqueue2 d1 d2 => '(o, r) ← Ring_enqueue2 d1 d2 r; Some (Sent o, r)
  | Dequeue n => '(o, r) ← Ring_dequeue n r; Some (Got o, r)
  | Dequeue2 n1 n2 => '(o, r) ← Ring_dequeue2 n1 n2 r; Some (Got2 o, r)
  | Peek n => '(o, r) ← Ring_peek n r; Some (Got o, r)
  | Count => Some (Counted (Ring_count r), r)
  | IsEmpty => Some (Emptiness (isEmpty r), r)
  | TakeAll => '(o, r) ← getAllData r; Some (Taken o, r)
  end.

Fixpoint ring_run (ops : list queue_op) (r : ring) : option (list queue_obs * ring) :=
  match ops with
  | [] => Some ([], r)
  | op :: ops => '(o, r) ← ring_op op r; '(os, r) ← ring_run ops r; Some (o :: os, r)
  end.

(** The queue: a list of messages, each with 8 bytes of overhead, in [size] bytes of which 8
    stay free; sizes in bytes only, no positions. *)
Definition spec_enqueue (size : Z) (d : list Z) (ds : list (list Z)) : outcome unit * list (list Z) :=
  if decide (d = []) then (Done tt, ds)
  else if size <? Z.of_nat (length (encs ds)) + 8 + Z.of_nat (length d) + 8 then (Full, ds)
  else (Done tt, ds ++ [d]).

Definition spec_op (size : Z) (op : queue_op) (ds : list (list Z)) : queue_obs * list (list Z) :=
  match op with
  | Enqueue d => let '(o, ds) := spec_enqueue size d ds in (Sent o, ds)
  | Enqueue2 d1 d2 => let '(o, ds) := spec_enqueue size (d1 ++ d2) ds in (Sent o, ds)
  | Dequeue n =>
      match ds with
      | [] => (Got (Done None), [])
      | d :: ds => (Got (if n <? Z.of_nat (length d) then Full else Done (Some d)), ds)
      end
  | Dequeue2 n1 n2 =>
      match ds with
      | [] => (Got2 (Done None), [])
      | d :: ds => (Got2 (if u32 (n1 + n2) <? Z.of_nat (length d) then Full
                          else Done (Some (parts (Z.to_nat n1) d))), ds)
      end
  | Peek n =>
      match ds with
      | [] => (Got (Done None), [])
      | d :: _ => (Got (if n <? Z.of_nat (length d) then Full else Done (Some d)), ds)
      end
  | Count => (Counted (Z.of_nat (length ds)), ds)
  | IsEmpty => (Emptiness (bool_decide (ds = [])), ds)
  | TakeAll => (Taken (match ds with [] => None | _ => Some (encs ds) end), [])
  end.

Fixpoint spec_run (size : Z) (ops : list queue_op) (ds : list (list Z)) : list queue_obs * list (list Z) :=
  match ops with
  | [] => ([], ds)
  | op :: ops => let '(o, ds) := spec_op size op ds in let '(os, ds) := spec_run size ops ds in (o :: os, ds)
  end.

(** Sizes a caller can pass: a message below 4 GB, sizes that are not negative. *)
Definition op_ok (op : queue_op) : Prop :=
  match op with
  | Enqueue2 d1 d2 => Z.of_nat (length d1) + Z.of_nat (length d2) < 2 ^ 32
  | Dequeue2 n1 _ => 0 <= n1
  | _ => True
  end.

Lemma enqueue_refines d ds r :
  ring_ok ds r →
  ∃ r', Ring_enqueue d r = Some ((spec_enqueue (iBufSize r) d ds).1, r') ∧
    ring_ok (spec_enqueue (iBufSize r) d ds).2 r' ∧ iBufSize r' = iBufSize r.
Proof.
  intros Hr. unfold spec_enqueue. destruct (decide (d = [])) as [->|Hd].
  { exists r. unfold Ring_enqueue. done. }
  assert (Hl : (0 < length d)%nat) by (destruct d; simpl; [done|lia]). pose proof (ro_size _ _ Hr) as Hs.
  destruct (Z.ltb_spec (iBufSize r) (Z.of_nat (length (encs ds)) + 8 + Z.of_nat (length d) + 8)) as [Hf|Hf].
  - exists r. unfold Ring_enqueue. rewrite (proj2 (Z.eqb_neq _ 0)) by lia. rewrite (isFull_ok _ ds) by (done || lia).
    rewrite bind_Some_eq, (proj2 (Z.ltb_lt _ _)) by (unfold ReserveLen; lia). done.
  - exists (pushed d r). rewrite (enqueue_ok ds) by (done || lia). split_and!; [done| |done].
    apply pushed_ok; [done|done|lia].
Qed.

Lemma enqueue2_refines d1 d2 ds r :
  ring_ok ds r → Z.of_nat (length d1) + Z.of_nat (length d2) < 2 ^ 32 →
  ∃ r', Ring_enqueue2 d1 d2 r = Some ((spec_enqueue (iBufSize r) (d1 ++ d2) ds).1, r') ∧
    ring_ok (spec_enqueue (iBufSize r) (d1 ++ d2) ds).2 r' ∧ iBufSize r' = iBufSize r.
Proof.
  intros Hr H32. unfold spec_enqueue. pose proof (length_app d1 d2) as Hla. pose proof (ro_size _ _ Hr) as Hs.
  assert (Hu : u32 (Z.of_nat (length d1) + Z.of_nat (length d2)) = Z.of_nat (length (d1 ++ d2)))
    by (rewrite u32_id by (unfold is_u32; lia); lia).
  destruct (decide (d1 ++ d2 = [])) as [Hd|Hd].
  { exists r. unfold Ring_enqueue2. rewrite Hu, Hd. done. }
  assert (Hl : (0 < length (d1 ++ d2))%nat) by (destruct (d1 ++ d2); simpl; [done|lia]).
  destruct (Z.ltb_spec (iBufSize r) (Z.of_nat (length (encs ds)) + 8 + Z.of_nat (length (d1 ++ d2)) + 8)) as [Hf|Hf].
  - exists r. unfold Ring_enqueue2. rewrite Hu, (proj2 (Z.eqb_neq _ 0)) by lia.
    rewrite (isFull_ok _ ds) by (done || lia).
    rewrite bind_Some_eq, (proj2 (Z.ltb_lt _ _)) by (unfold ReserveLen; lia). done.
  - exists (pushed (d1 ++ d2) r). rewrite (enqueue2_ok ds r Hr (d1 ++ d2)) by (done || lia). split_and!; [done| |done].
    apply pushed_ok; [done|done|lia].
Qed.

Lemma ring_op_refines op ds r :
  ring_ok ds r → op_ok op →
  ∃ r', ring_op op r = Some ((spec_op (iBufSize r) op ds).1, r') ∧
    ring_ok (spec_op (iBufSize r) op ds).2 r' ∧ iBufSize r' = iBufSize r.
Proof.
  intros Hr Hop. destruct op as [d|d1 d2|n|n1 n2|n| | |]; cbn [ring_op spec_op op_ok] in *.
  - destruct (enqueue_refines d ds r Hr) as (r' & -> & Hr' & Hs). rewrite bind_Some_eq.
    destruct (spec_enqueue _ _ _). by exists r'.
  - destruct (enqueue2_refines d1 d2 ds r Hr Hop) as (r' & -> & Hr' & Hs). rewrite bind_Some_eq.
    destruct (spec_enqueue _ _ _). by exists r'.
  - destruct ds as [|d ds].
    + exists r. unfold Ring_dequeue. by rewrite (empty_isEmpty r Hr).
    + rewrite (dequeue_ok n d ds r Hr), bind_Some_eq. eexists. split; [done|]. split; [by apply popped_ok|].
      unfold popped, decCount. by destruct (iCount r =? 0).
  - destruct ds as [|d ds].
    + exists r. unfold Ring_dequeue2. by rewrite (empty_isEmpty r Hr).
    + rewrite (dequeue2_ok n1 n2 d ds r Hop Hr), bind_Some_eq. eexists. split; [done|]. split; [by apply popped_ok|].
      unfold popped, decCount. by destruct (iCount r =? 0).
  - destruct ds as [|d ds].
    + exists r. unfold Ring_peek. by rewrite (empty_isEmpty r Hr).
    + rewrite (peek_ok n d ds r Hr), bind_Some_eq. by eexists.
  - exists r. unfold Ring_count. by rewrite (ro_count _ _ Hr).
  - exists r. split_and!; [|done|done]. destruct ds as [|d ds].
    + by rewrite (empty_isEmpty r Hr).
    + by destruct (nonempty_split d ds r Hr) as [-> _].
  - rewrite (getAllData_ok ds r Hr), bind_Some_eq. destruct ds as [|d ds]; [by exists r|].
    eexists. split; [done|]. split; [by apply (emptied_ok (d :: ds))|done].
Qed.

(** C16: the ring of bytes is a queue of messages.  A program of enqueues of one or two
    buffers, dequeues and peeks, counts and drains on a fresh ring never fails an assertion
    or leaves the ring, and observes exactly what it observes on a list of messages with a
    bound on their bytes: messages come out whole, in order and once, wherever they are
    wrapped around the end; a message that does not fit is refused, one that is too long for
    the buffer of the caller is dropped. *)
Theorem ring_refines_queue size mem ops :
  headerSize + 16 < size < 2 ^ 32 → Z.of_nat (length mem) = size - headerSize → Forall op_ok ops →
  ∃ r r', Ring_create size mem = Done r ∧
    ring_run ops r = Some ((spec_run (size - headerSize) ops []).1, r') ∧
    ring_ok (spec_run (size - headerSize) ops []).2 r'.
Proof.
  intros Hs Hm Hops. destruct (create_ok size mem Hs Hm) as (r & Hr & Hok & Hsz). exists r.
  rewrite <- Hsz. clear Hs Hm Hsz. revert Hok. assert (Hgen : ∀ ds r, ring_ok ds r →
    ∃ r', ring_run ops r = Some ((spec_run (iBufSize r) ops ds).1, r') ∧ ring_ok (spec_run (iBufSize r) ops ds).2 r').
  { clear Hr r. induction Hops as [|op ops Hop _ IH]; intros ds r Hok; [by exists r|]. cbn [ring_run spec_run].
    destruct (ring_op_refines op ds r Hok Hop) as (r1 & -> & Hok1 & Hs1). rewrite bind_Some_eq. cbv beta iota.
    destruct (spec_op (iBufSize r) op ds) as [o ds1]. destruct (IH ds1 r1 Hok1) as (r2 & -> & Hok2).
    rewrite bind_Some_eq, Hs1 in *. destruct (spec_run (iBufSize r) ops ds1). by exists r2. }
  intros Hok. destruct (Hgen [] r Hok) as (r' & Hrun & Hok'). exists r'. split; [done|]. by split.
Qed.

(** A ring of 40 bytes: two messages of 8 and 6 bytes are in it, a third is refused; after
    the first was taken the third is stored around the end. *)
Lemma ring_refines_queue_witness :
  ∃ r r', Ring_create 80 (replicate 40 0) = Done r ∧
    ring_run [Enqueue (replicate 8 1); Enqueue2 [2; 2] [3; 3; 3; 3]; Enqueue [4; 5; 6]; Dequeue 8; Enqueue [4; 5; 6];
              Peek 2; Dequeue2 2 9; Count; TakeAll; IsEmpty] r =
      Some ([Sent (Done tt); Sent (Done tt); Sent Full; Got (Done (Some (replicate 8 1))); Sent (Done tt); Got Full;
             Got2 (Done (Some ([2; 2], [3; 3; 3; 3]))); Counted 1;
             Taken (Some [3; 0; 0; 0; 0; 0; 0; 0; 4; 5; 6]); Emptiness true], r').
Proof.
  destruct (ring_refines_queue 80 (replicate 40 0)
    [Enqueue (replicate 8 1); Enqueue2 [2; 2] [3; 3; 3; 3]; Enqueue [4; 5; 6]; Dequeue 8; Enqueue [4; 5; 6];
     Peek 2; Dequeue2 2 9; Count; TakeAll; IsEmpty]) as (r & r' & Hr & Hrun & _).
  - done.
  - reflexivity.
  - repeat constructor; simpl; lia.
  - exists r, r'. split; [exact Hr|]. rewrite Hrun. vm_compute. reflexivity.
Defined.
