(* ===== verification/LockSpec.v ===== *)
(** * The queue that threads share, as a queue of messages

    [CLockBufferQueue] with a second buffer: the single reader takes messages of the second
    buffer first and moves everything the ring holds there whenever it has to take a message
    from the ring.  The abstract queue is one list of messages. *)
From S2P Require Import Prelude Buffers RingQueue RingSpec.

(** ** The second buffer *)

(** [ts] is what the second buffer still holds, [rs] what the ring holds. *)
Record lock_ok (ts rs : list (list Z)) (q : lock_queue) : Prop := {
  lo_ring : ring_ok rs (m_queue q);
  lo_tmp : ∃ t, m_tmp q = Some t ∧ Z.of_nat (length t) = iBufSize (m_queue q) + headerSize ∧
    0 <= m_tmpIndex q ∧ m_tmpEnd q = m_tmpIndex q + Z.of_nat (length (encs ts)) ∧
    m_tmpEnd q <= Z.of_nat (length t) ∧
    view t (Z.to_nat (m_tmpIndex q)) (length (encs ts)) = encs ts }.

(** Messages of a header of [n1] bytes and at most [n2] bytes of data. *)
Definition fits (n1 n2 : Z) (d : list Z) : Prop := n1 <= Z.of_nat (length d) <= n1 + n2.

Lemma parts_fits n1 d : (n1 <= length d)%nat → parts n1 d = (take n1 d, drop n1 d).
Proof. intros H. unfold parts. rewrite decide_False by lia. done. Qed.

Lemma tmp_front n1 n2 d ts rs q :
  lock_ok (d :: ts) rs q → 0 <= n1 → fits n1 n2 d →
  ∃ q', dequeueFromBuffer n1 n2 q = Some (Some (parts (Z.to_nat n1) d), q') ∧ lock_ok ts rs q' ∧
    m_queue q' = m_queue q.
Proof.
  intros [Hr (t & Ht & Hlt & Hi & He & Hle & Hv)] Hn1 [Hd1 Hd2].
  destruct (ro_room _ _ Hr) as [_ H32]. rewrite (ro_size _ _ Hr) in Hlt. unfold headerSize in Hlt.
  rewrite encs_cons, length_app, length_enc in He, Hv.
  set (i := Z.to_nat (m_tmpIndex q)) in *.
  assert (Hi8 : (i + 8 + length d + length (encs ts) <= length t)%nat) by lia.
  rewrite view_app in Hv by lia. apply app_inj_1 in Hv as [Hvd Hvt]; [|by rewrite length_view, length_enc].
  rewrite view_app in Hvd by lia. unfold enc in Hvd.
  apply app_inj_1 in Hvd as [Hv8 Hvd]; [|by rewrite length_view, length_le_bytes].
  unfold dequeueFromBuffer. rewrite Ht, He.
  rewrite (proj2 (Z.eqb_neq _ 0)), (proj2 (Z.ltb_ge _ 8)) by lia.
  rewrite (GetLen_view t _ i (Z.of_nat (length d))), bind_Some_eq by (done || lia).
  rewrite (proj2 (Z.ltb_ge (m_tmpIndex q + Z.of_nat _) _)), (proj2 (Z.ltb_ge (Z.of_nat (length d)) _)) by lia.
  eexists. split; [|split; [split|]].
  - peek_step (i + 8)%nat (Z.to_nat n1). rewrite (proj2 (Z.ltb_ge _ _)) by lia.
    peek_step (i + 8 + Z.to_nat n1)%nat (length d - Z.to_nat n1)%nat. do 3 f_equal. rewrite parts_fits, <- Hvd by lia. rewrite length_view.
    destruct (decide (length d = 0)%nat) as [H0|H0].
    { replace (Z.to_nat n1) with 0%nat by lia. rewrite H0. done. }
    destruct (view_split t (wr (length t) (i + 8)) (length d) (Z.to_nat n1)) as [-> ->]; [wr_lia|lia|lia|].
    f_equal; [f_equal; wr_lia|]. destruct (decide (Z.to_nat n1 = length d)) as [->|Hne].
    { by rewrite Nat.sub_diag. }
    f_equal. wr_lia.
  - done.
  - exists t. cbn [set_tmp m_tmp m_tmpIndex m_tmpEnd m_queue]. split_and!; [done|rewrite (ro_size _ _ Hr); unfold headerSize; lia|lia|lia|lia|].
    rewrite <- Hvt at 2. destruct (length (encs ts)) as [|n] eqn:El; [done|]. f_equal. wr_lia.
  - done.
Qed.

Lemma tmp_empty n1 n2 rs q : lock_ok [] rs q → dequeueFromBuffer n1 n2 q = Some (None, q).
Proof.
  intros [_ (t & Ht & _ & _ & He & _)]. unfold dequeueFromBuffer. rewrite Ht, He.
  by rewrite (proj2 (Z.eqb_eq _ _)) by (change (length (encs [])) with 0%nat; lia).
Qed.

(** The ring moves into the second buffer whole. *)
Lemma move_ok rs q :
  lock_ok [] rs q → ∃ b q', getQueueDataToBuffer q = Some (b, q') ∧ lock_ok rs [] q' ∧ iBufSize (m_queue q') = iBufSize (m_queue q).
Proof.
  intros [Hr (t & Ht & Hlt & Hi & He & Hle & Hv)]. unfold getQueueDataToBuffer. rewrite Ht.
  rewrite (getAllData_ok rs _ Hr), bind_Some_eq. destruct rs as [|d rs].
  { exists false. eexists. split; [done|]. split; [|done]. split; [done|]. exists t. done. }
  pose proof (ro_used _ _ Hr) as Hu. rewrite (ro_size _ _ Hr) in Hlt. unfold headerSize in Hlt.
  cbv beta iota. rewrite (poke_rput t 0 0 (encs (d :: rs))), bind_Some_eq by lia.
  exists true. eexists. split; [done|]. split; [split|done].
  - by apply (emptied_ok (d :: rs)).
  - eexists. cbn [set_tmp set_queue m_tmp m_tmpIndex m_tmpEnd m_queue]. split; [done|].
    unfold emptied; cbn [iBufSize set_begin set_end set_count]. rewrite length_rput, (ro_size _ _ Hr).
    unfold headerSize. split_and!; [lia|done|lia|lia|]. apply view_rput_same; lia.
Qed.

(** ** Programs of a writer and a single reader *)

Inductive lock_op := Push (d1 d2 : list Z) | Push1 (d : list Z) | Pop (msec : Z).
Inductive lock_obs := Pushed (d : list Z) (o : outcome unit) | Popped (o : option (list Z * list Z)).

Definition lock_step (n1 n2 : Z) (op : lock_op) (q : lock_queue) : option (lock_obs * lock_queue) :=
  match op with
  | Push d1 d2 => '(o, q) ← LockQueue_enqueue2 d1 d2 q; Some (Pushed (d1 ++ d2) o, q)
  | Push1 d => '(o, q) ← LockQueue_enqueue d q; Some (Pushed d o, q)
  | Pop msec => '(o, q) ← LockQueue_dequeue2 n1 n2 msec q; Some (Popped o, q)
  end.

Fixpoint lock_run (n1 n2 : Z) (ops : list lock_op) (q : lock_queue) : option (list lock_obs * lock_queue) :=
  match ops with
  | [] => Some ([], q)
  | op :: ops => '(o, q) ← lock_step n1 n2 op q; '(os, q) ← lock_run n1 n2 ops q; Some (o :: os, q)
  end.

(** What a queue of messages in [size] bytes allows to observe, from the messages [ds] on: a
    message is refused only when it does not fit behind [ds], a reader finds nothing only
    when there is nothing. *)
Inductive queue_trace (size n1 : Z) : list (list Z) → list lock_obs → list (list Z) → Prop :=
| qt_nil ds : queue_trace size n1 ds [] ds
| qt_pushed ds d os ds' :
    queue_trace size n1 (ds ++ [d]) os ds' → queue_trace size n1 ds (Pushed d (Done tt) :: os) ds'
| qt_refused ds d os ds' :
    size < Z.of_nat (length (encs ds)) + 8 + Z.of_nat (length d) + 8 →
    queue_trace size n1 ds os ds' → queue_trace size n1 ds (Pushed d Full :: os) ds'
| qt_popped d ds os ds' :
    queue_trace size n1 ds os ds' →
    queue_trace size n1 (d :: ds) (Popped (Some (take (Z.to_nat n1) d, drop (Z.to_nat n1) d)) :: os) ds'
| qt_empty os ds' : queue_trace size n1 [] os ds' → queue_trace size n1 [] (Popped None :: os) ds'.

Definition lock_op_ok (n1 n2 : Z) (op : lock_op) : Prop :=
  match op with
  | Push d1 d2 => d1 ++ d2 ≠ [] ∧ fits n1 n2 (d1 ++ d2)
  | Push1 d => d ≠ [] ∧ fits n1 n2 d
  | Pop _ => True
  end.

Lemma encs_app ds1 ds2 : encs (ds1 ++ ds2) = encs ds1 ++ encs ds2.
Proof. unfold encs. by rewrite fmap_app, join_app. Qed.

Lemma set_ring_ok ts rs rs' r' q :
  lock_ok ts rs q → ring_ok rs' r' → iBufSize r' = iBufSize (m_queue q) → lock_ok ts rs' (set_queue r' q).
Proof. intros [_ Ht] Hr' Hs. split; [done|]. cbn [set_queue m_tmp m_queue m_tmpIndex m_tmpEnd]. by rewrite Hs. Qed.

Section Programs.
Context (n1 n2 size : Z) (Hn1 : 0 <= n1) (Hn2 : 0 <= n2) (H32 : n1 + n2 < 2 ^ 32).

Definition held (ds : list (list Z)) (q : lock_queue) : Prop :=
  ∃ ts rs, ds = ts ++ rs ∧ lock_ok ts rs q ∧ Forall (fits n1 n2) ds ∧ iBufSize (m_queue q) = size.

(** One step of the queue allows what the rest of the trace allows. *)
Definition step_ok (ds : list (list Z)) (r : option (lock_obs * lock_queue)) : Prop :=
  ∃ o q' ds', r = Some (o, q') ∧ held ds' q' ∧
    ∀ os dsf, queue_trace size n1 ds' os dsf → queue_trace size n1 ds (o :: os) dsf.

Lemma push_step d ds q (f : ring → option (outcome unit * ring)) :
  d ≠ [] → fits n1 n2 d → held ds q →
  (∀ rs, ring_ok rs (m_queue q) → ∃ r', f (m_queue q) = Some ((spec_enqueue size d rs).1, r') ∧
     ring_ok (spec_enqueue size d rs).2 r' ∧ iBufSize r' = size) →
  step_ok ds ('(o, q) ← ('(o, r) ← f (m_queue q); Some (o, set_queue r q)); Some (Pushed d o, q)).
Proof using Type.
  intros Hd Hfit (ts & rs & -> & Hq & Hall & Hs) Hf.
  destruct (Hf rs (lo_ring _ _ _ Hq)) as (r' & -> & Hr' & Hs'). rewrite !bind_Some_eq. cbv beta iota.
  revert Hr'. unfold spec_enqueue. rewrite decide_False by done.
  destruct (Z.ltb_spec size (Z.of_nat (length (encs rs)) + 8 + Z.of_nat (length d) + 8)) as [Hfull|Hroom]; intros Hr'.
  - do 3 eexists. split; [done|]. split.
    + exists ts, rs. split_and!; [done| |done|done]. apply (set_ring_ok ts rs); [done|done|congruence].
    + intros os dsf Ht. apply qt_refused; [|done]. rewrite encs_app, length_app. lia.
  - do 3 eexists. split; [done|]. split.
    + exists ts, (rs ++ [d]). split_and!; [done|apply (set_ring_ok ts rs); [done|done|congruence]| |done].
      rewrite app_assoc. apply Forall_app. split; [done|]. by apply Forall_singleton.
    + intros os dsf Ht. apply qt_pushed. by rewrite <- app_assoc.
Qed.

Lemma pop_step msec ds q : held ds q → step_ok ds ('(o, q) ← LockQueue_dequeue2 n1 n2 msec q; Some (Popped o, q)).
Proof using Hn1 Hn2 H32.
  intros (ts & rs & -> & Hq & Hall & Hs). unfold LockQueue_dequeue2. destruct ts as [|d ts].
  2:{ simpl in Hall. apply list.Forall_cons in Hall as [Hd Hall].
      destruct (tmp_front n1 n2 d ts rs q Hq Hn1 Hd) as (q' & -> & Hq' & Hsame). rewrite !bind_Some_eq. cbv beta iota.
      destruct Hd as [Hd _]. rewrite parts_fits by lia.
      do 3 eexists. split; [done|]. split; [exists ts, rs; split_and!; [done|done|done|congruence]|].
      intros os dsf Ht. by apply qt_popped. }
  rewrite (tmp_empty n1 n2 rs q Hq), bind_Some_eq. cbv beta iota. unfold dequeueNoBuffer.
  pose proof (lo_ring _ _ _ Hq) as Hr. destruct rs as [|d rs].
  - assert (Hnone : step_ok [] (Some (Popped None, q))).
    { do 3 eexists. split; [done|]. split; [exists [], []; done|]. intros os dsf Ht. by apply qt_empty. }
    unfold Ring_dequeue2. rewrite (empty_isEmpty _ Hr). cbn [andb].
    destruct ((msec =? 0) || negb (m_isCond q)); rewrite !bind_Some_eq; [done|]. cbv beta iota.
    by destruct q.
  - destruct (nonempty_split d rs _ Hr) as [-> _]. cbn [andb]. rewrite (dequeue2_ok n1 n2 d rs _ Hn1 Hr), bind_Some_eq.
    cbv beta iota. simpl in Hall. apply list.Forall_cons in Hall as [[Hd1 Hd2] Hall].
    rewrite u32_id by (unfold is_u32; lia). rewrite (proj2 (Z.ltb_ge _ _)) by lia. rewrite bind_Some_eq. cbv beta iota.
    assert (Hq' : lock_ok [] rs (set_queue (popped (length d) (m_queue q)) q)).
    { apply (set_ring_ok [] (d :: rs)); [done|by apply popped_ok|]. unfold popped, decCount. by destruct (_ =? 0). }
    destruct (move_ok rs _ Hq') as (b & q' & -> & Hq2 & Hs2). rewrite !bind_Some_eq. cbv beta iota.
    rewrite parts_fits by lia. do 3 eexists. split; [done|]. split.
    + exists rs, []. rewrite app_nil_r. split_and!; [done|done|done|]. rewrite Hs2. cbn [set_queue m_queue].
      unfold popped, decCount. by destruct (iCount (m_queue q) =? 0).
    + intros os dsf Ht. by apply qt_popped.
Qed.

Lemma lock_step_ok op ds q : lock_op_ok n1 n2 op → held ds q → step_ok ds (lock_step n1 n2 op q).
Proof using Hn1 Hn2 H32.
  intros Hop Hh. pose proof Hh as (_ & _ & _ & _ & _ & Hsz). destruct op as [d1 d2|d|msec]; cbn [lock_step lock_op_ok] in *.
  - destruct Hop as [Hne Hfit]. unfold LockQueue_enqueue2. apply (push_step (d1 ++ d2) ds q (Ring_enqueue2 d1 d2)); [done|done|done|].
    intros rs Hr. destruct Hfit as [_ Hfit]. rewrite length_app in Hfit.
    destruct (enqueue2_refines d1 d2 rs (m_queue q) Hr) as (r' & Hrun & Hok & Hs'); [lia|].
    rewrite Hsz in *. by exists r'.
  - destruct Hop as [Hne Hfit]. unfold LockQueue_enqueue. apply (push_step d ds q (Ring_enqueue d)); [done|done|done|].
    intros rs Hr. destruct (enqueue_refines d rs (m_queue q) Hr) as (r' & Hrun & Hok & Hs'). rewrite Hsz in *. by exists r'.
  - by apply pop_step.
Qed.

Lemma lock_run_ok ops ds q :
  Forall (lock_op_ok n1 n2) ops → held ds q →
  ∃ os q' ds', lock_run n1 n2 ops q = Some (os, q') ∧ held ds' q' ∧ queue_trace size n1 ds os ds'.
Proof using Hn1 Hn2 H32.
  intros Hops. revert ds q. induction Hops as [|op ops Hop _ IH]; intros ds q Hh.
  { exists [], q, ds. split; [done|]. split; [done|constructor]. }
  destruct (lock_step_ok op ds q Hop Hh) as (o & q1 & ds1 & Hstep & Hh1 & Htr).
  destruct (IH ds1 q1 Hh1) as (os & q2 & ds2 & Hrun & Hh2 & Ht2). cbn [lock_run]. rewrite Hstep, bind_Some_eq. cbv beta iota.
  rewrite Hrun, bind_Some_eq. exists (o :: os), q2, ds2. split; [done|]. split; [done|]. by apply Htr.
Qed.
End Programs.

Lemma lock_init_ok size isCond junk :
  headerSize + 16 < size < 2 ^ 32 → size <= Z.of_nat (length junk) →
  ∃ q, LockQueue_init size isCond true junk = Done q ∧ lock_ok [] [] q ∧ iBufSize (m_queue q) = size - headerSize.
Proof.
  intros Hs Hj. unfold LockQueue_init.
  destruct (create_ok size (take (Z.to_nat (size - headerSize)) junk)) as (r & -> & Hok & Hsz); [done|unfold headerSize in *; rewrite length_take; lia|].
  eexists. split; [done|]. split; [|done]. split; [done|]. eexists.
  cbn [m_tmp m_queue m_tmpIndex m_tmpEnd]. split; [done|]. rewrite Hsz. unfold headerSize in *. rewrite length_take.
  change (length (encs [])) with 0%nat. split_and!; try done; lia.
Qed.

(** The shared queue with a single reader loses, repeats and reorders nothing.  A program
    of enqueues of messages that fit the buffers of the reader, and of its dequeues, in any
    interleaving, never fails; everything observed is what one queue of messages allows,
    although the messages live in two places and move from one to the other: every accepted
    message is delivered in order, cut into header and data at the size of the header; a
    message is refused only when the ring is too small for it and what is pending. *)
Lemma lock_queue_fifo size isCond junk n1 n2 ops :
  headerSize + 16 < size < 2 ^ 32 → size <= Z.of_nat (length junk) →
  0 <= n1 → 0 <= n2 → n1 + n2 < 2 ^ 32 → Forall (lock_op_ok n1 n2) ops →
  ∃ q os q' ds, LockQueue_init size isCond true junk = Done q ∧ lock_run n1 n2 ops q = Some (os, q') ∧
    queue_trace (size - headerSize) n1 [] os ds ∧ held n1 n2 (size - headerSize) ds q'.
Proof.
  intros Hs Hj Hn1 Hn2 H32 Hops. destruct (lock_init_ok size isCond junk Hs Hj) as (q & Hq & Hok & Hsz).
  destruct (lock_run_ok n1 n2 (size - headerSize) Hn1 Hn2 H32 ops [] q Hops) as (os & q' & ds & Hrun & Hh & Ht).
  { by exists [], []. }
  by exists q, os, q', ds.
Qed.

(** Two messages of a header of two bytes are sent, one is read, one more is sent: the second
    comes from the second buffer, the third from the ring, and then there is none. *)
Lemma lock_queue_fifo_witness :
  ∃ q os q' ds, LockQueue_init 96 true true (replicate 96 0) = Done q ∧
    lock_run 2 16 [Push [1; 1] [5]; Push [1; 2] [6; 7]; Pop 0; Push1 [1; 3; 8]; Pop 0; Pop 9; Pop 0] q = Some (os, q') ∧
    os = [Pushed [1; 1; 5] (Done tt); Pushed [1; 2; 6; 7] (Done tt); Popped (Some ([1; 1], [5]));
          Pushed [1; 3; 8] (Done tt); Popped (Some ([1; 2], [6; 7])); Popped (Some ([1; 3], [8])); Popped None] ∧
    queue_trace 56 2 [] os ds.
Proof.
  destruct (lock_queue_fifo 96 true (replicate 96 0) 2 16
    [Push [1; 1] [5]; Push [1; 2] [6; 7]; Pop 0; Push1 [1; 3; 8]; Pop 0; Pop 9; Pop 0])
    as (q & os & q' & ds & Hq & Hrun & Ht & _).
  - done.
  - done.
  - lia.
  - lia.
  - lia.
  - repeat constructor; simpl; unfold fits; simpl; try done; lia.
  - exists q, os, q', ds. split; [exact Hq|]. split; [exact Hrun|]. split; [|exact Ht].
    vm_compute in Hq. injection Hq as <-. vm_compute in Hrun. injection Hrun as <- _. reflexivity.
Defined.
