(* ===== verification/Hash.v ===== *)
(** * Hash functions (src/src/public/murmurhash2.cc, murmurhash3.cc, common.cc)

    [mur_mur_hash2] maps keys to buckets, in the storage server and in the client.  Words are
    kept at their width; a key is its list of bytes; a word of 4 or 8 bytes is read the way
    the machine stores it, least significant byte first. *)
From S2P Require Import Prelude.

(** A byte as [int8_t]. *)
Definition i8 (z : Z) : Z := if z <? 128 then z else z - 256.

Definition word32 (b0 b1 b2 b3 : Z) : Z := be_value [b3; b2; b1; b0].
Definition word64 (b0 b1 b2 b3 b4 b5 b6 b7 : Z) : Z := be_value [b7; b6; b5; b4; b3; b2; b1; b0].

(** ** MurmurHash2 *)

Definition m2 : Z := 0x5bd1e995.

(** One word of the loop. *)
Definition mix2 (h k : Z) : Z :=
  let k := u32 (k * m2) in
  let k := Z.lxor k (Z.shiftr k 24) in
  let k := u32 (k * m2) in
  Z.lxor (u32 (h * m2)) k.

(** The last bytes, read as signed numbers; the cases fall through. *)
Definition tail2 (h : Z) (data : list Z) : Z :=
  match data with
  | [b0; b1; b2] =>
      let h := Z.lxor h (u32 (Z.shiftl (i8 b2) 16)) in
      let h := Z.lxor h (u32 (Z.shiftl (i8 b1) 8)) in
      u32 (Z.lxor h (u32 (i8 b0)) * m2)
  | [b0; b1] =>
      let h := Z.lxor h (u32 (Z.shiftl (i8 b1) 8)) in
      u32 (Z.lxor h (u32 (i8 b0)) * m2)
  | [b0] => u32 (Z.lxor h (u32 (i8 b0)) * m2)
  | _ => h
  end.

Fixpoint loop2 (h : Z) (data : list Z) : Z :=
  match data with
  | b0 :: b1 :: b2 :: b3 :: data => loop2 (mix2 h (word32 b0 b1 b2 b3)) data
  | _ => tail2 h data
  end.

Definition mur_mur_hash2 (key : list Z) (seed : Z) : Z :=
  let h := loop2 (Z.lxor seed (u32 (Z.of_nat (length key)))) key in
  let h := Z.lxor h (Z.shiftr h 13) in
  let h := u32 (h * m2) in
  Z.lxor h (Z.shiftr h 15).

Definition murMurHash (key : list Z) : Z := mur_mur_hash2 key 97.

(** ** MurmurHash3 *)

Definition rotl32 (x r : Z) : Z := Z.lor (u32 (Z.shiftl x r)) (Z.shiftr x (32 - r)).
Definition rotl64 (x r : Z) : Z := Z.lor (u64 (Z.shiftl x r)) (Z.shiftr x (64 - r)).

Definition fmix32 (h : Z) : Z :=
  let h := Z.lxor h (Z.shiftr h 16) in
  let h := u32 (h * 0x85ebca6b) in
  let h := Z.lxor h (Z.shiftr h 13) in
  let h := u32 (h * 0xc2b2ae35) in
  Z.lxor h (Z.shiftr h 16).

Definition fmix64 (k : Z) : Z :=
  let k := Z.lxor k (Z.shiftr k 33) in
  let k := u64 (k * 0xff51afd7ed558ccd) in
  let k := Z.lxor k (Z.shiftr k 33) in
  let k := u64 (k * 0xc4ceb9fe1a85ec53) in
  Z.lxor k (Z.shiftr k 33).

(** [k *= c; k = ROTL(k, r); k *= c'; h ^= k]. *)
Definition absorb32 (h k c r c' : Z) : Z := Z.lxor h (u32 (rotl32 (u32 (k * c)) r * c')).
Definition absorb64 (h k c r c' : Z) : Z := Z.lxor h (u64 (rotl64 (u64 (k * c)) r * c')).

(** The bytes of the tail that are there, from the least significant on. *)
Definition tailWord (l : list Z) : Z := foldr (λ b acc, Z.lxor (Z.shiftl acc 8) b) 0 l.

Definition c1_32 : Z := 0xcc9e2d51.
Definition c2_32 : Z := 0x1b873593.

Fixpoint body3_32 (h1 : Z) (data : list Z) : Z * list Z :=
  match data with
  | b0 :: b1 :: b2 :: b3 :: data =>
      let h1 := absorb32 h1 (word32 b0 b1 b2 b3) c1_32 15 c2_32 in
      body3_32 (u32 (rotl32 h1 13 * 5 + 0xe6546b64)) data
  | _ => (h1, data)
  end.

Definition MurmurHash3_x86_32 (key : list Z) (seed : Z) : Z :=
  let '(h1, tail) := body3_32 seed key in
  let h1 := match tail with [] => h1 | _ => absorb32 h1 (tailWord tail) c1_32 15 c2_32 end in
  fmix32 (Z.lxor h1 (u32 (Z.of_nat (length key)))).

(** Four words of 32 bits. *)
Definition quad : Type := Z * Z * Z * Z.
Definition c1_128 : Z := 0x239b961b.
Definition c2_128 : Z := 0xab0e9789.
Definition c3_128 : Z := 0x38b34ae5.
Definition c4_128 : Z := 0xa1e38b93.

Definition block3_128 (h : quad) (k1 k2 k3 k4 : Z) : quad :=
  let '(h1, h2, h3, h4) := h in
  let h1 := absorb32 h1 k1 c1_128 15 c2_128 in
  let h1 := u32 (u32 (rotl32 h1 19 + h2) * 5 + 0x561ccd1b) in
  let h2 := absorb32 h2 k2 c2_128 16 c3_128 in
  let h2 := u32 (u32 (rotl32 h2 17 + h3) * 5 + 0x0bcaa747) in
  let h3 := absorb32 h3 k3 c3_128 17 c4_128 in
  let h3 := u32 (u32 (rotl32 h3 15 + h4) * 5 + 0x96cd1c35) in
  let h4 := absorb32 h4 k4 c4_128 18 c1_128 in
  let h4 := u32 (u32 (rotl32 h4 13 + h1) * 5 + 0x32ac3b17) in
  (h1, h2, h3, h4).

Fixpoint body3_128 (h : quad) (data : list Z) : quad * list Z :=
  match data with
  | a0 :: a1 :: a2 :: a3 :: b0 :: b1 :: b2 :: b3 :: c0 :: c1 :: c2 :: c3 :: d0 :: d1 :: d2 :: d3 :: data =>
      body3_128 (block3_128 h (word32 a0 a1 a2 a3) (word32 b0 b1 b2 b3) (word32 c0 c1 c2 c3) (word32 d0 d1 d2 d3)) data
  | _ => (h, data)
  end.

(** Bytes [4 i] to [4 i + 3] of the tail, as far as they are there. *)
Definition part (i : nat) (tail : list Z) : list Z := take 4 (drop (4 * i) tail).
Definition tail3_128 (h : quad) (tail : list Z) : quad :=
  let '(h1, h2, h3, h4) := h in
  let h4 := match part 3 tail with [] => h4 | l => absorb32 h4 (tailWord l) c4_128 18 c1_128 end in
  let h3 := match part 2 tail with [] => h3 | l => absorb32 h3 (tailWord l) c3_128 17 c4_128 end in
  let h2 := match part 1 tail with [] => h2 | l => absorb32 h2 (tailWord l) c2_128 16 c3_128 end in
  let h1 := match part 0 tail with [] => h1 | l => absorb32 h1 (tailWord l) c1_128 15 c2_128 end in
  (h1, h2, h3, h4).

(** [h1 += h2; h1 += h3; h1 += h4; h2 += h1; h3 += h1; h4 += h1]. *)
Definition sum3_128 (h : quad) : quad :=
  let '(h1, h2, h3, h4) := h in
  let h1 := u32 (u32 (u32 (h1 + h2) + h3) + h4) in
  (h1, u32 (h2 + h1), u32 (h3 + h1), u32 (h4 + h1)).

Definition MurmurHash3_x86_128 (key : list Z) (seed : Z) : quad :=
  let len := u32 (Z.of_nat (length key)) in
  let '(h, tail) := body3_128 (seed, seed, seed, seed) key in
  let '(h1, h2, h3, h4) := tail3_128 h tail in
  let '(h1, h2, h3, h4) := sum3_128 (Z.lxor h1 len, Z.lxor h2 len, Z.lxor h3 len, Z.lxor h4 len) in
  sum3_128 (fmix32 h1, fmix32 h2, fmix32 h3, fmix32 h4).

Definition c1_64 : Z := 0x87c37b91114253d5.
Definition c2_64 : Z := 0x4cf5ad432745937f.

Definition block3_64 (h : Z * Z) (k1 k2 : Z) : Z * Z :=
  let '(h1, h2) := h in
  let h1 := absorb64 h1 k1 c1_64 31 c2_64 in
  let h1 := u64 (u64 (rotl64 h1 27 + h2) * 5 + 0x52dce729) in
  let h2 := absorb64 h2 k2 c2_64 33 c1_64 in
  let h2 := u64 (u64 (rotl64 h2 31 + h1) * 5 + 0x38495ab5) in
  (h1, h2).

Fixpoint body3_64 (h : Z * Z) (data : list Z) : (Z * Z) * list Z :=
  match data with
  | a0 :: a1 :: a2 :: a3 :: a4 :: a5 :: a6 :: a7 :: b0 :: b1 :: b2 :: b3 :: b4 :: b5 :: b6 :: b7 :: data =>
      body3_64 (block3_64 h (word64 a0 a1 a2 a3 a4 a5 a6 a7) (word64 b0 b1 b2 b3 b4 b5 b6 b7)) data
  | _ => (h, data)
  end.

Definition tail3_64 (h : Z * Z) (tail : list Z) : Z * Z :=
  let '(h1, h2) := h in
  let h2 := match drop 8 tail with [] => h2 | l => absorb64 h2 (tailWord l) c2_64 33 c1_64 end in
  let h1 := match take 8 tail with [] => h1 | l => absorb64 h1 (tailWord l) c1_64 31 c2_64 end in
  (h1, h2).

Definition sum3_64 (h : Z * Z) : Z * Z := let '(h1, h2) := h in let h1 := u64 (h1 + h2) in (h1, u64 (h2 + h1)).

Definition MurmurHash3_x64_128 (key : list Z) (seed : Z) : Z * Z :=
  let len := u64 (Z.of_nat (length key)) in
  let '(h, tail) := body3_64 (seed, seed) key in
  let '(h1, h2) := tail3_64 h tail in
  let '(h1, h2) := sum3_64 (Z.lxor h1 len, Z.lxor h2 len) in
  sum3_64 (fmix64 h1, fmix64 h2).


(** ** Ranges *)

Lemma lxor_bound n a b : 0 <= n → 0 <= a < 2 ^ n → 0 <= b < 2 ^ n → 0 <= Z.lxor a b < 2 ^ n.
Proof.
  intros Hn Ha Hb. assert (H0 : 0 <= Z.lxor a b) by (apply Z.lxor_nonneg; lia). split; [done|].
  destruct (decide (n = 0)) as [->|Hn0]; [replace a with 0 by lia; replace b with 0 by lia; done|].
  destruct (decide (Z.lxor a b = 0)) as [->|Hne]; [lia|]. apply Z.log2_lt_pow2; [lia|].
  pose proof (Z.log2_lxor a b ltac:(lia) ltac:(lia)).
  assert (Hlog : ∀ x, 0 <= x < 2 ^ n → Z.log2 x < n).
  { intros x Hx. destruct (decide (x = 0)) as [->|Hx0]; [simpl; lia|]. apply Z.log2_lt_pow2; lia. }
  pose proof (Hlog a Ha). pose proof (Hlog b Hb). lia.
Qed.

Lemma shiftr_bound n k a : 0 <= k → 0 <= a < 2 ^ n → 0 <= Z.shiftr a k < 2 ^ n.
Proof.
  intros Hk Ha. rewrite Z.shiftr_div_pow2 by done. split; [apply Z.div_pos; [lia|]; by apply Z.pow_pos_nonneg|].
  apply (Z.le_lt_trans _ a); [|lia]. apply Z.div_le_upper_bound; [by apply Z.pow_pos_nonneg|].
  pose proof (Z.pow_pos_nonneg 2 k ltac:(lia) Hk). nia.
Qed.

Lemma u64_bound z : is_u64 (u64 z).
Proof. unfold is_u64, u64. by apply Z.mod_pos_bound. Qed.

Lemma lor_bound n a b : 0 <= n → 0 <= a < 2 ^ n → 0 <= b < 2 ^ n → 0 <= Z.lor a b < 2 ^ n.
Proof.
  intros Hn Ha Hb. replace (Z.lor a b) with (Z.lxor (Z.lxor a b) (Z.land a b)).
  - apply lxor_bound; [done|by apply lxor_bound|]. split; [apply Z.land_nonneg; lia|].
    destruct (decide (b = 0)) as [->|Hb0]; [rewrite Z.land_0_r; lia|].
    apply (Z.le_lt_trans _ b); [|lia]. apply Z.ldiff_le; [lia|]. apply Z.bits_inj'. intros i Hi.
    rewrite Z.ldiff_spec, Z.land_spec, Z.bits_0. by destruct (Z.testbit a i), (Z.testbit b i).
  - apply Z.bits_inj'. intros i Hi. rewrite !Z.lxor_spec, Z.land_spec, Z.lor_spec.
    by destruct (Z.testbit a i), (Z.testbit b i).
Qed.

Create HintDb hash.
#[export] Hint Resolve u32_bound u64_bound : hash.

Lemma lxor_u32 a b : is_u32 a → is_u32 b → is_u32 (Z.lxor a b).
Proof. by apply lxor_bound. Qed.
Lemma shiftr_u32 a k : 0 <= k → is_u32 a → is_u32 (Z.shiftr a k).
Proof. by apply shiftr_bound. Qed.
Lemma lxor_u64 a b : is_u64 a → is_u64 b → is_u64 (Z.lxor a b).
Proof. by apply lxor_bound. Qed.
Lemma shiftr_u64 a k : 0 <= k → is_u64 a → is_u64 (Z.shiftr a k).
Proof. by apply shiftr_bound. Qed.
#[export] Hint Resolve lxor_u32 shiftr_u32 lxor_u64 shiftr_u64 : hash.
#[export] Hint Extern 1 (0 <= _) => lia : hash.

Lemma mix2_u32 h k : is_u32 (mix2 h k).
Proof.
  unfold mix2. cbv zeta. auto with hash.
Qed.

Lemma tail2_u32 h l : is_u32 h → is_u32 (tail2 h l).
Proof. intros Hh. unfold tail2. destruct l as [|b0 [|b1 [|b2 [|b3 l]]]]; auto with hash. Qed.

(** Induction on a list four elements at a time. *)
Lemma quad_ind {A} (P : list A → Prop) :
  (∀ l, (length l < 4)%nat → P l) → (∀ a b c d l, P l → P (a :: b :: c :: d :: l)) → ∀ l, P l.
Proof.
  intros Hs Hc. fix quad_ind 1. intros [|a [|b [|c [|d l]]]]; [apply Hs; simpl; lia..|]. apply Hc, quad_ind.
Qed.

Lemma loop2_u32 l h : is_u32 h → is_u32 (loop2 h l).
Proof.
  revert h. induction l as [l Hl|b0 b1 b2 b3 l IH] using quad_ind; intros h Hh.
  - destruct l as [|b0 [|b1 [|b2 [|b3 l]]]]; [by apply tail2_u32..|simpl in Hl; lia].
  - apply IH, mix2_u32.
Qed.

Lemma hash2_u32 key seed : is_u32 seed → is_u32 (mur_mur_hash2 key seed).
Proof. intros Hs. unfold mur_mur_hash2. cbv zeta. auto 10 using loop2_u32 with hash. Qed.

Lemma murMurHash_u32 key : is_u32 (murMurHash key).
Proof. by apply hash2_u32. Qed.

(** ** MurmurHash2 as it is published

    With its own constants and arithmetic: products modulo 2^32, shifts as divisions, and the words of 4 bytes as
    sums.  [vectors] are the values that the tests of Apache Kafka have for this function, under its seed. *)

Module Published.
Definition m : Z := 1540483477.
Definition times (x y : Z) : Z := (x * y) mod 4294967296.
Fixpoint little (l : list Z) : Z := match l with [] => 0 | b :: l => b + 256 * little l end.
Definition word (key : list Z) (i : nat) : Z := little (take 4 (drop (4 * i) key)).
Definition rest (key : list Z) : list Z := drop (4 * (length key / 4)) key.
Definition absorb (h w : Z) : Z :=
  let k := times w m in
  let k := times (Z.lxor k (k / 16777216)) m in
  Z.lxor (times h m) k.

Definition MurmurHash2 (key : list Z) (seed : Z) : Z :=
  let h := foldl (λ h i, absorb h (word key i)) (Z.lxor seed (Z.of_nat (length key))) (seq 0 (length key / 4)) in
  let h := if decide (rest key = []) then h else times (Z.lxor h (little (rest key))) m in
  let h := times (Z.lxor h (h / 8192)) m in
  Z.lxor h (h / 32768).

(** 21; foobar; a-little-bit-long-string; a-little-bit-longer-string; lkjh234lh9fiuh90y23oiuhsafujhadof229phr9h19h89h8; abc. *)
Definition vectors : list (list Z * Z) :=
  [([50; 49], -973932308);
   ([102; 111; 111; 98; 97; 114], -790332482);
   ([97; 45; 108; 105; 116; 116; 108; 101; 45; 98; 105; 116; 45; 108; 111; 110; 103; 45; 115; 116; 114; 105; 110; 103], -985981536);
   ([97; 45; 108; 105; 116; 116; 108; 101; 45; 98; 105; 116; 45; 108; 111; 110; 103; 101; 114; 45; 115; 116; 114; 105; 110; 103], -1486304829);
   ([108; 107; 106; 104; 50; 51; 52; 108; 104; 57; 102; 105; 117; 104; 57; 48; 121; 50; 51; 111; 105; 117; 104; 115; 97; 102; 117; 106; 104; 97; 100; 111; 102; 50; 50; 57; 112; 104; 114; 57; 104; 49; 57; 104; 56; 57; 104; 56], -58897971);
   ([97; 98; 99], 479470107)].
End Published.

Definition is_ascii (b : Z) : Prop := 0 <= b < 128.

Lemma i8_ascii b : is_ascii b → i8 b = b.
Proof. intros Hb. unfold i8. by rewrite (proj2 (Z.ltb_lt _ _)) by apply Hb. Qed.

Lemma u32_shiftl b k : is_ascii b → 0 <= k <= 24 → u32 (Z.shiftl b k) = Z.shiftl b k.
Proof.
  intros Hb Hk. apply u32_id. rewrite Z.shiftl_mul_pow2 by lia. unfold is_u32, is_ascii in *.
  pose proof (Z.pow_le_mono_r 2 k 24 ltac:(lia) ltac:(lia)). pose proof (Z.pow_pos_nonneg 2 k ltac:(lia) ltac:(lia)).
  change (2 ^ 32) with (256 * 2 ^ 24). nia.
Qed.

Lemma shiftl_lxor8 a b : Z.shiftl (Z.lxor (Z.shiftl a 8) b) 8 = Z.lxor (Z.shiftl a 16) (Z.shiftl b 8).
Proof. rewrite Z.shiftl_lxor, Z.shiftl_shiftl by lia. done. Qed.

Lemma tail2_ref h r :
  Forall is_ascii r → (length r < 4)%nat →
  tail2 h r = match r with [] => h | _ => u32 (Z.lxor h (tailWord r) * m2) end.
Proof.
  intros Hr Hl. assert (Hb : ∀ b, is_ascii b → u32 b = b) by (intros b Hb; apply u32_id; unfold is_u32, is_ascii in *; lia).
  destruct r as [|b0 [|b1 [|b2 [|b3 r]]]]; [done| | | |simpl in Hl; lia];
    repeat match goal with H : Forall _ (_ :: _) |- _ => apply list.Forall_cons in H as [? ?] end;
    unfold tail2, tailWord; cbn [foldr]; rewrite ?i8_ascii, ?u32_shiftl, ?(Hb b0) by (done || lia);
    rewrite ?Z.shiftl_0_l, ?Z.lxor_0_l, ?shiftl_lxor8, <- ?Z.lxor_assoc; done.
Qed.

Lemma tailWord_little r : Forall is_ascii r → tailWord r = Published.little r.
Proof.
  unfold tailWord. induction 1 as [|b r [Hb1 Hb2] _ IH]; [done|]. cbn [foldr Published.little]. rewrite IH, <- Z.add_nocarry_lxor.
  - rewrite Z.shiftl_mul_pow2 by done. lia.
  - apply Z.bits_inj'. intros i Hi. rewrite Z.land_spec, Z.bits_0, Z.shiftl_spec by done. destruct (Z.ltb_spec i 8).
    + by rewrite Z.testbit_neg_r by lia.
    + rewrite (Z.bits_above_log2 b i), andb_false_r; [done|done|]. destruct (decide (b = 0)) as [->|]; [cbn; lia|].
      pose proof (Z.log2_lt_pow2 b 8 ltac:(lia)). lia.
Qed.

Lemma mix2_absorb h b0 b1 b2 b3 l :
  Forall is_u8 [b0; b1; b2; b3] → mix2 h (word32 b0 b1 b2 b3) = Published.absorb h (Published.word (b0 :: b1 :: b2 :: b3 :: l) 0).
Proof.
  rewrite !list.Forall_cons. intros (H0 & H1 & H2 & H3 & _). unfold mix2, Published.absorb, Published.times. cbv zeta. rewrite !Z.shiftr_div_pow2 by done.
  change (2 ^ 24) with 16777216. unfold u32. change (2 ^ 32) with 4294967296. change Published.m with m2.
  replace (Published.word _ 0) with (word32 b0 b1 b2 b3); [done|]. unfold Published.word, word32.
  change [b3; b2; b1; b0] with (((([] ++ [b3]) ++ [b2]) ++ [b1]) ++ [b0]).
  rewrite !be_value_snoc, !lor_shiftl_8 by done. change (be_value []) with 0. cbn [take drop Nat.mul Nat.add Published.little].
  rewrite take_0. cbn [Published.little]. lia.
Qed.

Lemma four_more b0 b1 b2 b3 (l : list Z) : (length (b0 :: b1 :: b2 :: b3 :: l) / 4)%nat = S (length l / 4).
Proof. cbn [length]. change (S (S (S (S (length l))))) with (1 * 4 + length l)%nat. by rewrite Nat.div_add_l. Qed.

Lemma rest_more b0 b1 b2 b3 l : Published.rest (b0 :: b1 :: b2 :: b3 :: l) = Published.rest l.
Proof. unfold Published.rest. rewrite four_more. by replace (4 * S (length l / 4))%nat with (S (S (S (S (4 * (length l / 4)))))) by lia. Qed.

Lemma loop2_ref l h :
  Forall is_u8 l → Forall is_ascii (Published.rest l) →
  loop2 h l =
    let h := foldl (λ h i, Published.absorb h (Published.word l i)) h (seq 0 (length l / 4)) in
    if decide (Published.rest l = []) then h else Published.times (Z.lxor h (Published.little (Published.rest l))) Published.m.
Proof.
  revert h. induction l as [l Hl|b0 b1 b2 b3 l IH] using quad_ind; intros h Hu Hr.
  - unfold Published.rest in *. rewrite Nat.div_small, Nat.mul_0_r, drop_0 in * by done. cbn [seq foldl].
    rewrite <- tailWord_little by done. transitivity (tail2 h l).
    { destruct l as [|b0 [|b1 [|b2 [|b3 l]]]]; [done..|simpl in Hl; lia]. }
    rewrite tail2_ref by done. by destruct l.
  - rewrite rest_more in *. change (b0 :: b1 :: b2 :: b3 :: l) with ([b0; b1; b2; b3] ++ l) in Hu. apply Forall_app in Hu as [Hu4 Hu].
    cbn [loop2]. rewrite IH by done. rewrite four_more, <- cons_seq, <- fmap_S_seq. cbn [foldl].
    rewrite (mix2_absorb h b0 b1 b2 b3 l Hu4), foldl_fmap. cbv zeta.
    assert (Hf : ∀ ns h0, foldl (λ h i, Published.absorb h (Published.word l i)) h0 ns =
      foldl (λ h i, Published.absorb h (Published.word (b0 :: b1 :: b2 :: b3 :: l) (S i))) h0 ns); [|by rewrite Hf].
    induction ns as [|i ns IHn]; intros h0; [done|]. cbn [foldl]. rewrite IHn. do 2 f_equal. unfold Published.word.
    by replace (4 * S i)%nat with (S (S (S (S (4 * i))))) by lia.
Qed.

(** C27: the hash of a key is MurmurHash2 as it is published, as long as the one to three bytes
    behind the last whole word are ASCII; the bytes in front may be anything.  That [Published.MurmurHash2] is the
    published function is pinned by published test values, of keys with and without bytes
    behind the last word. *)
Theorem hash2_reference :
  Forall (λ '(key, h), Published.MurmurHash2 key 0x9747b28c = u32 h) Published.vectors ∧
  ∀ key seed, Forall is_u8 key → Forall is_ascii (Published.rest key) → Z.of_nat (length key) < 2 ^ 31 →
    mur_mur_hash2 key seed = Published.MurmurHash2 key seed.
Proof.
  split; [repeat constructor|]. intros key seed Hu Hr Hl. unfold mur_mur_hash2, Published.MurmurHash2. rewrite loop2_ref by done.
  rewrite (u32_id (Z.of_nat _)) by (unfold is_u32; lia). cbv zeta. rewrite !Z.shiftr_div_pow2 by done. done.
Qed.

(** The key is abc and a byte, and then the letters de. *)
Lemma hash2_reference_witness :
  mur_mur_hash2 [97; 98; 99; 200; 100; 101] 97 = Published.MurmurHash2 [97; 98; 99; 200; 100; 101] 97.
Proof.
  apply (proj2 hash2_reference [97; 98; 99; 200; 100; 101] 97).
  - repeat constructor; unfold is_u8; lia.
  - repeat constructor; unfold is_ascii; lia.
  - simpl. lia.
Defined.

(** The last bytes of a key are read as signed numbers: for others than ASCII the hash is not
    the published one. *)
Lemma hash2_signed_tail : mur_mur_hash2 [195; 169] 97 ≠ Published.MurmurHash2 [195; 169] 97.
Proof. vm_compute. discriminate. Qed.

(** Published values of MurmurHash3. *)
Lemma hash3_hello :
  MurmurHash3_x86_32 [104; 101; 108; 108; 111] 0 = 0x248bfa47 ∧
  MurmurHash3_x64_128 [104; 101; 108; 108; 111] 0 = (0xcbd8a7b341bd9b02, 0x5b1e906a48ae1d19).
Proof. vm_compute. done. Qed.
