(* ===== verification/Md5.v ===== *)
(** * MD5 (src/src/public/md5_encode.cc)

    The digest behind the trailer of a log file.  [MD5Transform] is a straight line of 64
    macro calls on the registers a, b, c and d, given here as the list of these calls.  A
    context keeps the state of the blocks so far, the number of bits and the bytes of a block
    that is not complete.  The reference is the algorithm as RFC 1321 has it: pad the message,
    and run 64 steps of a loop over rotating registers for every block of 64 bytes.

    [None] is an access outside of a buffer. *)
From S2P Require Import Prelude Buffers RingQueue.

(** ** The 64 steps *)

Module Steps.

Definition not32 (x : Z) : Z := Z.lxor x 0xFFFFFFFF.
Definition F (x y z : Z) : Z := Z.lor (Z.land x y) (Z.land (not32 x) z).
Definition G (x y z : Z) : Z := Z.lor (Z.land x z) (Z.land y (not32 z)).
Definition H (x y z : Z) : Z := Z.lxor (Z.lxor x y) z.
Definition I (x y z : Z) : Z := Z.lxor y (Z.lor x (not32 z)).
Definition ROTATE_LEFT (x n : Z) : Z := Z.lor (u32 (Z.shiftl x n)) (Z.shiftr x (32 - n)).

Inductive reg := Ra | Rb | Rc | Rd.
Definition regs : Type := Z * Z * Z * Z.

Definition get_reg (r : reg) (s : regs) : Z :=
  let '(a, b, c, d) := s in match r with Ra => a | Rb => b | Rc => c | Rd => d end.
Definition set_reg (r : reg) (v : Z) (s : regs) : regs :=
  let '(a, b, c, d) := s in
  match r with Ra => (v, b, c, d) | Rb => (a, v, c, d) | Rc => (a, b, v, d) | Rd => (a, b, c, v) end.

(** A macro call [FF(a, b, c, d, x[k], s, ac)] on a block [x]. *)
Definition call : Type := list Z → regs → regs.
Definition macro (f : Z → Z → Z → Z) (a b c d : reg) (k : nat) (s ac : Z) : call := λ x r,
  let v := u32 (get_reg a r + (f (get_reg b r) (get_reg c r) (get_reg d r) + x !!! k + ac)) in
  set_reg a (u32 (ROTATE_LEFT v s + get_reg b r)) r.
Definition FF := macro F.
Definition GG := macro G.
Definition HH := macro H.
Definition II := macro I.

Definition S11 : Z := 7.
Definition S12 : Z := 12.
Definition S13 : Z := 17.
Definition S14 : Z := 22.
Definition S21 : Z := 5.
Definition S22 : Z := 9.
Definition S23 : Z := 14.
Definition S24 : Z := 20.
Definition S31 : Z := 4.
Definition S32 : Z := 11.
Definition S33 : Z := 16.
Definition S34 : Z := 23.
Definition S41 : Z := 6.
Definition S42 : Z := 10.
Definition S43 : Z := 15.
Definition S44 : Z := 21.

Definition rounds : list call :=
  [
   FF Ra Rb Rc Rd 0 S11 0xd76aa478;
   FF Rd Ra Rb Rc 1 S12 0xe8c7b756;
   FF Rc Rd Ra Rb 2 S13 0x242070db;
   FF Rb Rc Rd Ra 3 S14 0xc1bdceee;
   FF Ra Rb Rc Rd 4 S11 0xf57c0faf;
   FF Rd Ra Rb Rc 5 S12 0x4787c62a;
   FF Rc Rd Ra Rb 6 S13 0xa8304613;
   FF Rb Rc Rd Ra 7 S14 0xfd469501;
   FF Ra Rb Rc Rd 8 S11 0x698098d8;
   FF Rd Ra Rb Rc 9 S12 0x8b44f7af;
   FF Rc Rd Ra Rb 10 S13 0xffff5bb1;
   FF Rb Rc Rd Ra 11 S14 0x895cd7be;
   FF Ra Rb Rc Rd 12 S11 0x6b901122;
   FF Rd Ra Rb Rc 13 S12 0xfd987193;
   FF Rc Rd Ra Rb 14 S13 0xa679438e;
   FF Rb Rc Rd Ra 15 S14 0x49b40821;
   GG Ra Rb Rc Rd 1 S21 0xf61e2562;
   GG Rd Ra Rb Rc 6 S22 0xc040b340;
   GG Rc Rd Ra Rb 11 S23 0x265e5a51;
   GG Rb Rc Rd Ra 0 S24 0xe9b6c7aa;
   GG Ra Rb Rc Rd 5 S21 0xd62f105d;
   GG Rd Ra Rb Rc 10 S22 0x2441453;
   GG Rc Rd Ra Rb 15 S23 0xd8a1e681;
   GG Rb Rc Rd Ra 4 S24 0xe7d3fbc8;
   GG Ra Rb Rc Rd 9 S21 0x21e1cde6;
   GG Rd Ra Rb Rc 14 S22 0xc33707d6;
   GG Rc Rd Ra Rb 3 S23 0xf4d50d87;
   GG Rb Rc Rd Ra 8 S24 0x455a14ed;
   GG Ra Rb Rc Rd 13 S21 0xa9e3e905;
   GG Rd Ra Rb Rc 2 S22 0xfcefa3f8;
   GG Rc Rd Ra Rb 7 S23 0x676f02d9;
   GG Rb Rc Rd Ra 12 S24 0x8d2a4c8a;
   HH Ra Rb Rc Rd 5 S31 0xfffa3942;
   HH Rd Ra Rb Rc 8 S32 0x8771f681;
   HH Rc Rd Ra Rb 11 S33 0x6d9d6122;
   HH Rb Rc Rd Ra 14 S34 0xfde5380c;
   HH Ra Rb Rc Rd 1 S31 0xa4beea44;
   HH Rd Ra Rb Rc 4 S32 0x4bdecfa9;
   HH Rc Rd Ra Rb 7 S33 0xf6bb4b60;
   HH Rb Rc Rd Ra 10 S34 0xbebfbc70;
   HH Ra Rb Rc Rd 13 S31 0x289b7ec6;
   HH Rd Ra Rb Rc 0 S32 0xeaa127fa;
   HH Rc Rd Ra Rb 3 S33 0xd4ef3085;
   HH Rb Rc Rd Ra 6 S34 0x4881d05;
   HH Ra Rb Rc Rd 9 S31 0xd9d4d039;
   HH Rd Ra Rb Rc 12 S32 0xe6db99e5;
   HH Rc Rd Ra Rb 15 S33 0x1fa27cf8;
   HH Rb Rc Rd Ra 2 S34 0xc4ac5665;
   II Ra Rb Rc Rd 0 S41 0xf4292244;
   II Rd Ra Rb Rc 7 S42 0x432aff97;
   II Rc Rd Ra Rb 14 S43 0xab9423a7;
   II Rb Rc Rd Ra 5 S44 0xfc93a039;
   II Ra Rb Rc Rd 12 S41 0x655b59c3;
   II Rd Ra Rb Rc 3 S42 0x8f0ccc92;
   II Rc Rd Ra Rb 10 S43 0xffeff47d;
   II Rb Rc Rd Ra 1 S44 0x85845dd1;
   II Ra Rb Rc Rd 8 S41 0x6fa87e4f;
   II Rd Ra Rb Rc 15 S42 0xfe2ce6e0;
   II Rc Rd Ra Rb 6 S43 0xa3014314;
   II Rb Rc Rd Ra 13 S44 0x4e0811a1;
   II Ra Rb Rc Rd 4 S41 0xf7537e82;
   II Rd Ra Rb Rc 11 S42 0xbd3af235;
   II Rc Rd Ra Rb 2 S43 0x2ad7d2bb;
   II Rb Rc Rd Ra 9 S44 0xeb86d391].

End Steps.
Import Steps.

(** [Decode]: words of 4 bytes, least significant first. *)
Definition Decode (input : list Z) (len : nat) : list Z :=
  (λ i, Z.lor (Z.lor (Z.lor (input !!! (4 * i)%nat) (Z.shiftl (input !!! (4 * i + 1)%nat) 8))
                 (Z.shiftl (input !!! (4 * i + 2)%nat) 16))
           (Z.shiftl (input !!! (4 * i + 3)%nat) 24)) <$> seq 0 (len / 4).

(** [Encode]: the bytes of words. *)
Definition encodeWord (w : Z) : list Z :=
  [Z.land w 0xff; Z.land (Z.shiftr w 8) 0xff; Z.land (Z.shiftr w 16) 0xff; Z.land (Z.shiftr w 24) 0xff].
Definition Encode (input : list Z) : list Z := mjoin (encodeWord <$> input).

Definition add_regs (s r : regs) : regs :=
  let '(a, b, c, d) := s in let '(a', b', c', d') := r in (u32 (a + a'), u32 (b + b'), u32 (c + c'), u32 (d + d')).

Definition MD5Transform (state : regs) (block : list Z) : regs :=
  let x := Decode block 64 in
  add_regs state (foldl (λ r f, f x r) state rounds).

(** ** Contexts *)

Record md5_ctx := { state : regs; count0 : Z; count1 : Z; buffer : list Z }.

(** [MD5cInit]; [junk] is what the memory held. *)
Definition MD5cInit (junk : list Z) : md5_ctx :=
  {| state := (0x67452301, 0xefcdab89, 0x98badcfe, 0x10325476); count0 := 0; count1 := 0; buffer := take 64 junk |}.

(** The loop over whole blocks of the input from [i] on. *)
Fixpoint transformBlocks (fuel : nat) (i : Z) (input : list Z) (s : regs) : option (Z * regs) :=
  if u32 (i + 63) <? Z.of_nat (length input) then
    match fuel with
    | O => None
    | S fuel =>
        b ← peek input i 64;
        transformBlocks fuel (u32 (i + 64)) input (MD5Transform s b)
    end
  else Some (i, s).

Definition MD5cUpdate (ctx : md5_ctx) (input : list Z) : option md5_ctx :=
  let inputLen := Z.of_nat (length input) in
  let index := Z.land (Z.shiftr (count0 ctx) 3) 0x3F in
  let bits := u32 (Z.shiftl inputLen 3) in
  let c0 := u32 (count0 ctx + bits) in
  let c1 := if c0 <? bits then u32 (count1 ctx + 1) else count1 ctx in
  let c1 := u32 (c1 + Z.shiftr inputLen 29) in
  let partLen := 64 - index in
  '(i, index, s, buf) ←
    (if partLen <=? inputLen then
       buf ← poke (buffer ctx) index (take (Z.to_nat partLen) input);
       '(i, s) ← transformBlocks (length input) partLen input (MD5Transform (state ctx) buf);
       Some (i, 0, s, buf)
     else Some (0, index, state ctx, buffer ctx));
  rest ← peek input i (inputLen - i);
  buf ← poke buf index rest;
  Some {| state := s; count0 := c0; count1 := c1; buffer := buf |}.

Definition PADDING : list Z := 0x80 :: replicate 63 0.

Definition MD5cFinal (ctx : md5_ctx) : option (list Z) :=
  let bits := Encode [count0 ctx; count1 ctx] in
  let index := Z.land (Z.shiftr (count0 ctx) 3) 0x3f in
  let padLen := if index <? 56 then 56 - index else 120 - index in
  ctx ← MD5cUpdate ctx (take (Z.to_nat padLen) PADDING);
  ctx ← MD5cUpdate ctx bits;
  let '(a, b, c, d) := state ctx in
  Some (Encode [a; b; c; d]).

Definition MD5 (junk input : list Z) : option (list Z) :=
  ctx ← MD5cUpdate (MD5cInit junk) input;
  MD5cFinal ctx.

(** ** Hexadecimal text *)

Definition sHexTable : list Z := [48; 49; 50; 51; 52; 53; 54; 55; 56; 57; 97; 98; 99; 100; 101; 102].

(** [encodehexstring]: the text, without the 0 behind it. *)
Definition encodehexstring (s : list Z) : list Z :=
  mjoin ((λ b, [sHexTable !!! Z.to_nat (Z.land (Z.shiftr b 4) 0x0f); sHexTable !!! Z.to_nat (Z.land b 0x0f)]) <$> s).

Definition decode16table : list Z :=
  replicate 48 0 ++ [0; 1; 2; 3; 4; 5; 6; 7; 8; 9] ++ replicate 6 0 ++ replicate 32 0 ++
  [0; 10; 11; 12; 13; 14; 15] ++ replicate 9 0 ++ replicate 144 0.

Fixpoint decodePairs (s : list Z) : list Z :=
  match s with
  | a :: b :: s =>
      u8 (Z.lor (Z.shiftl (decode16table !!! Z.to_nat a) 4) (decode16table !!! Z.to_nat b)) :: decodePairs s
  | _ => []
  end.
(** [decodehexstring]: [None] is -1. *)
Definition decodehexstring (s : list Z) : option (list Z) :=
  if Nat.even (length s) then Some (decodePairs s) else None.

(** [MD5AndEncode] into a buffer [out]: 32 digits and a 0. *)
Definition MD5AndEncode (junk input out : list Z) : option (list Z) :=
  tmpbuf ← MD5 junk input;
  poke out 0 (encodehexstring tmpbuf ++ [0]).

(** [char2str] and [encodebin2hex]: [strcat] writes the digits and a 0 behind them. *)
Definition char2str (c : Z) : list Z :=
  let i1 := c / 16 in
  let i2 := c mod 16 in
  [if 10 <=? i1 then 65 + i1 - 10 else 48 + i1; if 10 <=? i2 then 65 + i2 - 10 else 48 + i2].
Fixpoint encodebin2hex (binary : list Z) (pos : Z) (buf : list Z) : option (list Z) :=
  match binary with
  | [] => Some buf
  | c :: binary =>
      buf ← poke buf pos (char2str c ++ [0]);
      encodebin2hex binary (pos + 2) buf
  end.

(** [Md5Encode] of a password without its 0: at most 16 bytes of it count. *)
Definition Md5Encode (junk sOriPasswd sMd5Passwd : list Z) : option (list Z) :=
  let len := if (16 <? Z.of_nat (length sOriPasswd)) then 16 else Z.of_nat (length sOriPasswd) in
  buf ← poke (replicate 16 0) 0 (take (Z.to_nat len) sOriPasswd);
  sOriMd5Passwd ← MD5 junk (take (Z.to_nat len) buf);
  text ← poke (take 32 junk) 0 [0];
  text ← encodebin2hex sOriMd5Passwd 0 text;
  poke sMd5Passwd 0 (take 32 text).

(** ** The algorithm of RFC 1321 *)

Definition K : list Z :=
  [0xd76aa478; 0xe8c7b756; 0x242070db; 0xc1bdceee; 0xf57c0faf; 0x4787c62a; 0xa8304613; 0xfd469501;
   0x698098d8; 0x8b44f7af; 0xffff5bb1; 0x895cd7be; 0x6b901122; 0xfd987193; 0xa679438e; 0x49b40821;
   0xf61e2562; 0xc040b340; 0x265e5a51; 0xe9b6c7aa; 0xd62f105d; 0x2441453; 0xd8a1e681; 0xe7d3fbc8;
   0x21e1cde6; 0xc33707d6; 0xf4d50d87; 0x455a14ed; 0xa9e3e905; 0xfcefa3f8; 0x676f02d9; 0x8d2a4c8a;
   0xfffa3942; 0x8771f681; 0x6d9d6122; 0xfde5380c; 0xa4beea44; 0x4bdecfa9; 0xf6bb4b60; 0xbebfbc70;
   0x289b7ec6; 0xeaa127fa; 0xd4ef3085; 0x4881d05; 0xd9d4d039; 0xe6db99e5; 0x1fa27cf8; 0xc4ac5665;
   0xf4292244; 0x432aff97; 0xab9423a7; 0xfc93a039; 0x655b59c3; 0x8f0ccc92; 0xffeff47d; 0x85845dd1;
   0x6fa87e4f; 0xfe2ce6e0; 0xa3014314; 0x4e0811a1; 0xf7537e82; 0xbd3af235; 0x2ad7d2bb; 0xeb86d391].

Definition shifts : list Z := [7; 12; 17; 22; 5; 9; 14; 20; 4; 11; 16; 23; 6; 10; 15; 21].

(** Step [i]: the registers rotate. *)
Definition ref_step (x : list Z) (r : regs) (i : nat) : regs :=
  let '(a, b, c, d) := r in
  let '(f, g) :=
    match (i / 16)%nat with
    | 0%nat => (F b c d, i)
    | 1%nat => (G b c d, ((5 * i + 1) mod 16)%nat)
    | 2%nat => (H b c d, ((3 * i + 5) mod 16)%nat)
    | _ => (I b c d, ((7 * i) mod 16)%nat)
    end in
  let v := u32 (a + (f + x !!! g + K !!! i)) in
  (d, u32 (ROTATE_LEFT v (shifts !!! (4 * (i / 16) + i mod 4)%nat) + b), b, c).

Definition ref_block (s : regs) (block : list Z) : regs :=
  let x := (λ i, le_value (take 4 (drop (4 * i) block))) <$> seq 0 16 in
  add_regs s (foldl (ref_step x) s (seq 0 64)).

Definition full_blocks (l : list Z) : list (list Z) := (λ i, take 64 (drop (64 * i) l)) <$> seq 0 (length l / 64).

(** The padded message: a bit, zeros, and the number of bits in 8 bytes. *)
Definition pad (l : list Z) : list Z :=
  l ++ [0x80] ++ replicate (Z.to_nat ((55 - Z.of_nat (length l)) mod 64)) 0 ++ le_bytes 8 (8 * Z.of_nat (length l)).

Definition ref_md5 (l : list Z) : list Z :=
  let '(a, b, c, d) := foldl ref_block (0x67452301, 0xefcdab89, 0x98badcfe, 0x10325476) (full_blocks (pad l)) in
  le_bytes 4 a ++ le_bytes 4 b ++ le_bytes 4 c ++ le_bytes 4 d.

(** ** The straight line is the loop *)

Lemma foldl_mjoin {A B} (f : A → B → A) (ls : list (list B)) a : foldl f a (mjoin ls) = foldl (foldl f) a ls.
Proof. revert a. induction ls as [|l ls IH]; intros a; [done|]. cbn. by rewrite foldl_app, IH. Qed.

(** Four calls bring the registers back to their places. *)
Lemma quad_ref x j s :
  (j < 16)%nat → foldl (λ r f, f x r) s (take 4 (drop (4 * j) rounds)) = foldl (ref_step x) s (seq (4 * j) 4).
Proof. intros Hj. destruct s as [[[a b] c] d]. do 16 (destruct j as [|j]; [reflexivity|]). lia. Qed.

Lemma rounds_ref x s : foldl (λ r f, f x r) s rounds = foldl (ref_step x) s (seq 0 64).
Proof.
  change rounds with (mjoin ((λ j, take 4 (drop (4 * j) rounds)) <$> seq 0 16)).
  change (seq 0 64) with (mjoin ((λ j, seq (4 * j) 4) <$> seq 0 16)). rewrite !foldl_mjoin.
  assert (Hall : Forall (λ j, (j < 16)%nat) (seq 0 16)) by (apply Forall_seq; lia).
  revert s. induction Hall as [|j js Hj _ IH]; intros s; [done|]. rewrite !fmap_cons. cbn [foldl]. by rewrite quad_ref, IH.
Qed.

Lemma take4 (l : list Z) i :
  (i + 4 <= length l)%nat → take 4 (drop i l) = [l !!! i; l !!! (i + 1)%nat; l !!! (i + 2)%nat; l !!! (i + 3)%nat].
Proof.
  intros Hl. rewrite (drop_S l (l !!! i) i) by (apply list_lookup_lookup_total_lt; lia).
  rewrite (drop_S l (l !!! (i + 1)%nat) (S i)) by (replace (S i) with (i + 1)%nat by lia; apply list_lookup_lookup_total_lt; lia).
  rewrite (drop_S l (l !!! (i + 2)%nat) (S (S i))) by (replace (S (S i)) with (i + 2)%nat by lia; apply list_lookup_lookup_total_lt; lia).
  rewrite (drop_S l (l !!! (i + 3)%nat) (S (S (S i)))) by (replace (S (S (S i))) with (i + 3)%nat by lia; apply list_lookup_lookup_total_lt; lia).
  done.
Qed.

Lemma le_value4 a b c d :
  le_value [a; b; c; d] = Z.lor (Z.lor (Z.lor a (Z.shiftl b 8)) (Z.shiftl c 16)) (Z.shiftl d 24).
Proof.
  unfold le_value, be_value. change (reverse [a; b; c; d]) with [d; c; b; a]. cbn [foldl].
  rewrite Z.shiftl_0_l, Z.lor_0_l, !Z.shiftl_lor, !Z.shiftl_shiftl by lia.
  change (8 + 8) with 16. change (8 + 16) with 24.
  apply Z.bits_inj'. intros i Hi. rewrite !Z.lor_spec.
  by destruct (Z.testbit a i), (Z.testbit (Z.shiftl b 8) i), (Z.testbit (Z.shiftl c 16) i), (Z.testbit (Z.shiftl d 24) i).
Qed.

Lemma transform_ref s b : length b = 64%nat → MD5Transform s b = ref_block s b.
Proof.
  intros Hb. unfold MD5Transform, ref_block. cbv zeta. rewrite rounds_ref.
  replace (Decode b 64) with ((λ i, le_value (take 4 (drop (4 * i) b))) <$> seq 0 16); [done|].
  unfold Decode. change (64 / 4)%nat with 16%nat. apply list_fmap_ext. intros k i Hi. apply lookup_seq in Hi as [-> Hk].
  rewrite take4, le_value4 by lia. done.
Qed.

(** ** Blocks *)

Lemma full_blocks_app p q k : length p = (64 * k)%nat → full_blocks (p ++ q) = full_blocks p ++ full_blocks q.
Proof.
  intros Hp. unfold full_blocks. rewrite length_app, Hp.
  replace ((64 * k + length q) / 64)%nat with (k + length q / 64)%nat
    by (rewrite (Nat.mul_comm 64 k), Nat.div_add_l; lia).
  rewrite (Nat.mul_comm 64 k), Nat.div_mul, seq_app, fmap_app by lia. f_equal.
  - apply list_fmap_ext. intros j i Hi. apply lookup_seq in Hi as [-> Hj]. simpl.
    rewrite drop_app_le, take_app_le by (rewrite ?length_drop; lia). done.
  - replace (seq (0 + k) (length q / 64)) with (Nat.add k <$> seq 0 (length q / 64)) by (rewrite fmap_add_seq; f_equal; lia).
    rewrite <- list_fmap_compose. apply list_fmap_ext. intros j i Hi. apply lookup_seq in Hi as [-> Hj].
    unfold compose. rewrite drop_app_ge by lia. do 2 f_equal. lia.
Qed.

Lemma full_blocks_small l : (length l < 64)%nat → full_blocks l = [].
Proof. intros Hl. unfold full_blocks. by rewrite Nat.div_small. Qed.

Lemma full_blocks_one b : length b = 64%nat → full_blocks b = [b].
Proof. intros Hb. unfold full_blocks. rewrite Hb. cbn. rewrite drop_0, take_ge by lia. done. Qed.

Lemma full_blocks_rest p r k : length p = (64 * k)%nat → (length r < 64)%nat → full_blocks (p ++ r) = full_blocks p.
Proof. intros Hp Hr. by rewrite (full_blocks_app p r k), (full_blocks_small r), app_nil_r. Qed.

(** ** Contexts *)

Definition md5_init : regs := (0x67452301, 0xefcdab89, 0x98badcfe, 0x10325476).

(** The context after the bytes [p]. *)
Record ctx_ok (p : list Z) (ctx : md5_ctx) : Prop := {
  co_state : state ctx = foldl MD5Transform md5_init (full_blocks p);
  co_buffer : length (buffer ctx) = 64%nat;
  co_rest : take (length p mod 64) (buffer ctx) = drop (64 * (length p / 64)) p;
  co_count0 : count0 ctx = (8 * Z.of_nat (length p)) mod 2 ^ 32;
  co_count1 : count1 ctx = ((8 * Z.of_nat (length p)) / 2 ^ 32) mod 2 ^ 32 }.

Definition input_max : Z := 2 ^ 32 - 64.

Lemma transformBlocks_ok fuel i input s :
  (64 * fuel + 64 > length input - i)%nat → (i <= length input)%nat → Z.of_nat (length input) < input_max →
  transformBlocks fuel (Z.of_nat i) input s =
    Some (Z.of_nat (i + 64 * ((length input - i) / 64)), foldl MD5Transform s (full_blocks (drop i input))).
Proof.
  unfold input_max. revert i s. induction fuel as [|fuel IH]; intros i s Hf Hi Hmax; cbn [transformBlocks];
    rewrite (u32_id (Z.of_nat i + 63)) by (unfold is_u32; lia);
    destruct (Z.ltb_spec (Z.of_nat i + 63) (Z.of_nat (length input))) as [Hlt|Hge]; [lia| | |].
  - rewrite Nat.div_small, full_blocks_small by (rewrite ?length_drop; lia). do 2 f_equal. lia.
  - unfold peek. rewrite !(proj2 (Z.leb_le _ _)) by lia. cbn [andb]. rewrite bind_Some_eq.
    rewrite (u32_id (Z.of_nat i + 64)) by (unfold is_u32; lia).
    replace (Z.of_nat i + 64) with (Z.of_nat (i + 64)) by lia. rewrite IH by lia. rewrite !Nat2Z.id. change (Z.to_nat 64) with 64%nat.
    set (b := take 64 (drop i input)). assert (Hb : length b = 64%nat) by (unfold b; rewrite length_take, length_drop; lia).
    replace (drop i input) with (b ++ drop (i + 64) input) by (unfold b; rewrite <- drop_drop; apply take_drop).
    rewrite (full_blocks_app b _ 1), (full_blocks_one b) by (done || lia). cbn [app foldl]. do 3 f_equal.
    replace (length input - i)%nat with (1 * 64 + (length input - (i + 64)))%nat by lia. rewrite Nat.div_add_l; lia.
  - rewrite Nat.div_small, full_blocks_small by (rewrite ?length_drop; lia). do 2 f_equal. lia.
Qed.

(** The number of bits, as it is counted in two words. *)
Lemma count_ok P n c0 c1 (bits := u32 (Z.shiftl n 3)) :
  0 <= P → 0 <= n < 2 ^ 32 → c0 = (8 * P) mod 2 ^ 32 → c1 = (8 * P / 2 ^ 32) mod 2 ^ 32 →
  u32 (c0 + bits) = (8 * (P + n)) mod 2 ^ 32 ∧
  u32 ((if u32 (c0 + bits) <? bits then u32 (c1 + 1) else c1) + Z.shiftr n 29) = (8 * (P + n) / 2 ^ 32) mod 2 ^ 32.
Proof.
  intros HP Hn -> ->. subst bits. rewrite Z.shiftl_mul_pow2, Z.shiftr_div_pow2 by lia. change (2 ^ 3) with 8.
  unfold u32. set (W := 2 ^ 32).
  set (a := (8 * P) mod W). set (b := (n * 8) mod W).
  assert (HA : 8 * P = W * (8 * P / W) + a) by (apply Z.div_mod; done).
  assert (HB : n * 8 = W * (n / 2 ^ 29) + b).
  { unfold b. replace (n / 2 ^ 29) with (n * 8 / W) by (unfold W; change (2 ^ 32) with (2 ^ 29 * 8); apply Z.div_mul_cancel_r; lia).
    apply Z.div_mod. done. }
  assert (Ha : 0 <= a < W) by (apply Z.mod_pos_bound; done). assert (Hb : 0 <= b < W) by (apply Z.mod_pos_bound; done).
  set (qa := 8 * P / W) in *. set (qb := n / 2 ^ 29) in *.
  replace (8 * (P + n)) with (a + b + (qa + qb) * W) by lia. rewrite Z.mod_add, Z.div_add by done. split; [done|].
  destruct (decide (a + b < W)) as [Hs|Hs].
  - rewrite (Z.mod_small (a + b)), (Z.div_small (a + b)) by lia. rewrite (proj2 (Z.ltb_ge _ _)) by lia.
    by rewrite Z.add_mod_idemp_l by done.
  - assert (E : (a + b) mod W = a + b - W) by (symmetry; apply (Z.mod_unique _ _ 1); lia).
    assert (E2 : (a + b) / W = 1) by (symmetry; apply (Z.div_unique _ _ _ (a + b - W)); lia).
    rewrite E, E2, (proj2 (Z.ltb_lt _ _)) by lia.
    rewrite Z.add_mod_idemp_l by done. replace (qa mod W + 1 + qb) with (qa mod W + (1 + qb)) by lia.
    rewrite Z.add_mod_idemp_l by done. f_equal. lia.
Qed.

Lemma index_ok P : 0 <= P → Z.land (Z.shiftr ((8 * P) mod 2 ^ 32) 3) 0x3F = P mod 64.
Proof.
  intros HP. change 0x3F with (Z.ones 6). rewrite Z.land_ones, Z.shiftr_div_pow2 by lia. change (2 ^ 3) with 8. change (2 ^ 6) with 64.
  change (2 ^ 32) with (8 * 2 ^ 29). rewrite Z.mul_mod_distr_l, (Z.mul_comm 8), Z.div_mul by lia.
  apply Z.mod_mod_divide. by exists (2 ^ 23).
Qed.

Lemma poke_ok (m : list Z) i l :
  (i + length l <= length m)%nat → poke m (Z.of_nat i) l = Some (take i m ++ l ++ drop (i + length l) m).
Proof. intros Hl. unfold poke. rewrite !(proj2 (Z.leb_le _ _)) by lia. cbn [andb]. by rewrite Nat2Z.id. Qed.

Lemma poke_front (m : list Z) l : (length l <= length m)%nat → poke m 0 l = Some (l ++ drop (length l) m).
Proof. intros Hl. apply (poke_ok m 0 l). lia. Qed.

Lemma peek_drop (l : list Z) i : (i <= length l)%nat → peek l (Z.of_nat i) (Z.of_nat (length l) - Z.of_nat i) = Some (drop i l).
Proof.
  intros Hi. unfold peek. rewrite !(proj2 (Z.leb_le _ _)) by lia. cbn [andb]. rewrite Nat2Z.id, take_ge; [done|].
  rewrite length_drop. lia.
Qed.

Lemma mod_split n k r : n = (64 * k + r)%nat → (r < 64)%nat → (n / 64 = k ∧ n mod 64 = r)%nat.
Proof.
  intros -> Hr. split; symmetry; [apply (Nat.div_unique _ _ _ r)|apply (Nat.mod_unique _ _ k)]; lia.
Qed.

(** An input that does not complete a block. *)
Lemma update_short p ctx input k r :
  ctx_ok p ctx → length p = (64 * k + r)%nat → (r + length input < 64)%nat →
  ∃ ctx', MD5cUpdate ctx input = Some ctx' ∧ ctx_ok (p ++ input) ctx'.
Proof.
  intros [Hs Hb Hr H0 H1] Hp Hl. destruct (mod_split _ _ _ Hp) as [Hd Hm]; [lia|]. rewrite Hd, Hm in Hr.
  destruct (count_ok (Z.of_nat (length p)) (Z.of_nat (length input)) _ _ ltac:(lia) ltac:(lia) H0 H1) as [Hc0 Hc1].
  unfold MD5cUpdate. cbv zeta. rewrite Hc1, Hc0, H0, index_ok by lia.
  replace (Z.of_nat (length p) mod 64) with (Z.of_nat r) by (rewrite <- Hm, Nat2Z.inj_mod; done).
  rewrite (proj2 (Z.leb_gt _ _)) by lia. rewrite bind_Some_eq. cbv beta iota.
  change (peek input 0 (Z.of_nat (length input) - 0)) with (peek input (Z.of_nat 0) (Z.of_nat (length input) - Z.of_nat 0)).
  rewrite (peek_drop input 0), bind_Some_eq, drop_0, poke_ok, bind_Some_eq by lia. eexists. split; [done|].
  assert (Hpl : length (p ++ input) = (64 * k + (r + length input))%nat) by (rewrite length_app; lia).
  destruct (mod_split _ _ _ Hpl) as [Hd' Hm']; [lia|].
  split; cbn [state buffer count0 count1]; rewrite ?Hd', ?Hm', ?Hpl.
  - rewrite Hs, <- (take_drop (64 * k) p), <- app_assoc.
    assert (Htk : length (take (64 * k) p) = (64 * k)%nat) by (rewrite length_take; lia).
    rewrite !(full_blocks_rest (take (64 * k) p) _ k); rewrite ?length_app, ?length_drop; (done || lia).
  - rewrite !length_app, length_take, length_drop. lia.
  - rewrite app_assoc, take_app_le by (rewrite length_app, length_take; lia).
    rewrite take_ge by (rewrite length_app, length_take; lia). rewrite Hr, drop_app_le by lia. done.
  - f_equal. lia.
  - do 2 f_equal. lia.
Qed.

(** An input that completes the block and brings whole ones behind it. *)
Lemma update_long p ctx input k r :
  ctx_ok p ctx → length p = (64 * k + r)%nat → (r < 64)%nat → (64 <= r + length input)%nat →
  Z.of_nat (length input) < input_max → ∃ ctx', MD5cUpdate ctx input = Some ctx' ∧ ctx_ok (p ++ input) ctx'.
Proof.
  intros [Hs Hb Hr H0 H1] Hp Hr64 Hl Hmax. destruct (mod_split _ _ _ Hp) as [Hd Hm]; [lia|]. rewrite Hd, Hm in Hr.
  unfold input_max in Hmax.
  destruct (count_ok (Z.of_nat (length p)) (Z.of_nat (length input)) _ _ ltac:(lia) ltac:(lia) H0 H1) as [Hc0 Hc1].
  unfold MD5cUpdate. cbv zeta. rewrite Hc1, Hc0, H0, index_ok by lia.
  replace (Z.of_nat (length p) mod 64) with (Z.of_nat r) by (rewrite <- Hm, Nat2Z.inj_mod; done).
  rewrite (proj2 (Z.leb_le _ _)) by lia. replace (64 - Z.of_nat r) with (Z.of_nat (64 - r)) by lia. rewrite Nat2Z.id.
  set (part := take (64 - r) input). assert (Hpart : length part = (64 - r)%nat) by (unfold part; rewrite length_take; lia).
  rewrite (poke_ok _ r part), bind_Some_eq by lia. set (b := take r (buffer ctx) ++ part ++ drop (r + length part) (buffer ctx)).
  assert (Hbl : b = drop (64 * k) p ++ part) by (unfold b; rewrite Hr, (drop_ge (buffer ctx)), app_nil_r by lia; done).
  assert (Hb64 : length b = 64%nat) by (rewrite Hbl, length_app, length_drop; lia).
  rewrite transformBlocks_ok by (unfold input_max; lia). rewrite bind_Some_eq. cbv beta iota. rewrite bind_Some_eq. cbv beta iota.
  set (q := (64 - r + 64 * ((length input - (64 - r)) / 64))%nat).
  pose proof (Nat.div_mod (length input - (64 - r)) 64 ltac:(lia)) as Hdm.
  pose proof (Nat.mod_upper_bound (length input - (64 - r)) 64 ltac:(lia)) as Hmu.
  rewrite (peek_drop input q), bind_Some_eq by lia.
  rewrite poke_front, bind_Some_eq by (rewrite length_drop; lia). eexists. split; [done|].
  assert (Hpl : length (p ++ input) = (64 * (k + 1 + (length input - (64 - r)) / 64) + (length input - (64 - r)) mod 64)%nat)
    by (rewrite length_app; lia).
  destruct (mod_split _ _ _ Hpl) as [Hd' Hm']; [lia|].
  assert (Htk : length (take (64 * k) p) = (64 * k)%nat) by (rewrite length_take; lia).
  split; cbn [state buffer count0 count1]; rewrite ?Hd', ?Hm'.
  - assert (Epi : p ++ input = take (64 * k) p ++ b ++ drop (64 - r) input).
    { rewrite Hbl, <- app_assoc. unfold part. by rewrite take_drop, app_assoc, take_drop. }
    assert (Ep : full_blocks p = full_blocks (take (64 * k) p)).
    { rewrite <- (take_drop (64 * k) p) at 1. apply (full_blocks_rest _ _ k); rewrite ?length_drop; (done || lia). }
    rewrite Hs, Epi, Ep.
    rewrite (full_blocks_app (take (64 * k) p) _ k), (full_blocks_app b _ 1), (full_blocks_one b) by done.
    by rewrite !foldl_app.
  - rewrite length_app, !length_drop. lia.
  - rewrite take_app_length' by (rewrite length_drop; lia).
    rewrite drop_app_ge by lia. f_equal. lia.
  - rewrite Hpl. f_equal. lia.
  - rewrite Hpl. do 2 f_equal. lia.
Qed.

Lemma update_ok p ctx input :
  ctx_ok p ctx → Z.of_nat (length input) < input_max →
  ∃ ctx', MD5cUpdate ctx input = Some ctx' ∧ ctx_ok (p ++ input) ctx'.
Proof.
  intros Hc Hmax. pose proof (Nat.div_mod (length p) 64 ltac:(lia)) as Hdm.
  pose proof (Nat.mod_upper_bound (length p) 64 ltac:(lia)) as Hmu.
  destruct (decide (length p mod 64 + length input < 64)%nat) as [Hs|Hs].
  - apply (update_short p ctx input (length p / 64) (length p mod 64)); done.
  - apply (update_long p ctx input (length p / 64) (length p mod 64)); (done || lia).
Qed.

Lemma init_ok junk : (64 <= length junk)%nat → ctx_ok [] (MD5cInit junk).
Proof. intros Hj. split; try done. cbn. rewrite length_take. lia. Qed.

(** ** The end of a message *)

Lemma u8_land w : Z.land w 0xff = u8 w.
Proof. change 0xff with (Z.ones 8). by rewrite Z.land_ones by lia. Qed.

Lemma le_bytes4 w : le_bytes 4 w = encodeWord w.
Proof.
  change (le_bytes 4 w) with
    [u8 w; u8 (Z.shiftr w 8); u8 (Z.shiftr (Z.shiftr w 8) 8); u8 (Z.shiftr (Z.shiftr (Z.shiftr w 8) 8) 8)].
  unfold encodeWord. rewrite !u8_land, !Z.shiftr_shiftr by lia. done.
Qed.

Lemma be_bytes_mod n z : be_bytes n (z mod 2 ^ (8 * Z.of_nat n)) = be_bytes n z.
Proof.
  rewrite <- (be_value_bytes n z). rewrite <- (length_be_bytes n z) at 1. apply be_bytes_value, be_bytes_u8.
Qed.

Lemma be_bytes_app n m z : be_bytes (n + m) z = be_bytes n (Z.shiftr z (8 * Z.of_nat m)) ++ be_bytes m z.
Proof.
  revert z. induction m as [|m IH]; intros z.
  { rewrite Nat.add_0_r. change (be_bytes 0 z) with (@nil Z). by rewrite app_nil_r. }
  rewrite Nat.add_succ_r. change (be_bytes (S (n + m)) z) with (be_bytes (n + m) (Z.shiftr z 8) ++ [u8 z]).
  change (be_bytes (S m) z) with (be_bytes m (Z.shiftr z 8) ++ [u8 z]). rewrite IH, Z.shiftr_shiftr by lia.
  replace (8 * Z.of_nat (S m)) with (8 + 8 * Z.of_nat m) by lia. by rewrite app_assoc.
Qed.

(** The two words of the count are the number of bits modulo [2^64]. *)
Lemma bits_ok n : Encode [n mod 2 ^ 32; (n / 2 ^ 32) mod 2 ^ 32] = le_bytes 8 n.
Proof.
  unfold Encode. cbn [fmap list_fmap mjoin list_join]. rewrite app_nil_r, <- !le_bytes4. unfold le_bytes.
  rewrite (be_bytes_app 4 4), reverse_app, (be_bytes_mod 4), (be_bytes_mod 4), Z.shiftr_div_pow2 by lia. done.
Qed.

Lemma pad_ok p (r := (length p mod 64)%nat) (padLen := if Z.of_nat r <? 56 then 56 - Z.of_nat r else 120 - Z.of_nat r) :
  take (Z.to_nat padLen) PADDING = 0x80 :: replicate (Z.to_nat ((55 - Z.of_nat (length p)) mod 64)) 0 ∧
  0 < padLen <= 64 ∧ ∃ k, length (pad p) = (64 * k)%nat.
Proof.
  pose proof (Nat.div_mod (length p) 64 ltac:(lia)) as Hdm. pose proof (Nat.mod_upper_bound (length p) 64 ltac:(lia)) as Hmu. fold r in Hdm, Hmu.
  assert (Hz : (55 - Z.of_nat (length p)) mod 64 = padLen - 1).
  { unfold padLen. destruct (Z.ltb_spec (Z.of_nat r) 56).
    - symmetry. apply (Z.mod_unique _ _ (- Z.of_nat (length p / 64))); lia.
    - symmetry. apply (Z.mod_unique _ _ (- Z.of_nat (length p / 64) - 1)); lia. }
  assert (Hp : 0 < padLen <= 64) by (unfold padLen; destruct (Z.ltb_spec (Z.of_nat r) 56); lia).
  rewrite Hz. split_and!; [|lia|lia|].
  - unfold PADDING. replace (Z.to_nat padLen) with (S (Z.to_nat (padLen - 1))) by lia. cbn [take]. f_equal.
    rewrite take_replicate. f_equal. lia.
  - unfold pad. rewrite Hz, !length_app, length_replicate. unfold le_bytes. rewrite length_reverse, length_be_bytes. cbn [length].
    unfold padLen. destruct (Z.ltb_spec (Z.of_nat r) 56).
    + exists (length p / 64 + 1)%nat. lia.
    + exists (length p / 64 + 2)%nat. lia.
Qed.

Lemma full_blocks_length l : Forall (λ b, length b = 64%nat) (full_blocks l).
Proof.
  unfold full_blocks. apply Forall_fmap, Forall_seq. intros i Hi. unfold compose. rewrite length_take, length_drop.
  pose proof (Nat.Div0.mul_div_le (length l) 64). nia.
Qed.

Lemma foldl_transform_ref bs s : Forall (λ b, length b = 64%nat) bs → foldl MD5Transform s bs = foldl ref_block s bs.
Proof. intros Hb. revert s. induction Hb as [|b bs Hb _ IH]; intros s; [done|]. cbn. by rewrite transform_ref, IH. Qed.

Lemma final_ok p ctx : ctx_ok p ctx → MD5cFinal ctx = Some (ref_md5 p).
Proof.
  intros Hc. pose proof (pad_ok p) as (Htake & Hpl & _). unfold MD5cFinal. cbv zeta.
  rewrite (co_count0 _ _ Hc), (co_count1 _ _ Hc), bits_ok, index_ok by lia.
  replace (Z.of_nat (length p) mod 64) with (Z.of_nat (length p mod 64)) by (by rewrite Nat2Z.inj_mod).
  rewrite Htake. set (z := 0x80 :: _). assert (Hz : (length z <= 64)%nat).
  { unfold z. rewrite <- Htake, length_take. unfold PADDING. cbn [length]. rewrite length_replicate. lia. }
  destruct (update_ok p ctx z Hc) as (c1 & -> & H1); [unfold input_max; lia|]. rewrite bind_Some_eq.
  destruct (update_ok (p ++ z) c1 (le_bytes 8 (8 * Z.of_nat (length p))) H1) as (c2 & -> & H2).
  { unfold le_bytes, input_max. rewrite length_reverse, length_be_bytes. lia. }
  rewrite bind_Some_eq, (co_state _ _ H2), <- app_assoc. change (p ++ z ++ _) with (pad p).
  rewrite foldl_transform_ref by apply full_blocks_length. unfold ref_md5. fold md5_init.
  destruct (foldl ref_block md5_init (full_blocks (pad p))) as [[[a b] c] d].
  unfold Encode. cbn [fmap list_fmap mjoin list_join]. by rewrite app_nil_r, !le_bytes4.
Qed.

(** C28: the streaming MD5 is MD5.  Whatever pieces a message is handed over in, of any number
    and each below 4 GB, and whatever the context held before, the digest is that of RFC 1321
    on the whole message: its padding, its loop of 64 steps over rotating registers and its
    count of bits modulo [2^64]. *)
Theorem md5_reference junk chunks :
  (64 <= length junk)%nat → Forall (λ c, Z.of_nat (length c) < input_max) chunks →
  (ctx ← foldl (λ ctx c, ctx ← ctx; MD5cUpdate ctx c) (Some (MD5cInit junk)) chunks; MD5cFinal ctx) =
    Some (ref_md5 (mjoin chunks)).
Proof.
  intros Hj Hall. assert (Hgen : ∀ p ctx, ctx_ok p ctx →
    (ctx ← foldl (λ ctx c, ctx ← ctx; MD5cUpdate ctx c) (Some ctx) chunks; MD5cFinal ctx) = Some (ref_md5 (p ++ mjoin chunks))).
  { induction Hall as [|c chunks Hc _ IH]; intros p ctx Hctx; cbn [foldl].
    - cbn [mjoin list_join]. rewrite app_nil_r. by apply final_ok.
    - rewrite bind_Some_eq. destruct (update_ok p ctx c Hctx Hc) as (ctx' & -> & Hc'). rewrite IH with (p := p ++ c) by done.
      by rewrite <- app_assoc. }
  by apply (Hgen []), init_ok.
Qed.

(** The digest of abc, in pieces. *)
Lemma md5_reference_witness :
  (ctx ← foldl (λ ctx c, ctx ← ctx; MD5cUpdate ctx c) (Some (MD5cInit (replicate 64 7))) [[97]; []; [98; 99]]; MD5cFinal ctx) =
    Some [144; 1; 80; 152; 60; 210; 79; 176; 214; 150; 63; 125; 40; 225; 127; 114].
Proof.
  rewrite (md5_reference (replicate 64 7) [[97]; []; [98; 99]]).
  - vm_compute. reflexivity.
  - simpl. lia.
  - repeat constructor.
Defined.

Lemma MD5_ref junk input :
  (64 <= length junk)%nat → Z.of_nat (length input) < input_max → MD5 junk input = Some (ref_md5 input).
Proof.
  intros Hj Hl. unfold MD5. destruct (update_ok [] (MD5cInit junk) input (init_ok junk Hj) Hl) as (ctx & -> & Hc).
  rewrite bind_Some_eq. by apply final_ok.
Qed.

(** ** Hexadecimal text *)

Lemma length_ref_md5 l : length (ref_md5 l) = 16%nat.
Proof.
  unfold ref_md5. destruct (foldl _ _ _) as [[[a b] c] d]. unfold le_bytes.
  by rewrite !length_app, !length_reverse, !length_be_bytes.
Qed.

Lemma encodehex_cons b s :
  encodehexstring (b :: s) =
    sHexTable !!! Z.to_nat (Z.land (Z.shiftr b 4) 0x0f) :: sHexTable !!! Z.to_nat (Z.land b 0x0f) :: encodehexstring s.
Proof. done. Qed.

Lemma length_encodehexstring s : length (encodehexstring s) = (2 * length s)%nat.
Proof.
  induction s as [|b s IH]; [done|]. rewrite encodehex_cons. cbn [length]. rewrite IH. lia.
Qed.

Lemma hex_byte b :
  is_u8 b → u8 (Z.lor (Z.shiftl (decode16table !!! Z.to_nat (sHexTable !!! Z.to_nat (Z.land (Z.shiftr b 4) 0x0f))) 4)
    (decode16table !!! Z.to_nat (sHexTable !!! Z.to_nat (Z.land b 0x0f)))) = b.
Proof.
  intros Hb. assert (Hall : forallb (λ b, u8 (Z.lor (Z.shiftl (decode16table !!! Z.to_nat (sHexTable !!! Z.to_nat (Z.land (Z.shiftr b 4) 0x0f))) 4)
    (decode16table !!! Z.to_nat (sHexTable !!! Z.to_nat (Z.land b 0x0f)))) =? b) (Z.of_nat <$> seq 0 256) = true)
    by (vm_compute; reflexivity).
  rewrite forallb_forall in Hall. apply Z.eqb_eq, Hall, list_elem_of_In, list_elem_of_fmap. unfold is_u8 in Hb.
  exists (Z.to_nat b). split; [lia|]. apply elem_of_seq. lia.
Qed.

(** the hexadecimal text of bytes is read back as these bytes, and has two digits for
    every byte. *)
Lemma hex_roundtrip s :
  Forall is_u8 s → decodehexstring (encodehexstring s) = Some s ∧ length (encodehexstring s) = (2 * length s)%nat.
Proof.
  intros Hs. split; [|apply length_encodehexstring]. unfold decodehexstring. rewrite length_encodehexstring, Nat.even_mul. cbn [Nat.even orb].
  f_equal. induction Hs as [|b s Hb _ IH]; [done|]. rewrite encodehex_cons. cbn [decodePairs].
  rewrite hex_byte by done. f_equal. exact IH.
Qed.

Lemma hex_roundtrip_witness : decodehexstring (encodehexstring [0; 171; 255]) = Some [0; 171; 255].
Proof. apply (hex_roundtrip [0; 171; 255]). repeat (apply Forall_cons; [unfold is_u8; lia|]). constructor. Defined.

(** What the log compares: the digest as text in a buffer of 65 zeros. *)
Definition wal_md5 (l : list Z) : list Z := encodehexstring (ref_md5 l) ++ replicate 33 0.

Lemma MD5AndEncode_ok junk input :
  (64 <= length junk)%nat → Z.of_nat (length input) < input_max → MD5AndEncode junk input (replicate 65 0) = Some (wal_md5 input).
Proof.
  intros Hj Hl. unfold MD5AndEncode. rewrite MD5_ref, bind_Some_eq by done.
  pose proof (length_encodehexstring (ref_md5 input)) as Hh. rewrite length_ref_md5 in Hh.
  rewrite poke_front by (rewrite length_app, Hh; cbn [length replicate]; lia). f_equal.
  rewrite length_app, Hh. unfold wal_md5. rewrite <- app_assoc. done.
Qed.

Lemma length_wal_md5 l : length (wal_md5 l) = 65%nat.
Proof. unfold wal_md5. rewrite length_app, length_encodehexstring, length_ref_md5. done. Qed.

(** The digest of a password does not fit the buffer that [Md5Encode] gives it: the text
    has 32 digits and a 0 behind them, the buffer 32 bytes. *)
Lemma md5Encode_overflows junk passwd out : (64 <= length junk)%nat → Md5Encode junk passwd out = None.
Proof.
  intros Hj. unfold Md5Encode. cbv zeta. set (len := if 16 <? Z.of_nat (length passwd) then 16 else Z.of_nat (length passwd)).
  assert (Hlen : 0 <= len <= 16 ∧ (Z.to_nat len <= length passwd)%nat) by (unfold len; destruct (Z.ltb_spec 16 (Z.of_nat (length passwd))); lia).
  rewrite (poke_front (replicate 16 0) (take (Z.to_nat len) passwd)), bind_Some_eq by (rewrite length_take; cbn [length replicate]; lia).
  set (buf := take (Z.to_nat len) passwd ++ _). assert (Hbuf : length buf = 16%nat).
  { unfold buf. rewrite length_app, length_drop, !length_take. cbn [length replicate]. lia. }
  rewrite MD5_ref, bind_Some_eq by (done || (rewrite length_take; unfold input_max; lia)).
  rewrite (poke_front (take 32 junk) [0]), bind_Some_eq by (rewrite length_take; cbn [length]; lia).
  set (text := [0] ++ _). assert (Htext : length text = 32%nat).
  { unfold text. rewrite length_app, length_drop, length_take. cbn [length]. lia. }
  assert (Hgen : ∀ l i t, length t = 32%nat → (i + 2 * length l = 32)%nat → (0 < length l)%nat → encodebin2hex l (Z.of_nat i) t = None).
  { clear. induction l as [|c l IH]; intros i t Ht Hi Hl; [simpl in Hl; lia|]. cbn [encodebin2hex length] in *.
    destruct l as [|c' l].
    - unfold poke. rewrite Ht, (proj2 (Z.leb_gt (Z.of_nat i + Z.of_nat (length (char2str c ++ [0]))) (Z.of_nat 32)))
        by (cbn [char2str app length] in *; lia).
      by rewrite andb_false_r.
    - rewrite (poke_ok t i), bind_Some_eq by (rewrite Ht; cbn [char2str app length] in *; lia).
      replace (Z.of_nat i + 2) with (Z.of_nat (i + 2)) by lia. apply IH.
      + rewrite !length_app, length_take, length_drop. cbn [char2str app length] in *. lia.
      + cbn [length] in *. lia.
      + cbn [length]. lia. }
  by rewrite (Hgen (ref_md5 _) 0%nat) by (rewrite ?length_ref_md5; (done || lia)).
Qed.

Lemma md5Encode_overflows_witness : Md5Encode (replicate 64 7) [112; 119] (replicate 33 0) = None.
Proof. apply (md5Encode_overflows (replicate 64 7) [112; 119] (replicate 33 0)). simpl. lia. Defined.
