(* ===== verification/Wal.v ===== *)
(** * The write-ahead log (src/src/common/wal.{h,cc})

    A log is a directory of files named after the index of their first entry.  An entry is a
    length and its data; the open file gets new entries at its end and, once it exceeds 16
    MB, an index of its entries and a trailer, after which a new file is opened.  In memory
    every file has the position and length of its entries, the word [pos << 32 | length].

    Writers queue up; the one at the front writes the batch of all queued entries with the
    lock released, so that others may queue meanwhile: [wal_step] has these steps in every
    interleaving, and restarts between them.  Writes to files succeed and are whole.  [md5] is the digest with its 65 bytes
    ([Md5.wal_md5]; nothing else is used of it), [iter] the order in which an unordered map is visited.  A buffer that collects a
    batch or an index is the list of bytes written to it ([BufferSpec]).  Files and their
    [WalFileInfo] are named by the index in the file name.  [None] is an execution without
    meaning: a failed assertion, a null pointer, an endless loop. *)
From S2P Require Import Prelude.

Definition sMaxLogIndex : Z := 0xFFFFFFFFFFFFFFFF.

(** [WalFileInfo]. *)
Record wal_info := {
  startIndex : Z;
  lastIndex : Z;
  normal : bool;
  loadFull : bool;
  ivts : gmap Z Z }.

Definition WalFileInfo_new (start_idx : Z) : wal_info :=
  {| startIndex := start_idx; lastIndex := 0; normal := false; loadFull := false; ivts := ∅ |}.

Definition set_ivts (m : gmap Z Z) (i : wal_info) : wal_info :=
  Build_wal_info (startIndex i) (lastIndex i) (normal i) (loadFull i) m.
Definition setNormal (i : wal_info) : wal_info :=
  Build_wal_info (startIndex i) (lastIndex i) true (loadFull i) (ivts i).
Definition WalFileInfo_clean (i : wal_info) : wal_info :=
  Build_wal_info (startIndex i) (lastIndex i) false (loadFull i) ∅.

(** [emplace] of a map: a key that is there keeps its value. *)
Definition emplace {A} (k : Z) (v : A) (m : gmap Z A) : gmap Z A :=
  match m !! k with Some _ => m | None => <[k := v]> m end.

(** The word of an entry and its two halves. *)
Definition packIvt (pos length : Z) : Z := Z.lor (Z.shiftl pos 32) length.
Definition ivtPos (ivt : Z) : Z := Z.land (Z.shiftr ivt 32) 0xFFFFFFFF.
Definition ivtLength (ivt : Z) : Z := Z.land (u32 ivt) 0xFFFFFFFF.

(** [Wal]; [wFd] is the file open for writing. *)
Record wal := {
  files : gmap Z (list Z);
  infos : gmap Z wal_info;
  walFiles : gmap Z Z;
  curWalFile : option Z;
  startIdx : Z;
  lastIdx : Z;
  nextIdx : Z;
  curWalPos : Z;
  wFd : option Z;
  writers : list (Z * list Z) }.

Definition pread (c : list Z) (length pos : Z) : list Z := take (Z.to_nat length) (drop (Z.to_nat pos) c).

(** [walFiles.lower_bound(k)]. *)
Definition lower_bound (m : gmap Z Z) (k : Z) : option (Z * Z) :=
  e ← head (filter (λ e, k <= e) (merge_sort Z.le (elements (dom m))));
  v ← m !! e;
  Some (e, v).

(** The bytes of an entry in a file. *)
Definition entry (d : list Z) : list Z := be_bytes 4 (Z.of_nat (length d)) ++ d.

Section Wal.
Context (md5 : list Z → list Z) (iter : gmap Z Z → list (Z * Z)).

(** ** The index of a file *)

Definition buildIndex (i : wal_info) : list Z :=
  be_bytes 4 (Z.of_nat (size (ivts i))) ++ mjoin ((λ kv, be_bytes 8 kv.1 ++ be_bytes 8 kv.2) <$> iter (ivts i)).

(** Reads [n] bytes from the front of a buffer. *)
Definition readFront (n : nat) (l : list Z) : option (Z * list Z) :=
  if Nat.leb n (length l) then Some (be_value (take n l), drop n l) else None.

Fixpoint loadIndex (count : nat) (l : list Z) (i : wal_info) : option wal_info :=
  match count with
  | O => Some i
  | S count =>
      '(seq, l) ← readFront 8 l;
      '(idx, l) ← readFront 8 l;
      loadIndex count l (Build_wal_info (startIndex i)
        (if lastIndex i <? seq then seq else lastIndex i) (normal i) (loadFull i) (emplace seq idx (ivts i)))
  end.

(** The index behind the entries of a full file; [None] inside: no valid trailer. *)
Definition loadTrailer (c : list Z) (i : wal_info) : option (option (bool * wal_info)) :=
  let total_size := Z.of_nat (length c) in
  if total_size <=? 73 then Some None else
  let buf := pread c 73 (total_size - 73) in
  let md5_buf := take 8 buf in
  if negb (bool_decide (md5 md5_buf = drop 8 buf)) then Some None else
  let pos := be_value (take 4 md5_buf) in
  let size := be_value (drop 4 md5_buf) in
  let l := pread c size pos in
  if negb (Z.of_nat (length l) =? size) then Some (Some (false, i)) else
  '(count, l) ← readFront 4 l;
  i ← loadIndex (Z.to_nat count) l i;
  Some (Some (true, Build_wal_info (startIndex i) (lastIndex i) (normal i) true (ivts i))).

(** The entries of a file without an index, one after the other. *)
Fixpoint scanEntries (fuel : nat) (c : list Z) (pos last_idx : Z) (i : wal_info)
    : option (bool * wal_info) :=
  if pos <? Z.of_nat (length c) then
    match fuel with
    | O => None
    | S fuel =>
        let h := pread c 4 pos in
        if negb (Nat.eqb (length h) 4) then Some (false, i) else
        let vsize := u32 (4 + be_value h) in
        scanEntries fuel c (u32 (pos + vsize)) (last_idx + 1)
          (Build_wal_info (startIndex i) last_idx (normal i) (loadFull i)
             (emplace last_idx (packIvt pos vsize) (ivts i)))
    end
  else Some (true, i).

Definition loadInfo (c : list Z) (i : wal_info) : option (bool * wal_info) :=
  r ← loadTrailer c i;
  match r with
  | Some r => Some r
  | None => scanEntries (S (length c)) c 0 (startIndex i) i
  end.

(** [insert], [getIvtIndex]: load the index first when it was dropped. *)
Definition WalFileInfo_insert (c : list Z) (seq size : Z) (i : wal_info) : option (bool * wal_info) :=
  '(ok, i) ← (if normal i then Some (true, i)
              else '(ok, i) ← loadInfo c i; Some (ok, if (ok : bool) then setNormal i else i));
  Some (ok, if (ok : bool) then set_ivts (emplace seq size (ivts i)) i else i).

Definition getIvtIndex (c : list Z) (seq : Z) (i : wal_info) : option (Z * wal_info) :=
  '(ok, i) ← (if normal i then Some (true, i)
              else '(ok, i) ← loadInfo c i; Some (ok, if (ok : bool) then setNormal i else i));
  Some (if (ok : bool) then default 0 (ivts i !! seq) else 0, i).

Definition WalFileInfo_rollback (idx : Z) (i : wal_info) : Z * wal_info :=
  if (idx <? startIndex i) || (lastIndex i <? idx) then (0, i) else
  let i := set_ivts (foldl (λ m k, delete k m) (ivts i) (seqZ (idx + 1) (lastIndex i - (idx + 1)))) i in
  match ivts i !! idx with
  | None => (0, i)
  | Some ivt => (u32 (ivtPos ivt + ivtLength ivt), i)
  end.

(** ** Files *)

Definition set_info (id : Z) (i : wal_info) (w : wal) : wal :=
  Build_wal (files w) (<[id := i]> (infos w)) (walFiles w) (curWalFile w) (startIdx w) (lastIdx w)
    (nextIdx w) (curWalPos w) (wFd w) (writers w).
Definition set_pos (pos : Z) (w : wal) : wal :=
  Build_wal (files w) (infos w) (walFiles w) (curWalFile w) (startIdx w) (lastIdx w)
    (nextIdx w) pos (wFd w) (writers w).
Definition set_writers (q : list (Z * list Z)) (w : wal) : wal :=
  Build_wal (files w) (infos w) (walFiles w) (curWalFile w) (startIdx w) (lastIdx w)
    (nextIdx w) (curWalPos w) (wFd w) q.
Definition set_last (n : Z) (w : wal) : wal :=
  Build_wal (files w) (infos w) (walFiles w) (curWalFile w) (startIdx w) n
    (nextIdx w) (curWalPos w) (wFd w) (writers w).

(** [write(wFd, l)] of a file opened for appending. *)
Definition writeFile (l : list Z) (w : wal) : option wal :=
  id ← wFd w;
  c ← files w !! id;
  Some (Build_wal (<[id := c ++ l]> (files w)) (infos w) (walFiles w) (curWalFile w) (startIdx w)
          (lastIdx w) (nextIdx w) (curWalPos w) (wFd w) (writers w)).

Definition prepareNewFile (start_log_id : Z) (w : wal) : wal :=
  let info := setNormal (WalFileInfo_new start_log_id) in
  let m := match walFiles w !! sMaxLogIndex with
           | Some id => delete sMaxLogIndex
               (if negb (start_log_id =? 1) then emplace (start_log_id - 1) id (walFiles w) else walFiles w)
           | None => walFiles w
           end in
  Build_wal (<[start_log_id := default [] (files w !! start_log_id)]> (files w))
    (<[start_log_id := info]> (infos w)) (emplace sMaxLogIndex start_log_id m) (Some start_log_id)
    (startIdx w) (lastIdx w) (nextIdx w) 0 (Some start_log_id) (writers w).

(** [rollback]: the files behind are forgotten. *)
Definition rollback (last_idx : Z) (w : wal) : option wal :=
  match lower_bound (walFiles w) last_idx with
  | None => Some w
  | Some (e, id) =>
      i ← infos w !! id;
      let m := filter (λ kv, kv.1 <= e) (walFiles w) in
      let '(size, i) := WalFileInfo_rollback last_idx i in
      Some (Build_wal (files w) (<[id := i]> (infos w)) m (Some id) (startIdx w) (lastIdx w)
              (u64 (last_idx + 1)) size (wFd w) (writers w))
  end.

(** ** Writing *)

(** One writer of [buildBatchGroup]. *)
Definition batchEntry (st : list Z * wal) (x : Z * list Z) : option (list Z * wal) :=
  let '(rep, w) := st in
  let '(seq, data) := x in
  let len := Z.of_nat (length data) in
  id ← curWalFile w;
  i ← infos w !! id;
  c ← files w !! id;
  '(_, i) ← WalFileInfo_insert c seq (packIvt (curWalPos w) (4 + len)) i;
  Some (rep ++ be_bytes 4 len ++ data, set_pos (u32 (curWalPos w + (4 + len))) (set_info id i w)).

Definition buildBatchGroup (w : wal) : option (list Z * wal) :=
  foldl (λ st x, st ← st; batchEntry st x) (Some ([], w)) (writers w).

(** The index, its trailer and the next file, for a file of more than 16 MB. *)
Definition rotate (last_seq : Z) (w : wal) : option wal :=
  if curWalPos w <=? 16 * 1024 * 1024 then Some w else
  id ← curWalFile w;
  i ← infos w !! id;
  let idxbuf := buildIndex i in
  let buf := be_bytes 4 (curWalPos w) ++ be_bytes 4 (Z.of_nat (length idxbuf)) in
  w ← writeFile (idxbuf ++ buf ++ md5 buf) w;
  Some (prepareNewFile (last_seq + 1) w).

(** The writer at the front, from [buildBatchGroup] to [lastIdx.store]. *)
Definition writeBatch (w : wal) : option wal :=
  x ← list.last (writers w);
  '(batch, w) ← buildBatchGroup w;
  w ← writeFile batch w;
  w ← rotate x.1 w;
  Some (set_last x.1 w).

(** A writer queues up. *)
Definition enqueue (data : list Z) (w : wal) : wal :=
  Build_wal (files w) (infos w) (walFiles w) (curWalFile w) (startIdx w) (lastIdx w)
    (u64 (nextIdx w + 1)) (curWalPos w) (wFd w) (writers w ++ [(nextIdx w, data)]).

(** [appendLog] of a single writer; it returns 0. *)
Definition appendLog (data : list Z) (w : wal) : option (Z * wal) :=
  w ← writeBatch (enqueue data w);
  Some (0, set_writers [] w).

Definition writeAt (idx : Z) (data : list Z) (w : wal) : option (bool * wal) :=
  if nextIdx w <? idx then Some (false, w) else
  w ← (if idx <? nextIdx w then rollback (u64 (idx - 1)) w else Some w);
  '(_, w) ← appendLog data w;
  Some (true, w).

(** ** Reading *)

(** [entryAt]: [None] inside is a null pointer. *)
Definition entryAt (idx : Z) (w : wal) : option (option (list Z) * wal) :=
  if (idx <? startIdx w) || (lastIdx w <? idx) then Some (None, w) else
  match lower_bound (walFiles w) idx with
  | None => Some (None, w)
  | Some (_, id) =>
      i ← infos w !! id;
      c ← files w !! id;
      '(ivt, i) ← getIvtIndex c idx i;
      let w := set_info id i w in
      if ivt =? 0 then Some (None, w) else
      let l := pread c (ivtLength ivt) (ivtPos ivt) in
      if negb (Z.of_nat (length l) =? ivtLength ivt) then Some (None, w) else Some (Some l, w)
  end.

(** The words of [n] entries from [idx] on: start position, total length and lengths. *)
Fixpoint ivtRange (n : nat) (c : list Z) (idx start_pos total_length : Z) (lengths : list Z) (i : wal_info)
    : option (option (Z * Z * list Z) * wal_info) :=
  match n with
  | O => Some (Some (start_pos, total_length, lengths), i)
  | S n =>
      '(ivt, i) ← getIvtIndex c idx i;
      if ivt =? 0 then Some (None, i) else
      ivtRange n c (idx + 1) (if start_pos =? 0xFFFFFFFF then ivtPos ivt else start_pos)
        (u32 (total_length + ivtLength ivt)) (lengths ++ [ivtLength ivt]) i
  end.

(** The bytes read, cut into entries; a read past the end leaves bytes without meaning. *)
Fixpoint cutEntries (lengths : list Z) (l : list Z) : option (list (list Z)) :=
  match lengths with
  | [] => Some []
  | n :: lengths =>
      _ ← assert_that (n <=? Z.of_nat (length l));
      r ← cutEntries lengths (drop (Z.to_nat n) l);
      Some (take (Z.to_nat n) l :: r)
  end.

(** [logEntries]: the entries from [sidx] to [eidx], at most to the end of the file of [sidx]. *)
Definition logEntries (sidx eidx : Z) (w : wal) : option (list (list Z) * wal) :=
  if (eidx <? sidx) || (sidx <? startIdx w) || (lastIdx w <? sidx) || (eidx <? startIdx w) || (lastIdx w <? eidx)
  then Some ([], w) else
  match lower_bound (walFiles w) sidx with
  | None => Some ([], w)
  | Some (end_idx, id) =>
      let end_idx := if eidx <? end_idx then eidx else end_idx in
      i ← infos w !! id;
      c ← files w !! id;
      '(r, i) ← ivtRange (Z.to_nat (end_idx - sidx + 1)) c sidx 0xFFFFFFFF 0 [] i;
      let w := set_info id i w in
      match r with
      | None => Some ([], w)
      | Some (start_pos, total_length, lengths) =>
          let l := pread c total_length start_pos in
          if negb (Z.of_nat (length l) =? total_length) then Some ([], w) else
          r ← cutEntries lengths l;
          Some (r, w)
      end
  end.

(** ** Opening a log *)

(** One file of [scanAllWalFiles]; [is_last] for the last one. *)
Definition scanFile (is_last : bool) (w : wal) (start : Z) : option (bool * wal) :=
  c ← files w !! start;
  '(ok, i) ← loadInfo c (WalFileInfo_new start);
  let sidx := if startIdx w =? 0 then start else startIdx w in
  let mk i m last pos fd :=
    Build_wal (files w) (<[start := i]> (infos w)) m (Some start) sidx last (nextIdx w) pos fd (writers w) in
  if negb ok then Some (false, mk i (walFiles w) (lastIdx w) (curWalPos w) (wFd w)) else
  let mk := mk (setNormal i) in
  if is_last then
    if negb (loadFull i) then
      Some (true, mk (emplace sMaxLogIndex start (walFiles w))
                     (if lastIndex i =? 0 then start - 1 else lastIndex i)
                     (u32 (Z.of_nat (length c))) (Some start))
    else Some (true, mk (emplace (lastIndex i) start (walFiles w)) (lastIndex i) 0 None)
  else if negb (loadFull i) then Some (false, mk (walFiles w) (lastIdx w) (curWalPos w) (wFd w))
  else Some (true, mk (emplace (lastIndex i) start (walFiles w)) (lastIdx w) (curWalPos w) (wFd w)).

Fixpoint scanAllWalFiles (starts : list Z) (w : wal) : option (bool * wal) :=
  match starts with
  | [] => Some (true, w)
  | start :: rest =>
      '(ok, w) ← scanFile (bool_decide (rest = [])) w start;
      if (ok : bool) then scanAllWalFiles rest w else Some (false, w)
  end.

Definition Wal_new (fs : gmap Z (list Z)) : wal :=
  {| files := fs; infos := ∅; walFiles := ∅; curWalFile := None; startIdx := 0; lastIdx := 0;
     nextIdx := 1; curWalPos := 0; wFd := None; writers := [] |}.

(** [load] of a directory with the files [fs]; names are visited in their order. *)
Definition load (fs : gmap Z (list Z)) : option (bool * wal) :=
  '(ok, w) ← scanAllWalFiles (filter (λ s, s ≠ 0) (merge_sort Z.le (elements (dom fs)))) (Wal_new fs);
  if negb ok then Some (false, w) else
  let w := match wFd w with Some _ => w | None => prepareNewFile (lastIdx w + 1) w end in
  Some (true, Build_wal (files w) (infos w) (walFiles w) (curWalFile w)
                (if startIdx w =? 0 then 1 else startIdx w) (lastIdx w) (lastIdx w + 1)
                (curWalPos w) (wFd w) (writers w)).

(** ** Runs *)

(** The log and the number of writers in the batch being written. *)
Record wal_state := { st_wal : wal; st_batch : option nat }.

(** The data of the writers that wait stays below 64 MB: with it the batch and the index of
    a file fit in a buffer.  Indexes stay below [2^63], as the names of files have them. *)
Definition batch_limit : Z := 2 ^ 26.
Definition waiting (w : wal) : Z := Z.of_nat (length (mjoin (entry <$> (writers w).*2))).

(** The open file does not happen to end with bytes and their MD5, which loading takes for
    the end of a closed file. *)
Definition no_trailer (w : wal) : Prop :=
  ∀ id c, curWalFile w = Some id → files w !! id = Some c → loadTrailer c (WalFileInfo_new id) = Some None.

Inductive wal_event := Queued (data : list Z) | Written | Dequeued | Restarted.

(** A writer queues up, the front one writes its batch, and then dequeues it; between such
    steps the process may end and be started again on its files. *)
Inductive wal_step : wal_state → wal_event → wal_state → Prop :=
| step_enqueue w b data :
    waiting (enqueue data w) < batch_limit → nextIdx w + 1 < 2 ^ 63 →
    wal_step {| st_wal := w; st_batch := b |} (Queued data) {| st_wal := enqueue data w; st_batch := b |}
| step_write w w' :
    writers w ≠ [] → writeBatch w = Some w' →
    wal_step {| st_wal := w; st_batch := None |} Written {| st_wal := w'; st_batch := Some (length (writers w)) |}
| step_done w n :
    wal_step {| st_wal := w; st_batch := Some n |} Dequeued
      {| st_wal := set_writers (drop n (writers w)) w; st_batch := None |}
| step_restart w b w' :
    no_trailer w → load (files w) = Some (true, w') →
    wal_step {| st_wal := w; st_batch := b |} Restarted {| st_wal := w'; st_batch := None |}.

(** What the log holds and its writers wait for after an event: a restart loses the entries
    that were queued and not written. *)
Definition log_after (ds : list (list Z)) (e : wal_event) (s : wal_state) : list (list Z) :=
  match e with
  | Queued d => ds ++ [d]
  | Written | Dequeued => ds
  | Restarted => take (Z.to_nat (lastIdx (st_wal s))) ds
  end.

(** [wal_steps s ds s']: a run from [s] to [s'] after which the log is to be [ds]. *)
Inductive wal_steps : wal_state → list (list Z) → wal_state → Prop :=
| steps_refl s : wal_steps s [] s
| steps_snoc s ds s' e s'' :
    wal_steps s ds s' → wal_step s' e s'' → wal_steps s (log_after ds e s'') s''.

End Wal.
