(* ===== verification/WalSpec.v ===== *)
(** * What the write-ahead log promises

    The files of a log are seen as a chain of segments, each the list of its entries; all but
    the last are closed.  From this follow reading of single entries and of ranges, the
    indexes that loading recovers, and that a log survives a restart. *)
From S2P Require Import Prelude Md5 Wal.

(** ** Words of the index *)

Lemma packIvt_eq pos len : 0 <= len < 2 ^ 32 → packIvt pos len = pos * 2 ^ 32 + len.
Proof. intros H. apply lor_shiftl; lia. Qed.

Lemma packIvt_pos pos len : 0 <= pos < 2 ^ 32 → 0 <= len < 2 ^ 32 → ivtPos (packIvt pos len) = pos.
Proof.
  intros Hp Hl. unfold ivtPos. rewrite packIvt_eq by done. change 0xFFFFFFFF with (Z.ones 32).
  rewrite Z.land_ones, Z.shiftr_div_pow2, Z.div_add_l, Z.div_small, Z.add_0_r by lia. by apply Z.mod_small.
Qed.

Lemma packIvt_length pos len : 0 <= len < 2 ^ 32 → ivtLength (packIvt pos len) = len.
Proof.
  intros Hl. unfold ivtLength, u32. rewrite packIvt_eq by done. change 0xFFFFFFFF with (Z.ones 32).
  rewrite Z.land_ones, Z.mod_mod, Z.add_comm, Z.mod_add by lia. by apply Z.mod_small.
Qed.

(** ** Entries *)

Lemma length_entry d : length (entry d) = (4 + length d)%nat.
Proof. unfold entry. by rewrite length_app, length_be_bytes. Qed.

(** The bytes of entries one after the other, and their number. *)
Definition entries_of (ds : list (list Z)) : list Z := mjoin (entry <$> ds).
Definition total (ds : list (list Z)) : Z := Z.of_nat (length (entries_of ds)).

Lemma entries_of_cons d ds : entries_of (d :: ds) = entry d ++ entries_of ds.
Proof. done. Qed.
Lemma entries_of_app ds1 ds2 : entries_of (ds1 ++ ds2) = entries_of ds1 ++ entries_of ds2.
Proof. unfold entries_of. by rewrite fmap_app, join_app. Qed.
Lemma total_cons d ds : total (d :: ds) = 4 + Z.of_nat (length d) + total ds.
Proof. unfold total. rewrite entries_of_cons, length_app, length_entry. lia. Qed.
Lemma total_app ds1 ds2 : total (ds1 ++ ds2) = total ds1 + total ds2.
Proof. unfold total. rewrite entries_of_app, length_app. lia. Qed.
Lemma total_nonneg ds : 0 <= total ds.
Proof. unfold total. lia. Qed.

Lemma pread_app c1 l c2 : pread (c1 ++ l ++ c2) (Z.of_nat (length l)) (Z.of_nat (length c1)) = l.
Proof. unfold pread. by rewrite !Nat2Z.id, drop_app_length, take_app_length. Qed.

Lemma pread_prefix c c' len pos :
  0 <= pos → 0 <= len → pos + len <= Z.of_nat (length c) → c `prefix_of` c' → pread c' len pos = pread c len pos.
Proof.
  intros Hp Hl Hb [k ->]. unfold pread. rewrite drop_app_le by lia.
  apply take_app_le. rewrite length_drop. lia.
Qed.

Lemma emplace_lookup {A} k (v : A) m j :
  emplace k v m !! j = if decide (j = k ∧ m !! k = None) then Some v else m !! j.
Proof.
  unfold emplace. destruct (m !! k) as [x|] eqn:E.
  - rewrite decide_False; [done|]. by intros [_ ?].
  - destruct (decide (j = k)) as [->|Hne].
    + rewrite lookup_insert_eq, decide_True by done. done.
    + rewrite lookup_insert_ne, decide_False by (done || by intros [? _]). done.
Qed.

(** ** The smallest key that is not smaller *)

Lemma lower_bound_min (m : gmap Z Z) k e v :
  m !! e = Some v → k <= e → (∀ e', is_Some (m !! e') → k <= e' → e <= e') → lower_bound m k = Some (e, v).
Proof.
  intros He Hk Hmin. unfold lower_bound.
  set (l := merge_sort Z.le (elements (dom m))).
  assert (Hl : ∀ x, x ∈ l ↔ is_Some (m !! x)).
  { intros x. unfold l. by rewrite merge_sort_Permutation, elem_of_elements, elem_of_dom. }
  assert (Hs : StronglySorted Z.le l) by (apply (StronglySorted_merge_sort Z.le)).
  assert (Hhead : head (filter (λ x, k <= x) l) = Some e); [|by rewrite Hhead, bind_Some_eq, He].
  assert (Hel : e ∈ l) by (apply Hl; eauto).
  assert (Hmin' : ∀ e', e' ∈ l → k <= e' → e <= e') by (intros e' He'; apply Hmin, Hl, He').
  clearbody l. clear Hl Hmin. induction Hs as [|x l Hs IH Hx]; [by apply not_elem_of_nil in Hel|].
  rewrite filter_cons. destruct (decide (k <= x)) as [Hkx|Hkx].
  - simpl. f_equal. apply elem_of_cons in Hel as [->|Hel]; [done|].
    rewrite list.Forall_forall in Hx. specialize (Hx e Hel). pose proof (Hmin' x ltac:(left) Hkx). lia.
  - apply elem_of_cons in Hel as [->|Hel]; [done|]. apply IH; [done|]. intros. apply Hmin'; [by right|done].
Qed.

Lemma set_info_id w c i : infos w !! c = Some i → set_info c i w = w.
Proof. intros H. unfold set_info. rewrite insert_id by done. by destruct w. Qed.

(** ** A batch *)

(** The index after the writers [q], from position [pos]. *)
Fixpoint batchIvts (pos : Z) (q : list (Z * list Z)) (m : gmap Z Z) : gmap Z Z :=
  match q with
  | [] => m
  | (s, d) :: q => batchIvts (pos + Z.of_nat (length (entry d))) q
                     (emplace s (packIvt pos (Z.of_nat (length (entry d)))) m)
  end.

Lemma batch_fold md5 q rep w c i content :
  curWalFile w = Some c → infos w !! c = Some i → files w !! c = Some content → normal i = true →
  0 <= curWalPos w → curWalPos w + total q.*2 < 2 ^ 32 →
  foldl (λ st x, st ← st; batchEntry md5 st x) (Some (rep, w)) q =
    Some (rep ++ entries_of q.*2,
          set_pos (curWalPos w + total q.*2) (set_info c (set_ivts (batchIvts (curWalPos w) q (ivts i)) i) w)).
Proof.
  revert rep w i. induction q as [|[s d] q IH]; intros rep w i Hc Hi Hf Hn Hp Hsz.
  - cbn [foldl fmap list_fmap batchIvts]. unfold total, entries_of. cbn [fmap list_fmap mjoin list_join length].
    rewrite app_nil_r, Z.add_0_r. do 2 f_equal.
    assert (set_ivts (ivts i) i = i) as -> by (by destruct i).
    rewrite set_info_id by done. by destruct w.
  - rewrite fmap_cons in *. cbn [snd] in *. rewrite total_cons in Hsz. pose proof (total_nonneg q.*2).
    cbn [foldl]. rewrite bind_Some_eq. unfold batchEntry at 2.
    rewrite Hc, bind_Some_eq, Hi, bind_Some_eq, Hf, bind_Some_eq. unfold WalFileInfo_insert.
    rewrite Hn, bind_Some_eq. cbv beta iota. rewrite bind_Some_eq. cbv beta iota.
    assert (Hu : u32 (curWalPos w + (4 + Z.of_nat (length d))) = curWalPos w + (4 + Z.of_nat (length d)))
      by (unfold u32; rewrite Z.mod_small; lia). rewrite Hu.
    erewrite IH; [|done|apply lookup_insert_eq|done|done|cbn [curWalPos set_pos]; lia|cbn [curWalPos set_pos]; lia].
    rewrite entries_of_cons, total_cons. cbn [curWalPos set_pos set_info batchIvts ivts set_ivts].
    rewrite length_entry. replace (Z.of_nat (4 + length d)) with (4 + Z.of_nat (length d)) by lia.
    f_equal. f_equal; [by rewrite <- !app_assoc|].
    unfold set_pos, set_info. cbn [files infos walFiles curWalFile startIdx lastIdx nextIdx curWalPos wFd writers].
    rewrite insert_insert_eq. f_equal. lia.
Qed.

(** Consecutive indexes. *)
Definition numbered (s : Z) (ds : list (list Z)) : list (Z * list Z) := imap (λ k d, (s + Z.of_nat k, d)) ds.

Lemma numbered_cons s d ds : numbered s (d :: ds) = (s, d) :: numbered (s + 1) ds.
Proof.
  unfold numbered. rewrite imap_cons, Z.add_0_r. f_equal. apply imap_ext. intros k x _. simpl.
  f_equal. lia.
Qed.

Lemma numbered_snd s ds : (numbered s ds).*2 = ds.
Proof. revert s. induction ds as [|d ds IH]; intros s; [done|]. rewrite numbered_cons, fmap_cons, IH. done. Qed.

Lemma numbered_seqs s ds : (numbered s ds).*1 = (λ k, s + Z.of_nat k) <$> seq 0 (length ds).
Proof.
  apply list_eq. intros k. unfold numbered. rewrite !list_lookup_fmap, list_lookup_imap.
  destruct (decide (k < length ds)%nat) as [Hk|Hk].
  - rewrite lookup_seq_lt by done. destruct (lookup_lt_is_Some_2 ds k Hk) as [d ->]. done.
  - rewrite lookup_seq_ge, lookup_ge_None_2 by lia. done.
Qed.

(** ** Segments *)

(** The index of a segment that starts with index [t] and has the entries [es]. *)
Definition segIvts (t : Z) (es : list (list Z)) : gmap Z Z := batchIvts 0 (numbered t es) ∅.

Lemma batchIvts_app pos q1 q2 m :
  batchIvts pos (q1 ++ q2) m = batchIvts (pos + total q1.*2) q2 (batchIvts pos q1 m).
Proof.
  revert pos m. induction q1 as [|[s d] q1 IH]; intros pos m.
  { cbn [app batchIvts]. f_equal. change (total (@nil (Z * list Z)).*2) with 0. lia. }
  cbn [app batchIvts]. rewrite IH, fmap_cons, total_cons, length_entry. f_equal. cbn [snd]. lia.
Qed.

Lemma numbered_app s es1 es2 :
  numbered s (es1 ++ es2) = numbered s es1 ++ numbered (s + Z.of_nat (length es1)) es2.
Proof.
  revert s. induction es1 as [|d es1 IH]; intros s; [by rewrite Z.add_0_r|].
  cbn [app]. rewrite !numbered_cons, IH. cbn [app length]. do 3 f_equal. lia.
Qed.

Lemma segIvts_app t es1 es2 :
  segIvts t (es1 ++ es2) =
    batchIvts (total es1) (numbered (t + Z.of_nat (length es1)) es2) (segIvts t es1).
Proof. unfold segIvts. by rewrite numbered_app, batchIvts_app, numbered_snd. Qed.

Lemma segIvts_dom t es k : is_Some (segIvts t es !! k) ↔ t <= k < t + Z.of_nat (length es).
Proof.
  induction es as [|d es IH] using rev_ind.
  { change (segIvts t []) with (∅ : gmap Z Z). rewrite lookup_empty. split; [by intros []|simpl; lia]. }
  rewrite segIvts_app, length_app, numbered_cons. cbn [batchIvts numbered imap length]. rewrite emplace_lookup.
  case_decide as Hd.
  - destruct Hd as [-> _]. split; [intros _; lia|eauto].
  - rewrite IH. split; [lia|]. intros Hk. destruct (decide (k = t + Z.of_nat (length es))) as [->|]; [|lia].
    destruct Hd. split; [done|]. apply eq_None_not_Some. rewrite IH. lia.
Qed.

Lemma segIvts_lookup t es k d :
  es !! k = Some d →
  segIvts t es !! (t + Z.of_nat k) = Some (packIvt (total (take k es)) (Z.of_nat (length (entry d)))).
Proof.
  induction es as [|d' es IH] using rev_ind; [done|]. intros Hk.
  rewrite segIvts_app, numbered_cons. cbn [batchIvts numbered imap]. rewrite emplace_lookup.
  destruct (decide (k < length es)%nat) as [Hlt|Hlt].
  - rewrite lookup_app_l in Hk by done. rewrite decide_False by (intros [? _]; lia). rewrite take_app_le by lia. by apply IH.
  - assert (k = length es) as ->.
    { apply lookup_lt_Some in Hk. rewrite length_app in Hk. simpl in Hk. lia. }
    rewrite lookup_app_r, Nat.sub_diag in Hk by lia. injection Hk as ->. rewrite take_app_length.
    rewrite decide_True; [done|]. split; [done|]. apply eq_None_not_Some. rewrite segIvts_dom. lia.
Qed.

(** Reading some entries in the middle of a file. *)
Lemma pread_entries es1 es2 rest :
  pread (entries_of (es1 ++ es2) ++ rest) (total es2) (total es1) = entries_of es2.
Proof. unfold total. rewrite entries_of_app, <- app_assoc. apply pread_app. Qed.

(** [chain s cl s']: the segments [cl], not empty, have the indexes from [s] to before [s']. *)
Fixpoint chain (s : Z) (cl : list (Z * list (list Z))) (s' : Z) : Prop :=
  match cl with
  | [] => s = s'
  | (t, es) :: cl => t = s ∧ es ≠ [] ∧ chain (s + Z.of_nat (length es)) cl s'
  end.

Lemma nonempty_length {A} (l : list A) : l ≠ [] → (0 < length l)%nat.
Proof. destruct l; simpl; [done|lia]. Qed.

Lemma mjoin_cons {A} (l : list A) ls : mjoin (l :: ls) = l ++ mjoin ls.
Proof. done. Qed.

Lemma chain_le s cl s' : chain s cl s' → s + Z.of_nat (length (mjoin cl.*2)) = s'.
Proof.
  revert s. induction cl as [|[t es] cl IH]; intros s; [simpl; lia|]. intros (-> & _ & Hc%IH).
  rewrite fmap_cons. cbn [snd]. rewrite mjoin_cons. rewrite length_app. lia.
Qed.

Lemma chain_app s cl1 cl2 s' : chain s (cl1 ++ cl2) s' ↔ ∃ m, chain s cl1 m ∧ chain m cl2 s'.
Proof.
  revert s. induction cl1 as [|[t es] cl1 IH]; intros s; cbn [app chain].
  - split; [by exists s|]. by intros (m & -> & Hm).
  - rewrite IH. split.
    + intros (-> & Hne & m & H1 & H2). by exists m.
    + intros (m & (-> & Hne & H1) & H2). split_and!; [done|done|by exists m].
Qed.

Lemma chain_snoc s cl t es :
  chain s cl t → es ≠ [] → chain s (cl ++ [(t, es)]) (t + Z.of_nat (length es)).
Proof. intros Hc Hne. apply chain_app. by exists t. Qed.

Lemma chain_elem s cl s' t es :
  chain s cl s' → (t, es) ∈ cl → ∃ a b, mjoin cl.*2 = a ++ es ++ b ∧ t = s + Z.of_nat (length a) ∧ es ≠ [].
Proof.
  revert s. induction cl as [|[t' es'] cl IH]; intros s Hc Hin; [by apply not_elem_of_nil in Hin|].
  destruct Hc as (-> & Hne & Hc). rewrite fmap_cons. cbn [snd]. rewrite mjoin_cons.
  apply elem_of_cons in Hin as [[= -> ->]|Hin].
  - exists [], (mjoin cl.*2). split_and!; [done|simpl; lia|done].
  - destruct (IH _ Hc Hin) as (a & b & -> & -> & Hne'). exists (es' ++ a), b.
    rewrite length_app, <- app_assoc. split_and!; [done|lia|done].
Qed.

Lemma chain_bounds s cl s' t es :
  chain s cl s' → (t, es) ∈ cl → s <= t ∧ (0 < length es)%nat ∧ t + Z.of_nat (length es) <= s'.
Proof.
  intros Hc Hin. destruct (chain_elem _ _ _ _ _ Hc Hin) as (a & b & Hj & -> & Hne%nonempty_length).
  apply chain_le in Hc. rewrite Hj, !length_app in Hc. lia.
Qed.

(** Two segments are the same or one is before the other. *)
Lemma chain_order s cl s' t es t' es' :
  chain s cl s' → (t, es) ∈ cl → (t', es') ∈ cl →
  t + Z.of_nat (length es) <= t' ∨ t' + Z.of_nat (length es') <= t ∨ t = t' ∧ es = es'.
Proof.
  revert s. induction cl as [|[t0 es0] cl IH]; intros s Hc H1 H2; [by apply not_elem_of_nil in H1|].
  destruct Hc as (-> & Hne & Hc).
  apply elem_of_cons in H1 as [[= -> ->]|H1], H2 as [[= -> ->]|H2].
  - tauto.
  - pose proof (chain_bounds _ _ _ _ _ Hc H2). lia.
  - pose proof (chain_bounds _ _ _ _ _ Hc H1). lia.
  - by apply (IH (s + Z.of_nat (length es0))).
Qed.

Lemma chain_find s cl s' i :
  chain s cl s' → s <= i < s' → ∃ t es, (t, es) ∈ cl ∧ t <= i < t + Z.of_nat (length es).
Proof.
  revert s. induction cl as [|[t es] cl IH]; intros s Hc Hi; cbn [chain] in Hc; [lia|].
  destruct Hc as (-> & Hne & Hc). destruct (decide (i < s + Z.of_nat (length es))) as [Hlt|Hge].
  - exists s, es. split; [left|lia].
  - destruct (IH _ Hc) as (t & es' & Hin & Ht); [lia|]. exists t, es'. split; [by right|done].
Qed.

(** ** Loading the index of a file *)

Lemma scanEntries_spec fuel c1 ds s i :
  total ds + Z.of_nat (length c1) < 2 ^ 32 → (length ds < fuel)%nat →
  scanEntries fuel (c1 ++ entries_of ds) (Z.of_nat (length c1)) s i =
    Some (true, Build_wal_info (startIndex i)
      (if decide (ds = []) then lastIndex i else s + Z.of_nat (length ds) - 1) (normal i) (loadFull i)
      (batchIvts (Z.of_nat (length c1)) (numbered s ds) (ivts i))).
Proof.
  revert fuel c1 s i. induction ds as [|d ds IH]; intros fuel c1 s i Hsz Hfuel.
  - assert (Hlt : (Z.of_nat (length c1) <? Z.of_nat (length (c1 ++ entries_of []))) = false).
    { apply Z.ltb_ge. unfold entries_of. simpl. rewrite app_nil_r. lia. }
    destruct fuel; cbn [scanEntries]; rewrite Hlt; cbn [numbered imap batchIvts]; rewrite decide_True by done;
      by destruct i.
  - destruct fuel as [|fuel]; [simpl in Hfuel; lia|]. rewrite total_cons in Hsz. pose proof (total_nonneg ds).
    rewrite entries_of_cons. cbn [scanEntries].
    assert (Hlt : (Z.of_nat (length c1) <? Z.of_nat (length (c1 ++ entry d ++ entries_of ds))) = true).
    { apply Z.ltb_lt. rewrite !length_app, length_entry. lia. }
    assert (Hh : pread (c1 ++ entry d ++ entries_of ds) 4 (Z.of_nat (length c1)) = be_bytes 4 (Z.of_nat (length d))).
    { unfold entry. rewrite <- app_assoc.
      pose proof (pread_app c1 (be_bytes 4 (Z.of_nat (length d))) (d ++ entries_of ds)) as Hp.
      by rewrite length_be_bytes in Hp. }
    rewrite Hlt, Hh, length_be_bytes. cbn [Nat.eqb negb]. rewrite be_value_bytes_id by (simpl; lia).
    assert (Hv : u32 (4 + Z.of_nat (length d)) = Z.of_nat (length (entry d))).
    { unfold u32. rewrite length_entry, Z.mod_small; lia. }
    rewrite Hv. pose proof (length_entry d) as Hle.
    assert (Hu : u32 (Z.of_nat (length c1) + Z.of_nat (length (entry d))) = Z.of_nat (length (c1 ++ entry d))).
    { unfold u32. rewrite length_app, Z.mod_small; lia. }
    rewrite Hu, app_assoc. rewrite IH by (rewrite ?length_app; simpl in Hfuel; lia).
    rewrite numbered_cons. cbn [batchIvts startIndex lastIndex normal loadFull ivts].
    rewrite (decide_False (P := d :: ds = [])) by done. rewrite length_app, Nat2Z.inj_add.
    do 3 f_equal. destruct (decide (ds = [])) as [->|]; simpl; lia.
Qed.

Definition encodePair (kv : Z * Z) : list Z := be_bytes 8 kv.1 ++ be_bytes 8 kv.2.

Lemma length_encodePairs l : length (mjoin (encodePair <$> l)) = (16 * length l)%nat.
Proof.
  induction l as [|kv l IH]; [done|]. change (mjoin (encodePair <$> kv :: l)) with (encodePair kv ++ mjoin (encodePair <$> l)).
  rewrite length_app, IH. unfold encodePair. rewrite length_app, !length_be_bytes. simpl. lia.
Qed.

Lemma readFront_bytes n z l :
  0 <= z < 2 ^ (8 * Z.of_nat n) → readFront n (be_bytes n z ++ l) = Some (z, l).
Proof.
  intros Hz. unfold readFront. rewrite (proj2 (Nat.leb_le _ _)) by (rewrite length_app, length_be_bytes; lia).
  rewrite take_app_length', drop_app_length' by (by rewrite length_be_bytes). by rewrite be_value_bytes_id.
Qed.

Lemma loadIndex_spec kvs rest i :
  (∀ kv, kv ∈ kvs → 0 <= kv.1 < 2 ^ 64 ∧ 0 <= kv.2 < 2 ^ 64) →
  loadIndex (length kvs) (mjoin (encodePair <$> kvs) ++ rest) i =
    Some (Build_wal_info (startIndex i) (foldl Z.max (lastIndex i) kvs.*1) (normal i) (loadFull i)
            (foldl (λ m kv, emplace kv.1 kv.2 m) (ivts i) kvs)).
Proof.
  revert i. induction kvs as [|[k v] kvs IH]; intros i Hkv; [by destruct i|].
  destruct (Hkv (k, v) ltac:(left)) as [Hk Hv]. cbn [fst snd] in *.
  change (mjoin (encodePair <$> (k, v) :: kvs)) with (encodePair (k, v) ++ mjoin (encodePair <$> kvs)).
  unfold encodePair at 1. cbn [fst snd]. rewrite <- !app_assoc. cbn [length loadIndex].
  rewrite (readFront_bytes 8), bind_Some_eq by done. rewrite (readFront_bytes 8), bind_Some_eq by done.
  rewrite IH by (intros; apply Hkv; by right). rewrite fmap_cons.
  cbn [startIndex lastIndex normal loadFull ivts foldl fst snd]. do 2 f_equal. f_equal.
  destruct (Z.ltb_spec (lastIndex i) k); lia.
Qed.

Lemma foldl_emplace kvs (m : gmap Z Z) k v :
  NoDup kvs.*1 → (∀ kv, kv ∈ kvs → m !! kv.1 = None) →
  foldl (λ m kv, emplace kv.1 kv.2 m) m kvs !! k = Some v ↔ m !! k = Some v ∨ (k, v) ∈ kvs.
Proof.
  revert m. induction kvs as [|[k0 v0] kvs IH]; intros m Hnd Hf.
  { cbn [foldl]. pose proof (not_elem_of_nil (k, v)). tauto. }
  rewrite fmap_cons in Hnd. apply list.NoDup_cons in Hnd as [Hk0 Hnd]. cbn [foldl fst snd] in *.
  pose proof (Hf (k0, v0) ltac:(left)) as H0. cbn [fst] in H0. rewrite IH.
  - rewrite emplace_lookup, elem_of_cons. destruct (decide (k = k0 ∧ m !! k0 = None)) as [[-> _]|Hn].
    + rewrite H0. split; [intros [[= ->]|?]; auto|]. intros [?|[[= <-]|?]]; [done|by left|by right].
    + split; [tauto|]. intros [?|[[= -> ->]|?]]; [by left|tauto|by right].
  - done.
  - intros [k' v'] Hin. cbn [fst]. rewrite emplace_lookup, decide_False.
    + apply (Hf (k', v')). by right.
    + intros [-> _]. apply Hk0. apply list_elem_of_fmap. by exists (k0, v').
Qed.

Lemma foldl_max l a : (∀ x, x ∈ l → x <= foldl Z.max a l) ∧ a <= foldl Z.max a l ∧ (foldl Z.max a l = a ∨ foldl Z.max a l ∈ l).
Proof.
  revert a. induction l as [|x l IH]; intros a.
  { split_and!; [|simpl; lia|by left]. intros x Hx. by apply not_elem_of_nil in Hx. }
  cbn [foldl]. destruct (IH (Z.max a x)) as (H1 & H2 & H3). split_and!; [|lia|].
  - intros y Hy. apply elem_of_cons in Hy as [->|Hy]; [lia|by apply H1].
  - rewrite elem_of_cons. destruct H3 as [->|?]; [|tauto]. destruct (Z.max_spec a x) as [[_ ->]|[_ ->]]; tauto.
Qed.

(** The bytes that closing a file appends to its entries: the index, its place and its MD5. *)
Definition closing (md5 : list Z → list Z) (body idxbuf : list Z) : list Z :=
  let buf := be_bytes 4 (Z.of_nat (length body)) ++ be_bytes 4 (Z.of_nat (length idxbuf)) in
  idxbuf ++ buf ++ md5 buf.

Lemma loadTrailer_closing md5 body idxbuf i :
  (∀ l, length (md5 l) = 65%nat) → (0 < length idxbuf)%nat →
  Z.of_nat (length body) + Z.of_nat (length idxbuf) < 2 ^ 32 →
  loadTrailer md5 (body ++ closing md5 body idxbuf) i =
    ('(count, l) ← readFront 4 idxbuf; i ← loadIndex (Z.to_nat count) l i;
     Some (Some (true, Build_wal_info (startIndex i) (lastIndex i) (normal i) true (ivts i)))).
Proof.
  intros Hmd5 Hil Hsz. unfold closing. set (buf := be_bytes 4 (Z.of_nat (length body)) ++ be_bytes 4 (Z.of_nat (length idxbuf))). pose proof (Hmd5 buf) as Hml.
  assert (Hbl : length buf = 8%nat) by (unfold buf; by rewrite length_app, !length_be_bytes).
  set (c := body ++ idxbuf ++ buf ++ md5 buf).
  assert (Hcl : length c = (length body + length idxbuf + 73)%nat).
  { unfold c. rewrite !length_app, Hbl, Hml. lia. }
  unfold loadTrailer. rewrite (proj2 (Z.leb_gt _ _)) by lia.
  assert (Htail : pread c 73 (Z.of_nat (length c) - 73) = buf ++ md5 buf).
  { pose proof (pread_app (body ++ idxbuf) (buf ++ md5 buf) []) as Hp.
    rewrite app_nil_r, <- app_assoc, length_app, Hbl, Hml in Hp. rewrite length_app in Hp.
    replace (Z.of_nat (length c) - 73) with (Z.of_nat (length body + length idxbuf)) by lia. exact Hp. }
  rewrite Htail, take_app_length', drop_app_length' by done. rewrite bool_decide_eq_true_2 by done. cbn [negb].
  assert (Hpos : be_value (take 4 buf) = Z.of_nat (length body)).
  { unfold buf. rewrite take_app_length', be_value_bytes_id by (first [by rewrite length_be_bytes|change (2 ^ (8 * Z.of_nat 4)) with (2 ^ 32); lia]). done. }
  assert (Hsize : be_value (drop 4 buf) = Z.of_nat (length idxbuf)).
  { unfold buf. rewrite drop_app_length', be_value_bytes_id by (first [by rewrite length_be_bytes|change (2 ^ (8 * Z.of_nat 4)) with (2 ^ 32); lia]). done. }
  rewrite Hpos, Hsize. unfold c. rewrite pread_app, Z.eqb_refl. done.
Qed.

Section Log.
Context (md5 : list Z → list Z) (iter : gmap Z Z → list (Z * Z)).
Hypothesis md5_length : ∀ l, length (md5 l) = 65%nat.
Hypothesis iter_perm : ∀ m, iter m ≡ₚ map_to_list m.

(** Sizes for which the position, the index and the whole file fit in 32 bits. *)
Definition seg_limit : Z := 2 ^ 24 + batch_limit.

Definition segIndex (t : Z) (es : list (list Z)) : list Z :=
  buildIndex iter (set_ivts (segIvts t es) (WalFileInfo_new t)).

(** A closed file. *)
Definition closed (t : Z) (es : list (list Z)) : list Z :=
  entries_of es ++ closing md5 (entries_of es) (segIndex t es).

Lemma size_segIvts t es : size (segIvts t es) = length es.
Proof using.
  assert (Hd : dom (segIvts t es) = list_to_set ((λ k, t + Z.of_nat k) <$> seq 0 (length es))).
  { apply set_eq. intros k. rewrite elem_of_dom, segIvts_dom, elem_of_list_to_set, list_elem_of_fmap. split.
    - intros Hk. exists (Z.to_nat (k - t)). rewrite elem_of_seq. lia.
    - intros (j & -> & Hj%elem_of_seq). lia. }
  rewrite <- size_dom, Hd, size_list_to_set, length_fmap, length_seq; [done|].
  apply list.NoDup_fmap_2; [intros x y; lia|apply NoDup_seq].
Qed.

Lemma length_total es : 4 * Z.of_nat (length es) <= total es.
Proof using.
  induction es as [|d es IH]; [change (total []) with 0; simpl; lia|]. rewrite total_cons. simpl length. lia.
Qed.

Lemma length_segIndex t es : Z.of_nat (length (segIndex t es)) = 4 + 16 * Z.of_nat (length es).
Proof using iter_perm.
  unfold segIndex, buildIndex. cbn [ivts set_ivts]. rewrite length_app, length_be_bytes.
  change (λ kv : Z * Z, be_bytes 8 kv.1 ++ be_bytes 8 kv.2) with encodePair.
  rewrite length_encodePairs, iter_perm, length_map_to_list, size_segIvts. lia.
Qed.

Lemma total_take_lookup es k d :
  es !! k = Some d → total (take k es) + Z.of_nat (length (entry d)) <= total es.
Proof using.
  intros Hk. rewrite <- (take_drop_middle es k d Hk) at 2. rewrite total_app, total_cons, length_entry.
  pose proof (total_nonneg (drop (S k) es)). lia.
Qed.

Lemma segIvts_range t es k v :
  1 <= t → t + Z.of_nat (length es) < 2 ^ 63 → total es < seg_limit →
  segIvts t es !! k = Some v → 0 <= k < 2 ^ 64 ∧ 0 <= v < 2 ^ 64.
Proof using.
  intros Ht H63 Hsz Hk. assert (Hr : t <= k < t + Z.of_nat (length es)) by (apply segIvts_dom; eauto).
  split; [lia|]. destruct (lookup_lt_is_Some_2 es (Z.to_nat (k - t))) as [d Hd]; [lia|].
  pose proof (segIvts_lookup t es _ d Hd) as Hv. replace (t + Z.of_nat (Z.to_nat (k - t))) with k in Hv by lia.
  rewrite Hk in Hv. injection Hv as ->. pose proof (total_take_lookup _ _ _ Hd) as Htl. rewrite length_entry in Htl.
  pose proof (total_nonneg (take (Z.to_nat (k - t)) es)). unfold seg_limit, batch_limit in Hsz.
  rewrite packIvt_eq; lia.
Qed.

(** The index of a closed file is the one that was written, for any order of visiting it. *)
Lemma loadInfo_closed t es :
  es ≠ [] → 1 <= t → t + Z.of_nat (length es) < 2 ^ 63 → total es < seg_limit →
  loadInfo md5 (closed t es) (WalFileInfo_new t) =
    Some (true, Build_wal_info t (t + Z.of_nat (length es) - 1) false true (segIvts t es)).
Proof using md5_length iter_perm.
  intros Hne%nonempty_length Ht H63 Hsz. pose proof (length_segIndex t es) as Hil. pose proof (length_total es) as Hl4.
  unfold loadInfo, closed. assert (Hlim : seg_limit = 83886080) by done.
  rewrite loadTrailer_closing by (done || (fold (total es); lia)).
  set (m := segIvts t es). assert (Hkvs : ∀ kv, kv ∈ iter m ↔ m !! kv.1 = Some kv.2).
  { intros [k v]. rewrite iter_perm. apply elem_of_map_to_list. }
  assert (Hn : size m = length (iter m)) by (by rewrite iter_perm, length_map_to_list).
  assert (Hib : segIndex t es = be_bytes 4 (Z.of_nat (length (iter m))) ++ mjoin (encodePair <$> iter m)).
  { unfold segIndex, buildIndex. cbn [ivts set_ivts]. fold m. by rewrite Hn. }
  unfold m in Hn at 1. rewrite size_segIvts in Hn.
  rewrite Hib, readFront_bytes, bind_Some_eq by (change (2 ^ (8 * Z.of_nat 4)) with (2 ^ 32); lia).
  rewrite Nat2Z.id. rewrite <- (app_nil_r (mjoin _)).
  rewrite loadIndex_spec, bind_Some_eq, bind_Some_eq by (intros kv Hkv%Hkvs; by apply (segIvts_range t es)).
  cbn [startIndex lastIndex normal loadFull ivts WalFileInfo_new]. f_equal. f_equal.
  assert (Hfst : ∀ k, k ∈ (iter m).*1 ↔ t <= k < t + Z.of_nat (length es)).
  { intros k. rewrite <- segIvts_dom, list_elem_of_fmap. fold m. split.
    - intros ([k' v] & -> & Hin%Hkvs). by eexists.
    - intros [v Hv]. exists (k, v). split; [done|]. by apply Hkvs. }
  f_equal.
  - destruct (foldl_max (iter m).*1 0) as (M1 & M2 & M3).
    pose proof (M1 (t + Z.of_nat (length es) - 1)) as M. rewrite Hfst in M. destruct M3 as [M3|M3%Hfst]; lia.
  - apply map_eq. intros k. apply option_eq. intros v. rewrite foldl_emplace.
    + rewrite lookup_empty, (Hkvs (k, v)). cbn [fst snd]. split; [by intros [?|?]|by right].
    + rewrite iter_perm. apply NoDup_fst_map_to_list.
    + intros kv _. apply lookup_empty.
Qed.

(** The index of the open file is recovered from its entries. *)
Lemma loadInfo_open t es :
  total es < seg_limit → loadTrailer md5 (entries_of es) (WalFileInfo_new t) = Some None →
  loadInfo md5 (entries_of es) (WalFileInfo_new t) =
    Some (true, Build_wal_info t (if decide (es = []) then 0 else t + Z.of_nat (length es) - 1) false false (segIvts t es)).
Proof using.
  intros Hsz Htr. unfold loadInfo. rewrite Htr, bind_Some_eq. pose proof (length_total es) as Hl4. unfold total in Hl4.
  assert (Hlim : seg_limit = 83886080) by done.
  pose proof (scanEntries_spec (S (length (entries_of es))) [] es t (WalFileInfo_new t)) as Hscan.
  cbn [length app] in Hscan. change (Z.of_nat 0) with 0 in Hscan. cbn [startIndex WalFileInfo_new] in *.
  rewrite Hscan by (done || lia). done.
Qed.

(** ** A log of segments *)

(** The log [w] has the closed segments [cl] and the open one [op], which starts at [t0]. *)
Record segs (cl : list (Z * list (list Z))) (t0 : Z) (op : list (list Z)) (w : wal) : Prop := {
  sg_chain : chain 1 cl t0;
  sg_max : t0 + Z.of_nat (length op) < 2 ^ 63;
  sg_small : ∀ t es, (t, es) ∈ (t0, op) :: cl → total es < seg_limit;
  sg_files : ∀ t c, files w !! t = Some c ↔
    t = t0 ∧ c = entries_of op ∨ ∃ es, (t, es) ∈ cl ∧ c = closed t es;
  sg_walFiles : ∀ e t, walFiles w !! e = Some t ↔
    e = sMaxLogIndex ∧ t = t0 ∨ ∃ es, (t, es) ∈ cl ∧ e = t + Z.of_nat (length es) - 1;
  sg_infos : ∀ t es, (t, es) ∈ (t0, op) :: cl →
    ∃ i, infos w !! t = Some i ∧ normal i = true ∧ ivts i = segIvts t es;
  sg_cur : curWalFile w = Some t0;
  sg_fd : wFd w = Some t0;
  sg_pos : curWalPos w = total op }.

(** Index [i] of the log [all] is in the file [t] with the entries [es], found under [e]. *)
Record in_file (w : wal) (all : list (list Z)) (i t : Z) (es : list (list Z)) (e : Z) : Prop := {
  if_range : 1 <= t <= i ∧ i < t + Z.of_nat (length es);
  if_small : total es < seg_limit;
  if_entries : es = take (length es) (drop (Z.to_nat (t - 1)) all);
  if_found : lower_bound (walFiles w) i = Some (e, t);
  if_end : ∀ b, b <= Z.of_nat (length all) → Z.min b e = Z.min b (t + Z.of_nat (length es) - 1);
  if_info : ∃ info, infos w !! t = Some info ∧ normal info = true ∧ ivts info = segIvts t es;
  if_file : ∃ rest, files w !! t = Some (entries_of es ++ rest) }.

Lemma segs_closed_file cl t0 op w i t es :
  segs cl t0 op w → (t, es) ∈ cl → t <= i < t + Z.of_nat (length es) →
  in_file w (mjoin cl.*2 ++ op) i t es (t + Z.of_nat (length es) - 1).
Proof using.
  intros Hs Hin Hi. pose proof (sg_chain _ _ _ _ Hs) as Hc. pose proof (sg_max _ _ _ _ Hs) as Hm.
  pose proof (chain_bounds _ _ _ _ _ Hc Hin) as Hb. split.
  - lia.
  - apply (sg_small _ _ _ _ Hs t). by right.
  - destruct (chain_elem _ _ _ _ _ Hc Hin) as (a & b & -> & -> & _).
    replace (Z.to_nat (1 + Z.of_nat (length a) - 1)) with (length a) by lia.
    by rewrite <- !app_assoc, drop_app_length, take_app_length.
  - apply lower_bound_min; [apply (sg_walFiles _ _ _ _ Hs); right; eauto|lia|].
    intros e' [t' He'] Hle. apply (sg_walFiles _ _ _ _ Hs) in He' as [[-> _]|(es' & Hin' & ->)].
    + unfold sMaxLogIndex. lia.
    + destruct (chain_order _ _ _ _ _ _ _ Hc Hin Hin') as [?|[?|[-> ->]]]; lia.
  - done.
  - apply (sg_infos _ _ _ _ Hs). by right.
  - eexists. apply (sg_files _ _ _ _ Hs). right. exists es. split; [done|reflexivity].
Qed.

Lemma segs_open_file cl t0 op w i :
  segs cl t0 op w → t0 <= i < t0 + Z.of_nat (length op) →
  in_file w (mjoin cl.*2 ++ op) i t0 op sMaxLogIndex.
Proof using.
  intros Hs Hi. pose proof (sg_chain _ _ _ _ Hs) as Hc. pose proof (sg_max _ _ _ _ Hs) as Hm.
  pose proof (chain_le _ _ _ Hc) as Hle. split.
  - lia.
  - apply (sg_small _ _ _ _ Hs t0). by left.
  - replace (Z.to_nat (t0 - 1)) with (length (mjoin cl.*2)) by lia. by rewrite drop_app_length, firstn_all.
  - apply lower_bound_min; [apply (sg_walFiles _ _ _ _ Hs); by left|unfold sMaxLogIndex; lia|].
    intros e' [t' He'] Hle'. apply (sg_walFiles _ _ _ _ Hs) in He' as [[-> _]|(es' & Hin' & ->)]; [done|].
    pose proof (chain_bounds _ _ _ _ _ Hc Hin'). lia.
  - intros b Hb. rewrite length_app in Hb. unfold sMaxLogIndex. lia.
  - apply (sg_infos _ _ _ _ Hs). by left.
  - exists []. apply (sg_files _ _ _ _ Hs). left. by rewrite app_nil_r.
Qed.

Lemma segs_find cl t0 op w i :
  segs cl t0 op w → 1 <= i <= Z.of_nat (length (mjoin cl.*2 ++ op)) →
  ∃ t es e, in_file w (mjoin cl.*2 ++ op) i t es e.
Proof using.
  intros Hs Hi. pose proof (sg_chain _ _ _ _ Hs) as Hc. pose proof (chain_le _ _ _ Hc) as Hle.
  rewrite length_app in Hi. destruct (decide (i < t0)).
  - destruct (chain_find 1 cl t0 i) as (t & es & Hin & Ht); [done|lia|].
    exists t, es, (t + Z.of_nat (length es) - 1). by apply (segs_closed_file _ t0).
  - exists t0, op, sMaxLogIndex. apply segs_open_file; [done|lia].
Qed.

(** ** Reading *)

Lemma getIvtIndex_seg c t es i k d :
  normal i = true → ivts i = segIvts t es → es !! k = Some d →
  getIvtIndex md5 c (t + Z.of_nat k) i =
    Some (packIvt (total (take k es)) (Z.of_nat (length (entry d))), i).
Proof using. intros Hn Hiv Hk. unfold getIvtIndex. by rewrite Hn, bind_Some_eq, Hiv, (segIvts_lookup _ _ _ d). Qed.

(** A word of the index is not 0 and holds position and length. *)
Lemma packIvt_entry es k d (ivt := packIvt (total (take k es)) (Z.of_nat (length (entry d)))) :
  total es < seg_limit → es !! k = Some d →
  (ivt =? 0) = false ∧ ivtPos ivt = total (take k es) ∧ ivtLength ivt = Z.of_nat (length (entry d)).
Proof using.
  intros Hsz Hk. pose proof (total_take_lookup _ _ _ Hk) as Ht. pose proof (total_nonneg (take k es)).
  assert (Hlim : seg_limit = 83886080) by done. pose proof (length_entry d) as Hl. unfold ivt.
  rewrite packIvt_pos, packIvt_length by lia. rewrite packIvt_eq by lia.
  split_and!; [apply Z.eqb_neq; lia|done|done].
Qed.

Lemma entryAt_found w all i t es e d :
  in_file w all i t es e → all !! Z.to_nat (i - 1) = Some d → startIdx w <= i <= lastIdx w →
  entryAt md5 i w = Some (Some (entry d), w).
Proof using.
  intros [Hr Hsz Hes Hf _ (info & Hi & Hn & Hiv) (rest & Hc)] Hd Hidx.
  unfold entryAt. rewrite !(proj2 (Z.ltb_ge _ _)) by lia. cbn [orb]. rewrite Hf, Hi, bind_Some_eq, Hc, bind_Some_eq.
  assert (Hk : es !! Z.to_nat (i - t) = Some d).
  { rewrite Hes, lookup_take_lt, lookup_drop by lia. rewrite <- Hd. f_equal. lia. }
  replace i with (t + Z.of_nat (Z.to_nat (i - t))) at 1 by lia.
  rewrite (getIvtIndex_seg _ t es _ _ d), bind_Some_eq by done. cbv beta iota.
  destruct (packIvt_entry es (Z.to_nat (i - t)) d) as (-> & -> & ->); [done|done|].
  assert (Hp : pread (entries_of es ++ rest) (Z.of_nat (length (entry d))) (total (take (Z.to_nat (i - t)) es)) = entry d).
  { rewrite <- (take_drop_middle es _ d Hk) at 1. rewrite (cons_middle d), app_assoc, entries_of_app, <- app_assoc.
    replace (Z.of_nat (length (entry d))) with (total [d]) by (rewrite total_cons, length_entry; change (total []) with 0; lia).
    rewrite pread_entries. unfold entries_of. cbn. by rewrite app_nil_r. }
  rewrite Hp, Z.eqb_refl. cbn [negb]. by rewrite set_info_id.
Qed.

Lemma drop_lookup_cons {A} (l : list A) k x : l !! k = Some x → drop k l = x :: drop (S k) l.
Proof using. intros H. rewrite <- (take_drop_middle l k x H) at 1. apply drop_app_length'. rewrite length_take_le; [done|]. apply lookup_lt_Some in H. lia. Qed.

Definition entry_length (d : list Z) : Z := Z.of_nat (length (entry d)).

Lemma ivtRange_seg c t es i n k sp tl ls :
  normal i = true → ivts i = segIvts t es → total es < seg_limit → (k + n <= length es)%nat →
  0 <= tl → tl + total (take n (drop k es)) < 2 ^ 32 →
  ivtRange md5 n c (t + Z.of_nat k) sp tl ls i =
    Some (Some (if Nat.eqb n 0 then sp else if sp =? 0xFFFFFFFF then total (take k es) else sp,
                tl + total (take n (drop k es)), ls ++ (entry_length <$> take n (drop k es))), i).
Proof using.
  intros Hn Hiv Hsz. revert k sp tl ls. induction n as [|n IH]; intros k sp tl ls Hlen Htl H32.
  { cbn [ivtRange take]. change (total []) with 0. by rewrite Z.add_0_r, app_nil_r. }
  destruct (lookup_lt_is_Some_2 es k) as [d Hd]; [lia|].
  rewrite (drop_lookup_cons es k d Hd) in *. cbn [take] in *. rewrite total_cons in *.
  pose proof (total_nonneg (take n (drop (S k) es))). cbn [ivtRange].
  rewrite (getIvtIndex_seg _ t es _ _ d), bind_Some_eq by done. cbv beta iota.
  destruct (packIvt_entry es k d) as (-> & -> & ->); [done|done|].
  pose proof (total_take_lookup _ _ _ Hd). pose proof (total_nonneg (take k es)). pose proof (length_entry d) as H2.
  assert (Hlim : seg_limit = 83886080) by done.
  replace (t + Z.of_nat k + 1) with (t + Z.of_nat (S k)) by lia.
  rewrite u32_id by (unfold is_u32; lia). rewrite IH by lia. cbn [Nat.eqb fmap list_fmap].
  rewrite <- app_assoc. unfold entry_length at 2. rewrite H2, Nat2Z.inj_add, !Z.add_assoc.
  do 4 f_equal. destruct (sp =? 0xFFFFFFFF) eqn:E; destruct (Nat.eqb n 0); try done.
  - by rewrite (proj2 (Z.eqb_neq _ _)) by lia.
  - by rewrite E.
Qed.

Lemma cutEntries_entries es : cutEntries (entry_length <$> es) (entries_of es) = Some (entry <$> es).
Proof using.
  induction es as [|d es IH]; [done|]. rewrite !fmap_cons, entries_of_cons. cbn [cutEntries].
  change (entry_length d) with (Z.of_nat (length (entry d))).
  rewrite length_app, (proj2 (Z.leb_le _ _)) by lia. cbn [assert_that].
  rewrite bind_Some_eq, Nat2Z.id, drop_app_length, take_app_length. by rewrite IH.
Qed.

(** A range is answered from the file of its first index, up to the end of that file. *)
Lemma logEntries_found w all a b t es e :
  in_file w all a t es e → startIdx w <= a <= b → b <= lastIdx w → lastIdx w <= Z.of_nat (length all) →
  logEntries md5 a b w =
    Some (entry <$> take (Z.to_nat (Z.min b (t + Z.of_nat (length es) - 1) - a + 1)) (drop (Z.to_nat (a - 1)) all), w).
Proof using.
  intros [Hr Hsz Hes Hf He (info & Hi & Hn & Hiv) (rest & Hc)] Ha Hb Hl.
  unfold logEntries. rewrite !(proj2 (Z.ltb_ge _ _)) by lia. cbn [orb]. rewrite Hf.
  replace (if b <? e then b else e) with (Z.min b (t + Z.of_nat (length es) - 1))
    by (rewrite <- He by lia; destruct (Z.ltb_spec b e); lia).
  set (n := Z.to_nat (Z.min b _ - a + 1)). set (k := Z.to_nat (a - t)).
  rewrite Hi, bind_Some_eq, Hc, bind_Some_eq. replace a with (t + Z.of_nat k) at 1 by lia.
  assert (Hsplit : entries_of es = entries_of ((take k es ++ take n (drop k es)) ++ drop n (drop k es)))
    by (by rewrite <- app_assoc, !take_drop).
  assert (Htot : total es = total (take k es) + total (take n (drop k es)) + total (drop n (drop k es)))
    by (rewrite <- !total_app; unfold total; by rewrite Hsplit).
  pose proof (total_nonneg (take k es)). pose proof (total_nonneg (drop n (drop k es))).
  assert (Hlim : seg_limit = 83886080) by done.
  rewrite (ivtRange_seg _ t es) by (done || lia). rewrite bind_Some_eq. cbv beta iota. cbn [app].
  assert (Hn0 : Nat.eqb n 0 = false) by (apply Nat.eqb_neq; lia). rewrite Hn0, Z.eqb_refl, Z.add_0_l.
  rewrite Hsplit, entries_of_app, <- app_assoc, pread_entries. fold (total (take n (drop k es))).
  rewrite Z.eqb_refl. cbn [negb]. rewrite cutEntries_entries, bind_Some_eq, set_info_id by done.
  do 3 f_equal. rewrite Hes at 1. rewrite skipn_firstn_comm, firstn_firstn, drop_drop.
  f_equal; [lia|]. f_equal. lia.
Qed.

(** ** Writing *)

(** The counters and the queue are the same. *)
Definition same_queue (w w' : wal) : Prop :=
  startIdx w' = startIdx w ∧ lastIdx w' = lastIdx w ∧ nextIdx w' = nextIdx w ∧ writers w' = writers w.

Lemma batch_written cl t0 op w rest :
  segs cl t0 op w → writers w = numbered (t0 + Z.of_nat (length op)) rest →
  total (op ++ rest) < seg_limit → t0 + Z.of_nat (length (op ++ rest)) < 2 ^ 63 →
  ∃ batch w0 w1, buildBatchGroup md5 w = Some (batch, w0) ∧ writeFile batch w0 = Some w1 ∧
    segs cl t0 (op ++ rest) w1 ∧ same_queue w w1.
Proof using.
  intros Hs Hq Hsz H63. pose proof Hs as [Hc Hm Hsm Hf Hwf Hin Hcur Hfd Hpos].
  destruct (Hin t0 op) as (i & Hi & Hn & Hiv); [left|].
  assert (Hfile : files w !! t0 = Some (entries_of op)) by (apply Hf; by left).
  assert (Hlim : seg_limit = 83886080) by done. rewrite total_app in Hsz. pose proof (total_nonneg op).
  unfold buildBatchGroup. rewrite Hq.
  rewrite (batch_fold md5 _ [] w t0 i (entries_of op)) by (done || (rewrite ?numbered_snd, ?Hpos; lia)).
  rewrite numbered_snd, Hpos, Hiv, <- segIvts_app. eexists _, _, _. split; [done|].
  unfold writeFile. cbn [wFd set_pos set_info files]. rewrite Hfd, bind_Some_eq, Hfile, bind_Some_eq.
  split; [done|]. split; [|done]. cbn [app].
  assert (Hne : ∀ t es, (t, es) ∈ cl → t ≠ t0) by (intros t es Ht; pose proof (chain_bounds _ _ _ _ _ Hc Ht); lia).
  split; cbn [files infos walFiles curWalFile wFd curWalPos set_pos set_info]; try done.
  - intros t es [[= -> ->]|Ht]%elem_of_cons; [rewrite total_app; lia|]. apply (Hsm t). by right.
  - intros t c. rewrite entries_of_app. destruct (decide (t = t0)) as [->|Ht].
    + rewrite lookup_insert_eq. split; [intros [= <-]; by left|].
      intros [[_ ->]|(es & Hes & _)]; [done|]. by destruct (Hne t0 es).
    + rewrite lookup_insert_ne, Hf by done. by split; (intros [[? _]|?]; [done|by right]).
  - intros t es [[= -> ->]|Ht]%elem_of_cons.
    + rewrite lookup_insert_eq. eexists. split; [done|]. done.
    + rewrite lookup_insert_ne by (symmetry; by apply (Hne t es)). apply Hin. by right.
  - by rewrite total_app.
Qed.

(** The file is closed and a new one opened: the two maps. *)
Lemma newfile_files cl t0 op w w1 (t1 := t0 + Z.of_nat (length op)) t c :
  segs cl t0 op w → op ≠ [] → files w1 = <[t0 := closed t0 op]> (files w) →
  files (prepareNewFile t1 w1) !! t = Some c ↔
    t = t1 ∧ c = [] ∨ ∃ es, (t, es) ∈ (t0, op) :: cl ∧ c = closed t es.
Proof using.
  intros Hs Hne%nonempty_length Ef. pose proof (sg_chain _ _ _ _ Hs) as Hc.
  assert (Hb : ∀ t es, (t, es) ∈ cl → (0 < length es)%nat ∧ t + Z.of_nat (length es) <= t0)
    by (intros t' es' H; by apply (chain_bounds _ _ _ _ _ Hc H)).
  assert (Hfr : files w1 !! t1 = None).
  { rewrite Ef, lookup_insert_ne by lia. apply eq_None_not_Some.
    intros [c' [[? _]|(es & [? ?]%Hb & _)]%(sg_files _ _ _ _ Hs)]; lia. }
  unfold prepareNewFile. cbn [files]. rewrite Hfr. cbn [default]. destruct (decide (t = t1)) as [->|Ht].
  - rewrite lookup_insert_eq. split; [intros [= <-]; by left|]. intros [[_ ->]|(es & Hes & _)]; [done|].
    apply elem_of_cons in Hes as [[= ? _]|Hes%Hb]; lia.
  - rewrite lookup_insert_ne, Ef by done. destruct (decide (t = t0)) as [->|Ht0].
    + rewrite lookup_insert_eq. split; [intros [= <-]; right; exists op; by split; [left|]|].
      intros [[? _]|(es & Hes & ->)]; [done|]. apply elem_of_cons in Hes as [[= ->]|Hes%Hb]; [done|lia].
    + rewrite lookup_insert_ne, (sg_files _ _ _ _ Hs) by done.
      split; intros [[? _]|(es & Hes & ->)]; try done; right; exists es; (split; [|done]); [by right|].
      by apply elem_of_cons in Hes as [[= ? _]|Hes].
Qed.

Lemma newfile_walFiles cl t0 op w w1 (t1 := t0 + Z.of_nat (length op)) e t :
  segs cl t0 op w → op ≠ [] → walFiles w1 = walFiles w →
  walFiles (prepareNewFile t1 w1) !! e = Some t ↔
    e = sMaxLogIndex ∧ t = t1 ∨ ∃ es, (t, es) ∈ (t0, op) :: cl ∧ e = t + Z.of_nat (length es) - 1.
Proof using.
  intros Hs Hne%nonempty_length Ew. pose proof (sg_chain _ _ _ _ Hs) as Hc. pose proof (sg_max _ _ _ _ Hs) as Hm.
  pose proof (chain_le _ _ _ Hc) as Hle.
  assert (Hb : ∀ t es, (t, es) ∈ cl → (0 < length es)%nat ∧ t + Z.of_nat (length es) <= t0)
    by (intros t' es' H; by apply (chain_bounds _ _ _ _ _ Hc H)).
  assert (HM : t1 < sMaxLogIndex) by (unfold sMaxLogIndex; lia).
  assert (Hfw : walFiles w1 !! (t1 - 1) = None).
  { rewrite Ew. apply eq_None_not_Some. intros [c [[? _]|(es & Hes%Hb & ?)]%(sg_walFiles _ _ _ _ Hs)]; lia. }
  assert (HwM : walFiles w1 !! sMaxLogIndex = Some t0) by (rewrite Ew; apply (sg_walFiles _ _ _ _ Hs); by left).
  unfold prepareNewFile. cbn [walFiles]. rewrite HwM, (proj2 (Z.eqb_neq t1 1)) by lia. cbn [negb].
  rewrite emplace_lookup, lookup_delete_eq. destruct (decide (e = sMaxLogIndex)) as [->|He].
  - rewrite decide_True by done. split; [intros [= <-]; by left|].
    intros [[_ ->]|(es & Hes & ?)]; [done|]. apply elem_of_cons in Hes as [[= -> ->]|Hes%Hb]; lia.
  - rewrite decide_False by (intros [? _]; done). rewrite lookup_delete_ne, emplace_lookup by done.
    rewrite Hfw. destruct (decide (e = t1 - 1 ∧ _)) as [[-> _]|Hne1].
    + split; [intros [= <-]; right; exists op; split; [left|lia]|].
      intros [[? _]|(es & Hes & ?)]; [done|]. apply elem_of_cons in Hes as [[= -> _]|Hes%Hb]; [done|lia].
    + rewrite Ew, (sg_walFiles _ _ _ _ Hs).
      split; intros [[? _]|(es & Hes & ->)]; try done; right; exists es; (split; [|done]); [by right|].
      apply elem_of_cons in Hes as [[= -> ->]|Hes]; [by destruct Hne1|done].
Qed.

Lemma newfile_segs cl t0 op w w1 :
  segs cl t0 op w → op ≠ [] → files w1 = <[t0 := closed t0 op]> (files w) → infos w1 = infos w → walFiles w1 = walFiles w →
  segs (cl ++ [(t0, op)]) (t0 + Z.of_nat (length op)) [] (prepareNewFile (t0 + Z.of_nat (length op)) w1).
Proof using.
  intros Hs Hne Ef Ei Ew. pose proof (nonempty_length _ Hne) as Hl. pose proof (sg_chain _ _ _ _ Hs) as Hc.
  assert (Hsn : ∀ t es, (t, es) ∈ cl ++ [(t0, op)] ↔ (t, es) ∈ (t0, op) :: cl).
  { intros t es. rewrite elem_of_app, !elem_of_cons, elem_of_nil. tauto. }
  split; try done.
  - by apply chain_snoc.
  - pose proof (sg_max _ _ _ _ Hs). simpl. lia.
  - intros t es [[= -> ->]|Ht%Hsn]%elem_of_cons; [done|by apply (sg_small _ _ _ _ Hs t)].
  - intros t c. setoid_rewrite Hsn. by apply (newfile_files cl t0 op w).
  - intros e t. setoid_rewrite Hsn. by apply (newfile_walFiles cl t0 op w).
  - intros t es [[= -> ->]|Ht%Hsn]%elem_of_cons; unfold prepareNewFile; cbn [infos].
    + rewrite lookup_insert_eq. eexists. by split_and!.
    + rewrite lookup_insert_ne, Ei; [by apply (sg_infos _ _ _ _ Hs)|].
      apply elem_of_cons in Ht as [[= -> ->]|Ht]; [lia|]. pose proof (chain_bounds _ _ _ _ _ Hc Ht). lia.
Qed.

Lemma rotate_segs cl t0 op w :
  segs cl t0 op w → op ≠ [] →
  ∃ w' cl' t1 op', rotate md5 iter (t0 + Z.of_nat (length op) - 1) w = Some w' ∧ segs cl' t1 op' w' ∧
    mjoin cl'.*2 ++ op' = mjoin cl.*2 ++ op ∧ total op' <= 2 ^ 24 ∧ same_queue w w'.
Proof using.
  intros Hs Hne. pose proof Hs as [Hc Hm Hsm Hf Hwf Hin Hcur Hfd Hpos]. unfold rotate.
  destruct (Z.leb_spec (curWalPos w) (16 * 1024 * 1024)) as [Hle|Hgt].
  { exists w, cl, t0, op. rewrite Hpos in Hle. split_and!; try done. }
  destruct (Hin t0 op) as (i & Hi & Hn & Hiv); [left|].
  assert (Hfile : files w !! t0 = Some (entries_of op)) by (apply Hf; by left).
  rewrite Hcur, bind_Some_eq, Hi, bind_Some_eq. unfold writeFile at 1.
  rewrite Hfd, bind_Some_eq, Hfile, bind_Some_eq, bind_Some_eq.
  replace (t0 + Z.of_nat (length op) - 1 + 1) with (t0 + Z.of_nat (length op)) by lia.
  eexists _, (cl ++ [(t0, op)]), (t0 + Z.of_nat (length op)), []. split; [done|]. split_and!.
  - apply (newfile_segs cl t0 op w); [done|done| |done|done]. cbn [files]. rewrite Hpos.
    unfold closed, closing, segIndex, buildIndex. cbn [ivts set_ivts]. by rewrite Hiv.
  - rewrite app_nil_r, fmap_app, join_app. cbn. by rewrite app_nil_r.
  - done.
  - done.
Qed.

Lemma last_numbered s ds :
  ds ≠ [] → ∃ d, list.last (numbered s ds) = Some (s + Z.of_nat (length ds) - 1, d).
Proof using.
  intros Hne%nonempty_length. rewrite list.last_lookup. unfold numbered. rewrite length_imap, list_lookup_imap.
  destruct (lookup_lt_is_Some_2 ds (Nat.pred (length ds))) as [d ->]; [lia|]. exists d. simpl. do 2 f_equal. lia.
Qed.

Lemma writeBatch_segs cl t0 op w rest :
  segs cl t0 op w → total op <= 2 ^ 24 → writers w = numbered (t0 + Z.of_nat (length op)) rest → rest ≠ [] →
  total rest < batch_limit → t0 + Z.of_nat (length (op ++ rest)) < 2 ^ 63 →
  ∃ w' cl' t1 op', writeBatch md5 iter w = Some w' ∧ segs cl' t1 op' w' ∧ total op' <= 2 ^ 24 ∧
    mjoin cl'.*2 ++ op' = mjoin cl.*2 ++ op ++ rest ∧ startIdx w' = startIdx w ∧
    lastIdx w' = t0 + Z.of_nat (length (op ++ rest)) - 1 ∧ nextIdx w' = nextIdx w ∧ writers w' = writers w.
Proof using.
  intros Hs Hop Hq Hne Hlim H63.
  destruct (batch_written cl t0 op w rest) as (batch & w0 & w1 & Hb & Hw & Hs1 & Hs2);
    [done|done|rewrite total_app; unfold seg_limit; lia|done|].
  destruct (rotate_segs cl t0 (op ++ rest) w1) as (w2 & cl' & t1 & op' & Hr & Hs3 & Hj & Hop' & Hs4);
    [done|by destruct op|].
  destruct (last_numbered (t0 + Z.of_nat (length op)) rest Hne) as [d Hl].
  rewrite length_app, Nat2Z.inj_add, Z.add_assoc in Hr |- *.
  exists (set_last (t0 + Z.of_nat (length op) + Z.of_nat (length rest) - 1) w2), cl', t1, op'.
  unfold writeBatch. rewrite Hq, Hl, bind_Some_eq, Hb, bind_Some_eq, Hw, bind_Some_eq. cbn [fst].
  rewrite Hr, bind_Some_eq. destruct Hs2 as (? & ? & ? & ?), Hs4 as (? & ? & ? & ?).
  split_and!; try done; cbn [set_last startIdx lastIdx nextIdx writers]; try congruence.
  destruct Hs3. by split.
Qed.

(** ** Opening *)

(** The state of [scanAllWalFiles] after the closed files [cl]. *)
Record scanned (cl : list (Z * list (list Z))) (fs : gmap Z (list Z)) (w : wal) : Prop := {
  sc_files : files w = fs;
  sc_walFiles : ∀ e t, walFiles w !! e = Some t ↔ ∃ es, (t, es) ∈ cl ∧ e = t + Z.of_nat (length es) - 1;
  sc_infos : ∀ t es, (t, es) ∈ cl → ∃ i, infos w !! t = Some i ∧ normal i = true ∧ ivts i = segIvts t es;
  sc_start : startIdx w = (if decide (cl = []) then 0 else 1);
  sc_writers : writers w = [] }.

Lemma scanFile_closed cl t es fs w :
  scanned cl fs w → chain 1 cl t → es ≠ [] → t + Z.of_nat (length es) < 2 ^ 63 → total es < seg_limit →
  fs !! t = Some (closed t es) →
  ∃ w', scanFile md5 false w t = Some (true, w') ∧ scanned (cl ++ [(t, es)]) fs w'.
Proof using md5_length iter_perm.
  intros [Hf Hwf Hin Hst Hwr] Hc Hne H63 Hsz Hfile. pose proof (chain_le _ _ _ Hc) as Hle.
  assert (Hb : ∀ t' es', (t', es') ∈ cl → t' + Z.of_nat (length es') <= t)
    by (intros t' es' H; pose proof (chain_bounds _ _ _ _ _ Hc H); lia).
  assert (Hsn : ∀ x y, (x, y) ∈ cl ++ [(t, es)] ↔ (x, y) = (t, es) ∨ (x, y) ∈ cl).
  { intros x y. rewrite elem_of_app, list_elem_of_singleton. tauto. }
  pose proof (nonempty_length _ Hne) as Hl.
  assert (Hl' : ∀ t' es', (t', es') ∈ cl → (0 < length es')%nat) by (intros t' es' H; by apply (chain_bounds _ _ _ _ _ Hc H)).
  unfold scanFile. rewrite Hf, Hfile, bind_Some_eq, loadInfo_closed, bind_Some_eq by (done || lia).
  cbn [negb loadFull lastIndex]. eexists. split; [done|].
  split; cbn [files walFiles infos startIdx writers]; try done.
  - intros e t'. rewrite emplace_lookup. assert (Hfr : walFiles w !! (t + Z.of_nat (length es) - 1) = None).
    { apply eq_None_not_Some. intros [? (es' & Hes & ?)%Hwf]. specialize (Hb _ _ Hes). lia. }
    rewrite Hfr. destruct (decide (e = t + Z.of_nat (length es) - 1 ∧ _)) as [[-> _]|Hd].
    + split; [intros [= <-]; exists es; rewrite Hsn; by split; [left|]|]. intros (es' & [[= -> ->]|Hes]%Hsn & He); [done|].
      specialize (Hb _ _ Hes). lia.
    + rewrite Hwf. split; intros (es' & Hes & ->); exists es'; [rewrite Hsn; by split; [right|]|].
      apply Hsn in Hes as [[= -> ->]|Hes]; [by destruct Hd|done].
  - intros t' es' [[= -> ->]|Hes]%Hsn; [rewrite lookup_insert_eq; eexists; by split_and!|].
    rewrite lookup_insert_ne; [by apply Hin|]. specialize (Hb _ _ Hes). specialize (Hl' _ _ Hes). lia.
  - rewrite Hst. rewrite (decide_False (P := cl ++ _ = [])) by (by destruct cl).
    destruct (decide (cl = [])) as [->|]; [cbn [chain] in Hc; cbn; lia|done].
Qed.

Lemma scanFile_open cl t0 op fs w :
  scanned cl fs w → chain 1 cl t0 → t0 + Z.of_nat (length op) < 2 ^ 63 →
  (∀ t es, (t, es) ∈ (t0, op) :: cl → total es < seg_limit) →
  (∀ t c, fs !! t = Some c ↔ t = t0 ∧ c = entries_of op ∨ ∃ es, (t, es) ∈ cl ∧ c = closed t es) →
  loadTrailer md5 (entries_of op) (WalFileInfo_new t0) = Some None →
  ∃ w', scanFile md5 true w t0 = Some (true, w') ∧ segs cl t0 op w' ∧ startIdx w' = 1 ∧
    lastIdx w' = t0 + Z.of_nat (length op) - 1 ∧ writers w' = [].
Proof using.
  intros [Hf Hwf Hin Hst Hwr] Hc H63 Hsz Hfs Htr. pose proof (chain_le _ _ _ Hc) as Hle.
  assert (Hop : total op < seg_limit) by (apply (Hsz t0); left).
  assert (Hlim : seg_limit = 83886080) by done. pose proof (total_nonneg op) as Hnn.
  unfold scanFile. assert (Hfile : fs !! t0 = Some (entries_of op)) by (apply Hfs; by left).
  rewrite Hf, Hfile, bind_Some_eq, loadInfo_open, bind_Some_eq by done.
  cbn [negb loadFull lastIndex]. eexists. split; [done|].
  assert (Hb : ∀ t' es', (t', es') ∈ cl → (0 < length es')%nat ∧ t' + Z.of_nat (length es') <= t0)
    by (intros t' es' H; by apply (chain_bounds _ _ _ _ _ Hc H)).
  split_and!; cbn [startIdx lastIdx writers]; try done.
  - split; cbn [files walFiles infos curWalFile wFd curWalPos]; try done.
    + intros e t. rewrite emplace_lookup. assert (Hfr : walFiles w !! sMaxLogIndex = None).
      { apply eq_None_not_Some. intros [? (es' & Hes%Hb & ?)%Hwf]. unfold sMaxLogIndex in *. lia. }
      rewrite Hfr. destruct (decide (e = sMaxLogIndex ∧ _)) as [[-> _]|Hd].
      * split; [intros [= <-]; by left|]. intros [[_ ->]|(es' & Hes%Hb & He)]; [done|]. unfold sMaxLogIndex in *. lia.
      * rewrite Hwf. split; [by right|]. intros [[-> _]|?]; [by destruct Hd|done].
    + intros t es [[= -> ->]|Hes]%elem_of_cons; [rewrite lookup_insert_eq; eexists; by split_and!|].
      rewrite lookup_insert_ne; [by apply Hin|]. pose proof (Hb _ _ Hes). lia.
    + unfold u32. rewrite Z.mod_small by (fold (total op); lia). done.
  - rewrite Hst. destruct (decide (cl = [])) as [->|]; [cbn [chain] in Hc; cbn; lia|done].
  - destruct (decide (op = [])) as [->|Hne%nonempty_length]; [cbn; lia|].
    rewrite (proj2 (Z.eqb_neq _ 0)) by lia. done.
Qed.

Lemma scanAll_segs cl1 cl2 t0 op fs w :
  scanned cl1 fs w → chain 1 (cl1 ++ cl2) t0 → t0 + Z.of_nat (length op) < 2 ^ 63 →
  (∀ t es, (t, es) ∈ (t0, op) :: cl1 ++ cl2 → total es < seg_limit) →
  (∀ t c, fs !! t = Some c ↔ t = t0 ∧ c = entries_of op ∨ ∃ es, (t, es) ∈ cl1 ++ cl2 ∧ c = closed t es) →
  loadTrailer md5 (entries_of op) (WalFileInfo_new t0) = Some None →
  ∃ w', scanAllWalFiles md5 (cl2.*1 ++ [t0]) w = Some (true, w') ∧ segs (cl1 ++ cl2) t0 op w' ∧ startIdx w' = 1 ∧
    lastIdx w' = t0 + Z.of_nat (length op) - 1 ∧ writers w' = [].
Proof using md5_length iter_perm.
  revert cl1 w. induction cl2 as [|[t es] cl2 IH]; intros cl1 w Hsc Hc H63 Hsz Hfs Htr.
  - rewrite app_nil_r in *. destruct (scanFile_open cl1 t0 op fs w) as (w' & Hw & Hs & Hrest); [done..|].
    exists w'. cbn [fmap list_fmap app scanAllWalFiles]. rewrite bool_decide_eq_true_2, Hw, bind_Some_eq by done. done.
  - pose proof Hc as (m & Hc1 & -> & Hne & Hc2)%chain_app. apply chain_le in Hc2.
    assert (Hin : (m, es) ∈ cl1 ++ (m, es) :: cl2) by (apply elem_of_app; right; left).
    destruct (scanFile_closed cl1 m es fs w) as (w1 & Hw1 & Hsc1); [done|done|done|lia| | |].
    { apply (Hsz m). by right. }
    { apply Hfs. right. by exists es. }
    replace (cl1 ++ (m, es) :: cl2) with ((cl1 ++ [(m, es)]) ++ cl2) in * by (by rewrite <- app_assoc).
    destruct (IH _ w1 Hsc1) as (w' & Hw' & Hrest); [done..|].
    exists w'. split; [|done]. rewrite fmap_cons. cbn [app scanAllWalFiles fst].
    rewrite bool_decide_eq_false_2, Hw1, bind_Some_eq by (by destruct (cl2.*1)). exact Hw'.
Qed.

Lemma filter_forall {A} (P : A → Prop) `{!∀ x, Decision (P x)} (l : list A) : (∀ x, x ∈ l → P x) → filter P l = l.
Proof using.
  induction l as [|x l IH]; intros Hl; [done|]. rewrite filter_cons_True by (apply Hl; left).
  f_equal. apply IH. intros y Hy. apply Hl. by right.
Qed.

Lemma chain_starts_sorted s cl s' : chain s cl s' → StronglySorted Z.le (cl.*1 ++ [s']).
Proof using.
  revert s. induction cl as [|[t es] cl IH]; intros s Hc; [repeat constructor|].
  destruct Hc as (-> & Hne & Hc). rewrite fmap_cons. cbn [app fst]. constructor; [by apply (IH _ Hc)|].
  pose proof (chain_le _ _ _ Hc). apply list.Forall_forall. intros x [Hx|Hx]%elem_of_app.
  - apply list_elem_of_fmap in Hx as ([x' es'] & -> & Hx). pose proof (chain_bounds _ _ _ _ _ Hc Hx). simpl. lia.
  - apply list_elem_of_singleton in Hx. lia.
Qed.

Lemma chain_starts_NoDup s cl s' : chain s cl s' → NoDup (cl.*1 ++ [s']).
Proof using.
  revert s. induction cl as [|[t es] cl IH]; intros s Hc; [apply list.NoDup_singleton|].
  destruct Hc as (-> & Hne%nonempty_length & Hc). rewrite fmap_cons. cbn [app fst].
  apply list.NoDup_cons. split; [|by apply (IH _ Hc)].
  pose proof (chain_le _ _ _ Hc). intros [Hx|Hx]%elem_of_app.
  - apply list_elem_of_fmap in Hx as ([x' es'] & Hx' & Hx). pose proof (chain_bounds _ _ _ _ _ Hc Hx). simpl in *. lia.
  - apply list_elem_of_singleton in Hx. lia.
Qed.

(** The segments in a directory. *)
Record seg_files (cl : list (Z * list (list Z))) (t0 : Z) (op : list (list Z)) (fs : gmap Z (list Z)) : Prop := {
  sf_chain : chain 1 cl t0;
  sf_max : t0 + Z.of_nat (length op) < 2 ^ 63;
  sf_small : ∀ t es, (t, es) ∈ (t0, op) :: cl → total es < seg_limit;
  sf_files : ∀ t c, fs !! t = Some c ↔ t = t0 ∧ c = entries_of op ∨ ∃ es, (t, es) ∈ cl ∧ c = closed t es }.

Lemma segs_files cl t0 op w : segs cl t0 op w → seg_files cl t0 op (files w).
Proof using. by intros [H1 H2 H3 H4 _ _ _ _ _]. Qed.

(** The files are visited in the order of the segments. *)
Lemma segs_starts cl t0 op fs :
  seg_files cl t0 op fs → filter (λ s, s ≠ 0) (merge_sort Z.le (elements (dom fs))) = cl.*1 ++ [t0].
Proof using.
  intros [Hc _ _ Hs].
  assert (Hdom : ∀ t, t ∈ elements (dom fs) ↔ t ∈ cl.*1 ++ [t0]).
  { intros t. rewrite elem_of_elements, elem_of_dom, elem_of_app, list_elem_of_singleton, list_elem_of_fmap. split.
    - intros [c [[-> _]|(es & Hes & _)]%Hs]; [by right|]. left. by exists (t, es).
    - intros [([t' es] & -> & Hes)| ->]; eexists; apply Hs; [right; by exists es|by left]. }
  assert (Heq : merge_sort Z.le (elements (dom fs)) = cl.*1 ++ [t0]).
  { apply (StronglySorted_unique Z.le); [apply (StronglySorted_merge_sort Z.le)|by apply (chain_starts_sorted 1)|].
    rewrite merge_sort_Permutation. apply NoDup_Permutation; [apply NoDup_elements|by apply (chain_starts_NoDup 1)|done]. }
  rewrite Heq. apply filter_forall. intros t Ht.
  apply elem_of_app in Ht as [([t' es] & -> & Hes)%list_elem_of_fmap|Ht%list_elem_of_singleton].
  - pose proof (chain_bounds _ _ _ _ _ Hc Hes). simpl. lia.
  - pose proof (chain_le _ _ _ Hc). lia.
Qed.

(** A restart finds every segment again. *)
Lemma load_segs cl t0 op fs :
  seg_files cl t0 op fs → loadTrailer md5 (entries_of op) (WalFileInfo_new t0) = Some None →
  ∃ w', load md5 fs = Some (true, w') ∧ segs cl t0 op w' ∧ startIdx w' = 1 ∧
    lastIdx w' = t0 + Z.of_nat (length op) - 1 ∧ nextIdx w' = t0 + Z.of_nat (length op) ∧ writers w' = [].
Proof using md5_length iter_perm.
  intros Hs Htr. unfold load. rewrite (segs_starts cl t0 op) by done.
  destruct Hs as [Hc Hm Hsm Hf].
  destruct (scanAll_segs [] cl t0 op fs (Wal_new fs)) as (w' & Hw' & Hs' & Hst & Hl & Hq); [|done..|].
  { split; try done.
    - intros e t. split; [done|]. by intros (? & ?%not_elem_of_nil & _).
    - by intros t es ?%not_elem_of_nil. }
  rewrite Hw', bind_Some_eq. cbn [negb]. rewrite (sg_fd _ _ _ _ Hs'). eexists. split; [done|].
  cbn [startIdx lastIdx nextIdx writers]. rewrite Hst, Hl. split_and!; [|done|done|lia|done].
  destruct Hs'. by split.
Qed.

(** ** Runs *)

(** The log is to be [ds]: the segments have all of it but [rest]; the last [n] of what they
    have was written by the batch whose writers still wait. *)
Definition wal_inv (ds : list (list Z)) (s : wal_state) : Prop :=
  ∃ cl t0 op rest n, let have := mjoin cl.*2 ++ op in let w := st_wal s in
    segs cl t0 op w ∧ total op <= 2 ^ 24 ∧ ds = have ++ rest ∧ startIdx w = 1 ∧
    lastIdx w = Z.of_nat (length have) ∧ nextIdx w = Z.of_nat (length ds) + 1 ∧ nextIdx w < 2 ^ 63 ∧
    writers w = numbered (Z.of_nat (length have - n) + 1) (drop (length have - n) ds) ∧
    (n <= length have)%nat ∧ waiting w < batch_limit ∧
    match st_batch s with None => n = 0%nat | Some m => n = m end.

(** The log of an empty directory: one empty file for index 1. *)
Definition emptyLog : wal :=
  {| files := {[1 := []]}; infos := {[1 := setNormal (WalFileInfo_new 1)]};
     walFiles := {[sMaxLogIndex := 1]}; curWalFile := Some 1; startIdx := 1; lastIdx := 0;
     nextIdx := 1; curWalPos := 0; wFd := Some 1; writers := [] |}.

Lemma load_empty : load md5 ∅ = Some (true, emptyLog).
Proof using. reflexivity. Qed.

Lemma emptyLog_segs : segs [] 1 [] emptyLog.
Proof using.
  split; try done.
  - intros t es [[= -> ->]|?%not_elem_of_nil]%elem_of_cons; done.
  - intros t c. cbn [files emptyLog]. rewrite lookup_singleton_Some. split.
    + intros [<- <-]. by left.
    + intros [[-> ->]|(es & ?%not_elem_of_nil & _)]; done.
  - intros e t. cbn [walFiles emptyLog]. rewrite lookup_singleton_Some. split.
    + intros [<- <-]. by left.
    + intros [[-> ->]|(es & ?%not_elem_of_nil & _)]; done.
  - intros t es [[= -> ->]|?%not_elem_of_nil]%elem_of_cons; [|done].
    cbn [infos emptyLog]. rewrite lookup_singleton_eq. eexists. by split_and!.
Qed.

Lemma emptyLog_inv : wal_inv [] {| st_wal := emptyLog; st_batch := None |}.
Proof using. exists [], 1, [], [], 0%nat. split_and!; try done. apply emptyLog_segs. Qed.

(** [segs] does not depend on counters and queue. *)
Lemma segs_ext cl t0 op w w' :
  files w' = files w → infos w' = infos w → walFiles w' = walFiles w → curWalFile w' = curWalFile w →
  wFd w' = wFd w → curWalPos w' = curWalPos w → segs cl t0 op w → segs cl t0 op w'.
Proof using.
  intros Ef Ei Ew Ec Ed Ep Hs. destruct w, w'. cbn in *. subst. destruct Hs. by split.
Qed.

Lemma segs_length cl t0 op w :
  segs cl t0 op w → t0 + Z.of_nat (length op) = Z.of_nat (length (mjoin cl.*2 ++ op)) + 1.
Proof using. intros Hs. pose proof (chain_le _ _ _ (sg_chain _ _ _ _ Hs)). rewrite length_app. lia. Qed.

Lemma enqueue_inv ds w b data :
  wal_inv ds {| st_wal := w; st_batch := b |} → waiting (enqueue data w) < batch_limit → nextIdx w + 1 < 2 ^ 63 →
  wal_inv (ds ++ [data]) {| st_wal := enqueue data w; st_batch := b |}.
Proof using.
  intros (cl & t0 & op & rest & n & Hs & Hop & -> & Hst & Hl & Hn & H63 & Hq & Hnl & Hw & Hb) Hwait Hmax.
  exists cl, t0, op, (rest ++ [data]), n. cbn [st_wal st_batch] in *.
  split_and!; try done.
  - by apply (segs_ext _ _ _ w).
  - by rewrite <- app_assoc.
  - cbn [nextIdx enqueue]. unfold u64. rewrite Z.mod_small by lia. rewrite Hn, !length_app. simpl. lia.
  - cbn [nextIdx enqueue]. unfold u64. rewrite Z.mod_small by lia. done.
  - cbn [writers enqueue]. rewrite Hq. set (have := mjoin cl.*2 ++ op) in *.
    rewrite (drop_app_le (have ++ rest)), numbered_app by (rewrite length_app; lia).
    f_equal. rewrite numbered_cons. change (numbered ?x []) with (@nil (Z * list Z)). do 2 f_equal.
    rewrite Hn, length_drop, length_app. lia.
Qed.

Lemma write_inv ds w :
  wal_inv ds {| st_wal := w; st_batch := None |} → writers w ≠ [] →
  ∃ w', writeBatch md5 iter w = Some w' ∧ wal_inv ds {| st_wal := w'; st_batch := Some (length (writers w)) |}.
Proof using.
  intros (cl & t0 & op & rest & n & Hs & Hop & -> & Hst & Hl & Hn & H63 & Hq & Hnl & Hw & ->) Hne.
  cbn [st_wal st_batch] in *. pose proof (segs_length _ _ _ _ Hs) as Ht.
  rewrite Nat.sub_0_r, drop_app_length in Hq.
  assert (Hr : rest ≠ []) by (intros ->; done).
  destruct (writeBatch_segs cl t0 op w rest) as (w' & cl' & t1 & op' & Hwb & Hs' & Hop' & Hj & Hst' & Hl' & Hn' & Hq').
  { done. }
  { done. }
  { by rewrite Ht. }
  { done. }
  { unfold waiting in Hw. rewrite Hq, numbered_snd in Hw. exact Hw. }
  { rewrite !length_app in *. lia. }
  exists w'. split; [done|]. exists cl', t1, op', [], (length rest). cbn [st_wal st_batch].
  rewrite app_assoc in Hj. rewrite Hj, app_nil_r, Hst', Hl', Hn', Hq'. unfold waiting. rewrite Hq'.
  split_and!; try done.
  - rewrite !length_app in *. lia.
  - rewrite Hq. replace (length ((mjoin cl.*2 ++ op) ++ rest) - length rest)%nat with (length (mjoin cl.*2 ++ op))
      by (rewrite (length_app _ rest); lia).
    by rewrite drop_app_length.
  - rewrite length_app. lia.
  - rewrite Hq. unfold numbered. by rewrite length_imap.
Qed.

Lemma waiting_total w : waiting w = total (writers w).*2.
Proof using. done. Qed.

Lemma dequeue_inv ds w n :
  wal_inv ds {| st_wal := w; st_batch := Some n |} →
  wal_inv ds {| st_wal := set_writers (drop n (writers w)) w; st_batch := None |}.
Proof using.
  intros (cl & t0 & op & rest & n' & Hs & Hop & -> & Hst & Hl & Hn & H63 & Hq & Hnl & Hw & ->).
  cbn [st_wal st_batch] in *. exists cl, t0, op, rest, 0%nat. cbn [st_wal st_batch]. split_and!; try done.
  - by apply (segs_ext _ _ _ w).
  - cbn [writers set_writers]. rewrite Hq. set (have := mjoin cl.*2 ++ op) in *.
    rewrite <- (take_drop n (drop (length have - n) (have ++ rest))), numbered_app, drop_app_length'.
    + rewrite drop_drop, length_take_le by (rewrite length_drop, length_app; lia). f_equal; [lia|f_equal; lia].
    + unfold numbered. rewrite length_imap, length_take_le; [done|]. rewrite length_drop, length_app. lia.
  - lia.
  - rewrite waiting_total in *. cbn [writers set_writers].
    rewrite <- (take_drop n (writers w)), fmap_app, total_app in Hw.
    pose proof (total_nonneg (take n (writers w)).*2). lia.
Qed.

Lemma restart_inv ds s :
  wal_inv ds s → no_trailer md5 (st_wal s) →
  ∃ w', load md5 (files (st_wal s)) = Some (true, w') ∧ lastIdx w' = lastIdx (st_wal s) ∧
    wal_inv (take (Z.to_nat (lastIdx w')) ds) {| st_wal := w'; st_batch := None |}.
Proof using md5_length iter_perm.
  intros (cl & t0 & op & rest & n & Hs & Hop & -> & Hst & Hl & Hn & H63 & Hq & Hnl & Hw & Hb) Htr.
  pose proof (segs_length _ _ _ _ Hs) as Ht.
  destruct (load_segs cl t0 op (files (st_wal s))) as (w' & Hw' & Hs' & Hst' & Hl' & Hn' & Hq'); [by apply segs_files| |].
  { apply Htr; [by apply (sg_cur _ _ _ _ Hs)|]. apply (sg_files _ _ _ _ Hs). by left. }
  exists w'. split; [done|]. rewrite Hl. split; [lia|].
  replace (Z.to_nat (lastIdx w')) with (length (mjoin cl.*2 ++ op)) by lia. rewrite take_app_length.
  exists cl, t0, op, [], 0%nat. cbv zeta. rewrite app_nil_r, Nat.sub_0_r, drop_ge by done. cbn [st_wal st_batch].
  unfold waiting. rewrite Hq'. split_and!; try done; try lia.
  rewrite Hn, length_app in H63. lia.
Qed.

Lemma wal_step_inv ds s e s' :
  wal_inv ds s → wal_step md5 iter s e s' → wal_inv (log_after ds e s') s'.
Proof using md5_length iter_perm.
  intros Hinv Hstep. destruct Hstep as [w b data Hw Hn|w w' Hne Hwb|w n|w b w' Htr Hload]; cbn [log_after st_wal].
  - by apply enqueue_inv.
  - destruct (write_inv ds w) as (w1 & Hw1 & Hinv1); [done|done|]. by assert (w1 = w') as -> by congruence.
  - by apply dequeue_inv.
  - destruct (restart_inv ds {| st_wal := w; st_batch := b |}) as (w1 & Hw1 & _ & Hinv1); [done|done|].
    cbn [st_wal] in Hw1. by assert (w1 = w') as -> by congruence.
Qed.

Lemma wal_steps_inv w0 ds s :
  load md5 ∅ = Some (true, w0) → wal_steps md5 iter {| st_wal := w0; st_batch := None |} ds s → wal_inv ds s.
Proof using md5_length iter_perm.
  rewrite load_empty. intros [= <-] Hsteps. remember {| st_wal := emptyLog; st_batch := None |} as s0 eqn:E.
  induction Hsteps as [s|s ds s1 e s2 Hsteps IH Hstep]; subst; [apply emptyLog_inv|].
  apply (wal_step_inv ds s1); [by apply IH|done].
Qed.

Lemma wal_inv_find ds s i :
  wal_inv ds s → 1 <= i <= lastIdx (st_wal s) →
  startIdx (st_wal s) = 1 ∧ ∃ have t es e, in_file (st_wal s) have i t es e ∧ have `prefix_of` ds ∧
    lastIdx (st_wal s) = Z.of_nat (length have).
Proof using.
  intros (cl & t0 & op & rest & n & Hs & Hop & -> & Hst & Hl & _) Hi. split; [done|].
  destruct (segs_find cl t0 op (st_wal s) i) as (t & es & e & Hf); [done|lia|].
  exists (mjoin cl.*2 ++ op), t, es, e. split_and!; [done|by apply prefix_app_r|done].
Qed.

Lemma wal_inv_read ds s k d :
  wal_inv ds s → ds !! k = Some d → Z.of_nat k + 1 <= lastIdx (st_wal s) →
  entryAt md5 (Z.of_nat k + 1) (st_wal s) = Some (Some (entry d), st_wal s).
Proof using.
  intros Hinv Hd Hk. destruct (wal_inv_find ds s (Z.of_nat k + 1)) as (Hst & have & t & es & e & Hf & [x ->] & Hl); [done|lia|].
  apply (entryAt_found _ have _ t es e); [done| |lia].
  replace (Z.to_nat (Z.of_nat k + 1 - 1)) with k by lia. by rewrite lookup_app_l in Hd by lia.
Qed.


(** More whole records at the end of the open file. *)
Lemma more_records cl t0 op w more :
  segs cl t0 op w → total op <= 2 ^ 24 → total more < batch_limit → t0 + Z.of_nat (length (op ++ more)) < 2 ^ 63 →
  seg_files cl t0 (op ++ more) (<[t0 := entries_of op ++ entries_of more]> (files w)).
Proof using.
  intros Hs Hop Hmore H63. pose proof Hs as [Hc _ Hsm Hf _ _ _ _ _]. split; [done|done| |].
  - intros t es [[= -> ->]|Hin]%elem_of_cons; [rewrite total_app; unfold seg_limit; lia|]. apply (Hsm t). by right.
  - intros t c. rewrite <- entries_of_app. destruct (decide (t = t0)) as [->|Hne].
    + rewrite lookup_insert_eq. split; [intros [= <-]; by left|]. intros [[_ ->]|(es & Hes & _)]; [done|]. exfalso.
      pose proof (chain_bounds _ _ _ _ _ Hc Hes) as Hb. assert (0 < length es)%nat; [|lia].
      destruct (decide (es = [])) as [->|Hnil]; [|by apply nonempty_length in Hnil]. cbn in Hb. lia.
    + rewrite lookup_insert_ne by done. rewrite Hf. split; (intros [[? _]|?]; [done|by right]).
Qed.

(** C5: a log survives a restart.  At any point of a run of writers, also inside a write that was cut behind a whole
    record ([more] are the records of it in the open file [id], none of them when the process ends between writes),
    opening the log on the files that are there succeeds, unless the open file happens to
    end with 65 bytes that are the MD5 of the 8 bytes before them, like a closed one; the log has the last index of the last record, gives out
    the next index, nobody waits, and every record that was written is read back as it was appended.  Writes that are cut inside a record, and the
    change of files, are not covered. *)
Theorem wal_restart w0 ds s id c more :
  load md5 ∅ = Some (true, w0) → wal_steps md5 iter {| st_wal := w0; st_batch := None |} ds s →
  curWalFile (st_wal s) = Some id → files (st_wal s) !! id = Some c → more `prefix_of` drop (Z.to_nat (lastIdx (st_wal s))) ds →
  loadTrailer md5 (c ++ entries_of more) (WalFileInfo_new id) = Some None →
  ∃ w', load md5 (<[id := c ++ entries_of more]> (files (st_wal s))) = Some (true, w') ∧
    lastIdx w' = lastIdx (st_wal s) + Z.of_nat (length more) ∧
    nextIdx w' = lastIdx w' + 1 ∧ writers w' = [] ∧
    ∀ k d, ds !! k = Some d → Z.of_nat k + 1 <= lastIdx w' →
      entryAt md5 (Z.of_nat k + 1) w' = Some (Some (entry d), w').
Proof using md5_length iter_perm.
  intros Hload Hsteps Hcur Hid [left Hmore] Htr. pose proof (wal_steps_inv _ _ _ Hload Hsteps) as Hinv.
  destruct Hinv as (cl & t0 & op & rest & n & Hs & Hop & Hds & _ & Hl & Hn & H63 & Hq & Hnl & Hw & _).
  pose proof (segs_length _ _ _ _ Hs) as Ht. set (have := mjoin cl.*2 ++ op) in *.
  rewrite (sg_cur _ _ _ _ Hs) in Hcur. injection Hcur as <-.
  assert (Hc : c = entries_of op).
  { pose proof (proj2 (sg_files _ _ _ _ Hs t0 (entries_of op)) (or_introl (conj eq_refl eq_refl))) as E. congruence. }
  subst c. rewrite Hl, Hds, Nat2Z.id, drop_app_length in Hmore.
  assert (Hrest : total rest < batch_limit).
  { unfold waiting in Hw. rewrite Hq, numbered_snd, Hds, drop_app_le in Hw by lia. fold (entries_of (drop (length have - n) have ++ rest)) in Hw.
    fold (total (drop (length have - n) have ++ rest)) in Hw. rewrite total_app in Hw. pose proof (total_nonneg (drop (length have - n) have)). lia. }
  rewrite Hmore, total_app in Hrest. pose proof (total_nonneg left). rewrite Hds, Hmore, !length_app in Hn.
  destruct (load_segs cl t0 (op ++ more) (<[t0 := entries_of op ++ entries_of more]> (files (st_wal s)))) as (w' & Hw' & Hs' & Hst' & Hl' & Hn' & Hq').
  { apply more_records; [done|done|lia|]. rewrite length_app. lia. }
  { by rewrite entries_of_app. }
  rewrite length_app in Hl', Hn'. exists w'. split; [done|]. split; [lia|]. split; [lia|]. split; [done|].
  intros k d Hd Hk. destruct (segs_find cl t0 (op ++ more) w' (Z.of_nat k + 1)) as (t & es & e & Hf); [done|rewrite app_assoc, length_app; fold have; lia|].
  apply (entryAt_found w' (mjoin cl.*2 ++ op ++ more) _ t es e); [exact Hf| |lia]. replace (Z.to_nat (Z.of_nat k + 1 - 1)) with k by lia.
  assert (Hds' : ds = (mjoin cl.*2 ++ op ++ more) ++ left) by (rewrite Hds, Hmore; unfold have; by rewrite <- !app_assoc). rewrite Hds' in Hd.
  rewrite lookup_app_l in Hd; [done|]. unfold have in *. rewrite !length_app in *. lia.
Qed.

(** reading a range of the log.  In any run, the answer to a range of written indexes is
    a beginning of that range, never empty: the entries as they were appended, in order, up
    to the end of the range or of the file of its first entry. *)
Lemma logEntries_range w0 ds s a b :
  load md5 ∅ = Some (true, w0) → wal_steps md5 iter {| st_wal := w0; st_batch := None |} ds s →
  1 <= a <= b → b <= lastIdx (st_wal s) →
  ∃ n, (0 < n)%nat ∧ a + Z.of_nat n <= b + 1 ∧ (n <= length (drop (Z.to_nat (a - 1)) ds))%nat ∧
    logEntries md5 a b (st_wal s) = Some (entry <$> take n (drop (Z.to_nat (a - 1)) ds), st_wal s).
Proof using md5_length iter_perm.
  intros Hload Hsteps Ha Hb. pose proof (wal_steps_inv _ _ _ Hload Hsteps) as Hinv.
  destruct (wal_inv_find ds s a) as (Hst & have & t & es & e & Hf & [x ->] & Hl); [done|lia|].
  pose proof (if_range _ _ _ _ _ _ Hf) as Hr.
  exists (Z.to_nat (Z.min b (t + Z.of_nat (length es) - 1) - a + 1)).
  rewrite length_drop, length_app. split_and!; [lia|lia|lia|].
  rewrite (logEntries_found _ have a b t es e) by (done || lia).
  do 3 f_equal. rewrite drop_app_le by lia. by rewrite take_app_le by (rewrite length_drop; lia).
Qed.

End Log.

(** a record that was cut off is taken for an entry when the log is opened.  A file that
    ends inside its first record opens with last index 1, the entry cannot be read, and after
    another entry is appended reading index 1 gives the torn record filled up with bytes of
    the next one. *)
Lemma torn_entry_mixed md5 iter :
  ∃ w1 w2, load md5 {[1 := be_bytes 4 8 ++ [1; 2]]} = Some (true, w1) ∧ lastIdx w1 = 1 ∧
    entryAt md5 1 w1 = Some (None, w1) ∧ appendLog md5 iter [7; 8; 9] w1 = Some (0, w2) ∧
    entryAt md5 1 w2 = Some (Some (be_bytes 4 8 ++ [1; 2] ++ be_bytes 4 3 ++ [7; 8]), w2).
Proof.
  set (w1 := default emptyLog (snd <$> load md5 {[1 := be_bytes 4 8 ++ [1; 2]]})).
  exists w1, (default emptyLog (snd <$> appendLog md5 iter [7; 8; 9] w1)).
  split_and!; vm_compute; reflexivity.
Qed.

(** a file that ends inside the length of a record is refused, and with it the whole log. *)
Lemma torn_length_refused md5 : ∃ w, load md5 {[1 := entry [7] ++ [0; 0]]} = Some (false, w).
Proof. eexists. vm_compute. reflexivity. Qed.

(** an entry cannot be rewritten.  [writeAt] on an index that is in use rolls the log
    back, but neither the bytes nor the index of that entry are removed: after the entry
    with number 2 was written again, reading number 2 still gives the old one. *)
Lemma rewrite_lost md5 iter :
  ∃ w1 w2 w3, appendLog md5 iter [1; 2] emptyLog = Some (0, w1) ∧ appendLog md5 iter [3] w1 = Some (0, w2) ∧
    writeAt md5 iter 2 [7; 7; 7] w2 = Some (true, w3) ∧ lastIdx w3 = 2 ∧
    entryAt md5 2 w3 = Some (Some (entry [3]), w3).
Proof.
  set (w1 := default emptyLog (snd <$> appendLog md5 iter [1; 2] emptyLog)).
  set (w2 := default emptyLog (snd <$> appendLog md5 iter [3] w1)).
  exists w1, w2, (default emptyLog (snd <$> writeAt md5 iter 2 [7; 7; 7] w2)).
  split_and!; vm_compute; reflexivity.
Qed.

(** ** Witnesses *)

(** The digest of the source. *)
Definition demo_md5 : list Z → list Z := wal_md5.
Definition demo_iter (m : gmap Z Z) : list (Z * Z) := map_to_list m.
Definition demo_write (w : wal) : wal := default w (writeBatch demo_md5 demo_iter w).

(** One writer queues while the batch of another is written; a restart loses its entry;
    another entry is queued and written. *)
Definition demo_w1 : wal := demo_write (enqueue [1; 2] emptyLog).
Definition demo_w2 : wal := enqueue [3] demo_w1.
Definition demo_w3 : wal := set_writers (drop 1 (writers demo_w2)) demo_w2.
Definition demo_w4 : wal := default demo_w3 (snd <$> load demo_md5 (files demo_w3)).
Definition demo_w5 : wal := demo_write (enqueue [4; 5] demo_w4).
Definition demo_state : wal_state := {| st_wal := demo_w5; st_batch := Some 1%nat |}.

Lemma demo_no_trailer w : curWalFile w = Some 1 → (length (default [] (files w !! 1%Z)) <= 73)%nat → no_trailer demo_md5 w.
Proof.
  intros Hc Hl id c Hid Hf. assert (id = 1) as -> by congruence. rewrite Hf in Hl. cbn [default] in Hl.
  unfold loadTrailer. rewrite (proj2 (Z.leb_le _ _)); [done|]. simpl in Hl. lia.
Qed.

Lemma demo_steps3 : wal_steps demo_md5 demo_iter {| st_wal := emptyLog; st_batch := None |} [[1; 2]; [3]] {| st_wal := demo_w3; st_batch := None |}.
Proof.
  set (s0 := {| st_wal := emptyLog; st_batch := None |}).
  pose proof (steps_snoc demo_md5 demo_iter s0 [] s0 (Queued [1; 2]) {| st_wal := enqueue [1; 2] emptyLog; st_batch := None |}) as H1.
  pose proof (steps_snoc demo_md5 demo_iter s0 [[1; 2]] {| st_wal := enqueue [1; 2] emptyLog; st_batch := None |} Written
    {| st_wal := demo_w1; st_batch := Some 1%nat |}) as H2.
  pose proof (steps_snoc demo_md5 demo_iter s0 [[1; 2]] {| st_wal := demo_w1; st_batch := Some 1%nat |} (Queued [3])
    {| st_wal := demo_w2; st_batch := Some 1%nat |}) as H3.
  pose proof (steps_snoc demo_md5 demo_iter s0 [[1; 2]; [3]] {| st_wal := demo_w2; st_batch := Some 1%nat |} Dequeued
    {| st_wal := demo_w3; st_batch := None |}) as H4.
  apply H4; [apply H3; [apply H2; [apply H1; [constructor|]|]|]|].
  - apply step_enqueue; vm_compute; reflexivity.
  - apply (step_write demo_md5 demo_iter (enqueue [1; 2] emptyLog)); [discriminate|vm_compute; reflexivity].
  - apply step_enqueue; vm_compute; reflexivity.
  - apply step_done.
Qed.

Lemma demo_steps : wal_steps demo_md5 demo_iter {| st_wal := emptyLog; st_batch := None |} [[1; 2]; [4; 5]] demo_state.
Proof.
  set (s0 := {| st_wal := emptyLog; st_batch := None |}).
  pose proof (steps_snoc demo_md5 demo_iter s0 [[1; 2]; [3]] {| st_wal := demo_w3; st_batch := None |} Restarted
    {| st_wal := demo_w4; st_batch := None |}) as H5.
  pose proof (steps_snoc demo_md5 demo_iter s0 [[1; 2]] {| st_wal := demo_w4; st_batch := None |} (Queued [4; 5])
    {| st_wal := enqueue [4; 5] demo_w4; st_batch := None |}) as H6.
  pose proof (steps_snoc demo_md5 demo_iter s0 [[1; 2]; [4; 5]] {| st_wal := enqueue [4; 5] demo_w4; st_batch := None |} Written
    demo_state) as H7.
  apply H7; [apply H6; [apply H5; [exact demo_steps3|]|]|].
  - apply step_restart; [apply demo_no_trailer; vm_compute; [reflexivity|lia]|vm_compute; reflexivity].
  - apply step_enqueue; vm_compute; reflexivity.
  - apply (step_write demo_md5 demo_iter (enqueue [4; 5] demo_w4)); [vm_compute; discriminate|vm_compute; reflexivity].
Qed.

Lemma demo_md5_length l : length (demo_md5 l) = 65%nat.
Proof. apply length_wal_md5. Qed.

Lemma demo_iter_perm m : demo_iter m ≡ₚ map_to_list m.
Proof. reflexivity. Qed.


(** The process ends when the record of the second writer is in the file, and its index was not stored. *)
Lemma wal_restart_witness :
  ∃ w', load demo_md5 (<[1 := entry [1; 2] ++ entries_of [[3]]]> (files demo_w3)) = Some (true, w') ∧ lastIdx w' = 2 ∧
    entryAt demo_md5 2 w' = Some (Some (entry [3]), w').
Proof.
  destruct (wal_restart demo_md5 demo_iter demo_md5_length demo_iter_perm emptyLog [[1; 2]; [3]] {| st_wal := demo_w3; st_batch := None |}
    1 (entry [1; 2]) [[3]]) as (w' & Hw & Hl & _ & _ & Hr).
  - apply load_empty.
  - apply demo_steps3.
  - vm_compute. reflexivity.
  - vm_compute. reflexivity.
  - exists []. vm_compute. reflexivity.
  - vm_compute. reflexivity.
  - assert (Hl2 : lastIdx w' = 2) by (rewrite Hl; vm_compute; reflexivity).
    exists w'. split; [exact Hw|]. split; [exact Hl2|]. apply (Hr 1%nat [3]); [reflexivity|lia].
Defined.

Lemma logEntries_range_witness :
  ∃ n, (0 < n)%nat ∧ logEntries demo_md5 1 2 demo_w5 = Some (entry <$> take n [[1; 2]; [4; 5]], demo_w5).
Proof.
  destruct (logEntries_range demo_md5 demo_iter demo_md5_length demo_iter_perm emptyLog [[1; 2]; [4; 5]] demo_state 1 2)
    as (n & Hn & _ & _ & Hr).
  - apply load_empty.
  - apply demo_steps.
  - lia.
  - vm_compute. congruence.
  - exists n. split; [exact Hn|exact Hr].
Defined.
