(* ===== verification/Replication.v ===== *)
(** * Replication of a bucket (src/src/storage/{bucket_mgr,peer}.{h,cc}, storage.cc)

    The master of a bucket appends every put to its log and sends the entries a copy lacks
    in DUMP messages; a copy writes them to its own log when they continue it, and answers
    with the index it wants next.  An answer lets the master commit: a task for the commit
    thread that hands the entries to [commitCB].

    [Log] is what [BucketMgr] uses of a log, [LogLaws] what it relies on; the write-ahead log
    provides both ([ReplicationSpec]).  An entry read from a log has 4 bytes of length in
    front.  The system is the master, its copies and every message ever sent: any message may
    be delivered at any time, repeatedly or never, so that loss, repetition and reordering
    are all there.  [commiter] runs the tasks of a bucket in order, each between other steps.
    [None] is an execution without meaning: the end iterator of [peers] is used, a null
    pointer is handed to [commitCB], bytes are written behind an entry. *)
From S2P Require Import Prelude Buffers Wal.

(** ** The log behind a bucket *)

Class Log (L : Type) := {
  log_append : list Z → L → option L;
  log_next : L → Z;
  log_last : L → Z;
  log_entries : Z → Z → L → option (list (list Z) * L);
  log_entry : Z → L → option (option (list Z) * L);
  log_writeAt : Z → list Z → L → option (bool * L) }.

(** The size of an entry that a log takes, and its number of entries. *)
Definition entry_fits (d : list Z) : Prop := 4 + Z.of_nat (length d) < batch_limit.
Definition log_max : Z := 2 ^ 63 - 2.

(** [log_is ds l]: [l] holds the entries [ds], the first with index 1. *)
Class LogLaws (L : Type) `{Log L} (log_is : list (list Z) → L → Prop) := {
  log_append_ok ds l d : log_is ds l → entry_fits d → Z.of_nat (length ds) < log_max →
    ∃ l', log_append d l = Some l' ∧ log_is (ds ++ [d]) l';
  log_next_ok ds l : log_is ds l → log_next l = Z.of_nat (length ds) + 1;
  log_last_ok ds l : log_is ds l → log_last l = Z.of_nat (length ds);
  log_max_ok ds l : log_is ds l → Z.of_nat (length ds) <= log_max;
  log_entries_ok ds l a : log_is ds l → 1 <= a <= Z.of_nat (length ds) →
    ∃ n, (0 < n)%nat ∧ (n <= length (drop (Z.to_nat (a - 1)) ds))%nat ∧
      log_entries a (Z.of_nat (length ds)) l = Some (entry <$> take n (drop (Z.to_nat (a - 1)) ds), l);
  log_entries_none ds l : log_is ds l → log_entries (Z.of_nat (length ds) + 1) (Z.of_nat (length ds)) l = Some ([], l);
  log_entry_ok ds l k d : log_is ds l → ds !! k = Some d → log_entry (Z.of_nat k + 1) l = Some (Some (entry d), l);
  log_entry_none ds l i : log_is ds l → Z.of_nat (length ds) < i → log_entry i l = Some (None, l);
  log_writeAt_ok ds l d l' : log_is ds l → log_append d l = Some l' →
    log_writeAt (Z.of_nat (length ds) + 1) d l = Some (true, l') }.

(** ** [BucketMgr] *)

Inductive Role := leader | follow.

(** [Peer]: the fields that are used. *)
Record peer := { nextSendIdx : Z }.

(** [tasks] are the commits dispatched to [commiter]; [delivered] is what [commitCB] was
    called with so far, each with its index. *)
Record bucket (L : Type) := {
  bucketNo : Z;
  walog : L;
  quickCommitIdx : Z;
  peers : gmap Z peer;
  role : Role;
  tasks : list Z;
  delivered : list (Z * list Z) }.
Arguments bucketNo {L}.
Arguments walog {L}.
Arguments quickCommitIdx {L}.
Arguments peers {L}.
Arguments role {L}.
Arguments tasks {L}.
Arguments delivered {L}.
Arguments Build_bucket {L}.

(** [KvRequestDump] and [KvResponseDumpReturn]. *)
Record dump := { d_bucket : Z; d_peerid : Z; d_nextidx : Z; d_commitidx : Z; d_entries : list (list Z) }.
Record dump_return := { r_accept : bool; r_peerid : Z; r_nextidx : Z; r_commitidx : Z }.

(** The connection a request came on, [CloudConnHead]. *)
Record conn_head := { sock_index : Z; sock_create : Z; request_sec : Z; src_ip : Z; src_port : Z }.

Section Bucket.
Context {L : Type} `{Log L}.
Abbreviation bucket := (bucket L).

Definition set_walog (l : L) (b : bucket) : bucket :=
  Build_bucket (bucketNo b) l (quickCommitIdx b) (peers b) (role b) (tasks b) (delivered b).
Definition set_quick (i : Z) (b : bucket) : bucket :=
  Build_bucket (bucketNo b) (walog b) i (peers b) (role b) (tasks b) (delivered b).
Definition set_peers (p : gmap Z peer) (b : bucket) : bucket :=
  Build_bucket (bucketNo b) (walog b) (quickCommitIdx b) p (role b) (tasks b) (delivered b).
Definition set_tasks (ts : list Z) (b : bucket) : bucket :=
  Build_bucket (bucketNo b) (walog b) (quickCommitIdx b) (peers b) (role b) ts (delivered b).
Definition deliver (i : Z) (d : list Z) (b : bucket) : bucket :=
  Build_bucket (bucketNo b) (walog b) (quickCommitIdx b) (peers b) (role b) (tasks b) (delivered b ++ [(i, d)]).

(** A new [BucketMgr] with number [no] and an opened log. *)
Definition BucketMgr_initial (no : Z) (l : L) : bucket :=
  {| bucketNo := no; walog := l; quickCommitIdx := 0; peers := ∅; role := leader; tasks := []; delivered := [] |}.

Definition addPeer (srv_id : Z) (b : bucket) : bool * bucket :=
  match peers b !! srv_id with
  | Some _ => (false, b)
  | None => (true, set_peers (<[srv_id := {| nextSendIdx := 0 |}]> (peers b)) b)
  end.

Definition rmvPeer (srv_id : Z) (b : bucket) : bool * bucket :=
  match peers b !! srv_id with
  | None => (false, b)
  | Some _ => (true, set_peers (delete srv_id (peers b)) b)
  end.

(** [requestAppendEntries(p)]: the message sent to peer [id]. *)
Definition requestAppendEntries (id : Z) (b : bucket) : option (dump * bucket) :=
  p ← peers b !! id;
  let last_idx := log_last (walog b) in
  let p := if nextSendIdx p =? 0 then {| nextSendIdx := u64 (last_idx + 1) |} else p in
  let b := set_peers (<[id := p]> (peers b)) b in
  let last_log_idx := u64 (nextSendIdx p - 1) in
  '(vec, l) ← log_entries (u64 (last_log_idx + 1)) last_idx (walog b);
  Some ({| d_bucket := bucketNo b; d_peerid := id; d_nextidx := u64 (last_log_idx + 1);
           d_commitidx := quickCommitIdx b; d_entries := drop 4 <$> vec |}, set_walog l b).

Fixpoint requestPeers (ids : list Z) (b : bucket) : option (list dump * bucket) :=
  match ids with
  | [] => Some ([], b)
  | id :: ids =>
      '(m, b) ← requestAppendEntries id b;
      '(ms, b) ← requestPeers ids b;
      Some (m :: ms, b)
  end.

(** [requestAppendEntries()]: to every peer. *)
Definition requestAll (b : bucket) : option (list dump * bucket) := requestPeers (elements (dom (peers b))) b.

Definition appendEntris (log : list Z) (b : bucket) : option (list dump * bucket) :=
  l ← log_append log (walog b);
  requestAll (set_walog l b).

Definition commit (idx : Z) (b : bucket) : bucket :=
  if idx <=? quickCommitIdx b then b else set_tasks (tasks b ++ [idx]) b.

(** The loop of a commit task: [n] entries from [i] on. *)
Fixpoint commitLoop (n : nat) (i : Z) (b : bucket) : option bucket :=
  match n with
  | O => Some b
  | S n =>
      '(o, l) ← log_entry i (walog b);
      d ← o;
      commitLoop n (i + 1) (deliver i d (set_walog l b))
  end.

(** [commiter] runs the task at the front. *)
Definition runTask (b : bucket) : option bucket :=
  match tasks b with
  | [] => None
  | idx :: ts =>
      b ← commitLoop (Z.to_nat (idx - quickCommitIdx b)) (quickCommitIdx b + 1) (set_tasks ts b);
      Some (set_quick idx b)
  end.

(** [rpcHandler] of an answer that arrived and was parsed. *)
Definition rpcHandler (msg : dump_return) (b : bucket) : option (option dump * bucket) :=
  _ ← peers b !! r_peerid msg;
  let b := set_peers (<[r_peerid msg := {| nextSendIdx := r_nextidx msg |}]> (peers b)) b in
  let last := u64 (r_nextidx msg - 1) in
  let need_to_catchup := negb (r_accept msg) || (r_nextidx msg <=? log_last (walog b)) || (r_commitidx msg <? last) in
  let b := if r_accept msg then commit last b else b in
  match role b with
  | leader => if need_to_catchup then '(m, b) ← requestAppendEntries (r_peerid msg) b; Some (Some m, b)
              else Some (None, b)
  | follow => Some (None, b)
  end.

(** ** DUMP at a copy *)

(** The connection is written over the first 18 bytes of an entry. *)
Definition fillHead (h : conn_head) (data : list Z) : option (list Z) :=
  data ← fillInt32 data 0 (sock_index h);
  data ← fillInt32 data 4 (sock_create h);
  data ← fillInt32 data 8 (request_sec h);
  data ← fillInt32 data 12 (src_ip h);
  fillInt16 data 16 (src_port h).

Fixpoint writeEntries (h : conn_head) (nextidx idx : Z) (es : list (list Z)) (b : bucket) : option bucket :=
  match es with
  | [] => Some b
  | e :: es =>
      data ← fillHead h e;
      '(_, l) ← log_writeAt (nextidx + idx) data (walog b);
      writeEntries h nextidx (idx + 1) es (set_walog l b)
  end.

(** [KV_REQ_MESSAGE_DUMP] of [StorageServer::process], for the bucket of the message. *)
Definition handleDump (h : conn_head) (msg : dump) (b : bucket) : option (dump_return * bucket) :=
  if negb (log_next (walog b) =? d_nextidx msg) then
    Some ({| r_accept := false; r_peerid := d_peerid msg; r_nextidx := log_next (walog b); r_commitidx := 0 |}, b)
  else
    b ← writeEntries h (d_nextidx msg) 0 (d_entries msg) b;
    Some ({| r_accept := true; r_peerid := d_peerid msg;
             r_nextidx := u64 (d_nextidx msg + Z.of_nat (length (d_entries msg))); r_commitidx := d_commitidx msg |},
          commit (d_commitidx msg) b).

(** ** The system *)

Record sys := {
  master : bucket;
  copies : gmap Z bucket;
  reqs : list dump;
  rsps : list dump_return }.

(** An entry as [process] builds it: 18 bytes of connection and the put. *)
Definition put_ok (d : list Z) : Prop := (18 <= length d)%nat ∧ entry_fits d.

Inductive sys_step : sys → sys → Prop :=
| step_put s d ms b :
    put_ok d → log_next (walog (master s)) <= log_max → appendEntris d (master s) = Some (ms, b) →
    sys_step s {| master := b; copies := copies s; reqs := reqs s ++ ms; rsps := rsps s |}
| step_dump s m h c c' r :
    m ∈ reqs s → copies s !! d_peerid m = Some c → handleDump h m c = Some (r, c') →
    sys_step s {| master := master s; copies := <[d_peerid m := c']> (copies s); reqs := reqs s; rsps := rsps s ++ [r] |}
| step_answer s r o b :
    r ∈ rsps s → rpcHandler r (master s) = Some (o, b) →
    sys_step s {| master := b; copies := copies s; reqs := reqs s ++ option_list o; rsps := rsps s |}
| step_commit s b :
    runTask (master s) = Some b →
    sys_step s {| master := b; copies := copies s; reqs := reqs s; rsps := rsps s |}
| step_commit_copy s id c c' :
    copies s !! id = Some c → runTask c = Some c' →
    sys_step s {| master := master s; copies := <[id := c']> (copies s); reqs := reqs s; rsps := rsps s |}.

(** The same, to be run: message and answer by their number. *)
Inductive event := EvPut (d : list Z) | EvDump (k : nat) (h : conn_head) | EvAnswer (k : nat) | EvCommit | EvCommitCopy (id : Z).

Definition sys_exec (e : event) (s : sys) : option sys :=
  match e with
  | EvPut d =>
      _ ← assert_that (Nat.leb 18 (length d) && (4 + Z.of_nat (length d) <? batch_limit)
                       && (log_next (walog (master s)) <=? log_max));
      '(ms, b) ← appendEntris d (master s);
      Some {| master := b; copies := copies s; reqs := reqs s ++ ms; rsps := rsps s |}
  | EvDump k h =>
      m ← reqs s !! k;
      c ← copies s !! d_peerid m;
      '(r, c) ← handleDump h m c;
      Some {| master := master s; copies := <[d_peerid m := c]> (copies s); reqs := reqs s; rsps := rsps s ++ [r] |}
  | EvAnswer k =>
      r ← rsps s !! k;
      '(o, b) ← rpcHandler r (master s);
      Some {| master := b; copies := copies s; reqs := reqs s ++ option_list o; rsps := rsps s |}
  | EvCommit =>
      b ← runTask (master s);
      Some {| master := b; copies := copies s; reqs := reqs s; rsps := rsps s |}
  | EvCommitCopy id =>
      c ← copies s !! id;
      c ← runTask c;
      Some {| master := master s; copies := <[id := c]> (copies s); reqs := reqs s; rsps := rsps s |}
  end.

Fixpoint sys_run (es : list event) (s : sys) : option sys :=
  match es with
  | [] => Some s
  | e :: es => s ← sys_exec e s; sys_run es s
  end.
End Bucket.
Arguments sys : clear implicits.
