(* ===== verification/WalLog.v ===== *)
(** * The write-ahead log behind a bucket

    [Wal] with no writer waiting is a log as replication uses it: the operations and the laws
    of [Log] hold for any number of files. *)
From S2P Require Import Prelude Wal WalSpec Replication.

Section WalLog.
Context (md5 : list Z → list Z) (iter : gmap Z Z → list (Z * Z)).

Definition wal_log : Log wal := {|
  log_append d w := '(_, w) ← appendLog md5 iter d w; Some w;
  log_next := nextIdx;
  log_last := lastIdx;
  log_entries := logEntries md5;
  log_entry := entryAt md5;
  log_writeAt := writeAt md5 iter |}.

(** The log holds [ds] and nobody waits. *)
Definition wal_is (ds : list (list Z)) (w : wal) : Prop :=
  wal_inv md5 iter ds {| st_wal := w; st_batch := None |} ∧ writers w = [].

Lemma wal_is_fields ds w :
  wal_is ds w →
  startIdx w = 1 ∧ lastIdx w = Z.of_nat (length ds) ∧ nextIdx w = Z.of_nat (length ds) + 1 ∧ nextIdx w < 2 ^ 63.
Proof using Type.
  intros [(cl & t0 & op & rest & n & Hs & Hop & -> & Hst & Hl & Hn & H63 & Hq & Hnl & Hw & ->) Hwr].
  cbn [st_wal st_batch] in *. rewrite Hwr, Nat.sub_0_r, drop_app_length in Hq.
  apply (f_equal length) in Hq. unfold numbered in Hq. rewrite length_imap in Hq. symmetry in Hq.
  apply nil_length_inv in Hq as ->. rewrite app_nil_r in *. done.
Qed.

Lemma wal_append ds w d :
  wal_is ds w → entry_fits d → Z.of_nat (length ds) < log_max →
  ∃ w', appendLog md5 iter d w = Some (0, w') ∧ wal_is (ds ++ [d]) w'.
Proof using Type.
  intros Hw Hd Hmax. pose proof (wal_is_fields ds w Hw) as (_ & _ & Hn & _). destruct Hw as [Hinv Hq].
  unfold log_max, entry_fits in *.
  assert (Hwait : waiting (enqueue d w) < batch_limit).
  { rewrite waiting_total. cbn [enqueue writers]. rewrite Hq. cbn. rewrite total_cons. unfold total. simpl. lia. }
  assert (Hinv1 : wal_inv md5 iter (ds ++ [d]) {| st_wal := enqueue d w; st_batch := None |})
    by (apply enqueue_inv; [done|done|lia]).
  destruct (write_inv md5 iter (ds ++ [d]) (enqueue d w)) as (w' & Hw' & Hinv2); [done|cbn; by destruct (writers w)|].
  unfold appendLog. rewrite Hw', bind_Some_eq. eexists. split; [done|]. split; [|done].
  assert (Hlen : length (writers w') = length (writers (enqueue d w))).
  { destruct Hinv2 as (cl & t0 & op & rest & n & _ & _ & Hds & _ & Hl' & Hn' & _ & Hq' & Hnl & _ & Hb).
    cbn [st_wal st_batch] in *. destruct Hinv1 as (cl1 & t1 & op1 & rest1 & n1 & _ & _ & Hds1 & _ & _ & Hn1 & _).
    rewrite Hq'. unfold numbered. rewrite length_imap, length_drop. cbn [enqueue writers]. rewrite Hq. simpl.
    cbn [enqueue writers length] in Hb. rewrite Hq in Hb. simpl in Hb. subst n.
    assert (Hge : (length (mjoin cl.*2 ++ op) <= length (ds ++ [d]))%nat) by (rewrite Hds, (length_app _ rest); lia).
    assert (Hall : (length (ds ++ [d]) <= length (mjoin cl.*2 ++ op))%nat); [|lia].
    clear -Hw' Hq Hl' Hn. unfold writeBatch in Hw'. cbn [enqueue writers] in Hw'.
    rewrite Hq in Hw'. cbn [app list.last] in Hw'. rewrite bind_Some_eq in Hw'.
    destruct (buildBatchGroup _ _) as [[batch w1]|]; [|done]. cbn in Hw'.
    destruct (writeFile _ _) as [w2|]; [|done]. cbn in Hw'. destruct (rotate _ _ _ _) as [w3|]; [|done]. cbn in Hw'.
    injection Hw' as <-. cbn [set_last lastIdx fst] in Hl'. rewrite (length_app ds). simpl. lia. }
  pose proof (dequeue_inv md5 iter _ _ _ Hinv2) as Hinv3.
  rewrite drop_ge in Hinv3 by lia. done.
Qed.

#[global] Instance wal_log_laws : @LogLaws wal wal_log wal_is.
Proof using Type.
  split; cbn [wal_log log_append log_next log_last log_entries log_entry log_writeAt].
  - intros ds w d Hw Hd Hmax. destruct (wal_append ds w d Hw Hd Hmax) as (w' & -> & Hw'). by exists w'.
  - intros ds w Hw. apply (wal_is_fields ds w Hw).
  - intros ds w Hw. apply (wal_is_fields ds w Hw).
  - intros ds w Hw. pose proof (wal_is_fields ds w Hw). unfold log_max. lia.
  - intros ds w a Hw Ha. pose proof (wal_is_fields ds w Hw) as (Hs & Hl & _). destruct Hw as [Hinv _].
    destruct (wal_inv_find md5 iter ds _ a Hinv) as (_ & have & t & es & e & Hf & [x ->] & Hl'); cbn [st_wal] in *; [lia|].
    pose proof (if_range _ _ _ _ _ _ Hf) as Hr.
    assert (x = []) as -> by (apply nil_length_inv; rewrite length_app in *; lia). rewrite app_nil_r in *.
    exists (Z.to_nat (Z.min (Z.of_nat (length have)) (t + Z.of_nat (length es) - 1) - a + 1)).
    rewrite length_drop. split_and!; [lia|lia|].
    apply (logEntries_found md5 w have a _ t es e); [done|lia|lia|lia].
  - intros ds w Hw. unfold logEntries. rewrite (proj2 (Z.ltb_lt _ _)) by lia. done.
  - intros ds w k d Hw Hd. pose proof (wal_is_fields ds w Hw) as (_ & Hl & _). destruct Hw as [Hinv _].
    apply (wal_inv_read md5 iter ds {| st_wal := w; st_batch := None |}); [done|done|].
    apply lookup_lt_Some in Hd. cbn [st_wal]. lia.
  - intros ds w i Hw Hi. pose proof (wal_is_fields ds w Hw) as (_ & Hl & _). unfold entryAt.
    by rewrite (proj2 (Z.ltb_lt (lastIdx w) i)), orb_true_r by lia.
  - intros ds w d w' Hw Ha. pose proof (wal_is_fields ds w Hw) as (_ & _ & Hn & _). unfold writeAt.
    rewrite <- Hn, Z.ltb_irrefl, bind_Some_eq. destruct (appendLog md5 iter d w) as [[r w1]|]; [|done].
    cbn in Ha. injection Ha as <-. done.
Qed.

(** A log that was just opened on its files. *)
Lemma wal_is_empty : wal_is [] emptyLog.
Proof using Type. split; [apply emptyLog_inv|done]. Qed.
End WalLog.
