(* ===== verification/ReplicationSpec.v ===== *)
(** * Replication keeps the copies of a bucket equal

    Whatever happens to the messages between the master of a bucket and its copies, the log
    of a copy is a beginning of the master's, up to the 18 bytes of an entry that name the
    connection of the put; what the master hands to the engine is in the log of a copy. *)
From S2P Require Import Prelude Buffers Wal WalSpec Replication WalLog.

(** ** Entries without their connection *)

Definition body (d : list Z) : list Z := drop 18 d.

Lemma poke_next a m l off :
  off = Z.of_nat (length a) → (length l <= length m)%nat → poke (a ++ m) off l = Some ((a ++ l) ++ drop (length l) m).
Proof.
  intros -> Hl. unfold poke. rewrite length_app, !(proj2 (Z.leb_le _ _)) by lia. cbn [andb]. f_equal.
  rewrite Nat2Z.id, take_app_length, <- app_assoc. do 2 f_equal. rewrite drop_app_ge by lia. f_equal. lia.
Qed.

Lemma fillHead_ok h e :
  (18 <= length e)%nat → ∃ e', fillHead h e = Some e' ∧ length e' = length e ∧ body e' = body e.
Proof.
  intros He. unfold fillHead, fillInt32, fillInt16.
  rewrite (poke_next [] e), bind_Some_eq by (rewrite ?length_be_bytes; simpl; lia).
  do 4 (rewrite (poke_next _ (drop _ _)) by (rewrite ?length_app, ?length_drop, ?length_be_bytes; simpl; lia);
    rewrite ?bind_Some_eq).
  rewrite !length_be_bytes, !drop_drop. eexists. split; [done|].
  split; [|unfold body; rewrite drop_app_length' by (rewrite !length_app, !length_be_bytes; done); done].
  rewrite !length_app, !length_be_bytes, length_drop. simpl. lia.
Qed.

(** ** Buckets over a log that keeps its laws *)

Section Spec.
Context {L : Type} `{HL : Log L} (log_is : list (list Z) → L → Prop) `{HLL : !LogLaws L log_is}.
Abbreviation bucket := (bucket L).
Abbreviation sys := (sys L).

(** No entry is handed to the engine before all in front of it. *)
Definition in_order (l : list (Z * list Z)) : Prop :=
  ∀ l1 i d l2, l = l1 ++ (i, d) :: l2 → ∀ j, 1 <= j < i → j ∈ l1.*1.

(** What holds of a bucket with log [ds]; [ok] of every index that is committed. *)
Record bucket_ok (ok : Z → Prop) (ds : list (list Z)) (b : bucket) : Prop := {
  bo_log : log_is ds (walog b);
  bo_quick : 0 <= quickCommitIdx b ∧ ∀ j, 1 <= j <= quickCommitIdx b → j ∈ (delivered b).*1;
  bo_tasks : ∀ i, i ∈ tasks b → 0 < i ∧ ∀ j, 1 <= j <= i → ok j;
  bo_order : in_order (delivered b);
  bo_delivered : ∀ i d, (i, d) ∈ delivered b →
    ok i ∧ ∃ k x, i = Z.of_nat k + 1 ∧ ds !! k = Some x ∧ d = entry x }.

(** Entry [k] of a log as it is handed over, for the indexes from [i] on. *)
Definition handed (i : Z) (n : nat) (ds : list (list Z)) : list (Z * list Z) :=
  numbered i (entry <$> take n (drop (Z.to_nat (i - 1)) ds)).

Lemma handed_S i n ds x :
  1 <= i → ds !! Z.to_nat (i - 1) = Some x → handed i (S n) ds = (i, entry x) :: handed (i + 1) n ds.
Proof using Type.
  intros Hi Hx. unfold handed. rewrite (drop_lookup_cons _ _ _ Hx). cbn [take]. rewrite fmap_cons, numbered_cons.
  do 4 f_equal. f_equal. lia.
Qed.

Lemma handed_elem i n ds j d :
  1 <= i → (j, d) ∈ handed i n ds →
  i <= j < i + Z.of_nat n ∧ ∃ k x, j = Z.of_nat k + 1 ∧ ds !! k = Some x ∧ d = entry x.
Proof using Type.
  intros Hi Hin. unfold handed, numbered in Hin. apply list_elem_of_lookup in Hin as [p Hp].
  rewrite list_lookup_imap, list_lookup_fmap in Hp.
  destruct (take n (drop (Z.to_nat (i - 1)) ds) !! p) as [x|] eqn:Hx; [|done]. simpl in Hp. injection Hp as <- <-.
  pose proof (lookup_lt_Some _ _ _ Hx) as Hlt. rewrite length_take in Hlt. split; [lia|].
  exists (Z.to_nat (i - 1) + p)%nat, x. rewrite lookup_take_lt, lookup_drop in Hx by lia. split_and!; [lia|done|done].
Qed.

Lemma handed_keys i n ds :
  1 <= i → i + Z.of_nat n <= Z.of_nat (length ds) + 1 → (handed i n ds).*1 = seqZ i (Z.of_nat n).
Proof using Type.
  intros Hi Hn. unfold handed. rewrite numbered_seqs, length_fmap, length_take, length_drop.
  replace (n `min` (length ds - Z.to_nat (i - 1)))%nat with n by lia. unfold seqZ. rewrite Nat2Z.id.
  apply list_fmap_ext. intros; lia.
Qed.

Definition handOver (l : list (Z * list Z)) (b : bucket) : bucket :=
  Build_bucket (bucketNo b) (walog b) (quickCommitIdx b) (peers b) (role b) (tasks b) (delivered b ++ l).

Lemma commitLoop_ok ds n i b :
  log_is ds (walog b) → 1 <= i → i + Z.of_nat n <= Z.of_nat (length ds) + 1 →
  commitLoop n i b = Some (handOver (handed i n ds) b).
Proof using HLL.
  revert i b. induction n as [|n IH]; intros i b Hl Hi Hn.
  { destruct b. unfold handOver, handed. simpl. by rewrite app_nil_r. }
  destruct (lookup_lt_is_Some_2 ds (Z.to_nat (i - 1))) as [x Hx]; [lia|].
  cbn [commitLoop]. replace i with (Z.of_nat (Z.to_nat (i - 1)) + 1) at 1 by lia.
  rewrite (log_entry_ok ds _ _ x Hl Hx), bind_Some_eq. cbv beta iota. rewrite bind_Some_eq, IH by (done || lia).
  rewrite (handed_S i n ds x) by done. unfold handOver, deliver, set_walog. cbn. by rewrite <- app_assoc.
Qed.

(** A commit past the end of the log hands over a null pointer. *)
Lemma commitLoop_past ds n i b :
  log_is ds (walog b) → 1 <= i <= Z.of_nat (length ds) + 1 → Z.of_nat (length ds) + 1 < i + Z.of_nat n →
  commitLoop n i b = None.
Proof using HLL.
  revert i b. induction n as [|n IH]; intros i b Hl Hi Hn; [lia|]. cbn [commitLoop].
  destruct (decide (i = Z.of_nat (length ds) + 1)) as [->|Hne].
  - rewrite (log_entry_none ds) by (done || lia). done.
  - destruct (lookup_lt_is_Some_2 ds (Z.to_nat (i - 1))) as [x Hx]; [lia|].
    replace i with (Z.of_nat (Z.to_nat (i - 1)) + 1) at 1 by lia.
    rewrite (log_entry_ok ds _ _ x Hl Hx), bind_Some_eq. cbv beta iota. rewrite bind_Some_eq. apply IH; [done|lia|lia].
Qed.

Lemma in_order_app l l' i n :
  in_order l → (∀ j, 1 <= j < i → j ∈ l.*1) → l'.*1 = seqZ i n → in_order (l ++ l').
Proof using Type.
  intros Hl Hi Hk l1 k d l2 Heq j Hj. apply app_eq_inv in Heq as [(m & -> & E)|(m & -> & E)].
  - destruct m as [|[k' d'] m].
    + rewrite app_nil_r in *. simpl in E. subst l'. simpl in Hk.
      destruct (decide (0 < n)) as [Hn|Hn].
      * rewrite seqZ_cons in Hk by lia. injection Hk as -> _. apply Hi. lia.
      * rewrite seqZ_nil in Hk by lia. done.
    + simpl in E. injection E as -> -> _. by apply (Hl l1 k' d' m).
  - subst l'. rewrite fmap_app in Hk. simpl in Hk. rewrite fmap_app, elem_of_app.
    assert (Hlk : seqZ i n !! length m.*1 = Some k) by (rewrite <- Hk; by apply list_lookup_middle).
    apply lookup_seqZ in Hlk as [-> Hlen]. destruct (decide (j < i)) as [Hlt|Hge]; [left; apply Hi; lia|right].
    assert (Hlj : seqZ i n !! Z.to_nat (j - i) = Some j) by (apply lookup_seqZ; lia).
    rewrite <- Hk, lookup_app_l in Hlj by lia. by apply list_elem_of_lookup_2 in Hlj.
Qed.

(** The task at the front, when the log reaches that far. *)
Lemma runTask_ok ok ds b idx ts :
  bucket_ok ok ds b → tasks b = idx :: ts → idx <= Z.of_nat (length ds) →
  ∃ b', runTask b = Some b' ∧ bucket_ok ok ds b' ∧ walog b' = walog b ∧ peers b' = peers b ∧ role b' = role b ∧
    bucketNo b' = bucketNo b.
Proof using HLL.
  intros [Hl [Hq Hqd] Ht Ho Hd] Htk Hidx. unfold runTask. rewrite Htk. set (q := quickCommitIdx b) in *.
  set (n := Z.to_nat (idx - q)). destruct (Ht idx) as [Hpos Hok]; [rewrite Htk; by left|].
  destruct (decide (q < idx)) as [Hlt|Hge].
  - rewrite (commitLoop_ok ds) by (first [done|lia]). rewrite bind_Some_eq.
    assert (Hk : (handed (q + 1) n ds).*1 = seqZ (q + 1) (Z.of_nat n)) by (apply handed_keys; lia).
    eexists. split; [done|]. split; [|done].
    split; cbn [set_quick handOver set_tasks walog quickCommitIdx tasks delivered]; try done.
    + split; [lia|]. intros j Hj. rewrite fmap_app, elem_of_app.
      destruct (decide (j <= q)); [left; apply Hqd; lia|right]. rewrite Hk, elem_of_seqZ. lia.
    + intros i Hi. apply Ht. rewrite Htk. by right.
    + apply (in_order_app _ _ (q + 1) (Z.of_nat n)); [done| |done]. intros j Hj. apply Hqd. lia.
    + intros i d [Hin|Hin]%elem_of_app; [by apply Hd|]. apply handed_elem in Hin as [Hr Hx]; [|lia].
      split; [apply Hok; lia|done].
  - replace n with 0%nat by lia. cbn [commitLoop]. rewrite bind_Some_eq. eexists. split; [done|]. split; [|done].
    split; cbn [set_quick set_tasks walog quickCommitIdx tasks delivered]; try done.
    + split; [lia|]. intros j Hj. apply Hqd. lia.
    + intros i Hi. apply Ht. rewrite Htk. by right.
Qed.

Lemma bucket_quick ok ds b : bucket_ok ok ds b → quickCommitIdx b <= Z.of_nat (length ds).
Proof using Type.
  intros [_ [Hq Hqd] _ _ Hd]. destruct (decide (quickCommitIdx b = 0)) as [->|Hne]; [lia|].
  assert (Hin : quickCommitIdx b ∈ (delivered b).*1) by (apply Hqd; lia).
  apply list_elem_of_fmap in Hin as ([i d] & Hi & Hin). simpl in Hi.
  destruct (Hd _ _ Hin) as (_ & k & x & -> & Hx & _). apply lookup_lt_Some in Hx. lia.
Qed.

Lemma runTask_inv ok ds b b' :
  bucket_ok ok ds b → runTask b = Some b' →
  bucket_ok ok ds b' ∧ walog b' = walog b ∧ peers b' = peers b ∧ role b' = role b ∧ bucketNo b' = bucketNo b.
Proof using HLL.
  intros Hb Hrun. destruct (tasks b) as [|idx ts] eqn:Ht; [unfold runTask in Hrun; by rewrite Ht in Hrun|].
  destruct (decide (idx <= Z.of_nat (length ds))) as [Hle|Hgt].
  - destruct (runTask_ok ok ds b idx ts Hb Ht Hle) as (b1 & Hb1 & Hrest). by assert (b1 = b') as -> by congruence.
  - pose proof (bucket_quick _ _ _ Hb) as Hq. pose proof (bo_quick _ _ _ Hb) as [Hq0 _].
    unfold runTask in Hrun. rewrite Ht in Hrun.
    rewrite (commitLoop_past ds) in Hrun; [done|apply (bo_log _ _ _ Hb)|lia|lia].
Qed.

Lemma commit_ok (ok : Z → Prop) ds b idx :
  bucket_ok ok ds b → (∀ j, 1 <= j <= idx → ok j) → bucket_ok ok ds (commit idx b).
Proof using Type.
  intros Hb Hok. unfold commit. destruct (Z.leb_spec idx (quickCommitIdx b)) as [Hle|Hgt]; [done|].
  pose proof (bo_quick _ _ _ Hb) as [Hq _]. destruct Hb as [Hl Hqd Ht Ho Hd]. split; try done.
  intros i [Hi| ->]%elem_of_snoc; [by apply Ht|]. split; [lia|done].
Qed.

Lemma commit_fields (b : bucket) idx :
  walog (commit idx b) = walog b ∧ peers (commit idx b) = peers b ∧ role (commit idx b) = role b ∧
  quickCommitIdx (commit idx b) = quickCommitIdx b ∧ bucketNo (commit idx b) = bucketNo b.
Proof using Type. unfold commit. by destruct (_ <=? _). Qed.

(** ** Messages of the master *)

Definition peer_ok (lds : list (list Z)) (p : peer) : Prop :=
  nextSendIdx p = 0 ∨ 1 <= nextSendIdx p <= Z.of_nat (length lds) + 1.

(** A DUMP carries entries of the master's log from its index on. *)
Definition req_ok (lds : list (list Z)) (m : dump) : Prop :=
  ∃ k, d_nextidx m = Z.of_nat k + 1 ∧ (k <= length lds)%nat ∧ d_entries m `prefix_of` drop k lds.

Record master_ok (ok : Z → Prop) (lds : list (list Z)) (b : bucket) : Prop := {
  mo_bucket : bucket_ok ok lds b;
  mo_peers : map_Forall (λ _ p, peer_ok lds p) (peers b);
  mo_puts : Forall put_ok lds;
  mo_role : role b = leader }.

Lemma drop_entries (ds : list (list Z)) : drop 4 <$> (entry <$> ds) = ds.
Proof using Type.
  rewrite <- list_fmap_compose. rewrite <- (list_fmap_id ds) at 2. apply list_fmap_ext. intros i d _.
  unfold compose, entry. apply (drop_app_length' (be_bytes 4 _)). by rewrite length_be_bytes.
Qed.

(** The message that [requestAppendEntries] builds for a peer at [p]. *)
Definition fresh (lds : list (list Z)) (b : bucket) (id : Z) (p : peer) (m : dump) : Prop :=
  d_nextidx m = nextSendIdx p ∧ d_peerid m = id ∧ d_commitidx m = quickCommitIdx b ∧
  req_ok lds m ∧ (nextSendIdx p <= Z.of_nat (length lds) → d_entries m ≠ []).

Lemma request_ok ok lds b id p :
  master_ok ok lds b → peers b !! id = Some p →
  ∃ m p', requestAppendEntries id b = Some (m, set_peers (<[id := p']> (peers b)) b) ∧
    1 <= nextSendIdx p' <= Z.of_nat (length lds) + 1 ∧ fresh lds b id p' m ∧ (nextSendIdx p ≠ 0 → p' = p).
Proof using HLL.
  intros [Hb Hp _ _] Hid. pose proof (bo_log _ _ _ Hb) as Hl. pose proof (log_max_ok _ _ Hl) as Hmax. unfold log_max in Hmax.
  unfold requestAppendEntries. rewrite Hid, bind_Some_eq, (log_last_ok lds) by done. cbv zeta.
  set (p' := if nextSendIdx p =? 0 then _ else p).
  assert (Hp' : 1 <= nextSendIdx p' <= Z.of_nat (length lds) + 1 ∧ (nextSendIdx p ≠ 0 → p' = p)).
  { unfold p'. destruct (Z.eqb_spec (nextSendIdx p) 0) as [H0|H0].
    - cbn [nextSendIdx]. rewrite u64_id by lia. split; [lia|done].
    - destruct (Hp id p Hid) as [?|?]; [done|]. split; [lia|done]. }
  destruct Hp' as [Hr Hsame]. rewrite (u64_id (nextSendIdx p' - 1)), (u64_id (nextSendIdx p' - 1 + 1)) by lia.
  replace (nextSendIdx p' - 1 + 1) with (nextSendIdx p') by lia.
  assert (Hend : ∀ es, es `prefix_of` drop (Z.to_nat (nextSendIdx p' - 1)) lds →
    (nextSendIdx p' <= Z.of_nat (length lds) → es ≠ []) →
    log_entries (nextSendIdx p') (Z.of_nat (length lds)) (walog b) = Some (entry <$> es, walog b) →
    ∃ m p'', ('(vec, l) ← log_entries (nextSendIdx p') (Z.of_nat (length lds)) (walog b);
      Some ({| d_bucket := bucketNo b; d_peerid := id; d_nextidx := nextSendIdx p';
               d_commitidx := quickCommitIdx b; d_entries := drop 4 <$> vec |},
            set_walog l (set_peers (<[id := p']> (peers b)) b))) = Some (m, set_peers (<[id := p'']> (peers b)) b) ∧
      1 <= nextSendIdx p'' <= Z.of_nat (length lds) + 1 ∧ fresh lds b id p'' m ∧ (nextSendIdx p ≠ 0 → p'' = p)).
  { intros es Hpre Hne ->. rewrite bind_Some_eq. cbv beta iota. rewrite drop_entries. do 2 eexists. split; [done|].
    split; [done|]. split; [|done]. unfold fresh. cbn. split_and!; try done.
    exists (Z.to_nat (nextSendIdx p' - 1)). cbn. split_and!; [lia|lia|done]. }
  destruct (decide (nextSendIdx p' <= Z.of_nat (length lds))) as [Hle|Hgt].
  - destruct (log_entries_ok lds (walog b) (nextSendIdx p') Hl) as (n & Hn & Hnl & He); [lia|].
    apply (Hend (take n (drop (Z.to_nat (nextSendIdx p' - 1)) lds))); [apply prefix_take| |done].
    intros _ Hnil. apply (f_equal length) in Hnil. rewrite length_take in Hnil. simpl in Hnil. lia.
  - apply (Hend []); [apply prefix_nil|lia|]. replace (nextSendIdx p') with (Z.of_nat (length lds) + 1) by lia.
    by apply log_entries_none.
Qed.

Lemma set_peer_ok ok lds b id p :
  master_ok ok lds b → peer_ok lds p → master_ok ok lds (set_peers (<[id := p]> (peers b)) b).
Proof using Type.
  intros [[Hl Hq Ht Ho Hd] Hp Hput Hro] Hpo. split; [by split| |done|done]. by apply map_Forall_insert_2.
Qed.

Lemma requestPeers_ok ok lds ids b :
  master_ok ok lds b → (∀ id, id ∈ ids → is_Some (peers b !! id)) →
  ∃ ms b', requestPeers ids b = Some (ms, b') ∧ master_ok ok lds b' ∧ dom (peers b') = dom (peers b) ∧
    Forall (λ m, req_ok lds m ∧ is_Some (peers b !! d_peerid m)) ms ∧ walog b' = walog b ∧ delivered b' = delivered b.
Proof using HLL.
  revert b. induction ids as [|id ids IH]; intros b Hb Hids; [by exists [], b|].
  destruct (Hids id) as [p Hp]; [by left|]. destruct (request_ok ok lds b id p Hb Hp) as (m & p' & Hm & Hr & Hf & _).
  destruct (IH (set_peers (<[id := p']> (peers b)) b)) as (ms & b' & Hms & Hb' & Hdom & Hall & Hw & Hd').
  - apply set_peer_ok; [done|]. by right.
  - intros j Hj. cbn [peers set_peers]. destruct (Hids j) as [pj Hpj]; [by right|].
    destruct (decide (id = j)) as [->|Hne]; [rewrite lookup_insert_eq; by eexists|].
    rewrite lookup_insert_ne by done. by eexists.
  - cbn [requestPeers]. rewrite Hm, bind_Some_eq. cbv beta iota. rewrite Hms, bind_Some_eq.
    exists (m :: ms), b'. cbn [peers set_peers walog delivered] in *.
    destruct Hf as (_ & Hpid & _ & Hrq & _). split_and!; try done.
    + by rewrite Hdom, dom_insert_lookup_L by (by eexists).
    + constructor; [rewrite Hpid; split; [done|by eexists]|].
      eapply list.Forall_impl; [exact Hall|]. intros m' [Hm' Hin]. split; [done|].
      apply elem_of_dom in Hin. apply elem_of_dom. by rewrite dom_insert_lookup_L in Hin by (by eexists).
Qed.

(** ** Growing logs *)

Lemma bucket_grow (ok ok' : Z → Prop) ds es l' b :
  bucket_ok ok ds b → (∀ i, ok i → ok' i) → log_is (ds ++ es) l' → bucket_ok ok' (ds ++ es) (set_walog l' b).
Proof using Type.
  intros [Hl Hq Ht Ho Hd] Hmono Hl'. split; cbn [set_walog walog quickCommitIdx tasks delivered]; try done.
  - intros i Hi. destruct (Ht i Hi) as [Hpos Hall]. split; [done|]. intros j Hj. apply Hmono, Hall, Hj.
  - intros i d Hin. destruct (Hd i d Hin) as (Hok & k & x & -> & Hx & ->). split; [by apply Hmono|].
    exists k, x. split_and!; [done|by apply lookup_app_l_Some|done].
Qed.

Lemma bucket_mono (ok ok' : Z → Prop) ds b : bucket_ok ok ds b → (∀ i, ok i → ok' i) → bucket_ok ok' ds b.
Proof using Type.
  intros Hb Hmono. pose proof (bucket_grow ok ok' ds [] (walog b) b Hb Hmono) as H.
  rewrite app_nil_r in H. destruct b. apply H, (bo_log _ _ _ Hb).
Qed.

Lemma drop_prefix_grow (k : nat) (es lds ls : list (list Z)) :
  es `prefix_of` drop k lds → (k <= length lds)%nat → es `prefix_of` drop k (lds ++ ls).
Proof using Type. intros Hp Hk. rewrite drop_app_le by done. by apply prefix_app_r. Qed.

Lemma req_grow lds ls m : req_ok lds m → req_ok (lds ++ ls) m.
Proof using Type.
  intros (k & Hk & Hle & Hp). exists k. rewrite length_app. split_and!; [done|lia|by apply drop_prefix_grow].
Qed.

Lemma append_ok ok lds b d :
  master_ok ok lds b → put_ok d → log_next (walog b) <= log_max →
  ∃ ms b', appendEntris d b = Some (ms, b') ∧ master_ok ok (lds ++ [d]) b' ∧ dom (peers b') = dom (peers b) ∧
    Forall (λ m, req_ok (lds ++ [d]) m ∧ is_Some (peers b !! d_peerid m)) ms.
Proof using HLL.
  intros [Hb Hp Hputs Hro] Hd Hmax. pose proof (bo_log _ _ _ Hb) as Hl. rewrite (log_next_ok lds) in Hmax by done.
  destruct (log_append_ok lds (walog b) d Hl) as (l' & Ha & Hl'); [apply Hd|lia|].
  unfold appendEntris. rewrite Ha, bind_Some_eq. unfold requestAll.
  destruct (requestPeers_ok ok (lds ++ [d]) (elements (dom (peers (set_walog l' b)))) (set_walog l' b))
    as (ms & b' & Hms & Hb' & Hdom & Hall & _).
  - split; [by apply (bucket_grow ok)| |by apply Forall_app; rewrite Forall_singleton|done].
    cbn [peers set_walog]. eapply map_Forall_impl; [done|]. intros i p. unfold peer_ok. rewrite length_app. simpl. lia.
  - intros id Hid. by apply elem_of_dom, elem_of_elements.
  - exists ms, b'. by rewrite Hms.
Qed.

(** ** DUMP at a copy *)

Lemma writeEntries_ok h nextidx es idx ds l b :
  log_is ds l → walog b = l → nextidx + idx = Z.of_nat (length ds) + 1 → Forall put_ok es →
  Z.of_nat (length ds + length es) <= log_max →
  ∃ es' l', writeEntries h nextidx idx es b = Some (set_walog l' b) ∧ log_is (ds ++ es') l' ∧
    body <$> es' = body <$> es ∧ length es' = length es.
Proof using HLL.
  revert idx ds l b. induction es as [|e es IH]; intros idx ds l b Hl Hw Hi Hes Hmax.
  { exists [], l. rewrite app_nil_r. destruct b. cbn in Hw. by subst. }
  apply list.Forall_cons in Hes as [[He Hfit] Hes]. destruct (fillHead_ok h e He) as (e' & Hf & Hlen & Hbody).
  destruct (log_append_ok ds l e') as (l1 & Ha & Hl1); [done|unfold entry_fits in *; lia|simpl in Hmax; lia|].
  cbn [writeEntries]. rewrite Hf, bind_Some_eq, Hw, Hi, (log_writeAt_ok ds l e' l1) by done.
  rewrite bind_Some_eq. cbv beta iota.
  destruct (IH (idx + 1) (ds ++ [e']) l1 (set_walog l1 b)) as (es' & l' & Hwr & Hl' & Hb' & Hlen').
  - done.
  - done.
  - rewrite length_app. simpl. lia.
  - done.
  - rewrite length_app. simpl in *. lia.
  - exists (e' :: es'), l'. rewrite Hwr, <- app_assoc in *. split_and!; [done|done| |simpl; by rewrite Hlen'].
    rewrite !fmap_cons. by rewrite Hbody, Hb'.
Qed.

Lemma prefix_extend (ds es lds : list (list Z)) :
  body <$> ds `prefix_of` body <$> lds → es `prefix_of` drop (length ds) lds →
  body <$> (ds ++ es) `prefix_of` body <$> lds.
Proof using Type.
  intros [x Hx] [y Hy]. rewrite fmap_app. rewrite <- (take_drop (length ds) lds), fmap_app, Hy, fmap_app.
  exists (body <$> y). rewrite <- app_assoc. f_equal. rewrite fmap_take, Hx.
  by rewrite take_app_length' by (by rewrite length_fmap).
Qed.

(** A copy answers every message, and its log stays a beginning of the master's. *)
Lemma handleDump_ok h lds m ds c :
  bucket_ok (λ _, True) ds c → body <$> ds `prefix_of` body <$> lds → req_ok lds m → Forall put_ok lds →
  Z.of_nat (length lds) <= log_max →
  ∃ r c' es, handleDump h m c = Some (r, c') ∧ bucket_ok (λ _, True) (ds ++ es) c' ∧
    body <$> (ds ++ es) `prefix_of` body <$> lds ∧ r_peerid r = d_peerid m ∧
    r_nextidx r = Z.of_nat (length (ds ++ es)) + 1 ∧
    (if decide (d_nextidx m = Z.of_nat (length ds) + 1)
     then r_accept r = true ∧ r_commitidx r = d_commitidx m ∧ length es = length (d_entries m)
     else r_accept r = false ∧ es = []).
Proof using HLL.
  intros Hc Hpre (k & Hk & Hle & Hes) Hputs Hmax. pose proof (bo_log _ _ _ Hc) as Hl.
  unfold handleDump. rewrite (log_next_ok ds) by done. destruct (decide _) as [Heq|Hne].
  2:{ rewrite (proj2 (Z.eqb_neq _ _)) by congruence. cbn [negb]. eexists _, c, []. rewrite app_nil_r.
      split; [done|]. split_and!; done. }
  rewrite (proj2 (Z.eqb_eq _ _)) by done. cbn [negb]. assert (k = length ds) as -> by lia.
  pose proof (prefix_length _ _ Hes) as Hlen. rewrite length_drop in Hlen.
  destruct (writeEntries_ok h (d_nextidx m) (d_entries m) 0 ds (walog c) c) as (es' & l' & Hw & Hl' & Hb' & Hlen').
  - done.
  - done.
  - lia.
  - destruct Hes as [y Hy]. apply (list.Forall_app put_ok (d_entries m) y). rewrite <- Hy. by apply Forall_drop.
  - lia.
  - rewrite Hw, bind_Some_eq. eexists _, _, es'. split; [done|]. cbn. split_and!; try done.
    + apply commit_ok; [|done]. by apply (bucket_grow (λ _, True)).
    + pose proof (prefix_extend ds (d_entries m) lds Hpre Hes) as Hp. by rewrite fmap_app, Hb', <- fmap_app.
    + unfold log_max in Hmax. rewrite length_app, Hlen', u64_id; lia.
Qed.

(** ** Every reachable state *)

(** Index [i] is in the log of a copy. *)
Definition confirmed (fds : gmap Z (list (list Z))) (i : Z) : Prop :=
  ∃ id ds, fds !! id = Some ds ∧ i <= Z.of_nat (length ds).

Definition rsp_ok (fds : gmap Z (list (list Z))) (r : dump_return) : Prop :=
  1 <= r_nextidx r ∧ ∃ ds, fds !! r_peerid r = Some ds ∧ r_nextidx r <= Z.of_nat (length ds) + 1.

(** [lds] is the log of the master, [fds] has those of the copies. *)
Record sys_inv (lds : list (list Z)) (fds : gmap Z (list (list Z))) (s : sys) : Prop := {
  iv_master : master_ok (confirmed fds) lds (master s);
  iv_dom : dom (peers (master s)) = dom (copies s) ∧ dom fds = dom (copies s);
  iv_copies : ∀ id c ds, copies s !! id = Some c → fds !! id = Some ds →
    bucket_ok (λ _, True) ds c ∧ body <$> ds `prefix_of` body <$> lds;
  iv_reqs : Forall (λ m, req_ok lds m ∧ d_peerid m ∈ dom (copies s)) (reqs s);
  iv_rsps : Forall (rsp_ok fds) (rsps s) }.

Lemma inv_copy lds fds s id : sys_inv lds fds s → id ∈ dom (copies s) → ∃ c ds, copies s !! id = Some c ∧ fds !! id = Some ds.
Proof using Type.
  intros [_ [_ Hd] _ _ _] Hid. pose proof Hid as [c Hc]%elem_of_dom. rewrite <- Hd in Hid.
  apply elem_of_dom in Hid as [ds Hds]. by exists c, ds.
Qed.

Lemma inv_room lds fds s : sys_inv lds fds s → Z.of_nat (length lds) <= log_max.
Proof using HLL. intros [[Hb _ _ _] _ _ _ _]. apply (log_max_ok lds (walog (master s))), (bo_log _ _ _ Hb). Qed.

Lemma copy_length (ds lds : list (list Z)) :
  body <$> ds `prefix_of` body <$> lds → (length ds <= length lds)%nat.
Proof using Type. intros H%prefix_length. by rewrite !length_fmap in H. Qed.

Lemma confirmed_le lds fds s i : sys_inv lds fds s → confirmed fds i → i <= Z.of_nat (length lds).
Proof using Type.
  intros Hinv (id & ds & Hds & Hi). pose proof Hinv as [_ [_ Hd] Hc _ _].
  destruct (inv_copy lds fds s id Hinv) as (c & ds' & Hid & Hds'); [rewrite <- Hd; by eapply elem_of_dom_2|].
  destruct (Hc id c ds Hid Hds) as [_ Hp]. apply copy_length in Hp. lia.
Qed.

(** A put. *)
Lemma put_inv lds fds s d :
  sys_inv lds fds s → put_ok d → log_next (walog (master s)) <= log_max →
  ∃ ms b, appendEntris d (master s) = Some (ms, b) ∧
    sys_inv (lds ++ [d]) fds {| master := b; copies := copies s; reqs := reqs s ++ ms; rsps := rsps s |}.
Proof using HLL.
  intros [Hm [Hd1 Hd2] Hc Hrq Hrs] Hput Hmax. destruct (append_ok _ _ _ _ Hm Hput Hmax) as (ms & b & Ha & Hb & Hdom & Hall).
  exists ms, b. split; [done|]. split; cbn [master copies reqs rsps]; try done.
  - split; [congruence|done].
  - intros id c ds Hid Hds. destruct (Hc id c ds Hid Hds) as [Hbo Hp]. split; [done|]. rewrite fmap_app. by apply prefix_app_r.
  - apply Forall_app. split.
    + eapply list.Forall_impl; [exact Hrq|]. intros m [Hr Hin]. split; [by apply req_grow|done].
    + eapply list.Forall_impl; [exact Hall|]. intros m [Hr Hin]. split; [done|]. rewrite <- Hd1. by apply elem_of_dom.
Qed.

Lemma confirmed_grow fds id ds es i :
  fds !! id = Some ds → confirmed fds i → confirmed (<[id := ds ++ es]> fds) i.
Proof using Type.
  intros Hid (j & ds' & Hj & Hi). destruct (decide (id = j)) as [->|Hne].
  - exists j, (ds ++ es). rewrite lookup_insert_eq, length_app. split; [done|]. assert (ds' = ds) as -> by congruence. lia.
  - exists j, ds'. by rewrite lookup_insert_ne.
Qed.

Lemma rsp_grow fds id ds es r : fds !! id = Some ds → rsp_ok fds r → rsp_ok (<[id := ds ++ es]> fds) r.
Proof using Type.
  intros Hid (H1 & ds' & Hj & Hi). split; [done|]. destruct (decide (id = r_peerid r)) as [->|Hne].
  - exists (ds ++ es). rewrite lookup_insert_eq, length_app. split; [done|]. assert (ds' = ds) as -> by congruence. lia.
  - exists ds'. by rewrite lookup_insert_ne.
Qed.

Lemma master_mono (ok ok' : Z → Prop) lds b : master_ok ok lds b → (∀ i, ok i → ok' i) → master_ok ok' lds b.
Proof using Type. intros [Hb Hp Hput Hr] Hm. split; try done. by apply (bucket_mono ok). Qed.

(** A copy gets a message. *)
Lemma dump_inv lds fds s m h c ds :
  sys_inv lds fds s → req_ok lds m → copies s !! d_peerid m = Some c → fds !! d_peerid m = Some ds →
  ∃ r c' es, handleDump h m c = Some (r, c') ∧ rsp_ok (<[d_peerid m := ds ++ es]> fds) r ∧ r_peerid r = d_peerid m ∧
    r_nextidx r = Z.of_nat (length (ds ++ es)) + 1 ∧
    (if decide (d_nextidx m = Z.of_nat (length ds) + 1)
     then r_accept r = true ∧ r_commitidx r = d_commitidx m ∧ length es = length (d_entries m)
     else r_accept r = false ∧ es = []) ∧
    sys_inv lds (<[d_peerid m := ds ++ es]> fds)
      {| master := master s; copies := <[d_peerid m := c']> (copies s); reqs := reqs s; rsps := rsps s ++ [r] |}.
Proof using HLL.
  intros Hinv Hm Hid Hds. pose proof (inv_room _ _ _ Hinv) as Hmax. destruct Hinv as [Hms [Hd1 Hd2] Hc Hrq Hrs].
  destruct (Hc _ c ds Hid Hds) as [Hbo Hp].
  destruct (handleDump_ok h lds m ds c) as (r & c' & es & Hr & Hc' & Hp' & Hpid & Hn & Hcase); try done.
  { apply Hms. }
  assert (Hro : rsp_ok (<[d_peerid m := ds ++ es]> fds) r).
  { split; [lia|]. exists (ds ++ es). rewrite Hpid, lookup_insert_eq. split; [done|lia]. }
  exists r, c', es. split_and!; try done. split; cbn [master copies reqs rsps].
  - apply (master_mono (confirmed fds)); [done|]. intros i. by apply confirmed_grow.
  - rewrite !dom_insert_lookup_L by (by eexists). by split.
  - intros id c1 ds1. destruct (decide (d_peerid m = id)) as [<-|Hne].
    + rewrite !lookup_insert_eq. intros [= <-] [= <-]. by split.
    + rewrite !lookup_insert_ne by done. by apply Hc.
  - eapply list.Forall_impl; [exact Hrq|]. intros m' [Hr' Hin]. split; [done|].
    by rewrite dom_insert_lookup_L by (by eexists).
  - apply Forall_app. rewrite Forall_singleton. split; [|done].
    eapply list.Forall_impl; [exact Hrs|]. intros r'. by apply rsp_grow.
Qed.

(** The master gets an answer: the peer is where the answer says, an accepted index is
    committed, and a copy that is behind gets the next message. *)
Definition answered (r : dump_return) (b : bucket) : bucket :=
  let b := set_peers (<[r_peerid r := {| nextSendIdx := r_nextidx r |}]> (peers b)) b in
  if r_accept r then commit (r_nextidx r - 1) b else b.

Lemma answered_ok lds fds s r :
  sys_inv lds fds s → rsp_ok fds r → master_ok (confirmed fds) lds (answered r (master s)) ∧
    peers (answered r (master s)) = <[r_peerid r := {| nextSendIdx := r_nextidx r |}]> (peers (master s)) ∧
    walog (answered r (master s)) = walog (master s) ∧ role (answered r (master s)) = leader ∧
    1 <= r_nextidx r <= Z.of_nat (length lds) + 1.
Proof using HLL.
  intros Hinv (H1 & ds & Hds & Hn). set (b := set_peers (<[r_peerid r := {| nextSendIdx := r_nextidx r |}]> (peers (master s))) (master s)).
  assert (Hle : r_nextidx r - 1 <= Z.of_nat (length lds)).
  { apply (confirmed_le lds fds s); [done|]. exists (r_peerid r), ds. split; [done|lia]. }
  assert (Hb : master_ok (confirmed fds) lds b) by (apply set_peer_ok; [apply Hinv|right; cbn; lia]).
  unfold answered. fold b. destruct (commit_fields b (r_nextidx r - 1)) as (Hw & Hp & Hr & _).
  destruct (r_accept r); [rewrite Hw, Hp, Hr|]; (split; [|split_and!; [done|done|apply Hb|lia|lia]]); [|done].
  destruct Hb as [Hbo Hpe Hput Hro]. split; [|by rewrite Hp|done|by rewrite Hr].
  apply commit_ok; [done|]. intros j Hj. exists (r_peerid r), ds. split; [done|lia].
Qed.

Lemma answer_inv lds fds s r :
  sys_inv lds fds s → rsp_ok fds r →
  ∃ o b, rpcHandler r (master s) = Some (o, b) ∧
    b = answered r (master s) ∧
    (if r_accept r && negb (r_nextidx r <=? Z.of_nat (length lds)) && negb (r_commitidx r <? r_nextidx r - 1)
     then o = None
     else ∃ m, o = Some m ∧ fresh lds (answered r (master s)) (r_peerid r) {| nextSendIdx := r_nextidx r |} m) ∧
    sys_inv lds fds {| master := b; copies := copies s; reqs := reqs s ++ option_list o; rsps := rsps s |}.
Proof using HLL.
  intros Hinv Hr. pose proof (inv_room _ _ _ Hinv) as Hmax. unfold log_max in Hmax.
  destruct (answered_ok lds fds s r Hinv Hr) as (Hb & Hp & Hw & Hro & Hn). pose proof Hinv as [Hm [Hd1 Hd2] Hc Hrq Hrs].
  destruct Hr as (_ & ds & Hds & _). assert (Hin : r_peerid r ∈ dom (copies s)) by (rewrite <- Hd2; by eapply elem_of_dom_2).
  assert (Hpi : is_Some (peers (master s) !! r_peerid r)) by (apply elem_of_dom; by rewrite Hd1).
  destruct Hpi as [p0 Hp0]. unfold rpcHandler. rewrite Hp0, bind_Some_eq. cbv zeta.
  rewrite (u64_id (r_nextidx r - 1)) by lia. fold (answered r (master s)). rewrite Hro.
  cbn [walog set_peers]. rewrite (log_last_ok lds) by apply Hm.
  assert (Hsys : ∀ o, Forall (λ m, req_ok lds m ∧ d_peerid m ∈ dom (copies s)) (option_list o) →
    sys_inv lds fds {| master := answered r (master s); copies := copies s; reqs := reqs s ++ option_list o; rsps := rsps s |}).
  { intros o Ho. split; cbn [master copies reqs rsps]; try done.
    - rewrite Hp, dom_insert_lookup_L by (by eexists). by split.
    - by apply Forall_app. }
  assert (Hneg : negb (r_accept r) || (r_nextidx r <=? Z.of_nat (length lds)) || (r_commitidx r <? r_nextidx r - 1) =
    negb (r_accept r && negb (r_nextidx r <=? Z.of_nat (length lds)) && negb (r_commitidx r <? r_nextidx r - 1)))
    by (by rewrite !negb_andb, !negb_involutive).
  rewrite Hneg. destruct (r_accept r && _ && _); cbn [negb].
  { exists None. eexists. split_and!; [done|done|done|]. by apply Hsys. }
  destruct (request_ok (confirmed fds) lds (answered r (master s)) (r_peerid r) {| nextSendIdx := r_nextidx r |}) as (m & p' & Hrq' & _ & Hf & Hsame).
  { done. }
  { by rewrite Hp, lookup_insert_eq. }
  assert (p' = {| nextSendIdx := r_nextidx r |}) as -> by (apply Hsame; cbn; lia).
  rewrite Hp, insert_insert_eq, <- Hp in Hrq'.
  replace (set_peers (peers (answered r (master s))) (answered r (master s))) with (answered r (master s)) in Hrq'
    by (by destruct (answered r (master s))).
  rewrite Hrq', bind_Some_eq. exists (Some m). eexists. split_and!; [done|done|by exists m|].
  apply Hsys. cbn. apply Forall_singleton. destruct Hf as (_ & -> & _ & Hro' & _). by split.
Qed.

(** A task of the master always runs. *)
Lemma task_inv lds fds s :
  sys_inv lds fds s → tasks (master s) ≠ [] →
  ∃ b, runTask (master s) = Some b ∧
    sys_inv lds fds {| master := b; copies := copies s; reqs := reqs s; rsps := rsps s |}.
Proof using HLL.
  intros Hinv Hne. pose proof Hinv as [[Hb Hp Hput Hro] [Hd1 Hd2] Hc Hrq Hrs].
  destruct (tasks (master s)) as [|idx ts] eqn:Ht; [done|].
  destruct (bo_tasks _ _ _ Hb idx) as [Hpos Hok]; [rewrite Ht; by left|].
  destruct (runTask_ok (confirmed fds) lds (master s) idx ts) as (b & Hrun & Hb' & Hw & Hp' & Hro' & _).
  - done.
  - done.
  - apply (confirmed_le lds fds s); [done|]. apply Hok. lia.
  - exists b. split; [done|]. split; cbn [master copies reqs rsps]; try done; rewrite ?Hp'; [|done].
    split; [done|by rewrite Hp'|done|by rewrite Hro'].
Qed.

Lemma task_copy_inv lds fds s id c c' :
  sys_inv lds fds s → copies s !! id = Some c → runTask c = Some c' →
  sys_inv lds fds {| master := master s; copies := <[id := c']> (copies s); reqs := reqs s; rsps := rsps s |}.
Proof using HLL.
  intros [Hm [Hd1 Hd2] Hc Hrq Hrs] Hid Hrun.
  split; cbn [master copies reqs rsps]; rewrite ?dom_insert_lookup_L by (by eexists); try done.
  intros id1 c1 ds1. destruct (decide (id = id1)) as [<-|Hne].
  - rewrite lookup_insert_eq. intros [= <-] Hds. destruct (Hc id c ds1 Hid Hds) as [Hbo Hp]. split; [|done].
    by apply (runTask_inv _ ds1 c).
  - rewrite lookup_insert_ne by done. by apply Hc.
Qed.

Lemma sys_step_inv lds fds s s' :
  sys_inv lds fds s → sys_step s s' → ∃ lds' fds', sys_inv lds' fds' s' ∧ lds `prefix_of` lds'.
Proof using HLL.
  intros Hinv Hstep. destruct Hstep as [s d ms b Hput Hmax Ha|s m h c c' r Hin Hid Hh|s r o b Hin Hh|s b Hrun|s id c c' Hid Hrun].
  - destruct (put_inv lds fds s d Hinv Hput Hmax) as (ms' & b' & Ha' & Hinv'). simplify_eq.
    exists (lds ++ [d]), fds. split; [done|by apply prefix_app_r].
  - pose proof (iv_reqs _ _ _ Hinv) as Hall. rewrite Forall_forall in Hall. destruct (Hall m) as [Hm Hdm]; [by apply list_elem_of_In|].
    destruct (inv_copy lds fds s _ Hinv Hdm) as (c1 & ds & Hc1 & Hds). simplify_eq.
    destruct (dump_inv lds fds s m h c ds Hinv Hm Hid Hds) as (r' & c1 & es & Hh' & _ & _ & _ & _ & Hinv'). simplify_eq.
    by exists lds, (<[d_peerid m := ds ++ es]> fds).
  - pose proof (iv_rsps _ _ _ Hinv) as Hall. rewrite Forall_forall in Hall.
    destruct (answer_inv lds fds s r Hinv) as (o' & b' & Hh' & _ & _ & Hinv'); [apply Hall; by apply list_elem_of_In|]. simplify_eq.
    by exists lds, fds.
  - destruct (task_inv lds fds s Hinv) as (b' & Hrun' & Hinv').
    { intros Ht. unfold runTask in Hrun. by rewrite Ht in Hrun. }
    simplify_eq. by exists lds, fds.
  - exists lds, fds. split; [by apply (task_copy_inv lds fds s id c)|done].
Qed.

(** ** Starting *)

(** A master with the log [l] and a copy with log [c] for every entry of [cs]. *)
Definition start (no : Z) (l : L) (cs : gmap Z L) : sys :=
  {| master := foldr (λ id b, (addPeer id b).2) (BucketMgr_initial no l) (elements (dom cs));
     copies := BucketMgr_initial no <$> cs; reqs := []; rsps := [] |}.

Definition start_ok (l : L) (cs : gmap Z L) (lds : list (list Z)) : Prop :=
  log_is lds l ∧ Forall put_ok lds ∧
  ∀ id c, cs !! id = Some c → ∃ ds, log_is ds c ∧ body <$> ds `prefix_of` body <$> lds.

Lemma addPeers_fields no (l : L) (ids : list Z) (b := foldr (λ id b, (addPeer id b).2) (BucketMgr_initial no l) ids) :
  walog b = l ∧ quickCommitIdx b = 0 ∧ tasks b = [] ∧ delivered b = [] ∧ role b = leader ∧
  map_Forall (λ _ p, nextSendIdx p = 0) (peers b) ∧ dom (peers b) = list_to_set ids.
Proof using Type.
  subst b. induction ids as [|id ids IH]; [done|]. destruct IH as (Hw & Hq & Ht & Hd & Hr & Hp & Hdom). cbn [foldr].
  set (b := foldr _ _ ids) in *. unfold addPeer. destruct (peers b !! id) as [p|] eqn:Hid; cbn [snd].
  - split_and!; try done. rewrite list_to_set_cons, <- Hdom. apply elem_of_dom_2 in Hid.
    symmetry. apply subseteq_union_1_L. by apply singleton_subseteq_l.
  - cbn [set_peers walog quickCommitIdx tasks delivered role peers]. split_and!; try done.
    + by apply map_Forall_insert_2.
    + by rewrite dom_insert_L, Hdom.
Qed.

Lemma initial_ok ok no ds l : log_is ds l → bucket_ok ok ds (BucketMgr_initial no l).
Proof using Type.
  intros Hl. split; cbn; try done.
  - split; [lia|]. intros j Hj. lia.
  - intros i ?%not_elem_of_nil. done.
  - intros l1 i d l2 Heq. by destruct l1.
  - intros i d ?%not_elem_of_nil. done.
Qed.

(** The logs of the copies, one by one. *)
Lemma choose_logs (cs : gmap Z L) (P : L → list (list Z) → Prop) :
  (∀ id c, cs !! id = Some c → ∃ ds, P c ds) →
  ∃ fds : gmap Z (list (list Z)), dom fds = dom cs ∧ ∀ id c ds, cs !! id = Some c → fds !! id = Some ds → P c ds.
Proof using Type.
  induction cs as [|id c cs Hid IH] using map_ind; intros Hall.
  { exists ∅. split; [by rewrite !dom_empty_L|]. intros id c ds. by rewrite lookup_empty. }
  destruct (Hall id c) as [ds Hds]; [by rewrite lookup_insert_eq|]. destruct IH as (fds & Hdom & Hf).
  { intros j d Hj. apply (Hall j). rewrite lookup_insert_ne; [done|]. congruence. }
  exists (<[id := ds]> fds). split; [by rewrite !dom_insert_L, Hdom|]. intros j d es. destruct (decide (id = j)) as [<-|Hne].
  - rewrite !lookup_insert_eq. by intros [= <-] [= <-].
  - rewrite !lookup_insert_ne by done. apply Hf.
Qed.

Lemma start_inv no l cs lds : start_ok l cs lds → ∃ fds, sys_inv lds fds (start no l cs).
Proof using Type.
  intros (Hl & Hput & Hcs). destruct (choose_logs cs (λ c ds, log_is ds c ∧ body <$> ds `prefix_of` body <$> lds) Hcs) as (fds & Hdom & Hf).
  exists fds. destruct (addPeers_fields no l (elements (dom cs))) as (Hw & Hq & Ht & Hd & Hr & Hp & Hpd).
  unfold start. split; cbn [master copies reqs rsps]; try done.
  - split; [|eapply map_Forall_impl; [exact Hp|]; intros; by left|done|done].
    split; rewrite ?Hw, ?Hq, ?Ht, ?Hd; try done.
    + split; [lia|]. intros j Hj. lia.
    + intros i ?%not_elem_of_nil. done.
    + intros l1 i d l2 Heq. by destruct l1.
    + intros i d ?%not_elem_of_nil. done.
  - rewrite Hpd, list_to_set_elements_L, dom_fmap_L. by split.
  - intros id c ds Hc Hds. rewrite lookup_fmap in Hc. destruct (cs !! id) as [c0|] eqn:Hid; [|done].
    injection Hc as <-. destruct (Hf id c0 ds Hid Hds) as [Hl0 Hp0]. split; [by apply initial_ok|done].
Qed.

Lemma reachable_inv no l cs lds s :
  start_ok l cs lds → rtc sys_step (start no l cs) s → ∃ lds' fds, sys_inv lds' fds s ∧ lds `prefix_of` lds'.
Proof using HLL.
  intros Hst Hr. destruct (start_inv no l cs lds Hst) as [fds Hinv]. clear Hst.
  revert lds fds Hinv. induction Hr as [s|s s1 s2 Hstep _ IH]; intros lds fds Hinv; [by exists lds, fds|].
  destruct (sys_step_inv lds fds s s1 Hinv Hstep) as (lds1 & fds1 & Hinv1 & Hp1).
  destruct (IH lds1 fds1 Hinv1) as (lds2 & fds2 & Hinv2 & Hp2). exists lds2, fds2. split; [done|by etrans].
Qed.

(** C2: replication keeps the copies of a bucket equal.  Start with any log at the master and
    a beginning of it at every copy, and let puts, DUMP messages, answers and commits happen
    in any order, with messages lost, repeated and reordered.  At any time the log of every
    copy is a beginning of the master's log, up to the bytes of the connection, and the
    master's log only grows.  The master hands its entries to the engine in the order of its
    log, and only when the entry is in the log of at least one copy; a copy hands over what
    is in its own log, in order. *)
Theorem replication_safe no l cs lds s :
  start_ok l cs lds → rtc sys_step (start no l cs) s →
  ∃ lds', log_is lds' (walog (master s)) ∧ lds `prefix_of` lds' ∧
    in_order (delivered (master s)) ∧
    (∀ i e, (i, e) ∈ delivered (master s) → ∃ k x, i = Z.of_nat k + 1 ∧ lds' !! k = Some x ∧ e = entry x ∧
       ∃ id c ds y, copies s !! id = Some c ∧ log_is ds (walog c) ∧ ds !! k = Some y ∧ body y = body x) ∧
    (∀ id c, copies s !! id = Some c → ∃ ds, log_is ds (walog c) ∧ body <$> ds `prefix_of` body <$> lds' ∧
       in_order (delivered c) ∧
       ∀ i e, (i, e) ∈ delivered c → ∃ k y, i = Z.of_nat k + 1 ∧ ds !! k = Some y ∧ e = entry y).
Proof using HLL.
  intros Hst Hr. destruct (reachable_inv no l cs lds s Hst Hr) as (lds' & fds & Hinv & Hp).
  pose proof Hinv as [[[Hl _ _ Ho Hd] _ _ _] [_ Hdom] Hc _ _]. exists lds'. split_and!; try done.
  - intros i e Hin. destruct (Hd i e Hin) as ((id & ds & Hds & Hi) & k & x & -> & Hx & ->). exists k, x. split_and!; try done.
    destruct (inv_copy lds' fds s id Hinv) as (c & ds' & Hid & Hds'); [rewrite <- Hdom; by eapply elem_of_dom_2|].
    destruct (Hc id c ds Hid Hds) as [Hb Hpre]. destruct (lookup_lt_is_Some_2 ds k) as [y Hy]; [lia|].
    exists id, c, ds, y. split_and!; [done|apply Hb|done|].
    assert (Hk : (body <$> lds') !! k = Some (body y)) by (eapply prefix_lookup_Some; [|exact Hpre]; by rewrite list_lookup_fmap, Hy).
    rewrite list_lookup_fmap, Hx in Hk. by injection Hk.
  - intros id c Hid. destruct (inv_copy lds' fds s id Hinv) as (c' & ds & Hid' & Hds); [by eapply elem_of_dom_2|]. simplify_eq.
    destruct (Hc id c ds Hid Hds) as [[Hlc _ _ Hoc Hdc] Hpre]. exists ds. split_and!; try done.
    intros i e Hin. by destruct (Hdc i e Hin) as (_ & ?).
Qed.

(** C20: the master and its copies never get stuck.  In every reachable state a put that fits
    is appended and sent, every copy can take every message that was ever sent to it, the
    master can take every answer, and a pending commit of the master runs: the peer of an
    answer is always known and no commit reaches behind the end of the log. *)
Theorem replication_defined no l cs lds s :
  start_ok l cs lds → rtc sys_step (start no l cs) s →
  (∀ d, put_ok d → log_next (walog (master s)) <= log_max → is_Some (appendEntris d (master s))) ∧
  (∀ m h, m ∈ reqs s → ∃ c, copies s !! d_peerid m = Some c ∧ is_Some (handleDump h m c)) ∧
  (∀ r, r ∈ rsps s → is_Some (rpcHandler r (master s))) ∧
  (tasks (master s) ≠ [] → is_Some (runTask (master s))).
Proof using HLL.
  intros Hst Hr. destruct (reachable_inv no l cs lds s Hst Hr) as (lds' & fds & Hinv & _). split_and!.
  - intros d Hput Hmax. destruct (put_inv lds' fds s d Hinv Hput Hmax) as (ms & b & -> & _). by eexists.
  - intros m h Hin. pose proof (iv_reqs _ _ _ Hinv) as Hall. rewrite Forall_forall in Hall.
    destruct (Hall m) as [Hm Hdm]; [by apply list_elem_of_In|]. destruct (inv_copy lds' fds s _ Hinv Hdm) as (c & ds & Hc & Hds).
    exists c. split; [done|]. destruct (dump_inv lds' fds s m h c ds Hinv Hm Hc Hds) as (r & c' & es & -> & _). by eexists.
  - intros r Hin. pose proof (iv_rsps _ _ _ Hinv) as Hall. rewrite Forall_forall in Hall.
    destruct (answer_inv lds' fds s r Hinv) as (o & b & -> & _); [apply Hall; by apply list_elem_of_In|]. by eexists.
  - intros Ht. destruct (task_inv lds' fds s Hinv Ht) as (b & -> & _). by eexists.
Qed.

(** ** Catching up *)

(** [commiter] runs what is pending. *)
Fixpoint runTasks (n : nat) (b : bucket) : option bucket :=
  match n with
  | O => Some b
  | S n => b ← runTask b; runTasks n b
  end.
Definition flush (b : bucket) : option bucket := runTasks (length (tasks b)) b.

(** A message gets through to the copy and its answer to the master, [commiter] works, and so
    on with the message that the master sends next; connections are those of [h]. *)
Fixpoint exchange (fuel : nat) (h : conn_head) (m : dump) (s : sys) : option sys :=
  match fuel with
  | O => None
  | S fuel =>
      c ← copies s !! d_peerid m;
      '(r, c') ← handleDump h m c;
      '(o, b) ← rpcHandler r (master s);
      b ← flush b;
      let s := {| master := b; copies := <[d_peerid m := c']> (copies s); reqs := reqs s ++ option_list o;
                  rsps := rsps s ++ [r] |} in
      match o with None => Some s | Some m => exchange fuel h m s end
  end.

Definition with_master (b : bucket) (s : sys) : sys :=
  {| master := b; copies := copies s; reqs := reqs s; rsps := rsps s |}.

Lemma runTask_fields b b' idx ts :
  tasks b = idx :: ts → runTask b = Some b' → tasks b' = ts ∧ quickCommitIdx b' = idx.
Proof using Type.
  intros Ht. unfold runTask. rewrite Ht. destruct (commitLoop _ _ _) as [b1|] eqn:Hc; [|done]. simpl. intros [= <-].
  split; [|done]. cbn [set_quick tasks]. assert (Hk : ∀ n i b b', commitLoop n i b = Some b' → tasks b' = tasks b).
  { clear. induction n as [|n IH]; intros i b b'; cbn [commitLoop]; [by intros [= ->]|].
    destruct (log_entry i (walog b)) as [[[d|] l]|]; [|done..]. simpl. intros Hn%IH. by rewrite Hn. }
  by rewrite (Hk _ _ _ _ Hc).
Qed.

Lemma flush_ok lds fds s :
  sys_inv lds fds s →
  ∃ b, flush (master s) = Some b ∧ sys_inv lds fds (with_master b s) ∧ tasks b = [] ∧
    quickCommitIdx b = default (quickCommitIdx (master s)) (list.last (tasks (master s))) ∧
    rtc sys_step s (with_master b s).
Proof using HLL.
  unfold flush. remember (tasks (master s)) as ts eqn:Ht. symmetry in Ht. revert s Ht.
  induction ts as [|idx ts IH]; intros s Ht Hinv.
  { exists (master s). destruct s. by split_and!. }
  destruct (task_inv lds fds s Hinv) as (b & Hb & Hinv'); [by rewrite Ht|]. destruct (runTask_fields _ _ _ _ Ht Hb) as [Ht' Hq'].
  destruct (IH (with_master b s)) as (b' & Hr & Hi & Ht2 & Hq2 & Hs2); [done|done|].
  exists b'. cbn [length runTasks]. rewrite Hb, bind_Some_eq. split_and!; [done|done|done| |].
  - rewrite Hq2. cbn [with_master master]. rewrite Hq', last_cons. by destruct (list.last ts).
  - eapply rtc_l; [|exact Hs2]. by apply step_commit.
Qed.

Lemma tasks_answered r (b : bucket) :
  tasks b = [] →
  default (quickCommitIdx (answered r b)) (list.last (tasks (answered r b))) =
    (if r_accept r then Z.max (quickCommitIdx b) (r_nextidx r - 1) else quickCommitIdx b).
Proof using Type.
  intros Ht. unfold answered. cbv zeta. destruct (r_accept r); cbn [set_peers tasks quickCommitIdx]; [|by rewrite Ht].
  unfold commit. cbn [set_peers quickCommitIdx]. destruct (Z.leb_spec (r_nextidx r - 1) (quickCommitIdx b)).
  - cbn [set_peers tasks quickCommitIdx]. rewrite Ht. simpl. lia.
  - cbn [set_tasks set_peers tasks quickCommitIdx]. rewrite Ht. simpl. lia.
Qed.

(** One round of an exchange; the state afterwards and, when there is one, the next message. *)
Definition round_ok (h : conn_head) (m : dump) (s : sys) (lds ds es : list (list Z)) (fds : gmap Z (list (list Z)))
    (o : option dump) (s' : sys) : Prop :=
    let q := quickCommitIdx (master s) in
    let acc := bool_decide (d_nextidx m = Z.of_nat (length ds) + 1) in
    let n := Z.of_nat (length (ds ++ es)) in
    (∀ fuel, exchange (S fuel) h m s = match o with None => Some s' | Some m' => exchange fuel h m' s' end) ∧
    sys_inv lds (<[d_peerid m := ds ++ es]> fds) s' ∧ tasks (master s') = [] ∧
    quickCommitIdx (master s') = (if acc then Z.max q n else q) ∧
    length es = (if acc then length (d_entries m) else 0%nat) ∧
    rtc sys_step s s' ∧
    match o with
    | None => acc = true ∧ n = Z.of_nat (length lds)
    | Some m' => d_peerid m' = d_peerid m ∧ m' ∈ reqs s' ∧ d_nextidx m' = n + 1 ∧ d_commitidx m' = q ∧
        (n + 1 <= Z.of_nat (length lds) → d_entries m' ≠ []) ∧ req_ok lds m' ∧
        (acc = true → n = Z.of_nat (length lds) → d_commitidx m < n)
    end.

Lemma round_holds h m s lds fds ds :
  sys_inv lds fds s → tasks (master s) = [] → m ∈ reqs s → fds !! d_peerid m = Some ds →
  ∃ o s' es, round_ok h m s lds ds es fds o s'.
Proof using HLL.
  intros Hinv Ht Hin Hds. pose proof (iv_reqs _ _ _ Hinv) as Hall. rewrite Forall_forall in Hall.
  destruct (Hall m) as [Hm Hdm]; [by apply list_elem_of_In|]. destruct (inv_copy lds fds s _ Hinv Hdm) as (c & ds' & Hid & Hds').
  assert (ds' = ds) as -> by congruence. clear Hds' Hall.
  destruct (dump_inv lds fds s m h c ds Hinv Hm Hid Hds) as (r & c' & es & Hh & Hro & Hpid & Hn & Hcase & Hinv1).
  set (s1 := {| master := master s; copies := _; reqs := reqs s; rsps := _ |}) in *.
  destruct (answer_inv lds _ s1 r Hinv1 Hro) as (o & b & Ha & -> & Ho & Hinv2). cbn [s1 master copies reqs rsps] in Ha, Ho, Hinv2.
  destruct (flush_ok _ _ _ Hinv2) as (b' & Hf & Hinv3 & Ht3 & Hq3 & Hs3). cbn [master] in Hf, Hq3.
  rewrite tasks_answered in Hq3 by done. rewrite Hn in Hq3. replace (Z.of_nat (length (ds ++ es)) + 1 - 1) with (Z.of_nat (length (ds ++ es))) in Hq3 by lia.
  eexists o, _, es. unfold round_ok. cbv zeta.
  assert (Hacc : r_accept r = bool_decide (d_nextidx m = Z.of_nat (length ds) + 1) ∧
    length es = (if r_accept r then length (d_entries m) else 0%nat) ∧ (r_accept r = true → r_commitidx r = d_commitidx m)).
  { destruct (decide _) as [E|E]; [rewrite bool_decide_true by done|rewrite bool_decide_false by done].
    - destruct Hcase as (-> & -> & ->). done.
    - destruct Hcase as (-> & ->). done. }
  destruct Hacc as (Hacc & Hes & Hci). rewrite <- Hacc. split_and!.
  - intros fuel. cbn [exchange]. rewrite Hid, bind_Some_eq, Hh, bind_Some_eq. cbv beta iota.
    rewrite Ha, bind_Some_eq. cbv beta iota. rewrite Hf, bind_Some_eq. reflexivity.
  - exact Hinv3.
  - exact Ht3.
  - exact Hq3.
  - exact Hes.
  - eapply rtc_l; [by eapply (step_dump s m h c c' r)|]. eapply rtc_l; [|exact Hs3].
    apply (step_answer s1 r o); [cbn; rewrite elem_of_app; right; by left|done].
  - pose proof (iv_copies _ _ _ Hinv1 (d_peerid m) c' (ds ++ es)) as Hpre. cbn [s1 copies] in Hpre.
    rewrite !lookup_insert_eq in Hpre. destruct (Hpre eq_refl eq_refl) as [_ Hp]. apply copy_length in Hp.
    rewrite Hn in Ho. destruct (r_accept r && _ && _) eqn:Eb.
    + subst o. apply andb_prop in Eb as [Eb _]. apply andb_prop in Eb as [-> Eb]. split; [done|].
      apply negb_true_iff in Eb. bool_cases. lia.
    + destruct Ho as (m' & -> & Hf1 & Hf2 & Hf3 & Hf4 & Hf5). cbn [nextSendIdx] in *. split_and!; try done.
      * congruence.
      * cbn. rewrite elem_of_app. right. by left.
      * rewrite Hf3. unfold answered. cbv zeta. destruct (r_accept r); [|done].
        by destruct (commit_fields (set_peers (<[r_peerid r := {| nextSendIdx := r_nextidx r |}]> (peers (master s))) (master s)) (r_nextidx r - 1)) as (_ & _ & _ & -> & _).
      * intros Hac Hfull. rewrite Hac, Hci in Eb by done. cbn [andb] in Eb.
        rewrite (proj2 (Z.leb_gt _ _)) in Eb by lia. cbn [andb negb] in Eb. apply negb_false_iff in Eb. bool_cases. lia.
Qed.

(** What is left to do: entries, a rejection, a commit of the master and one of the copy. *)
Definition todo (m : dump) (s : sys) (lds ds : list (list Z)) : nat :=
  (length lds - length ds) +
  Nat.b2n (negb (bool_decide (d_nextidx m = Z.of_nat (length ds) + 1))) +
  Nat.b2n (quickCommitIdx (master s) <? Z.of_nat (length lds)) + Nat.b2n (d_commitidx m <? Z.of_nat (length lds)).

(** The copy [id] has all of the master's log, and the master has committed it. *)
Definition caught_up (id : Z) (lds : list (list Z)) (s : sys) : Prop :=
  ∃ fds ds, sys_inv lds fds s ∧ fds !! id = Some ds ∧ length ds = length lds ∧
    quickCommitIdx (master s) = Z.of_nat (length lds).

Ltac b2n_cases :=
  repeat match goal with |- context [?a <? ?b] => destruct (Z.ltb_spec a b) end; cbn [Nat.b2n]; lia.

Lemma round_left h m s lds ds es fds m' s' :
  round_ok h m s lds ds es fds (Some m') s' → quickCommitIdx (master s) <= Z.of_nat (length lds) →
  d_commitidx m <= quickCommitIdx (master s) → d_nextidx m <= Z.of_nat (length lds) + 1 →
  (d_nextidx m <= Z.of_nat (length lds) → d_entries m ≠ []) → (length (ds ++ es) <= length lds)%nat →
  (todo m' s' lds (ds ++ es) < todo m s lds ds)%nat.
Proof using Type.
  intros (_ & _ & _ & Hq & Hes & _ & _ & _ & Hnx & Hcm & _ & _ & Hlt) Hql Hcq Hnl Hne Hle.
  rewrite length_app in *. unfold todo. rewrite length_app. destruct (bool_decide_reflect (d_nextidx m = Z.of_nat (length ds) + 1)) as [E|E].
  - rewrite (bool_decide_true (d_nextidx m' = _)) by lia. cbn [negb Nat.b2n].
    destruct (decide (length ds < length lds)%nat) as [Hl|Hl].
    + assert (0 < length (d_entries m))%nat by (destruct (d_entries m); [by destruct Hne; [lia|]|simpl; lia]).
      b2n_cases.
    + specialize (Hlt eq_refl ltac:(lia)).
      b2n_cases.
  - rewrite (bool_decide_true (d_nextidx m' = _)) by lia. cbn [negb Nat.b2n]. rewrite Hq.
    b2n_cases.
Qed.

Lemma inv_lengths lds fds s m ds :
  sys_inv lds fds s → m ∈ reqs s → fds !! d_peerid m = Some ds →
  quickCommitIdx (master s) <= Z.of_nat (length lds) ∧ d_nextidx m <= Z.of_nat (length lds) + 1 ∧
  (length ds <= length lds)%nat.
Proof using Type.
  intros Hinv Hin Hds. pose proof Hinv as [[Hb _ _ _] _ Hc Hrq _]. rewrite Forall_forall in Hrq.
  destruct (Hrq m) as [(k & Hk & Hle & _) Hdm]; [by apply list_elem_of_In|].
  destruct (inv_copy lds fds s _ Hinv Hdm) as (c & ds' & Hid & Hds'). assert (ds' = ds) as -> by congruence.
  destruct (Hc _ c ds Hid Hds) as [_ Hp]. apply copy_length in Hp. split_and!; [|lia|done].
  apply (bucket_quick (confirmed fds) lds (master s) Hb).
Qed.

Lemma exchange_fresh fuel h m s lds fds ds :
  sys_inv lds fds s → tasks (master s) = [] → m ∈ reqs s → fds !! d_peerid m = Some ds →
  (d_nextidx m <= Z.of_nat (length lds) → d_entries m ≠ []) → d_commitidx m <= quickCommitIdx (master s) →
  (todo m s lds ds < fuel)%nat →
  ∃ s', exchange fuel h m s = Some s' ∧ rtc sys_step s s' ∧ caught_up (d_peerid m) lds s'.
Proof using HLL.
  revert m s fds ds. induction fuel as [|fuel IH]; intros m s fds ds Hinv Ht Hin Hds Hne Hcq Hf; [lia|].
  destruct (round_holds h m s lds fds ds Hinv Ht Hin Hds) as (o & s1 & es & Hround).
  destruct (inv_lengths lds fds s m ds Hinv Hin Hds) as (Hql & Hnl & Hdl).
  pose proof Hround as (Hex & Hinv1 & Ht1 & Hq1 & Hes & Hst & Ho). rewrite Hex. destruct o as [m'|].
  - destruct Ho as (Hpid & Hin1 & Hnx & Hcm & Hne1 & _ & _).
    assert (Hds1 : <[d_peerid m := ds ++ es]> fds !! d_peerid m' = Some (ds ++ es)) by (by rewrite Hpid, lookup_insert_eq).
    destruct (inv_lengths lds _ s1 m' (ds ++ es) Hinv1 Hin1 Hds1) as (_ & _ & Hdl1).
    pose proof (round_left h m s lds ds es fds m' s1 Hround Hql Hcq Hnl Hne Hdl1) as Hleft.
    destruct (IH m' s1 (<[d_peerid m := ds ++ es]> fds) (ds ++ es)) as (s2 & Hrun & Hst2 & Hcu); try done.
    + rewrite Hnx. done.
    + rewrite Hcm, Hq1. destruct (bool_decide _); lia.
    + lia.
    + exists s2. rewrite Hpid in Hcu. split_and!; [done|by etrans|done].
  - destruct Ho as [Hacc Hn]. exists s1. split_and!; [done|done|]. exists (<[d_peerid m := ds ++ es]> fds), (ds ++ es).
    rewrite lookup_insert_eq. split_and!; [done|done|lia|]. rewrite Hq1, Hacc. lia.
Qed.

Lemma todo_le m s lds ds : (todo m s lds ds <= length lds + 3)%nat.
Proof using Type.
  unfold todo. destruct (negb _), (_ <? _), (_ <? _); cbn [Nat.b2n]; lia.
Qed.

(** C19: a copy that can be reached catches up.  In any reachable state whose commit thread is
    idle, take any message that was ever sent to a copy; let it arrive, and let the answer
    and the messages that the master sends because of it arrive too.  After at most as many
    rounds as the master has entries, and five more, the exchange is over: the copy has the
    log of the master, up to the bytes of the connection, and the master has handed all of it
    to the engine. *)
Theorem copy_catches_up no l cs lds s m h :
  start_ok l cs lds → rtc sys_step (start no l cs) s → tasks (master s) = [] → m ∈ reqs s →
  ∃ s' lds' ds c, exchange (Z.to_nat (log_last (walog (master s))) + 5) h m s = Some s' ∧ rtc sys_step s s' ∧
    log_is lds' (walog (master s')) ∧ copies s' !! d_peerid m = Some c ∧ log_is ds (walog c) ∧
    body <$> ds = body <$> lds' ∧ ∀ i, 1 <= i <= Z.of_nat (length lds') → i ∈ (delivered (master s')).*1.
Proof using HLL.
  intros Hst Hr Ht Hin. destruct (reachable_inv no l cs lds s Hst Hr) as (lds' & fds & Hinv & _). clear Hst Hr lds.
  assert (Hcu : ∃ s', exchange (Z.to_nat (log_last (walog (master s))) + 5) h m s = Some s' ∧ rtc sys_step s s' ∧ caught_up (d_peerid m) lds' s').
  { rewrite (log_last_ok lds'), Nat2Z.id by apply Hinv. pose proof (iv_reqs _ _ _ Hinv) as Hall. rewrite Forall_forall in Hall.
    destruct (Hall m) as [_ Hdm]; [by apply list_elem_of_In|]. destruct (inv_copy lds' fds s _ Hinv Hdm) as (c & ds & _ & Hds).
    destruct (round_holds h m s lds' fds ds Hinv Ht Hin Hds) as (o & s1 & es & Hex & Hinv1 & Ht1 & Hq1 & Hes & Hst & Ho).
    replace (length lds' + 5)%nat with (S (length lds' + 4)) by lia. rewrite Hex. destruct o as [m'|].
    - destruct Ho as (Hpid & Hin1 & Hnx & Hcm & Hne1 & _ & _). pose proof (todo_le m' s1 lds' (ds ++ es)).
      destruct (exchange_fresh (length lds' + 4) h m' s1 lds' (<[d_peerid m := ds ++ es]> fds) (ds ++ es)) as (s2 & Hrun & Hst2 & Hcu); try done.
      + by rewrite Hpid, lookup_insert_eq.
      + by rewrite Hnx.
      + rewrite Hcm, Hq1. destruct (bool_decide _); lia.
      + lia.
      + exists s2. rewrite Hpid in Hcu. split_and!; [done|by etrans|done].
    - destruct Ho as [Hacc Hn]. exists s1. split_and!; [done|done|]. exists (<[d_peerid m := ds ++ es]> fds), (ds ++ es).
      rewrite lookup_insert_eq. destruct (inv_lengths lds' fds s m ds Hinv Hin Hds) as (Hql & _ & _).
      split_and!; [done|done|lia|]. rewrite Hq1, Hacc. lia. }
  destruct Hcu as (s' & Hrun & Hst & fds' & ds & Hinv' & Hds & Hlen & Hq). pose proof Hinv' as [[[Hl [_ Hqd] _ _ _] _ _ _] [_ Hdom] Hc _ _].
  destruct (inv_copy lds' fds' s' (d_peerid m) Hinv') as (c & ds' & Hid & Hds'); [rewrite <- Hdom; by eapply elem_of_dom_2|].
  destruct (Hc _ c ds Hid Hds) as [Hb Hp]. exists s', lds', ds, c. split_and!; [done|done|done|done|apply Hb| |].
  - apply prefix_length_eq; [done|]. by rewrite !length_fmap, Hlen.
  - intros i Hi. apply Hqd. lia.
Qed.

(** ** What goes wrong *)

Lemma step_copies s s' : sys_step s s' → dom (copies s') = dom (copies s).
Proof using Type.
  destruct 1; cbn [copies]; try done; apply dom_insert_lookup_L; by eexists.
Qed.

(** a put on a bucket without copies is never executed.  When the master has no peers, as
    with a copy count of one, nothing is ever handed to the engine or answered, however many
    puts are appended to its log. *)
Lemma lone_put_unanswered no l lds s :
  start_ok l ∅ lds → rtc sys_step (start no l ∅) s → delivered (master s) = [].
Proof using HLL.
  intros Hst Hr. destruct (reachable_inv no l ∅ lds s Hst Hr) as (lds' & fds & Hinv & _).
  assert (Hdom : dom (copies s) = ∅).
  { assert (H0 : dom (copies (start no l ∅)) = ∅) by (cbn; by rewrite fmap_empty, dom_empty_L).
    revert H0. clear -Hr. induction Hr as [s|s s1 s2 Hstep _ IH]; [done|]. intros H0. apply IH.
    by rewrite (step_copies s s1 Hstep). }
  destruct (delivered (master s)) as [|[i e] r] eqn:Hd; [done|]. pose proof Hinv as [[Hb _ _ _] [_ Hf] _ _ _].
  destruct (bo_delivered _ _ _ Hb i e) as [(id & ds & Hid & _) _]; [rewrite Hd; by left|].
  apply elem_of_dom_2 in Hid. rewrite Hf, Hdom in Hid. by apply not_elem_of_empty in Hid.
Qed.

(** A copy that lags behind the commits of the master crashes.  A DUMP whose entries stop
    before the index that the master has committed, as at the end of a log file, is accepted;
    the commit it asks for then runs past the end of the copy's log and hands a null pointer
    to the engine. *)
Lemma dump_commit_past_end h m c ds r c' :
  bucket_ok (λ _, True) ds c → tasks c = [] → d_nextidx m = Z.of_nat (length ds) + 1 → Forall put_ok (d_entries m) →
  Z.of_nat (length ds + length (d_entries m)) <= log_max →
  Z.of_nat (length ds + length (d_entries m)) < d_commitidx m → handleDump h m c = Some (r, c') →
  r_accept r = true ∧ tasks c' = [d_commitidx m] ∧ runTask c' = None.
Proof using HLL.
  intros Hc Ht Hn Hput Hmax Hci Hh. pose proof (bucket_quick _ _ _ Hc) as Hq. pose proof (bo_quick _ _ _ Hc) as [Hq0 _].
  destruct (writeEntries_ok h (d_nextidx m) (d_entries m) 0 ds (walog c) c) as (es & l' & Hw & Hl' & _ & Hlen); try done.
  { apply (bo_log _ _ _ Hc). }
  { lia. }
  unfold handleDump in Hh. rewrite (log_next_ok ds) in Hh by apply Hc. rewrite Hn, Z.eqb_refl in Hh. cbn [negb] in Hh.
  rewrite <- Hn, Hw, bind_Some_eq in Hh. injection Hh as <- <-. split; [done|].
  unfold commit. rewrite (proj2 (Z.leb_gt _ _)) by (cbn; lia). cbn [set_tasks set_walog tasks]. rewrite Ht. split; [done|].
  unfold runTask. cbn [set_tasks set_walog tasks quickCommitIdx app].
  rewrite (commitLoop_past (ds ++ es)); [done|done|rewrite length_app; lia|rewrite length_app; lia].
Qed.
End Spec.

Section Runs.
Context {L : Type} `{HL : Log L}.

(** A run is a run of the relation. *)
Lemma sys_exec_step e (s s' : sys L) : sys_exec e s = Some s' → sys_step s s'.
Proof using Type.
  destruct e as [d|k h|k| |id]; cbn [sys_exec]; intros Hs.
  - destruct (assert_that _) as [u|] eqn:Ha; [|done]. cbn in Hs. apply assert_that_Some in Ha.
    apply andb_prop in Ha as [Ha Hmax]. apply andb_prop in Ha as [H18 Hfit]. apply Nat.leb_le in H18. bool_cases.
    destruct (appendEntris d (master s)) as [[ms b]|] eqn:Hap; [|done]. cbn in Hs. injection Hs as <-.
    by apply (step_put s d).
  - destruct (reqs s !! k) as [m|] eqn:Hm; [|done]. cbn in Hs. destruct (copies s !! d_peerid m) as [c|] eqn:Hc; [|done].
    cbn in Hs. destruct (handleDump h m c) as [[r c']|] eqn:Hh; [|done]. cbn in Hs. injection Hs as <-.
    apply (step_dump s m h c c' r); [by eapply list_elem_of_lookup_2|done|done].
  - destruct (rsps s !! k) as [r|] eqn:Hr; [|done]. cbn in Hs.
    destruct (rpcHandler r (master s)) as [[o b]|] eqn:Hh; [|done]. cbn in Hs. injection Hs as <-.
    apply (step_answer s r); [by eapply list_elem_of_lookup_2|done].
  - destruct (runTask (master s)) as [b|] eqn:Hr; [|done]. cbn in Hs. injection Hs as <-. by apply step_commit.
  - destruct (copies s !! id) as [c|] eqn:Hc; [|done]. cbn in Hs. destruct (runTask c) as [c'|] eqn:Hr; [|done].
    cbn in Hs. injection Hs as <-. by apply (step_commit_copy s id c).
Qed.

Lemma sys_run_steps es (s s' : sys L) : sys_run es s = Some s' → rtc sys_step s s'.
Proof using Type.
  revert s. induction es as [|e es IH]; intros s; cbn [sys_run]; [by intros [= ->]|].
  destruct (sys_exec e s) as [s1|] eqn:He; [|done]. cbn. intros Hr. eapply rtc_l; [by apply (sys_exec_step e)|by apply IH].
Qed.
End Runs.

(** ** Two servers and more *)

Definition demo_head (k : Z) : conn_head :=
  {| sock_index := k; sock_create := 5; request_sec := 6; src_ip := 7; src_port := 8 |}.
Definition demo_put (x : Z) : list Z := replicate 18 0 ++ [x].

(** A master with copies on the servers [ids], all with empty logs. *)
Definition demo_start (ids : list Z) : sys wal := start 9 emptyLog (list_to_map ((λ id, (id, emptyLog)) <$> ids)).

Lemma demo_start_ok ids :
  start_ok (wal_is demo_md5 demo_iter) emptyLog (list_to_map ((λ id, (id, emptyLog)) <$> ids)) [].
Proof.
  split; [apply wal_is_empty|]. split; [constructor|]. intros id c Hc. exists [].
  apply elem_of_list_to_map_2, list_elem_of_fmap in Hc as (id' & [= -> ->] & _).
  split; [apply wal_is_empty|apply prefix_nil].
Qed.

(** Server 3 gets the first put after it rejected a message; its answer is committed before
    the second put comes. *)
Definition demo_events : list event :=
  [EvPut (demo_put 1); EvDump 0 (demo_head 1); EvAnswer 0; EvDump 1 (demo_head 2); EvAnswer 1; EvCommit; EvPut (demo_put 2)].

Definition stale_events : list event :=
  [EvPut (demo_put 11); EvDump 0 (demo_head 1); EvDump 1 (demo_head 1); EvDump 2 (demo_head 1);
   EvAnswer 0; EvAnswer 1; EvAnswer 2; EvDump 4 (demo_head 1);
   EvPut (demo_put 22); EvDump 6 (demo_head 1); EvPut (demo_put 33); EvDump 11 (demo_head 1);
   EvAnswer 5; EvAnswer 3; EvCommit; EvCommit; EvAnswer 4; EvCommit].

(** An old put can be executed after a newer one.  Three copies acknowledge three puts at
    different speeds: the commit of the first put, dispatched before that of all three ran,
    sets the commit index back; the acknowledgement of the second put then hands entry 2 to
    the engine again, after entry 3.  Every message is delivered at most once and in order. *)
Lemma stale_put_executed md5 iter :
  ∃ s, rtc (@sys_step wal (wal_log md5 iter)) (demo_start [2; 3; 4]) s ∧
    delivered (master s) = [(1, entry (demo_put 11)); (2, entry (demo_put 22)); (3, entry (demo_put 33)); (2, entry (demo_put 22))] ∧
    quickCommitIdx (master s) = 2 ∧ tasks (master s) = [].
Proof.
  exists (default (demo_start []) (@sys_run wal (wal_log md5 iter) stale_events (demo_start [2; 3; 4]))).
  split; [|vm_compute; auto]. apply (@sys_run_steps wal (wal_log md5 iter) stale_events). vm_compute. reflexivity.
Qed.

Definition demo_cs (ids : list Z) : gmap Z wal := list_to_map ((λ id, (id, emptyLog)) <$> ids).
Definition rep_state : sys wal := default (demo_start []) (@sys_run wal (wal_log demo_md5 demo_iter) demo_events (demo_start [3])).

Lemma rep_reached : rtc (@sys_step wal (wal_log demo_md5 demo_iter)) (start 9 emptyLog (demo_cs [3])) rep_state.
Proof. apply (@sys_run_steps wal (wal_log demo_md5 demo_iter) demo_events). vm_compute. reflexivity. Qed.

(** The first put is in the log of server 3 and with the engine, the second only at the master. *)
Lemma replication_safe_witness :
  delivered (master rep_state) = [(1, entry (demo_put 1))] ∧
  ∃ lds', wal_is demo_md5 demo_iter lds' (walog (master rep_state)) ∧ [] `prefix_of` lds' ∧
    in_order (delivered (master rep_state)).
Proof.
  split; [vm_compute; reflexivity|].
  destruct (@replication_safe wal (wal_log demo_md5 demo_iter) (wal_is demo_md5 demo_iter) (wal_log_laws demo_md5 demo_iter)
    9 emptyLog (demo_cs [3]) [] rep_state (demo_start_ok [3]) rep_reached) as (lds' & H1 & H2 & H3 & _).
  exists lds'. split; [exact H1|]. split; [exact H2|exact H3].
Defined.

Lemma replication_defined_witness : ∃ r, r ∈ rsps rep_state ∧ is_Some (@rpcHandler wal (wal_log demo_md5 demo_iter) r (master rep_state)).
Proof.
  destruct (@replication_defined wal (wal_log demo_md5 demo_iter) (wal_is demo_md5 demo_iter) (wal_log_laws demo_md5 demo_iter)
    9 emptyLog (demo_cs [3]) [] rep_state (demo_start_ok [3]) rep_reached) as (_ & _ & H & _).
  exists {| r_accept := true; r_peerid := 3; r_nextidx := 2; r_commitidx := 0 |}.
  assert (Hin : {| r_accept := true; r_peerid := 3; r_nextidx := 2; r_commitidx := 0 |} ∈ rsps rep_state)
    by (vm_compute; right; left).
  split; [exact Hin|]. apply H. exact Hin.
Defined.

Definition demo_message : dump := {| d_bucket := 9; d_peerid := 3; d_nextidx := 2; d_commitidx := 0; d_entries := [] |}.

Lemma copy_catches_up_witness :
  ∃ s' ds c, @exchange wal (wal_log demo_md5 demo_iter) 7 (demo_head 4) demo_message rep_state = Some s' ∧
    copies s' !! 3 = Some c ∧ wal_is demo_md5 demo_iter ds (walog c) ∧ (1 ∈ (delivered (master s')).*1).
Proof.
  destruct (@copy_catches_up wal (wal_log demo_md5 demo_iter) (wal_is demo_md5 demo_iter) (wal_log_laws demo_md5 demo_iter)
    9 emptyLog (demo_cs [3]) [] rep_state demo_message (demo_head 4) (demo_start_ok [3]) rep_reached)
    as (s' & lds' & ds & c & H1 & H2 & H3 & H4 & H5 & H6 & H7).
  - vm_compute. reflexivity.
  - vm_compute. left.
  - exists s', ds, c. split; [exact H1|]. split; [exact H4|]. split; [exact H5|]. apply H7.
    destruct lds' as [|x l].
    + pose proof (wal_is_fields _ _ _ _ H3) as (_ & Hl & _). exfalso. vm_compute in H1. injection H1 as <-.
      vm_compute in Hl. discriminate Hl.
    + simpl. lia.
Defined.

Lemma lone_put_unanswered_witness :
  ∃ s, @sys_run wal (wal_log demo_md5 demo_iter) [EvPut (demo_put 1)] (start 9 emptyLog ∅) = Some s ∧ delivered (master s) = [].
Proof.
  eexists. split; [vm_compute; reflexivity|].
  eapply (@lone_put_unanswered wal (wal_log demo_md5 demo_iter) (wal_is demo_md5 demo_iter) (wal_log_laws demo_md5 demo_iter) 9 emptyLog []).
  - exact (demo_start_ok []).
  - apply (@sys_run_steps wal (wal_log demo_md5 demo_iter) [EvPut (demo_put 1)]). vm_compute. reflexivity.
Defined.

Definition late_message : dump :=
  {| d_bucket := 9; d_peerid := 3; d_nextidx := 1; d_commitidx := 2; d_entries := [demo_put 1] |}.

Lemma dump_commit_past_end_witness :
  ∃ r c', @handleDump wal (wal_log demo_md5 demo_iter) (demo_head 1) late_message (BucketMgr_initial 9 emptyLog) = Some (r, c') ∧
    r_accept r = true ∧ tasks c' = [2] ∧ @runTask wal (wal_log demo_md5 demo_iter) c' = None.
Proof.
  do 2 eexists. split; [vm_compute; reflexivity|].
  eapply (@dump_commit_past_end wal (wal_log demo_md5 demo_iter) (wal_is demo_md5 demo_iter) (wal_log_laws demo_md5 demo_iter)
    (demo_head 1) late_message (BucketMgr_initial 9 emptyLog) []).
  - apply initial_ok, wal_is_empty.
  - reflexivity.
  - reflexivity.
  - repeat constructor; unfold entry_fits, batch_limit; simpl; lia.
  - done.
  - done.
  - vm_compute. reflexivity.
Defined.
