(* ===== verification/Strings.v ===== *)
(** * Strings (StringHelper and UtilHelper of src/src/public/common.cc)

    A string is its list of characters, as numbers.  [find] and [substr] are those of
    [std::string], seen from the end of the last match on.  A C string is the characters in
    front of its 0.  [None] is a loop that does not end, a read behind the end of a C string,
    or an exception of a conversion. *)
From S2P Require Import Prelude.

(** ** [std::string] *)

(** The place of the first [pat] in [s]. *)
Fixpoint find_str (pat s : list Z) : option nat :=
  if bool_decide (pat `prefix_of` s) then Some O else
  match s with
  | [] => None
  | _ :: s => S <$> find_str pat s
  end.

(** [std::to_string] of a number that is not negative. *)
Fixpoint digits (fuel : nat) (n : Z) (acc : list Z) : list Z :=
  match fuel with
  | O => acc
  | S fuel =>
      let acc := (48 + n mod 10) :: acc in
      if n <? 10 then acc else digits fuel (n / 10) acc
  end.
Definition to_string (n : Z) : list Z :=
  if n <? 0 then 45 :: digits (S (Z.to_nat (Z.log2 (- n)))) (- n) [] else digits (S (Z.to_nat (Z.log2 n))) n [].

Definition is_digit (c : Z) : bool := (48 <=? c) && (c <=? 57).
Definition is_space (c : Z) : bool := (c =? 32) || ((9 <=? c) && (c <=? 13)).

(** The digits at the front. *)
Fixpoint parse_digits (acc : Z) (s : list Z) : Z :=
  match s with
  | c :: s => if is_digit c then parse_digits (10 * acc + (c - 48)) s else acc
  | [] => acc
  end.

(** [std::stoi], [std::stoul]: spaces, a sign, digits, and anything behind them. *)
Fixpoint skip_spaces (s : list Z) : list Z :=
  match s with c :: s' => if is_space c then skip_spaces s' else s | [] => [] end.
Definition parse_int (s : list Z) : option Z :=
  match skip_spaces s with
  | 45 :: c :: s => if is_digit c then Some (- parse_digits 0 (c :: s)) else None
  | 43 :: c :: s => if is_digit c then Some (parse_digits 0 (c :: s)) else None
  | c :: s => if is_digit c then Some (parse_digits 0 (c :: s)) else None
  | [] => None
  end.
Definition stoi (s : list Z) : option Z :=
  n ← parse_int s; if (- 2 ^ 31 <=? n) && (n <? 2 ^ 31) then Some n else None.
Definition stoul (s : list Z) : option Z :=
  n ← parse_int s; if (- 2 ^ 64 <? n) && (n <? 2 ^ 64) then Some (u64 n) else None.

(** ** [StringHelper] *)

Fixpoint replaceFrom (fuel : nat) (before after s : list Z) : option (list Z) :=
  match find_str before s with
  | None => Some s
  | Some pos =>
      match fuel with
      | O => None
      | S fuel => r ← replaceFrom fuel before after (drop (pos + length before) s); Some (take pos s ++ after ++ r)
      end
  end.
Definition replace (src_str before after : list Z) : option (list Z) := replaceFrom (S (length src_str)) before after src_str.

(** [s] is what is behind the last delimiter. *)
Fixpoint tokenizeFrom (fuel : nat) (delim s : list Z) : option (list (list Z)) :=
  match find_str delim s with
  | None => Some (if decide (s = []) then [] else [s])
  | Some pos =>
      match fuel with
      | O => None
      | S fuel => r ← tokenizeFrom fuel delim (drop (pos + length delim) s); Some (take pos s :: r)
      end
  end.
Definition tokenize (src delim : list Z) : option (list (list Z)) := tokenizeFrom (S (length src)) delim src.

Fixpoint trimFront (ws s : list Z) : list Z :=
  match s with
  | c :: s' => if bool_decide (c ∈ ws) then trimFront ws s' else s
  | [] => []
  end.
(** [find_first_not_of], [find_last_not_of] and the part between them. *)
Definition trim (src whitespace : list Z) : list Z :=
  reverse (trimFront whitespace (reverse (trimFront whitespace src))).

Definition isPureInt (p : option (list Z)) : bool :=
  match p with
  | None | Some [] => false
  | Some (45 :: s) => forallb is_digit s
  | Some s => forallb is_digit s
  end.

(** A character with its highest bit set takes the next one with it. *)
Fixpoint strToLower (s : list Z) : option (list Z) :=
  match s with
  | [] => Some []
  | c :: s =>
      if Z.testbit c 7 then
        match s with
        | [] => None
        | c2 :: s => r ← strToLower s; Some (c :: c2 :: r)
        end
      else r ← strToLower s; Some ((if (65 <=? c) && (c <=? 90) then c + 32 else c) :: r)
  end.

(** [vecot2String] of numbers and of strings. *)
Definition append_item (str item : list Z) : list Z := (if decide (str = []) then str else str ++ [44]) ++ item.
Definition vecot2String (vec : list Z) : list Z := foldl (λ str n, append_item str (to_string n)) [] vec.
Definition vecot2StringS (vec : list (list Z)) : list Z := foldl append_item [] vec.

(** ** Finding and cutting *)

(** Strings without the delimiter, put together with it. *)
Fixpoint join_with (c : Z) (l : list (list Z)) : list Z :=
  match l with
  | [] => []
  | [s] => s
  | s :: l => s ++ c :: join_with c l
  end.

Lemma find_char c s r : c ∉ s → find_str [c] (s ++ c :: r) = Some (length s).
Proof.
  induction s as [|x s IH]; intros Hc; cbn [find_str app].
  - rewrite bool_decide_true; [done|]. by exists r.
  - apply not_elem_of_cons in Hc as [Hx Hs]. rewrite bool_decide_false.
    + by rewrite IH.
    + intros [l Hl]. by injection Hl.
Qed.

Lemma find_none c s : c ∉ s → find_str [c] s = None.
Proof.
  induction s as [|x s IH]; intros Hc; cbn [find_str]; rewrite bool_decide_false.
  - done.
  - intros [l Hl]. done.
  - apply not_elem_of_cons in Hc as [_ Hs]. by rewrite IH.
  - apply not_elem_of_cons in Hc as [Hx _]. intros [l Hl]. by injection Hl.
Qed.

Lemma tokenizeFrom_join c l s fuel :
  Forall (λ s, c ∉ s) (l ++ [s]) → s ≠ [] → (length l < fuel)%nat →
  tokenizeFrom fuel [c] (join_with c (l ++ [s])) = Some (l ++ [s]).
Proof.
  revert fuel. induction l as [|x l IH]; intros fuel Hall Hs Hf.
  - cbn [app join_with]. cbn [app] in Hall. apply list.Forall_cons in Hall as [Hall _]. destruct fuel as [|fuel]; [lia|]. cbn [tokenizeFrom].
    rewrite (find_none c s Hall). by rewrite decide_False.
  - cbn [app] in *. apply list.Forall_cons in Hall as [Hx Hall]. destruct fuel as [|fuel]; [simpl in Hf; lia|].
    assert (Hj : join_with c (x :: l ++ [s]) = x ++ c :: join_with c (l ++ [s])) by (by destruct l).
    rewrite Hj. cbn [tokenizeFrom]. rewrite find_char by done. cbn [length].
    replace (length x + 1)%nat with (length (x ++ [c])) by (rewrite length_app; done).
    change (c :: join_with c (l ++ [s])) with ([c] ++ join_with c (l ++ [s])).
    rewrite (app_assoc x), drop_app_length, IH, bind_Some_eq by (done || (simpl in Hf; lia)).
    rewrite <- app_assoc, take_app_length. done.
Qed.

Lemma join_length c (l : list (list Z)) s : (length l <= length (join_with c (l ++ [s])))%nat.
Proof.
  induction l as [|x l IH]; [simpl; lia|]. cbn [app]. assert (Hj : join_with c (x :: l ++ [s]) = x ++ c :: join_with c (l ++ [s])) by (by destruct l).
  rewrite Hj, length_app. cbn [length]. lia.
Qed.

Lemma tokenize_parts c l s :
  Forall (λ s, c ∉ s) (l ++ [s]) → s ≠ [] → tokenize (join_with c (l ++ [s])) [c] = Some (l ++ [s]).
Proof.
  intros Hall Hs. apply tokenizeFrom_join; [done|done|]. pose proof (join_length c l s). lia.
Qed.

(** Cutting a text at a character gives back the parts it was put together from, empty
    ones included, when no part has that character and the last one is not empty. *)
Lemma tokenize_join c l s :
  Forall (λ s, c ∉ s) (l ++ [s]) → s ≠ [] → tokenize (join_with c (l ++ [s])) [c] = Some (l ++ [s]).
Proof. apply tokenize_parts. Qed.

(** ** Numbers *)

Lemma digits_app fuel n acc : digits fuel n acc = digits fuel n [] ++ acc.
Proof.
  revert n acc. induction fuel as [|fuel IH]; intros n acc; cbn [digits]; [done|]. destruct (n <? 10); [done|].
  rewrite (IH (n / 10) (_ :: acc)), (IH (n / 10) [_]), <- app_assoc. done.
Qed.

Lemma digit_ok n : 0 <= n → is_digit (48 + n mod 10) = true.
Proof. intros Hn. unfold is_digit. pose proof (Z.mod_pos_bound n 10). apply andb_true_iff. split; apply Z.leb_le; lia. Qed.

Lemma digits_all fuel n : 0 <= n → Forall (λ c, is_digit c = true) (digits fuel n []).
Proof.
  revert n. induction fuel as [|fuel IH]; intros n Hn; cbn [digits]; [constructor|].
  destruct (n <? 10); [by repeat constructor; apply digit_ok|]. rewrite digits_app. apply Forall_app. split.
  - apply IH, Z.div_pos; lia.
  - repeat constructor. by apply digit_ok.
Qed.

Lemma parse_digits_app acc s1 s2 :
  Forall (λ c, is_digit c = true) s1 → parse_digits acc (s1 ++ s2) = parse_digits (parse_digits acc s1) s2.
Proof. intros Hs. revert acc. induction Hs as [|c s1 Hc _ IH]; intros acc; [done|]. cbn [app parse_digits]. by rewrite Hc, IH. Qed.

Lemma parse_digits_ok fuel n acc0 :
  0 <= n < 2 ^ Z.of_nat fuel → parse_digits 0 (digits fuel n [] ++ acc0) = parse_digits n acc0.
Proof.
  revert n acc0. induction fuel as [|fuel IH]; intros n acc0 Hn.
  - cbn [digits app]. replace n with 0 by (simpl in Hn; lia). done.
  - cbn [digits]. destruct (Z.ltb_spec n 10) as [Hlt|Hge].
    + cbn [app parse_digits]. rewrite digit_ok by lia. f_equal. rewrite Z.mod_small; lia.
    + rewrite digits_app, <- app_assoc, IH.
      * cbn [app parse_digits]. rewrite digit_ok by lia. f_equal. pose proof (Z.div_mod n 10). lia.
      * replace (Z.of_nat (S fuel)) with (1 + Z.of_nat fuel) in Hn by lia. rewrite Z.pow_add_r in Hn by lia.
        split; [apply Z.div_pos; lia|]. apply Z.div_lt_upper_bound; lia.
Qed.

Lemma log2_fuel n : 0 <= n → 0 <= n < 2 ^ Z.of_nat (S (Z.to_nat (Z.log2 n))).
Proof.
  intros Hn. split; [done|]. destruct (decide (n = 0)) as [->|H0]; [done|].
  pose proof (Z.log2_spec n ltac:(lia)) as [_ H]. pose proof (Z.log2_nonneg n).
  replace (Z.of_nat (S (Z.to_nat (Z.log2 n)))) with (Z.succ (Z.log2 n)) by lia. done.
Qed.

Lemma to_string_digits n : 0 <= n → Forall (λ c, is_digit c = true) (to_string n) ∧ to_string n ≠ [].
Proof.
  intros Hn. unfold to_string. rewrite (proj2 (Z.ltb_ge _ _)) by done. split; [by apply digits_all|].
  cbn [digits]. destruct (n <? 10); [done|]. rewrite digits_app. by destruct (digits _ _ []).
Qed.

(** A number in text is read back, whatever else follows. *)
Lemma parse_to_string_tail n t : 0 <= n → match t with [] => True | c :: _ => is_digit c = false end → parse_int (to_string n ++ t) = Some n.
Proof.
  intros Hn Ht. destruct (to_string_digits n Hn) as [Hd Hne]. pose proof (parse_digits_ok _ n t (log2_fuel n Hn)) as Hp.
  assert (Ht' : parse_digits n t = n) by (destruct t as [|c t]; [done|]; cbn [parse_digits]; by rewrite Ht). rewrite Ht' in Hp. clear Ht Ht'.
  unfold to_string in *. rewrite (proj2 (Z.ltb_ge n 0)) in * by done.
  destruct (digits _ _ []) as [|c s]; [done|]. apply list.Forall_cons in Hd as [Hc _].
  assert (Hr : 48 <= c <= 57) by (unfold is_digit in Hc; apply andb_prop in Hc as [H1 H2]; bool_cases; lia).
  unfold parse_int. cbn [skip_spaces app]. assert (Hsp : is_space c = false).
  { unfold is_space. rewrite (proj2 (Z.eqb_neq _ _)), (proj2 (Z.leb_gt c 13)), andb_false_r by lia. done. }
  rewrite Hsp. assert (c = 48 ∨ c = 49 ∨ c = 50 ∨ c = 51 ∨ c = 52 ∨ c = 53 ∨ c = 54 ∨ c = 55 ∨ c = 56 ∨ c = 57) as Hcases by lia.
  cbn [parse_digits app] in Hp. rewrite Hc in Hp. destruct Hcases as [->|[->|[->|[->|[->|[->|[->|[->|[->| ->]]]]]]]]]; cbn in *; by rewrite Hp.
Qed.

Lemma parse_to_string n : 0 <= n → parse_int (to_string n) = Some n.
Proof. intros Hn. rewrite <-(app_nil_r (to_string n)). by apply parse_to_string_tail. Qed.

Lemma stoi_to_string n : 0 <= n < 2 ^ 31 → stoi (to_string n) = Some n.
Proof.
  intros Hn. unfold stoi. rewrite parse_to_string, bind_Some_eq by lia.
  by rewrite (proj2 (Z.leb_le _ _)), (proj2 (Z.ltb_lt _ _)) by lia.
Qed.

Lemma stoul_to_string n : 0 <= n < 2 ^ 64 → stoul (to_string n) = Some n.
Proof.
  intros Hn. unfold stoul. rewrite parse_to_string, bind_Some_eq by lia.
  rewrite !(proj2 (Z.ltb_lt _ _)) by lia. cbn [andb]. by rewrite u64_id.
Qed.

(** The text 7,,42 cut at commas. *)
Lemma tokenize_join_witness : tokenize [55; 44; 44; 52; 50] [44] = Some [[55]; []; [52; 50]].
Proof.
  apply (tokenize_join 44 [[55]; []] [52; 50]).
  - repeat (apply Forall_cons; [apply (bool_decide_unpack _); vm_compute; exact Logic.I|]). constructor.
  - discriminate.
Defined.
