(* ===== verification/Engine.v ===== *)
(** * The store engine (src/src/kvstore/rdb/rdb_instance.{h,cc}, rdb_manager.cc)

    [RdbInstance] keeps the values of all namespaces in one RocksDB, under the stored keys of
    [RdbDefine], and the times at which namespaces were cleared in a second one.  A value
    that is too old is not given out; [ExpiredFilter] lets RocksDB drop it when it compacts.

    RocksDB is a parameter: [Rocks] has the calls that are used, [RocksLaws] what they are
    documented to do: a write that reports success is seen by later reads, one that reports
    an error may have been applied or not; a read finds the value, reports that there is none, or
    reports an error; an iterator gives the entries of a range (errors of an iterator, which
    the source does not ask for, are left out).  Times are seconds; [now] is the
    clock at the time of a call.  [None] is an execution without meaning: an access outside
    of a buffer or an exception that nobody catches. *)
From S2P Require Import Prelude Buffers Frame Bitmap Strings RdbDefine.

(** [rocksdb::Status::Code]. *)
Inductive status :=
| kOk | kNotFound | kCorruption | kNotSupported | kInvalidArgument | kIOError | kMergeInProgress | kIncomplete
| kShutdownInProgress | kTimedOut | kAborted | kBusy | kExpired | kTryAgain | kCompactionTooLarge
| kColumnFamilyDropped | kMaxCode.
#[global] Instance status_eq_dec : EqDecision status.
Proof. solve_decision. Defined.

Class Rocks (D : Type) := {
  db_put : list Z → list Z → D → status * D;
  db_get : list Z → D → status * list Z;
  db_delete : list Z → D → status * D;
  db_range : list Z → list Z → D → list (list Z * list Z) }.

Class RocksLaws (D : Type) `{Rocks D} (rocks_is : gmap (list Z) (list Z) → D → Prop) := {
  rocks_one m m' d : rocks_is m d → rocks_is m' d → m = m';
  db_put_ok m d k v : rocks_is m d →
    rocks_is (<[k := v]> m) (db_put k v d).2 ∨ ((db_put k v d).1 ≠ kOk ∧ rocks_is m (db_put k v d).2);
  db_get_ok m d k : rocks_is m d →
    ((db_get k d).1 = kOk → m !! k = Some (db_get k d).2) ∧ ((db_get k d).1 = kNotFound → m !! k = None);
  db_delete_ok m d k : rocks_is m d →
    rocks_is (delete k m) (db_delete k d).2 ∨ ((db_delete k d).1 ≠ kOk ∧ rocks_is m (db_delete k d).2);
  db_range_ok m d lo hi k v : rocks_is m d → (k, v) ∈ db_range lo hi d ↔ m !! k = Some v ∧ in_scan (lo, hi) k = true }.

(** ** Result codes *)

Definition KV_RETURN_DATA_EXPIRED : Z := -3988.
Definition KV_RETURN_DATA_NOT_EXIST : Z := -3998.
Definition KV_ROCKSDB_kNotSupported : Z := -3003.

Definition to_kvstore_code (s : status) : Z :=
  match s with
  | kOk => OP_RETURN_SUCCESS
  | kNotFound => KV_RETURN_DATA_NOT_EXIST
  | kCorruption => -3002
  | kNotSupported => KV_ROCKSDB_kNotSupported
  | kInvalidArgument => -3004
  | kIOError => -3005
  | kMergeInProgress => -3006
  | kIncomplete => -3007
  | kShutdownInProgress => -3008
  | kTimedOut => -3009
  | kAborted => -3010
  | kBusy => -3011
  | kExpired => -3012
  | kTryAgain => -3013
  | kCompactionTooLarge => -3014
  | kColumnFamilyDropped => -3015
  | kMaxCode => -3016
  end.

(** [KvEntry]. *)
Record kv_entry := { e_key : list Z; e_val : list Z; e_mtime : Z; e_etime : Z }.

Definition sMaxNamespaceCount : Z := 1024.

(** area_expired_ *)
Definition areaExpiredPrefix : list Z := [97; 114; 101; 97; 95; 101; 120; 112; 105; 114; 101; 100; 95].

(** [ExpiredFilter]: what it copied from the instance, and when it was made. *)
Record expired_filter := { fillterCheckTime : Z; f_areaExpiredSec : gmap Z Z; f_validBucketMgn : valid_buckets }.

Section Engine.
Context {D : Type} `{HR : Rocks D} (junk : nat → Z).

(** [RdbInstance] with both databases open; [factory] is what [filterFactory] holds. *)
Record rdb_instance := {
  dataDb : D;
  sysDb : D;
  areaExpiredSec : gmap Z Z;
  validBucketMgn : valid_buckets;
  factory : gmap Z Z * valid_buckets }.

Definition set_data (d : D) (r : rdb_instance) : rdb_instance :=
  Build_rdb_instance d (sysDb r) (areaExpiredSec r) (validBucketMgn r) (factory r).

Definition do_put (key item : list Z) (r : rdb_instance) : Z * rdb_instance :=
  let '(s, d) := db_put key item (dataDb r) in
  (if decide (s = kOk) then OP_RETURN_SUCCESS else to_kvstore_code s, set_data d r).

Definition do_get (key : list Z) (r : rdb_instance) : Z * list Z :=
  let '(s, v) := db_get key (dataDb r) in
  (if decide (s = kOk) then OP_RETURN_SUCCESS else to_kvstore_code s, v).

Definition do_remove (key : list Z) (r : rdb_instance) : Z * rdb_instance :=
  let '(s, _) := db_get key (dataDb r) in
  if decide (s = kNotFound) then (to_kvstore_code s, r) else
  let '(s, d) := db_delete key (dataDb r) in
  (if decide (s = kOk) then OP_RETURN_SUCCESS else to_kvstore_code s, set_data d r).

(** The slices of a key and of an item. *)
Definition storedKey (ns bucket_no : Z) (key : list Z) : option (list Z) :=
  k ← RdbKey_set junk key bucket_no ns RdbKey_new; Some (default [] (key_data k)).
Definition storedItem (mdate edate : Z) (value : list Z) : list Z :=
  default [] (item_data (RdbItem_set value
    {| item_meta := {| v_flag := 0; v_version := 0; v_mdate := mdate; v_edate := edate |}; item_data := None; item_alloc := false |})).

Definition RdbInstance_put (now ns bucket_no : Z) (key value : list Z) (expire_time : Z) (r : rdb_instance)
    : option (Z * rdb_instance) :=
  let mdate := u32 now in
  let edate := if negb (expire_time =? 0) then u32 (mdate + expire_time) else 0 in
  k ← storedKey ns bucket_no key;
  Some (do_put k (storedItem mdate edate value) r).

Definition getAreaExpiredTime (area : Z) (r : rdb_instance) : Z := default 0 (areaExpiredSec r !! area).

Definition RdbInstance_get (now ns bucket_no : Z) (key : list Z) (r : rdb_instance) : option (Z * option kv_entry) :=
  k ← storedKey ns bucket_no key;
  let '(rc, rdb_value) := do_get k r in
  if negb (rc =? OP_RETURN_SUCCESS) then Some (rc, None) else
  i ← RdbItem_assign (Some rdb_value) RdbItem_new;
  let m := item_meta i in
  if (negb (v_edate m =? 0) && (v_edate m <? now)) || (v_mdate m <? getAreaExpiredTime ns r)
  then Some (KV_RETURN_DATA_EXPIRED, None) else
  value ← RdbItem_value i;
  Some (OP_RETURN_SUCCESS, Some {| e_key := key; e_val := take (RdbItem_valueSize i) value;
                                   e_mtime := v_mdate m; e_etime := v_edate m |}).

Definition RdbInstance_remove (ns bucket_no : Z) (key : list Z) (r : rdb_instance) : option (Z * rdb_instance) :=
  k ← storedKey ns bucket_no key;
  Some (do_remove k r).

(** [areaExpiredPrefix + ":" + std::to_string(area)]. *)
Definition areaKey (area : Z) : list Z := areaExpiredPrefix ++ [58] ++ to_string area.

Definition clearArea (now area : Z) (r : rdb_instance) : Z * rdb_instance :=
  let '(s, d) := db_put (areaKey area) (to_string now) (sysDb r) in
  if decide (s = kOk) then
    let m := <[area := now]> (areaExpiredSec r) in
    (OP_RETURN_SUCCESS, Build_rdb_instance (dataDb r) d m (validBucketMgn r) (m, (factory r).2))
  else (to_kvstore_code s, Build_rdb_instance (dataDb r) d (areaExpiredSec r) (validBucketMgn r) (factory r)).

(** One entry of [loadAreaExpiredSec]; an area that is there keeps its time. *)
Definition loadArea (m : option (gmap Z Z)) (kv : list Z * list Z) : option (gmap Z Z) :=
  m ← m;
  vec ← tokenize kv.1 [58];
  match vec with
  | [_; a] => area ← stoi a; expired_ts ← stoul kv.2;
      Some (match m !! area with Some _ => m | None => <[area := expired_ts]> m end)
  | _ => Some m
  end.
Definition loadAreaExpiredSec (sys : D) : option (gmap Z Z) :=
  foldl loadArea (Some ∅) (db_range (areaExpiredPrefix ++ [58]) (areaExpiredPrefix ++ [59]) sys).

(** [initialize] on opened databases; [v] is the fresh [CValidBucketMgn]. *)
Definition RdbInstance_initialize (data sys : D) (v : valid_buckets) : option rdb_instance :=
  m ← loadAreaExpiredSec sys;
  Some {| dataDb := data; sysDb := sys; areaExpiredSec := m; validBucketMgn := v; factory := (m, v) |}.

Definition setValidBucketMgn (v : valid_buckets) (r : rdb_instance) : rdb_instance :=
  Build_rdb_instance (dataDb r) (sysDb r) (areaExpiredSec r) v ((factory r).1, v).

(** ** Compaction *)

Definition CreateCompactionFilter (now : Z) (r : rdb_instance) : expired_filter :=
  {| fillterCheckTime := now; f_areaExpiredSec := (factory r).1; f_validBucketMgn := (factory r).2 |}.

(** [Filter]: true lets RocksDB drop the entry. *)
Definition Filter (f : expired_filter) (key value : list Z) : option bool :=
  let rdb_key := RdbKey_assign (Some key) RdbKey_new in
  rdb_item ← RdbItem_assign (Some value) RdbItem_new;
  area ← RdbKey_area rdb_key;
  actual_bucket ← getBucketNumber rdb_key;
  if (area <? 0) || (sMaxNamespaceCount <=? area) then Some true else
  let area_expired_sec := default 0 (f_areaExpiredSec f !! area) in
  let m := item_meta rdb_item in
  if (negb (v_edate m =? 0) && (v_edate m <? fillterCheckTime f)) || (v_mdate m <? area_expired_sec) then Some true else
  valid ← ValidBucket_valid actual_bucket (f_validBucketMgn f);
  Some (negb valid).

(** ** [RdbManager] *)

Definition RdbManager_initBuckets (v : valid_buckets) (r : rdb_instance) : rdb_instance := setValidBucketMgn v r.

Definition RdbManager_put (now ns bucket_no : Z) (key value : list Z) (version_care : bool) (expire_time_sec : Z)
    (r : rdb_instance) : option (Z * rdb_instance) := RdbInstance_put now ns bucket_no key value (u32 expire_time_sec) r.
Definition RdbManager_get := RdbInstance_get.
Definition RdbManager_remove := RdbInstance_remove.
Definition RdbManager_clear (now area : Z) (r : rdb_instance) : Z * rdb_instance :=
  let '(rc, r) := clearArea now area r in
  if negb (rc =? OP_RETURN_SUCCESS) then (OP_RETURN_FAILED, r) else (OP_RETURN_SUCCESS, r).
End Engine.
Arguments rdb_instance : clear implicits.
