(* ===== verification/EngineSpec.v ===== *)
(** * The store engine as a map of values that age

    The contract of [Engine]: a map from (namespace, bucket, key) to a value with its dates,
    and the times at which namespaces were cleared, in memory and as they will be after a
    restart.  [runs] are the runs of the engine, with
    its calls, compactions by RocksDB with the engine's filter, and restarts;
    [engine_refines_map] shows that the answers of every run are answers of the map. *)
From S2P Require Import Prelude Buffers Frame Bitmap Strings RdbDefine Engine.

(** ** The map *)

Abbreviation full_key := (Z * Z * list Z)%type.

(** [cleared] are the times that count now, [saved] the ones that count after a restart. *)
Record store := { kv : gmap full_key kv_entry; cleared : gmap Z Z; saved : gmap Z Z; valid : valid_buckets }.

Definition expired (now area_sec : Z) (e : kv_entry) : bool :=
  (negb (e_etime e =? 0) && (e_etime e <? now)) || (e_mtime e <? area_sec).

(** What is there for a reader at [now]. *)
Definition live (now : Z) (s : store) (k : full_key) : option kv_entry :=
  e ← kv s !! k; if expired now (default 0 (cleared s !! k.1.1)) e then None else Some e.

(** Calls, and what they answer. *)
Inductive op :=
| OpPut (ns b : Z) (key value : list Z) (expire : Z)
| OpGet (ns b : Z) (key : list Z)
| OpRemove (ns b : Z) (key : list Z)
| OpClear (ns : Z)
| OpBuckets (v : valid_buckets)
| OpRestart (v : valid_buckets).

Abbreviation resp := (Z * option kv_entry)%type.

Definition key_ok (k : full_key) : Prop := 0 <= k.1.1 < sMaxNamespaceCount ∧ 0 <= k.1.2 < sMaxBucketNumber ∧ k.2 ≠ [].

(** Calls on namespaces, buckets and keys as they are meant, at times for which the dates
    fit their 32 bits. *)
Definition op_ok (now : Z) (o : op) : Prop :=
  is_u32 now ∧
  match o with
  | OpPut ns b key value expire => key_ok (ns, b, key) ∧ value ≠ [] ∧ 0 <= expire ∧ expire < 2 ^ 31 ∧ now + expire < 2 ^ 32
  | OpGet ns b key | OpRemove ns b key => key_ok (ns, b, key)
  | OpClear ns => 0 <= ns < sMaxNamespaceCount
  | OpBuckets _ | OpRestart _ => True
  end.

Definition with_kv (m : gmap full_key kv_entry) (s : store) : store :=
  {| kv := m; cleared := cleared s; saved := saved s; valid := valid s |}.
Definition with_times (c d : gmap Z Z) (v : valid_buckets) (s : store) : store :=
  {| kv := kv s; cleared := c; saved := d; valid := v |}.

(** The entry a put makes. *)
Definition new_entry (now : Z) (key value : list Z) (expire : Z) : kv_entry :=
  {| e_key := key; e_val := value; e_mtime := now; e_etime := if expire =? 0 then 0 else now + expire |}.

(** A write that answers 0 was made; one that answers anything else was made or not. *)
Definition written (rc : Z) (s s1 s' : store) : Prop := s' = s1 ∨ (rc ≠ 0 ∧ s' = s).

(** What a call may answer, and the map after it.  A get answers 0 with exactly the live value,
    and that there is none only when there is none.  A clear that fails does not count now, but
    may count after a restart. *)
Inductive spec_step (now : Z) (s : store) : op → resp → store → Prop :=
| spec_put ns b key value expire rc s' :
    written rc s (with_kv (<[(ns, b, key) := new_entry now key value expire]> (kv s)) s) s' →
    spec_step now s (OpPut ns b key value expire) (rc, None) s'
| spec_found ns b key e : live now s (ns, b, key) = Some e → spec_step now s (OpGet ns b key) (0, Some e) s
| spec_missing ns b key rc : rc ≠ 0 →
    (rc = KV_RETURN_DATA_NOT_EXIST ∨ rc = KV_RETURN_DATA_EXPIRED → live now s (ns, b, key) = None) →
    spec_step now s (OpGet ns b key) (rc, None) s
| spec_remove ns b key rc s' :
    written rc s (with_kv (delete (ns, b, key) (kv s)) s) s' → spec_step now s (OpRemove ns b key) (rc, None) s'
| spec_clear ns :
    spec_step now s (OpClear ns) (0, None) (with_times (<[ns := now]> (cleared s)) (<[ns := now]> (saved s)) (valid s) s)
| spec_not_cleared ns rc s' : rc ≠ 0 →
    written rc s (with_times (cleared s) (<[ns := now]> (saved s)) (valid s) s) s' → spec_step now s (OpClear ns) (rc, None) s'
| spec_buckets v : spec_step now s (OpBuckets v) (0, None) (with_times (cleared s) (saved s) v s)
| spec_restart v : spec_step now s (OpRestart v) (0, None) (with_times (saved s) (saved s) v s).

(** A compaction drops values that are not live, and values of buckets that are not valid. *)
Definition spec_compact (now : Z) (s s' : store) : Prop :=
  cleared s' = cleared s ∧ saved s' = saved s ∧ valid s' = valid s ∧
  ∀ k, kv s' !! k = kv s !! k ∨
    (kv s' !! k = None ∧ (live now s k = None ∨ ValidBucket_valid k.1.2 (valid s) = Some false)).

(** An entry of a history: a call with its answer, or a compaction. *)
Abbreviation entry := (Z * option (op * resp))%type.

Inductive spec_runs : store → list entry → store → Prop :=
| spec_end s : spec_runs s [] s
| spec_call now s o a s1 l s2 : spec_step now s o a s1 → spec_runs s1 l s2 → spec_runs s ((now, Some (o, a)) :: l) s2
| spec_dropped now s s1 l s2 : spec_compact now s s1 → spec_runs s1 l s2 → spec_runs s ((now, None) :: l) s2.

(** ** Runs of the engine *)

Section Runs.
Context {D : Type} `{HR : Rocks D} (rocks_is : gmap (list Z) (list Z) → D → Prop) (junk : nat → Z).

Definition exec (now : Z) (o : op) (r : rdb_instance D) : option (resp * rdb_instance D) :=
  match o with
  | OpPut ns b key value expire => '(rc, r) ← RdbManager_put junk now ns b key value false expire r; Some ((rc, None), r)
  | OpGet ns b key => a ← RdbManager_get junk now ns b key r; Some (a, r)
  | OpRemove ns b key => '(rc, r) ← RdbManager_remove junk ns b key r; Some ((rc, None), r)
  | OpClear ns => let '(rc, r) := RdbManager_clear now ns r in Some ((rc, None), r)
  | OpBuckets v => Some ((0, None), RdbManager_initBuckets v r)
  | OpRestart v => r ← RdbInstance_initialize (dataDb r) (sysDb r) v; Some ((0, None), r)
  end.

(** What RocksDB documents of a compaction with a filter: each entry stays, or the filter
    was true of it. *)
Definition compacted (f : expired_filter) (m m' : gmap (list Z) (list Z)) : Prop :=
  ∀ k, m' !! k = m !! k ∨ (m' !! k = None ∧ ∃ v, m !! k = Some v ∧ Filter f k v = Some true).

Inductive runs : rdb_instance D → list entry → rdb_instance D → Prop :=
| runs_end r : runs r [] r
| runs_call now r o a r1 l r2 :
    op_ok now o → exec now o r = Some (a, r1) → runs r1 l r2 → runs r ((now, Some (o, a)) :: l) r2
| runs_compact now r m m' d l r2 :
    is_u32 now → rocks_is m (dataDb r) → rocks_is m' d → compacted (CreateCompactionFilter now r) m m' →
    runs (set_data d r) l r2 → runs r ((now, None) :: l) r2.

(** ** The relation *)

Definition key_bytes (k : full_key) : list Z := be_bytes 3 k.1.2 ++ encodeArea k.1.1 ++ k.2.
Definition entry_bytes (e : kv_entry) : list Z := storedItem (e_mtime e) (e_etime e) (e_val e).

Definition entry_ok (k : full_key) (e : kv_entry) : Prop :=
  e_key e = k.2 ∧ e_val e ≠ [] ∧ is_u32 (e_mtime e) ∧ is_u32 (e_etime e).

(** The entries of [m] in the range that is loaded are the times [c]. *)
Definition times_in (c : gmap Z Z) (m : gmap (list Z) (list Z)) : Prop :=
  ∀ k v, in_scan (areaExpiredPrefix ++ [58], areaExpiredPrefix ++ [59]) k = true →
    m !! k = Some v ↔ ∃ a t, c !! a = Some t ∧ k = areaKey a ∧ v = to_string t.

Record refines (s : store) (r : rdb_instance D) : Prop := {
  rf_data : ∃ m, rocks_is m (dataDb r) ∧ ∀ k, key_ok k → m !! key_bytes k = entry_bytes <$> kv s !! k;
  rf_sys : ∃ m, rocks_is m (sysDb r) ∧ times_in (saved s) m;
  rf_kv : ∀ k e, kv s !! k = Some e → key_ok k ∧ entry_ok k e;
  rf_cleared : areaExpiredSec r = cleared s ∧ validBucketMgn r = valid s ∧ factory r = (cleared s, valid s);
  rf_times : ∀ a t, saved s !! a = Some t → 0 <= a < sMaxNamespaceCount ∧ is_u32 t }.
End Runs.

(** ** Keys and values in the database *)

Section Refinement.
Context {D : Type} `{HL : RocksLaws D rocks_is} (junk : nat → Z).
Implicit Types (s : store) (r : rdb_instance D) (k : full_key) (e : kv_entry) (m : gmap (list Z) (list Z)).

Lemma storedKey_bytes ns b key : key ≠ [] → storedKey junk ns b key = Some (key_bytes (ns, b, key)).
Proof. intros Hk. unfold storedKey. rewrite RdbKey_set_bytes by done. done. Qed.

Lemma key_bytes_parts k :
  key_ok k →
  getBucketNumber (RdbKey_assign (Some (key_bytes k)) RdbKey_new) = Some k.1.2 ∧
  RdbKey_area (RdbKey_assign (Some (key_bytes k)) RdbKey_new) = Some k.1.1 ∧ drop 5 (key_bytes k) = k.2.
Proof.
  intros (Hns & Hb & _). unfold sMaxNamespaceCount, sMaxBucketNumber in *. split_and!.
  - unfold getBucketNumber, RdbKey_assign, key_bytes. cbn [key_data]. rewrite bind_Some_eq. apply decodeBucketNumber_bytes. lia.
  - unfold RdbKey_area, RdbKey_assign, key_bytes. cbn [key_data]. rewrite drop_app_length' by (by rewrite length_be_bytes).
    apply encodeArea_bytes. lia.
  - reflexivity.
Qed.

Lemma key_bytes_inj k1 k2 : key_ok k1 → key_ok k2 → key_bytes k1 = key_bytes k2 → k1 = k2.
Proof.
  intros H1 H2 Heq. destruct (key_bytes_parts k1 H1) as (B1 & A1 & K1), (key_bytes_parts k2 H2) as (B2 & A2 & K2).
  rewrite Heq in *. destruct k1 as [[ns1 b1] key1], k2 as [[ns2 b2] key2]. cbn [fst snd] in *. congruence.
Qed.

(** What reading the bytes of an entry gives. *)
Lemma entry_bytes_read k e :
  entry_ok k e →
  ∃ i, RdbItem_assign (Some (entry_bytes e)) RdbItem_new = Some i ∧ RdbItem_value i = Some (e_val e) ∧
    RdbItem_valueSize i = length (e_val e) ∧ v_mdate (item_meta i) = e_mtime e ∧ v_edate (item_meta i) = e_etime e.
Proof.
  intros (_ & Hv & Hm & He).
  destruct (item_roundtrip (e_val e)
    {| item_meta := Build_value_meta 0 0 (e_mtime e) (e_etime e); item_data := None; item_alloc := false |}) as (data & i & Hd & Hi & H1 & H2 & _ & H3 & H4 & _); [done| |].
  { split; cbn; (exact Hm || exact He || (vm_compute; split; congruence)). }
  exists i. unfold entry_bytes, storedItem. rewrite Hd. done.
Qed.

Lemma code_zero st : to_kvstore_code st = 0 ↔ st = kOk.
Proof. by destruct st. Qed.
Lemma code_missing st : to_kvstore_code st = KV_RETURN_DATA_NOT_EXIST ↔ st = kNotFound.
Proof. by destruct st. Qed.
Lemma code_not_expired st : to_kvstore_code st ≠ KV_RETURN_DATA_EXPIRED.
Proof. by destruct st. Qed.
Lemma code_of st : (if decide (st = kOk) then OP_RETURN_SUCCESS else to_kvstore_code st) = to_kvstore_code st.
Proof. case_decide; by subst. Qed.

(** ** One call *)

Local Abbreviation refines := (refines rocks_is).

(** A write of one key of the data: the relation is kept, whatever is written. *)
Lemma refines_update s r k (o : option kv_entry) d m :
  refines s r → key_ok k → (∀ e, o = Some e → entry_ok k e) →
  rocks_is m (dataDb r) → (∀ k, key_ok k → m !! key_bytes k = entry_bytes <$> kv s !! k) →
  rocks_is (partial_alter (λ _, entry_bytes <$> o) (key_bytes k) m) d →
  refines (with_kv (partial_alter (λ _, o) k (kv s)) s) (set_data d r).
Proof.
  intros [_ Hsys Hkv Hcl Ht] Hk Ho Hm Hmk Hd. split; [| exact Hsys | | exact Hcl | exact Ht].
  - eexists. split; [exact Hd|]. intros k' Hk'. cbn [kv with_kv].
    destruct (decide (k' = k)) as [->|Hne]; [by rewrite !lookup_partial_alter_eq|].
    rewrite !lookup_partial_alter_ne; [by apply Hmk|done|]. intros Heq. by apply Hne, key_bytes_inj.
  - intros k' e. cbn [kv with_kv]. destruct (decide (k' = k)) as [->|Hne].
    + rewrite lookup_partial_alter_eq. eauto.
    + rewrite lookup_partial_alter_ne by done. apply Hkv.
Qed.

(** The data database after a call that did not write. *)
Lemma refines_same s r d m :
  refines s r → rocks_is m (dataDb r) → (∀ k, key_ok k → m !! key_bytes k = entry_bytes <$> kv s !! k) →
  rocks_is m d → refines s (set_data d r).
Proof. intros [_ Hsys Hkv Hcl Ht] Hm Hmk Hd. split; [by exists m|exact Hsys|exact Hkv|exact Hcl|exact Ht]. Qed.

Lemma put_sim now s r ns b key value expire :
  refines s r → op_ok now (OpPut ns b key value expire) →
  ∃ a r' s', exec junk now (OpPut ns b key value expire) r = Some (a, r') ∧
    spec_step now s (OpPut ns b key value expire) a s' ∧ refines s' r'.
Proof.
  intros Hr (Hnow & Hk & Hv & He1 & He2 & He3). destruct (rf_data _ _ _ Hr) as (m & Hm & Hmk).
  unfold exec, RdbManager_put, RdbInstance_put. rewrite (u32_id now), (u32_id expire) by (done || (unfold is_u32; lia)).
  destruct Hk as (Hns & Hb & Hkey). rewrite storedKey_bytes, bind_Some_eq by exact Hkey. unfold do_put.
  assert (Hed : (if negb (expire =? 0) then u32 (now + expire) else 0) = e_etime (new_entry now key value expire)).
  { cbn. destruct (expire =? 0); [done|]. cbn. apply u32_id. unfold is_u32 in *. lia. }
  rewrite Hed. change (storedItem now (e_etime (new_entry now key value expire)) value) with (entry_bytes (new_entry now key value expire)).
  pose proof (db_put_ok m (dataDb r) (key_bytes (ns, b, key)) (entry_bytes (new_entry now key value expire)) Hm) as Hput.
  destruct (db_put _ _ _) as [st d]. cbn [fst snd] in Hput. rewrite code_of, bind_Some_eq.
  assert (Hent : entry_ok (ns, b, key) (new_entry now key value expire)).
  { split_and!; [done|done|done|]. cbn. destruct (expire =? 0); unfold is_u32 in *; lia. }
  eexists _, _. destruct Hput as [Hput|[Hst Hput]].
  - eexists. split; [reflexivity|]. split; [apply spec_put; by left|].
    apply (refines_update s r (ns, b, key) (Some (new_entry now key value expire)) d m); try done.
    by intros e [= <-].
  - exists s. split; [reflexivity|]. split; [apply spec_put; right; by rewrite code_zero|]. by apply (refines_same s r d m).
Qed.

Lemma remove_sim now s r ns b key :
  refines s r → op_ok now (OpRemove ns b key) →
  ∃ a r' s', exec junk now (OpRemove ns b key) r = Some (a, r') ∧ spec_step now s (OpRemove ns b key) a s' ∧ refines s' r'.
Proof.
  intros Hr (Hnow & Hk). destruct (rf_data _ _ _ Hr) as (m & Hm & Hmk).
  unfold exec, RdbManager_remove, RdbInstance_remove.
  rewrite storedKey_bytes, bind_Some_eq by apply Hk. unfold do_remove.
  destruct (db_get _ _) as [st v] eqn:Eg. destruct (decide (st = kNotFound)) as [->|Hst].
  { rewrite bind_Some_eq. eexists _, _, s. split; [reflexivity|]. split; [apply spec_remove; by right|done]. }
  pose proof (db_delete_ok m (dataDb r) (key_bytes (ns, b, key)) Hm) as Hdel.
  destruct (db_delete _ _) as [st' d]. cbn [fst snd] in Hdel. rewrite code_of, bind_Some_eq.
  eexists _, _. destruct Hdel as [Hdel|[Hst' Hdel]].
  - eexists. split; [reflexivity|]. split; [apply spec_remove; by left|]. by apply (refines_update s r (ns, b, key) None d m).
  - exists s. split; [reflexivity|]. split; [apply spec_remove; right; by rewrite code_zero|]. by apply (refines_same s r d m).
Qed.

Lemma get_sim now s r ns b key :
  refines s r → op_ok now (OpGet ns b key) →
  ∃ a r' s', exec junk now (OpGet ns b key) r = Some (a, r') ∧ spec_step now s (OpGet ns b key) a s' ∧ refines s' r'.
Proof.
  intros Hr (Hnow & Hk). destruct (rf_data _ _ _ Hr) as (m & Hm & Hmk). specialize (Hmk _ Hk).
  unfold exec, RdbManager_get, RdbInstance_get. rewrite storedKey_bytes, bind_Some_eq by apply Hk. unfold do_get.
  destruct (db_get_ok m (dataDb r) (key_bytes (ns, b, key)) Hm) as [Hok Hnf].
  destruct (db_get _ _) as [st v]. cbn [fst snd] in Hok, Hnf. rewrite code_of.
  destruct (decide (st = kOk)) as [->|Hst].
  - change (negb (to_kvstore_code kOk =? OP_RETURN_SUCCESS)) with false. cbn [to_kvstore_code].
    rewrite Hok in Hmk by done. destruct (kv s !! (ns, b, key)) as [e|] eqn:Ekv; [|done]. injection Hmk as ->.
    destruct (rf_kv _ _ _ Hr _ _ Ekv) as [_ He]. destruct (entry_bytes_read _ _ He) as (i & Hi & Hval & Hsz & Hmt & Het).
    rewrite Hi, bind_Some_eq, Hmt, Het.
    assert (Ha : getAreaExpiredTime ns r = default 0 (cleared s !! ns)).
    { unfold getAreaExpiredTime. by destruct (rf_cleared _ _ _ Hr) as [-> _]. }
    rewrite Ha. fold (expired now (default 0 (cleared s !! ns)) e).
    assert (Hlive : live now s (ns, b, key) = if expired now (default 0 (cleared s !! ns)) e then None else Some e).
    { unfold live. by rewrite Ekv. }
    destruct (expired now _ e).
    + rewrite bind_Some_eq. eexists _, _, _. split; [reflexivity|]. split; [by apply spec_missing|done].
    + rewrite Hval, Hsz, !bind_Some_eq, take_ge by lia. eexists _, _, _. split; [reflexivity|]. split; [|done].
      destruct He as [Hek _], e as [ek ev emt eet]. cbn in Hek. rewrite <- Hek in *. by apply spec_found.
  - rewrite (proj2 (Z.eqb_neq _ _)) by (by rewrite code_zero). cbn [negb]. rewrite bind_Some_eq.
    eexists _, _, _. split; [reflexivity|]. split; [|done]. apply spec_missing; [by rewrite code_zero|].
    intros [->%code_missing|Hex]; [|by destruct (code_not_expired st)].
    unfold live. rewrite Hnf in Hmk by done. by destruct (kv s !! _).
Qed.

(** ** The times namespaces were cleared *)

Lemma to_string_inj n1 n2 : 0 <= n1 → 0 <= n2 → to_string n1 = to_string n2 → n1 = n2.
Proof. intros H1 H2 Heq. pose proof (parse_to_string n1 H1) as P1. rewrite Heq, parse_to_string in P1 by done. congruence. Qed.

Lemma areaKey_inj a1 a2 : 0 <= a1 → 0 <= a2 → areaKey a1 = areaKey a2 → a1 = a2.
Proof. intros H1 H2 Heq. unfold areaKey in Heq. do 2 apply app_inv_head in Heq. by apply to_string_inj. Qed.

Lemma areaKey_in_scan a : in_scan (areaExpiredPrefix ++ [58], areaExpiredPrefix ++ [59]) (areaKey a) = true.
Proof. unfold in_scan, areaKey. cbn -[to_string]. by destruct (to_string a). Qed.

Lemma times_insert c m ns now :
  times_in c m → (∀ a t, c !! a = Some t → 0 <= a) → 0 <= ns → times_in (<[ns := now]> c) (<[areaKey ns := to_string now]> m).
Proof.
  intros Hm Hc Hns k v Hk. destruct (decide (k = areaKey ns)) as [->|Hne].
  - rewrite lookup_insert_eq. split.
    + intros [= <-]. exists ns, now. by rewrite lookup_insert_eq.
    + intros (a & t & Ha & Heq & ->). destruct (decide (a = ns)) as [->|Hne'].
      { rewrite lookup_insert_eq in Ha. by injection Ha as ->. }
      rewrite lookup_insert_ne in Ha by done. apply Hc in Ha. destruct Hne'. symmetry. by apply areaKey_inj.
  - rewrite lookup_insert_ne by done. rewrite (Hm k v Hk). split; intros (a & t & Ha & -> & ->); exists a, t.
    + rewrite lookup_insert_ne; [done|]. by intros <-.
    + rewrite lookup_insert_ne in Ha; [done|]. by intros <-.
Qed.

(** The relation with other times in the second database, and with others in memory. *)
Lemma refines_times s r c c' m d v :
  refines s r → rocks_is m d → times_in c' m → (∀ a t, c' !! a = Some t → 0 <= a < sMaxNamespaceCount ∧ is_u32 t) →
  refines (with_times c c' v s) (Build_rdb_instance (dataDb r) d c v (c, v)).
Proof. intros Hr Hm Hc Ht. split; [apply Hr|by exists m|apply Hr|done|exact Ht]. Qed.

Lemma clear_sim now s r ns :
  refines s r → op_ok now (OpClear ns) →
  ∃ a r' s', exec junk now (OpClear ns) r = Some (a, r') ∧ spec_step now s (OpClear ns) a s' ∧ refines s' r'.
Proof.
  intros Hr (Hnow & Hns). destruct (rf_sys _ _ _ Hr) as (m & Hm & Hmk). destruct (rf_cleared _ _ _ Hr) as (Hcl & Hvb & Hf).
  assert (Ht : ∀ a t, <[ns := now]> (saved s) !! a = Some t → 0 <= a < sMaxNamespaceCount ∧ is_u32 t).
  { intros a t [(<- & <-)|(_ & Ha)]%lookup_insert_Some; [done|]. by apply (rf_times _ _ _ Hr) in Ha. }
  assert (Hmk' : times_in (<[ns := now]> (saved s)) (<[areaKey ns := to_string now]> m)).
  { apply times_insert; [done| |lia]. intros a t Ha. apply (rf_times _ _ _ Hr) in Ha. lia. }
  unfold exec, RdbManager_clear, clearArea.
  pose proof (db_put_ok m (sysDb r) (areaKey ns) (to_string now) Hm) as Hput.
  destruct (db_put _ _ _) as [st d]. cbn [fst snd] in Hput. destruct (decide (st = kOk)) as [->|Hst].
  - destruct Hput as [Hput|[? _]]; [|done]. eexists _, _, _. split; [reflexivity|]. split; [apply spec_clear|].
    rewrite Hcl, Hvb, Hf. by apply (refines_times s r _ _ (<[areaKey ns := to_string now]> m)).
  - rewrite (proj2 (Z.eqb_neq _ _)) by (by rewrite code_zero). rewrite Hcl, Hvb, Hf.
    destruct Hput as [Hput|[_ Hput]]; eexists _, _, _; (split; [reflexivity|]).
    + split; [apply spec_not_cleared; [done|by left]|]. by apply (refines_times s r _ _ (<[areaKey ns := to_string now]> m)).
    + split; [apply spec_not_cleared; [done|by right]|]. destruct Hr as [H1 _ H3 H4 H5]. split; [exact H1|by exists m|exact H3|done|exact H5].
Qed.

Lemma buckets_sim now s r v :
  refines s r → ∃ a r' s', exec junk now (OpBuckets v) r = Some (a, r') ∧ spec_step now s (OpBuckets v) a s' ∧ refines s' r'.
Proof.
  intros [H1 H2 H3 (H4 & _ & H5) H6]. eexists _, _, _. split; [reflexivity|]. split; [apply spec_buckets|].
  split; [exact H1|exact H2|exact H3| |exact H6]. cbn. by rewrite H5.
Qed.

Lemma is_digit_not_colon l : Forall (λ c, is_digit c = true) l → 58 ∉ l.
Proof. intros Hl Hin. rewrite list.Forall_forall in Hl. by apply Hl in Hin. Qed.

(** An entry of the second database is read back. *)
Lemma loadArea_entry mm a t :
  0 <= a < sMaxNamespaceCount → is_u32 t →
  loadArea (Some mm) (areaKey a, to_string t) =
    Some (match mm !! a with Some _ => mm | None => <[a := t]> mm end).
Proof.
  intros Ha Ht. unfold sMaxNamespaceCount in Ha. unfold is_u32 in Ht. unfold loadArea. rewrite bind_Some_eq. cbn [fst snd].
  destruct (to_string_digits a ltac:(lia)) as [Hd Hne].
  pose proof (tokenize_parts 58 [areaExpiredPrefix] (to_string a)) as Htok.
  change (join_with 58 ([areaExpiredPrefix] ++ [to_string a])) with (areaKey a) in Htok.
  rewrite Htok.
  - rewrite bind_Some_eq. cbn [app]. rewrite stoi_to_string, bind_Some_eq, stoul_to_string, bind_Some_eq by lia. done.
  - repeat constructor; [by apply (bool_decide_unpack _)|by apply is_digit_not_colon].
  - done.
Qed.

Lemma loadAreas (c : gmap Z Z) l mm :
  (∀ a t, c !! a = Some t → 0 <= a < sMaxNamespaceCount ∧ is_u32 t) →
  (∀ kv, kv ∈ l → ∃ a t, c !! a = Some t ∧ kv = (areaKey a, to_string t)) → mm ⊆ c →
  ∃ mm', foldl loadArea (Some mm) l = Some mm' ∧ mm' ⊆ c ∧ mm ⊆ mm' ∧
    ∀ a t, c !! a = Some t → (areaKey a, to_string t) ∈ l → mm' !! a = Some t.
Proof.
  intros Hc. revert mm. induction l as [|x l IH]; intros mm Hl Hmm.
  { exists mm. split_and!; [done|done|done|]. intros a t _ Hin. by apply elem_of_nil in Hin. }
  destruct (Hl x) as (a & t & Ha & ->); [left|]. destruct (Hc a t Ha) as [Hr1 Hr2].
  cbn [foldl]. rewrite loadArea_entry by done.
  set (mm1 := match mm !! a with Some _ => mm | None => <[a := t]> mm end).
  assert (mm ⊆ mm1 ∧ mm1 ⊆ c ∧ mm1 !! a = Some t) as (Hs1 & Hs2 & Hs3).
  { unfold mm1. destruct (mm !! a) as [t'|] eqn:Em.
    - split_and!; [done|done|]. pose proof (lookup_weaken _ _ _ _ Em Hmm). congruence.
    - split_and!; [by apply insert_subseteq| |by rewrite lookup_insert_eq]. by apply insert_subseteq_l. }
  destruct (IH mm1) as (mm' & Hf & H1 & H2 & H3); [intros kv Hkv; apply Hl; by right|done|].
  exists mm'. split_and!; [done|done|by etrans|]. intros a' t' Ha' [Heq|Hin]%elem_of_cons; [|by apply H3].
  injection Heq as Heq _. apply to_string_inj in Heq as ->; [|apply Hc in Ha'; lia|lia].
  assert (t' = t) as -> by congruence. exact (lookup_weaken _ _ _ _ Hs3 H2).
Qed.

Lemma load_ok s r : refines s r → loadAreaExpiredSec (sysDb r) = Some (saved s).
Proof.
  intros Hr. destruct (rf_sys _ _ _ Hr) as (m & Hm & Hmk). unfold loadAreaExpiredSec.
  destruct (loadAreas (saved s) (db_range (areaExpiredPrefix ++ [58]) (areaExpiredPrefix ++ [59]) (sysDb r)) ∅)
    as (mm & Hf & H1 & _ & H3).
  - apply (rf_times _ _ _ Hr).
  - intros [k v] [Hin Hscan]%(db_range_ok m); [|done]. apply Hmk in Hin as (a & t & Ha & -> & ->); [by exists a, t|done].
  - apply map_empty_subseteq.
  - rewrite Hf. f_equal. apply (anti_symm (⊆)); [done|]. apply map_subseteq_spec. intros a t Ha. apply H3; [done|].
    apply (db_range_ok m); [done|]. split; [|apply areaKey_in_scan]. apply Hmk; [apply areaKey_in_scan|by exists a, t].
Qed.

Lemma restart_sim now s r v :
  refines s r → ∃ a r' s', exec junk now (OpRestart v) r = Some (a, r') ∧ spec_step now s (OpRestart v) a s' ∧ refines s' r'.
Proof.
  intros Hr. unfold exec, RdbInstance_initialize. rewrite (load_ok s) by done. rewrite !bind_Some_eq.
  eexists _, _, _. split; [reflexivity|]. split; [apply spec_restart|]. destruct Hr as [H1 H2 H3 _ H6].
  by split.
Qed.

(** Every call is defined, answers as the map does and keeps the relation. *)
Lemma exec_sim now s r o :
  refines s r → op_ok now o →
  ∃ a r' s', exec junk now o r = Some (a, r') ∧ spec_step now s o a s' ∧ refines s' r'.
Proof.
  destruct o; intros.
  - by apply put_sim.
  - by apply get_sim.
  - by apply remove_sim.
  - by apply clear_sim.
  - by apply buckets_sim.
  - by apply restart_sim.
Qed.

(** ** Compaction *)

Lemma Filter_true now s r k e :
  refines s r → kv s !! k = Some e → Filter (CreateCompactionFilter now r) (key_bytes k) (entry_bytes e) = Some true →
  live now s k = None ∨ ValidBucket_valid k.1.2 (valid s) = Some false.
Proof.
  intros Hr Hk HF. destruct (rf_kv _ _ _ Hr _ _ Hk) as [Hok He]. destruct (key_bytes_parts k Hok) as (HB & HA & _).
  destruct (entry_bytes_read _ _ He) as (i & Hi & _ & _ & Hmt & Het). destruct (rf_cleared _ _ _ Hr) as (_ & _ & Hf).
  unfold Filter in HF. rewrite Hi, bind_Some_eq, HA, bind_Some_eq, HB, bind_Some_eq, Hmt, Het in HF.
  destruct Hok as ((H1 & H2) & _). rewrite (proj2 (Z.ltb_ge _ _)), (proj2 (Z.leb_gt _ _)) in HF by done. cbn [orb] in HF.
  unfold CreateCompactionFilter in HF. rewrite Hf in HF. cbn [fillterCheckTime f_areaExpiredSec f_validBucketMgn fst snd] in HF.
  fold (expired now (default 0 (cleared s !! k.1.1)) e) in HF. unfold live. rewrite Hk, bind_Some_eq.
  destruct (expired now _ e); [by left|]. right. step_inv HF. injection HF as HF. apply negb_true_iff in HF. by rewrite E, HF.
Qed.

Lemma compact_sim now s r m m' d :
  refines s r → rocks_is m (dataDb r) → rocks_is m' d → compacted (CreateCompactionFilter now r) m m' →
  ∃ s', spec_compact now s s' ∧ refines s' (set_data d r).
Proof.
  intros Hr Hm Hm' Hc. pose proof (rf_kv _ _ _ Hr) as Hkv. destruct (rf_data _ _ _ Hr) as (m0 & Hm0 & Hmk).
  rewrite (rocks_one _ _ _ Hm0 Hm) in Hmk.
  exists (with_kv (filter (λ '(k, _), is_Some (m' !! key_bytes k)) (kv s)) s).
  assert (Hlk : ∀ k, filter (λ '(k, _), is_Some (m' !! key_bytes k)) (kv s) !! k =
    if decide (is_Some (m' !! key_bytes k)) then kv s !! k else None).
  { intros k. apply option_eq. intros e. rewrite map_lookup_filter_Some. case_decide; [tauto|].
    split; [tauto|done]. }
  split.
  - split_and!; [done|done|done|]. intros k. cbn [kv with_kv]. rewrite Hlk. case_decide as Hd; [by left|].
    destruct (kv s !! k) as [e|] eqn:Ek; [|by left]. right. split; [done|]. destruct (Hkv _ _ Ek) as [Hok _].
    destruct (Hc (key_bytes k)) as [Heq|(_ & v & Hv & HF)].
    + destruct Hd. rewrite Heq, Hmk, Ek by done. done.
    + rewrite Hmk, Ek in Hv by done. injection Hv as <-. by apply (Filter_true now s r k e).
  - destruct Hr as [_ H2 _ H4 H5]. split; [|exact H2| |exact H4|exact H5].
    + exists m'. split; [done|]. intros k Hk. cbn [kv with_kv]. rewrite Hlk.
      case_decide as Hd; [|by apply eq_None_not_Some].
      destruct (Hc (key_bytes k)) as [Heq|(Heq & _)]; [by rewrite Heq, Hmk|]. rewrite Heq in Hd. by destruct Hd.
    + intros k e. cbn [kv with_kv]. rewrite Hlk. case_decide; [apply Hkv|done].
Qed.

Lemma runs_sim s r l r' :
  refines s r → runs rocks_is junk r l r' → ∃ s', spec_runs s l s' ∧ refines s' r'.
Proof.
  intros Hr Hruns. revert s Hr. induction Hruns as [r|now r o a r1 l r2 Hok Hex _ IH|now r m m' d l r2 _ Hm Hm' Hc _ IH]; intros s Hr.
  - exists s. split; [constructor|done].
  - destruct (exec_sim now s r o Hr Hok) as (a' & r1' & s1 & Hex' & Hst & Hr1).
    rewrite Hex' in Hex. injection Hex as -> ->. destruct (IH s1 Hr1) as (s' & Hs' & Hr').
    exists s'. split; [by econstructor|done].
  - destruct (compact_sim now s r m m' d Hr Hm Hm' Hc) as (s1 & Hst & Hr1). destruct (IH s1 Hr1) as (s' & Hs' & Hr').
    exists s'. split; [by econstructor|done].
Qed.

Definition empty_store (v : valid_buckets) : store := {| kv := ∅; cleared := ∅; saved := ∅; valid := v |}.

Lemma refines_new data sys v r :
  rocks_is ∅ data → rocks_is ∅ sys → RdbInstance_initialize data sys v = Some r → refines (empty_store v) r.
Proof.
  intros Hd Hs. unfold RdbInstance_initialize, loadAreaExpiredSec.
  destruct (db_range _ _ sys) as [|[k x] l] eqn:El.
  - cbn [foldl]. rewrite bind_Some_eq. intros [= <-]. split; cbn.
    + exists ∅. split; [done|]. intros k _. by rewrite !lookup_empty.
    + exists ∅. split; [done|]. intros k x _. rewrite lookup_empty. split; [done|]. intros (a & t & Ha & _). by rewrite lookup_empty in Ha.
    + intros k e Hk. by rewrite lookup_empty in Hk.
    + done.
    + intros a t Ha. by rewrite lookup_empty in Ha.
  - assert (Hin : (k, x) ∈ db_range (areaExpiredPrefix ++ [58]) (areaExpiredPrefix ++ [59]) sys) by (rewrite El; left).
    apply (db_range_ok ∅) in Hin as [Hin _]; [|done]. by rewrite lookup_empty in Hin.
Qed.


(** No call of the engine goes wrong.  After every such history every call is defined:
    no read outside of a stored value, no exception while the times are loaded. *)
Lemma engine_defined data sys v r l r' now o :
  rocks_is ∅ data → rocks_is ∅ sys → RdbInstance_initialize data sys v = Some r →
  runs rocks_is junk r l r' → op_ok now o → ∃ a r'', exec junk now o r' = Some (a, r'').
Proof.
  intros Hd Hs Hi Hl Ho. destruct (runs_sim _ _ _ _ (refines_new data sys v r Hd Hs Hi) Hl) as (s' & _ & Hr').
  destruct (exec_sim now s' r' o Hr' Ho) as (a & r'' & _ & Hex & _). by exists a, r''.
Qed.

(** ** Values that stay *)

(** The entry of the history leaves the value at [k], put at [t0] and read by [t2], alone.  A clear in
    the second of the put or before does not reach it; writes of it do, whatever they answered. *)
Definition leaves (k : full_key) (t0 t2 : Z) (x : entry) : Prop :=
  match x.2 with
  | None => x.1 <= t2
  | Some (o, a) =>
      match o with
      | OpPut ns b key _ _ | OpRemove ns b key => (ns, b, key) ≠ k
      | OpClear ns => ns ≠ k.1.1 ∨ x.1 <= t0
      | OpBuckets v | OpRestart v => ValidBucket_valid k.1.2 v = Some true
      | OpGet _ _ _ => True
      end
  end.

(** The value at [k] is [e], readers see it until [t2] and no compaction takes it. *)
Definition stays (k : full_key) (e : kv_entry) (t2 : Z) (s : store) : Prop :=
  kv s !! k = Some e ∧ default 0 (cleared s !! k.1.1) <= e_mtime e ∧ default 0 (saved s !! k.1.1) <= e_mtime e ∧
  ValidBucket_valid k.1.2 (valid s) = Some true ∧
  (e_etime e = 0 ∨ t2 <= e_etime e).

Lemma stays_live k e t2 t s : stays k e t2 s → t <= t2 → live t s k = Some e.
Proof.
  intros (Hk & Hc & _ & _ & He) Ht. unfold live, expired. rewrite Hk, bind_Some_eq, (proj2 (Z.ltb_ge (e_mtime e) _)) by done.
  destruct He as [->|He]; [done|]. by rewrite (proj2 (Z.ltb_ge (e_etime e) t)), andb_false_r by lia.
Qed.

Lemma stays_step k e t2 now s o a s' :
  stays k e t2 s → leaves k (e_mtime e) t2 (now, Some (o, a)) → spec_step now s o a s' → stays k e t2 s'.
Proof.
  intros (Hk & Hc & Hd & Hv & He) Hl Hs. unfold leaves in Hl. cbn [fst snd] in Hl.
  assert (Hins : ∀ ns (m : gmap Z Z), ns ≠ k.1.1 ∨ now <= e_mtime e → default 0 (m !! k.1.1) <= e_mtime e → default 0 (<[ns := now]> m !! k.1.1) <= e_mtime e).
  { intros ns m Hn Hm. destruct (decide (ns = k.1.1)) as [->|Hne]; [rewrite lookup_insert_eq; cbn; tauto|by rewrite lookup_insert_ne]. }
  destruct Hs as [ns b key value expire rc s' Hs|? ? ? ? _|? ? ? ? _ _|ns b key rc s' Hs|ns|ns rc s' _ Hs|v|v]; cbn [fst] in Hl; try done.
  - destruct Hs as [->|[_ ->]]; [|done]. split_and!; [|done..]. cbn. by rewrite lookup_insert_ne.
  - destruct Hs as [->|[_ ->]]; [|done]. split_and!; [|done..]. cbn. by rewrite lookup_delete_ne.
  - split_and!; [done|by apply Hins|by apply Hins|done..].
  - destruct Hs as [->|[_ ->]]; [|done]. split_and!; [done|done|by apply Hins|done..].
Qed.

Lemma stays_compact k e t2 now s s' : stays k e t2 s → now <= t2 → spec_compact now s s' → stays k e t2 s'.
Proof.
  intros Hst Hnow (Hc & Hd & Hv & Hk). pose proof (stays_live k e t2 now s Hst Hnow) as Hlive.
  destruct Hst as (Hkv & H2 & H3 & H4 & H5). unfold stays. rewrite Hc, Hd, Hv. split_and!; [|done..].
  destruct (Hk k) as [->|(_ & [Hn|Hn])]; [done| |]; congruence.
Qed.

Lemma stays_runs k e t2 s l s' :
  stays k e t2 s → Forall (leaves k (e_mtime e) t2) l → spec_runs s l s' → stays k e t2 s'.
Proof.
  intros Hst Hl Hs. revert Hst Hl. induction Hs as [s|now s o a s1 l s2 Hs _ IH|now s s1 l s2 Hs _ IH]; intros Hst Hl; [done| |];
    apply list.Forall_cons in Hl as [Hx Hl]; apply IH; try done.
  - exact (stays_step k e t2 now s o a s1 Hst Hx Hs).
  - exact (stays_compact k e t2 now s s1 Hst Hx Hs).
Qed.

(** Every time of a clear is at most [t]. *)
Definition before (t : Z) s : Prop := ∀ a, default 0 (cleared s !! a) <= t ∧ default 0 (saved s !! a) <= t.

Lemma before_runs t s l s' : before t s → Forall (λ x : entry, x.1 <= t) l → spec_runs s l s' → before t s'.
Proof.
  intros Hs Hl Hruns. revert Hs Hl. induction Hruns as [s|now s o a s1 l s2 Hstep _ IH|now s s1 l s2 Hstep _ IH]; intros Hs Hl; [done| |];
    apply list.Forall_cons in Hl as [Hx Hl]; apply IH; try done; cbn [fst] in Hx.
  - assert (Hins : ∀ ns a (m : gmap Z Z), default 0 (m !! a) <= t → default 0 (<[ns := now]> m !! a) <= t).
    { intros ns a' m Hm. destruct (decide (ns = a')) as [->|Hne]; [by rewrite lookup_insert_eq|by rewrite lookup_insert_ne]. }
    destruct Hstep as [? ? ? ? ? ? ? Hw|? ? ? ? _|? ? ? ? _ _|? ? ? ? ? Hw|ns|ns ? ? _ Hw|v|v]; try done.
    + by destruct Hw as [->|[_ ->]].
    + by destruct Hw as [->|[_ ->]].
    + intros a. split; apply Hins, Hs.
    + destruct Hw as [->|[_ ->]]; [|done]. intros a. split; [apply Hs|apply Hins, Hs].
    + intros a. split; apply Hs.
  - destruct Hstep as (Hc & Hd & _). intros a. rewrite Hc, Hd. apply Hs.
Qed.

(** A value stays.  After any history up to [t], a put at [t] that reported success, and any
    further history that does not put, remove or clear it (restarts, compactions and clears
    in the second of the put included), a get up to its expiry answers the value with its dates, or
    an error of the database; never that there is no value. *)
Lemma put_survives data sys v r l0 r0 t ns b key value expire r1 l r2 t2 a r3 :
  rocks_is ∅ data → rocks_is ∅ sys → RdbInstance_initialize data sys v = Some r →
  runs rocks_is junk r l0 r0 → Forall (λ x : entry, x.1 <= t) l0 → ValidBucket_valid b (validBucketMgn r0) = Some true →
  op_ok t (OpPut ns b key value expire) → exec junk t (OpPut ns b key value expire) r0 = Some ((0, None), r1) →
  runs rocks_is junk r1 l r2 → Forall (leaves (ns, b, key) t t2) l → (expire = 0 ∨ t2 <= t + expire) →
  op_ok t2 (OpGet ns b key) → exec junk t2 (OpGet ns b key) r2 = Some (a, r3) →
  a = (0, Some (new_entry t key value expire)) ∨
  (a.2 = None ∧ a.1 ≠ 0 ∧ a.1 ≠ KV_RETURN_DATA_NOT_EXIST ∧ a.1 ≠ KV_RETURN_DATA_EXPIRED).
Proof.
  intros Hd Hs Hi Hl0 Ht0 Hv Hop Hput Hl Hlv Hexp Hop2 Hget.
  destruct (runs_sim _ _ _ _ (refines_new data sys v r Hd Hs Hi) Hl0) as (s0 & Hs0 & Hr0).
  assert (Hcl : before t s0).
  { eapply before_runs; [|exact Ht0|exact Hs0]. intros x. cbn. rewrite lookup_empty. destruct Hop as [[? ?] _]. cbn. lia. }
  destruct (exec_sim t s0 r0 _ Hr0 Hop) as (a1 & r1' & s1 & Hex & Hst & Hr1). rewrite Hex in Hput. injection Hput as -> ->.
  destruct (runs_sim _ _ _ _ Hr1 Hl) as (s2 & Hs2 & Hr2).
  assert (Hstay : stays (ns, b, key) (new_entry t key value expire) t2 s2).
  { eapply stays_runs; [|exact Hlv|exact Hs2]. inversion Hst as [? ? ? ? ? ? ? Hw| | | | | | |]; subst. destruct Hw as [->|[? _]]; [|done]. split_and!; cbn.
    - by rewrite lookup_insert_eq.
    - apply Hcl.
    - apply Hcl.
    - destruct (rf_cleared _ _ _ Hr0) as (_ & <- & _). exact Hv.
    - destruct Hexp as [->|?]; [by left|]. destruct (Z.eqb_spec expire 0); [by left|by right]. }
  destruct (exec_sim t2 s2 r2 _ Hr2 Hop2) as (a2 & r3' & s3 & Hex2 & Hst2 & _). rewrite Hex2 in Hget. injection Hget as -> ->.
  pose proof (stays_live _ _ t2 t2 _ Hstay ltac:(lia)) as Hlive. inversion Hst2; subst.
  - left. congruence.
  - right. cbn. split_and!; [done|done| |]; intros ->; rewrite Hlive in *; intuition discriminate.
Qed.
End Refinement.

(** ** A database in memory, and runs on it *)

#[local] Instance map_rocks : Rocks (gmap (list Z) (list Z)) := {
  db_put k v d := (kOk, <[k := v]> d);
  db_get k d := match d !! k with Some v => (kOk, v) | None => (kNotFound, []) end;
  db_delete k d := (kOk, delete k d);
  db_range lo hi d := filter (λ kv, in_scan (lo, hi) kv.1 = true) (map_to_list d) }.

#[local] Instance map_rocks_laws : RocksLaws (gmap (list Z) (list Z)) eq.
Proof.
  split.
  - by intros m m' d -> ->.
  - intros m d k v ->. by left.
  - intros m d k ->. cbn. by destruct (d !! k).
  - intros m d k ->. by left.
  - intros m d lo hi k v ->. cbn. rewrite list_elem_of_filter, elem_of_map_to_list. tauto.
Qed.

Definition demo_buckets : valid_buckets := {| m_bucketArray := []; m_fromMaster := false |}.
Definition demo_new : rdb_instance (gmap (list Z) (list Z)) :=
  {| dataDb := ∅; sysDb := ∅; areaExpiredSec := ∅; validBucketMgn := demo_buckets; factory := (∅, demo_buckets) |}.
Definition demo_then (now : Z) (o : op) (r : rdb_instance (gmap (list Z) (list Z))) : rdb_instance (gmap (list Z) (list Z)) :=
  default r (snd <$> exec (λ _, 0) now o r).

(** A put at second 100, a clear of its namespace in the same second, a compaction, and a
    restart; then the value is read. *)
Definition demo_put : op := OpPut 3 7 [107] [118] 50.
Definition demo_r1 := Eval vm_compute in demo_then 100 demo_put demo_new.
Definition demo_r2 := Eval vm_compute in demo_then 100 (OpClear 3) demo_r1.
Definition demo_r3 := Eval vm_compute in demo_then 130 (OpRestart demo_buckets) demo_r2.
Definition demo_between : list entry := [(100, Some (OpClear 3, (0, None))); (120, None); (130, Some (OpRestart demo_buckets, (0, None)))].

Lemma demo_runs : runs eq (λ _, 0) demo_r1 demo_between demo_r3.
Proof.
  apply (runs_call _ _ 100 demo_r1 (OpClear 3) (0, None) demo_r2); [split; vm_compute; (split; congruence)|vm_compute; reflexivity|].
  apply (runs_compact _ _ 120 demo_r2 (dataDb demo_r2) (dataDb demo_r2) (dataDb demo_r2));
    [split; vm_compute; congruence|done|done|by intros k; left|].
  apply (runs_call _ _ 130 (set_data (dataDb demo_r2) demo_r2) (OpRestart demo_buckets) (0, None) demo_r3);
    [split; [split; vm_compute; congruence|exact Logic.I]|vm_compute; reflexivity|]. constructor.
Qed.

Lemma demo_put_ok : op_ok 100 demo_put.
Proof. repeat split; (discriminate || (vm_compute; congruence)). Qed.

Lemma put_survives_witness :
  let a := (0, Some (new_entry 100 [107] [118] 50)) in
  exec (λ _, 0) 150 (OpGet 3 7 [107]) demo_r3 = Some (a, demo_r3) ∧
  (a = (0, Some (new_entry 100 [107] [118] 50)) ∨
   (a.2 = None ∧ a.1 ≠ 0 ∧ a.1 ≠ KV_RETURN_DATA_NOT_EXIST ∧ a.1 ≠ KV_RETURN_DATA_EXPIRED)).
Proof.
  intros a. assert (Hget : exec (λ _, 0) 150 (OpGet 3 7 [107]) demo_r3 = Some (a, demo_r3)) by (vm_compute; reflexivity).
  split; [exact Hget|].
  apply (put_survives (rocks_is := eq) (λ _, 0) ∅ ∅ demo_buckets demo_new [] demo_new 100 3 7 [107] [118] 50 demo_r1 demo_between demo_r3 150 a demo_r3).
  - reflexivity.
  - reflexivity.
  - vm_compute. reflexivity.
  - constructor.
  - constructor.
  - reflexivity.
  - exact demo_put_ok.
  - vm_compute. reflexivity.
  - exact demo_runs.
  - repeat constructor; cbn; lia.
  - right. lia.
  - repeat split; (discriminate || (vm_compute; congruence)).
  - exact Hget.
Defined.

(** A database whose writes answer as a schedule says, and whose writes that fail are made or not. *)
Definition flaky := (list (status * bool) * gmap (list Z) (list Z))%type.
Definition flaky_write (f : gmap (list Z) (list Z) → gmap (list Z) (list Z)) (d : flaky) : status * flaky :=
  match d.1 with
  | [] => (kOk, ([], f d.2))
  | (st, made) :: l => (st, (l, if made || bool_decide (st = kOk) then f d.2 else d.2))
  end.

#[local] Instance flaky_rocks : Rocks flaky := {
  db_put k v := flaky_write (insert k v);
  db_get k d := match d.2 !! k with Some v => (kOk, v) | None => (kNotFound, []) end;
  db_delete k := flaky_write (delete k);
  db_range lo hi d := filter (λ kv, in_scan (lo, hi) kv.1 = true) (map_to_list d.2) }.

Lemma flaky_write_ok f (d : flaky) : (flaky_write f d).2.2 = f d.2 ∨ ((flaky_write f d).1 ≠ kOk ∧ (flaky_write f d).2.2 = d.2).
Proof.
  destruct d as [[|[st made] l] m]; [by left|]. cbn. destruct made; [by left|]. destruct (bool_decide_reflect (st = kOk)); [by left|by right].
Qed.

#[local] Instance flaky_rocks_laws : RocksLaws flaky (λ m d, m = d.2).
Proof.
  split.
  - by intros m m' d -> ->.
  - intros m d k v ->. destruct (flaky_write_ok (insert k v) d) as [H|[? H]]; [by left|by right].
  - intros m d k ->. cbn. by destruct (d.2 !! k).
  - intros m d k ->. destruct (flaky_write_ok (delete k) d) as [H|[? H]]; [by left|by right].
  - intros m d lo hi k v ->. cbn. rewrite list_elem_of_filter, elem_of_map_to_list. tauto.
Qed.

(** A put, a clear that fails but is made, a get that still finds the value, a restart, and a get that does not. *)
Definition flaky_new : rdb_instance flaky :=
  {| dataDb := ([], ∅); sysDb := ([(kIOError, true)], ∅); areaExpiredSec := ∅; validBucketMgn := demo_buckets; factory := (∅, demo_buckets) |}.
Definition flaky_then (now : Z) (o : op) (r : rdb_instance flaky) : rdb_instance flaky := default r (snd <$> exec (λ _, 0) now o r).
Definition flaky_r1 := Eval vm_compute in flaky_then 100 demo_put flaky_new.
Definition flaky_r2 := Eval vm_compute in flaky_then 110 (OpClear 3) flaky_r1.
Definition flaky_r3 := Eval vm_compute in flaky_then 130 (OpRestart demo_buckets) flaky_r2.
Definition flaky_history : list entry :=
  [(100, Some (demo_put, (0, None))); (110, Some (OpClear 3, (OP_RETURN_FAILED, None)));
   (120, Some (OpGet 3 7 [107], (0, Some (new_entry 100 [107] [118] 50))));
   (130, Some (OpRestart demo_buckets, (0, None))); (140, Some (OpGet 3 7 [107], (KV_RETURN_DATA_EXPIRED, None)))].

Lemma flaky_runs : runs (λ m d, m = d.2) (λ _, 0) flaky_new flaky_history flaky_r3.
Proof.
  apply (runs_call _ _ 100 flaky_new demo_put (0, None) flaky_r1); [exact demo_put_ok|vm_compute; reflexivity|].
  apply (runs_call _ _ 110 flaky_r1 (OpClear 3) (OP_RETURN_FAILED, None) flaky_r2);
    [split; vm_compute; (split; congruence)|vm_compute; reflexivity|].
  apply (runs_call _ _ 120 flaky_r2 (OpGet 3 7 [107]) (0, Some (new_entry 100 [107] [118] 50)) flaky_r2);
    [repeat split; (discriminate || (vm_compute; congruence))|vm_compute; reflexivity|].
  apply (runs_call _ _ 130 flaky_r2 (OpRestart demo_buckets) (0, None) flaky_r3);
    [split; [split; vm_compute; congruence|exact Logic.I]|vm_compute; reflexivity|].
  apply (runs_call _ _ 140 flaky_r3 (OpGet 3 7 [107]) (KV_RETURN_DATA_EXPIRED, None) flaky_r3);
    [repeat split; (discriminate || (vm_compute; congruence))|vm_compute; reflexivity|]. constructor.
Qed.


Lemma engine_defined_witness :
  ∃ a r'', exec (λ _, 0) 140 (OpRemove 3 7 [107]) demo_r3 = Some (a, r'').
Proof.
  apply (engine_defined (rocks_is := eq) (λ _, 0) ∅ ∅ demo_buckets demo_new ((100, Some (demo_put, (0, None))) :: demo_between) demo_r3).
  - reflexivity.
  - reflexivity.
  - vm_compute. reflexivity.
  - apply (runs_call _ _ 100 demo_new demo_put (0, None) demo_r1); [exact demo_put_ok|vm_compute; reflexivity|exact demo_runs].
  - repeat split; (discriminate || (vm_compute; congruence)).
Defined.

(** A value of namespace 1024 is put and read, and then dropped by the next compaction. *)
Lemma large_namespace_dropped :
  ∃ r1, exec (λ _, 0) 100 (OpPut 1024 7 [107] [118] 0) demo_new = Some ((0, None), r1) ∧
    (∃ e, exec (λ _, 0) 100 (OpGet 1024 7 [107]) r1 = Some ((0, Some e), r1)) ∧
    ∀ k v, dataDb r1 !! k = Some v → Filter (CreateCompactionFilter 100 r1) k v = Some true.
Proof.
  exists (demo_then 100 (OpPut 1024 7 [107] [118] 0) demo_new). split; [vm_compute; reflexivity|]. split.
  - exists (new_entry 100 [107] [118] 0). vm_compute. reflexivity.
  - intros k v Hk. change (dataDb _) with (<[key_bytes (1024, 7, [107]) := entry_bytes (new_entry 100 [107] [118] 0)]> (∅ : gmap (list Z) (list Z))) in Hk.
    apply lookup_insert_Some in Hk as [[<- <-]|[_ Hk]]; [vm_compute; reflexivity|by rewrite lookup_empty in Hk].
Qed.
