(* ===== verification/Requests.v ===== *)
(** * Requests to a storage server (src/src/storage/storage.cc, processor.cc)

    [StorageServer::process] takes a frame.  A put is written to the log of its bucket and
    answered when the bucket commits it; a get is answered from the engine; a dump is for
    the log of a copy.  The commit thread hands the entries of the log to
    [StorageServer::commit], which puts them in the engine and answers the client.

    The generated protobuf code is the class [StorageCodec]: parsers and serialisers, with
    the documented property that parsing what was serialised gives the message back.  The
    log of a bucket is any [Log], the databases of the engine any [Rocks].  What the server
    sends is a list of (socket, time of creation of the connection, bytes).  [None] is an execution without
    meaning, such as a bucket outside of the array. *)
From S2P Require Import Prelude Buffers BufferSpec Frame Hash Bitmap RdbDefine Wal Replication Engine.

(** ** Messages *)

Record put_request := { p_ns : Z; p_version : Z; p_expired : Z; p_key : list Z; p_val : list Z }.
Record get_request := { g_ns : Z; g_key : list Z }.
Record dump_entry := {
  de_channelid : Z; de_mtype : Z; de_ns : Z; de_key : list Z; de_val : list Z; de_expired : Z; de_version : Z }.

Inductive reply :=
| ReplyReturn (code metaversion : Z)
| ReplyGet (code metaversion : Z) (kv : option kv_entry)
| ReplyDump (r : dump_return).

(** Numbers that fit the types of their fields. *)
Definition put_request_ok (r : put_request) : Prop :=
  is_u32 (p_ns r) ∧ is_u32 (p_version r) ∧ is_u32 (p_expired r) ∧ Forall is_u8 (p_key r) ∧ Forall is_u8 (p_val r).
Definition get_request_ok (r : get_request) : Prop := is_u32 (g_ns r) ∧ Forall is_u8 (g_key r).
Definition dump_entry_ok (e : dump_entry) : Prop :=
  is_u32 (de_channelid e) ∧ is_u32 (de_mtype e) ∧ is_u32 (de_ns e) ∧ is_u32 (de_expired e) ∧ is_u32 (de_version e) ∧
  Forall is_u8 (de_key e) ∧ Forall is_u8 (de_val e).

Class StorageCodec := {
  parsePut : list Z → option put_request;
  parseGet : list Z → option get_request;
  parseDump : list Z → option dump;
  parseBucketHeartbeat : list Z → option (Z * Z);
  parseEntry : list Z → option dump_entry;
  serializePut : put_request → list Z;
  serializeGet : get_request → list Z;
  serializeEntry : dump_entry → list Z;
  serializeReply : reply → list Z;
  put_bytes r : Forall is_u8 (serializePut r);
  get_bytes r : Forall is_u8 (serializeGet r);
  dumpentry_bytes e : Forall is_u8 (serializeEntry e);
  reply_bytes r : Forall is_u8 (serializeReply r);
  return_size code v : (length (serializeReply (ReplyReturn code v)) <= 64)%nat;
  entry_nonempty e : de_mtype e ≠ 0 → serializeEntry e ≠ [];
  parse_put r : put_request_ok r → parsePut (serializePut r) = Some r;
  parse_get r : get_request_ok r → parseGet (serializeGet r) = Some r;
  parse_entry e : dump_entry_ok e → parseEntry (serializeEntry e) = Some e }.

Definition reply_type (r : reply) : Z :=
  match r with
  | ReplyReturn _ _ => KV_RES_MESSAGE_RETURN
  | ReplyGet _ _ _ => KV_RES_MESSAGE_GET
  | ReplyDump _ => KV_RES_MESSAGE_DUMP_RETURN
  end.

Abbreviation packet := (Z * Z * list Z)%type.

Section Storage.
Context `{StorageCodec} {L D : Type} `{Log L} `{Rocks D} (junk : nat → Z).

(** [StorageServer]: [bucketMgr] is null until the first heartbeat answer. *)
Record server := {
  bucketCount : Z;
  metaVersion : Z;
  bucketMgr : option (list (bucket L));
  kvengine : rdb_instance D }.

Definition set_mgr (l : list (bucket L)) (s : server) : server :=
  {| bucketCount := bucketCount s; metaVersion := metaVersion s; bucketMgr := Some l; kvengine := kvengine s |}.
Definition set_engine (r : rdb_instance D) (s : server) : server :=
  {| bucketCount := bucketCount s; metaVersion := metaVersion s; bucketMgr := bucketMgr s; kvengine := r |}.

Definition StorageServer_getBucketNumber (key : list Z) (s : server) : Z :=
  if bucketCount s =? 0 then 0 else murMurHash key mod bucketCount s.

(** [bucketMgr[i]]. *)
Definition mgrAt (i : Z) (s : server) : option (bucket L) := l ← bucketMgr s; l !! Z.to_nat i.
Definition setMgrAt (i : Z) (b : bucket L) (s : server) : server :=
  set_mgr (<[Z.to_nat i := b]> (default [] (bucketMgr s))) s.

(** The log record of a put: the connection and the entry behind it. *)
Definition buildLog (h : conn_head) (e : dump_entry) : option (list Z) :=
  let body := serializeEntry e in
  let entry_size := Z.of_nat (length body) in
  b ← Buffer_alloc junk (4 * 4 + 2 + entry_size);
  b ← Buffer_writeInt32 junk b (sock_index h);
  b ← Buffer_writeInt32 junk b (sock_create h);
  b ← Buffer_writeInt32 junk b (request_sec h);
  b ← Buffer_writeInt32 junk b (src_ip h);
  b ← Buffer_writeInt16 junk b (src_port h);
  m ← poke (bytes b) (pfree b) body;
  let '(_, b) := Buffer_pourData (set_bytes m b) entry_size in
  peek (bytes b) 0 (dataLen b).

(** [process] of a [KvRequestGet]. *)
Definition processGet (now : Z) (msg : get_request) (s : server) : option reply :=
  let bucket_no := StorageServer_getBucketNumber (g_key msg) s in
  '(rc, e) ← RdbManager_get junk now (i32 (g_ns msg)) (i32 bucket_no) (g_key msg) (kvengine s);
  Some (ReplyGet rc (metaVersion s) (Some (default {| e_key := []; e_val := []; e_mtime := 0; e_etime := 0 |} e))).

(** [process] of a [KvRequestPut], put past the log; the server does not call it. *)
Definition processPut (now : Z) (msg : put_request) (s : server) : option (reply * server) :=
  let bucket_no := StorageServer_getBucketNumber (p_key msg) s in
  '(rc, r) ← RdbManager_put junk now (i32 (p_ns msg)) (i32 bucket_no) (p_key msg) (p_val msg) false (i32 (p_expired msg)) (kvengine s);
  Some (ReplyReturn rc (metaVersion s), set_engine r s).

(** The cases of the switch: the reply, if any, and the dumps sent to peers. *)
Definition handlePut (h : conn_head) (channelid mtype : Z) (value : list Z) (s : server)
    : option (option reply * list dump * server) :=
  match parsePut value with
  | None => Some (None, [], s)
  | Some msg =>
      let bucket_no := StorageServer_getBucketNumber (p_key msg) s in
      log ← buildLog h {| de_channelid := channelid; de_mtype := mtype; de_ns := p_ns msg; de_key := p_key msg;
                          de_val := p_val msg; de_expired := p_expired msg; de_version := p_version msg |};
      b ← mgrAt bucket_no s;
      '(ms, b) ← appendEntris log b;
      Some (None, ms, setMgrAt bucket_no b s)
  end.

Definition handleGet (now : Z) (value : list Z) (s : server) : option (option reply * list dump * server) :=
  match parseGet value with
  | None => Some (Some (ReplyGet 0 0 None), [], s)
  | Some msg => r ← processGet now msg s; Some (Some r, [], s)
  end.

Definition handleDumpMsg (h : conn_head) (value : list Z) (s : server) : option (option reply * list dump * server) :=
  match parseDump value with
  | None => Some (Some (ReplyDump {| r_accept := false; r_peerid := 0; r_nextidx := 0; r_commitidx := 0 |}), [], s)
  | Some msg =>
      b ← mgrAt (d_bucket msg) s;
      '(r, b) ← handleDump h msg b;
      Some (Some (ReplyDump r), [], setMgrAt (d_bucket msg) b s)
  end.

Definition handleBucketHeartbeat (value : list Z) (s : server) : option (option reply * list dump * server) :=
  match parseBucketHeartbeat value with
  | None => Some (None, [], s)
  | Some (bucketid, commitidx) =>
      match bucketMgr s with
      | None => Some (Some (ReplyReturn 0 0), [], s)
      | Some _ => b ← mgrAt bucketid s; Some (Some (ReplyReturn 0 0), [], setMgrAt bucketid (commit commitidx b) s)
      end
  end.

(** [process]: [tv_usec] of the arrival, [now_us] and [now_sec] the clock. *)
Definition StorageServer_process (h : conn_head) (tv_usec now_us now_sec : Z) (buf : list Z) (s : server)
    : option (list packet * list dump * server) :=
  '(channelid, mtype, value) ← openFrame buf;
  let reqtime := u64 (request_sec h * 1000 * 1000 + tv_usec) in
  if u64 (reqtime + 1000 * 1000) <=? now_us then Some ([], [], s) else
  '(r, ms, s) ← (if mtype =? KV_REQ_MESSAGE_PUT then handlePut h channelid mtype value s
                 else if mtype =? KV_REQ_MESSAGE_GET then handleGet now_sec value s
                 else if mtype =? KV_REQ_MESSAGE_DUMP then handleDumpMsg h value s
                 else if mtype =? KV_REQ_BUCKET_HEARTBEAT then handleBucketHeartbeat value s
                 else Some (None, [], s));
  match r with
  | None => Some ([], ms, s)
  | Some r =>
      out ← makeFrame junk channelid (reply_type r) (serializeReply r);
      Some ([(sock_index h, sock_create h, out)], ms, s)
  end.

(** ** Commit *)

(** The beginning of [commit]: the connection and the bytes of the entry. *)
Definition openRecord (data : list Z) : option (Z * Z * list Z) :=
  '(log_size, b) ← Buffer_readInt32 (Buffer_wrap data);
  let b := (Buffer_pos b 4).2 in
  '(sock_index, b) ← Buffer_readInt32 b;
  '(sock_create, b) ← Buffer_readInt32 b;
  let b := (Buffer_pos b (5 * 4 + 2)).2 in
  value ← peek (bytes b) (pdata b) (curDataLen b);
  Some (i32 sock_index, sock_create, value).

(** [StorageServer::commit] of an entry read from the log. *)
Definition StorageServer_commit (now : Z) (data : list Z) (s : server) : option (list packet * server) :=
  '(sock_index, sock_create, value) ← openRecord data;
  match parseEntry value with
  | None => Some ([], s)
  | Some entry =>
      let bucket_no := StorageServer_getBucketNumber (de_key entry) s in
      '(rc, r) ← RdbManager_put junk now (i32 (de_ns entry)) (i32 bucket_no) (de_key entry) (de_val entry) false
                   (i32 (de_expired entry)) (kvengine s);
      out ← makeFrame junk (de_channelid entry) KV_RES_MESSAGE_RETURN (serializeReply (ReplyReturn rc (metaVersion s)));
      Some ([(sock_index, sock_create, out)], set_engine r s)
  end.

Fixpoint commitAll (now : Z) (l : list (Z * list Z)) (s : server) : option (list packet * server) :=
  match l with
  | [] => Some ([], s)
  | (_, data) :: l =>
      '(out1, s) ← StorageServer_commit now data s;
      '(out2, s) ← commitAll now l s;
      Some (out1 ++ out2, s)
  end.

(** [commiter] runs the task at the front of bucket [i]: the entries it hands over are
    committed by the server in their order. *)
Definition runCommit (now i : Z) (s : server) : option (list packet * server) :=
  b ← mgrAt i s;
  b' ← runTask b;
  commitAll now (drop (length (delivered b)) (delivered b')) (setMgrAt i b' s).

(** [BucketMgr::rpcHandler] of bucket [i]. *)
Definition answerFrom (i : Z) (msg : dump_return) (s : server) : option (list dump * server) :=
  b ← mgrAt i s;
  '(o, b) ← rpcHandler msg b;
  Some (option_list o, setMgrAt i b s).
End Storage.
Arguments server : clear implicits.
