(* ===== verification/RequestsSpec.v ===== *)
(** * Requests from the frame to the engine and back

    The path of a put through [Requests]: the frame, the record in the log of its bucket, the
    answer of a copy, the commit task, the engine and the answer to the client; and of the get
    that follows. *)
From S2P Require Import Prelude Buffers BufferSpec Frame Hash Bitmap RdbDefine Md5 Wal WalSpec Replication WalLog ReplicationSpec Engine EngineSpec Requests.

(** ** Records of the log *)

(** A put as it came: connection, channel and message. *)
Record logged := { l_head : conn_head; l_channel : Z; l_put : put_request }.

Definition entry_of (x : logged) : dump_entry :=
  {| de_channelid := l_channel x; de_mtype := KV_REQ_MESSAGE_PUT; de_ns := p_ns (l_put x); de_key := p_key (l_put x);
     de_val := p_val (l_put x); de_expired := p_expired (l_put x); de_version := p_version (l_put x) |}.

Definition headBytes (h : conn_head) : list Z :=
  be_bytes 4 (sock_index h) ++ be_bytes 4 (sock_create h) ++ be_bytes 4 (request_sec h) ++ be_bytes 4 (src_ip h) ++
  be_bytes 2 (src_port h).

Definition head_ok (h : conn_head) : Prop := 0 <= sock_index h < 2 ^ 31 ∧ is_u32 (sock_create h).

Lemma length_headBytes h : length (headBytes h) = 18%nat.
Proof. unfold headBytes. by rewrite !length_app, !length_be_bytes. Qed.

Lemma headBytes_u8 h : Forall is_u8 (headBytes h).
Proof. unfold headBytes. rewrite !Forall_app. split_and!; apply be_bytes_u8. Qed.

(** Writing into a block with room leaves the block where it is. *)
Definition appended_in (b : data_buffer) (l : list Z) (b' : data_buffer) : Prop :=
  appended b l b' ∧ pend b' = pend b ∧ block b' ≠ None.

Lemma write_in junk b l need :
  wf_buf b → block b ≠ None → Forall is_u8 l → Z.of_nat (length l) = need → need <= pend b - pfree b →
  ∃ b', (b ← Buffer_expand junk b need; put b l) = Some b' ∧ appended_in b l b'.
Proof.
  intros Hb Hn Hl Hlen Hroom. destruct (block b) as [m|] eqn:Em; [|done].
  unfold Buffer_expand, expand. rewrite Em, (proj2 (Z.ltb_ge _ _)), bind_Some_eq by lia.
  destruct (BufferSpec.put_ok b l Hb) as (b' & Hp & Ha); [by rewrite Em|done|lia|]. exists b'. split; [done|]. split; [done|].
  unfold put in Hp. apply bind_Some_inv in Hp as (m' & Hpk & Hb'). injection Hb' as <-.
  apply poke_length in Hpk. split; [|done]. unfold pend, bytes. cbn. unfold bytes in Hpk. by rewrite Hpk.
Qed.

Lemma appended_in_trans b l1 b1 l2 b2 : appended_in b l1 b1 → appended_in b1 l2 b2 → appended_in b (l1 ++ l2) b2.
Proof. intros (Ha1 & Hp1 & _) (Ha2 & Hp2 & Hn2). split; [by eapply appended_trans|]. split; [by rewrite Hp2|done]. Qed.

Section Records.
Context `{HC : StorageCodec} (junk : nat → Z) (Hjunk : ∀ i, is_u8 (junk i)).

Definition record_bytes (x : logged) : list Z := headBytes (l_head x) ++ serializeEntry (entry_of x).

Definition logged_ok (x : logged) : Prop :=
  head_ok (l_head x) ∧ is_u32 (l_channel x) ∧ put_request_ok (l_put x) ∧ Z.of_nat (length (record_bytes x)) + 4 <= size_limit.

(** The five fields of the connection, written one after the other. *)
Lemma writeHead h b0 :
  wf_buf b0 → block b0 ≠ None → 18 <= pend b0 - pfree b0 →
  ∃ b1 b2 b3 b4 b5,
    Buffer_writeInt32 junk b0 (sock_index h) = Some b1 ∧ Buffer_writeInt32 junk b1 (sock_create h) = Some b2 ∧
    Buffer_writeInt32 junk b2 (request_sec h) = Some b3 ∧ Buffer_writeInt32 junk b3 (src_ip h) = Some b4 ∧
    Buffer_writeInt16 junk b4 (src_port h) = Some b5 ∧ appended_in b0 (headBytes h) b5.
Proof using.
  intros Hw Hn Hroom. unfold Buffer_writeInt32, Buffer_writeInt16.
  destruct (write_in junk b0 (be_bytes 4 (sock_index h)) 4) as (b1 & E1 & A1);
    [done|done|apply be_bytes_u8|by rewrite length_be_bytes|lia|].
  pose proof A1 as ((W1 & _ & F1 & _) & P1 & N1). rewrite length_be_bytes in F1.
  destruct (write_in junk b1 (be_bytes 4 (sock_create h)) 4) as (b2 & E2 & A2);
    [done|done|apply be_bytes_u8|by rewrite length_be_bytes|lia|].
  pose proof A2 as ((W2 & _ & F2 & _) & P2 & N2). rewrite length_be_bytes in F2.
  destruct (write_in junk b2 (be_bytes 4 (request_sec h)) 4) as (b3 & E3 & A3);
    [done|done|apply be_bytes_u8|by rewrite length_be_bytes|lia|].
  pose proof A3 as ((W3 & _ & F3 & _) & P3 & N3). rewrite length_be_bytes in F3.
  destruct (write_in junk b3 (be_bytes 4 (src_ip h)) 4) as (b4 & E4 & A4);
    [done|done|apply be_bytes_u8|by rewrite length_be_bytes|lia|].
  pose proof A4 as ((W4 & _ & F4 & _) & P4 & N4). rewrite length_be_bytes in F4.
  destruct (write_in junk b4 (be_bytes 2 (src_port h)) 2) as (b5 & E5 & A5);
    [done|done|apply be_bytes_u8|by rewrite length_be_bytes|lia|].
  exists b1, b2, b3, b4, b5. split_and!; [done..|]. unfold headBytes.
  eapply appended_in_trans; [exact A1|]. eapply appended_in_trans; [exact A2|]. eapply appended_in_trans; [exact A3|].
  by eapply appended_in_trans.
Qed.

Lemma buildLog_bytes x : logged_ok x → buildLog junk (l_head x) (entry_of x) = Some (record_bytes x).
Proof using Hjunk.
  intros (_ & _ & _ & Hsz). unfold record_bytes in *. rewrite length_app, length_headBytes in Hsz.
  set (body := serializeEntry (entry_of x)) in *. unfold buildLog. fold body. cbv zeta. unfold Buffer_alloc, Buffer_expand.
  destruct (expand_ok junk Hjunk DataBuffer_new (4 * 4 + 2 + Z.of_nat (length body))) as (b0 & E0 & W0 & R0 & F0 & D0 & _ & N0);
    [apply wf_new|lia|simpl; lia|]. rewrite E0, bind_Some_eq. cbn [pfree pdata DataBuffer_new] in F0, D0.
  destruct (writeHead (l_head x) b0) as (b1 & b2 & b3 & b4 & b5 & E1 & E2 & E3 & E4 & E5 & (W5 & C5 & F5 & D5) & P5 & N5); [done|done|lia|].
  rewrite E1, bind_Some_eq, E2, bind_Some_eq, E3, bind_Some_eq, E4, bind_Some_eq, E5, bind_Some_eq.
  rewrite length_headBytes in F5. destruct (BufferSpec.put_ok b5 body W5 N5) as (b6 & Hput & W6 & C6 & F6 & D6);
    [apply dumpentry_bytes|lia|]. unfold put in Hput. apply bind_Some_inv in Hput as (m & Hpk & Hb6).
  rewrite Hpk, bind_Some_eq. unfold Buffer_pourData. pose proof (poke_length _ _ _ _ Hpk) as Hlm.
  assert (Hpe : pend (set_bytes m b5) = pend b5) by (unfold pend; f_equal; exact Hlm).
  rewrite Hpe, (proj2 (Z.ltb_ge _ _)) by (change (pfree (set_bytes m b5)) with (pfree b5); lia).
  assert (Hb6' : set_pfree (pfree b5 + Z.of_nat (length body)) (set_bytes m b5) = b6) by (injection Hb6 as <-; done).
  cbn [pfree set_bytes] in *. change (pfree (set_bytes m b5)) with (pfree b5). rewrite Hb6'.
  assert (C0 : contents b0 = []) by (unfold contents; by rewrite F0, D0).
  rewrite C5, C0, app_nil_l in C6. unfold contents in C6. rewrite D6, D5, D0, Z.sub_0_r, drop_0 in C6.
  pose proof (wb_order _ W6) as Ho. pose proof (wb_end _ W6) as He. unfold size_limit, pend in *.
  unfold dataLen. rewrite i32_id by lia. rewrite peek_Some by lia. f_equal.
  change (Z.to_nat 0) with 0%nat. by rewrite drop_0.
Qed.
End Records.

(** ** Reading a record *)

Lemma read_at pre n rest :
  is_u32 n →
  readInt 4 (set_pdata (Z.of_nat (length pre)) (Buffer_wrap (pre ++ be_bytes 4 n ++ rest))) =
    Some (n, set_pdata (Z.of_nat (length pre) + 4) (Buffer_wrap (pre ++ be_bytes 4 n ++ rest))).
Proof.
  intros Hn. unfold readInt. cbn [pdata pfree set_pdata Buffer_wrap].
  rewrite (proj2 (Z.leb_le _ _)) by (rewrite !length_app, length_be_bytes; lia). cbn [assert_that]. rewrite bind_Some_eq.
  change (bytes (set_pdata _ _)) with (pre ++ be_bytes 4 n ++ rest).
  rewrite peek_Some by (rewrite ?length_app, ?length_be_bytes; lia). rewrite bind_Some_eq, Nat2Z.id, drop_app_length.
  rewrite take_app_length' by (by rewrite length_be_bytes). by rewrite be_value_bytes_id by exact Hn.
Qed.

Lemma pos_in (l : list Z) p q :
  0 <= p < Z.of_nat (length l) → Z.of_nat (length l) <= size_limit → (Buffer_pos (set_pdata q (Buffer_wrap l)) p).2 = set_pdata p (Buffer_wrap l).
Proof.
  intros Hp Hl. unfold Buffer_pos. cbn [pfree set_pdata Buffer_wrap]. unfold size_limit in Hl.
  rewrite u32_id by (unfold is_u32; lia). by rewrite (proj2 (Z.leb_gt _ _)) by lia.
Qed.

Section Commit.
Context `{HC : StorageCodec} {L D : Type} `{HLog : Log L} `{HR : Rocks D} (junk : nat → Z) (Hjunk : ∀ i, is_u8 (junk i)).
Implicit Types s : server L D.

Lemma openRecord_bytes n h body :
  is_u32 n → head_ok h → body ≠ [] → Z.of_nat (length (be_bytes 4 n ++ headBytes h ++ body)) <= size_limit →
  openRecord (be_bytes 4 n ++ headBytes h ++ body) = Some (sock_index h, sock_create h, body).
Proof using.
  intros Hn [Hs1 Hs2] Hne Hall. pose proof (length_headBytes h) as Hlh.
  set (rest := be_bytes 4 (request_sec h) ++ be_bytes 4 (src_ip h) ++ be_bytes 2 (src_port h) ++ body).
  assert (Hrec : headBytes h ++ body = be_bytes 4 (sock_index h) ++ be_bytes 4 (sock_create h) ++ rest).
  { unfold headBytes, rest. by rewrite <- !app_assoc. }
  assert (Hlen : length (be_bytes 4 n ++ headBytes h ++ body) = (22 + length body)%nat) by (rewrite !length_app, length_be_bytes; lia).
  assert (Hb : (0 < length body)%nat) by (destruct body; [done|simpl; lia]).
  unfold openRecord, Buffer_readInt32. set (data := be_bytes 4 n ++ headBytes h ++ body) in *.
  assert (R1 : readInt 4 (Buffer_wrap data) = Some (n, set_pdata 4 (Buffer_wrap data))) by exact (read_at [] n (headBytes h ++ body) Hn).
  rewrite R1, bind_Some_eq. cbv beta iota. rewrite pos_in by lia.
  assert (R2 : readInt 4 (set_pdata 4 (Buffer_wrap data)) = Some (sock_index h, set_pdata 8 (Buffer_wrap data))).
  { unfold data. rewrite Hrec. pose proof (read_at (be_bytes 4 n) (sock_index h) (be_bytes 4 (sock_create h) ++ rest) ltac:(unfold is_u32; lia)) as R.
    by rewrite length_be_bytes in R. }
  rewrite R2, bind_Some_eq. cbv beta iota.
  assert (R3 : readInt 4 (set_pdata 8 (Buffer_wrap data)) = Some (sock_create h, set_pdata 12 (Buffer_wrap data))).
  { unfold data. rewrite Hrec, app_assoc. pose proof (read_at (be_bytes 4 n ++ be_bytes 4 (sock_index h)) (sock_create h) rest Hs2) as R.
    by rewrite length_app, !length_be_bytes in R. }
  rewrite R3, bind_Some_eq. cbv beta iota. change (5 * 4 + 2) with 22. rewrite pos_in by lia.
  assert (Hd : drop 22 data = body) by (unfold data; rewrite app_assoc; apply drop_app_length'; rewrite length_app, length_be_bytes; lia).
  unfold curDataLen. change (pfree (set_pdata 22 (Buffer_wrap data))) with (Z.of_nat (length data)).
  change (pdata (set_pdata 22 (Buffer_wrap data))) with 22. change (bytes (set_pdata 22 (Buffer_wrap data))) with data.
  unfold size_limit in Hall. rewrite (i32_id (_ - 22)) by lia. rewrite peek_Some by lia. rewrite bind_Some_eq.
  rewrite i32_id by lia. change (Z.to_nat 22) with 22%nat. rewrite Hd, take_ge by lia. done.
Qed.

(** The put of a logged message in the engine. *)
Definition enginePut (now : Z) (x : logged) s : option (Z * rdb_instance D) :=
  let m := l_put x in
  RdbManager_put junk now (i32 (p_ns m)) (i32 (StorageServer_getBucketNumber (p_key m) s)) (p_key m) (p_val m) false
    (i32 (p_expired m)) (kvengine s).

(** The answer to a put that the engine answered with [rc]. *)
Definition putAnswer (x : logged) (rc : Z) s : packet :=
  (sock_index (l_head x), sock_create (l_head x),
   frameBytes (l_channel x) KV_RES_MESSAGE_RETURN (serializeReply (ReplyReturn rc (metaVersion s)))).

Lemma commit_record now x s rc r :
  logged_ok x → enginePut now x s = Some (rc, r) →
  StorageServer_commit junk now (Wal.entry (record_bytes x)) s = Some ([putAnswer x rc s], set_engine r s).
Proof using Hjunk.
  intros (Hh & Hch & (H1 & H2 & H3 & H4 & H5) & Hsz) Hput. unfold StorageServer_commit, Wal.entry, record_bytes in *.
  rewrite openRecord_bytes, bind_Some_eq.
  - cbv beta iota. rewrite parse_entry by (split_and!; done). cbv zeta.
    change (RdbManager_put _ _ _ _ _ _ _ _ _) with (enginePut now x s). rewrite Hput, bind_Some_eq. cbv beta iota.
    pose proof (return_size rc (metaVersion s)) as Hrs. rewrite makeFrame_bytes, bind_Some_eq; [done|done|apply reply_bytes|unfold size_limit; lia].
  - unfold is_u32, size_limit in *. lia.
  - done.
  - by apply entry_nonempty.
  - rewrite length_app, length_be_bytes. lia.
Qed.
End Commit.

(** ** From the frame to the engine *)

Section Path.
Context `{HC : StorageCodec} {L : Type} `{HLog : Log L} (log_is : list (list Z) → L → Prop) `{HLL : !LogLaws L log_is}.
Context {D : Type} `{HR : Rocks D} (rocks_is : gmap (list Z) (list Z) → D → Prop) `{HRL : !RocksLaws D rocks_is}.
Context (junk : nat → Z) (Hjunk : ∀ i, is_u8 (junk i)).
Implicit Types (s : server L D) (b : bucket L).

(** What sending to peers leaves alone. *)
Definition same_commits b b' : Prop :=
  quickCommitIdx b' = quickCommitIdx b ∧ tasks b' = tasks b ∧ delivered b' = delivered b.

Lemma request_same id b m b' : requestAppendEntries id b = Some (m, b') → same_commits b b'.
Proof using.
  unfold requestAppendEntries. intros Hq. step_inv Hq. destruct x0 as [vec l]. injection Hq as _ <-. done.
Qed.

Lemma requestPeers_same ids b ms b' : requestPeers ids b = Some (ms, b') → same_commits b b'.
Proof using.
  revert b ms b'. induction ids as [|id ids IH]; intros b ms b' Hq; cbn [requestPeers] in Hq; [by injection Hq as <- <-|].
  apply bind_Some_inv in Hq as ([m b1] & H1 & Hq). apply bind_Some_inv in Hq as ([ms2 b2] & H2 & Hq). injection Hq as _ <-.
  apply request_same in H1 as (? & ? & ?). apply IH in H2 as (? & ? & ?). split_and!; congruence.
Qed.

Lemma append_same d b ms b' : appendEntris d b = Some (ms, b') → same_commits b b'.
Proof using. unfold appendEntris, requestAll. intros Hq. apply bind_Some_inv in Hq as (l & _ & Hq). by apply requestPeers_same in Hq. Qed.

Lemma mgrAt_set i b b' s : mgrAt i s = Some b → mgrAt i (setMgrAt i b' s) = Some b'.
Proof using.
  unfold mgrAt, setMgrAt. destruct (bucketMgr s) as [l|]; [|done]. cbn. intros Hb.
  apply list_lookup_insert_eq. by apply lookup_lt_Some in Hb.
Qed.

(** The server of bucket [b] with log [lds] is ready for the put [x]: all earlier puts are
    committed. *)
Record ready s (x : logged) b (lds : list (list Z)) : Prop := {
  rd_bucket : mgrAt (StorageServer_getBucketNumber (p_key (l_put x)) s) s = Some b;
  rd_master : master_ok log_is (λ _, True) lds b;
  rd_idle : quickCommitIdx b = Z.of_nat (length lds) ∧ tasks b = [];
  rd_room : log_next (walog b) <= log_max;
  rd_put : logged_ok x ∧ Replication.put_ok (record_bytes x) }.

(** A frame that arrived at [sec], [usec] is read in time. *)
Definition in_time (h : conn_head) (usec now_us : Z) : Prop :=
  now_us < u64 (u64 (request_sec h * 1000 * 1000 + usec) + 1000 * 1000).

Lemma put_logged s x b lds usec now_us now :
  ready s x b lds → in_time (l_head x) usec now_us → 12 + Z.of_nat (length (serializePut (l_put x))) <= size_limit →
  ∃ ms b', StorageServer_process junk (l_head x) usec now_us now
      (frameBytes (l_channel x) KV_REQ_MESSAGE_PUT (serializePut (l_put x))) s =
      Some ([], ms, setMgrAt (StorageServer_getBucketNumber (p_key (l_put x)) s) b' s) ∧
    same_commits b b' ∧ dom (peers b') = dom (peers b) ∧ master_ok log_is (λ _, True) (lds ++ [record_bytes x]) b'.
Proof using Hjunk HLL.
  intros [Hb Hm [Hq Ht] Hroom [Hx Hrec]] Htime Hsz. destruct (append_ok log_is (λ _, True) lds b (record_bytes x) Hm Hrec Hroom)
    as (ms & b' & Happ & Hm' & Hdom & _).
  exists ms, b'. split; [|split; [by eapply append_same|done]]. pose proof Hx as (_ & Hch & Hp & _).
  unfold StorageServer_process. rewrite openFrame_bytes, bind_Some_eq by (done || apply put_bytes || (unfold is_u32; vm_compute; split; congruence)).
  cbv beta iota. unfold in_time in Htime. cbv zeta. rewrite (proj2 (Z.leb_gt _ _)) by exact Htime.
  change (KV_REQ_MESSAGE_PUT =? KV_REQ_MESSAGE_PUT) with true. unfold handlePut. rewrite parse_put by exact Hp.
  change (buildLog junk (l_head x) _) with (buildLog junk (l_head x) (entry_of x)).
  rewrite (buildLog_bytes junk Hjunk), bind_Some_eq by exact Hx. rewrite Hb, bind_Some_eq, Happ, bind_Some_eq. cbv beta iota.
  by rewrite bind_Some_eq.
Qed.

(** The answer of a copy that has the entry makes a commit task. *)
Lemma answer_commits lds d b a :
  master_ok log_is (λ _, True) (lds ++ [d]) b → quickCommitIdx b = Z.of_nat (length lds) → tasks b = [] →
  is_Some (peers b !! r_peerid a) → r_accept a = true → r_nextidx a = Z.of_nat (length lds) + 2 →
  ∃ o b', rpcHandler a b = Some (o, b') ∧ tasks b' = [Z.of_nat (length lds) + 1] ∧ quickCommitIdx b' = Z.of_nat (length lds) ∧
    delivered b' = delivered b ∧ log_is (lds ++ [d]) (walog b').
Proof using HLL.
  intros Hm Hq Ht [p Hp] Hacc Hnext. unfold rpcHandler. rewrite Hp, bind_Some_eq, Hacc, Hnext. cbv zeta.
  pose proof (log_max_ok _ _ (bo_log _ _ _ _ (mo_bucket _ _ _ _ Hm))) as Hmax. unfold log_max in Hmax. rewrite length_app in Hmax. cbn [length] in Hmax.
  rewrite u64_id by lia. replace (Z.of_nat (length lds) + 2 - 1) with (Z.of_nat (length lds) + 1) by lia.
  set (b1 := set_peers _ b).
  assert (Hm1 : master_ok log_is (λ _, True) (lds ++ [d]) b1).
  { apply set_peer_ok; [done|]. right. cbn. rewrite length_app. cbn. lia. }
  assert (Hc : commit (Z.of_nat (length lds) + 1) b1 = set_tasks [Z.of_nat (length lds) + 1] b1).
  { unfold commit. cbn [b1 set_peers quickCommitIdx tasks]. rewrite Hq, (proj2 (Z.leb_gt _ _)) by lia. by rewrite Ht. }
  rewrite Hc. assert (Hm2 : master_ok log_is (λ _, True) (lds ++ [d]) (set_tasks [Z.of_nat (length lds) + 1] b1)).
  { rewrite <- Hc. destruct Hm1 as [Hb1 Hp1 Hd1 Hr1]. destruct (commit_fields b1 (Z.of_nat (length lds) + 1)) as (_ & E2 & E3 & _ & _).
    split; [by apply commit_ok|by rewrite E2|done|by rewrite E3]. }
  rewrite (mo_role _ _ _ _ Hm2). cbn [negb orb]. destruct (_ || _)%bool.
  - destruct (request_ok log_is (λ _, True) (lds ++ [d]) _ (r_peerid a) {| nextSendIdx := Z.of_nat (length lds) + 2 |} Hm2) as (m & p' & Hreq & _).
    { cbn. apply lookup_insert_eq. }
    rewrite Hreq, bind_Some_eq. cbv beta iota. eexists _, _. split; [done|]. split_and!; [done|done|done|apply Hm2].
  - eexists _, _. split; [done|]. split_and!; [done|done|done|apply Hm2].
Qed.

(** Running the task hands the record over. *)
Lemma task_commits lds d b :
  log_is (lds ++ [d]) (walog b) → tasks b = [Z.of_nat (length lds) + 1] → quickCommitIdx b = Z.of_nat (length lds) →
  ∃ b', runTask b = Some b' ∧ delivered b' = delivered b ++ [(Z.of_nat (length lds) + 1, Wal.entry d)].
Proof using HLL.
  intros Hl Ht Hq. unfold runTask. rewrite Ht, Hq.
  replace (Z.to_nat (Z.of_nat (length lds) + 1 - Z.of_nat (length lds))) with 1%nat by lia. cbn [commitLoop].
  change (walog (set_tasks [] b)) with (walog b).
  rewrite (log_entry_ok (lds ++ [d]) (walog b) (length lds) d Hl) by (by apply list_lookup_middle). rewrite !bind_Some_eq.
  eexists. split; [done|]. done.
Qed.

Definition empty_entry : kv_entry := {| e_key := []; e_val := []; e_mtime := 0; e_etime := 0 |}.

(** The calls of the engine that a put and a get become. *)
Definition putOp s (x : logged) : op :=
  OpPut (p_ns (l_put x)) (StorageServer_getBucketNumber (p_key (l_put x)) s) (p_key (l_put x)) (p_val (l_put x)) (p_expired (l_put x)).
Definition getOp s (q : get_request) : op := OpGet (g_ns q) (StorageServer_getBucketNumber (g_key q) s) (g_key q).

Lemma key_i32 ns n key : key_ok (ns, n, key) → i32 ns = ns ∧ i32 n = n.
Proof using. intros (H1 & H2 & _). unfold sMaxNamespaceCount, sMaxBucketNumber in *. cbn in *. split; apply i32_id; lia. Qed.

Lemma enginePut_exec now x s rc r :
  op_ok now (putOp s x) → exec junk now (putOp s x) (kvengine s) = Some ((rc, None), r) → enginePut junk now x s = Some (rc, r).
Proof using.
  intros (_ & Hk & _ & He1 & He2 & _) Hex. unfold enginePut. cbv zeta. destruct (key_i32 _ _ _ Hk) as [-> ->].
  rewrite (i32_id (p_expired _)) by lia. cbn [exec putOp] in Hex.
  apply bind_Some_inv in Hex as ([rc' r'] & -> & Hex). by injection Hex as -> ->.
Qed.

(** What a put answers is the code of what the database reported. *)
Lemma exec_put_code now (r : rdb_instance D) ns n key value expire rc e r' :
  op_ok now (OpPut ns n key value expire) → exec junk now (OpPut ns n key value expire) r = Some ((rc, e), r') →
  let w := db_put (key_bytes (ns, n, key)) (entry_bytes (new_entry now key value expire)) (dataDb r) in
  rc = to_kvstore_code w.1 ∧ r' = set_data w.2 r.
Proof using.
  intros (Hnow & (_ & _ & Hkey) & _ & He1 & He2 & He3) Hex w. cbn [exec] in Hex. unfold RdbManager_put, RdbInstance_put in Hex.
  rewrite (u32_id now), (u32_id expire), storedKey_bytes, bind_Some_eq in Hex by (done || (unfold is_u32; lia)).
  assert (Hed : (if negb (expire =? 0) then u32 (now + expire) else 0) = e_etime (new_entry now key value expire)).
  { cbn. destruct (expire =? 0); [done|]. cbn. apply u32_id. unfold is_u32 in *. lia. }
  rewrite Hed in Hex. unfold do_put in Hex. fold (entry_bytes (new_entry now key value expire)) in Hex.
  change (storedItem now (e_etime (new_entry now key value expire)) value) with (entry_bytes (new_entry now key value expire)) in Hex.
  change (db_put _ _ (dataDb r)) with w in Hex. destruct w as [st d]. rewrite code_of, bind_Some_eq in Hex. by injection Hex as <- _ <-.
Qed.

(** A get is answered from the engine. *)
Lemma get_answered s q h usec now_us now ch rc e r :
  in_time h usec now_us → is_u32 ch → get_request_ok q → 12 + Z.of_nat (length (serializeGet q)) <= size_limit →
  op_ok now (getOp s q) → exec junk now (getOp s q) (kvengine s) = Some ((rc, e), r) →
  12 + Z.of_nat (length (serializeReply (ReplyGet rc (metaVersion s) (Some (default empty_entry e))))) <= size_limit →
  StorageServer_process junk h usec now_us now (frameBytes ch KV_REQ_MESSAGE_GET (serializeGet q)) s =
    Some ([(sock_index h, sock_create h,
            frameBytes ch KV_RES_MESSAGE_GET (serializeReply (ReplyGet rc (metaVersion s) (Some (default empty_entry e)))))], [], s).
Proof using Hjunk.
  intros Htime Hch Hq Hsz (_ & Hk) Hex Hrs. unfold StorageServer_process.
  rewrite openFrame_bytes, bind_Some_eq by (done || apply get_bytes || (unfold is_u32; vm_compute; split; congruence)).
  cbv beta iota zeta. unfold in_time in Htime. rewrite (proj2 (Z.leb_gt _ _)) by exact Htime.
  change (KV_REQ_MESSAGE_GET =? KV_REQ_MESSAGE_PUT) with false. change (KV_REQ_MESSAGE_GET =? KV_REQ_MESSAGE_GET) with true.
  unfold handleGet. rewrite parse_get by exact Hq. unfold processGet. cbv zeta. destruct (key_i32 _ _ _ Hk) as [-> ->].
  cbn [exec getOp] in Hex. apply bind_Some_inv in Hex as (a & -> & Hex). injection Hex as -> <-. rewrite !bind_Some_eq.
  cbv beta iota. rewrite makeFrame_bytes; [done|done|apply reply_bytes|exact Hrs].
Qed.

(** Commit of the put: the engine puts it and its client is answered. *)
Lemma put_committed s x lds b now rc r i :
  mgrAt i s = Some b → log_is (lds ++ [record_bytes x]) (walog b) → tasks b = [Z.of_nat (length lds) + 1] →
  quickCommitIdx b = Z.of_nat (length lds) → logged_ok x → enginePut junk now x s = Some (rc, r) →
  ∃ s', runCommit junk now i s = Some ([putAnswer x rc s], s') ∧ kvengine s' = r ∧ metaVersion s' = metaVersion s ∧
    bucketCount s' = bucketCount s.
Proof using Hjunk HLL.
  intros Hb Hl Ht Hq Hx Hput. unfold runCommit. rewrite Hb, bind_Some_eq.
  destruct (task_commits lds (record_bytes x) b Hl Ht Hq) as (b' & -> & Hd). rewrite bind_Some_eq, Hd, drop_app_length.
  cbn [commitAll]. rewrite (commit_record junk Hjunk now x (setMgrAt i b' s) rc r Hx) by exact Hput.
  rewrite bind_Some_eq. cbv beta iota. rewrite bind_Some_eq. by eexists.
Qed.

(** The get of a key that was just put at [t1]. *)
Lemma get_after_put s st x q h usec now_us t1 t2 ch :
  let e0 := new_entry t1 (p_key (l_put x)) (p_val (l_put x)) (p_expired (l_put x)) in
  let st' := with_kv (<[(p_ns (l_put x), StorageServer_getBucketNumber (p_key (l_put x)) s, p_key (l_put x)) := e0]> (kv st)) st in
  refines rocks_is st' (kvengine s) → op_ok t1 (putOp s x) → default 0 (cleared st !! p_ns (l_put x)) <= t1 →
  get_request_ok q → g_ns q = p_ns (l_put x) → g_key q = p_key (l_put x) → is_u32 ch → in_time h usec now_us →
  12 + Z.of_nat (length (serializeGet q)) <= size_limit → is_u32 t2 →
  (p_expired (l_put x) = 0 ∨ t2 <= t1 + p_expired (l_put x)) →
  (∀ rc e, e = empty_entry ∨ e = e0 → 12 + Z.of_nat (length (serializeReply (ReplyGet rc (metaVersion s) (Some e)))) <= size_limit) →
  ∃ rc e, StorageServer_process junk h usec now_us t2 (frameBytes ch KV_REQ_MESSAGE_GET (serializeGet q)) s =
      Some ([(sock_index h, sock_create h,
              frameBytes ch KV_RES_MESSAGE_GET (serializeReply (ReplyGet rc (metaVersion s) (Some e))))], [], s) ∧
    ((rc = 0 ∧ e = e0) ∨ (rc ≠ 0 ∧ rc ≠ KV_RETURN_DATA_NOT_EXIST ∧ rc ≠ KV_RETURN_DATA_EXPIRED)).
Proof using Hjunk HRL.
  intros e0 st' Href Hop Hcl Hq Hqn Hqk Hch Htime Hsz Ht2 Hexp Hrs.
  assert (Hgo : op_ok t2 (getOp s q)).
  { split; [done|]. destruct Hop as (_ & Hk & _). unfold getOp. rewrite Hqn, Hqk. exact Hk. }
  destruct (exec_sim (rocks_is := rocks_is) junk t2 st' (kvengine s) (getOp s q) Href Hgo) as (a & r & st2 & Hex & Hst & _).
  assert (Hlive : live t2 st' (g_ns q, StorageServer_getBucketNumber (g_key q) s, g_key q) = Some e0).
  { rewrite Hqn, Hqk. unfold live, st'. cbn [kv cleared with_kv fst]. rewrite lookup_insert_eq, bind_Some_eq. unfold expired, e0, new_entry. cbn [e_etime e_mtime].
    rewrite (proj2 (Z.ltb_ge t1 _)) by done. destruct (Z.eqb_spec (p_expired (l_put x)) 0) as [_|Hne]; [done|].
    destruct Hexp as [?|Hexp]; [done|]. by rewrite (proj2 (Z.ltb_ge _ t2)), andb_false_r by lia. }
  inversion Hst as [|? ? ? e He|? ? ? rc Hrc Hmiss| | | | |]; subst.
  - rewrite Hlive in He. injection He as <-. exists 0, e0. split; [|by left].
    exact (get_answered s q h usec now_us t2 ch 0 (Some e0) r Htime Hch Hq Hsz Hgo Hex (Hrs _ _ (or_intror eq_refl))).
  - exists rc, empty_entry. split.
    + exact (get_answered s q h usec now_us t2 ch rc None r Htime Hch Hq Hsz Hgo Hex (Hrs _ _ (or_introl eq_refl))).
    + right. split_and!; [done| |]; intros ->; rewrite Hlive in Hmiss; by discriminate Hmiss; auto.
Qed.

(** C1: from the client's put to the value it reads.  A put frame that arrives in time at a server
    whose bucket is idle appends its record to the log and is not yet answered; the answer of a copy that
    has the entry makes a commit task; the task puts the key and the value with their dates in the database, and
    answers on the client's connection and channel with the code of exactly what the database reported; and
    when that is success, a get frame for the key, up to
    the expiry, is answered with the value and its dates, or with an error of the database. *)
Theorem put_get_served s st x b lds a usec now_us now t1 q h2 ch2 usec2 now_us2 t2 :
  let e0 := new_entry t1 (p_key (l_put x)) (p_val (l_put x)) (p_expired (l_put x)) in
  let i := StorageServer_getBucketNumber (p_key (l_put x)) s in
  ready s x b lds → is_Some (peers b !! r_peerid a) → r_accept a = true → r_nextidx a = Z.of_nat (length lds) + 2 →
  in_time (l_head x) usec now_us → 12 + Z.of_nat (length (serializePut (l_put x))) <= size_limit →
  refines rocks_is st (kvengine s) → op_ok t1 (putOp s x) → default 0 (cleared st !! p_ns (l_put x)) <= t1 →
  get_request_ok q → g_ns q = p_ns (l_put x) → g_key q = p_key (l_put x) → is_u32 ch2 → in_time h2 usec2 now_us2 →
  12 + Z.of_nat (length (serializeGet q)) <= size_limit → is_u32 t2 →
  (p_expired (l_put x) = 0 ∨ t2 <= t1 + p_expired (l_put x)) →
  (∀ rc e, e = empty_entry ∨ e = e0 → 12 + Z.of_nat (length (serializeReply (ReplyGet rc (metaVersion s) (Some e)))) <= size_limit) →
  ∃ ms s1 ms2 s2 rc s3,
    StorageServer_process junk (l_head x) usec now_us now
      (frameBytes (l_channel x) KV_REQ_MESSAGE_PUT (serializePut (l_put x))) s = Some ([], ms, s1) ∧
    (∃ b1, mgrAt i s1 = Some b1 ∧ log_is (lds ++ [record_bytes x]) (walog b1)) ∧
    answerFrom i a s1 = Some (ms2, s2) ∧ runCommit junk t1 i s2 = Some ([putAnswer x rc s], s3) ∧
    (let w := db_put (key_bytes (p_ns (l_put x), i, p_key (l_put x))) (entry_bytes e0) (dataDb (kvengine s)) in
     rc = to_kvstore_code w.1 ∧ kvengine s3 = set_data w.2 (kvengine s)) ∧
    (rc = 0 → ∃ rc2 e,
      StorageServer_process junk h2 usec2 now_us2 t2 (frameBytes ch2 KV_REQ_MESSAGE_GET (serializeGet q)) s3 =
        Some ([(sock_index h2, sock_create h2,
                frameBytes ch2 KV_RES_MESSAGE_GET (serializeReply (ReplyGet rc2 (metaVersion s) (Some e))))], [], s3) ∧
      ((rc2 = 0 ∧ e = e0) ∨ (rc2 ≠ 0 ∧ rc2 ≠ KV_RETURN_DATA_NOT_EXIST ∧ rc2 ≠ KV_RETURN_DATA_EXPIRED))).
Proof using Hjunk HLL HRL.
  intros e0 i Hrd [p Hp] Hacc Hnext Htime Hsz Href Hop Hcl Hq Hqn Hqk Hch2 Htime2 Hqs Ht2 Hexp Hrs.
  destruct (put_logged s x b lds usec now_us now Hrd Htime Hsz) as (ms & b1 & Hput & (Hq1 & Ht1 & Hd1) & Hdom & Hm1).
  destruct Hrd as [Hb _ [Hqc Htk] _ [Hx _]].
  assert (Hp1 : is_Some (peers b1 !! r_peerid a)) by (apply elem_of_dom; rewrite Hdom; apply elem_of_dom; eauto).
  destruct (answer_commits lds (record_bytes x) b1 a) as (o & b2 & Ha & Ht2' & Hq2 & _ & Hl2); [done|congruence|congruence|done|done|done|].
  fold i in Hput, Hb. pose proof (mgrAt_set i b b1 s Hb) as Hb1. pose proof (mgrAt_set i b1 b2 _ Hb1) as Hb2.
  exists ms, (setMgrAt i b1 s), (option_list o), (setMgrAt i b2 (setMgrAt i b1 s)).
  destruct (exec_sim (rocks_is := rocks_is) junk t1 st (kvengine s) (putOp s x) Href Hop) as (ap & r & st' & Hex & Hst & Href').
  inversion Hst as [? ? ? ? ? rc ? Hw| | | | | | |]; subst. pose proof (exec_put_code t1 (kvengine s) _ _ _ _ _ _ _ _ Hop Hex) as [Hrc Hr].
  destruct (put_committed (setMgrAt i b2 (setMgrAt i b1 s)) x lds b2 t1 rc r i) as (s3 & Hrun & He3 & Hv3 & Hc3);
    [exact Hb2|done|done|done|done|by apply enginePut_exec|].
  exists rc, s3. split; [exact Hput|]. split; [exists b1; split; [exact Hb1|apply Hm1]|].
  split; [unfold answerFrom; by rewrite Hb1, bind_Some_eq, Ha, bind_Some_eq|].
  split; [exact Hrun|]. split; [split; [exact Hrc|by rewrite He3]|]. intros Hz. destruct Hw as [->|[Hw _]]; [|by destruct Hw].
  assert (Hbn : StorageServer_getBucketNumber (p_key (l_put x)) s3 = StorageServer_getBucketNumber (p_key (l_put x)) s).
  { unfold StorageServer_getBucketNumber. by rewrite Hc3. }
  replace (metaVersion s) with (metaVersion s3) by exact Hv3.
  apply (get_after_put s3 st x q h2 usec2 now_us2 t1 t2 ch2); try done.
  - rewrite He3, Hbn. exact Href'.
  - unfold putOp. rewrite Hbn. exact Hop.
  - rewrite Hv3. exact Hrs.
Qed.
End Path.

(** ** A simple codec *)

(** Numbers as 4 bytes, strings byte by byte with a mark in front of each. *)
Fixpoint packBytes (l : list Z) : list Z :=
  match l with [] => [0] | b :: l => 1 :: u8 b :: packBytes l end.
Fixpoint unpackBytes (l : list Z) : option (list Z * list Z) :=
  match l with
  | 0 :: r => Some ([], r)
  | 1 :: b :: r => '(x, r) ← unpackBytes r; Some (b :: x, r)
  | _ => None
  end.
Definition unpackNum (l : list Z) : option (Z * list Z) :=
  match l with b0 :: b1 :: b2 :: b3 :: r => Some (be_value [b0; b1; b2; b3], r) | _ => None end.

Lemma unpack_pack l r : Forall is_u8 l → unpackBytes (packBytes l ++ r) = Some (l, r).
Proof.
  intros Hl. induction Hl as [|b l Hb _ IH]; [done|]. cbn [packBytes app unpackBytes]. rewrite IH, bind_Some_eq. by rewrite u8_id.
Qed.
Lemma unpack_num n r : is_u32 n → unpackNum (be_bytes 4 n ++ r) = Some (n, r).
Proof.
  intros Hn. pose proof (be_value_bytes_id 4 n Hn) as Hv. pose proof (length_be_bytes 4 n) as Hl.
  destruct (be_bytes 4 n) as [|b0 [|b1 [|b2 [|b3 [|? ?]]]]]; try done. cbn [app unpackNum]. by rewrite Hv.
Qed.
Lemma pack_u8 l : Forall is_u8 (packBytes l).
Proof. induction l as [|b l IH]; cbn; repeat constructor; try done; apply u8_bound. Qed.

Definition packPut (r : put_request) : list Z :=
  be_bytes 4 (p_ns r) ++ be_bytes 4 (p_version r) ++ be_bytes 4 (p_expired r) ++ packBytes (p_key r) ++ packBytes (p_val r).
Definition unpackPut (l : list Z) : option put_request :=
  '(ns, l) ← unpackNum l; '(v, l) ← unpackNum l; '(x, l) ← unpackNum l; '(key, l) ← unpackBytes l; '(val, l) ← unpackBytes l;
  Some {| p_ns := ns; p_version := v; p_expired := x; p_key := key; p_val := val |}.
Definition packGet (r : get_request) : list Z := be_bytes 4 (g_ns r) ++ packBytes (g_key r).
Definition unpackGet (l : list Z) : option get_request :=
  '(ns, l) ← unpackNum l; '(key, l) ← unpackBytes l; Some {| g_ns := ns; g_key := key |}.
Definition packEntry (e : dump_entry) : list Z :=
  be_bytes 4 (de_channelid e) ++ be_bytes 4 (de_mtype e) ++
  packPut {| p_ns := de_ns e; p_version := de_version e; p_expired := de_expired e; p_key := de_key e; p_val := de_val e |}.
Definition unpackEntry (l : list Z) : option dump_entry :=
  '(ch, l) ← unpackNum l; '(ty, l) ← unpackNum l; r ← unpackPut l;
  Some {| de_channelid := ch; de_mtype := ty; de_ns := p_ns r; de_key := p_key r; de_val := p_val r;
          de_expired := p_expired r; de_version := p_version r |}.
Definition packReply (r : reply) : list Z :=
  match r with
  | ReplyReturn code v => be_bytes 4 code ++ be_bytes 4 v
  | ReplyGet code v kv =>
      be_bytes 4 code ++ be_bytes 4 v ++
      match kv with None => [] | Some e => packBytes (e_key e) ++ packBytes (e_val e) ++ be_bytes 4 (e_mtime e) ++ be_bytes 4 (e_etime e) end
  | ReplyDump _ => []
  end.

Lemma unpack_put r rest : put_request_ok r →
  (unpackPut (packPut r ++ rest)) = Some r.
Proof.
  intros (H1 & H2 & H3 & H4 & H5). unfold unpackPut, packPut. rewrite <- !app_assoc.
  do 3 (rewrite unpack_num by done; rewrite bind_Some_eq; cbv beta iota).
  do 2 (rewrite unpack_pack by done; rewrite bind_Some_eq; cbv beta iota). by destruct r.
Qed.

Ltac solve_bytes := rewrite ?Forall_app; repeat split; first [apply be_bytes_u8|apply pack_u8|constructor].

#[local] Instance demo_codec : StorageCodec.
Proof.
  refine {| parsePut := unpackPut; parseGet := unpackGet; parseDump := λ _, None; parseBucketHeartbeat := λ _, None;
    parseEntry := unpackEntry; serializePut := packPut; serializeGet := packGet; serializeEntry := packEntry; serializeReply := packReply |}.
  - intros r. unfold packPut. solve_bytes.
  - intros r. unfold packGet. solve_bytes.
  - intros e. unfold packEntry, packPut. solve_bytes.
  - intros [c v|c v [e|]|r]; unfold packReply; solve_bytes.
  - intros c v. unfold packReply. rewrite length_app, !length_be_bytes. lia.
  - intros e _ He. unfold packEntry in He. apply (f_equal length) in He. rewrite length_app, length_be_bytes in He. done.
  - intros r Hr. rewrite <- (app_nil_r (packPut r)). by apply unpack_put.
  - intros r [H1 H2]. unfold unpackGet, packGet. rewrite <- (app_nil_r (packBytes _)). rewrite unpack_num, bind_Some_eq by done.
    cbv beta iota. rewrite unpack_pack by done. by destruct r.
  - intros e (H1 & H2 & H3 & H4 & H5 & H6 & H7). unfold unpackEntry, packEntry.
    do 2 (rewrite unpack_num by done; rewrite bind_Some_eq; cbv beta iota).
    rewrite <- (app_nil_r (packPut _)). rewrite unpack_put by done. by destruct e.
Defined.

(** ** A put and a get *)

#[local] Existing Instance map_rocks.
#[local] Existing Instance map_rocks_laws.
#[local] Instance demo_log : Log wal := wal_log demo_md5 demo_iter.
#[local] Instance demo_log_laws : LogLaws wal (wal_is demo_md5 demo_iter) := wal_log_laws demo_md5 demo_iter.

Definition demo_bucket : bucket wal := (addPeer 3 (BucketMgr_initial 0 emptyLog)).2.
Definition demo_server : server wal (gmap (list Z) (list Z)) :=
  {| bucketCount := 4; metaVersion := 2; bucketMgr := Some (replicate 4 demo_bucket); kvengine := demo_new |}.
Definition demo_logged : logged :=
  {| l_head := demo_head 1; l_channel := 77;
     l_put := {| p_ns := 3; p_version := 0; p_expired := 50; p_key := [107; 49]; p_val := [118] |} |}.
Definition demo_answer : dump_return := {| r_accept := true; r_peerid := 3; r_nextidx := 2; r_commitidx := 0 |}.
Definition demo_get : get_request := {| g_ns := 3; g_key := [107; 49] |}.

Lemma demo_logged_ok : logged_ok demo_logged ∧ Replication.put_ok (record_bytes demo_logged).
Proof.
  split.
  - repeat split; try (vm_compute; congruence); repeat constructor; vm_compute; congruence.
  - split; [vm_compute; lia|vm_compute; reflexivity].
Qed.

Lemma demo_ready : ready (wal_is demo_md5 demo_iter) demo_server demo_logged demo_bucket [].
Proof.
  split.
  - vm_compute. reflexivity.
  - destruct (initial_ok (wal_is demo_md5 demo_iter) (λ _, True) 0 [] emptyLog (wal_is_empty _ _)) as [H1 H2 H3 H4 H5].
    split; [split; [exact H1|exact H2|exact H3|exact H4|exact H5]| |constructor|reflexivity].
    unfold demo_bucket. cbn. apply map_Forall_insert_2; [by left|]. apply map_Forall_empty.
  - split; reflexivity.
  - vm_compute. congruence.
  - exact demo_logged_ok.
Qed.

Lemma put_get_served_witness :
  ∃ ms s1 ms2 s2 s3,
    StorageServer_process (λ _, 0) (demo_head 1) 0 6500000 100
      (frameBytes 77 KV_REQ_MESSAGE_PUT (packPut (l_put demo_logged))) demo_server = Some ([], ms, s1) ∧
    answerFrom (StorageServer_getBucketNumber [107; 49] demo_server) demo_answer s1 = Some (ms2, s2) ∧
    runCommit (λ _, 0) 100 (StorageServer_getBucketNumber [107; 49] demo_server) s2 = Some ([putAnswer demo_logged 0 demo_server], s3).
Proof.
  destruct (put_get_served (wal_is demo_md5 demo_iter) eq (λ _, 0) ltac:(intros i; vm_compute; split; congruence)
    demo_server (empty_store demo_buckets) demo_logged demo_bucket [] demo_answer 0 6500000 100 100
    demo_get (demo_head 2) 78 0 6500000 120) as (ms & s1 & ms2 & s2 & rc & s3 & H1 & _ & H2 & H3 & [Hrc _] & _).
  - exact demo_ready.
  - vm_compute. eauto.
  - reflexivity.
  - reflexivity.
  - vm_compute. reflexivity.
  - vm_compute. congruence.
  - apply (refines_new ∅ ∅); reflexivity.
  - repeat split; try discriminate; vm_compute; congruence.
  - vm_compute. congruence.
  - split; [split; vm_compute; congruence|]. repeat constructor; vm_compute; congruence.
  - reflexivity.
  - reflexivity.
  - split; vm_compute; congruence.
  - vm_compute. reflexivity.
  - vm_compute. congruence.
  - split; vm_compute; congruence.
  - right. vm_compute. congruence.
  - intros rc e He. cbn [serializeReply demo_codec packReply]. rewrite !length_app, !length_be_bytes.
    destruct He as [->| ->]; vm_compute; congruence.
  - cbn in Hrc. subst rc. exists ms, s1, ms2, s2, s3. split; [exact H1|]. split; [exact H2|exact H3].
Defined.
