(* ===== verification/Rpc.v ===== *)
(** * The RPC client (src/src/common/rpc/client.{h,cc}, session.{h,cc})

    A [Client] is one connection to a server, shared by all who call that server.  A request
    carries a sequence number; the pending ones are in [ctxs] under that number.  An answer
    is a frame: its length, the number and the answer.  A request ends by its callback, with
    the answer, after its timeout, or when the connection is closed.

    An [Async] object lives as long as [ctxs] or a dispatched callback refers to it, and its timer with
    it: a timer can only fire for a request in [ctxs].  Requests have identities of their own,
    here [id]; [finished] are the callbacks dispatched so far.  [input] is what libevent
    has received and the session has not drained.  [None] is a failed assertion of [Buffer]. *)
From S2P Require Import Prelude Buffers BufferSpec Frame.

Inductive call_status := Ok | Timeout | Failed | Closed.
Inductive conn_status := CLOSED | CONNECTED | CONNECTING.
#[global] Instance conn_status_eq_dec : EqDecision conn_status.
Proof. solve_decision. Defined.

Abbreviation outcome := (Z * call_status * option (list Z))%type.

Record client := {
  conn : conn_status;
  bev : bool;
  ctxs : gmap Z Z;
  timeouts : Z;
  sendNum : Z;
  readNum : Z;
  input : list Z;
  finished : list outcome }.

Definition Client_new : client :=
  {| conn := CLOSED; bev := false; ctxs := ∅; timeouts := 0; sendNum := 0; readNum := 0; input := []; finished := [] |}.

Definition set_ctxs (m : gmap Z Z) (c : client) : client :=
  Build_client (conn c) (bev c) m (timeouts c) (sendNum c) (readNum c) (input c) (finished c).
Definition set_input (l : list Z) (c : client) : client :=
  Build_client (conn c) (bev c) (ctxs c) (timeouts c) (sendNum c) (readNum c) l (finished c).

(** [Async::invoke], [invokeClose], [invokeFailed]: the callback is dispatched. *)
Definition finish (o : outcome) (c : client) : client :=
  Build_client (conn c) (bev c) (ctxs c) (timeouts c) (sendNum c) (readNum c) (input c) (finished c ++ [o]).

Definition Client_erase (seq : Z) (c : client) : option Z * client :=
  match ctxs c !! seq with
  | None => (None, c)
  | Some id => (Some id, set_ctxs (delete seq (ctxs c)) c)
  end.

(** [connect]: a new [bufferevent], whose buffers are empty. *)
Definition Client_connect (c : client) : client :=
  if decide (conn c = CLOSED) then
    {| conn := CONNECTING; bev := true; ctxs := ctxs c; timeouts := 0; sendNum := sendNum c; readNum := readNum c;
       input := []; finished := finished c |}
  else c.

Definition Client_event_connected (c : client) : client :=
  {| conn := CONNECTED; bev := bev c; ctxs := ctxs c; timeouts := timeouts c; sendNum := sendNum c; readNum := readNum c;
     input := input c; finished := finished c |}.

(** [close], by either side: every pending request is told. *)
Definition Client_close (c : client) : client :=
  if decide (conn c = CLOSED) then c else
  {| conn := CLOSED; bev := false; ctxs := ∅; timeouts := timeouts c; sendNum := sendNum c; readNum := readNum c;
     input := []; finished := finished c ++ ((λ p, (p.2, Closed, None)) <$> map_to_list (ctxs c)) |}.

(** [send]: false when there is no connection. *)
Definition Client_send (c : client) : bool * client :=
  (bev c, Build_client (conn c) (bev c) (ctxs c) (timeouts c) (sendNum c + 1) (readNum c) (input c) (finished c)).

(** [request], what is dispatched to the thread of the client.  [emplace] keeps a request
    that is already there under the same number. *)
Definition Client_request (seq id : Z) (c : client) : client :=
  let c := match ctxs c !! seq with Some _ => c | None => set_ctxs (<[seq := id]> (ctxs c)) c end in
  let c := Client_connect c in
  let '(ok, c) := Client_send c in
  if ok then c else finish (id, Failed, None) (Client_erase seq c).2.

(** [Async::timeout] of the request [id] with number [seq]. *)
Definition Async_timeout (seq id : Z) (c : client) : client :=
  let c := Build_client (conn c) (bev c) (ctxs c) (timeouts c + 1) (sendNum c) (readNum c) (input c) (finished c) in
  finish (id, Timeout, None) (Client_erase seq c).2.

(** [Client::recv]: how many bytes were parsed. *)
Definition Client_recv (evbuf : list Z) (c : client) : option (Z * client) :=
  if Z.of_nat (length evbuf) <? 4 then Some (0, c) else
  front ← peek evbuf 0 4;
  '(size, _) ← Buffer_readInt32 (Buffer_wrap front);
  if Z.of_nat (length evbuf) <? size then Some (0, c) else
  frame ← peek evbuf 0 size;
  let buf2 := (Buffer_pos (Buffer_wrap frame) 4).2 in
  '(seq, buf2) ← Buffer_readInt32 buf2;
  match Client_erase seq c with
  | (None, c) => Some (size, c)
  | (Some id, c) =>
      rsp ← peek (bytes buf2) (pdata buf2) (curDataLen buf2);
      let c := finish (id, Ok, Some rsp) c in
      Some (size, Build_client (conn c) (bev c) (ctxs c) (timeouts c) (sendNum c) (readNum c + 1) (input c) (finished c))
  end.

(** [Session::recv] on what was received so far. *)
Fixpoint Session_recv (fuel : nat) (c : client) : option client :=
  match fuel with
  | O => None
  | S fuel =>
      if decide (input c = []) then Some c else
      '(parsed, c) ← Client_recv (input c) c;
      if parsed =? 0 then Some c else Session_recv fuel (set_input (drop (Z.to_nat parsed) (input c)) c)
  end.

(** More bytes arrive and the read callback runs. *)
Definition received (l : list Z) (c : client) : option client :=
  if negb (bev c) then Some c else
  let c := set_input (input c ++ l) c in
  Session_recv (S (length (input c))) c.

(** ** Runs *)

Inductive rpc_event :=
| RRequest (seq id : Z)
| RReceived (l : list Z)
| RTimeout (seq id : Z)
| RConnected
| RClose.

Inductive rpc_step : client → rpc_event → client → Prop :=
| rpc_request c seq id : rpc_step c (RRequest seq id) (Client_request seq id c)
| rpc_received c l c' : received l c = Some c' → rpc_step c (RReceived l) c'
| rpc_timeout c seq id : ctxs c !! seq = Some id → rpc_step c (RTimeout seq id) (Async_timeout seq id c)
| rpc_connected c : conn c = CONNECTING → rpc_step c RConnected (Client_event_connected c)
| rpc_close c : rpc_step c RClose (Client_close c).

Inductive rpc_runs : client → list rpc_event → client → Prop :=
| rpc_end c : rpc_runs c [] c
| rpc_more c e c1 l c2 : rpc_step c e c1 → rpc_runs c1 l c2 → rpc_runs c (e :: l) c2.
