(* ===== verification/RpcSpec.v ===== *)
(** * Requests end once, and answers arrive in any pieces

    The contract of [Rpc]: with numbers that are not used twice every request has one end;
    the bytes of answers may arrive in any pieces.  With a number that is in use the request
    is lost: no callback of it ever runs. *)
From S2P Require Import Prelude Buffers BufferSpec Frame Rpc.

(** ** Answers as bytes *)

Definition answerFrame (a : Z * list Z) : list Z :=
  be_bytes 4 (8 + Z.of_nat (length a.2)) ++ be_bytes 4 a.1 ++ a.2.

Definition answer_ok (a : Z * list Z) : Prop := is_u32 a.1 ∧ 8 + Z.of_nat (length a.2) <= size_limit.

(** What an answer does to the client. *)
Definition deliver (c : client) (a : Z * list Z) : client :=
  match ctxs c !! a.1 with
  | None => c
  | Some id => Build_client (conn c) (bev c) (delete a.1 (ctxs c)) (timeouts c) (sendNum c) (readNum c + 1) (input c)
                 (finished c ++ [(id, Ok, Some a.2)])
  end.

Lemma length_answerFrame a : length (answerFrame a) = (8 + length a.2)%nat.
Proof. unfold answerFrame. rewrite !length_app, !length_be_bytes. lia. Qed.

Lemma deliver_input l c a : deliver (set_input l c) a = set_input l (deliver c a).
Proof. unfold deliver. cbn. by destruct (ctxs c !! a.1). Qed.

Lemma deliver_bev c a : bev (deliver c a) = bev c.
Proof. unfold deliver. by destruct (ctxs c !! a.1). Qed.

Lemma foldl_deliver_input l q c : foldl deliver (set_input q c) l = set_input q (foldl deliver c l).
Proof. revert c. induction l as [|a l IH]; intros c; [done|]. cbn [foldl]. by rewrite deliver_input, IH. Qed.
Lemma foldl_deliver_bev l c : bev (foldl deliver c l) = bev c.
Proof. revert c. induction l as [|a l IH]; intros c; [done|]. cbn [foldl]. by rewrite IH, deliver_bev. Qed.

(** Reading the front of a wrapped block. *)
Lemma front_read n rest :
  is_u32 n → Buffer_readInt32 (Buffer_wrap (be_bytes 4 n ++ rest)) = Some (n, set_pdata 4 (Buffer_wrap (be_bytes 4 n ++ rest))).
Proof.
  intros Hn. unfold Buffer_readInt32, readInt. cbn [pdata pfree Buffer_wrap]. rewrite length_app, length_be_bytes.
  rewrite (proj2 (Z.leb_le _ _)) by lia. cbn [assert_that]. rewrite bind_Some_eq.
  change (bytes (Buffer_wrap ?l)) with l. rewrite peek_Some by (rewrite ?length_app, ?length_be_bytes; lia).
  rewrite bind_Some_eq. change (Z.to_nat 0) with 0%nat. rewrite drop_0, take_app_length' by (by rewrite length_be_bytes).
  by rewrite be_value_bytes_id by exact Hn.
Qed.

Lemma Client_recv_frame a rest c :
  answer_ok a → Client_recv (answerFrame a ++ rest) c = Some (Z.of_nat (length (answerFrame a)), deliver c a).
Proof.
  intros [Hseq Hsz]. destruct a as [seq rsp]. cbn [fst snd] in *. pose proof (length_answerFrame (seq, rsp)) as Hl. cbn [snd] in Hl.
  unfold size_limit in Hsz. unfold Client_recv. rewrite length_app, Hl, (proj2 (Z.ltb_ge _ _)) by lia.
  assert (Hf : peek (answerFrame (seq, rsp) ++ rest) 0 4 = Some (be_bytes 4 (8 + Z.of_nat (length rsp)))).
  { rewrite peek_Some by (rewrite ?length_app, ?Hl; lia). change (Z.to_nat 0) with 0%nat. rewrite drop_0. unfold answerFrame.
    rewrite <- !app_assoc, take_app_length' by (by rewrite length_be_bytes). done. }
  rewrite Hf, bind_Some_eq. rewrite <- (app_nil_r (be_bytes 4 (8 + _))), front_read, bind_Some_eq by (unfold is_u32; lia).
  cbv beta iota. rewrite (proj2 (Z.ltb_ge _ _)) by lia.
  assert (Hp : peek (answerFrame (seq, rsp) ++ rest) 0 (8 + Z.of_nat (length rsp)) = Some (answerFrame (seq, rsp))).
  { rewrite peek_Some by (rewrite ?length_app, ?Hl; lia). change (Z.to_nat 0) with 0%nat. rewrite drop_0. f_equal. apply take_app_length'. lia. }
  rewrite Hp, bind_Some_eq. unfold Buffer_pos. cbn [pfree Buffer_wrap]. rewrite Hl, u32_id by (unfold is_u32; lia).
  rewrite (proj2 (Z.leb_gt _ _)) by lia. cbn [snd].
  assert (Hr : Buffer_readInt32 (set_pdata 4 (Buffer_wrap (answerFrame (seq, rsp)))) =
    Some (seq, set_pdata 8 (Buffer_wrap (answerFrame (seq, rsp))))).
  { unfold Buffer_readInt32, readInt. cbn [pdata pfree set_pdata Buffer_wrap]. rewrite Hl, (proj2 (Z.leb_le _ _)) by lia.
    cbn [assert_that]. rewrite bind_Some_eq. change (bytes (set_pdata 4 (Buffer_wrap ?l))) with l.
    rewrite peek_Some by lia. rewrite bind_Some_eq. unfold answerFrame at 1. cbn [fst snd].
    rewrite drop_app_length', take_app_length' by (by rewrite length_be_bytes). by rewrite be_value_bytes_id by exact Hseq. }
  rewrite Hr, bind_Some_eq. cbv beta iota. unfold Client_erase, deliver. cbn [fst snd].
  replace (Z.of_nat (8 + length rsp)) with (8 + Z.of_nat (length rsp)) by lia.
  destruct (ctxs c !! seq) as [id|]; [|done].
  unfold curDataLen. change (pfree (set_pdata 8 (Buffer_wrap ?l))) with (Z.of_nat (length l)).
  change (pdata (set_pdata 8 ?b)) with 8. change (bytes (set_pdata 8 (Buffer_wrap ?l))) with l. rewrite Hl, i32_id by lia.
  rewrite peek_Some by lia. rewrite bind_Some_eq. unfold answerFrame. cbn [fst snd]. rewrite app_assoc.
  rewrite drop_app_length' by (rewrite length_app, !length_be_bytes; done). rewrite take_ge by lia. done.
Qed.

(** A frame that is not complete. *)
Definition partial_frame (p : list Z) : Prop :=
  ∃ a, answer_ok a ∧ p `prefix_of` answerFrame a ∧ (length p < length (answerFrame a))%nat.

Lemma Client_recv_partial p c : partial_frame p → Client_recv p c = Some (0, c).
Proof.
  intros ([seq rsp] & [Hseq Hsz] & [q Hq] & Hlt). cbn [fst snd] in *. unfold Client_recv.
  pose proof (length_answerFrame (seq, rsp)) as Hl. cbn [snd] in Hl. unfold size_limit in Hsz.
  destruct (Z.ltb_spec (Z.of_nat (length p)) 4) as [_|Hge]; [done|].
  assert (Hf : peek p 0 4 = Some (be_bytes 4 (8 + Z.of_nat (length rsp)))).
  { rewrite peek_Some by lia. change (Z.to_nat 0) with 0%nat. rewrite drop_0. f_equal. change (Z.to_nat 4) with 4%nat.
    apply (f_equal (take 4)) in Hq. rewrite take_app_le in Hq by lia. rewrite <- Hq. unfold answerFrame.
    by rewrite take_app_length' by (by rewrite length_be_bytes). }
  rewrite Hf, bind_Some_eq. rewrite <- (app_nil_r (be_bytes 4 _)), front_read, bind_Some_eq by (unfold is_u32; lia).
  cbv beta iota. by rewrite (proj2 (Z.ltb_lt _ _)) by lia.
Qed.

Definition frames (l : list (Z * list Z)) : list Z := mjoin (answerFrame <$> l).

Lemma frames_cons a l : frames (a :: l) = answerFrame a ++ frames l.
Proof. done. Qed.

Lemma frames_app l1 l2 : frames (l1 ++ l2) = frames l1 ++ frames l2.
Proof. unfold frames. by rewrite fmap_app, join_app. Qed.

(** The loop delivers the complete answers and leaves the rest. *)
Lemma Session_recv_frames l p c fuel :
  Forall answer_ok l → partial_frame p ∨ p = [] → input c = frames l ++ p → (length (input c) < fuel)%nat →
  Session_recv fuel c = Some (set_input p (foldl deliver c l)).
Proof.
  revert c fuel. induction l as [|a l IH]; intros c fuel Hl Hp Hin Hfuel.
  - cbn [foldl frames] in *. change (frames []) with (@nil Z) in Hin. rewrite app_nil_l in Hin.
    assert (Hc : set_input p c = c) by (rewrite <- Hin; by destruct c).
    destruct fuel as [|fuel]; [lia|]. cbn [Session_recv]. rewrite Hin, Hc. case_decide as Hd; [done|].
    destruct Hp as [Hp|Hp]; [|done]. by rewrite Client_recv_partial, bind_Some_eq by done.
  - apply list.Forall_cons in Hl as [Ha Hl]. rewrite frames_cons, <- app_assoc in Hin.
    pose proof (length_answerFrame a) as Hla. destruct fuel as [|fuel]; [lia|]. cbn [Session_recv]. rewrite Hin.
    rewrite decide_False by (intros He; apply (f_equal length) in He; rewrite length_app, Hla in He; done).
    rewrite Client_recv_frame, bind_Some_eq by done. cbv beta iota. rewrite (proj2 (Z.eqb_neq _ _)) by lia.
    rewrite Nat2Z.id. assert (Hid : input (deliver c a) = input c) by (unfold deliver; by destruct (ctxs c !! a.1)).
    rewrite Hid, Hin, drop_app_length, (IH _ _ Hl Hp).
    + cbn [foldl]. by rewrite foldl_deliver_input.
    + done.
    + cbn [input set_input]. rewrite Hin, length_app, Hla in Hfuel. lia.
Qed.

(** A beginning of a sequence of answers is answers and a beginning of the next. *)
Lemma prefix_frames p l q :
  Forall answer_ok l → partial_frame q ∨ q = [] → p `prefix_of` frames l ++ q →
  ∃ l1 l2 p1, l = l1 ++ l2 ∧ p = frames l1 ++ p1 ∧ (partial_frame p1 ∨ p1 = []).
Proof.
  revert p. induction l as [|a l IH]; intros p Hl Hq [r Hr].
  - exists [], [], p. change (frames [] ++ q) with q in Hr. split_and!; [done|done|]. destruct Hq as [(a & Ha & [q' Hq] & Hlt)| ->].
    + left. exists a. subst q. split_and!; [done| |rewrite length_app in Hlt; lia]. exists (r ++ q'). by rewrite app_assoc.
    + right. symmetry in Hr. by apply app_nil in Hr as [-> _].
  - apply list.Forall_cons in Hl as [Ha Hl]. rewrite frames_cons, <- app_assoc in Hr.
    destruct (decide (length p < length (answerFrame a))%nat) as [Hlt|Hge].
    + exists [], (a :: l), p. split_and!; [done|done|]. left. exists a. split_and!; [done| |done].
      exists (take (length (answerFrame a) - length p) r). apply (f_equal (take (length (answerFrame a)))) in Hr.
      rewrite take_app_length, take_app_ge in Hr by lia. done.
    + assert (Hp : p = answerFrame a ++ drop (length (answerFrame a)) p).
      { rewrite <- (take_drop (length (answerFrame a)) p) at 1. f_equal. apply (f_equal (take (length (answerFrame a)))) in Hr.
        rewrite take_app_length, take_app_le in Hr by lia. done. }
      destruct (IH (drop (length (answerFrame a)) p) Hl Hq) as (l1 & l2 & p1 & -> & Hp1 & Hpart).
      { exists r. rewrite Hp, <- app_assoc in Hr. by apply app_inv_head in Hr. }
      exists (a :: l1), l2, p1. split_and!; [done|by rewrite frames_cons, <- app_assoc, <- Hp1|done].
Qed.

Fixpoint receive_all (ps : list (list Z)) (c : client) : option client :=
  match ps with
  | [] => Some c
  | p :: ps => c ← received p c; receive_all ps c
  end.

Lemma receive_snoc ps p c : receive_all (ps ++ [p]) c = (c ← receive_all ps c; received p c).
Proof.
  revert c. induction ps as [|x ps IH]; intros c; cbn [app receive_all].
  - rewrite bind_Some_eq. by destruct (received p c).
  - destruct (received x c); [cbn; apply IH|done].
Qed.

(** C18: answers arrive in any pieces.  However the bytes of a sequence of answers are cut into
    pieces, receiving the pieces one by one delivers exactly these answers in their order and leaves
    nothing; each goes to the request that is pending under its number, and answers to no
    request are dropped. *)
Theorem answers_reassembled ps l c :
  Forall answer_ok l → mjoin ps = frames l → bev c = true → input c = [] →
  receive_all ps c = Some (foldl deliver c l).
Proof.
  intros Hl Hps Hb Hin.
  enough (Hgen : ∀ ps l q, Forall answer_ok l → partial_frame q ∨ q = [] → mjoin ps = frames l ++ q →
    receive_all ps c = Some (set_input q (foldl deliver c l))).
  { rewrite (Hgen ps l []); [|done|by right|by rewrite app_nil_r]. f_equal. rewrite <- foldl_deliver_input. f_equal.
    destruct c. cbn in Hin. by subst. }
  clear ps l Hl Hps. intros ps. induction ps as [|p ps IH] using rev_ind; intros l q Hl Hq Hps.
  - symmetry in Hps. apply app_nil in Hps as [Hf ->]. cbn [receive_all].
    destruct l as [|a l]; [by rewrite <- Hin; destruct c|]. apply (f_equal length) in Hf. rewrite frames_cons, length_app, length_answerFrame in Hf. done.
  - rewrite join_app in Hps. cbn in Hps. rewrite app_nil_r in Hps.
    destruct (prefix_frames (mjoin ps) l q Hl Hq) as (l1 & l2 & p1 & -> & Hp1 & Hpart); [by exists p|].
    apply Forall_app in Hl as [Hl1 Hl2]. rewrite receive_snoc, (IH l1 p1 Hl1 Hpart Hp1), bind_Some_eq.
    rewrite Hp1, frames_app, <- !app_assoc in Hps. apply app_inv_head in Hps.
    unfold received. cbn [bev set_input]. rewrite foldl_deliver_bev, Hb. cbn [negb input set_input].
    rewrite (Session_recv_frames l2 q) by (done || (cbn; lia)). rewrite foldl_app. f_equal.
    unfold set_input at 1. cbn. rewrite foldl_deliver_input. cbn. rewrite foldl_deliver_input. done.
Qed.

(** ** Ends of requests *)

Abbreviation ends := (gmap Z Z * list outcome)%type.

(** One pending request ends. *)
Inductive ended : ends → ends → Prop :=
| ended_one m f seq id st r : m !! seq = Some id → ended (m, f) (delete seq m, f ++ [(id, st, r)]).

Definition state (c : client) : ends := (ctxs c, finished c).

Lemma erase_ended seq c :
  (∃ id, Client_erase seq c = (Some id, set_ctxs (delete seq (ctxs c)) c) ∧ ctxs c !! seq = Some id) ∨ Client_erase seq c = (None, c).
Proof. unfold Client_erase. destruct (ctxs c !! seq) as [id|]; [left; by exists id|by right]. Qed.

Lemma recv_ended evbuf c n c' : Client_recv evbuf c = Some (n, c') → rtc ended (state c) (state c') ∧ conn c' = conn c ∧ bev c' = bev c.
Proof.
  unfold Client_recv. destruct (_ <? 4); [intros [= <- <-]; done|]. intros Hr. apply bind_Some_inv in Hr as (front & _ & Hr).
  apply bind_Some_inv in Hr as ([size b] & _ & Hr). destruct (_ <? size); [injection Hr as <- <-; done|].
  apply bind_Some_inv in Hr as (frame & _ & Hr). apply bind_Some_inv in Hr as ([seq b2] & _ & Hr).
  destruct (erase_ended seq c) as [(id & He & Hid)|He]; rewrite He in Hr.
  - apply bind_Some_inv in Hr as (rsp & _ & Hr). injection Hr as <- <-. split; [|done]. apply rtc_once. by constructor.
  - injection Hr as <- <-. done.
Qed.

Lemma session_ended fuel c c' : Session_recv fuel c = Some c' → rtc ended (state c) (state c') ∧ conn c' = conn c ∧ bev c' = bev c.
Proof.
  revert c. induction fuel as [|fuel IH]; intros c; [done|]. cbn [Session_recv]. case_decide; [by intros [= <-]|].
  intros Hr. apply bind_Some_inv in Hr as ([n c1] & H1 & Hr). apply recv_ended in H1 as (H1 & Hc1 & Hb1).
  destruct (n =? 0); [by injection Hr as <-|]. apply IH in Hr as (H2 & Hc2 & Hb2). split; [by etrans|]. split; [by rewrite Hc2|by rewrite Hb2].
Qed.

Lemma close_ended m f : rtc ended (m, f) (∅, f ++ ((λ p : Z * Z, (p.2, Closed, None)) <$> map_to_list m)).
Proof.
  enough (Hg : ∀ l m f, NoDup l.*1 → list_to_map l = m → rtc ended (m, f) (∅, f ++ ((λ p : Z * Z, (p.2, Closed, None)) <$> l))).
  { apply Hg; [apply NoDup_fst_map_to_list|apply list_to_map_to_list]. }
  clear. induction l as [|[seq id] l IH]; intros m f Hnd Hm.
  - cbn. rewrite app_nil_r. cbn in Hm. by subst.
  - cbn in Hnd. apply list.NoDup_cons in Hnd as [Hni Hnd]. cbn in Hm. eapply rtc_l.
    + apply (ended_one m f seq id Closed None). rewrite <- Hm. apply lookup_insert_eq.
    + replace (f ++ ((λ p : Z * Z, (p.2, Closed, None)) <$> (seq, id) :: l))
        with ((f ++ [(id, Closed, None)]) ++ ((λ p : Z * Z, (p.2, Closed, None)) <$> l)) by (by rewrite <- app_assoc).
      apply IH; [done|]. rewrite <- Hm, delete_insert_eq, delete_id; [done|].
      by apply not_elem_of_list_to_map_1.
Qed.

(** A step is a new request, or ends pending ones. *)
Lemma step_ended c e c' :
  rpc_step c e c' → (∀ seq id, e ≠ RRequest seq id) → bev c = bool_decide (conn c ≠ CLOSED) →
  rtc ended (state c) (state c') ∧ bev c' = bool_decide (conn c' ≠ CLOSED) ∧ (conn c' = CLOSED → conn c = CLOSED ∨ ctxs c' = ∅).
Proof.
  intros Hs He Hb. destruct Hs as [c seq id|c l c' Hr|c seq id Hid|c Hc|c].
  - by destruct (He seq id).
  - unfold received in Hr. destruct (bev c) eqn:Eb; cbn [negb] in Hr; [|injection Hr as <-; split; [done|]; split; [congruence|auto]].
    apply session_ended in Hr as (H1 & H2 & H3). split; [done|]. cbn in H2, H3. rewrite H2, H3. split; [congruence|auto].
  - unfold Async_timeout, Client_erase. cbn [ctxs]. rewrite Hid. cbn. split; [apply rtc_once; by constructor|auto].
  - split; [done|]. cbn. split; [|done]. rewrite Hb, Hc. done.
  - unfold Client_close. destruct (decide (conn c = CLOSED)) as [Hc|Hc]; [split; [done|]; split; [exact Hb|by left]|]. split; [apply close_ended|]. split; [done|by right].
Qed.

Definition ids (f : list outcome) : list Z := f.*1.*1.

(** The numbers and requests of a run. *)
Definition issued (l : list rpc_event) : list (Z * Z) :=
  omap (λ e, match e with RRequest seq id => Some (seq, id) | _ => None end) l.

Record once (req : list (Z * Z)) (s : ends) : Prop := {
  on_pending : ∀ seq id, s.1 !! seq = Some id → (seq, id) ∈ req ∧ id ∉ ids s.2;
  on_ended : ∀ id, id ∈ ids s.2 → id ∈ req.*2;
  on_nodup : NoDup (ids s.2);
  on_all : ∀ seq id, (seq, id) ∈ req → s.1 !! seq = Some id ∨ id ∈ ids s.2 }.

Lemma ids_snoc f id st r : ids (f ++ [(id, st, r)]) = ids f ++ [id].
Proof. unfold ids. by rewrite !fmap_app. Qed.

Lemma once_ended req s s' : NoDup req.*2 → once req s → ended s s' → once req s'.
Proof.
  intros Hnd [H1 H2 H3 H4] Hs. destruct Hs as [m f seq id st r Hid]. cbn [fst snd] in *. destruct (H1 seq id Hid) as [Hreq Hnew].
  split; cbn [fst snd]; try setoid_rewrite ids_snoc.
  - intros s' id' [Hne Hm]%lookup_delete_Some. destruct (H1 s' id' Hm) as [Hr Hn]. split; [done|].
    intros [?| ->]%elem_of_snoc; [done|]. apply Hne.
    apply list_elem_of_lookup in Hr as [i Hi], Hreq as [j Hj].
    assert (i = j) as ->; [|congruence]. eapply (list.NoDup_lookup _ _ _ id Hnd); rewrite list_lookup_fmap; [by rewrite Hi|by rewrite Hj].
  - intros id' [?| ->]%elem_of_snoc; [by apply H2|]. apply list_elem_of_fmap. by exists (seq, id).
  - apply list.NoDup_app. split_and!; [done| |apply list.NoDup_singleton]. intros x Hx ->%list_elem_of_singleton. done.
  - intros s' id' Hr. destruct (decide (s' = seq)) as [->|Hne].
    + destruct (H4 seq id' Hr) as [He|He]; [|right; apply elem_of_snoc; by left]. right. apply elem_of_snoc. right. congruence.
    + rewrite lookup_delete_ne by done. destruct (H4 s' id' Hr); [by left|right; apply elem_of_snoc; by left].
Qed.

Lemma once_rtc req s s' : NoDup req.*2 → once req s → rtc ended s s' → once req s'.
Proof. intros Hnd Ho Hs. induction Hs as [|s s1 s2 H1 _ IH]; [done|]. apply IH. by eapply once_ended. Qed.

Lemma request_state seq id c :
  bev c = bool_decide (conn c ≠ CLOSED) →
  state (Client_request seq id c) = (match ctxs c !! seq with Some _ => ctxs c | None => <[seq := id]> (ctxs c) end, finished c) ∧
  bev (Client_request seq id c) = true ∧ conn (Client_request seq id c) ≠ CLOSED.
Proof.
  intros Hb. unfold Client_request, Client_connect.
  set (c1 := match ctxs c !! seq with Some _ => c | None => set_ctxs (<[seq := id]> (ctxs c)) c end).
  assert (H1 : conn c1 = conn c ∧ bev c1 = bev c ∧ finished c1 = finished c ∧
    ctxs c1 = match ctxs c !! seq with Some _ => ctxs c | None => <[seq := id]> (ctxs c) end).
  { unfold c1. by destruct (ctxs c !! seq). }
  destruct H1 as (H1 & H2 & H3 & H4). destruct (decide (conn c1 = CLOSED)) as [Hc|Hc]; cbn.
  - unfold state. cbn. by rewrite H3, H4.
  - assert (Hbt : bev c1 = true) by (rewrite H2, Hb; apply bool_decide_true; congruence).
    rewrite Hbt. unfold state. cbn. by rewrite H3, H4.
Qed.

(** What holds of a connection after the requests [req]. *)
Definition rpc_inv (req : list (Z * Z)) (c : client) : Prop :=
  once req (state c) ∧ bev c = bool_decide (conn c ≠ CLOSED) ∧ (conn c = CLOSED → ctxs c = ∅).

Lemma once_new req s seq id :
  once req s → seq ∉ req.*1 → id ∉ req.*2 → once (req ++ [(seq, id)]) (<[seq := id]> s.1, s.2).
Proof.
  intros [H1 H2 H3 H4] Hs Hi. split; cbn [fst snd].
  - intros s' id' [(<- & <-)|(Hne & Hm)]%lookup_insert_Some.
    + split; [apply elem_of_snoc; by right|]. intros Hin. by apply H2 in Hin.
    + destruct (H1 s' id' Hm). split; [apply elem_of_snoc; by left|done].
  - intros id' Hin. rewrite fmap_app. apply elem_of_app. left. by apply H2.
  - done.
  - intros s' id' [Hr|[= -> ->]]%elem_of_snoc; [|left; apply lookup_insert_eq].
    destruct (H4 s' id' Hr) as [Hm|Hm]; [left|by right]. rewrite lookup_insert_ne; [done|]. intros <-. apply Hs.
    apply list_elem_of_fmap. by exists (seq, id').
Qed.

Lemma runs_once c l c' req :
  rpc_runs c l c' → NoDup (req ++ issued l).*1 → NoDup (req ++ issued l).*2 → rpc_inv req c → rpc_inv (req ++ issued l) c'.
Proof.
  intros Hr. revert req. induction Hr as [c|c e c1 l c2 Hs _ IH]; intros req Hn1 Hn2 Hinv; [by rewrite app_nil_r|].
  assert (Hcase : (∃ seq id, e = RRequest seq id) ∨ (∀ seq id, e ≠ RRequest seq id)) by (destruct e; eauto).
  destruct Hcase as [(seq & id & ->)|He].
  - change (issued (RRequest seq id :: l)) with ((seq, id) :: issued l) in *. rewrite (cons_middle (seq, id)), app_assoc in *.
    apply IH; [done|done|]. inversion Hs; subst. destruct Hinv as (Ho & Hb & Hcl).
    assert (Hnew : (seq ∉ req.*1) ∧ (id ∉ req.*2)).
    { rewrite !fmap_app, <- !app_assoc in *. apply list.NoDup_app in Hn1 as (_ & Hd1 & _). apply list.NoDup_app in Hn2 as (_ & Hd2 & _).
      split; intros Hin; [apply (Hd1 seq Hin)|apply (Hd2 id Hin)]; apply elem_of_app; left; cbn; by left. }
    destruct (request_state seq id c Hb) as (Hst & Hbe & Hcn). split; [|split; [|done]].
    + rewrite Hst. assert (Hnone : ctxs c !! seq = None).
      { destruct (ctxs c !! seq) as [id'|] eqn:E; [|done]. destruct (on_pending _ _ Ho seq id' E) as [Hin _]. destruct Hnew as [[] _].
        apply list_elem_of_fmap. by exists (seq, id'). }
      rewrite Hnone. apply (once_new req (state c)); [done|apply Hnew|apply Hnew].
    + by rewrite Hbe, bool_decide_true.
  - assert (Hi : issued (e :: l) = issued l) by (destruct e; try done; by destruct (He seq id)). rewrite Hi in *.
    apply IH; [done|done|]. destruct Hinv as (Ho & Hb & Hcl). destruct (step_ended c e c1 Hs He Hb) as (Hst & Hb1 & Hc1).
    split; [|split; [done|]].
    + eapply once_rtc; [|exact Ho|exact Hst]. rewrite fmap_app in Hn2. by apply list.NoDup_app in Hn2 as [? _].
    + intros Hc. destruct (Hc1 Hc) as [Hold|]; [|done]. specialize (Hcl Hold). clear -Hst Hcl.
      remember (state c) as s. remember (state c1) as s1. assert (H : s.1 = ∅) by by subst.
      enough (s1.1 = ∅) by by subst. clear -Hst H. induction Hst as [|x y z Hxy _ IH]; [done|]. apply IH.
      destruct Hxy as [m f seq id st r Hm]. cbn in H. subst. by rewrite lookup_empty in Hm.
Qed.

(** C14: every request ends once.  On a connection on which no number is used twice, whatever
    arrives, times out, or closes: no callback runs twice, only those of requests that were made; a
    request is pending or has ended, never both and never neither; and when the connection is
    closed all have ended. *)
Theorem request_ends_once l c :
  rpc_runs Client_new l c → NoDup (issued l).*1 → NoDup (issued l).*2 →
  NoDup (ids (finished c)) ∧ (∀ id, id ∈ ids (finished c) → id ∈ (issued l).*2) ∧
  (∀ seq id, (seq, id) ∈ issued l →
     (ctxs c !! seq = Some id ∧ id ∉ ids (finished c)) ∨ (ctxs c !! seq ≠ Some id ∧ id ∈ ids (finished c))) ∧
  (conn c = CLOSED → ∀ seq id, (seq, id) ∈ issued l → id ∈ ids (finished c)).
Proof.
  intros Hr Hn1 Hn2. destruct (runs_once _ _ _ [] Hr Hn1 Hn2) as ([H1 H2 H3 H4] & _ & Hcl).
  { split; [|done]. split.
    - intros seq id Hp. cbn in Hp. by rewrite lookup_empty in Hp.
    - by intros id Hin%elem_of_nil.
    - constructor.
    - by intros seq id Hin%elem_of_nil. }
  cbn [app state fst snd] in *. split; [done|]. split; [done|]. split.
  - intros seq id Hin. destruct (H4 seq id Hin) as [Hp|He]; [left; split; [done|by apply (H1 seq)]|right]. split; [|done].
    intros Hp. by apply H1 in Hp as [_ []].
  - intros Hc seq id Hin. destruct (H4 seq id Hin) as [Hp|He]; [|done]. rewrite (Hcl Hc), lookup_empty in Hp. done.
Qed.

(** A request that is neither pending nor ended stays so. *)
Definition unknown (id : Z) (s : ends) : Prop := (∀ seq, s.1 !! seq ≠ Some id) ∧ id ∉ ids s.2.

Lemma unknown_rtc id s s' : unknown id s → rtc ended s s' → unknown id s'.
Proof.
  intros Hu Hs. induction Hs as [|s s1 s2 Hs _ IH]; [done|]. apply IH. destruct Hs as [m f seq id' st r Hm], Hu as [Hp Hf].
  cbn [fst snd] in *. split; cbn [fst snd].
  - intros s' [_ Hl]%lookup_delete_Some. by apply (Hp s').
  - rewrite ids_snoc. intros [?| ->]%elem_of_snoc; [done|]. by apply (Hp seq).
Qed.

Lemma unknown_runs id c l c' :
  rpc_runs c l c' → id ∉ (issued l).*2 → bev c = bool_decide (conn c ≠ CLOSED) → unknown id (state c) → unknown id (state c').
Proof.
  induction 1 as [c|c e c1 l c2 Hs _ IH]; intros Hni Hb Hu; [done|].
  assert (Hcase : (∃ seq id, e = RRequest seq id) ∨ (∀ seq id, e ≠ RRequest seq id)) by (destruct e; eauto).
  destruct Hcase as [(seq & id' & ->)|He].
  - inversion Hs; subst. destruct (request_state seq id' c Hb) as (Hst & Hbe & Hcn).
    change (issued (RRequest seq id' :: l)) with ((seq, id') :: issued l) in Hni. rewrite fmap_cons in Hni.
    apply not_elem_of_cons in Hni as [Hne Hni]. apply IH; [done|by rewrite Hbe, bool_decide_true|]. rewrite Hst.
    destruct Hu as [Hp Hf]. split; [|exact Hf]. cbn [fst snd]. intros s. destruct (ctxs c !! seq); [apply Hp|].
    intros [(_ & ->)|(_ & Hm)]%lookup_insert_Some; [done|by apply (Hp s)].
  - destruct (step_ended c e c1 Hs He Hb) as (Hst & Hb1 & _). apply IH; [|done|by eapply unknown_rtc].
    by destruct e; try done; destruct (He seq id0).
Qed.

(** A number that is in use loses the request.  A request made under the number of a pending
    one is sent, but no callback of it ever runs, whatever happens later, not even a timeout; the
    answer to either goes to the first one. *)
Lemma reused_number_lost seq id0 id c l c' rsp :
  bev c = bool_decide (conn c ≠ CLOSED) → ctxs c !! seq = Some id0 →
  (∀ s, ctxs c !! s ≠ Some id) → id ∉ ids (finished c) → id ∉ (issued l).*2 →
  rpc_runs (Client_request seq id c) l c' →
  (id ∉ ids (finished c')) ∧
  finished (deliver (Client_request seq id c) (seq, rsp)) = finished c ++ [(id0, Ok, Some rsp)].
Proof.
  intros Hb H0 Hnp Hnf Hni Hr. destruct (request_state seq id c Hb) as (Hst & Hbe & Hcn). rewrite H0 in Hst. split.
  - apply (unknown_runs id _ _ _ Hr Hni); [by rewrite Hbe, bool_decide_true|]. by rewrite Hst.
  - injection Hst as Hc1 Hf1. unfold deliver. cbn [fst snd]. by rewrite Hc1, H0, <- Hf1.
Qed.

(** ** A connection with two callers *)

(** Two requests with number 0, such as two buckets make of one server, and an answer that
    arrives in two pieces. *)
Definition demo_run : list rpc_event := [RRequest 0 1; RConnected; RRequest 5 2; RReceived (take 3 (answerFrame (5, [9])))].
Definition demo_c1 : client := Client_request 5 2 (Client_event_connected (Client_request 0 1 Client_new)).
Definition demo_c2 : client := set_input (take 3 (answerFrame (5, [9]))) demo_c1.

Lemma demo_runs_rpc : rpc_runs Client_new demo_run demo_c2.
Proof.
  eapply rpc_more; [apply rpc_request|]. eapply rpc_more; [apply rpc_connected; vm_compute; reflexivity|].
  eapply rpc_more; [apply rpc_request|]. eapply rpc_more; [apply rpc_received; vm_compute; reflexivity|]. constructor.
Qed.

Lemma request_ends_once_witness :
  NoDup (ids (finished demo_c2)) ∧ (ctxs demo_c2 !! 0 = Some 1 ∧ 1 ∉ ids (finished demo_c2) ∨ ctxs demo_c2 !! 0 ≠ Some 1 ∧ 1 ∈ ids (finished demo_c2)).
Proof.
  destruct (request_ends_once demo_run demo_c2) as (H1 & _ & H3 & _).
  - exact demo_runs_rpc.
  - apply (bool_decide_unpack _). vm_compute. exact Logic.I.
  - apply (bool_decide_unpack _). vm_compute. exact Logic.I.
  - split; [exact H1|]. apply H3. vm_compute. left.
Defined.

Lemma answers_reassembled_witness :
  receive_all [take 3 (answerFrame (5, [9])); drop 3 (answerFrame (5, [9])) ++ answerFrame (0, [8; 7])] demo_c1 =
    Some (foldl deliver demo_c1 [(5, [9]); (0, [8; 7])]).
Proof.
  apply (answers_reassembled _ [(5, [9]); (0, [8; 7])] demo_c1).
  - repeat constructor; vm_compute; congruence.
  - vm_compute. reflexivity.
  - reflexivity.
  - reflexivity.
Defined.

Lemma reused_number_lost_witness :
  (3 ∉ ids (finished (Client_close (Client_request 0 3 demo_c1)))) ∧
  finished (deliver (Client_request 0 3 demo_c1) (0, [6])) = [(1, Ok, Some [6])].
Proof.
  apply (reused_number_lost 0 1 3 demo_c1 [RClose]).
  - vm_compute. reflexivity.
  - vm_compute. reflexivity.
  - change (∀ s, (<[5 := 2]> (<[0 := 1]> (∅ : gmap Z Z))) !! s ≠ Some 3). intros s Hs.
    apply lookup_insert_Some in Hs as [[_ [=]]|[_ Hs]]. apply lookup_insert_Some in Hs as [[_ [=]]|[_ Hs]]. by rewrite lookup_empty in Hs.
  - apply (bool_decide_unpack _). vm_compute. exact Logic.I.
  - apply (bool_decide_unpack _). vm_compute. exact Logic.I.
  - eapply rpc_more; [apply rpc_close|]. constructor.
Defined.
