(* ===== verification/Client.v ===== *)
(** * The client library (src/src/client/kv_client_api.{h,cc})

    [KvClientApi] fetches the table from a meta server, sends a request for a key to the
    first server of the key's bucket and gives its code back.

    The network is a parameter [rpc]: for a server and a frame the status of the call and, when there was an
    answer, the bytes behind its number, as [rpc::Client] hands them over (0 is [OK]).  The parsers of the generated code
    are the class [ClientCodec], with what they do on the messages of the servers.  [None] is an
    execution without meaning, such as a division by 0 or an index outside of the table. *)
From S2P Require Import Prelude Buffers BufferSpec Frame Hash Engine TableBuilder MetaTable SysMgr MetaServer Replication Requests.

Definition sMaxKeySize : Z := 1024.
Definition sMaxDataSize : Z := 1000000.
Definition KV_RETURN_ITEMSIZE_ERROR : Z := -3991.
Definition KV_RETURN_INVALID_ARGUMENT : Z := -3982.

(** [KvResponseGetMeta]. *)
Record meta_reply := { mr_version : Z; mr_bucketcount : Z; mr_copycount : Z; mr_table : list Z }.

Class ClientCodec `{MetaCodec} `{StorageCodec} := {
  parseReturn : list Z → option Z;
  parseGetReply : list Z → option (Z * list Z * Z * Z);
  parseMetaReply : list Z → option meta_reply;
  parse_return code v : - 2 ^ 31 <= code < 2 ^ 31 → parseReturn (serializeReply (ReplyReturn code v)) = Some code;
  parse_getreply code v e : - 2 ^ 31 <= code < 2 ^ 31 → Forall is_u8 (e_val e) → is_u32 (e_mtime e) → is_u32 (e_etime e) →
    parseGetReply (serializeReply (ReplyGet code v (Some e))) = Some (code, e_val e, e_mtime e, e_etime e);
  parse_metareply t v b c : is_u32 v → is_u32 b → is_u32 c → Forall is_u64 t →
    parseMetaReply (serializeResponse (RespGetMeta t v b c)) =
      Some {| mr_version := v; mr_bucketcount := b; mr_copycount := c; mr_table := t |} }.

(** [KvClientApi]: what the calls read and write. *)
Record api := {
  metaServerList : list Z;
  direct : bool;
  myServerList : list Z;
  c_bucketCount : Z;
  c_copyCount : Z;
  c_metaVersion : Z;
  newMetaVersion : Z;
  nextSeq : Z }.

Definition next_seq (c : api) : api :=
  Build_api (metaServerList c) (direct c) (myServerList c) (c_bucketCount c) (c_copyCount c) (c_metaVersion c) (newMetaVersion c)
    (u32 (nextSeq c + 1)).

Definition checkKey (key : list Z) : bool :=
  if decide (key = []) then false
  else if decide (key = [0]) then false
  else negb (sMaxKeySize <=? Z.of_nat (length key)).

Definition checkData (data : list Z) : bool :=
  if decide (data = []) then false else negb (sMaxDataSize <=? Z.of_nat (length data)).

(** The loop of [getServerId]; [hash] is the bucket. *)
Fixpoint collect (c : api) (hash : Z) (idxs : list Z) : option (list Z) :=
  match idxs with
  | [] => Some []
  | i :: idxs =>
      if negb (i <? Z.of_nat (length (myServerList c))) then Some [] else
      server_id ← myServerList c !! Z.to_nat (u32 (hash + i * c_bucketCount c));
      r ← collect c hash idxs;
      Some (if negb (server_id =? 0) then server_id :: r else r)
  end.

Definition getServerId (key : list Z) (c : api) : option (bool * list Z) :=
  if direct c then Some (true, []) else
  if decide (myServerList c = []) then Some (false, []) else
  if c_bucketCount c =? 0 then None else
  servers ← collect c (murMurHash key mod c_bucketCount c) (seqZ 0 (c_copyCount c));
  Some (negb (bool_decide (servers = [])), servers).

Section Calls.
Context `{ClientCodec} (junk : nat → Z) (rpc : Z → list Z → Z * option (list Z)).

(** An answer: its type and the bytes of the message. *)
Definition openAnswer (rsp : list Z) : option (Z * list Z) :=
  '(mtype, b) ← Buffer_readInt32 (Buffer_wrap rsp);
  value ← peek (bytes b) (pdata b) (curDataLen b);
  Some (mtype, value).

(** The call in the middle of [put] and [get]: inside, a code to return at once, or the
    bytes of a message of the expected type. *)
Definition call (server mtype rtype : Z) (value : list Z) (c : api) : option ((Z + list Z) * api) :=
  let seq := nextSeq c in
  let c := next_seq c in
  req ← makeFrame junk seq mtype value;
  let '(status, rsp) := rpc server req in
  if negb (status =? 0) then Some (inl status, c) else
  match rsp with
  | None => Some (inl OP_RETURN_FAILED, c)
  | Some rsp =>
      '(t, value) ← openAnswer rsp;
      Some (if negb (t =? rtype) then inl OP_RETURN_FAILED else inr value, c)
  end.

Definition KvClientApi_put (ns : Z) (key data : list Z) (expire_sec : Z) (c : api) : option (Z * api) :=
  if negb (checkKey key) || negb (checkData data) then Some (KV_RETURN_ITEMSIZE_ERROR, c) else
  if sMaxKeySize + sMaxDataSize <? Z.of_nat (length key) + Z.of_nat (length data) then Some (KV_RETURN_ITEMSIZE_ERROR, c) else
  if (ns <? 0) || (sMaxNamespaceCount <=? ns) then Some (KV_RETURN_INVALID_ARGUMENT, c) else
  '(found, server_list) ← getServerId key c;
  if negb found then Some (-1, c) else
  server ← head server_list;
  '(r, c) ← call server KV_REQ_MESSAGE_PUT KV_RES_MESSAGE_RETURN
      (serializePut {| p_ns := ns; p_version := 0; p_expired := expire_sec; p_key := key; p_val := data |}) c;
  match r with
  | inl code => Some (code, c)
  | inr value => match parseReturn value with None => Some (OP_RETURN_FAILED, c) | Some code => Some (code, c) end
  end.

(** The code, and the value with its dates when an answer was parsed. *)
Definition KvClientApi_get (ns : Z) (key : list Z) (c : api) : option (Z * option (list Z * Z * Z) * api) :=
  if negb (checkKey key) then Some (KV_RETURN_ITEMSIZE_ERROR, None, c) else
  if (ns <? 0) || (sMaxNamespaceCount <=? ns) then Some (KV_RETURN_INVALID_ARGUMENT, None, c) else
  '(found, server_list) ← getServerId key c;
  if negb found then Some (OP_RETURN_FAILED, None, c) else
  server ← head server_list;
  '(r, c) ← call server KV_REQ_MESSAGE_GET KV_RES_MESSAGE_GET (serializeGet {| g_ns := ns; g_key := key |}) c;
  match r with
  | inl code => Some (code, None, c)
  | inr value =>
      match parseGetReply value with
      | None => Some (OP_RETURN_FAILED, None, c)
      | Some (code, val, mtime, etime) => Some (code, Some (val, mtime, etime), c)
      end
  end.

(** [remove], [asyncPut], [asyncGet], [asyncRemove]: the checks, and no request. *)
Definition KvClientApi_remove (area : Z) (key : list Z) (c : api) : option Z :=
  if negb (checkKey key) then Some KV_RETURN_ITEMSIZE_ERROR else
  if (area <? 0) || (sMaxNamespaceCount <=? area) then Some KV_RETURN_INVALID_ARGUMENT else
  '(found, _) ← getServerId key c;
  Some (if negb found then OP_RETURN_FAILED else OP_RETURN_SUCCESS).
Definition asyncGet := KvClientApi_remove.
Definition asyncRemove := KvClientApi_remove.
Definition asyncPut (area : Z) (key data : list Z) (c : api) : option Z :=
  if negb (checkKey key) || negb (checkData data) then Some KV_RETURN_ITEMSIZE_ERROR else
  if sMaxKeySize + sMaxDataSize <? Z.of_nat (length key) + Z.of_nat (length data) then Some KV_RETURN_ITEMSIZE_ERROR else
  if (area <? 0) || (sMaxNamespaceCount <=? area) then Some KV_RETURN_INVALID_ARGUMENT else
  '(found, server_list) ← getServerId key c;
  if negb found then Some (-1) else _ ← head server_list; Some OP_RETURN_SUCCESS.

(** ** The table *)

(** The first meta server that answers. *)
Fixpoint askMeta (servers : list Z) (c : api) : option (option (list Z) * api) :=
  match servers with
  | [] => Some (None, c)
  | srv_id :: servers =>
      let seq := nextSeq c in
      let c := next_seq c in
      req ← makeFrame junk seq KV_REQ_MESSAGE_GET_META (serializeRequest ReqGetMeta);
      let '(status, rsp) := rpc srv_id req in
      if status =? 0 then Some (rsp, c) else askMeta servers c
  end.

(** The loop over the table: append, or write over. *)
Fixpoint takeTable (is_update : bool) (tables : list Z) (idxs : list Z) (l : list Z) : option (list Z) :=
  match idxs with
  | [] => Some l
  | i :: idxs =>
      x ← tables !! Z.to_nat i;
      if negb is_update then takeTable is_update tables idxs (l ++ [x])
      else if i <? Z.of_nat (length l) then takeTable is_update tables idxs (<[Z.to_nat i := x]> l) else None
  end.

Definition set_counts (b n : Z) (c : api) : api :=
  Build_api (metaServerList c) (direct c) (myServerList c) b n (c_metaVersion c) (newMetaVersion c) (nextSeq c).

Definition retrieveServerAddr (is_update : bool) (c : api) : option (bool * api) :=
  if decide (metaServerList c = []) then Some (false, c) else
  '(res, c) ← askMeta (metaServerList c) c;
  match res with
  | None => Some (false, c)
  | Some res =>
      '(mtype, value) ← openAnswer res;
      if negb (mtype =? KV_RES_MESSAGE_GET_META) then Some (false, c) else
      match parseMetaReply value with
      | None => Some (false, c)
      | Some msg =>
          if mr_version msg =? 0 then Some (false, c) else
          let c := set_counts (mr_bucketcount msg) (mr_copycount msg) c in
          if (c_bucketCount c =? 0) || (c_copyCount c =? 0) then Some (false, c) else
          l ← takeTable is_update (mr_table msg) (seqZ 0 (u32 (c_bucketCount c * c_copyCount c))) (myServerList c);
          Some (true, Build_api (metaServerList c) (direct c) l (c_bucketCount c) (c_copyCount c) (c_metaVersion c) (mr_version msg) (nextSeq c))
      end
  end.

(** [startup] on a client that is new, with the addresses of the meta servers. *)
Definition KvClientApi_startup (initialized : bool) (metas : list Z) (c : api) : option (bool * api) :=
  if decide (metas = []) then Some (false, c) else
  if initialized then Some (false, c) else
  let c := Build_api (metaServerList c ++ metas) (direct c) (myServerList c) (c_bucketCount c) (c_copyCount c) (c_metaVersion c) (newMetaVersion c) (nextSeq c) in
  '(ok, c) ← retrieveServerAddr false c;
  if negb ok then Some (false, c) else
  Some (true, Build_api (metaServerList c) (direct c) (myServerList c) (c_bucketCount c) (c_copyCount c) (newMetaVersion c) (newMetaVersion c) (nextSeq c)).
End Calls.
