(* ===== verification/ClientSpec.v ===== *)
(** * The client finds the table and the right server

    [startup_learns_table]: a client that starts gets the table of the meta server.
    [client_put_answered], [client_get_answered]: its requests go to the server the table names for the bucket that the
    storage server computes for the key, and the answer of the server is what the caller gets. *)
From S2P Require Import Prelude Buffers BufferSpec Frame Hash Bitmap RdbDefine Engine TableBuilder.
From S2P Require Import MetaTable SysMgr MetaServer Wal Replication EngineSpec Requests RequestsSpec RpcSpec Client.

(** ** The column of a key in the table *)

(** The servers of bucket [h], master first. *)
Definition column (c : api) (h : Z) : list Z :=
  (λ i, default 0 (myServerList c !! Z.to_nat (h + i * c_bucketCount c))) <$> seqZ 0 (c_copyCount c).

Record table_ok (c : api) : Prop := {
  to_direct : direct c = false;
  to_counts : 0 < c_bucketCount c ∧ 0 < c_copyCount c;
  to_size : Z.of_nat (length (myServerList c)) = c_bucketCount c * c_copyCount c;
  to_width : c_bucketCount c * c_copyCount c < 2 ^ 32 }.

Lemma collect_ok c h a n :
  table_ok c → 0 <= h < c_bucketCount c → 0 <= a → a + Z.of_nat n <= c_copyCount c →
  collect c h (seqZ a (Z.of_nat n)) =
    Some (filter (λ x, x ≠ 0) ((λ i, default 0 (myServerList c !! Z.to_nat (h + i * c_bucketCount c))) <$> seqZ a (Z.of_nat n))).
Proof.
  intros Hc Hh. revert a. induction n as [|n IH]; intros a Ha Hn; [done|]. destruct Hc as [_ [Hb Hcp] Hs Hw].
  replace (Z.of_nat (S n)) with (Z.succ (Z.of_nat n)) by lia. rewrite seqZ_cons by lia. rewrite Z.pred_succ.
  cbn [collect]. assert (Hlt : h + a * c_bucketCount c < c_bucketCount c * c_copyCount c) by nia.
  rewrite (proj2 (Z.ltb_lt _ _)) by nia. cbn [negb]. rewrite u32_id by (unfold is_u32; nia).
  destruct (lookup_lt_is_Some_2 (myServerList c) (Z.to_nat (h + a * c_bucketCount c))) as [x Hx]; [nia|].
  rewrite Hx, bind_Some_eq. unfold Z.succ. rewrite IH, bind_Some_eq by lia. rewrite fmap_cons, filter_cons, Hx. cbn [default].
  destruct (Z.eqb_spec x 0) as [->|Hne]; cbn [negb]; [by rewrite decide_False by tauto|by rewrite decide_True].
Qed.

Lemma getServerId_column key c :
  table_ok c → let l := filter (λ x, x ≠ 0) (column c (murMurHash key mod c_bucketCount c)) in
  getServerId key c = Some (negb (bool_decide (l = [])), l).
Proof.
  intros Hc l. unfold getServerId. pose proof Hc as [Hd [Hb Hcp] Hs Hw]. rewrite Hd.
  rewrite decide_False by (intros He; rewrite He in Hs; cbn in Hs; nia). rewrite (proj2 (Z.eqb_neq _ _)) by lia.
  pose proof (collect_ok c (murMurHash key mod c_bucketCount c) 0 (Z.to_nat (c_copyCount c)) Hc) as Hcol.
  rewrite Z2Nat.id in Hcol by lia. rewrite Hcol; [done|apply Z.mod_pos_bound; lia|lia|lia].
Qed.

(** A master that is not 0 is the first server. *)
Lemma column_master c h x :
  table_ok c → 0 <= h < c_bucketCount c → myServerList c !! Z.to_nat h = Some x → x ≠ 0 →
  head (filter (λ x, x ≠ 0) (column c h)) = Some x.
Proof.
  intros [_ [_ Hcp] _ _] Hh Hx Hne. unfold column. rewrite seqZ_cons by lia. rewrite fmap_cons, filter_cons.
  replace (h + 0 * c_bucketCount c) with h by lia. rewrite Hx. cbn [default]. by rewrite decide_True.
Qed.

(** The bucket of the client is the bucket of the storage server. *)
Lemma same_bucket {L D} key (c : api) (s : server L D) :
  table_ok c → Requests.bucketCount s = c_bucketCount c → StorageServer_getBucketNumber key s = murMurHash key mod c_bucketCount c.
Proof. intros [_ [Hb _] _ _] He. unfold StorageServer_getBucketNumber. by rewrite He, (proj2 (Z.eqb_neq _ _)) by lia. Qed.

Section Calls.
Context `{HC : ClientCodec} (junk : nat → Z) (Hjunk : ∀ i, is_u8 (junk i)) (rpc : Z → list Z → Z * option (list Z)).

(** An answer frame without its length and number. *)
Lemma openAnswer_frame ch ty v :
  is_u32 ty → 12 + Z.of_nat (length v) <= size_limit → openAnswer (drop 8 (frameBytes ch ty v)) = Some (ty, v).
Proof using.
  intros Hty Hsz. unfold size_limit in Hsz. unfold frameBytes. rewrite app_assoc, drop_app_length' by (rewrite length_app, !length_be_bytes; done).
  unfold openAnswer. rewrite front_read, bind_Some_eq by done. cbv beta iota. unfold curDataLen.
  change (pfree (set_pdata 4 (Buffer_wrap ?l))) with (Z.of_nat (length l)). change (pdata (set_pdata 4 ?b)) with 4.
  change (bytes (set_pdata 4 (Buffer_wrap ?l))) with l. rewrite length_app, length_be_bytes, i32_id by lia.
  rewrite peek_Some by (rewrite ?length_app, ?length_be_bytes; lia). rewrite bind_Some_eq.
  rewrite drop_app_length', take_ge by (rewrite ?length_be_bytes; lia). done.
Qed.

Lemma call_answered server mtype rtype value c v :
  Forall is_u8 value → 12 + Z.of_nat (length value) <= size_limit → 12 + Z.of_nat (length v) <= size_limit → is_u32 rtype →
  rpc server (frameBytes (nextSeq c) mtype value) = (0, Some (drop 8 (frameBytes (nextSeq c) rtype v))) →
  call junk rpc server mtype rtype value c = Some (inr v, next_seq c).
Proof using Hjunk.
  intros Hv Hsz Hs2 Hr Hrpc. unfold call. cbv zeta. rewrite makeFrame_bytes, bind_Some_eq, Hrpc by done.
  change (negb (0 =? 0)) with false. cbv iota. rewrite openAnswer_frame, bind_Some_eq by done. cbv beta iota. by rewrite Z.eqb_refl.
Qed.

(** Arguments the client accepts. *)
Definition args_ok (ns : Z) (key data : list Z) : Prop :=
  0 <= ns < sMaxNamespaceCount ∧ checkKey key = true ∧ checkData data = true.

Lemma args_size key data :
  checkKey key = true → checkData data = true → Z.of_nat (length key) + Z.of_nat (length data) <= sMaxKeySize + sMaxDataSize.
Proof using.
  unfold checkKey, checkData. repeat case_decide; try done. intros Hk Hd. bool_cases. lia.
Qed.

(** C15: a put of the client goes to the master of the key's bucket and brings its answer back.  With a
    table as the meta server gives it, the bucket of the client is the one the storage server
    computes, the frame goes to the first server of that bucket, and when that server answers the put with a code, the
    caller gets this code. *)
Theorem client_put_answered {L D} (s : server L D) ns key data expire c x rc v :
  table_ok c → args_ok ns key data → Requests.bucketCount s = c_bucketCount c →
  myServerList c !! Z.to_nat (StorageServer_getBucketNumber key s) = Some x → x ≠ 0 → - 2 ^ 31 <= rc < 2 ^ 31 →
  let m := {| p_ns := ns; p_version := 0; p_expired := expire; p_key := key; p_val := data |} in
  12 + Z.of_nat (length (serializePut m)) <= size_limit →
  rpc x (frameBytes (nextSeq c) KV_REQ_MESSAGE_PUT (serializePut m)) =
    (0, Some (drop 8 (frameBytes (nextSeq c) KV_RES_MESSAGE_RETURN (serializeReply (ReplyReturn rc v))))) →
  KvClientApi_put junk rpc ns key data expire c = Some (rc, next_seq c).
Proof using Hjunk.
  intros Hc (Hns & Hk & Hd) Hbc Hx Hne Hrc m Hsz Hrpc. unfold KvClientApi_put. rewrite Hk, Hd. cbn [negb orb].
  rewrite (proj2 (Z.ltb_ge _ _)) by (by apply args_size). rewrite (proj2 (Z.ltb_ge ns 0)), (proj2 (Z.leb_gt _ ns)) by lia. cbn [orb].
  rewrite (same_bucket key c s Hc Hbc) in Hx. pose proof (to_counts _ Hc) as [Hb _].
  assert (Hh : head (filter (λ x, x ≠ 0) (column c (murMurHash key mod c_bucketCount c))) = Some x)
    by (apply column_master; [done|apply Z.mod_pos_bound; lia|done|done]).
  rewrite getServerId_column, bind_Some_eq by done. cbv beta iota.
  rewrite bool_decide_false by (intros He; by rewrite He in Hh). cbn [negb]. rewrite Hh, bind_Some_eq.
  pose proof (return_size rc v) as Hrs.
  rewrite (call_answered x KV_REQ_MESSAGE_PUT KV_RES_MESSAGE_RETURN (serializePut m) c (serializeReply (ReplyReturn rc v)));
    [|apply put_bytes|done|unfold size_limit; lia|split; vm_compute; congruence|done].
  rewrite bind_Some_eq. cbv beta iota. by rewrite parse_return.
Qed.

(** A get goes the same way and gives back the value with its dates. *)
Lemma client_get_answered {L D} (s : server L D) ns key c x rc v e :
  table_ok c → 0 <= ns < sMaxNamespaceCount → checkKey key = true → Requests.bucketCount s = c_bucketCount c →
  myServerList c !! Z.to_nat (StorageServer_getBucketNumber key s) = Some x → x ≠ 0 → - 2 ^ 31 <= rc < 2 ^ 31 →
  Forall is_u8 (e_val e) → is_u32 (e_mtime e) → is_u32 (e_etime e) →
  let m := {| g_ns := ns; g_key := key |} in
  12 + Z.of_nat (length (serializeGet m)) <= size_limit → 12 + Z.of_nat (length (serializeReply (ReplyGet rc v (Some e)))) <= size_limit →
  rpc x (frameBytes (nextSeq c) KV_REQ_MESSAGE_GET (serializeGet m)) =
    (0, Some (drop 8 (frameBytes (nextSeq c) KV_RES_MESSAGE_GET (serializeReply (ReplyGet rc v (Some e)))))) →
  KvClientApi_get junk rpc ns key c = Some (rc, Some (e_val e, e_mtime e, e_etime e), next_seq c).
Proof using Hjunk.
  intros Hc Hns Hk Hbc Hx Hne Hrc Hv Hmt Het m Hsz Hs2 Hrpc. unfold KvClientApi_get. rewrite Hk. cbn [negb].
  rewrite (proj2 (Z.ltb_ge ns 0)), (proj2 (Z.leb_gt _ ns)) by lia. cbn [orb].
  rewrite (same_bucket key c s Hc Hbc) in Hx. pose proof (to_counts _ Hc) as [Hb _].
  assert (Hh : head (filter (λ x, x ≠ 0) (column c (murMurHash key mod c_bucketCount c))) = Some x)
    by (apply column_master; [done|apply Z.mod_pos_bound; lia|done|done]).
  rewrite getServerId_column, bind_Some_eq by done. cbv beta iota.
  rewrite bool_decide_false by (intros He; by rewrite He in Hh). cbn [negb]. rewrite Hh, bind_Some_eq.
  rewrite (call_answered x KV_REQ_MESSAGE_GET KV_RES_MESSAGE_GET (serializeGet m) c (serializeReply (ReplyGet rc v (Some e))));
    [|apply get_bytes|done|done|split; vm_compute; congruence|done].
  rewrite bind_Some_eq. cbv beta iota. by rewrite parse_getreply.
Qed.

(** ** Starting *)

Lemma takeTable_all tables n a l :
  (a + n <= length tables)%nat → takeTable false tables (seqZ (Z.of_nat a) (Z.of_nat n)) l = Some (l ++ take n (drop a tables)).
Proof using.
  revert a l. induction n as [|n IH]; intros a l Hn; [by rewrite take_0, app_nil_r|].
  replace (Z.of_nat (S n)) with (Z.succ (Z.of_nat n)) by lia. rewrite seqZ_cons by lia. rewrite Z.pred_succ. cbn [takeTable].
  destruct (lookup_lt_is_Some_2 tables a) as [x Hx]; [lia|]. rewrite Nat2Z.id, Hx, bind_Some_eq. cbn [negb].
  replace (Z.succ (Z.of_nat a)) with (Z.of_nat (S a)) by lia. rewrite IH by lia. by rewrite (drop_S _ _ _ Hx), <- app_assoc.
Qed.

Definition new_api : api :=
  {| metaServerList := []; direct := false; myServerList := []; c_bucketCount := 0; c_copyCount := 0; c_metaVersion := 0; newMetaVersion := 0; nextSeq := 1 |}.

(** A client that starts learns the table.  When the meta server, with table [t] of [b] buckets and [n]
    copies in version [v], is asked in time and its answer arrives, [startup] succeeds, and the client has exactly the
    servers of the table, so that its requests are routed by it. *)
Lemma startup_learns_table self tv_sec tv_usec now_us now (s : sys_mgr) m t v b n :
  getMeta s = Some (RespGetMeta t v b n) → is_u32 v → 0 < v → 0 < b → 0 < n → b * n < 2 ^ 32 → is_u32 b → is_u32 n →
  Z.of_nat (length t) = b * n → Forall is_u64 t →
  12 + Z.of_nat (length (serializeRequest ReqGetMeta)) <= size_limit →
  12 + Z.of_nat (length (serializeResponse (RespGetMeta t v b n))) <= size_limit →
  now_us < u64 (u64 (tv_sec * 1000 * 1000 + tv_usec) + 1000 * 1000) →
  (∀ req out s', process junk self tv_sec tv_usec now_us now req s = Some (Some out, s') → rpc m req = (0, Some (drop 8 out))) →
  ∃ c, KvClientApi_startup junk rpc false [m] new_api = Some (true, c) ∧ table_ok c ∧
    myServerList c = t ∧ c_bucketCount c = b ∧ c_copyCount c = n ∧ c_metaVersion c = v.
Proof using Hjunk.
  intros Hget Hv Hv0 Hb Hn Hbn Hbu Hnu Hlen Ht Hq Ha Htime Hrpc.
  pose (out := frameBytes 1 KV_RES_MESSAGE_GET_META (serializeResponse (RespGetMeta t v b n))).
  assert (Hp : process junk self tv_sec tv_usec now_us now (frameBytes 1 KV_REQ_MESSAGE_GET_META (serializeRequest ReqGetMeta)) s = Some (Some out, s)).
  { rewrite (process_answer junk self tv_sec tv_usec now_us now _ s 1 KV_REQ_MESSAGE_GET_META (serializeRequest ReqGetMeta) (RespGetMeta t v b n) s).
    - rewrite makeFrame_bytes, bind_Some_eq by (first [done|apply response_bytes]). done.
    - apply openFrame_bytes; [apply request_bytes|done|split; vm_compute; congruence..].
    - done.
    - apply (handle_serve self now ReqGetMeta s _ s); [done|]. cbn [serve]. by rewrite Hget. }
  unfold KvClientApi_startup. rewrite decide_False by done. cbn [negb metaServerList new_api app direct myServerList c_bucketCount c_copyCount c_metaVersion newMetaVersion nextSeq].
  unfold retrieveServerAddr. rewrite decide_False by done. cbn [metaServerList askMeta nextSeq]. rewrite makeFrame_bytes, bind_Some_eq by (first [done|apply request_bytes]).
  rewrite (Hrpc _ _ _ Hp). change (0 =? 0) with true. cbv iota. rewrite bind_Some_eq. cbv beta iota. unfold out.
  rewrite openAnswer_frame, bind_Some_eq by (done || (split; vm_compute; congruence)). cbv beta iota.
  change (negb (KV_RES_MESSAGE_GET_META =? KV_RES_MESSAGE_GET_META)) with false. cbv iota. rewrite parse_metareply by done.
  cbn [mr_version mr_bucketcount mr_copycount mr_table]. rewrite (proj2 (Z.eqb_neq v 0)) by lia.
  cbn [set_counts c_bucketCount c_copyCount myServerList next_seq]. rewrite (proj2 (Z.eqb_neq b 0)), (proj2 (Z.eqb_neq n 0)) by lia. cbn [orb].
  rewrite u32_id by (unfold is_u32; nia). rewrite <- Hlen. change (seqZ 0) with (seqZ (Z.of_nat 0)). rewrite takeTable_all, !bind_Some_eq by lia.
  cbv beta iota. cbn [negb]. rewrite drop_0, firstn_all, app_nil_l. eexists. split; [done|]. cbn. split; [by split|]. done.
Qed.
End Calls.

(** ** A simple codec for the answers *)

Fixpoint unpackWords (fuel : nat) (l : list Z) : list Z :=
  match fuel with
  | O => []
  | S fuel => if decide (l = []) then [] else be_value (take 8 l) :: unpackWords fuel (drop 8 l)
  end.

Lemma unpack_words l fuel : Forall is_u64 l → (length l <= fuel)%nat → unpackWords fuel (mjoin (be_bytes 8 <$> l)) = l.
Proof.
  revert fuel. induction l as [|x l IH]; intros fuel Hl Hf; [by destruct fuel|]. apply list.Forall_cons in Hl as [Hx Hl].
  destruct fuel as [|fuel]; [simpl in Hf; lia|]. cbn [unpackWords fmap list_fmap mjoin list_join].
  rewrite decide_False by (intros He; apply (f_equal length) in He; rewrite length_app, length_be_bytes in He; done).
  rewrite take_app_length', drop_app_length' by (by rewrite length_be_bytes). rewrite be_value_bytes_id by exact Hx.
  f_equal. apply IH; [done|simpl in Hf; lia].
Qed.

Lemma unpack_pack_u8 l r : unpackBytes (packBytes l ++ r) = Some (u8 <$> l, r).
Proof. induction l as [|b l IH]; [done|]. cbn [packBytes app unpackBytes]. by rewrite IH, bind_Some_eq. Qed.

Lemma unpack_num_u32 n r : unpackNum (be_bytes 4 n ++ r) = Some (u32 n, r).
Proof.
  pose proof (be_value_bytes 4 n) as Hv. pose proof (length_be_bytes 4 n) as Hl.
  destruct (be_bytes 4 n) as [|b0 [|b1 [|b2 [|b3 [|? ?]]]]]; try done. cbn [app unpackNum]. by rewrite Hv.
Qed.

Lemma i32_u32 n : - 2 ^ 31 <= n < 2 ^ 31 → i32 (u32 n) = n.
Proof. intros Hn. rewrite <- (i32_id n) at 2 by done. unfold i32, u32. by rewrite Z.mod_mod by done. Qed.

#[local] Instance demo_client_codec : @ClientCodec MetaServer.demo_codec RequestsSpec.demo_codec.
Proof.
  refine (@Build_ClientCodec MetaServer.demo_codec RequestsSpec.demo_codec
    (λ l, '(n, _) ← unpackNum l; Some (i32 n))
    (λ l, '(n, l) ← unpackNum l; '(_, l) ← unpackNum l; '(_, l) ← unpackBytes l; '(val, l) ← unpackBytes l;
          '(mt, l) ← unpackNum l; '(et, _) ← unpackNum l; Some (i32 n, val, mt, et))
    (λ l, match unpackWords (length l) l with
          | v :: b :: c :: t => Some {| mr_version := v; mr_bucketcount := b; mr_copycount := c; mr_table := t |}
          | _ => None
          end) _ _ _).
  - intros code v Hc. cbn [serializeReply RequestsSpec.demo_codec packReply]. rewrite unpack_num_u32, bind_Some_eq. cbv beta iota. by rewrite i32_u32.
  - intros code v e Hc Hv Hm He. cbn [serializeReply RequestsSpec.demo_codec packReply].
    do 2 (rewrite unpack_num_u32, bind_Some_eq; cbv beta iota). rewrite unpack_pack_u8, bind_Some_eq. cbv beta iota.
    rewrite unpack_pack by done. rewrite bind_Some_eq. cbv beta iota. rewrite unpack_num, bind_Some_eq by done. cbv beta iota.
    rewrite <- (app_nil_r (be_bytes 4 (e_etime e))), unpack_num, bind_Some_eq by done. cbv beta iota. by rewrite i32_u32.
  - intros t v b c Hv Hb Hc Ht. cbn [serializeResponse MetaServer.demo_codec demo_response].
    rewrite unpack_words; [done| |].
    + unfold is_u32, is_u64 in *. repeat (apply Forall_cons; [lia|]). done.
    + rewrite length_join_bytes. lia.
Defined.

(** ** A client with one meta server and one storage server *)

Lemma demo_junk0 i : is_u8 ((λ _ : nat, 0) i).
Proof. split; vm_compute; congruence. Qed.

(** The meta server answers frames; every storage server answers a put with code 0. *)
Definition demo_rpc (x : Z) (req : list Z) : Z * option (list Z) :=
  match @process MetaServer.demo_codec (λ _, 0) 9 10 0 10000001 10 req demo_meta with
  | Some (Some out, _) => (0, Some (drop 8 out))
  | _ => (0, Some (be_bytes 4 KV_RES_MESSAGE_RETURN ++ packReply (ReplyReturn 0 2)))
  end.

Lemma startup_learns_table_witness :
  ∃ c, @KvClientApi_startup _ _ demo_client_codec (λ _, 0) demo_rpc false [9] new_api = Some (true, c) ∧ table_ok c ∧
    myServerList c = [7; 7] ∧ c_bucketCount c = 2 ∧ c_copyCount c = 1 ∧ c_metaVersion c = 3.
Proof.
  apply (@startup_learns_table _ _ demo_client_codec (λ _, 0) demo_junk0 demo_rpc 9 10 0 10000001 10 demo_meta 9 [7; 7] 3 2 1).
  - vm_compute. reflexivity.
  - split; vm_compute; congruence.
  - vm_compute. reflexivity.
  - vm_compute. reflexivity.
  - vm_compute. reflexivity.
  - vm_compute. reflexivity.
  - split; vm_compute; congruence.
  - split; vm_compute; congruence.
  - vm_compute. reflexivity.
  - repeat (apply Forall_cons; [split; vm_compute; congruence|]). constructor.
  - vm_compute. congruence.
  - vm_compute. congruence.
  - vm_compute. reflexivity.
  - intros req out s' Hp. unfold demo_rpc. by rewrite Hp.
Defined.

Definition demo_api : api :=
  {| metaServerList := [9]; direct := false; myServerList := [7; 8]; c_bucketCount := 1; c_copyCount := 2; c_metaVersion := 4; newMetaVersion := 4; nextSeq := 2 |}.

Lemma client_put_answered_witness :
  @KvClientApi_put _ _ demo_client_codec (λ _, 0) demo_rpc 3 [107] [118] 50 demo_api = Some (0, next_seq demo_api).
Proof.
  apply (@client_put_answered _ _ demo_client_codec (λ _, 0) demo_junk0 demo_rpc unit unit
    {| Requests.bucketCount := 1; Requests.metaVersion := 2; bucketMgr := None; kvengine := Build_rdb_instance tt tt ∅ EngineSpec.demo_buckets (∅, EngineSpec.demo_buckets) |}
    3 [107] [118] 50 demo_api 7 0 2).
  - split; try done; vm_compute; congruence.
  - split; [split; vm_compute; congruence|]. split; vm_compute; reflexivity.
  - reflexivity.
  - vm_compute. reflexivity.
  - discriminate.
  - lia.
  - vm_compute. congruence.
  - vm_compute. reflexivity.
Defined.
