(* ===== verification/NetServer.v ===== *)
(** * The network server (src/src/common/netserver.{h,cc})

    [IwServer] is what the meta server and the storage server are built on.  One thread reads
    from all connections, cuts the bytes into requests and puts them in a queue; worker
    threads take them from there and call [process]; answers are sent at once as far as the
    socket takes them, the rest is buffered and sent by a second thread.

    The state has the connections, the marks of the idle check and the queue, which is the one of
    [RingQueue].  [kernel] is what the server has done to the operating system: open
    descriptors, the two epoll sets, the bytes given to each socket and the sockets shut down.
    Results of system calls are arguments.  A connection's operations hold its lock: they are
    atomic, and taking a lock that is held is [None], as is an access outside of a buffer.
    While the reading thread tries to get requests into a full queue the workers go on:
    [sched] says how many they take before each further try.  [handled] are the calls of
    [process] so far. *)
From stdpp Require Import functions.
From S2P Require Import Prelude Buffers NetBuffers RingQueue.

Definition MaxReqBufLen : Z := 1024 * 1024 + 4.
Definition connNum : Z := 102400.
Definition keepAliveTime : Z := 60.
Definition queueBytes : Z := 33554432.
(** The least and the limit of the length of a request in [dealEpollIn]. *)
Definition minLen : Z := 12.
Definition packetLimit : Z := 1024000 - 64.

Inductive socket_type := SocketNotInit | SocketListen | SocketServerConn | SocketUnknown.
Inductive protocal := CModelProtocalTcp | CModelProtocalUdp | CModelProtocalUnix.
#[export] Instance socket_type_eq_dec : EqDecision socket_type.
Proof. solve_decision. Defined.

(** ** [CloudConnHead], times as seconds and microseconds *)

Record net_head := {
  sock_index : Z; sock_create : Z * Z; request : Z * Z; response : Z * Z; src_ip : Z; src_port : Z }.

Definition CloudConnHead_new : net_head :=
  {| sock_index := -1; sock_create := (0, 0); request := (0, 0); response := (0, 0); src_ip := 0; src_port := 0 |}.

(** The 64 bytes of it in memory. *)
Definition headSize : Z := 64.

Definition timeBytes (t : Z * Z) : list Z := le_bytes 8 t.1 ++ le_bytes 8 t.2.

Definition headMemory (h : net_head) : list Z :=
  le_bytes 4 (sock_index h) ++ [0; 0; 0; 0] ++ timeBytes (sock_create h) ++ timeBytes (request h) ++
  timeBytes (response h) ++ le_bytes 4 (src_ip h) ++ le_bytes 2 (src_port h) ++ [0; 0].

Definition memoryAt (l : list Z) (off n : nat) : Z := le_value (take n (drop off l)).

Definition headOf (l : list Z) : net_head :=
  {| sock_index := i32 (memoryAt l 0 4);
     sock_create := (memoryAt l 8 8, memoryAt l 16 8);
     request := (memoryAt l 24 8, memoryAt l 32 8);
     response := (memoryAt l 40 8, memoryAt l 48 8);
     src_ip := memoryAt l 56 4; src_port := memoryAt l 60 2 |}.

(** ** [CCloudNetConnection] *)

Record net_conn := {
  m_connHead : net_head; m_lock : bool; m_init : bool; m_buflen : Z;
  m_readBuf : nbuffer; m_writeBuf : nbuffer; m_protocal : protocal; m_socketType : socket_type }.

Definition set_head (h : net_head) (c : net_conn) : net_conn :=
  Build_net_conn h (m_lock c) (m_init c) (m_buflen c) (m_readBuf c) (m_writeBuf c) (m_protocal c) (m_socketType c).
Definition set_read (b : nbuffer) (c : net_conn) : net_conn :=
  Build_net_conn (m_connHead c) (m_lock c) (m_init c) (m_buflen c) b (m_writeBuf c) (m_protocal c) (m_socketType c).
Definition set_write (b : nbuffer) (c : net_conn) : net_conn :=
  Build_net_conn (m_connHead c) (m_lock c) (m_init c) (m_buflen c) (m_readBuf c) b (m_protocal c) (m_socketType c).
Definition set_type (t : socket_type) (c : net_conn) : net_conn :=
  Build_net_conn (m_connHead c) (m_lock c) (m_init c) (m_buflen c) (m_readBuf c) (m_writeBuf c) (m_protocal c) t.
Definition set_locked (b : bool) (c : net_conn) : net_conn :=
  Build_net_conn (m_connHead c) b (m_init c) (m_buflen c) (m_readBuf c) (m_writeBuf c) (m_protocal c) (m_socketType c).

Definition conn_new : option net_conn :=
  b ← NBuffer_new DEFAULT_MAX_NBUFFER_SIZE;
  Some {| m_connHead := CloudConnHead_new; m_lock := false; m_init := false; m_buflen := 0;
          m_readBuf := b; m_writeBuf := b; m_protocal := CModelProtocalTcp; m_socketType := SocketNotInit |}.

Definition conn_init (buflen : Z) (c : net_conn) : net_conn :=
  if m_init c then c else
  Build_net_conn (m_connHead c) (m_lock c) true buflen (m_readBuf c) (m_writeBuf c) (m_protocal c) (m_socketType c).

Definition set_index (i : Z) (h : net_head) : net_head :=
  Build_net_head i (sock_create h) (request h) (response h) (src_ip h) (src_port h).

(** [release]; the second component is the descriptor that is closed. *)
Definition conn_release (c : net_conn) : option (net_conn * option Z) :=
  let fd := sock_index (m_connHead c) in
  r ← NBuffer_release (m_readBuf c);
  w ← NBuffer_release (m_writeBuf c);
  Some (set_type SocketNotInit (set_write w (set_read r (set_head (set_index (-1) (m_connHead c)) c))),
        if 0 <=? fd then Some fd else None).

(** What [recv] and [send] of the system give. *)
Inductive recv_result := Received (l : list Z) | RecvAgain | RecvError.
Inductive send_result := SentBytes (n : nat) | SendAgain | SendError.

Definition conn_read (res : recv_result) (c : net_conn) : option (bool * net_conn) :=
  if sock_index (m_connHead c) <? 0 then Some (false, c) else
  match res with
  | RecvAgain => Some (true, c)
  | RecvError | Received [] => Some (false, c)
  | Received l =>
      let b := m_readBuf c in
      m ← poke (m_buf b) (m_index b) l;
      b ← addIndex (Build_nbuffer m (m_len b) (m_index b) (m_maxBufLen b)) (Z.of_nat (length l));
      Some (true, set_read b c)
  end.

(** ** The server and the system *)

Record kernel := { fds : gset Z; r_epoll : gset Z; w_epoll : gset Z; shut : gset Z; wire : gmap Z (list Z) }.

Record iw_server := {
  connArray : gmap Z net_conn; aliveFdArray : Z → Z; maxFd : Z; bufLen : Z; kern : kernel;
  handleQueue : lock_queue; lastCheckTimeout : Z; unitBatchCount : Z;
  sched : list nat; handled : list (net_head * list Z) }.

Definition set_conns (c : gmap Z net_conn) (s : iw_server) : iw_server :=
  Build_iw_server c (aliveFdArray s) (maxFd s) (bufLen s) (kern s) (handleQueue s) (lastCheckTimeout s) (unitBatchCount s)
    (sched s) (handled s).
Definition set_alive (fd v : Z) (s : iw_server) : iw_server :=
  Build_iw_server (connArray s) (<[fd := v]> (aliveFdArray s)) (maxFd s) (bufLen s) (kern s) (handleQueue s) (lastCheckTimeout s)
    (unitBatchCount s) (sched s) (handled s).
Definition set_maxFd (m : Z) (s : iw_server) : iw_server :=
  Build_iw_server (connArray s) (aliveFdArray s) m (bufLen s) (kern s) (handleQueue s) (lastCheckTimeout s) (unitBatchCount s)
    (sched s) (handled s).
Definition set_kern (k : kernel) (s : iw_server) : iw_server :=
  Build_iw_server (connArray s) (aliveFdArray s) (maxFd s) (bufLen s) k (handleQueue s) (lastCheckTimeout s) (unitBatchCount s)
    (sched s) (handled s).
Definition set_work (q : lock_queue) (w : list nat) (d : list (net_head * list Z)) (s : iw_server) : iw_server :=
  Build_iw_server (connArray s) (aliveFdArray s) (maxFd s) (bufLen s) (kern s) q (lastCheckTimeout s) (unitBatchCount s) w d.
Definition set_checked (t : Z) (s : iw_server) : iw_server :=
  Build_iw_server (connArray s) (aliveFdArray s) (maxFd s) (bufLen s) (kern s) (handleQueue s) t (unitBatchCount s)
    (sched s) (handled s).

(** Entries of [connArray] that were not used yet are as constructed. *)
Definition connAt (fd : Z) (s : iw_server) : option net_conn :=
  match connArray s !! fd with Some c => Some c | None => conn_new end.
Definition putConn (fd : Z) (c : net_conn) (s : iw_server) : iw_server := set_conns (<[fd := c]> (connArray s)) s.

(** System calls.  A closed descriptor leaves the epoll sets. *)
Definition sys_close (fd : Z) (k : kernel) : kernel :=
  {| fds := fds k ∖ {[fd]}; r_epoll := r_epoll k ∖ {[fd]}; w_epoll := w_epoll k ∖ {[fd]}; shut := shut k ∖ {[fd]};
     wire := delete fd (wire k) |}.
Definition sys_open (fd : Z) (k : kernel) : kernel :=
  {| fds := fds k ∪ {[fd]}; r_epoll := r_epoll k; w_epoll := w_epoll k; shut := shut k; wire := <[fd := []]> (wire k) |}.
Definition sys_radd (fd : Z) (k : kernel) : kernel :=
  {| fds := fds k; r_epoll := r_epoll k ∪ {[fd]}; w_epoll := w_epoll k; shut := shut k; wire := wire k |}.
Definition sys_wadd (fd : Z) (k : kernel) : kernel :=
  {| fds := fds k; r_epoll := r_epoll k; w_epoll := w_epoll k ∪ {[fd]}; shut := shut k; wire := wire k |}.
Definition sys_rdel (fd : Z) (k : kernel) : kernel :=
  {| fds := fds k; r_epoll := r_epoll k ∖ {[fd]}; w_epoll := w_epoll k; shut := shut k; wire := wire k |}.
Definition sys_wdel (fd : Z) (k : kernel) : kernel :=
  {| fds := fds k; r_epoll := r_epoll k; w_epoll := w_epoll k ∖ {[fd]}; shut := shut k; wire := wire k |}.
Definition sys_shutdown (fd : Z) (k : kernel) : kernel :=
  {| fds := fds k; r_epoll := r_epoll k; w_epoll := w_epoll k; shut := shut k ∪ {[fd]}; wire := wire k |}.
Definition sys_sent (fd : Z) (l : list Z) (k : kernel) : kernel :=
  {| fds := fds k; r_epoll := r_epoll k; w_epoll := w_epoll k; shut := shut k;
     wire := <[fd := default [] (wire k !! fd) ++ l]> (wire k) |}.

Definition on_kern (f : kernel → kernel) (s : iw_server) : iw_server := set_kern (f (kern s)) s.
Definition close_opt (o : option Z) (s : iw_server) : iw_server :=
  match o with Some fd => on_kern (sys_close fd) s | None => s end.

Definition lockConn (fd : Z) (s : iw_server) : option bool :=
  if (fd <? 0) || (connNum <=? fd) then Some false else
  c ← connAt fd s; _ ← assert_that (negb (m_lock c)); Some true.

(** ** Connections *)

Definition getExistConn (fd : Z) (s : iw_server) : option (option net_conn) :=
  if (fd <? 0) || (connNum <=? fd) then Some None else
  c ← connAt fd s;
  Some (if sock_index (m_connHead c) =? fd then Some c else None).

Definition releaseConn (fd : Z) (s : iw_server) : option (bool * iw_server) :=
  locked ← lockConn fd s;
  if negb locked then Some (false, s) else
  c ← connAt fd s;
  '(c, closed) ← conn_release c;
  Some (true, set_alive fd 0 (close_opt closed (putConn fd c s))).

Definition ntohs (p : Z) : Z := u16 (Z.lor (Z.shiftl p 8) (Z.shiftr p 8)).

(** An entry that is still in use is released, and its lock is kept. *)
Definition getNewConn (fd : Z) (proto : protocal) (t : socket_type) (srcip srcport : Z) (now : Z * Z) (s : iw_server)
    : option (bool * iw_server) :=
  if (fd <? 0) || (connNum <=? fd) then Some (false, s) else
  c ← connAt fd s;
  let c := conn_init (bufLen s) c in
  _ ← assert_that (negb (m_lock c));
  if negb (sock_index (m_connHead c) =? -1) then
    '(c, closed) ← conn_release c;
    Some (false, close_opt closed (putConn fd (set_locked true c) s))
  else
    r ← NBuffer_release (m_readBuf c);
    w ← NBuffer_release (m_writeBuf c);
    let h := Build_net_head fd now (request (m_connHead c)) (response (m_connHead c)) srcip (ntohs srcport) in
    let c := Build_net_conn h (m_lock c) (m_init c) (m_buflen c) r w proto t in
    let s := putConn fd c s in
    Some (true, if maxFd s <? fd then set_maxFd fd s else s).

(** [onAccpet] on a listening socket of protocol [proto].  [acc] is the new descriptor with address and port, if there
    is one; [flags] whether both flags could be set; [added] whether epoll took it. *)
Definition onAccpet (proto : protocal) (acc : option (Z * Z * Z)) (flags added : bool) (now : Z * Z) (s : iw_server)
    : option (bool * iw_server) :=
  match proto, acc with
  | CModelProtocalUdp, _ | _, None => Some (false, s)
  | _, Some (newfd, ip, port) =>
      let '(srcip, srcport) := match proto with CModelProtocalTcp => (ip, port) | _ => (0, 0) end in
      let s := on_kern (sys_open newfd) s in
      if negb flags then Some (false, on_kern (sys_close newfd) s) else
      '(ok, s) ← getNewConn newfd proto SocketServerConn srcip srcport now s;
      if negb ok then Some (false, on_kern (sys_close newfd) s) else
      if negb added then '(_, s) ← releaseConn newfd s; Some (false, s) else
      Some (true, on_kern (sys_radd newfd) s)
  end.

(** ** Workers and requests *)

(** One turn of [workerThread]. *)
Definition workerStep (s : iw_server) : option iw_server :=
  '(d, q) ← LockQueue_dequeue2 headSize MaxReqBufLen 2000 (handleQueue s);
  Some (match d with
        | Some (h, req) =>
            if Z.of_nat (length h) =? headSize then set_work q (sched s) (handled s ++ [(headOf h, req)]) s
            else set_work q (sched s) (handled s) s
        | None => set_work q (sched s) (handled s) s
        end).

Fixpoint workerSteps (n : nat) (s : iw_server) : option iw_server :=
  match n with O => Some s | S n => s ← workerStep s; workerSteps n s end.

(** The loop of [sendRecvToQueue]: the first try and [tries] more. *)
Fixpoint sendLoop (tries : nat) (units : list (list Z * option (list Z))) (s : iw_server) : option iw_server :=
  '(n, q) ← LockQueue_enqueueAll units (handleQueue s);
  let s := set_work q (sched s) (handled s) s in
  match drop n units, tries with
  | [], _ | _, O => Some s
  | units, S tries =>
      s ← workerSteps (default 0%nat (head (sched s))) (set_work q (tail (sched s)) (handled s) s);
      sendLoop tries units s
  end.

Definition sendRecvToQueue (units : list (list Z * option (list Z))) (s : iw_server) : option iw_server :=
  match units with [] => Some s | _ => sendLoop 9 units s end.

(** The loop of [dealEpollIn] over the bytes read so far: how far it came and what is not sent yet, or nothing for a
    length that is not legal. *)
Fixpoint cutLoop (fuel : nat) (b : nbuffer) (h : list Z) (readNum : Z) (units : list (list Z * option (list Z))) (s : iw_server)
    : option (option (Z * list (list Z * option (list Z))) * iw_server) :=
  match fuel with
  | O => None
  | S fuel =>
      if negb (readNum + minLen <=? m_index b) then Some (Some (readNum, units), s) else
      front ← peek (m_buf b) readNum minLen;
      '(len, _) ← Buffer_readInt32 (Buffer_wrap front);
      let packetRealLen := i32 len in
      if packetRealLen <? minLen then Some (None, s) else
      if packetLimit <=? packetRealLen then Some (None, s) else
      if m_index b <? readNum + packetRealLen then Some (Some (readNum, units), s) else
      _ ← assert_that (Z.of_nat (length units) <? unitBatchCount s);
      packet ← peek (m_buf b) readNum packetRealLen;
      let units := units ++ [(h, Some packet)] in
      if unitBatchCount s <=? Z.of_nat (length units) then
        s ← sendRecvToQueue units s;
        cutLoop fuel b h (readNum + packetRealLen) [] s
      else cutLoop fuel b h (readNum + packetRealLen) units s
  end.

Definition dealEpollIn (fd : Z) (res : recv_result) (curtimeval : Z * Z) (s : iw_server) : option (bool * iw_server) :=
  c ← connAt fd s;
  '(ok, c) ← conn_read res c;
  if negb ok then Some (false, putConn fd c s) else
  let s := putConn fd c s in
  let b := m_readBuf c in
  let hd := m_connHead c in
  let h := headMemory (Build_net_head (sock_index hd) (sock_create hd) curtimeval (response hd) (src_ip hd) (src_port hd)) in
  '(r, s) ← cutLoop (S (Z.to_nat (m_index b))) b h 0 [] s;
  match r with
  | None => Some (false, s)
  | Some (readNum, units) =>
      s ← sendRecvToQueue units s;
      b ← addIndex b (-1 * readNum);
      m ← (if (0 <? readNum) && (0 <? m_index b) then data ← peek (m_buf b) readNum (m_index b); poke (m_buf b) 0 data
           else Some (m_buf b));
      Some (true, putConn fd (set_read (Build_nbuffer m (m_len b) (m_index b) (m_maxBufLen b)) c) s)
  end.

(** One event of [nioReadThread] on a descriptor. *)
Definition readEvent (fd : Z) (res : recv_result) (curtimeval : Z * Z) (s : iw_server) : option iw_server :=
  if (fd <? 0) || (connNum <=? fd) then Some (on_kern (sys_close fd) s) else
  c ← getExistConn fd s;
  match c with
  | None => Some (on_kern (sys_close fd) (on_kern (sys_rdel fd) s))
  | Some c =>
      match m_socketType c with
      | SocketServerConn =>
          '(ok, s) ← dealEpollIn fd res curtimeval (set_alive fd 0 s);
          if (ok : bool) then Some s else
          '(_, s) ← releaseConn fd (on_kern (sys_wdel fd) (on_kern (sys_rdel fd) s));
          Some s
      | _ => Some s
      end
  end.

(** ** Answers *)

(** [CCloudNetConnection::send]: 0, 1 (no room) or -1. *)
Definition conn_send (buf : list Z) (res : send_result) (c : net_conn) (k : kernel) : option (Z * net_conn * kernel) :=
  let fd := sock_index (m_connHead c) in
  let rest c buf k :=
    '(_, b) ← copyBuf (m_writeBuf c) buf;
    Some (if bool_decide (fd ∈ w_epoll k) then (-1, set_write b c, k) else (0, set_write b c, sys_wadd fd k)) in
  if 0 <? m_index (m_writeBuf c) then
    '(ok, b) ← copyBuf (m_writeBuf c) buf;
    Some (if (ok : bool) then 0 else 1, set_write b c, k)
  else
    match res with
    | SendAgain => rest c buf k
    | SendError => Some (-1, c, k)
    | SentBytes n =>
        let k := sys_sent fd (take n buf) k in
        if decide (n < length buf)%nat then rest c (drop n buf) k else Some (0, c, k)
    end.

Definition sendResponse (index create : Z) (buffer : list Z) (res : send_result) (s : iw_server) : option (bool * iw_server) :=
  let fd := i32 index in
  locked ← lockConn fd s;
  if negb locked then Some (false, s) else
  c ← getExistConn fd s;
  match c with
  | None => Some (false, s)
  | Some c =>
      if negb ((sock_create (m_connHead c)).1 =? u32 create) then Some (false, s) else
      '(ret, c, k) ← conn_send buffer res c (kern s);
      let s := putConn fd c (set_kern k s) in
      Some (true, if ret =? -1 then on_kern (sys_shutdown fd) s else s)
  end.

Definition dealEpollOut (fd : Z) (res : send_result) (c : net_conn) (s : iw_server) : option (bool * iw_server) :=
  let b := m_writeBuf c in
  if negb (0 <? m_index b) then Some (true, s) else
  match res with
  | SendAgain => Some (true, s)
  | SendError => Some (false, s)
  | SentBytes n =>
      data ← peek (m_buf b) 0 (m_index b);
      let s := on_kern (sys_sent fd (take n data)) s in
      if Z.of_nat n <? m_index b then
        b ← shrinkFromFront b (Z.of_nat n); Some (true, putConn fd (set_write b c) s)
      else
        let b := Build_nbuffer (m_buf b) (m_len b) 0 (m_maxBufLen b) in
        Some (true, on_kern (sys_wdel fd) (putConn fd (set_write b c) s))
  end.

(** One event of [nioWriteThread]. *)
Definition writeEvent (fd : Z) (res : send_result) (s : iw_server) : option iw_server :=
  if (fd <? 0) || (connNum <=? fd) then Some (on_kern (sys_close fd) (on_kern (sys_wdel fd) s)) else
  _ ← lockConn fd s;
  c ← getExistConn fd s;
  match c with
  | None => Some (on_kern (sys_wdel fd) s)
  | Some c =>
      match m_socketType c with
      | SocketServerConn =>
          '(ok, s) ← dealEpollOut fd res c s;
          Some (if (ok : bool) then s else on_kern (sys_shutdown fd) s)
      | _ => Some s
      end
  end.

(** ** Idle connections *)

Definition checkFd (fd : Z) (s : iw_server) : option iw_server :=
  c ← connAt fd s;
  s ← (if negb (aliveFdArray s fd =? 0) && bool_decide (m_socketType c = SocketServerConn) then
         let s := on_kern (sys_wdel fd) (on_kern (sys_rdel fd) s) in
         e ← getExistConn fd s;
         match e with
         | Some _ => '(_, s) ← releaseConn fd s; Some s
         | None => Some (on_kern (sys_close fd) s)
         end
       else Some s);
  c ← connAt fd s;
  Some (set_alive fd (if decide (m_socketType c = SocketServerConn) then 1 else 0) s).

Definition checkFdTimeOut (curtime : Z) (s : iw_server) : option iw_server :=
  if Z.abs (curtime - lastCheckTimeout s) <? keepAliveTime then Some s else
  foldl (λ os fd, s ← os; checkFd fd s) (Some (set_checked curtime s)) (seqZ 0 (maxFd s + 1)).

(** ** Start *)

(** [initialize] once the epoll sets exist, with the listening descriptor [listenfd]; [mem] is the fresh memory, [alive] that of [aliveFdArray], which is
    not initialised. *)
Definition IwServer_initialize (listenfd : Z) (proto : protocal) (batch : Z) (mem : list Z) (alive : Z → Z) (now : Z * Z)
    (checked : Z) (w : list nat) : option (bool * iw_server) :=
  match LockQueue_init queueBytes true false mem with
  | Full => None
  | Done q =>
      let s := {| connArray := ∅; aliveFdArray := alive; maxFd := 0; bufLen := 1024 * 1024;
                  kern := {| fds := {[listenfd]}; r_epoll := ∅; w_epoll := ∅; shut := ∅; wire := ∅ |};
                  handleQueue := q; lastCheckTimeout := checked; unitBatchCount := batch; sched := w; handled := [] |} in
      if listenfd <? 0 then Some (false, s) else
      '(ok, s) ← getNewConn listenfd proto SocketListen 0 0 now s;
      Some (ok, if (ok : bool) then on_kern (sys_radd listenfd) s else s)
  end.
