(* ===== verification/NetSpec.v ===== *)
(** * The network server as streams and a queue of requests

    The contract of [NetServer]: a connection is the bytes that are not a whole request yet,
    the bytes given to its socket and the answers still to be sent; the requests that wait
    are one bounded queue.  [cut] cuts a stream of bytes into requests.  [net_refines] shows that every run of
    the server, with its buffers, the ring and the epoll sets, is a run of this contract. *)
From stdpp Require Import functions.
From S2P Require Import Prelude Buffers BufferSpec NetBuffers RingQueue RingSpec NetServer.

(** ** Heads in memory *)

Definition is_time (t : Z * Z) : Prop := is_u64 t.1 ∧ is_u64 t.2.

Record head_ok (h : net_head) : Prop := {
  ho_index : 0 <= sock_index h < 2 ^ 31;
  ho_create : is_time (sock_create h);
  ho_request : is_time (request h);
  ho_response : is_time (response h);
  ho_ip : is_u32 (src_ip h);
  ho_port : is_u16 (src_port h) }.

Lemma memoryAt_app l1 l2 off n : (length l1 <= off)%nat → memoryAt (l1 ++ l2) off n = memoryAt l2 (off - length l1) n.
Proof. intros H. unfold memoryAt. by rewrite drop_app_ge. Qed.

Lemma memoryAt_le n z l : 0 <= z < 2 ^ (8 * Z.of_nat n) → memoryAt (le_bytes n z ++ l) 0 n = z.
Proof.
  intros Hz. unfold memoryAt. rewrite drop_0, take_app_le by (by rewrite length_le_bytes).
  rewrite take_ge by (by rewrite length_le_bytes). by apply le_value_bytes.
Qed.

Lemma length_headMemory h : length (headMemory h) = 64%nat.
Proof. unfold headMemory, timeBytes. by rewrite !length_app, !length_le_bytes. Qed.

Lemma headOf_memory h : head_ok h → headOf (headMemory h) = h.
Proof.
  intros [Hi [Hc1 Hc2] [Hq1 Hq2] [Hr1 Hr2] Hip Hp]. destruct h as [i [c1 c2] [q1 q2] [r1 r2] ip p]. cbn in *.
  unfold is_u64, is_u32, is_u16 in *. unfold headOf, headMemory, timeBytes. cbn [sock_index sock_create request response src_ip src_port fst snd].
  rewrite <- !app_assoc.
  f_equal; try f_equal; repeat first
    [rewrite memoryAt_le by (change (8 * Z.of_nat 4) with 32; change (8 * Z.of_nat 8) with 64; change (8 * Z.of_nat 2) with 16; lia)
    |rewrite memoryAt_app by (rewrite ?length_le_bytes; simpl; lia); rewrite ?length_le_bytes; cbn [Nat.sub length]].
  all: try done. by rewrite i32_id by lia.
Qed.

(** ** Requests in a stream *)

Definition frameLen (l : list Z) : Z := i32 (be_value (take 4 l)).

(** The whole requests at the front of [l] and what is behind them, or nothing when the next length is not legal. *)
Fixpoint cut (fuel : nat) (l : list Z) : list (list Z) * option (list Z) :=
  match fuel with
  | O => ([], Some l)
  | S fuel =>
      if decide (length l < 12)%nat then ([], Some l) else
      if (frameLen l <? minLen) || (packetLimit <=? frameLen l) then ([], None) else
      if decide (length l < Z.to_nat (frameLen l))%nat then ([], Some l) else
      let '(fs, r) := cut fuel (drop (Z.to_nat (frameLen l)) l) in (take (Z.to_nat (frameLen l)) l :: fs, r)
  end.

Definition cutAll (l : list Z) : list (list Z) * option (list Z) := cut (S (length l)) l.

Definition frame_ok (f : list Z) : Prop := frameLen f = Z.of_nat (length f) ∧ minLen <= Z.of_nat (length f) < packetLimit.

(** ** The queue of requests *)

(** Requests are offered in groups of [group_size]; [lost] are those that found the queue full ten times. *)
Record work := { group_size : Z; waiting : list (net_head * list Z); turns : list nat; served : list (net_head * list Z); lost : list (net_head * list Z) }.

Definition message (x : net_head * list Z) : list Z := headMemory x.1 ++ x.2.
Definition room : Z := queueBytes - headerSize.

(** A message takes 8 bytes more than it has, and 8 stay free. *)
Definition has_room (x : net_head * list Z) (ws : list (net_head * list Z)) : bool :=
  Z.of_nat (length (encs (message <$> ws))) + 8 + Z.of_nat (length (message x)) + 8 <=? room.

(** As many of [xs] as there is room for, and the others. *)
Fixpoint take_in (xs ws : list (net_head * list Z)) : list (net_head * list Z) * list (net_head * list Z) :=
  match xs with
  | [] => (ws, [])
  | x :: xs' => if has_room x ws then take_in xs' (ws ++ [x]) else (ws, xs)
  end.

Definition spec_take (n : nat) (w : work) : work :=
  {| group_size := group_size w; waiting := drop n (waiting w); turns := turns w; served := served w ++ take n (waiting w); lost := lost w |}.

Fixpoint spec_offer (tries : nat) (xs : list (net_head * list Z)) (w : work) : work :=
  let '(ws, xs) := take_in xs (waiting w) in
  let w := {| group_size := group_size w; waiting := ws; turns := turns w; served := served w; lost := lost w |} in
  match xs, tries with
  | [], _ => w
  | _, O => {| group_size := group_size w; waiting := ws; turns := turns w; served := served w; lost := lost w ++ xs |}
  | _, S tries =>
      spec_offer tries xs
        (spec_take (default 0%nat (head (turns w))) {| group_size := group_size w; waiting := ws; turns := tail (turns w); served := served w; lost := lost w |})
  end.

(** Requests are offered in groups of [n]: the last group, which is not full, and the work after the others. *)
Fixpoint spec_groups (n : Z) (fs group : list (net_head * list Z)) (w : work) : list (net_head * list Z) * work :=
  match fs with
  | [] => (group, w)
  | f :: fs =>
      let group := group ++ [f] in
      if n <=? Z.of_nat (length group) then spec_groups n fs [] (spec_offer 9 group w) else spec_groups n fs group w
  end.

(** The last group is only offered when the stream is legal. *)
Definition spec_feed (n : Z) (legal : bool) (fs : list (net_head * list Z)) (w : work) : work :=
  let '(group, w) := spec_groups n fs [] w in
  if legal then match group with [] => w | _ => spec_offer 9 group w end else w.

(** ** The queue in the ring *)

Definition item_ok (x : net_head * list Z) : Prop := head_ok x.1 ∧ minLen <= Z.of_nat (length x.2) < packetLimit.

Record queue_sim (w : work) (s : iw_server) : Prop := {
  qs_ring : ring_ok (message <$> waiting w) (m_queue (handleQueue s));
  qs_size : iBufSize (m_queue (handleQueue s)) = room;
  qs_tmp : m_tmp (handleQueue s) = None;
  qs_items : Forall item_ok (waiting w);
  qs_turns : sched s = turns w;
  qs_served : handled s = served w;
  qs_batch : unitBatchCount s = group_size w }.

(** Only the queue and the work done have changed. *)
Definition works (s s' : iw_server) : Prop := ∃ q t d, s' = set_work q t d s.

Lemma works_refl s : works s s.
Proof. exists (handleQueue s), (sched s), (handled s). by destruct s. Qed.

Lemma works_trans s1 s2 s3 : works s1 s2 → works s2 s3 → works s1 s3.
Proof. intros (q & t & d & ->) (q' & t' & d' & ->). by exists q', t', d'. Qed.

Lemma works_fields s s' :
  works s s' → connArray s' = connArray s ∧ kern s' = kern s ∧ aliveFdArray s' = aliveFdArray s ∧ maxFd s' = maxFd s ∧
    unitBatchCount s' = unitBatchCount s ∧ bufLen s' = bufLen s ∧ lastCheckTimeout s' = lastCheckTimeout s.
Proof. intros (q & t & d & ->). done. Qed.

Lemma length_message x : length (message x) = (64 + length x.2)%nat.
Proof. unfold message. by rewrite length_app, length_headMemory. Qed.

Lemma parts_message x : parts 64 (message x) = (headMemory x.1, x.2).
Proof.
  unfold parts. rewrite length_message, decide_False by lia. unfold message.
  rewrite take_app_length', drop_app_length' by (by rewrite length_headMemory). done.
Qed.

Definition unit_of (x : net_head * list Z) : list Z * option (list Z) := (headMemory x.1, Some x.2).

(** One request of the worker threads. *)
Lemma worker_sim w s :
  queue_sim w s → ∃ s', workerStep s = Some s' ∧ works s s' ∧ queue_sim (spec_take 1 w) s'.
Proof.
  intros [Hr Hs Ht Hi Htu Hse]. unfold workerStep, LockQueue_dequeue2, dequeueFromBuffer. rewrite Ht, bind_Some_eq.
  cbv beta iota. unfold dequeueNoBuffer. destruct (waiting w) as [|x ws] eqn:Ew.
  - unfold Ring_dequeue2. rewrite (empty_isEmpty _ Hr). cbn [andb].
    assert (Hdone : ∀ q, q = handleQueue s → queue_sim (spec_take 1 w) (set_work q (sched s) (handled s) s)).
    { intros q ->. split; cbn [set_work handleQueue sched handled spec_take waiting turns served]; rewrite ?Ew; try done.
      by rewrite app_nil_r. }
    destruct ((2000 =? 0) || negb (m_isCond (handleQueue s))); rewrite !bind_Some_eq; cbv beta iota; eexists;
      (split; [done|]; split; [by do 3 eexists|]); apply Hdone; by destruct (handleQueue s).
  - rewrite list.Forall_cons in Hi. destruct Hi as [[Hh [Hx1 Hx2]] Hi]. rewrite fmap_cons in Hr.
    destruct (nonempty_split _ _ _ Hr) as [-> _]. cbn [andb].
    rewrite (dequeue2_ok headSize MaxReqBufLen (message x) _ _ (ltac:(unfold headSize; lia)) Hr), bind_Some_eq. cbv beta iota.
    unfold headSize, MaxReqBufLen, packetLimit in *. pose proof (length_message x) as Hl.
    rewrite u32_id by (unfold is_u32; lia). rewrite (proj2 (Z.ltb_ge _ _)) by lia. rewrite bind_Some_eq. cbv beta iota.
    unfold getQueueDataToBuffer. cbn [set_queue m_tmp]. rewrite Ht, !bind_Some_eq. cbv beta iota.
    change (Z.to_nat 64) with 64%nat. rewrite parts_message.
    rewrite length_headMemory. cbn [Z.of_nat Z.eqb]. rewrite headOf_memory by done.
    eexists. split; [done|]. split; [by do 3 eexists|].
    split; cbn [set_work handleQueue sched handled spec_take waiting turns served set_queue m_queue m_tmp]; rewrite ?Ew; try done.
    + by apply popped_ok.
    + unfold popped, decCount. by destruct (_ =? 0).
    + rewrite Hse. cbn [take]. by destruct x.
Qed.

Lemma spec_take_add n m w : spec_take (n + m) w = spec_take m (spec_take n w).
Proof. unfold spec_take. cbn [waiting turns served lost]. rewrite drop_drop, <- app_assoc, take_take_drop. done. Qed.

Lemma workers_sim n w s :
  queue_sim w s → ∃ s', workerSteps n s = Some s' ∧ works s s' ∧ queue_sim (spec_take n w) s'.
Proof.
  revert w s. induction n as [|n IH]; intros w s Hq; cbn [workerSteps].
  { exists s. split; [done|]. split; [apply works_refl|]. destruct Hq. split; try done. cbn. by rewrite app_nil_r. }
  destruct (worker_sim w s Hq) as (s1 & -> & Hw1 & Hq1). rewrite bind_Some_eq.
  destruct (IH _ _ Hq1) as (s2 & -> & Hw2 & Hq2). exists s2. split; [done|]. split; [by eapply works_trans|].
  change (S n) with (1 + n)%nat. by rewrite spec_take_add.
Qed.

Definition set_waiting (ws : list (net_head * list Z)) (w : work) : work :=
  {| group_size := group_size w; waiting := ws; turns := turns w; served := served w; lost := lost w |}.

Lemma push_sim x w s :
  queue_sim w s → item_ok x → ∃ q',
    LockQueue_enqueue2 (headMemory x.1) x.2 (handleQueue s) = Some (if has_room x (waiting w) then Done tt else Full, q') ∧
    queue_sim (set_waiting (if has_room x (waiting w) then waiting w ++ [x] else waiting w) w) (set_work q' (sched s) (handled s) s).
Proof.
  intros [Hr Hs Ht Hi Htu Hse] Hx. pose proof Hx as [Hh Hl]. unfold LockQueue_enqueue2, packetLimit in *.
  destruct (enqueue2_refines (headMemory x.1) x.2 _ _ Hr) as (r' & -> & Hok & Hsz); [rewrite length_headMemory; lia|].
  rewrite bind_Some_eq. cbv beta iota. change (headMemory x.1 ++ x.2) with (message x) in *. rewrite Hs in *.
  assert (Hcase : spec_enqueue room (message x) (message <$> waiting w) =
    if has_room x (waiting w) then (Done tt, message <$> (waiting w ++ [x])) else (Full, message <$> waiting w)).
  { unfold spec_enqueue, has_room. rewrite decide_False by (intros E; apply (f_equal length) in E; rewrite length_message in E; done).
    rewrite fmap_app. destruct (Z.leb_spec (Z.of_nat (length (encs (message <$> waiting w))) + 8 + Z.of_nat (length (message x)) + 8) room).
    - by rewrite (proj2 (Z.ltb_ge _ _)) by lia.
    - by rewrite (proj2 (Z.ltb_lt _ _)) by lia. }
  rewrite Hcase in *. eexists. split; [destruct (has_room x (waiting w)); done|].
  destruct (has_room x (waiting w)); split; cbn [set_work handleQueue set_queue m_queue m_tmp sched handled set_waiting waiting turns served];
    try done. apply Forall_app. split; [done|]. by apply Forall_singleton.
Qed.

Lemma enqueueAll_sim xs w s :
  queue_sim w s → Forall item_ok xs → ∃ n q',
    LockQueue_enqueueAll (unit_of <$> xs) (handleQueue s) = Some (n, q') ∧
    drop n (unit_of <$> xs) = unit_of <$> (take_in xs (waiting w)).2 ∧
    queue_sim (set_waiting (take_in xs (waiting w)).1 w) (set_work q' (sched s) (handled s) s).
Proof.
  revert w s. induction xs as [|x xs IH]; intros w s Hq Hxs; cbn [take_in].
  { exists 0%nat, (handleQueue s). split; [done|]. split; [done|]. destruct Hq. by split. }
  apply list.Forall_cons in Hxs as [Hx Hxs]. destruct (push_sim x w s Hq Hx) as (q1 & Hrun & Hq1).
  rewrite fmap_cons. cbn [LockQueue_enqueueAll unit_of]. rewrite Hrun, bind_Some_eq. cbv beta iota. destruct (has_room x (waiting w)).
  - destruct (IH _ _ Hq1 Hxs) as (n & q2 & Hrest & Hd & Hq2). cbn [set_work handleQueue sched handled set_waiting waiting] in *.
    rewrite Hrest, bind_Some_eq. exists (S n), q2. split; [done|]. split; [done|]. done.
  - exists 0%nat, q1. split; [done|]. split; [done|]. done.
Qed.

Lemma take_in_items xs ws : Forall item_ok xs → Forall item_ok (take_in xs ws).2.
Proof.
  revert ws. induction xs as [|x xs IH]; intros ws Hxs; [done|]. cbn [take_in]. destruct (has_room x ws); [|done].
  apply IH. by inversion Hxs.
Qed.

Lemma offer_sim tries xs w s :
  queue_sim w s → Forall item_ok xs →
  ∃ s', sendLoop tries (unit_of <$> xs) s = Some s' ∧ works s s' ∧ queue_sim (spec_offer tries xs w) s'.
Proof.
  revert xs w s. induction tries as [|tries IH]; intros xs w s Hq Hxs.
  all: destruct (enqueueAll_sim xs w s Hq Hxs) as (n & q' & Hrun & Hd & Hq'); pose proof (take_in_items xs (waiting w) Hxs) as Hrest;
    cbn [sendLoop spec_offer]; rewrite Hrun, bind_Some_eq; cbv beta iota zeta; rewrite Hd;
    destruct (take_in xs (waiting w)) as [ws [|y ys]]; cbn [fst snd] in *.
  - rewrite fmap_nil. eexists. split; [done|]. split; [by do 3 eexists|done].
  - rewrite fmap_cons. eexists. split; [done|]. split; [by do 3 eexists|]. destruct Hq'. by split.
  - rewrite fmap_nil. eexists. split; [done|]. split; [by do 3 eexists|done].
  - rewrite fmap_cons. cbv beta iota. rewrite <- fmap_cons.
    set (s1 := set_work q' (tail (sched _)) _ _).
    assert (Hq1 : queue_sim {| group_size := group_size w; waiting := ws; turns := tail (turns w); served := served w; lost := lost w |} s1).
    { destruct Hq'. split; try done. cbn. by rewrite <- (qs_turns _ _ Hq). }
    destruct (workers_sim (default 0%nat (head (sched (set_work q' (sched s) (handled s) s)))) _ _ Hq1) as (s2 & -> & Hw2 & Hq2).
    rewrite bind_Some_eq. destruct (IH (y :: ys) _ _ Hq2 Hrest) as (s3 & -> & Hw3 & Hq3). exists s3. split; [done|].
    split. { eapply works_trans; [by do 3 eexists|]. eapply works_trans; [apply Hw2|apply Hw3]. }
    cbn [set_work sched] in Hq3. rewrite (qs_turns _ _ Hq) in Hq3. done.
Qed.

Lemma send_sim xs w s :
  queue_sim w s → Forall item_ok xs →
  ∃ s', sendRecvToQueue (unit_of <$> xs) s = Some s' ∧ works s s' ∧
    queue_sim (match xs with [] => w | _ => spec_offer 9 xs w end) s'.
Proof.
  intros Hq Hxs. destruct xs as [|x xs].
  - exists s. split; [done|]. split; [apply works_refl|done].
  - unfold sendRecvToQueue. destruct (offer_sim 9 (x :: xs) w s Hq Hxs) as (s' & Hrun & Hw & Hq'). exists s'. done.
Qed.

(** ** Cutting what was read *)

Lemma peek_collected b off len :
  nb_inv b → 0 <= off → 0 <= len → off + len <= m_index b →
  peek (m_buf b) off len = Some (take (Z.to_nat len) (drop (Z.to_nat off) (collected b))).
Proof.
  intros [Hi Hb _ _ _] Ho Hl Hle. rewrite peek_Some by lia. f_equal. unfold collected.
  rewrite <- take_drop_commute_sub by lia. rewrite take_take. f_equal. lia.
Qed.

Lemma length_collected b : nb_inv b → Z.of_nat (length (collected b)) = m_index b.
Proof. intros [Hi Hb _ _ _]. unfold collected. rewrite length_take. lia. Qed.

Lemma read_front l : (4 <= length l)%nat → ∃ b, Buffer_readInt32 (Buffer_wrap l) = Some (be_value (take 4 l), b).
Proof.
  intros Hl. unfold Buffer_readInt32, readInt. cbn [pdata pfree Buffer_wrap]. rewrite (proj2 (Z.leb_le _ _)) by lia.
  cbn [assert_that]. rewrite bind_Some_eq. change (bytes (Buffer_wrap l)) with l. rewrite peek_Some by lia. rewrite bind_Some_eq.
  change (Z.to_nat 0) with 0%nat. change (Z.to_nat 4) with 4%nat. rewrite drop_0. by eexists.
Qed.

Lemma cutLoop_sim fuel b h n group w s :
  nb_inv b → head_ok h → queue_sim w s → Forall item_ok group → Z.of_nat (length group) < unitBatchCount s →
  (n <= length (collected b))%nat → (length (collected b) - n < fuel)%nat →
  let r := cut fuel (drop n (collected b)) in
  let g := spec_groups (unitBatchCount s) (pair h <$> r.1) group w in
  ∃ s', cutLoop fuel b (headMemory h) (Z.of_nat n) (unit_of <$> group) s =
      Some ((λ rest, (m_index b - Z.of_nat (length rest), unit_of <$> g.1)) <$> r.2, s') ∧
    works s s' ∧ queue_sim g.2 s' ∧ Forall item_ok g.1.
Proof.
  intros Hb Hh. pose proof (length_collected b Hb) as Hlc. revert n group w s.
  induction fuel as [|fuel IH]; intros n group w s Hq Hg Hlt Hn Hf; [lia|].
  set (l := drop n (collected b)). assert (Hl : length l = (length (collected b) - n)%nat) by (unfold l; by rewrite length_drop).
  assert (Hstop : ∃ s', Some (Some (Z.of_nat n, unit_of <$> group), s) =
      Some ((λ rest, (m_index b - Z.of_nat (length rest), unit_of <$> group)) <$> Some l, s') ∧
    works s s' ∧ queue_sim w s' ∧ Forall item_ok group).
  { exists s. split; [|split; [apply works_refl|done]]. cbn [fmap option_fmap option_map]. do 4 f_equal. lia. }
  cbn [cutLoop cut]. unfold minLen. destruct (decide (length l < 12)%nat) as [H12|H12].
  { rewrite (proj2 (Z.leb_gt _ _)) by lia. exact Hstop. }
  rewrite (proj2 (Z.leb_le _ _)) by lia. cbn [negb]. rewrite peek_collected by (done || lia). rewrite bind_Some_eq, Nat2Z.id. fold l.
  destruct (read_front (take 12 l)) as [b' Hrf]; [rewrite length_take; lia|].
  change (Z.to_nat 12) with 12%nat. rewrite Hrf, bind_Some_eq. cbv beta iota zeta. rewrite take_take. change (4 `min` 12)%nat with 4%nat.
  change (i32 (be_value (take 4 l))) with (frameLen l). fold minLen. set (k := frameLen l) in *.
  assert (Hno : ∃ s', Some (@None (Z * list (list Z * option (list Z))), s) =
      Some ((λ rest, (m_index b - Z.of_nat (length rest), unit_of <$> group)) <$> @None (list Z), s') ∧
    works s s' ∧ queue_sim w s' ∧ Forall item_ok group).
  { exists s. split; [done|]. split; [apply works_refl|done]. }
  destruct (Z.ltb_spec k minLen) as [Hk|Hk]; [exact Hno|]. destruct (Z.leb_spec packetLimit k) as [Hk'|Hk']; [exact Hno|]. cbn [orb].
  unfold minLen in *.
  destruct (decide (length l < Z.to_nat k)%nat) as [Hs|Hs]; [rewrite (proj2 (Z.ltb_lt _ _)) by lia; exact Hstop|].
  rewrite (proj2 (Z.ltb_ge (m_index b) _)) by lia. rewrite (proj2 (Z.ltb_lt _ _)) by (by rewrite length_fmap). cbn [assert_that].
  rewrite bind_Some_eq, peek_collected by (done || lia). rewrite bind_Some_eq, Nat2Z.id. fold l.
  set (f := take (Z.to_nat k) l). replace (Z.of_nat n + k) with (Z.of_nat (n + Z.to_nat k)) by lia.
  replace (drop (Z.to_nat k) l) with (drop (n + Z.to_nat k) (collected b)) by (unfold l; by rewrite drop_drop).
  assert (Hx : item_ok (h, f)) by (split; [done|]; unfold f; cbn [snd]; rewrite length_take; unfold minLen; lia).
  assert (Hg' : Forall item_ok (group ++ [(h, f)])) by (apply Forall_app; split; [done|by apply Forall_singleton]).
  replace ((unit_of <$> group) ++ [(headMemory h, Some f)]) with (unit_of <$> (group ++ [(h, f)])) by (by rewrite fmap_app).
  specialize (IH (n + Z.to_nat k)%nat). destruct (cut fuel (drop (n + Z.to_nat k) (collected b))) as [fs r] eqn:Ec.
  cbn [fst snd fmap list_fmap spec_groups] in IH |- *. rewrite length_fmap.
  destruct (Z.leb_spec (unitBatchCount s) (Z.of_nat (length (group ++ [(h, f)])))) as [Hfull|Hroom].
  - destruct (send_sim (group ++ [(h, f)]) w s Hq Hg') as (s1 & -> & Hw1 & Hq1). rewrite bind_Some_eq.
    destruct (works_fields _ _ Hw1) as (_ & _ & _ & _ & Hu & _). rewrite <- Hu.
    destruct (IH [] (spec_offer 9 (group ++ [(h, f)]) w) s1) as (s2 & Hrun & Hw2 & Hq2 & Hg2).
    { destruct (group ++ [(h, f)]) eqn:E; [by destruct group|done]. }
    { done. } { rewrite Hu. simpl. lia. } { lia. } { lia. }
    rewrite fmap_nil in Hrun. rewrite Hrun. exists s2. split; [done|]. split; [by eapply works_trans|done].
  - destruct (IH (group ++ [(h, f)]) w s) as (s2 & -> & Hw2 & Hq2 & Hg2); [done|done|lia|lia|lia|].
    exists s2. done.
Qed.

(** ** Buffers of a connection *)

Abbreviation nbmax := DEFAULT_MAX_NBUFFER_SIZE.

Record buf_is (l : list Z) (b : nbuffer) : Prop := {
  bi_inv : nb_inv b;
  bi_max : m_maxBufLen b = nbmax;
  bi_len : m_len b <= nbmax;
  bi_bytes : collected b = l }.

(** After a read there is room for 4096 bytes, or the buffer has its largest size. *)
Definition roomy (b : nbuffer) : Prop := m_index b = 0 ∨ 4096 <= m_len b - m_index b ∨ m_len b = nbmax.

Lemma buf_index l b : buf_is l b → m_index b = Z.of_nat (length l).
Proof. intros [Hi _ _ <-]. symmetry. by apply length_collected. Qed.

Lemma free_len l b : buf_is l b → NBuffer_getFreeLen b = m_len b - Z.of_nat (length l).
Proof.
  intros H. rewrite <- (buf_index l b H). destruct (bi_inv _ _ H) as [Hi _ _ _ _]. unfold NBuffer_getFreeLen.
  by rewrite (proj2 (Z.ltb_ge _ _)) by lia.
Qed.

Lemma expand_is l b len :
  buf_is l b → 0 < len < 2 ^ 30 →
  ∃ b', NBuffer_expand b len = Some b' ∧ buf_is l b' ∧ (m_len b + len <= m_len b' ∨ m_len b' = nbmax).
Proof.
  intros [Hi Hm Hl Hc] Hlen. destruct (NBuffer_expand_ok b len Hi Hlen) as (b' & -> & Hi' & Hx & Hm' & Hc' & Hle & Hor).
  exists b'. split; [done|]. split; [split; [done|congruence|lia|congruence]|lia].
Qed.

Lemma release_is l b : buf_is l b → ∃ b', NBuffer_release b = Some b' ∧ buf_is [] b' ∧ m_index b' = 0.
Proof.
  intros [[Hi Hb Hp Hm Hl] Hmax Hlm Hc]. unfold NBuffer_release. set (b0 := Build_nbuffer _ _ 0 _).
  assert (H0 : nb_inv b0) by (split; cbn; lia).
  destruct (_ <? _) eqn:E; bool_cases; cbn [b0 m_len] in E.
  - unfold setNewSize. cbn [b0 m_len m_index]. rewrite (proj2 (Z.ltb_ge _ 0)), (proj2 (Z.ltb_ge _ 512)), (proj2 (Z.eqb_neq _ _)), (proj2 (Z.leb_gt _ _)) by lia.
    destruct (reallocBuf_ok b0 512 H0) as (b' & -> & Hi' & Hl' & Hx' & Hm' & Hc'); [cbn; lia|lia|].
    exists b'. split; [done|]. split; [|done]. split; [done|by rewrite Hm'|rewrite Hl'; unfold nbmax; lia|]. by rewrite Hc'.
  - exists b0. split; [done|]. split; [|done]. by split.
Qed.

(** What [recv] writes behind the bytes that are there. *)
Lemma received_is l b data :
  buf_is l b → Z.of_nat (length data) <= NBuffer_getFreeLen b →
  ∃ m b', poke (m_buf b) (m_index b) data = Some m ∧
    addIndex (Build_nbuffer m (m_len b) (m_index b) (m_maxBufLen b)) (Z.of_nat (length data)) = Some b' ∧
    buf_is (l ++ data) b' ∧ roomy b'.
Proof.
  intros Hb Hlen. rewrite (free_len l b Hb) in Hlen. pose proof (buf_index l b Hb) as Hx. destruct Hb as [[Hi Hbl Hp Hm Hl] Hmax Hlm Hc].
  rewrite poke_Some by lia. set (m := take _ _ ++ _). exists m. unfold addIndex. cbn [m_buf m_len m_index m_maxBufLen].
  set (b1 := Build_nbuffer _ _ _ _).
  assert (H1 : buf_is (l ++ data) b1).
  { split; [split; cbn [b1 m_buf m_len m_index m_maxBufLen]; try lia|done|done|].
    - unfold m. rewrite !length_app, length_take, length_drop. lia.
    - unfold collected. cbn [b1 m_index m_buf]. unfold m. rewrite app_assoc, take_app_le by (rewrite length_app, length_take; lia).
      rewrite take_ge by (rewrite length_app, length_take; lia). by rewrite <- Hc. }
  rewrite (free_len _ b1 H1). destruct (_ <? 4096) eqn:E; bool_cases.
  - destruct (expand_is _ b1 4096 H1) as (b2 & -> & H2 & Hor); [lia|]. exists b2. split; [done|]. split; [done|]. split; [done|].
    right. rewrite (buf_index _ _ H2). pose proof (buf_index _ _ H1). destruct (bi_inv _ _ H1) as [? _ _ _ _]. lia.
  - exists b1. split; [done|]. split; [done|]. split; [done|]. right. left. rewrite (buf_index _ _ H1). lia.
Qed.

Lemma expand_full l b len : buf_is l b → m_len b = nbmax → 0 < len → NBuffer_expand b len = Some b.
Proof.
  intros [_ Hm _ _] Hl Hlen. unfold NBuffer_expand. rewrite (proj2 (Z.leb_gt _ _)) by lia. rewrite Hm, Hl.
  cbn [growLen]. unfold nbmax. rewrite (proj2 (Z.leb_gt (2 ^ 31) _)), (proj2 (Z.ltb_lt _ _)) by lia.
  rewrite bind_Some_eq. by rewrite (proj2 (Z.ltb_ge _ _)) by lia.
Qed.

(** The bytes behind the requests are moved to the front. *)
Lemma moved_is l m len n :
  buf_is l (Build_nbuffer m len (Z.of_nat (length l)) nbmax) → (0 < n <= length l)%nat →
  ∃ m', (if (0 <? Z.of_nat n) && (0 <? Z.of_nat (length l) - Z.of_nat n)
         then data ← peek m (Z.of_nat n) (Z.of_nat (length l) - Z.of_nat n); poke m 0 data else Some m) = Some m' ∧
    buf_is (drop n l) (Build_nbuffer m' len (Z.of_nat (length l) - Z.of_nat n) nbmax).
Proof.
  intros [[Hi Hb Hp Hm Hl] Hmax Hlm Hc] Hn. cbn [m_buf m_len m_index m_maxBufLen] in *. unfold collected in Hc. cbn in Hc. rewrite Nat2Z.id in Hc.
  rewrite (proj2 (Z.ltb_lt 0 (Z.of_nat n))) by lia. cbn [andb].
  assert (Hld : length (drop n l) = (length l - n)%nat) by apply length_drop.
  destruct (Z.ltb_spec 0 (Z.of_nat (length l) - Z.of_nat n)) as [Hpos|Hz].
  - rewrite peek_Some by lia. rewrite bind_Some_eq, Nat2Z.id. replace (Z.to_nat (Z.of_nat (length l) - Z.of_nat n)) with (length l - n)%nat by lia.
    assert (Hd : take (length l - n) (drop n m) = drop n l) by (rewrite <- Hc at 2; rewrite <- take_drop_commute_sub by lia; done).
    rewrite Hd, poke_zero_front by lia. eexists. split; [done|].
    split; [split; cbn [m_buf m_len m_index m_maxBufLen]; try lia; rewrite length_app, !length_drop; lia|done|done|].
    unfold collected. cbn [m_buf m_index]. rewrite take_app_le by lia. apply take_ge. lia.
  - exists m. split; [done|]. split; [split; cbn [m_buf m_len m_index m_maxBufLen]; lia|done|done|].
    unfold collected. cbn [m_buf m_index]. replace (Z.of_nat (length l) - Z.of_nat n) with 0 by lia. rewrite take_0.
    symmetry. apply nil_length_inv. lia.
Qed.

Lemma buf_eta l b : buf_is l b → b = Build_nbuffer (m_buf b) (m_len b) (Z.of_nat (length l)) nbmax.
Proof. intros H. rewrite <- (buf_index _ _ H), <- (bi_max _ _ H). by destruct b. Qed.

Lemma consume_is l b n :
  buf_is l b → roomy b → (n <= length l)%nat →
  ∃ b' m', addIndex b (-1 * Z.of_nat n) = Some b' ∧
    (if (0 <? Z.of_nat n) && (0 <? m_index b') then data ← peek (m_buf b') (Z.of_nat n) (m_index b'); poke (m_buf b') 0 data
     else Some (m_buf b')) = Some m' ∧
    buf_is (drop n l) (Build_nbuffer m' (m_len b') (m_index b') (m_maxBufLen b')) ∧
    roomy (Build_nbuffer m' (m_len b') (m_index b') (m_maxBufLen b')).
Proof.
  intros Hb Hr Hn. destruct n as [|n].
  - unfold addIndex. change (-1 * Z.of_nat 0) with 0. rewrite Z.add_0_r.
    replace (Build_nbuffer _ _ _ _) with b by (by destruct b). cbn [Z.of_nat Z.ltb Z.compare andb]. rewrite drop_0, (free_len _ _ Hb).
    destruct (_ <? 4096) eqn:E; bool_cases.
    + destruct (expand_is _ b 4096 Hb) as (b' & -> & Hb' & Hor); [lia|]. exists b', (m_buf b'). split; [done|]. split; [done|].
      replace (Build_nbuffer _ _ _ _) with b' by (by destruct b'). split; [done|]. right.
      rewrite (buf_index _ _ Hb'). rewrite <- (buf_index _ _ Hb) in *. destruct (bi_inv _ _ Hb) as [? _ _ _ _]. lia.
    + exists b, (m_buf b). split; [done|]. split; [done|]. by replace (Build_nbuffer _ _ _ _) with b by (by destruct b).
  - unfold roomy in Hr. rewrite (buf_index _ _ Hb) in Hr. pose proof Hb as Hb2. rewrite (buf_eta _ _ Hb) in Hb2.
    destruct (moved_is _ _ _ (S n) Hb2) as (m' & Hm' & Hd); [lia|].
    exists (Build_nbuffer (m_buf b) (m_len b) (Z.of_nat (length l) - Z.of_nat (S n)) nbmax), m'.
    cbn [m_buf m_len m_index m_maxBufLen]. split; [|split; [done|]; split; [done|unfold roomy; cbn [m_index m_len]; lia]].
    unfold addIndex. rewrite (buf_index _ _ Hb), (bi_max _ _ Hb). replace (_ + -1 * _) with (Z.of_nat (length l) - Z.of_nat (S n)) by lia.
    set (b1 := Build_nbuffer _ _ _ _).
    assert (H1 : buf_is (take (length l - S n) l) b1).
    { destruct Hb2 as [[Hi Hbl Hp Hm Hl] _ Hlm Hc]. cbn [m_buf m_len m_index m_maxBufLen] in *.
      split; [split; cbn [b1 m_buf m_len m_index m_maxBufLen]; lia|done|done|].
      rewrite <- Hc. unfold collected. cbn [b1 m_buf m_index]. rewrite take_take. f_equal. rewrite length_take. lia. }
    rewrite (free_len _ _ H1), length_take. cbn [b1 m_len]. destruct (_ <? 4096) eqn:E; bool_cases; [|done].
    apply (expand_full _ _ _ H1); [cbn [b1 m_len]; lia|lia].
Qed.

(** ** The contract *)

(** An open connection: its head, the bytes that are no whole request yet, the bytes given to the socket, and the bytes of answers
    still to be sent. *)
Record stream := { st_head : net_head; st_in : list Z; st_wire : list Z; st_out : list Z }.
Record net := { streams : gmap Z stream; jobs : work }.

Inductive net_event :=
| EvAccept (proto : protocal) (acc : option (Z * Z * Z)) (flags added : bool) (now : Z * Z)
| EvRead (fd : Z) (res : recv_result) (t : Z * Z)
| EvWork
| EvAnswer (index create : Z) (buf : list Z) (res : send_result)
| EvWritable (fd : Z) (res : send_result)
| EvCheck (t : Z).

Definition net_exec (e : net_event) (s : iw_server) : option iw_server :=
  match e with
  | EvAccept proto acc flags added now => snd <$> onAccpet proto acc flags added now s
  | EvRead fd res t => readEvent fd res t s
  | EvWork => workerStep s
  | EvAnswer index create buf res => snd <$> sendResponse index create buf res s
  | EvWritable fd res => writeEvent fd res s
  | EvCheck t => checkFdTimeOut t s
  end.

Definition stamp (t : Z * Z) (h : net_head) : net_head :=
  Build_net_head (sock_index h) (sock_create h) t (response h) (src_ip h) (src_port h).

Definition spec_accept (proto : protocal) (acc : option (Z * Z * Z)) (flags added : bool) (now : Z * Z) (a : net) : net :=
  match proto, acc with
  | CModelProtocalUdp, _ | _, None => a
  | _, Some (fd, ip, port) =>
      if flags && added && (fd <? connNum) then
        let '(ip, port) := match proto with CModelProtocalTcp => (ip, port) | _ => (0, 0) end in
        let h := Build_net_head fd now (0, 0) (0, 0) ip (ntohs port) in
        {| streams := <[fd := {| st_head := h; st_in := []; st_wire := []; st_out := [] |}]> (streams a); jobs := jobs a |}
      else a
  end.

Definition spec_read (fd : Z) (res : recv_result) (t : Z * Z) (a : net) : net :=
  match streams a !! fd, res with
  | None, _ | _, RecvAgain => a
  | Some _, RecvError | Some _, Received [] => {| streams := delete fd (streams a); jobs := jobs a |}
  | Some st, Received l =>
      let '(fs, rest) := cutAll (st_in st ++ l) in
      let fs := pair (stamp t (st_head st)) <$> fs in
      match rest with
      | None => {| streams := delete fd (streams a); jobs := spec_feed (group_size (jobs a)) false fs (jobs a) |}
      | Some rest =>
          {| streams := <[fd := {| st_head := st_head st; st_in := rest; st_wire := st_wire st; st_out := st_out st |}]> (streams a);
             jobs := spec_feed (group_size (jobs a)) true fs (jobs a) |}
      end
  end.

(** What an answer does to the bytes given to the socket and to those still to be sent. *)
Definition spec_put (buf : list Z) (res : send_result) (st : stream) : stream :=
  let out w o := {| st_head := st_head st; st_in := st_in st; st_wire := w; st_out := o |} in
  match st_out st, res with
  | [], SentBytes n => out (st_wire st ++ take n buf) (drop n buf)
  | [], SendAgain => out (st_wire st) buf
  | [], SendError => st
  | o, _ => if Z.of_nat (length o) + Z.of_nat (length buf) <=? nbmax then out (st_wire st) (o ++ buf) else st
  end.

Definition spec_answer (index create : Z) (buf : list Z) (res : send_result) (a : net) : net :=
  match streams a !! i32 index with
  | Some st =>
      if (sock_create (st_head st)).1 =? u32 create
      then {| streams := <[i32 index := spec_put buf res st]> (streams a); jobs := jobs a |} else a
  | None => a
  end.

Definition spec_flush (fd : Z) (res : send_result) (a : net) : net :=
  match streams a !! fd, res with
  | Some st, SentBytes n =>
      {| streams := <[fd := {| st_head := st_head st; st_in := st_in st; st_wire := st_wire st ++ take n (st_out st);
                               st_out := drop n (st_out st) |}]> (streams a); jobs := jobs a |}
  | _, _ => a
  end.

(** A step of the contract.  The check for idle connections may close any. *)
Inductive spec_step (a : net) : net_event → net → Prop :=
| sp_accept proto acc flags added now : spec_step a (EvAccept proto acc flags added now) (spec_accept proto acc flags added now a)
| sp_read fd res t : spec_step a (EvRead fd res t) (spec_read fd res t a)
| sp_work : spec_step a EvWork {| streams := streams a; jobs := spec_take 1 (jobs a) |}
| sp_answer index create buf res : spec_step a (EvAnswer index create buf res) (spec_answer index create buf res a)
| sp_writable fd res : spec_step a (EvWritable fd res) (spec_flush fd res a)
| sp_check t (closed : gset Z) :
    spec_step a (EvCheck t) {| streams := filter (λ p, p.1 ∉ closed) (streams a); jobs := jobs a |}.

(** ** What the server has for a connection *)

Definition no_request (l : list Z) : Prop := cutAll l = ([], Some l).

Record stream_ok (fd : Z) (st : stream) (c : net_conn) (k : kernel) : Prop := {
  so_type : m_socketType c = SocketServerConn;
  so_head : m_connHead c = st_head st;
  so_hok : head_ok (st_head st);
  so_fd : sock_index (st_head st) = fd;
  so_in : buf_is (st_in st) (m_readBuf c);
  so_cut : no_request (st_in st);
  so_out : buf_is (st_out st) (m_writeBuf c);
  so_wire : wire k !! fd = Some (st_wire st);
  so_epoll : fd ∈ w_epoll k ↔ st_out st ≠ [] }.

Record fd_sim (fd : Z) (o : option stream) (c : net_conn) (k : kernel) : Prop := {
  fs_lock : m_lock c = false;
  fs_read : ∃ l, buf_is l (m_readBuf c);
  fs_roomy : roomy (m_readBuf c);
  fs_write : ∃ l, buf_is l (m_writeBuf c);
  fs_times : request (m_connHead c) = (0, 0) ∧ response (m_connHead c) = (0, 0);
  fs_open : sock_index (m_connHead c) ≠ -1 → sock_index (m_connHead c) = fd ∧ fd ∈ fds k;
  fs_wopen : fd ∈ w_epoll k → fd ∈ fds k;
  fs_stream : match o with
              | Some st => stream_ok fd st c k
              | None => (sock_index (m_connHead c) = -1 ∧ m_socketType c = SocketNotInit) ∨
                        (sock_index (m_connHead c) = fd ∧ m_socketType c = SocketListen)
              end }.

Record net_sim (a : net) (s : iw_server) : Prop := {
  ns_conns : ∀ fd, 0 <= fd < connNum → ∃ c, connAt fd s = Some c ∧ fd_sim fd (streams a !! fd) c (kern s);
  ns_range : ∀ fd, is_Some (streams a !! fd) → 0 <= fd < connNum ∧ fd <= maxFd s;
  ns_max : 0 <= maxFd s < connNum;
  ns_jobs : queue_sim (jobs a) s;
  ns_batch : 0 < unitBatchCount s }.

(** The system calls of an event keep their contracts: a new descriptor is not open, at most as many bytes are received as there is
    room for, and at most those that are sent are taken; answers are for connections and not longer than a buffer. *)
Definition sent_ok (len : nat) (res : send_result) : Prop := match res with SentBytes n => (n <= len)%nat | _ => True end.

Definition allowed (e : net_event) (s : iw_server) : Prop :=
  match e with
  | EvAccept _ (Some (fd, ip, port)) _ _ now => 0 <= fd < 2 ^ 31 ∧ (fd ∉ fds (kern s)) ∧ is_u32 ip ∧ is_u16 port ∧ is_time now
  | EvRead fd res t => is_time t ∧ ∀ l c, res = Received l → connAt fd s = Some c → Z.of_nat (length l) <= NBuffer_getFreeLen (m_readBuf c)
  | EvAnswer index _ buf res =>
      0 < Z.of_nat (length buf) <= nbmax ∧ sent_ok (length buf) res ∧ ∀ c, connAt (i32 index) s = Some c → m_socketType c ≠ SocketListen
  | EvWritable fd res => ∀ c, connAt fd s = Some c → sent_ok (Z.to_nat (m_index (m_writeBuf c))) res
  | _ => True
  end.
