(* ===== verification/NetSim.v ===== *)
(** * Runs of the network server are runs of its contract

    One lemma per event of [NetServer] that the contract of [NetSpec] takes the same step, and the theorems about whole runs. *)
From stdpp Require Import functions.
From S2P Require Import Prelude Buffers BufferSpec NetBuffers RingQueue RingSpec NetServer NetSpec.

(** ** Descriptors are independent *)

Definition same_at (fd : Z) (k k' : kernel) : Prop :=
  (fd ∈ fds k ↔ fd ∈ fds k') ∧ (fd ∈ w_epoll k ↔ fd ∈ w_epoll k') ∧ wire k !! fd = wire k' !! fd.

Lemma fd_sim_same fd o c k k' : fd_sim fd o c k → same_at fd k k' → fd_sim fd o c k'.
Proof.
  intros [Hl Hr Hro Hw Ht Ho Hwo Hs] (Hf & He & Hwi). split; try done.
  - intros Hne. by rewrite <- Hf; apply Ho.
  - by rewrite <- Hf, <- He.
  - destruct o as [st|]; [|done]. destruct Hs as [? ? ? ? ? ? ? Hwire Hep]. split; try done; [by rewrite <- Hwi|by rewrite <- He].
Qed.

Ltac same_solve := unfold same_at; cbn [fds w_epoll wire]; rewrite ?lookup_delete_ne, ?lookup_insert_ne by done; set_unfold; intuition congruence.

Lemma same_close fd fd' k : fd' ≠ fd → same_at fd' k (sys_close fd k).
Proof. intros H. unfold sys_close. same_solve. Qed.
Lemma same_open fd fd' k : fd' ≠ fd → same_at fd' k (sys_open fd k).
Proof. intros H. unfold sys_open. same_solve. Qed.
Lemma same_wadd fd fd' k : fd' ≠ fd → same_at fd' k (sys_wadd fd k).
Proof. intros H. unfold sys_wadd. same_solve. Qed.
Lemma same_wdel fd fd' k : fd' ≠ fd → same_at fd' k (sys_wdel fd k).
Proof. intros H. unfold sys_wdel. same_solve. Qed.
Lemma same_sent fd fd' l k : fd' ≠ fd → same_at fd' k (sys_sent fd l k).
Proof. intros H. unfold sys_sent. same_solve. Qed.
Lemma same_refl fd k : same_at fd k k.
Proof. done. Qed.
Lemma same_radd fd fd' k : same_at fd' k (sys_radd fd k).
Proof. done. Qed.
Lemma same_rdel fd fd' k : same_at fd' k (sys_rdel fd k).
Proof. done. Qed.
Lemma same_shutdown fd fd' k : same_at fd' k (sys_shutdown fd k).
Proof. done. Qed.
Lemma same_trans fd k1 k2 k3 : same_at fd k1 k2 → same_at fd k2 k3 → same_at fd k1 k3.
Proof. intros (H1 & H2 & H3) (H4 & H5 & H6). unfold same_at. by rewrite H1, H2, H3. Qed.

Create HintDb netsame.
#[export] Hint Resolve same_close same_open same_wadd same_wdel same_sent same_refl same_radd same_rdel same_shutdown : netsame.
#[export] Hint Extern 3 (same_at _ _ _) => (eapply same_trans; [|solve [eauto with netsame]]) : netsame.

Lemma connAt_put fd c s : connAt fd (putConn fd c s) = Some c.
Proof. unfold connAt, putConn. cbn [set_conns connArray]. by rewrite lookup_insert_eq. Qed.

Lemma connAt_put_ne fd fd' c s : fd' ≠ fd → connAt fd' (putConn fd c s) = connAt fd' s.
Proof. intros H. unfold connAt, putConn. cbn [set_conns connArray]. by rewrite lookup_insert_ne by done. Qed.

(** One connection of the state is replaced, and what the system has for it. *)
Lemma sim_change a s fd o c w s' :
  net_sim a s → 0 <= fd < connNum → fd_sim fd o c (kern s') → (∀ fd', fd' ≠ fd → same_at fd' (kern s) (kern s')) →
  connAt fd s' = Some c → (∀ fd', fd' ≠ fd → connAt fd' s' = connAt fd' s) → unitBatchCount s' = unitBatchCount s →
  maxFd s <= maxFd s' < connNum → (is_Some o → fd <= maxFd s') → queue_sim w s' →
  net_sim {| streams := partial_alter (λ _, o) fd (streams a); jobs := w |} s'.
Proof.
  intros [Hc Hr Hmx Hj Hb] Hfd Hsim Hsame Hca Hca' Hu Hm Hmo Hq. split; cbn [streams jobs].
  - intros fd' Hfd'. destruct (decide (fd' = fd)) as [->|Hne].
    + rewrite lookup_partial_alter_eq. by exists c.
    + rewrite Hca', lookup_partial_alter_ne by done. destruct (Hc fd' Hfd') as (c' & Hca2 & Hs').
      exists c'. split; [done|]. eapply fd_sim_same; [done|]. by apply Hsame.
  - intros fd'. destruct (decide (fd' = fd)) as [->|Hne].
    + rewrite lookup_partial_alter_eq. auto.
    + rewrite lookup_partial_alter_ne by done. intros Hst. destruct (Hr fd' Hst). lia.
  - lia.
  - done.
  - by rewrite Hu.
Qed.

Lemma sim_update a s fd o c k w s' :
  net_sim a s → 0 <= fd < connNum → fd_sim fd o c k → (∀ fd', fd' ≠ fd → same_at fd' (kern s) k) →
  connArray s' = <[fd := c]> (connArray s) → kern s' = k → unitBatchCount s' = unitBatchCount s →
  maxFd s <= maxFd s' < connNum → (is_Some o → fd <= maxFd s') → queue_sim w s' →
  net_sim {| streams := partial_alter (λ _, o) fd (streams a); jobs := w |} s'.
Proof.
  intros Hs Hfd Hsim Hsame Hca <- Hu Hm Hmo Hq. apply (sim_change a s fd o c); try done.
  - unfold connAt. by rewrite Hca, lookup_insert_eq.
  - intros fd' Hne. unfold connAt. by rewrite Hca, lookup_insert_ne.
Qed.

(** Nothing changes but the system, which keeps what it has for all connections. *)
Lemma sim_kern a s k : net_sim a s → (∀ fd, 0 <= fd < connNum → same_at fd (kern s) k) → net_sim a (set_kern k s).
Proof.
  intros [Hc Hr Hmx Hj Hb] Hsame. split; [|done|done| |done].
  - intros fd Hfd. destruct (Hc fd Hfd) as (c & Hca & Hs). exists c. split; [done|]. eapply fd_sim_same; [done|]. by apply Hsame.
  - destruct Hj. by split.
Qed.

(** ** Closing and opening *)

(** What closing relies on. *)
Definition fd_base (fd : Z) (c : net_conn) (k : kernel) : Prop :=
  m_lock c = false ∧ (∃ l, buf_is l (m_readBuf c)) ∧ (∃ l, buf_is l (m_writeBuf c)) ∧
  (request (m_connHead c) = (0, 0) ∧ response (m_connHead c) = (0, 0)) ∧
  (sock_index (m_connHead c) ≠ -1 → sock_index (m_connHead c) = fd ∧ fd ∈ fds k) ∧ (fd ∈ w_epoll k → fd ∈ fds k).

Lemma fd_sim_base fd o c k : fd_sim fd o c k → fd_base fd c k.
Proof. by intros []. Qed.

Lemma conn_release_base fd c k :
  0 <= fd → fd_base fd c k →
  ∃ c' cl, conn_release c = Some (c', cl) ∧ m_socketType c' = SocketNotInit ∧
    (let k' := match cl with Some f => sys_close f k | None => k end in
     fd_sim fd None c' k' ∧ ∀ fd', fd' ≠ fd → same_at fd' k k').
Proof.
  intros Hfd (Hl & [r Hr] & [w Hw] & Ht & Ho & Hwo). unfold conn_release.
  destruct (release_is r _ Hr) as (r' & -> & Hr' & Hr0). rewrite bind_Some_eq.
  destruct (release_is w _ Hw) as (w' & -> & Hw' & _). rewrite bind_Some_eq.
  assert (Hnew : ∀ k', (fd ∈ w_epoll k' → fd ∈ fds k') →
    fd_sim fd None (set_type SocketNotInit (set_write w' (set_read r' (set_head (set_index (-1) (m_connHead c)) c)))) k').
  { intros k' Hk'. split; try done; [by exists []|by left|by exists []|by left]. }
  do 2 eexists. split; [done|]. split; [done|]. cbv zeta.
  destruct (0 <=? sock_index (m_connHead c)) eqn:E; bool_cases.
  - destruct Ho as [-> Hin]; [lia|]. split; [|eauto with netsame]. apply Hnew. cbn.
    intros [_ H]%elem_of_difference. destruct H. by apply elem_of_singleton.
  - split; [by apply Hnew|]. eauto with netsame.
Qed.

Lemma lock_ok a s fd : net_sim a s → 0 <= fd < connNum → lockConn fd s = Some true.
Proof.
  intros Hs Hfd. destruct (ns_conns _ _ Hs fd Hfd) as (c & Hc & Hf). unfold lockConn.
  rewrite (proj2 (Z.ltb_ge _ _)), (proj2 (Z.leb_gt _ _)) by lia. cbn [orb]. rewrite Hc, bind_Some_eq, (fs_lock _ _ _ _ Hf). done.
Qed.

Lemma queue_sim_ext w s s' :
  queue_sim w s → handleQueue s' = handleQueue s → sched s' = sched s → handled s' = handled s → unitBatchCount s' = unitBatchCount s →
  queue_sim w s'.
Proof. intros [? ? ? ? ? ? ?] Hq Ht Hh Hu. split; congruence. Qed.

Lemma release_from a s s1 fd c w :
  net_sim a s → 0 <= fd < connNum → connAt fd s1 = Some c → fd_base fd c (kern s1) →
  (∀ fd', fd' ≠ fd → connAt fd' s1 = connAt fd' s) → (∀ fd', fd' ≠ fd → same_at fd' (kern s) (kern s1)) →
  unitBatchCount s1 = unitBatchCount s → maxFd s1 = maxFd s → queue_sim w s1 →
  ∃ s', releaseConn fd s1 = Some (true, s') ∧ net_sim {| streams := delete fd (streams a); jobs := w |} s' ∧
    maxFd s' = maxFd s ∧ aliveFdArray s' = <[fd := 0]> (aliveFdArray s1) ∧
    lastCheckTimeout s' = lastCheckTimeout s1 ∧ unitBatchCount s' = unitBatchCount s1.
Proof.
  intros Hs Hfd Hc Hf Hcs Hks Hu Hm Hq. pose proof (ns_max _ _ Hs) as Hmx. unfold releaseConn, lockConn.
  rewrite (proj2 (Z.ltb_ge _ _)), (proj2 (Z.leb_gt _ _)) by lia. cbn [orb]. rewrite Hc, !bind_Some_eq, (proj1 Hf).
  cbn [negb assert_that]. rewrite !bind_Some_eq. cbn [negb]. destruct (conn_release_base fd c _ (proj1 Hfd) Hf) as (c' & cl & -> & _ & Hf' & Hsame). rewrite bind_Some_eq.
  cbv beta iota zeta in *. eexists. split; [done|]. split; [|destruct cl; done].
  assert (Hput : ∀ f s2, connArray s2 = connArray (putConn fd c' s1) → f ≠ fd → connAt f s2 = connAt f s).
  { intros f s2 Hca Hne. rewrite <- (Hcs f Hne), <- (connAt_put_ne fd f c' s1 Hne). unfold connAt. by rewrite Hca. }
  assert (Hput' : ∀ s2, connArray s2 = connArray (putConn fd c' s1) → connAt fd s2 = Some c').
  { intros s2 Hca. rewrite <- (connAt_put fd c' s1). unfold connAt. by rewrite Hca. }
  destruct cl as [f|]; (eapply (sim_change a s fd None c'); [done|done|exact Hf'| |by apply Hput'|by intros; apply Hput|done|cbn; lia|by intros [? ?]|]);
    [|by apply (queue_sim_ext _ s1)| |by apply (queue_sim_ext _ s1)]; intros fd' Hne; (eapply same_trans; [by apply Hks|]); by apply Hsame.
Qed.

Lemma release_sim a s fd :
  net_sim a s → 0 <= fd < connNum →
  ∃ s', releaseConn fd s = Some (true, s') ∧ net_sim {| streams := delete fd (streams a); jobs := jobs a |} s' ∧
    maxFd s' = maxFd s ∧ aliveFdArray s' = <[fd := 0]> (aliveFdArray s) ∧
    lastCheckTimeout s' = lastCheckTimeout s ∧ unitBatchCount s' = unitBatchCount s.
Proof.
  intros Hs Hfd. destruct (ns_conns _ _ Hs fd Hfd) as (c & Hc & Hf).
  apply (release_from a s s fd c); try done; [by eapply fd_sim_base|apply (ns_jobs _ _ Hs)].
Qed.

Lemma ntohs_u16 p : is_u16 (ntohs p).
Proof. unfold is_u16, ntohs, u16. apply Z.mod_pos_bound. lia. Qed.

(** A new connection on a descriptor that was not open. *)
Lemma getNewConn_sim a s fd proto ip port now :
  net_sim a s → 0 <= fd < connNum → (∀ c, connAt fd s = Some c → sock_index (m_connHead c) = -1) →
  (fd ∉ w_epoll (kern s)) → fd ∈ fds (kern s) → wire (kern s) !! fd = Some [] → is_u32 ip → is_time now →
  ∃ s', getNewConn fd proto SocketServerConn ip port now s = Some (true, s') ∧ kern s' = kern s ∧
    net_sim {| streams := <[fd := {| st_head := Build_net_head fd now (0, 0) (0, 0) ip (ntohs port); st_in := []; st_wire := []; st_out := [] |}]>
                 (streams a); jobs := jobs a |} s'.
Proof.
  intros Hs Hfd Hfree Hw Hf Hwire Hip Hnow. pose proof (ns_max _ _ Hs) as Hmx. unfold getNewConn. rewrite (proj2 (Z.ltb_ge _ _)), (proj2 (Z.leb_gt _ _)) by lia. cbn [orb].
  destruct (ns_conns _ _ Hs fd Hfd) as (c & Hc & Hsim). specialize (Hfree c Hc). rewrite Hc, bind_Some_eq. cbv zeta.
  assert (Hci : ∃ n b, conn_init (bufLen s) c = Build_net_conn (m_connHead c) (m_lock c) b n (m_readBuf c) (m_writeBuf c) (m_protocal c) (m_socketType c)).
  { unfold conn_init. destruct (m_init c) eqn:E; [exists (m_buflen c), (m_init c)|by do 2 eexists].
    by destruct c. }
  destruct Hci as (n & bi & ->). cbn [m_lock m_connHead m_readBuf m_writeBuf m_init m_buflen].
  destruct Hsim as [Hl [r Hr] Hro [w Hwb] [Ht1 Ht2] Ho Hwo Hst]. rewrite Hl, Hfree. cbn [negb assert_that Z.eqb]. rewrite bind_Some_eq.
  destruct (release_is r _ Hr) as (r' & -> & Hr' & Hr0). rewrite bind_Some_eq.
  destruct (release_is w _ Hwb) as (w' & -> & Hw' & _). rewrite bind_Some_eq. cbv beta iota. rewrite Ht1, Ht2.
  set (h := Build_net_head fd now (0, 0) (0, 0) ip (ntohs port)).
  assert (Hsim' : fd_sim fd (Some {| st_head := h; st_in := []; st_wire := []; st_out := [] |})
    (Build_net_conn h false bi n r' w' proto SocketServerConn) (kern s)).
  { split; try done; [by exists []|by left|by exists []|].
    split; try done. split; try done; cbn; unfold connNum, is_time, is_u64 in *; cbn; try lia. apply ntohs_u16. }
  eexists. split; [done|]. split; [destruct (_ <? _); done|].
  eapply (sim_update a s fd (Some _) _ (kern s)); [done|done|exact Hsim'|eauto with netsame|..].
  1-3: by destruct (_ <? _).
  1-2: destruct (_ <? _) eqn:E; bool_cases; cbn in E |- *; intros; lia.
  apply (queue_sim_ext _ s); [apply (ns_jobs _ _ Hs)|by destruct (_ <? _)..].
Qed.

(** A descriptor that is not open has no connection. *)
Lemma not_open a s fd :
  net_sim a s → 0 <= fd < connNum → (fd ∉ fds (kern s)) →
  streams a !! fd = None ∧ (fd ∉ w_epoll (kern s)) ∧ ∀ c, connAt fd s = Some c → sock_index (m_connHead c) = -1 ∧ m_socketType c = SocketNotInit.
Proof.
  intros Hs Hfd Hno. destruct (ns_conns _ _ Hs fd Hfd) as (c & Hc & [_ _ _ _ _ Ho Hwo Hst]).
  assert (Hi : sock_index (m_connHead c) = -1).
  { destruct (decide (sock_index (m_connHead c) = -1)) as [|Hne]; [done|]. by destruct (Ho Hne). }
  destruct (streams a !! fd) as [st|].
  - destruct Hst as [_ Hh _ Hf _ _ _ _ _]. rewrite Hh in Hi. lia.
  - split; [done|]. split; [auto|]. intros c' Hc'. rewrite Hc in Hc'. injection Hc' as <-. split; [done|]. destruct Hst as [[_ ?]|[? _]]; [done|lia].
Qed.

(** The system opens or closes a descriptor without a connection. *)
Lemma sim_fds a s fd k :
  net_sim a s → (0 <= fd < connNum → streams a !! fd = None ∧ (fd ∉ w_epoll k) ∧
    ∀ c, connAt fd s = Some c → sock_index (m_connHead c) = -1 ∧ m_socketType c = SocketNotInit) →
  (∀ fd', fd' ≠ fd → same_at fd' (kern s) k) → net_sim a (set_kern k s).
Proof.
  intros Hs Hno Hsame. destruct (decide (0 <= fd < connNum)) as [Hfd|Hfd].
  2:{ apply sim_kern; [done|]. intros fd' Hfd'. apply Hsame. by intros ->. }
  destruct (Hno Hfd) as (Hn & Hw & Hi). destruct (ns_conns _ _ Hs fd Hfd) as (c & Hc & Hf). destruct (Hi c Hc) as [Hic Htc].
  replace a with {| streams := partial_alter (λ _, None) fd (streams a); jobs := jobs a |}.
  - pose proof (ns_max _ _ Hs) as Hmx. apply (sim_change a s fd None c); try done; [|cbn; lia|apply (queue_sim_ext _ s); [apply (ns_jobs _ _ Hs)|done..]].
    destruct Hf as [Hl Hr Hro Hwb Ht _ _ _]. split; try done. by left.
  - destruct a as [m w]. cbn [streams jobs] in *. f_equal. exact (delete_id m fd Hn).
Qed.

Lemma accept_new a s fd proto ip port flags added now :
  net_sim a s → 0 <= fd < 2 ^ 31 → (fd ∉ fds (kern s)) → is_u32 ip → is_time now →
  ∃ s', snd <$> (let s := on_kern (sys_open fd) s in
      if negb flags then Some (false, on_kern (sys_close fd) s) else
      '(ok, s) ← getNewConn fd proto SocketServerConn ip port now s;
      if negb ok then Some (false, on_kern (sys_close fd) s) else
      if negb added then '(_, s) ← releaseConn fd s; Some (false, s) else
      Some (true, on_kern (sys_radd fd) s)) = Some s' ∧
    net_sim (if flags && added && (fd <? connNum) then
        {| streams := <[fd := {| st_head := Build_net_head fd now (0, 0) (0, 0) ip (ntohs port); st_in := []; st_wire := []; st_out := [] |}]>
             (streams a); jobs := jobs a |} else a) s'.
Proof.
  intros Hs Hfd Hno Hip Hnow. cbv zeta. set (s1 := on_kern (sys_open fd) s).
  assert (Hclose : net_sim a (on_kern (sys_close fd) s1)).
  { apply (sim_fds a s fd); [done| |].
    - intros Hr. destruct (not_open a s fd Hs Hr Hno) as (Hn & Hw & Hi). split; [done|]. split; [|done]. cbn. by intros [? _]%elem_of_difference.
    - intros fd' Hne. eapply same_trans; [by apply same_open|by apply same_close]. }
  assert (Hopen : net_sim a s1).
  { apply (sim_fds a s fd); [done| |intros; by apply same_open]. intros Hr. by apply (not_open a s fd). }
  destruct flags; cbn [negb andb]; [|by exists (on_kern (sys_close fd) s1)].
  destruct (Z.ltb_spec fd connNum) as [Hlt|Hge].
  2:{ exists (on_kern (sys_close fd) s1). rewrite andb_false_r. split; [|done].
      unfold getNewConn. rewrite (proj2 (Z.leb_le _ _)) by done. by rewrite orb_true_r. }
  destruct (not_open a s fd Hs (conj (proj1 Hfd) Hlt) Hno) as (Hn & Hw & Hi).
  destruct (getNewConn_sim a s1 fd proto ip port now Hopen) as (s2 & -> & Hk & Hs2);
    [lia|intros c Hc; by apply Hi|done|cbn; set_unfold; by right|cbn; apply lookup_insert_eq|done|done|].
  rewrite bind_Some_eq. cbn [negb]. destruct added; cbn [negb andb].
  - eexists. split; [done|]. apply sim_kern; [done|]. intros. apply same_radd.
  - destruct (release_sim _ s2 fd Hs2) as (s3 & -> & Hs3 & _); [lia|]. rewrite bind_Some_eq. eexists. split; [done|].
    cbn [streams jobs] in Hs3. rewrite delete_insert_id in Hs3 by done. by destruct a.
Qed.

Lemma accept_sim a s proto acc flags added now :
  net_sim a s → allowed (EvAccept proto acc flags added now) s →
  ∃ s', net_exec (EvAccept proto acc flags added now) s = Some s' ∧ net_sim (spec_accept proto acc flags added now a) s'.
Proof.
  intros Hs Hal. cbn [net_exec allowed] in *. unfold onAccpet, spec_accept.
  destruct acc as [[[fd ip] port]|]; [|by exists s; destruct proto]. destruct Hal as (Hfd & Hno & Hip & Hport & Hnow).
  destruct proto; [by apply accept_new|by exists s|]. by apply accept_new.
Qed.

(** ** Reading *)

Lemma cut_rest fuel l fs rest : (length l < fuel)%nat → cut fuel l = (fs, Some rest) → no_request rest.
Proof.
  revert l fs. induction fuel as [|fuel IH]; intros l fs Hl; [lia|]. cbn [cut]. unfold no_request, cutAll. intros Hc.
  destruct (decide (length l < 12)%nat) as [H12|H12].
  { injection Hc as <- <-. cbn [cut]. by rewrite decide_True. }
  destruct ((frameLen l <? minLen) || (packetLimit <=? frameLen l)) eqn:Ek; [done|].
  destruct (decide (length l < Z.to_nat (frameLen l))%nat) as [Hs|Hs].
  { injection Hc as <- <-. cbn [cut]. by rewrite decide_False, Ek, decide_True by done. }
  destruct (cut fuel (drop (Z.to_nat (frameLen l)) l)) as [fs' r] eqn:Er. injection Hc as <- ->.
  apply (IH (drop (Z.to_nat (frameLen l)) l) fs'); [|done]. apply orb_false_elim in Ek as [Ek _]. apply Z.ltb_ge in Ek. unfold minLen in Ek. rewrite length_drop. lia.
Qed.

Lemma cut_join fuel l fs rest : cut fuel l = (fs, rest) → Forall frame_ok fs ∧ ∀ r, rest = Some r → l = mjoin fs ++ r.
Proof.
  revert l fs. induction fuel as [|fuel IH]; intros l fs; cbn [cut].
  { intros [= <- <-]. split; [done|]. by intros r [= ->]. }
  destruct (decide (length l < 12)%nat) as [H12|H12].
  { intros [= <- <-]. split; [done|]. by intros r [= ->]. }
  destruct (frameLen l <? minLen) eqn:E1; cbn [orb]; [intros [= <- <-]; split; [done|]; by intros r [=]|].
  destruct (packetLimit <=? frameLen l) eqn:E2; [intros [= <- <-]; split; [done|]; by intros r [=]|]. bool_cases.
  destruct (decide (length l < Z.to_nat (frameLen l))%nat) as [Hs|Hs].
  { intros [= <- <-]. split; [done|]. by intros r [= ->]. }
  destruct (cut fuel (drop (Z.to_nat (frameLen l)) l)) as [fs' r'] eqn:Er. intros [= <- <-].
  destruct (IH _ _ Er) as [Hok Hj]. unfold minLen in *. split.
  - apply list.Forall_cons. split; [|done]. unfold frame_ok, minLen. rewrite length_take.
    assert (Hf : frameLen (take (Z.to_nat (frameLen l)) l) = frameLen l).
    { unfold frameLen at 1. rewrite take_take. by replace (4 `min` Z.to_nat (frameLen l))%nat with 4%nat by lia. }
    rewrite Hf. lia.
  - intros r ->. change (mjoin (?x :: ?y)) with (x ++ mjoin y). rewrite <- app_assoc, <- (Hj r eq_refl). by rewrite take_drop.
Qed.

(** A connection with other bytes in its read buffer. *)
Definition reads (fd : Z) (c : net_conn) (b : nbuffer) (s s' : iw_server) : Prop :=
  connAt fd s' = Some (set_read b c) ∧ (∀ fd', fd' ≠ fd → connAt fd' s' = connAt fd' s) ∧ kern s' = kern s ∧
  maxFd s' = maxFd s ∧ unitBatchCount s' = unitBatchCount s ∧ aliveFdArray s' = aliveFdArray s.

Lemma put_reads fd c b s s1 :
  works (putConn fd (set_read b c) s) s1 → reads fd c b s s1.
Proof.
  intros (Hc & Hk & Ha & Hm & Hu & _)%works_fields. unfold reads. rewrite Hk, Hm, Hu, Ha. split_and!; try done.
  - rewrite <- (connAt_put fd (set_read b c) s). unfold connAt. by rewrite Hc.
  - intros fd' Hne. rewrite <- (connAt_put_ne fd fd' (set_read b c) s Hne). unfold connAt. by rewrite Hc.
Qed.

Lemma deal_sim a s fd st c b l res t :
  net_sim a s → streams a !! fd = Some st → head_ok (st_head st) → m_connHead c = st_head st →
  connAt fd s = Some c → is_time t → conn_read res c = Some (true, set_read b c) → buf_is (st_in st ++ l) b → roomy b →
  let r := cutAll (st_in st ++ l) in
  let w := spec_feed (unitBatchCount s) (bool_decide (is_Some r.2)) (pair (stamp t (st_head st)) <$> r.1) (jobs a) in
  ∃ s' b', dealEpollIn fd res t s = Some (bool_decide (is_Some r.2), s') ∧ reads fd c b' s s' ∧ queue_sim w s' ∧ roomy b' ∧
    buf_is (default (st_in st ++ l) r.2) b'.
Proof.
  intros Hs Hst Hh Hhead Hc Ht Hread Hb Hro. cbv zeta. unfold dealEpollIn. rewrite Hc, bind_Some_eq, Hread, bind_Some_eq. cbv beta iota. cbn [negb].
  set (s1 := putConn fd (set_read b c) s). change (m_readBuf (set_read b c)) with b. change (m_connHead (set_read b c)) with (m_connHead c).
  rewrite Hhead. change (Build_net_head (sock_index (st_head st)) _ _ _ _ _) with (stamp t (st_head st)).
  assert (Hst' : head_ok (stamp t (st_head st))) by (destruct Hh; by split).
  assert (Hq1 : queue_sim (jobs a) s1) by (apply (queue_sim_ext _ s); [apply (ns_jobs _ _ Hs)|done..]).
  pose proof (ns_batch _ _ Hs) as Hbatch.
  destruct (cutLoop_sim (S (Z.to_nat (m_index b))) b (stamp t (st_head st)) 0 [] (jobs a) s1) as (s2 & Hrun & Hw2 & Hq2 & Hg2);
    [apply Hb|done|done|done|exact Hbatch|lia|rewrite (bi_bytes _ _ Hb), (buf_index _ _ Hb); lia|].
  change (unit_of <$> []) with (@nil (list Z * option (list Z))) in Hrun. change (Z.of_nat 0) with 0 in Hrun. rewrite Hrun, bind_Some_eq. cbv beta iota.
  rewrite (bi_bytes _ _ Hb), drop_0, (buf_index _ _ Hb), Nat2Z.id in *. fold (cutAll (st_in st ++ l)) in *.
  change (unitBatchCount s1) with (unitBatchCount s) in *. unfold spec_feed.
  destruct (cutAll (st_in st ++ l)) as [fs rest] eqn:Er. destruct (cut_join _ _ _ _ Er) as [_ Hj]. cbn [fst snd] in *.
  destruct (spec_groups _ _ _ _) as [g w2]. cbn [fst snd] in *. destruct rest as [rest|]; cbn [fmap option_fmap option_map default] in *.
  - rewrite bool_decide_eq_true_2 by done. destruct (send_sim g w2 s2 Hq2 Hg2) as (s3 & -> & Hw3 & Hq3). rewrite bind_Some_eq.
    specialize (Hj rest eq_refl). set (n := length (mjoin fs)).
    assert (Hn : length (st_in st ++ l) = (n + length rest)%nat) by (by rewrite Hj, length_app).
    replace (Z.of_nat (length (st_in st ++ l)) - Z.of_nat (length rest)) with (Z.of_nat n) by lia.
    destruct (consume_is _ b n Hb Hro) as (b' & m' & -> & Hm & Hb' & Hro'); [lia|]. rewrite bind_Some_eq, Hm, bind_Some_eq.
    eexists _, _. split; [done|]. split; [|split; [|split; [exact Hro'|]]].
    + destruct (put_reads fd c b s s3) as (E1 & E2 & E3 & E4 & E5 & E6); [by eapply works_trans|].
      unfold reads. rewrite connAt_put. cbn [putConn set_conns kern maxFd unitBatchCount aliveFdArray]. split_and!; try done.
      intros fd' Hne. by rewrite connAt_put_ne, E2.
    + by apply (queue_sim_ext _ s3).
    + rewrite Hj in Hb'. unfold n in Hb'. by rewrite drop_app_length in Hb'.
  - rewrite bool_decide_eq_false_2 by (by intros [? ?]). exists s2, b. split; [done|]. split; [by apply put_reads|]. done.
Qed.

Definition set_in (l : list Z) (st : stream) : stream :=
  {| st_head := st_head st; st_in := l; st_wire := st_wire st; st_out := st_out st |}.

Lemma reads_sim a s s' fd st c b l w :
  net_sim a s → 0 <= fd < connNum → streams a !! fd = Some st → fd_sim fd (Some st) c (kern s) → reads fd c b s s' →
  roomy b → buf_is l b → no_request l → queue_sim w s' →
  net_sim {| streams := <[fd := set_in l st]> (streams a); jobs := w |} s'.
Proof.
  intros Hs Hfd Hst [Hl Hr Hro Hw Ht Ho Hwo Hso] (E1 & E2 & E3 & E4 & E5 & _) Hrb Hb Hn Hq.
  apply (sim_change a s fd (Some (set_in l st)) (set_read b c)); try done.
  - rewrite E3. split; try done; [by exists l|]. destruct Hso. by split.
  - rewrite E3. intros; apply same_refl.
  - pose proof (ns_max _ _ Hs). lia.
  - intros _. rewrite E4. by apply (ns_range _ _ Hs).
Qed.

(** After a failed read the connection is closed, whatever its read buffer has. *)
Lemma read_closed a s s1 fd st c b w :
  net_sim a s → 0 <= fd < connNum → fd_sim fd (Some st) c (kern s) → reads fd c b s s1 → (∃ l, buf_is l b) → queue_sim w s1 →
  ∃ s', ('(_, s) ← releaseConn fd (on_kern (sys_wdel fd) (on_kern (sys_rdel fd) s1)); Some s) = Some s' ∧
    net_sim {| streams := delete fd (streams a); jobs := w |} s'.
Proof.
  intros Hs Hfd [Hl Hr Hro Hw [Ht1 Ht2] Ho Hwo Hso] (E1 & E2 & E3 & E4 & E5 & _) Hb Hq.
  destruct (release_from a s (on_kern (sys_wdel fd) (on_kern (sys_rdel fd) s1)) fd (set_read b c) w) as (s' & Hrun & Hs' & _); try done.
  - unfold fd_base. cbn [set_read m_lock m_readBuf m_writeBuf m_connHead on_kern set_kern kern sys_wdel sys_rdel fds w_epoll]. rewrite E3.
    split_and!; try done. intros [? _]%elem_of_difference. auto.
  - cbn [on_kern set_kern kern]. rewrite E3. intros fd' Hne. eapply same_trans; [apply (same_rdel fd)|by apply same_wdel].
  - by apply (queue_sim_ext _ s1).
  - exists s'. by rewrite Hrun, bind_Some_eq.
Qed.

Lemma set_alive_sim a s fd v : net_sim a s → net_sim a (set_alive fd v s).
Proof. intros [Hc Hr Hmx Hj Hb]. split; [exact Hc|exact Hr|exact Hmx| |exact Hb]. by apply (queue_sim_ext _ s). Qed.

Lemma set_read_id c : set_read (m_readBuf c) c = c.
Proof. by destruct c. Qed.

(** Reading from an open connection: what [readEvent] does with it. *)
Definition readOpen (fd : Z) (res : recv_result) (t : Z * Z) (s : iw_server) : option iw_server :=
  '(ok, s) ← dealEpollIn fd res t s;
  if (ok : bool) then Some s else
  '(_, s) ← releaseConn fd (on_kern (sys_wdel fd) (on_kern (sys_rdel fd) s));
  Some s.

Section ReadOpen.
Context (a : net) (s : iw_server) (fd : Z) (st : stream) (c : net_conn) (res : recv_result) (t : Z * Z).
Context (Hs : net_sim a s) (Hfd : 0 <= fd < connNum) (Hst : streams a !! fd = Some st) (Hc : connAt fd s = Some c)
  (Hf : fd_sim fd (Some st) c (kern s)) (Ht : is_time t).

Lemma read_fail :
  conn_read res c = Some (false, c) →
  ∃ s', readOpen fd res t s = Some s' ∧ net_sim {| streams := delete fd (streams a); jobs := jobs a |} s'.
Proof using Hs Hfd Hc Hf.
  intros Hr. unfold readOpen, dealEpollIn. rewrite Hc, bind_Some_eq, Hr, bind_Some_eq. cbn [negb]. rewrite bind_Some_eq.
  apply (read_closed a s _ fd st c (m_readBuf c)); [done|done|done| |by apply Hf|].
  - apply put_reads. rewrite set_read_id. apply works_refl.
  - apply (queue_sim_ext _ s); [apply (ns_jobs _ _ Hs)|done..].
Qed.

Lemma read_go l b :
  conn_read res c = Some (true, set_read b c) → buf_is (st_in st ++ l) b → roomy b →
  ∃ s', readOpen fd res t s = Some s' ∧
    net_sim (let '(fs, rest) := cutAll (st_in st ++ l) in let fs := pair (stamp t (st_head st)) <$> fs in
      match rest with
      | None => {| streams := delete fd (streams a); jobs := spec_feed (group_size (jobs a)) false fs (jobs a) |}
      | Some rest => {| streams := <[fd := set_in rest st]> (streams a); jobs := spec_feed (group_size (jobs a)) true fs (jobs a) |}
      end) s'.
Proof using Hs Hfd Hst Hc Hf Ht.
  intros Hr Hb Hro. pose proof (fs_stream _ _ _ _ Hf) as Hso. cbn in Hso. unfold readOpen. rewrite <- (qs_batch _ _ (ns_jobs _ _ Hs)).
  destruct (deal_sim a s fd st c b l res t) as (s1 & b' & -> & Hreads & Hq & Hro' & Hb'); try done; [apply Hso..|].
  pose proof (λ fs rest, cut_rest (S (length (st_in st ++ l))) (st_in st ++ l) fs rest (Nat.lt_succ_diag_r _)) as Hcut.
  fold (cutAll (st_in st ++ l)) in Hcut.
  destruct (cutAll (st_in st ++ l)) as [fs [rest|]]; cbn [fst snd default] in *; cbv beta iota zeta; rewrite bind_Some_eq.
  - rewrite bool_decide_eq_true_2 in * by done. exists s1. split; [done|]. eapply reads_sim; try done. by eapply Hcut.
  - rewrite bool_decide_eq_false_2 in * by (by intros [? ?]). eapply read_closed; try done. by eexists.
Qed.

Lemma read_open :
  (∀ l, res = Received l → Z.of_nat (length l) <= NBuffer_getFreeLen (m_readBuf c)) →
  ∃ s', readOpen fd res t s = Some s' ∧ net_sim (spec_read fd res t a) s'.
Proof using Hs Hfd Hst Hc Hf Ht.
  intros Hal. unfold spec_read. rewrite Hst. pose proof (fs_stream _ _ _ _ Hf) as Hso. cbn in Hso.
  assert (Hidx : (sock_index (m_connHead c) <? 0) = false).
  { apply Z.ltb_ge. rewrite (so_head _ _ _ _ Hso), (so_fd _ _ _ _ Hso). lia. }
  destruct res as [[|x l]| |] eqn:Eres; rewrite <- Eres in *.
  - apply read_fail. unfold conn_read. by rewrite Hidx, Eres.
  - destruct (received_is _ _ (x :: l) (so_in _ _ _ _ Hso) (Hal _ Eres)) as (m & b & Hp & Ha & Hb & Hro).
    apply (read_go (x :: l) b); [|done|done]. unfold conn_read. by rewrite Hidx, Eres, Hp, bind_Some_eq, Ha, bind_Some_eq.
  - destruct (read_go [] (m_readBuf c)) as (s' & Hrun & Hs').
    { unfold conn_read. by rewrite Hidx, Eres, set_read_id. } { rewrite app_nil_r. apply Hso. } { apply Hf. }
    exists s'. split; [done|]. rewrite app_nil_r, (so_cut _ _ _ _ Hso) in Hs'. cbn [fmap list_fmap] in Hs'. unfold spec_feed in Hs'. cbn [spec_groups] in Hs'.
    rewrite insert_id in Hs' by (by rewrite Hst; destruct st). by destruct a.
  - apply read_fail. unfold conn_read. by rewrite Hidx, Eres.
Qed.
End ReadOpen.

Lemma read_sim a s fd res t :
  net_sim a s → allowed (EvRead fd res t) s →
  ∃ s', readEvent fd res t s = Some s' ∧ net_sim (spec_read fd res t a) s'.
Proof.
  intros Hs [Ht Hal]. unfold readEvent. destruct ((fd <? 0) || (connNum <=? fd)) eqn:Er.
  { assert (Hout : ¬ (0 <= fd < connNum)) by (apply orb_true_iff in Er as [E|E]; bool_cases; lia).
    eexists. split; [done|]. unfold spec_read. destruct (streams a !! fd) as [st|] eqn:Est; [destruct Hout; apply (ns_range _ _ Hs); by rewrite Est|].
    apply sim_kern; [done|]. intros fd' Hfd'. apply same_close. by intros ->. }
  apply orb_false_elim in Er as [E1 E2]. bool_cases. assert (Hfd : 0 <= fd < connNum) by lia.
  unfold getExistConn. rewrite (proj2 (Z.ltb_ge _ _)), (proj2 (Z.leb_gt _ _)) by lia. cbn [orb].
  destruct (ns_conns _ _ Hs fd Hfd) as (c & Hc & Hf). rewrite Hc, !bind_Some_eq. pose proof (fs_stream _ _ _ _ Hf) as Hso.
  destruct (streams a !! fd) as [st|] eqn:Est.
  - pose proof (so_fd _ _ _ _ Hso) as Hi. rewrite <- (so_head _ _ _ _ Hso) in Hi. rewrite Hi, Z.eqb_refl, (so_type _ _ _ _ Hso).
    apply (read_open a (set_alive fd 0 s) fd st c res t); try done; [by apply set_alive_sim|]. intros l ->. by apply (Hal l c).
  - unfold spec_read. rewrite Est. destruct Hso as [[Hi Hty]|[Hi Hty]]; rewrite Hi.
    + rewrite (proj2 (Z.eqb_neq _ _)) by lia. eexists. split; [done|]. apply (sim_fds a s fd); [done| |].
      * intros _. split; [done|]. split; [by intros [_ []%not_elem_of_singleton]%elem_of_difference|]. intros c' Hc'. rewrite Hc in Hc'. by injection Hc' as <-.
      * intros fd' Hne. eapply same_trans; [apply (same_rdel fd)|by apply same_close].
    + rewrite Z.eqb_refl, Hty. by exists s.
Qed.

(** ** Answers *)

Lemma copyBuf_is l b buf :
  buf_is l b → 0 < Z.of_nat (length buf) < 2 ^ 30 →
  let ok := Z.of_nat (length l) + Z.of_nat (length buf) <=? nbmax in
  ∃ b', copyBuf b buf = Some (ok, b') ∧ buf_is (if ok then l ++ buf else l) b'.
Proof.
  intros Hb Hlen. cbv zeta. unfold copyBuf. rewrite (free_len l b Hb). set (len := Z.of_nat (length buf)) in *.
  assert (∃ b', (if m_len b - Z.of_nat (length l) <? len then NBuffer_expand b len else Some b) = Some b' ∧ buf_is l b' ∧
    (len <= m_len b' - Z.of_nat (length l) ∨ m_len b' = nbmax)) as (b' & -> & Hb' & Hor).
  { destruct (_ <? len) eqn:E; bool_cases; [|exists b; split; [done|]; split; [done|]; lia].
    destruct (expand_is l b len Hb Hlen) as (b' & -> & Hb' & Hor). exists b'. split; [done|]. split; [done|].
    destruct (bi_inv _ _ Hb) as [? _ _ _ _]. rewrite (buf_index _ _ Hb) in *. lia. }
  rewrite bind_Some_eq, (free_len l b' Hb'). pose proof (buf_index _ _ Hb') as Hx. destruct Hb' as [[Hi Hbl Hp Hm Hl] Hmax Hlm Hc].
  destruct (Z.ltb_spec (m_len b' - Z.of_nat (length l)) len) as [Hlt|Hge].
  - rewrite (proj2 (Z.leb_gt _ _)) by lia. exists b'. done.
  - rewrite (proj2 (Z.leb_le _ _)) by lia. rewrite poke_Some by lia. rewrite bind_Some_eq. eexists. split; [done|].
    split; [split; cbn [m_buf m_len m_index m_maxBufLen]; try lia; rewrite !length_app, length_take, length_drop; lia|done|done|].
    unfold collected. cbn [m_buf m_index]. rewrite app_assoc, take_app_le by (rewrite length_app, length_take; lia).
    rewrite take_ge by (rewrite length_app, length_take; lia). by rewrite <- Hc.
Qed.

(** A connection with other bytes to be sent. *)
Lemma out_sim fd st c k k' b w o :
  fd_sim fd (Some st) c k → buf_is o b → (fd ∈ fds k ↔ fd ∈ fds k') → wire k' !! fd = Some w → (fd ∈ w_epoll k' ↔ o ≠ []) →
  fd_sim fd (Some {| st_head := st_head st; st_in := st_in st; st_wire := w; st_out := o |}) (set_write b c) k'.
Proof.
  intros [Hl Hr Hro Hw Ht Ho Hwo Hso] Hb Hfds Hwi Hep. cbn in Hso. destruct Hso.
  assert (Hin : fd ∈ fds k).
  { apply Ho. rewrite so_head, so_fd. destruct so_hok. rewrite so_fd in ho_index. lia. }
  split; try done; [by exists o| |].
  - intros Hne. rewrite <- Hfds. by apply Ho.
  - intros _. by apply Hfds.
Qed.

Lemma set_write_id c : set_write (m_writeBuf c) c = c.
Proof. by destruct c. Qed.

Lemma conn_send_sim fd st c k buf res :
  fd_sim fd (Some st) c k → 0 < Z.of_nat (length buf) <= nbmax → sent_ok (length buf) res →
  ∃ ret c' k', conn_send buf res c k = Some (ret, c', k') ∧ fd_sim fd (Some (spec_put buf res st)) c' k' ∧
    ∀ fd', fd' ≠ fd → same_at fd' k k'.
Proof.
  intros Hf Hlen Hres. pose proof (fs_stream _ _ _ _ Hf) as Hso. cbn in Hso. destruct Hso as [_ Hhd _ Hfd _ _ Hout Hwi Hep].
  unfold nbmax, DEFAULT_MAX_NBUFFER_SIZE in Hlen. unfold conn_send, spec_put. rewrite Hhd, Hfd, (buf_index _ _ Hout).
  destruct (st_out st) as [|x o] eqn:Eo.
  - cbn [length Z.of_nat Z.ltb Z.compare]. assert (Hno : fd ∉ w_epoll k) by (intros H; by apply Hep in H).
    assert (Hrest : ∀ k' w buf', (fd ∈ fds k ↔ fd ∈ fds k') → w_epoll k' = w_epoll k → wire k' !! fd = Some w → (∀ fd', fd' ≠ fd → same_at fd' k k') →
      0 < Z.of_nat (length buf') <= Z.of_nat (length buf) →
      ∃ ret c' k'', ('(_, b) ← copyBuf (m_writeBuf c) buf';
        Some (if bool_decide (fd ∈ w_epoll k') then (-1, set_write b c, k') else (0, set_write b c, sys_wadd fd k'))) = Some (ret, c', k'') ∧
      fd_sim fd (Some {| st_head := st_head st; st_in := st_in st; st_wire := w; st_out := buf' |}) c' k'' ∧ ∀ fd', fd' ≠ fd → same_at fd' k k'').
    { intros k' w buf' Hfds He Hw Hsame Hl'. destruct (copyBuf_is [] _ buf' Hout) as (b & -> & Hb); [lia|]. rewrite bind_Some_eq.
      rewrite He, bool_decide_eq_false_2 by done. unfold nbmax, DEFAULT_MAX_NBUFFER_SIZE in Hb. rewrite (proj2 (Z.leb_le _ _)) in Hb by (cbn [length]; lia).
      do 3 eexists. split; [done|]. split.
      - apply (out_sim fd st c k); try done. cbn [sys_wadd w_epoll]. split; [intros _ ->; cbn in Hl'; lia|]. intros _. apply elem_of_union_r. by apply elem_of_singleton.
      - intros fd' Hne. eapply same_trans; [by apply Hsame|by apply same_wadd]. }
    destruct res as [n| |]; cbn [sent_ok] in Hres.
    + assert (Hw : wire (sys_sent fd (take n buf) k) !! fd = Some (st_wire st ++ take n buf)).
      { cbn [sys_sent wire]. by rewrite lookup_insert_eq, Hwi. }
      destruct (decide (n < length buf)%nat) as [Hlt|Hge].
      * apply Hrest; try done; [|rewrite length_drop; lia]. intros. by apply same_sent.
      * do 3 eexists. split; [done|]. split; [|intros; by apply same_sent]. rewrite <- (set_write_id c).
        rewrite drop_ge by lia. by apply (out_sim fd st c k).
    + apply Hrest; try done. lia.
    + do 3 eexists. split; [done|]. split; [done|]. intros; apply same_refl.
  - cbn [length]. rewrite (proj2 (Z.ltb_lt _ _)) by lia. destruct (copyBuf_is _ _ buf Hout) as (b & -> & Hb); [lia|]. rewrite bind_Some_eq.
    do 3 eexists. split; [done|]. split; [|intros; apply same_refl].
    destruct (_ <=? nbmax); [by apply (out_sim fd st c k); try done; rewrite Hep|].
    replace st with {| st_head := st_head st; st_in := st_in st; st_wire := st_wire st; st_out := x :: o |} by (rewrite <- Eo; by destruct st).
    by apply (out_sim fd st c k).
Qed.

Lemma range_cases fd : ((fd <? 0) || (connNum <=? fd) = true ∧ ¬ (0 <= fd < connNum)) ∨ ((fd <? 0) || (connNum <=? fd) = false ∧ 0 <= fd < connNum).
Proof.
  destruct ((fd <? 0) || (connNum <=? fd)) eqn:E; [left|right]; (split; [done|]).
  - apply orb_true_iff in E as [E|E]; bool_cases; lia.
  - apply orb_false_elim in E as [E1 E2]. bool_cases. lia.
Qed.

Lemma out_of_range a s fd : net_sim a s → ¬ (0 <= fd < connNum) → streams a !! fd = None.
Proof. intros Hs Hout. destruct (streams a !! fd) as [st|] eqn:E; [|done]. destruct Hout. apply (ns_range _ _ Hs). by rewrite E. Qed.

(** One connection is changed by what it sends. *)
Lemma sent_sim a s fd st c k :
  net_sim a s → 0 <= fd < connNum → is_Some (streams a !! fd) → fd_sim fd (Some st) c k → (∀ fd', fd' ≠ fd → same_at fd' (kern s) k) →
  net_sim {| streams := <[fd := st]> (streams a); jobs := jobs a |} (putConn fd c (set_kern k s)).
Proof.
  intros Hs Hfd Hst Hf Hsame. eapply (sim_update a s fd (Some st) c k); try done.
  - pose proof (ns_max _ _ Hs). cbn. lia.
  - intros _. by apply (ns_range _ _ Hs).
  - apply (queue_sim_ext _ s); [apply (ns_jobs _ _ Hs)|done..].
Qed.

Lemma answer_sim a s index create buf res :
  net_sim a s → allowed (EvAnswer index create buf res) s →
  ∃ s', net_exec (EvAnswer index create buf res) s = Some s' ∧ net_sim (spec_answer index create buf res a) s'.
Proof.
  intros Hs (Hlen & Hres & Hlis). cbn [net_exec]. unfold sendResponse, spec_answer. set (fd := i32 index) in *. cbv zeta.
  destruct (range_cases fd) as [[Er Hout]|[Er Hfd]].
  { unfold lockConn. rewrite Er, bind_Some_eq. cbn [negb]. rewrite (out_of_range a s fd Hs Hout). by exists s. }
  rewrite (lock_ok a s fd Hs Hfd), bind_Some_eq. cbn [negb]. unfold getExistConn. rewrite Er.
  destruct (ns_conns _ _ Hs fd Hfd) as (c & Hc & Hf). rewrite Hc, !bind_Some_eq. pose proof (fs_stream _ _ _ _ Hf) as Hso.
  destruct (streams a !! fd) as [st|] eqn:Est.
  - pose proof (so_fd _ _ _ _ Hso) as Hi. rewrite <- (so_head _ _ _ _ Hso) in Hi. rewrite Hi, Z.eqb_refl, (so_head _ _ _ _ Hso).
    destruct (_ =? u32 create); cbn [negb]; [|by exists s].
    destruct (conn_send_sim fd st c (kern s) buf res Hf Hlen Hres) as (ret & c' & k' & -> & Hf' & Hsame). rewrite bind_Some_eq. cbv beta iota.
    pose proof (sent_sim a s fd _ c' k' Hs Hfd (ltac:(by rewrite Est)) Hf' Hsame) as Hs'.
    destruct (ret =? -1); eexists; (split; [done|]); [|done]. apply sim_kern; [done|]. intros. apply same_shutdown.
  - destruct Hso as [[Hi Hty]|[_ Hty]]; [|by destruct (Hlis c Hc)]. rewrite (proj2 (Z.eqb_neq _ _)) by (rewrite Hi; lia). by exists s.
Qed.

Lemma shrink_is l b n : buf_is l b → (n < length l)%nat → ∃ b', shrinkFromFront b (Z.of_nat n) = Some b' ∧ buf_is (drop n l) b'.
Proof.
  intros Hb Hn. pose proof (bi_inv _ _ Hb) as [Hi Hbl _ _ _]. pose proof (buf_index _ _ Hb) as Hx. unfold shrinkFromFront.
  rewrite Hx, (proj2 (Z.ltb_lt 0 _)) by lia. rewrite Hx in Hi. destruct n as [|n].
  - rewrite peek_prefix, bind_Some_eq, poke_zero_front, bind_Some_eq by (rewrite ?length_take; lia). eexists. split; [done|].
    rewrite drop_0, length_take, Nat.min_l by lia. rewrite take_drop, (bi_max _ _ Hb).
    replace (Z.of_nat (length l) - Z.of_nat 0) with (Z.of_nat (length l)) by lia. by rewrite <- (buf_eta _ _ Hb).
  - pose proof Hb as Hb2. rewrite (buf_eta _ _ Hb) in Hb2. destruct (moved_is _ _ _ (S n) Hb2) as (m' & Hm & Hb'); [lia|].
    rewrite (proj2 (Z.ltb_lt 0 (Z.of_nat (S n)))), (proj2 (Z.ltb_lt 0 _)) in Hm by lia. cbn [andb] in Hm.
    rewrite Hm, bind_Some_eq, (bi_max _ _ Hb). by eexists.
Qed.

Lemma flush_sim fd st c k n :
  fd_sim fd (Some st) c k → st_out st ≠ [] → (n <= length (st_out st))%nat →
  ∀ s, kern s = k → ∃ c' k' s', dealEpollOut fd (SentBytes n) c s = Some (true, s') ∧
    s' = putConn fd c' (set_kern k' s) ∧ (∀ fd', fd' ≠ fd → same_at fd' k k') ∧
    fd_sim fd (Some {| st_head := st_head st; st_in := st_in st; st_wire := st_wire st ++ take n (st_out st); st_out := drop n (st_out st) |}) c' k'.
Proof.
  intros Hf Hne Hn s Hk. pose proof (fs_stream _ _ _ _ Hf) as Hso. cbn in Hso. destruct Hso as [_ _ _ _ _ _ Hout Hwi Hep].
  pose proof (buf_index _ _ Hout) as Hx. assert (Hpos : (0 < length (st_out st))%nat) by (destruct (st_out st); [done|simpl; lia]).
  unfold dealEpollOut. rewrite Hx, (proj2 (Z.ltb_lt _ _)) by lia. cbn [negb]. rewrite peek_collected by (apply Hout || lia).
  rewrite bind_Some_eq, (bi_bytes _ _ Hout), Nat2Z.id. change (Z.to_nat 0) with 0%nat. rewrite drop_0, firstn_all. cbv zeta.
  assert (Hw : wire (sys_sent fd (take n (st_out st)) k) !! fd = Some (st_wire st ++ take n (st_out st))).
  { cbn [sys_sent wire]. by rewrite lookup_insert_eq, Hwi. }
  destruct (Z.ltb_spec (Z.of_nat n) (Z.of_nat (length (st_out st)))) as [Hlt|Hge].
  - destruct (shrink_is _ _ n Hout) as (b & -> & Hb); [lia|].
    rewrite bind_Some_eq. exists (set_write b c), (sys_sent fd (take n (st_out st)) k). eexists. split; [done|].
    split; [unfold on_kern; by rewrite Hk|]. split; [intros; by apply same_sent|]. apply (out_sim fd st c k); try done.
    cbn [sys_sent w_epoll]. rewrite Hep. split; [|done]. intros _ E. apply (f_equal length) in E. rewrite length_drop in E. cbn in E. lia.
  - exists (set_write (Build_nbuffer (m_buf (m_writeBuf c)) (m_len (m_writeBuf c)) 0 (m_maxBufLen (m_writeBuf c))) c),
      (sys_wdel fd (sys_sent fd (take n (st_out st)) k)). eexists. split; [done|]. split; [unfold on_kern; by rewrite Hk|].
    split; [intros fd' Hne'; eapply same_trans; [by apply same_sent|by apply same_wdel]|]. rewrite (drop_ge _ n) by lia.
    apply (out_sim fd st c k); try done.
    + destruct Hout as [[Hi Hb Hp Hm Hl] Hmax Hlm Hc]. split; [split; cbn [m_buf m_len m_index m_maxBufLen]; lia|done|done|done].
    + cbn. split; [intros [_ []%not_elem_of_singleton]%elem_of_difference; done|done].
Qed.

Lemma writable_sim a s fd res :
  net_sim a s → allowed (EvWritable fd res) s → ∃ s', writeEvent fd res s = Some s' ∧ net_sim (spec_flush fd res a) s'.
Proof.
  intros Hs Hal. cbn [allowed] in Hal. unfold writeEvent, spec_flush. destruct (range_cases fd) as [[Er Hout]|[Er Hfd]]; rewrite Er.
  { eexists. split; [done|]. rewrite (out_of_range a s fd Hs Hout). apply (sim_kern a s); [done|]. intros fd' Hfd'. assert (fd' ≠ fd) by (by intros ->).
    eapply same_trans; [by apply (same_wdel fd)|by apply same_close]. }
  rewrite (lock_ok a s fd Hs Hfd), bind_Some_eq. unfold getExistConn. rewrite Er.
  destruct (ns_conns _ _ Hs fd Hfd) as (c & Hc & Hf). rewrite Hc, !bind_Some_eq. pose proof (fs_stream _ _ _ _ Hf) as Hso.
  destruct (streams a !! fd) as [st|] eqn:Est.
  - pose proof (so_fd _ _ _ _ Hso) as Hi. rewrite <- (so_head _ _ _ _ Hso) in Hi. rewrite Hi, Z.eqb_refl, (so_type _ _ _ _ Hso).
    pose proof (so_out _ _ _ _ Hso) as Hout. specialize (Hal c Hc). rewrite (buf_index _ _ Hout), Nat2Z.id in Hal.
    destruct (st_out st) as [|x o] eqn:Eo.
    { unfold dealEpollOut. rewrite (buf_index _ _ Hout). exists s. split; [done|].
      destruct res as [n| |]; try done. rewrite take_nil, drop_nil, app_nil_r, insert_id; [by destruct a|]. rewrite Est, <- Eo. by destruct st. }
    destruct res as [n| |].
    + cbn [sent_ok] in Hal. rewrite <- Eo in Hal. destruct (flush_sim fd st c (kern s) n Hf) with s as (c' & k' & s' & -> & -> & Hsame & Hf'); [by rewrite Eo|done|done|].
      rewrite bind_Some_eq. rewrite <- Eo. eexists. split; [done|]. apply sent_sim; [done|done|by rewrite Est|done|done].
    + unfold dealEpollOut. rewrite (buf_index _ _ Hout), (proj2 (Z.ltb_lt _ _)) by (simpl; lia). by exists s.
    + unfold dealEpollOut. rewrite (buf_index _ _ Hout), (proj2 (Z.ltb_lt _ _)) by (simpl; lia). eexists. split; [done|].
      apply sim_kern; [done|]. intros. apply same_shutdown.
  - destruct Hso as [[Hi Hty]|[Hi Hty]]; rewrite Hi.
    + rewrite (proj2 (Z.eqb_neq _ _)) by lia. eexists. split; [done|]. apply (sim_fds a s fd); [done| |intros; by apply same_wdel].
      intros _. split; [done|]. split; [by intros [_ []%not_elem_of_singleton]%elem_of_difference|]. intros c' Hc'. rewrite Hc in Hc'. by injection Hc' as <-.
    + rewrite Z.eqb_refl, Hty. by exists s.
Qed.

(** ** The idle check *)

Lemma checkFd_sim a s fd :
  net_sim a s → 0 <= fd < connNum →
  ∃ s', checkFd fd s = Some s' ∧ maxFd s' = maxFd s ∧ lastCheckTimeout s' = lastCheckTimeout s ∧ unitBatchCount s' = unitBatchCount s ∧
    let m := if aliveFdArray s fd =? 0 then streams a else delete fd (streams a) in
    net_sim {| streams := m; jobs := jobs a |} s' ∧
    aliveFdArray s' fd = (match m !! fd with Some _ => 1 | None => 0 end) ∧ ∀ fd', fd' ≠ fd → aliveFdArray s' fd' = aliveFdArray s fd'.
Proof.
  intros Hs Hfd. destruct (ns_conns _ _ Hs fd Hfd) as (c & Hc & Hf). pose proof (fs_stream _ _ _ _ Hf) as Hso.
  unfold checkFd. rewrite Hc, bind_Some_eq. cbv zeta.
  destruct (streams a !! fd) as [st|] eqn:Est.
  - rewrite (so_type _ _ _ _ Hso), bool_decide_eq_true_2 by done. rewrite andb_true_r. destruct (aliveFdArray s fd =? 0) eqn:Ea; cbn [negb].
    + rewrite bind_Some_eq, Hc, bind_Some_eq, (so_type _ _ _ _ Hso), decide_True by done. eexists. split; [done|]. split_and!; try done.
      * apply set_alive_sim. by destruct a.
      * rewrite Est. apply fn_lookup_insert.
      * intros fd' Hne. by apply fn_lookup_insert_ne.
    + pose proof (so_fd _ _ _ _ Hso) as Hi. rewrite <- (so_head _ _ _ _ Hso) in Hi.
      unfold getExistConn. rewrite (proj2 (Z.ltb_ge _ _)), (proj2 (Z.leb_gt _ _)) by lia. cbn [orb].
      change (connAt fd (on_kern (sys_wdel fd) (on_kern (sys_rdel fd) s))) with (connAt fd s). rewrite Hc, !bind_Some_eq, Hi, Z.eqb_refl.
      set (s1 := on_kern (sys_wdel fd) (on_kern (sys_rdel fd) s)).
      destruct (release_from a s s1 fd c (jobs a)) as (s2 & -> & Hs2 & Hm2 & Ha2 & Hl2 & Hu2); try done.
      { apply fd_sim_base in Hf. destruct Hf as (H1 & H2 & H3 & H4 & H5 & H6). unfold fd_base. split_and!; try done; try apply H4.
        cbn. intros [? _]%elem_of_difference. auto. }
      { intros fd' Hne. eapply same_trans; [apply (same_rdel fd)|by apply same_wdel]. }
      { apply (queue_sim_ext _ s); [apply (ns_jobs _ _ Hs)|done..]. }
      rewrite !bind_Some_eq. cbv beta iota. rewrite ?bind_Some_eq. destruct (ns_conns _ _ Hs2 fd Hfd) as (c2 & -> & Hf2). rewrite bind_Some_eq.
      pose proof (fs_stream _ _ _ _ Hf2) as Hso2. cbn [streams] in Hso2. rewrite lookup_delete_eq in Hso2 |- *.
      rewrite decide_False by (destruct Hso2 as [[_ ->]|[_ ->]]; done). eexists. split; [done|]. split_and!; try done.
      * by apply set_alive_sim.
      * apply fn_lookup_insert.
      * intros fd' Hne. cbn [set_alive aliveFdArray]. rewrite fn_lookup_insert_ne by done. rewrite Ha2. by apply fn_lookup_insert_ne.
  - assert (Hty : m_socketType c ≠ SocketServerConn) by (destruct Hso as [[_ ->]|[_ ->]]; done).
    rewrite bool_decide_eq_false_2, andb_false_r by done. rewrite bind_Some_eq, Hc, bind_Some_eq, decide_False by done.
    rewrite delete_id by done. replace (if aliveFdArray s fd =? 0 then streams a else streams a) with (streams a) by (by destruct (_ =? 0)).
    rewrite Est. eexists. split; [done|]. split_and!; try done.
    + apply set_alive_sim. by destruct a.
    + apply fn_lookup_insert.
    + intros fd' Hne. by apply fn_lookup_insert_ne.
Qed.

(** The connections in [fds] that were not marked stay. *)
Definition unmarked (l : list Z) (alive : Z → Z) (m : gmap Z stream) : gmap Z stream :=
  filter (λ p, p.1 ∉ l ∨ alive p.1 = 0) m.

Lemma check_all a s l :
  net_sim a s → NoDup l → (∀ fd, fd ∈ l → 0 <= fd < connNum) →
  ∃ s', foldl (λ os fd, s ← os; checkFd fd s) (Some s) l = Some s' ∧ lastCheckTimeout s' = lastCheckTimeout s ∧
    unitBatchCount s' = unitBatchCount s ∧ net_sim {| streams := unmarked l (aliveFdArray s) (streams a); jobs := jobs a |} s' ∧
    (∀ fd, fd ∈ l → is_Some (unmarked l (aliveFdArray s) (streams a) !! fd) → aliveFdArray s' fd = 1) ∧
    (∀ fd, (fd ∉ l) → aliveFdArray s' fd = aliveFdArray s fd).
Proof.
  revert a s. induction l as [|fd l IH]; intros a s Hs Hnd Hr.
  { exists s. split_and!; try done; [|by intros fd ?%elem_of_nil]. unfold unmarked. rewrite map_filter_id; [by destruct a|].
    intros i x Hx. left. apply not_elem_of_nil. }
  apply list.NoDup_cons in Hnd as [Hni Hnd].
  destruct (checkFd_sim a s fd Hs) as (s1 & H1 & Hm1 & Hl1 & Hu1 & Hs1 & Ha1 & Ho1); [apply Hr; by left|].
  cbn [foldl]. rewrite bind_Some_eq, H1.
  destruct (IH _ s1 Hs1 Hnd) as (s2 & -> & Hl2 & Hu2 & Hs2 & Ha2 & Ho2); [intros; apply Hr; by right|].
  cbn [streams jobs] in *.
  assert (Heq : unmarked l (aliveFdArray s1) (if aliveFdArray s fd =? 0 then streams a else delete fd (streams a)) =
    unmarked (fd :: l) (aliveFdArray s) (streams a)).
  { apply map_eq. intros i. apply option_eq. intros x. unfold unmarked. rewrite !map_lookup_filter_Some, not_elem_of_cons. cbn [fst].
    destruct (decide (i = fd)) as [->|Hne].
    - destruct (Z.eqb_spec (aliveFdArray s fd) 0) as [E|E]; [|rewrite lookup_delete_eq]; intuition congruence.
    - rewrite Ho1 by done. destruct (aliveFdArray s fd =? 0); [|rewrite lookup_delete_ne by done]; intuition congruence. }
  rewrite Heq in *. exists s2. split; [done|]. split; [congruence|]. split; [congruence|]. split; [done|]. split.
  - intros i Hi Hsome. apply elem_of_cons in Hi as [->|Hi]; [|by apply Ha2]. rewrite Ho2 by done. rewrite Ha1.
    unfold unmarked in Hsome. destruct Hsome as [x Hx]. rewrite map_lookup_filter_Some in Hx. destruct Hx as [Hx Hor]. cbn in Hor.
    rewrite not_elem_of_cons in Hor. destruct Hor as [[? _]|E]; [done|]. rewrite (proj2 (Z.eqb_eq _ _)) by done. by rewrite Hx.
  - intros i Hi. apply not_elem_of_cons in Hi as [Hne Hi]. rewrite Ho2 by done. by apply Ho1.
Qed.

(** A check that is due closes exactly the connections that were marked, and marks the others. *)
Lemma check_due a s t :
  net_sim a s → keepAliveTime <= Z.abs (t - lastCheckTimeout s) →
  ∃ s', checkFdTimeOut t s = Some s' ∧ lastCheckTimeout s' = t ∧
    net_sim {| streams := filter (λ p, aliveFdArray s p.1 = 0) (streams a); jobs := jobs a |} s' ∧
    ∀ fd, is_Some (streams a !! fd) → aliveFdArray s fd = 0 → aliveFdArray s' fd = 1.
Proof.
  intros Hs Hdue. unfold checkFdTimeOut. rewrite (proj2 (Z.ltb_ge _ _)) by done. pose proof (ns_max _ _ Hs) as Hmx.
  assert (Hs0 : net_sim a (set_checked t s)).
  { destruct Hs as [Hc Hr Hm Hj Hb]. split; [exact Hc|exact Hr|exact Hm| |exact Hb]. by apply (queue_sim_ext _ s). }
  destruct (check_all a (set_checked t s) (seqZ 0 (maxFd s + 1)) Hs0) as (s' & -> & Hl & _ & Hs' & Ha & _);
    [apply NoDup_seqZ|intros fd Hfd%elem_of_seqZ; lia|].
  assert (Heq : unmarked (seqZ 0 (maxFd s + 1)) (aliveFdArray s) (streams a) = filter (λ p, aliveFdArray s p.1 = 0) (streams a)).
  { apply map_filter_ext. intros i x Hx. cbn [fst]. destruct (ns_range _ _ Hs i) as [Hr Hle]; [by eexists|]. rewrite elem_of_seqZ.
    split; [intros [H|H]; [lia|done]|by right]. }
  cbn [set_checked aliveFdArray] in *. rewrite Heq in *. exists s'. split; [done|]. split; [done|]. split; [done|].
  intros fd [st Hst] H0. destruct (ns_range _ _ Hs fd) as [Hr Hle]; [by eexists|]. apply Ha; [apply elem_of_seqZ; lia|].
  exists st. apply map_lookup_filter_Some. done.
Qed.

Lemma check_sim a s t :
  net_sim a s → ∃ s' (closed : gset Z), checkFdTimeOut t s = Some s' ∧
    net_sim {| streams := filter (λ p, p.1 ∉ closed) (streams a); jobs := jobs a |} s'.
Proof.
  intros Hs. destruct (Z_lt_le_dec (Z.abs (t - lastCheckTimeout s)) keepAliveTime) as [Hlt|Hge].
  - exists s, ∅. unfold checkFdTimeOut. rewrite (proj2 (Z.ltb_lt _ _)) by done. split; [done|].
    rewrite map_filter_id; [by destruct a|]. intros i x _. apply not_elem_of_empty.
  - destruct (check_due a s t Hs Hge) as (s' & -> & _ & Hs' & _).
    set (closed := filter (λ fd, aliveFdArray s fd ≠ 0) (dom (streams a))). exists s', closed. split; [done|].
    assert (Heq : filter (λ p, p.1 ∉ closed) (streams a) = filter (λ p, aliveFdArray s p.1 = 0) (streams a)); [|by rewrite Heq].
    apply map_filter_ext. intros i x Hx. cbn [fst]. unfold closed. rewrite elem_of_filter, elem_of_dom, Hx. split; [|intros ->; by intros [? _]].
    intros Hn. destruct (decide (aliveFdArray s i = 0)) as [|H]; [done|]. destruct Hn. split; [done|by eexists].
Qed.
