(* ===== verification/NetRun.v ===== *)
(** * Runs of the network server

    The server from its start on, with any events in any order; what its clients can rely on. *)
From stdpp Require Import functions.
From S2P Require Import Prelude Buffers BufferSpec NetBuffers RingQueue RingSpec NetServer NetSpec NetSim.

(** ** Runs *)

Inductive net_runs : iw_server → list net_event → iw_server → Prop :=
| nr_nil s : net_runs s [] s
| nr_cons s e s1 es s2 : allowed e s → net_exec e s = Some s1 → net_runs s1 es s2 → net_runs s (e :: es) s2.

Inductive spec_runs : net → list net_event → net → Prop :=
| sr_nil a : spec_runs a [] a
| sr_cons a e a1 es a2 : spec_step a e a1 → spec_runs a1 es a2 → spec_runs a (e :: es) a2.

Lemma step_sim a s e :
  net_sim a s → allowed e s → ∃ s' a', net_exec e s = Some s' ∧ spec_step a e a' ∧ net_sim a' s'.
Proof.
  intros Hs Hal. destruct e as [proto acc flags added now|fd res t| |index create buf res|fd res|t].
  - destruct (accept_sim a s proto acc flags added now Hs Hal) as (s' & Hr & Hs'). eauto using spec_step.
  - destruct (read_sim a s fd res t Hs Hal) as (s' & Hr & Hs'). eauto using spec_step.
  - destruct (worker_sim _ _ (ns_jobs _ _ Hs)) as (s' & Hr & Hw & Hq). do 2 eexists. split; [done|]. split; [constructor|].
    destruct Hs as [Hc Hrg Hm _ Hb]. destruct Hw as (q & t & d & ->). by split.
  - destruct (answer_sim a s index create buf res Hs Hal) as (s' & Hr & Hs'). eauto using spec_step.
  - destruct (writable_sim a s fd res Hs Hal) as (s' & Hr & Hs'). eauto using spec_step.
  - destruct (check_sim a s t Hs) as (s' & closed & Hr & Hs'). eauto using spec_step.
Qed.

Lemma net_runs_sim a s es s' : net_sim a s → net_runs s es s' → ∃ a', spec_runs a es a' ∧ net_sim a' s'.
Proof.
  intros Hs Hr. revert a Hs. induction Hr as [s|s e s1 es s2 Hal He _ IH]; intros a Hs; [by exists a; split; [constructor|]|].
  destruct (step_sim a s e Hs Hal) as (s1' & a1 & He' & Hst & Hs1). rewrite He in He'. injection He' as <-.
  destruct (IH a1 Hs1) as (a2 & Hr2 & Hs2). exists a2. split; [|done]. by econstructor.
Qed.

(** The contract of a server that was just started. *)
Definition no_net (batch : Z) (w : list nat) : net :=
  {| streams := ∅; jobs := {| group_size := batch; waiting := []; turns := w; served := []; lost := [] |} |}.

Lemma conn_new_sim fd k : (fd ∈ w_epoll k → fd ∈ fds k) → ∃ c, conn_new = Some c ∧ fd_sim fd None c k ∧ sock_index (m_connHead c) = -1 ∧ m_socketType c = SocketNotInit ∧ m_init c = false.
Proof.
  intros Hk. assert (∃ b, NBuffer_new DEFAULT_MAX_NBUFFER_SIZE = Some b ∧ buf_is [] b ∧ m_index b = 0) as (b & Hb & Hbi & Hx).
  { eexists. split; [vm_compute; reflexivity|]. split; [|done]. split; [split; vm_compute; done|done|vm_compute; done|done]. }
  unfold conn_new. rewrite Hb, bind_Some_eq. eexists. split; [done|]. split; [|done].
  split; try done; [by exists []|by left|by exists []|by left].
Qed.

Lemma start_sim listenfd proto batch mem alive now checked w s :
  0 < batch → queueBytes <= Z.of_nat (length mem) → IwServer_initialize listenfd proto batch mem alive now checked w = Some (true, s) →
  net_sim (no_net batch w) s.
Proof.
  intros Hb Hmem. unfold IwServer_initialize, LockQueue_init.
  destruct (create_ok queueBytes (take (Z.to_nat (queueBytes - headerSize)) mem)) as (r & -> & Hr & Hsz).
  { unfold headerSize, queueBytes. lia. } { unfold headerSize, queueBytes in *. rewrite length_take. lia. }
  set (s0 := Build_iw_server _ _ _ _ _ _ _ _ _ _). destruct (listenfd <? 0) eqn:E0; [by intros [=]|]. bool_cases.
  assert (Hs0 : net_sim (no_net batch w) s0).
  { split; [|by intros fd [? ?]|cbn; unfold connNum; lia|by split|done].
    intros fd Hfd. destruct (conn_new_sim fd (kern s0)) as (c & Hc & Hf & _); [done|]. exists c. done. }
  unfold getNewConn. destruct (range_cases listenfd) as [[-> _]|[-> Hfd]]; [rewrite bind_Some_eq; by intros [=]|].
  change (connAt listenfd s0) with conn_new.
  destruct (conn_new_sim listenfd (kern s0)) as (c & -> & [Hl [lr Hlr] Hro [lw Hlw] [Ht1 Ht2] Ho Hwo _] & Hi & Hty & Hin); [done|].
  rewrite !bind_Some_eq. unfold conn_init. rewrite Hin. cbn [m_lock m_connHead m_readBuf m_writeBuf m_init m_buflen]. rewrite Hl, Hi, Ht1, Ht2.
  cbn [negb assert_that Z.eqb]. rewrite !bind_Some_eq. destruct (release_is lr _ Hlr) as (r' & -> & Hr' & Hr0). rewrite bind_Some_eq.
  destruct (release_is lw _ Hlw) as (w' & -> & Hw' & _). rewrite bind_Some_eq. cbv beta iota. rewrite ?bind_Some_eq. intros [= <-].
  set (s1 := if _ <? _ then _ else _). apply sim_kern; [|intros; apply same_radd].
  assert (Hs1 : connArray s1 = connArray (putConn listenfd (Build_net_conn (Build_net_head listenfd now (0, 0) (0, 0) 0 (ntohs 0)) false true (bufLen s0) r' w' proto SocketListen) s0)
    ∧ kern s1 = kern s0 ∧ unitBatchCount s1 = unitBatchCount s0 ∧ maxFd s0 <= maxFd s1 < connNum ∧ handleQueue s1 = handleQueue s0 ∧ sched s1 = sched s0 ∧ handled s1 = handled s0).
  { unfold s1. destruct (_ <? _) eqn:E; bool_cases; cbn in E |- *; unfold connNum in *; split_and!; try done; lia. }
  destruct Hs1 as (Hca & Hk & Hu & Hm & Hq & Hsc & Hh).
  replace (no_net batch w) with {| streams := partial_alter (λ _, None) listenfd (streams (no_net batch w)); jobs := jobs (no_net batch w) |}
    by (unfold no_net; f_equal; exact (delete_empty listenfd)).
  eapply (sim_update _ s0 listenfd None); [exact Hs0|exact Hfd| |intros; apply same_refl|exact Hca|exact Hk|exact Hu|exact Hm|by intros [? ?]|].
  - split; try done; [by exists []|by left|by exists []| |by right]. intros _. split; [done|]. change (listenfd ∈ ({[listenfd]} : gset Z)). by apply elem_of_singleton.
  - apply (queue_sim_ext _ s0); [apply (ns_jobs _ _ Hs0)|done..].
Qed.

(** ** What the queue does with requests *)

(** The requests that were accepted, in order. *)
Definition accepted (w : work) : list (net_head * list Z) := served w ++ waiting w.

Lemma take_in_prefix xs ws : ∃ ys, (take_in xs ws).1 = ws ++ ys ∧ xs = ys ++ (take_in xs ws).2.
Proof.
  revert ws. induction xs as [|x xs IH]; intros ws; cbn [take_in]; [exists []; by rewrite app_nil_r|].
  destruct (has_room x ws); [|exists []; by rewrite app_nil_r]. destruct (IH (ws ++ [x])) as (ys & H1 & H2).
  exists (x :: ys). rewrite H1, <- app_assoc. split; [done|]. simpl. by f_equal.
Qed.

Lemma accepted_take n w : accepted (spec_take n w) = accepted w.
Proof. unfold accepted, spec_take. cbn. by rewrite <- app_assoc, take_drop. Qed.

(** Offered requests are accepted up to one, and those from it on are lost. *)
Lemma offer_accepts tries xs w :
  ∃ ys zs, xs = ys ++ zs ∧ accepted (spec_offer tries xs w) = accepted w ++ ys ∧ lost (spec_offer tries xs w) = lost w ++ zs.
Proof.
  revert xs w. induction tries as [|tries IH]; intros xs w; cbn [spec_offer]; destruct (take_in_prefix xs (waiting w)) as (ys & H1 & H2);
    destruct (take_in xs (waiting w)) as [ws [|z zs]]; cbn [fst snd] in *; subst ws.
  - exists ys, []. unfold accepted. cbn [served waiting lost]. by rewrite <- app_assoc, (app_nil_r (lost w)).
  - exists ys, (z :: zs). unfold accepted. cbn [served waiting lost]. by rewrite <- app_assoc.
  - exists ys, []. unfold accepted. cbn [served waiting lost]. by rewrite <- app_assoc, (app_nil_r (lost w)).
  - set (w1 := spec_take _ _). destruct (IH (z :: zs) w1) as (ys' & zs' & E & Ha & Hl). exists (ys ++ ys'), zs'.
    split; [by rewrite H2, E, app_assoc|]. split; [|exact Hl]. rewrite Ha. unfold w1. rewrite accepted_take. unfold accepted.
    cbn [served waiting]. by rewrite <- !app_assoc.
Qed.

(** [w'] has accepted some of [xs] more than [w], in order, and lost the others. *)
Definition takes (xs : list (net_head * list Z)) (w w' : work) : Prop :=
  ∃ ys zs, accepted w' = accepted w ++ ys ∧ lost w' = lost w ++ zs ∧ ys `sublist_of` xs ∧ ys ++ zs ≡ₚ xs.

Lemma takes_nil w : takes [] w w.
Proof. exists [], []. by rewrite !app_nil_r. Qed.

Lemma takes_app xs1 xs2 w1 w2 w3 : takes xs1 w1 w2 → takes xs2 w2 w3 → takes (xs1 ++ xs2) w1 w3.
Proof.
  intros (y1 & z1 & A1 & L1 & S1 & P1) (y2 & z2 & A2 & L2 & S2 & P2). exists (y1 ++ y2), (z1 ++ z2).
  rewrite A2, A1, L2, L1, !app_assoc. split_and!; [done|done|by apply sublist_app|]. rewrite <- P1, <- P2. solve_Permutation.
Qed.

Lemma offer_takes tries xs w : takes xs w (spec_offer tries xs w).
Proof.
  destruct (offer_accepts tries xs w) as (ys & zs & -> & Ha & Hl). exists ys, zs. split_and!; try done. by apply sublist_inserts_r.
Qed.

Lemma groups_takes n fs group w :
  let r := spec_groups n fs group w in ∃ xs, takes xs w r.2 ∧ group ++ fs = xs ++ r.1.
Proof.
  revert group w. induction fs as [|f fs IH]; intros group w; cbn [spec_groups].
  { exists []. rewrite app_nil_r. split; [apply takes_nil|done]. }
  destruct (n <=? _).
  - destruct (IH [] (spec_offer 9 (group ++ [f]) w)) as (xs & Ht & E). exists ((group ++ [f]) ++ xs).
    split; [eapply takes_app; [apply offer_takes|exact Ht]|]. rewrite <- app_assoc, <- E, <- app_assoc. done.
  - destruct (IH (group ++ [f]) w) as (xs & Ht & E). exists xs. split; [done|]. rewrite <- E, <- app_assoc. done.
Qed.

(** A legal stream offers all its requests, another one a beginning of them. *)
Lemma feed_takes n legal fs w : ∃ xs, takes xs w (spec_feed n legal fs w) ∧ xs `prefix_of` fs ∧ (legal = true → xs = fs).
Proof.
  unfold spec_feed. destruct (groups_takes n fs [] w) as (xs & Ht & E). destruct (spec_groups n fs [] w) as [g w1].
  cbn [fst snd] in *. change ([] ++ fs) with fs in E.
  destruct legal; [|exists xs; split; [done|]; split; [by rewrite E; apply prefix_app_r|done]].
  exists fs. split; [|done]. rewrite E. destruct g as [|x g]; [by rewrite app_nil_r|]. eapply takes_app; [exact Ht|apply offer_takes].
Qed.

(** ** One connection in a run *)

Definition of_fd (fd : Z) (l : list (net_head * list Z)) : list (net_head * list Z) := filter (λ x, sock_index x.1 = fd) l.

Lemma sublist_of_fd fd l k : l `sublist_of` k → of_fd fd l `sublist_of` of_fd fd k.
Proof.
  unfold of_fd. induction 1 as [|x l k _ IH|x l k _ IH]; [done| |]; rewrite !filter_cons; repeat case_decide; try done; by constructor.
Qed.

Lemma sublist_same {A} (l k : list A) : l `sublist_of` k → length l = length k → l = k.
Proof.
  induction 1 as [|x l k _ IH|x l k Hs IH]; cbn [length]; intros E; [done|f_equal; apply IH; lia|].
  apply sublist_length in Hs. lia.
Qed.

Lemma takes_fd fd xs w w' :
  takes xs w w' →
  of_fd fd (accepted w') `sublist_of` of_fd fd (accepted w) ++ of_fd fd xs ∧
  (length (of_fd fd (accepted w')) + length (of_fd fd (lost w')) = length (of_fd fd (accepted w)) + length (of_fd fd (lost w)) + length (of_fd fd xs))%nat.
Proof.
  intros (ys & zs & -> & -> & Hs & Hp). pose proof (sublist_of_fd fd _ _ Hs) as Hs'. unfold of_fd in *. rewrite !list.filter_app, !length_app. split.
  - by apply sublist_app.
  - rewrite <- Hp, list.filter_app, length_app. lia.
Qed.

Lemma of_fd_same h fs : of_fd (sock_index h) (pair h <$> fs) = pair h <$> fs.
Proof. apply filter_all. intros x (f & -> & _)%list_elem_of_fmap. done. Qed.

Lemma of_fd_other fd h fs xs : sock_index h ≠ fd → xs `prefix_of` pair h <$> fs → of_fd fd xs = [].
Proof.
  intros Hne [k Hk]. apply filter_nil_iff. intros x Hx. assert (x ∈ pair h <$> fs) as (f & -> & _)%list_elem_of_fmap; [|done].
  rewrite Hk. apply elem_of_app. by left.
Qed.

Definition keyed (a : net) : Prop := ∀ fd st, streams a !! fd = Some st → sock_index (st_head st) = fd.

Definition accepts (fd : Z) (e : net_event) : Prop :=
  match e with EvAccept _ (Some (f, _, _)) _ _ _ => f = fd | _ => False end.

(** The bytes that an event receives on a connection, and the answer it brings for it. *)
Definition received (fd : Z) (e : net_event) : list Z :=
  match e with EvRead f (Received l) _ => if decide (f = fd) then l else [] | _ => [] end.
Definition answered (fd sec : Z) (e : net_event) : list (list Z) :=
  match e with EvAnswer index create buf _ => if decide (i32 index = fd ∧ sec = u32 create) then [buf] else [] | _ => [] end.

(** What a connection got and gave between two states: requests [l] were cut from [ins], and [outs] are the answers for it. *)
Record between (fd : Z) (st0 st : stream) (w0 w : work) (ins : list Z) (outs : list (list Z)) (l : list (net_head * list Z)) : Prop := {
  bt_head : st_head st = st_head st0;
  bt_in : st_in st0 ++ ins = mjoin l.*2 ++ st_in st;
  bt_frames : Forall frame_ok l.*2;
  bt_from : Forall (λ x, ∃ t, x.1 = stamp t (st_head st0)) l;
  bt_order : of_fd fd (accepted w) `sublist_of` of_fd fd (accepted w0) ++ l;
  bt_count : (length (of_fd fd (accepted w)) + length (of_fd fd (lost w)) =
              length (of_fd fd (accepted w0)) + length (of_fd fd (lost w0)) + length l)%nat;
  bt_out : ∃ bs, bs `sublist_of` outs ∧ st_wire st ++ st_out st = st_wire st0 ++ st_out st0 ++ mjoin bs }.

Lemma between_trans fd st0 st1 st2 w0 w1 w2 i1 i2 o1 o2 l1 l2 :
  between fd st0 st1 w0 w1 i1 o1 l1 → between fd st1 st2 w1 w2 i2 o2 l2 → between fd st0 st2 w0 w2 (i1 ++ i2) (o1 ++ o2) (l1 ++ l2).
Proof.
  intros [H1 I1 F1 R1 O1 C1 (b1 & S1 & B1)] [H2 I2 F2 R2 O2 C2 (b2 & S2 & B2)]. split.
  - congruence.
  - by rewrite app_assoc, I1, <- app_assoc, I2, fmap_app, join_app, app_assoc.
  - rewrite fmap_app. by apply Forall_app.
  - apply Forall_app. split; [done|]. by rewrite <- H1.
  - etrans; [exact O2|]. rewrite app_assoc. by apply sublist_app.
  - rewrite length_app. lia.
  - exists (b1 ++ b2). split; [by apply sublist_app|]. by rewrite B2, app_assoc, B1, join_app, <- !app_assoc.
Qed.

(** Nothing happens to the connection, and other requests are taken. *)
Lemma between_other fd st w w' xs o :
  takes xs w w' → of_fd fd xs = [] → between fd st st w w' [] o [].
Proof.
  intros Ht Hx. destruct (takes_fd fd _ _ _ Ht) as [Hs Hc]. rewrite Hx in *. rewrite app_nil_r in Hs. split; try done.
  - by rewrite app_nil_r.
  - by rewrite app_nil_r.
  - exists []. split; [apply sublist_nil_l|]. by rewrite app_nil_r.
Qed.

Lemma put_between fd st w sec buf res e :
  (sock_create (st_head st)).1 = sec → answered fd sec e = [buf] → received fd e = [] →
  between fd st (spec_put buf res st) w w (received fd e) (answered fd sec e) [].
Proof.
  intros Hsec Hout Hin. rewrite Hout, Hin.
  assert (∃ bs, bs `sublist_of` [buf] ∧ st_wire (spec_put buf res st) ++ st_out (spec_put buf res st) = st_wire st ++ st_out st ++ mjoin bs ∧
    st_head (spec_put buf res st) = st_head st ∧ st_in (spec_put buf res st) = st_in st) as (bs & Hbs & Hb & Hh & Hi).
  { unfold spec_put. destruct (st_out st) as [|x o] eqn:Eo.
    1: destruct res as [n| |]; [exists [buf]|exists [buf]|exists []].
    4: destruct (_ <=? nbmax); [exists [buf]|exists []].
    all: cbn [st_wire st_out st_head st_in mjoin list_join]; rewrite ?app_nil_r, ?Eo, <- ?app_assoc, ?take_drop;
      split_and!; try done; try apply sublist_nil_l; by rewrite ?app_nil_r. }
  split; try done.
  - by rewrite Hi, app_nil_r.
  - by rewrite app_nil_r.
  - by exists bs.
Qed.

Lemma between_same fd st w o : between fd st st w w [] o [].
Proof. apply (between_other fd st w w []); [apply takes_nil|done]. Qed.

(** What an event does to the connection [fd]. *)
Definition goes_on (fd : Z) (a : net) (e : net_event) (a' : net) : Prop :=
  streams a' !! fd = None ∨
  ∃ st st' l, streams a !! fd = Some st ∧ streams a' !! fd = Some st' ∧
    between fd st st' (jobs a) (jobs a') (received fd e) (answered fd (sock_create (st_head st)).1 e) l.

Lemma on_same fd a e a' xs :
  streams a' !! fd = streams a !! fd → received fd e = [] → takes xs (jobs a) (jobs a') → of_fd fd xs = [] → goes_on fd a e a'.
Proof.
  intros Hs Hin Ht Hx. destruct (streams a !! fd) as [st|] eqn:E; [|by left]. right. exists st, st, []. rewrite E, Hin. split; [done|]. split; [done|].
  by eapply between_other.
Qed.

Lemma accept_goes proto acc flags added now fd a :
  ¬ accepts fd (EvAccept proto acc flags added now) → goes_on fd a (EvAccept proto acc flags added now) (spec_accept proto acc flags added now a).
Proof.
  intros Hacc. apply (on_same _ _ _ _ []); [|done| |done]; unfold spec_accept;
    (destruct acc as [[[f ip] port]|]; [cbn [accepts] in Hacc|by destruct proto; try apply takes_nil]);
    destruct proto; try done; try apply takes_nil; destruct (flags && added && (f <? connNum)); try done; try apply takes_nil.
  all: cbn [streams]; by rewrite lookup_insert_ne.
Qed.

Lemma read_goes f res t fd a : keyed a → goes_on fd a (EvRead f res t) (spec_read f res t a).
Proof.
  intros Hk. unfold spec_read. destruct (streams a !! f) as [st|] eqn:Ef.
  2:{ destruct (decide (f = fd)) as [->|Hne]; [by left|]. apply (on_same _ _ _ _ []); [done| |apply takes_nil|done].
      cbn. destruct res; try done. by rewrite decide_False. }
  destruct (decide (f = fd)) as [->|Hne].
  - destruct res as [[|x l]| |].
    + left. apply lookup_delete_eq.
    + destruct (cutAll (st_in st ++ x :: l)) as [fs [rest|]] eqn:Ec; [|left; apply lookup_delete_eq].
      destruct (cut_join _ _ _ _ Ec) as [Hok Hj]. specialize (Hj rest eq_refl).
      destruct (feed_takes (group_size (jobs a)) true (pair (stamp t (st_head st)) <$> fs) (jobs a)) as (xs & Ht & _ & Hxs).
      rewrite (Hxs eq_refl) in Ht. destruct (takes_fd fd _ _ _ Ht) as [Hsub Hc].
      assert (Hof : of_fd fd (pair (stamp t (st_head st)) <$> fs) = pair (stamp t (st_head st)) <$> fs).
      { rewrite <- (Hk fd st Ef). apply (of_fd_same (stamp t (st_head st))). }
      rewrite Hof in *. right. eexists st, _, (pair (stamp t (st_head st)) <$> fs). split; [done|]. split; [apply lookup_insert_eq|].
      assert (Hsnd : (pair (stamp t (st_head st)) <$> fs).*2 = fs) by (rewrite <- list_fmap_compose; apply list_fmap_id).
      cbn [received answered]. rewrite decide_True by done. split; cbn [jobs st_head st_in st_wire st_out]; rewrite ?Hsnd; try done.
      * apply list.Forall_forall. intros y (f & -> & _)%list_elem_of_fmap. by exists t.
      * exists []. split; [done|]. by rewrite app_nil_r.
    + apply (on_same _ _ _ _ []); [done|done|apply takes_nil|done].
    + left. apply lookup_delete_eq.
  - assert (Hrec : received fd (EvRead f res t) = []) by (cbn; destruct res; try done; by rewrite decide_False).
    assert (Hh : sock_index (stamp t (st_head st)) ≠ fd) by (cbn; by rewrite (Hk f st Ef)).
    destruct res as [[|x l]| |]; try (eapply on_same; [cbn [streams]; by rewrite ?lookup_delete_ne|done|apply takes_nil|done]).
    destruct (cutAll (st_in st ++ x :: l)) as [fs [rest|]].
    + destruct (feed_takes (group_size (jobs a)) true (pair (stamp t (st_head st)) <$> fs) (jobs a)) as (xs & Ht & Hp & _).
      apply (on_same _ _ _ _ xs); [cbn [streams]; by rewrite lookup_insert_ne|done|done|]. by eapply of_fd_other.
    + destruct (feed_takes (group_size (jobs a)) false (pair (stamp t (st_head st)) <$> fs) (jobs a)) as (xs & Ht & Hp & _).
      apply (on_same _ _ _ _ xs); [cbn [streams]; by rewrite lookup_delete_ne|done|done|]. by eapply of_fd_other.
Qed.

Lemma answer_goes index create buf res fd a : goes_on fd a (EvAnswer index create buf res) (spec_answer index create buf res a).
Proof.
  assert (Hno : goes_on fd a (EvAnswer index create buf res) a) by (apply (on_same _ _ _ _ []); [done|done|apply takes_nil|done]).
  unfold spec_answer. destruct (streams a !! i32 index) as [st|] eqn:Ef; [|done].
  destruct (Z.eqb_spec (sock_create (st_head st)).1 (u32 create)) as [Hsec|]; [|done].
  destruct (decide (i32 index = fd)) as [<-|Hne].
  - right. exists st, (spec_put buf res st), []. split; [done|]. split; [apply lookup_insert_eq|]. cbn [jobs].
    apply (put_between (i32 index) st (jobs a) _ buf res); [done| |done]. cbn [answered]. by rewrite decide_True.
  - apply (on_same _ _ _ _ []); [|done|apply takes_nil|done]. cbn [streams]. by rewrite lookup_insert_ne.
Qed.

Lemma flush_goes f res fd a : goes_on fd a (EvWritable f res) (spec_flush f res a).
Proof.
  assert (Hno : goes_on fd a (EvWritable f res) a) by (apply (on_same _ _ _ _ []); [done|done|apply takes_nil|done]).
  unfold spec_flush. destruct (streams a !! f) as [st|] eqn:Ef; [|done]. destruct res as [n| |]; [|done|done].
  destruct (decide (f = fd)) as [->|Hne].
  - right. eexists st, _, []. split; [done|]. split; [apply lookup_insert_eq|]. destruct (between_same fd st (jobs a) []) as [? ? ? ? ? ? _].
    split; try done. exists []. split; [done|]. cbn [st_wire st_out]. by rewrite <- app_assoc, take_drop, app_nil_r.
  - apply (on_same _ _ _ _ []); [|done|apply takes_nil|done]. cbn [streams]. by rewrite lookup_insert_ne.
Qed.

Lemma step_goes fd a e a' : keyed a → spec_step a e a' → ¬ accepts fd e → goes_on fd a e a'.
Proof.
  intros Hk Hst Hacc. destruct Hst as [proto acc flags added now|f res t| |index create buf res|f res|t closed].
  - by apply accept_goes.
  - by apply read_goes.
  - apply (on_same _ _ _ _ []); [done|done| |done]. exists [], []. cbn [jobs lost spec_take]. rewrite accepted_take, !app_nil_r. done.
  - apply answer_goes.
  - apply flush_goes.
  - destruct (streams a !! fd) as [st|] eqn:Es.
    + destruct (decide (fd ∈ closed)) as [Hc|Hc]; [left|].
      * apply map_lookup_filter_None. right. intros x _ Hn. by destruct Hn.
      * apply (on_same _ _ _ _ []); [|done|apply takes_nil|done]. rewrite Es. by apply map_lookup_filter_Some.
    + left. apply map_lookup_filter_None. by left.
Qed.

Lemma step_keyed a e a' : keyed a → spec_step a e a' → keyed a'.
Proof.
  intros Hk Hst fd st' Hst'. assert (Hno : ¬ accepts fd e → sock_index (st_head st') = fd).
  { intros Hacc. destruct (step_goes fd a e a' Hk Hst Hacc) as [?|(st & st2 & l & H1 & H2 & Hb)]; [congruence|].
    rewrite Hst' in H2. injection H2 as <-. rewrite (bt_head _ _ _ _ _ _ _ _ Hb). by apply Hk. }
  destruct e as [proto acc flags added now| | | | |]; [|by apply Hno; intros []..]. clear Hno.
  inversion Hst; subst. unfold spec_accept in Hst'. destruct acc as [[[f ip] port]|]; [|destruct proto; by apply Hk].
  assert (Hcase : ∀ ip port, streams (if flags && added && (f <? connNum) then
     {| streams := <[f := {| st_head := Build_net_head f now (0, 0) (0, 0) ip (ntohs port); st_in := []; st_wire := []; st_out := [] |}]> (streams a); jobs := jobs a |}
     else a) !! fd = Some st' → sock_index (st_head st') = fd).
  { intros i p H. destruct (flags && added && (f <? connNum)); [|by apply Hk]. cbn [streams] in H. destruct (decide (f = fd)) as [->|Hne].
    - rewrite lookup_insert_eq in H. by injection H as <-.
    - rewrite lookup_insert_ne in H by done. by apply Hk. }
  destruct proto; [by eapply Hcase|by apply Hk|by eapply Hcase].
Qed.

Lemma runs_closed fd a es a' :
  keyed a → spec_runs a es a' → Forall (λ e, ¬ accepts fd e) es → streams a !! fd = None → streams a' !! fd = None.
Proof.
  intros Hk Hr. induction Hr as [a|a e a1 es a2 Hst _ IH]; intros Hacc Hn; [done|]. apply list.Forall_cons in Hacc as [He Hacc].
  apply IH; [by eapply step_keyed|done|]. destruct (step_goes fd a e a1 Hk Hst He) as [?|(st & _ & _ & E & _)]; [done|congruence].
Qed.

Lemma runs_between fd a es a' st st' :
  keyed a → spec_runs a es a' → Forall (λ e, ¬ accepts fd e) es → streams a !! fd = Some st → streams a' !! fd = Some st' →
  ∃ l, between fd st st' (jobs a) (jobs a') (mjoin (received fd <$> es)) (mjoin (answered fd (sock_create (st_head st)).1 <$> es)) l.
Proof.
  intros Hk Hr. revert st. induction Hr as [a|a e a1 es a2 Hst Hr IH]; intros st Hacc H0 H1.
  { rewrite H0 in H1. injection H1 as <-. exists []. apply between_same. }
  apply list.Forall_cons in Hacc as [He Hacc]. pose proof (step_keyed a e a1 Hk Hst) as Hk1.
  destruct (step_goes fd a e a1 Hk Hst He) as [Hn|(st0 & st1 & l1 & E0 & E1 & Hb)].
  - pose proof (runs_closed fd a1 es a2 Hk1 Hr Hacc Hn). congruence.
  - rewrite H0 in E0. injection E0 as <-. destruct (IH Hk1 st1 Hacc E1 H1) as (l2 & Hb2). exists (l1 ++ l2).
    rewrite (bt_head _ _ _ _ _ _ _ _ Hb) in Hb2. by eapply between_trans.
Qed.

(** ** What clients can rely on *)

Lemma open_stream a s fd c :
  net_sim a s → 0 <= fd < connNum → connAt fd s = Some c → m_socketType c = SocketServerConn →
  ∃ st, streams a !! fd = Some st ∧ stream_ok fd st c (kern s) ∧ roomy (m_readBuf c).
Proof.
  intros Hs Hfd Hc Ht. destruct (ns_conns _ _ Hs fd Hfd) as (c' & Hc' & Hf). rewrite Hc in Hc'. injection Hc' as <-.
  pose proof (fs_stream _ _ _ _ Hf) as Hso. destruct (streams a !! fd) as [st|].
  - exists st. split; [done|]. split; [done|apply Hf].
  - rewrite Ht in Hso. by destruct Hso as [[_ ?]|[_ ?]].
Qed.

Lemma net_keyed a s : net_sim a s → keyed a.
Proof.
  intros Hs fd st Hst. destruct (ns_range _ _ Hs fd) as [Hfd _]; [by eexists|]. destruct (ns_conns _ _ Hs fd Hfd) as (c & _ & Hf).
  pose proof (fs_stream _ _ _ _ Hf) as Hso. rewrite Hst in Hso. apply Hso.
Qed.

(** What is left of a stream is shorter than the limit, so that there is room for more. *)
Lemma no_request_short l : no_request l → Z.of_nat (length l) < packetLimit.
Proof.
  unfold no_request, cutAll. cbn [cut]. destruct (decide (length l < 12)%nat) as [H|H]; [unfold packetLimit; lia|].
  destruct (frameLen l <? minLen) eqn:E1; [done|]. destruct (packetLimit <=? frameLen l) eqn:E2; [done|]. cbn [orb]. bool_cases.
  destruct (decide (length l < Z.to_nat (frameLen l))%nat) as [Hs|Hs]; [lia|]. by destruct (cut _ _).
Qed.

Lemma read_room fd st c k : stream_ok fd st c k → roomy (m_readBuf c) → 0 < NBuffer_getFreeLen (m_readBuf c).
Proof.
  intros Hso Hro. pose proof (so_in _ _ _ _ Hso) as Hin. pose proof (no_request_short _ (so_cut _ _ _ _ Hso)) as Hl.
  rewrite (free_len _ _ Hin). unfold roomy, nbmax, packetLimit, DEFAULT_MAX_NBUFFER_SIZE in *. rewrite (buf_index _ _ Hin) in Hro.
  destruct (bi_inv _ _ Hin) as [_ _ Hp _ _]. lia.
Qed.

Section Server.
Context (listenfd : Z) (proto : protocal) (batch : Z) (mem : list Z) (alive : Z → Z) (now : Z * Z) (checked : Z) (w : list nat) (s0 : iw_server).

(** The server was started, in memory that is large enough. *)
Definition started : Prop :=
  0 < batch ∧ queueBytes <= Z.of_nat (length mem) ∧ IwServer_initialize listenfd proto batch mem alive now checked w = Some (true, s0).

Lemma reached es s : started → net_runs s0 es s → ∃ a, spec_runs (no_net batch w) es a ∧ net_sim a s.
Proof using Type. intros (Hb & Hm & Hi) Hr. eapply net_runs_sim; [|exact Hr]. by eapply start_sim. Qed.

(** C6: the network server is its contract.  From its start on, whatever connections are accepted, however their bytes arrive, and
    in whatever order the threads run: the server does what streams with a bounded queue of requests do; no event finds it stuck or
    reaches outside of a buffer; and every read has room, so that a read of 0 bytes does mean that the client has closed. *)
Theorem net_refines es s :
  started → net_runs s0 es s →
  ∃ a, spec_runs (no_net batch w) es a ∧ net_sim a s ∧ (∀ e, allowed e s → is_Some (net_exec e s)) ∧
    ∀ fd c, 0 <= fd < connNum → connAt fd s = Some c → m_socketType c = SocketServerConn → 0 < NBuffer_getFreeLen (m_readBuf c).
Proof using Type.
  intros Hst Hr. destruct (reached es s Hst Hr) as (a & Ha & Hs). exists a. split; [done|]. split; [done|]. split.
  - intros e He. destruct (step_sim a s e Hs He) as (s' & _ & -> & _). done.
  - intros fd c Hfd Hc Ht. destruct (open_stream a s fd c Hs Hfd Hc Ht) as (st & _ & Hso & Hro). by eapply read_room.
Qed.

(** Idle connections are closed, and no others.  A check that is due closes exactly the connections that are still marked from the
    check before, on which nothing was received since; the others stay as they are and are marked now. *)
Lemma idle_closed es s t :
  started → net_runs s0 es s → keepAliveTime <= Z.abs (t - lastCheckTimeout s) →
  ∃ s', checkFdTimeOut t s = Some s' ∧ lastCheckTimeout s' = t ∧
    ∀ fd c, 0 <= fd < connNum → connAt fd s = Some c → m_socketType c = SocketServerConn →
      ∃ c', connAt fd s' = Some c' ∧
        if aliveFdArray s fd =? 0
        then m_connHead c' = m_connHead c ∧ m_socketType c' = SocketServerConn ∧ aliveFdArray s' fd = 1
        else m_socketType c' ≠ SocketServerConn.
Proof using Type.
  intros Hst Hr Hdue. destruct (reached es s Hst Hr) as (a & _ & Hs). destruct (check_due a s t Hs Hdue) as (s' & Hrun & Hl & Hs' & Ha).
  exists s'. split; [done|]. split; [done|]. intros fd c Hfd Hc Ht. destruct (open_stream a s fd c Hs Hfd Hc Ht) as (st & E & Hso & _).
  destruct (ns_conns _ _ Hs' fd Hfd) as (c' & Hc' & Hf'). exists c'. split; [done|]. pose proof (fs_stream _ _ _ _ Hf') as Hso'. cbn [streams] in Hso'.
  destruct (Z.eqb_spec (aliveFdArray s fd) 0) as [H0|H0].
  - rewrite (proj2 (map_lookup_filter_Some _ _ fd st)) in Hso' by done. rewrite (so_head _ _ _ _ Hso), (so_head _ _ _ _ Hso').
    split; [done|]. split; [apply Hso'|]. apply Ha; [by rewrite E|done].
  - rewrite (proj2 (map_lookup_filter_None _ _ fd)) in Hso'; [destruct Hso' as [[_ ->]|[_ ->]]; done|]. right. intros x _. done.
Qed.

Section Connection.
Context (es1 : list net_event) (s1 : iw_server) (es2 : list net_event) (s : iw_server) (fd : Z) (c1 c : net_conn).

(** A connection that was open in the state [s1] and still is in [s]. *)
Definition stays_open : Prop :=
  net_runs s0 es1 s1 ∧ net_runs s1 es2 s ∧ Forall (λ e, ¬ accepts fd e) es2 ∧ 0 <= fd < connNum ∧
  (connAt fd s1 = Some c1 ∧ m_socketType c1 = SocketServerConn) ∧ connAt fd s = Some c ∧ m_socketType c = SocketServerConn.

Lemma open_between :
  started → stays_open → ∃ a1 a st1 st l, net_sim a1 s1 ∧ net_sim a s ∧ spec_runs a1 es2 a ∧ stream_ok fd st1 c1 (kern s1) ∧ stream_ok fd st c (kern s) ∧
    between fd st1 st (jobs a1) (jobs a) (mjoin (received fd <$> es2)) (mjoin (answered fd (sock_create (st_head st1)).1 <$> es2)) l.
Proof using Type.
  intros Hst (Hr1 & Hr2 & Hacc & Hfd & [Hc1 Ht1] & Hc & Ht). destruct (reached es1 s1 Hst Hr1) as (a1 & _ & Hs1).
  destruct (net_runs_sim a1 s1 es2 s Hs1 Hr2) as (a & Ha & Hs).
  destruct (open_stream a1 s1 fd c1 Hs1 Hfd Hc1 Ht1) as (st1 & E1 & Hso1 & _). destruct (open_stream a s fd c Hs Hfd Hc Ht) as (st & E & Hso & _).
  destruct (runs_between fd a1 es2 a st1 st (net_keyed _ _ Hs1) Ha Hacc E1 E) as (l & Hb). by exists a1, a, st1, st, l.
Qed.

(** C7: requests reach the workers whole and in order.  Between two moments at which a connection is open, the bytes received on it are
    cut into exactly the requests that their lengths say, whatever pieces they arrived in; these, with the head of the connection, are
    handed to the workers or wait, in their order, nothing is added, and only requests that found the queue full are missing. *)
Theorem requests_in_order :
  started → stays_open → ∃ a1 a l, net_sim a1 s1 ∧ net_sim a s ∧ spec_runs a1 es2 a ∧
    collected (m_readBuf c1) ++ mjoin (received fd <$> es2) = mjoin l.*2 ++ collected (m_readBuf c) ∧
    Forall frame_ok l.*2 ∧ Forall (λ x, ∃ t, x.1 = stamp t (m_connHead c1)) l ∧
    of_fd fd (handled s ++ waiting (jobs a)) `sublist_of` of_fd fd (handled s1 ++ waiting (jobs a1)) ++ l ∧
    (lost (jobs a) = lost (jobs a1) → of_fd fd (handled s ++ waiting (jobs a)) = of_fd fd (handled s1 ++ waiting (jobs a1)) ++ l).
Proof using Type.
  intros Hst Hop. destruct (open_between Hst Hop) as (a1 & a & st1 & st & l & Hs1 & Hs & Ha & Hso1 & Hso & [Hh Hi Hf Hfr Ho Hc _]).
  exists a1, a, l. rewrite (qs_served _ _ (ns_jobs _ _ Hs)), (qs_served _ _ (ns_jobs _ _ Hs1)).
  fold (accepted (jobs a)) (accepted (jobs a1)). rewrite (bi_bytes _ _ (so_in _ _ _ _ Hso1)), (bi_bytes _ _ (so_in _ _ _ _ Hso)), (so_head _ _ _ _ Hso1).
  split_and!; try done. intros Hl. rewrite Hl in Hc. apply sublist_same; [done|]. rewrite length_app. lia.
Qed.

(** C8: answers leave whole and in order.  Between two moments at which a connection is open, what the socket was given and what is kept
    to be sent grows by whole answers, of those sent to it in their order; only answers that found its buffer full or its socket broken
    are missing; and as long as bytes are kept the server waits for the socket to take more. *)
Theorem answers_in_order :
  started → stays_open → ∃ bs, bs `sublist_of` mjoin (answered fd (sock_create (m_connHead c1)).1 <$> es2) ∧
    default [] (wire (kern s) !! fd) ++ collected (m_writeBuf c) = default [] (wire (kern s1) !! fd) ++ collected (m_writeBuf c1) ++ mjoin bs ∧
    (collected (m_writeBuf c) ≠ [] → fd ∈ w_epoll (kern s)).
Proof using Type.
  intros Hst Hop. destruct (open_between Hst Hop) as (a1 & a & st1 & st & l & _ & _ & _ & Hso1 & Hso & [_ _ _ _ _ _ (bs & Hsub & Hb)]).
  exists bs. rewrite (so_head _ _ _ _ Hso1), (so_wire _ _ _ _ Hso), (so_wire _ _ _ _ Hso1), (bi_bytes _ _ (so_out _ _ _ _ Hso1)), (bi_bytes _ _ (so_out _ _ _ _ Hso)).
  split; [done|]. split; [done|]. apply (so_epoll _ _ _ _ Hso).
Qed.
End Connection.
End Server.

(** ** A run *)

Definition demo_kernel : kernel := {| fds := {[3]}; r_epoll := ∅; w_epoll := ∅; shut := ∅; wire := ∅ |}.

Lemma server_init_ok mem :
  queueBytes <= Z.of_nat (length mem) →
  ∃ s0, started 3 CModelProtocalTcp 10 mem (λ _, 0) (100, 0) 0 [] s0 ∧ kern s0 = sys_radd 3 demo_kernel ∧ lastCheckTimeout s0 = 0.
Proof.
  intros Hm. destruct (create_ok queueBytes (take (Z.to_nat (queueBytes - headerSize)) mem)) as (r & Hr & _).
  { unfold headerSize, queueBytes. lia. } { unfold headerSize, queueBytes in *. rewrite length_take. lia. }
  unfold started, IwServer_initialize, LockQueue_init. rewrite Hr. cbn [negb Z.ltb Z.compare]. eexists. split; [split; [done|split; [done|]]|].
  - reflexivity.
  - by split.
Qed.

Lemma stream_conn a s fd st : net_sim a s → streams a !! fd = Some st → 0 <= fd < connNum ∧ ∃ c, connAt fd s = Some c ∧ stream_ok fd st c (kern s) ∧ roomy (m_readBuf c).
Proof.
  intros Hs Hst. destruct (ns_range _ _ Hs fd) as [Hfd _]; [by eexists|]. split; [done|].
  destruct (ns_conns _ _ Hs fd Hfd) as (c & Hc & Hf). exists c. split; [done|]. pose proof (fs_stream _ _ _ _ Hf) as H. rewrite Hst in H.
  split; [done|apply Hf].
Qed.

(** A connection is accepted; a byte arrives on it, an answer is sent of which the socket takes half. *)
Definition demo_accept : net_event := EvAccept CModelProtocalTcp (Some (7, 16777343, 20480)) true true (100, 1).
Definition demo_talk : list net_event := [EvRead 7 (Received [0]) (100, 2); EvAnswer 7 100 [1; 2; 3; 4] (SentBytes 2)].

Lemma demo_open mem :
  queueBytes <= Z.of_nat (length mem) →
  ∃ s0 s1 s c1 c, started 3 CModelProtocalTcp 10 mem (λ _, 0) (100, 0) 0 [] s0 ∧ lastCheckTimeout s0 = 0 ∧
    stays_open s0 [demo_accept] s1 demo_talk s 7 c1 c.
Proof.
  intros Hmem. destruct (server_init_ok mem Hmem) as (s0 & Hst & Hk & Hl). pose proof (reached _ _ _ _ _ _ _ _ _ _ _ Hst (nr_nil s0)) as (a0 & Ha0 & Hs0).
  inversion Ha0; subst. clear Ha0.
  assert (A1 : allowed demo_accept s0). { unfold demo_accept, allowed. rewrite Hk. split; [done|]. split; [set_solver|done]. }
  destruct (step_sim _ s0 _ Hs0 A1) as (s1 & a1 & E1 & H1 & Hs1).
  inversion H1; subst. clear H1. destruct (stream_conn _ _ 7 _ Hs1 eq_refl) as (Hfd & c1 & Hc1 & Hso1 & Hro).
  assert (A2 : allowed (EvRead 7 (Received [0]) (100, 2)) s1).
  { cbn. split; [done|]. intros l c [= <-] Hc. rewrite Hc1 in Hc. injection Hc as <-. pose proof (read_room _ _ _ _ Hso1 Hro). cbn. lia. }
  destruct (step_sim _ s1 _ Hs1 A2) as (s2 & a2 & E2 & H2 & Hs2).
  inversion H2; subst. clear H2. destruct (stream_conn _ _ 7 _ Hs2 eq_refl) as (_ & c2 & Hc2 & Hso2 & _).
  assert (A3 : allowed (EvAnswer 7 100 [1; 2; 3; 4] (SentBytes 2)) s2).
  { cbn -[connAt]. split; [unfold nbmax, DEFAULT_MAX_NBUFFER_SIZE; lia|]. split; [lia|]. intros c Hc. change (i32 7) with 7 in Hc. rewrite Hc2 in Hc.
    injection Hc as <-. by rewrite (so_type _ _ _ _ Hso2). }
  destruct (step_sim _ s2 _ Hs2 A3) as (s & a3 & E3 & H3 & Hs3).
  inversion H3; subst. clear H3. destruct (stream_conn _ _ 7 _ Hs3 eq_refl) as (_ & c & Hc & Hso & _).
  exists s0, s1, s, c1, c. split; [done|]. split; [done|].
  split; [by apply (nr_cons _ _ s1); [..|constructor]|]. split; [by apply (nr_cons _ _ s2); [..|apply (nr_cons _ _ s); [..|constructor]]|].
  split; [by repeat constructor; intros []|]. split; [done|]. rewrite (so_type _ _ _ _ Hso1), (so_type _ _ _ _ Hso). done.
Qed.

Definition demo_mem : list Z := replicate (Z.to_nat queueBytes) 0.

Lemma demo_mem_len : queueBytes <= Z.of_nat (length demo_mem).
Proof. unfold demo_mem. rewrite length_replicate. unfold queueBytes. lia. Qed.
#[global] Opaque demo_mem.

Lemma net_refines_witness :
  ∃ s0 s, started 3 CModelProtocalTcp 10 demo_mem (λ _, 0) (100, 0) 0 [] s0 ∧ net_runs s0 [demo_accept] s ∧
    ∃ a, spec_runs (no_net 10 []) [demo_accept] a ∧ net_sim a s.
Proof.
  destruct (demo_open demo_mem demo_mem_len) as (s0 & s1 & s & c1 & c & Hst & _ & Hr & _). exists s0, s1. split; [done|]. split; [done|].
  destruct (net_refines _ _ _ _ _ _ _ _ _ _ _ Hst Hr) as (a & Ha & Hs & _). by exists a.
Defined.

Lemma idle_closed_witness :
  ∃ s0, started 3 CModelProtocalTcp 10 demo_mem (λ _, 0) (100, 0) 0 [] s0 ∧ ∃ s, checkFdTimeOut 10000 s0 = Some s ∧ lastCheckTimeout s = 10000.
Proof.
  destruct (demo_open demo_mem demo_mem_len) as (s0 & s1 & s & c1 & c & Hst & Hl & _). exists s0. split; [done|].
  destruct (idle_closed _ _ _ _ _ _ _ _ _ [] s0 10000 Hst (nr_nil s0)) as (s' & Hr & Ht & _); [by rewrite Hl|]. by exists s'.
Defined.

Lemma requests_in_order_witness :
  ∃ s0 s1 s c1 c l, stays_open s0 [demo_accept] s1 demo_talk s 7 c1 c ∧
    collected (m_readBuf c1) ++ [0] = mjoin l ++ collected (m_readBuf c) ∧ Forall frame_ok l.
Proof.
  destruct (demo_open demo_mem demo_mem_len) as (s0 & s1 & s & c1 & c & Hst & _ & Hop). exists s0, s1, s, c1, c.
  destruct (requests_in_order _ _ _ _ _ _ _ _ _ _ _ _ _ _ _ _ Hst Hop) as (a1 & a & l & _ & _ & _ & H & Hf & _). by exists l.*2.
Defined.

Lemma answers_in_order_witness :
  ∃ s0 s1 s c1 c bs, stays_open s0 [demo_accept] s1 demo_talk s 7 c1 c ∧
    bs `sublist_of` mjoin (answered 7 (sock_create (m_connHead c1)).1 <$> demo_talk) ∧
    default [] (wire (kern s) !! 7) ++ collected (m_writeBuf c) = default [] (wire (kern s1) !! 7) ++ collected (m_writeBuf c1) ++ mjoin bs.
Proof.
  destruct (demo_open demo_mem demo_mem_len) as (s0 & s1 & s & c1 & c & Hst & _ & Hop). exists s0, s1, s, c1, c.
  destruct (answers_in_order _ _ _ _ _ _ _ _ _ _ _ _ _ _ _ _ Hst Hop) as (bs & H & H' & _). by exists bs.
Defined.

(** ** Answers and connections *)

(** The events one after the other. *)
Definition net_run (es : list net_event) (s : iw_server) : option iw_server := foldl (λ o e, o ≫= net_exec e) (Some s) es.

(** A server with a queue of a page. *)
Definition demo_server : option iw_server :=
  match LockQueue_init 4096 true false (replicate 4096 0) with
  | Full => None
  | Done q => Some {| connArray := ∅; aliveFdArray := λ _, 0; maxFd := 0; bufLen := 1024 * 1024; kern := demo_kernel; handleQueue := q;
                      lastCheckTimeout := 0; unitBatchCount := 10; sched := []; handled := [] |}
  end.

(** A client connects and sends a request, which a worker takes.  The client closes; another connects within the same second and
    gets the same descriptor.  Then the worker answers. *)
Definition demo_stale (ip1 ip2 : Z) : list net_event :=
  [EvAccept CModelProtocalTcp (Some (7, ip1, 20480)) true true (100, 1); EvRead 7 (Received [0; 0; 0; 12; 0; 0; 0; 0; 0; 0; 0; 1]) (100, 2); EvWork;
   EvRead 7 (Received []) (100, 3); EvAccept CModelProtocalTcp (Some (7, ip2, 20480)) true true (100, 9); EvAnswer 7 100 [1; 2; 3; 4] (SentBytes 4)].

(** An answer may go to another client.  [sendResponse] compares only the second in which the connection was made: when a descriptor is
    used again within that second, the answer to a request of the first client is sent on the connection of the second. *)
Lemma stale_answer_delivered :
  ∃ s c, demo_server ≫= net_run (demo_stale 1001 2002) = Some s ∧ (src_ip ∘ fst) <$> handled s = [1001] ∧
    connAt 7 s = Some c ∧ src_ip (m_connHead c) = 2002 ∧ wire (kern s) !! 7 = Some [1; 2; 3; 4].
Proof.
  destruct (demo_server ≫= net_run (demo_stale 1001 2002)) as [s|] eqn:E; [|by vm_compute in E].
  assert (H : (s0 ← demo_server ≫= net_run (demo_stale 1001 2002); c ← connAt 7 s0;
     Some ((src_ip ∘ fst) <$> handled s0, src_ip (m_connHead c), wire (kern s0) !! 7)) = Some ([1001], 2002, Some [1; 2; 3; 4])) by by vm_compute.
  rewrite E in H. cbn [mbind option_bind] in H. destruct (connAt 7 s) as [c|] eqn:Ec; [|done]. cbn [mbind option_bind] in H. injection H as H1 H2 H3.
  exists s, c. split; [reflexivity|]. split; [exact H1|]. split; [exact Ec|]. split; [exact H2|exact H3].
Qed.
