(* ===== verification/Session.v ===== *)
(** * Sessions with timeouts

    src/src/common/sessionmgn.{h,cc}, class [CSessionMgn]: a timing wheel.  A session is kept in a map under its number, and its number
    in one of [slotNumber] slots; [checkTimeout], which a thread runs all the time, empties the slots whose time has passed and hands the
    sessions that are still there to the handler.  Sessions that were answered before are only taken out of the map.

    [SessionSpec] shows that the wheel is a set of timers. *)
From S2P Require Import Prelude.

(** ** The manager *)

(** [BaseSession]; [object] tells the objects of derived classes apart. *)
Record base_session := { sequence : Z; timeoutMSec : Z; object : nat }.

Record session_mgn := {
  timeoutHandler : bool; slotNumber : Z; slots : list (list Z); lastCheckMSec : Z; lastCheckSlot : Z;
  sessions : gmap Z base_session; timeoutPrecision : Z; sessionNum : Z; sequenceNumber : Z }.

Definition CSessionMgn_new (slot_number timeout_precision_ms now : Z) : option session_mgn :=
  _ ← assert_that (negb (timeout_precision_ms =? 0));
  Some {| timeoutHandler := false; slotNumber := slot_number; slots := replicate (Z.to_nat slot_number) [];
          lastCheckMSec := now / timeout_precision_ms * timeout_precision_ms; lastCheckSlot := 0; sessions := ∅;
          timeoutPrecision := timeout_precision_ms; sessionNum := 0; sequenceNumber := 0 |}.

Definition setTimeoutHandler (m : session_mgn) : session_mgn :=
  Build_session_mgn true (slotNumber m) (slots m) (lastCheckMSec m) (lastCheckSlot m) (sessions m) (timeoutPrecision m) (sessionNum m)
    (sequenceNumber m).

Definition nextSequence (m : session_mgn) : Z * session_mgn :=
  (sequenceNumber m,
   Build_session_mgn (timeoutHandler m) (slotNumber m) (slots m) (lastCheckMSec m) (lastCheckSlot m) (sessions m) (timeoutPrecision m)
     (sessionNum m) (u32 (sequenceNumber m + 1))).

Definition set_wheel (sl : list (list Z)) (ms slot : Z) (ss : gmap Z base_session) (m : session_mgn) : session_mgn :=
  Build_session_mgn (timeoutHandler m) (slotNumber m) sl ms slot ss (timeoutPrecision m) (u32 (Z.of_nat (size ss))) (sequenceNumber m).

(** The slot a session is put in. *)
Definition sleepIndex (m : session_mgn) (req : base_session) : option Z :=
  _ ← assert_that (negb (timeoutPrecision m =? 0) && negb (slotNumber m =? 0));
  let sleepindex := u32 (u64 (timeoutMSec req - lastCheckMSec m) / timeoutPrecision m) in
  let sleepindex := if timeoutMSec req <=? lastCheckMSec m then 1 else sleepindex in
  let sleepindex := if slotNumber m <=? sleepindex then u32 (slotNumber m - 1) else sleepindex in
  Some (u32 (sleepindex + lastCheckSlot m) mod slotNumber m).

Definition saveSession (req : base_session) (m : session_mgn) : option session_mgn :=
  match sessions m !! sequence req with
  | Some _ => Some m
  | None =>
      i ← sleepIndex m req;
      ids ← slots m !! Z.to_nat i;
      Some (set_wheel (<[Z.to_nat i := ids ++ [sequence req]]> (slots m)) (lastCheckMSec m) (lastCheckSlot m)
              (<[sequence req := req]> (sessions m)) m)
  end.

Definition eraseAndGetSession (seq : Z) (m : session_mgn) : option base_session * session_mgn :=
  match sessions m !! seq with
  | Some req => (Some req, set_wheel (slots m) (lastCheckMSec m) (lastCheckSlot m) (delete seq (sessions m)) m)
  | None => (None, set_wheel (slots m) (lastCheckMSec m) (lastCheckSlot m) (sessions m) m)
  end.

(** A number in a slot that is emptied: the session moves from [sessions] to [session_timeout]. *)
Definition expireOne (st : gmap Z base_session * gmap Z base_session) (sessionid : Z) : gmap Z base_session * gmap Z base_session :=
  match st.2 !! sessionid with
  | Some req => (<[sessionid := req]> st.1, delete sessionid st.2)
  | None => st
  end.

Definition expireSlot (start n : Z) (acc : option (gmap Z base_session * gmap Z base_session * list (list Z))) (i : Z)
    : option (gmap Z base_session * gmap Z base_session * list (list Z)) :=
  '(st, sl) ← acc;
  _ ← assert_that (negb (n =? 0));
  let index := Z.to_nat (u32 (start + i) mod n) in
  ids ← sl !! index;
  Some (foldl expireOne st ids, <[index := []]> sl).

(** [checkTimeout] at the time [now]; the sessions that the handler gets, in some order. *)
Definition checkTimeout (now : Z) (m : session_mgn) : option (gmap Z base_session * session_mgn) :=
  let p := timeoutPrecision m in
  _ ← assert_that (negb (p =? 0));
  let curmsec := now / p * p in
  if curmsec <? lastCheckMSec m then
    Some (∅, Build_session_mgn (timeoutHandler m) (slotNumber m) (slots m) curmsec (lastCheckSlot m) (sessions m) p (sessionNum m)
               (sequenceNumber m))
  else
    let num := u32 ((curmsec - lastCheckMSec m) / p) in
    let num := if slotNumber m <=? num then slotNumber m else num in
    '(session_timeout, ss, sl) ← foldl (expireSlot (lastCheckSlot m) (slotNumber m)) (Some (∅, sessions m, slots m)) (seqZ 0 num);
    _ ← assert_that (negb (slotNumber m =? 0));
    Some (if timeoutHandler m then session_timeout else ∅,
          set_wheel sl curmsec (u32 (lastCheckSlot m + num) mod slotNumber m) ss m).
