(* ===== verification/SessionSpec.v ===== *)
(** * The timing wheel as timers

    The contract of [CSessionMgn]: timers, each with the moment from which on a check hands out its session; and the proof that the
    wheel keeps it as long as numbers are not used again. *)
From S2P Require Import Prelude Session.

(** ** The contract: timers *)

(** A timer has the moment [due] from which on a check hands out its session. *)
Record timer := { of_session : base_session; due : Z }.
Record timers := { clock : Z; armed : gmap Z timer }.

(** The moments a wheel of [n] slots of [p] milliseconds can keep: at least a slot and at most [n] slots ahead. *)
Definition due_at (n p t0 t : Z) : Z := t0 + (Z.min (if t <=? t0 then 1 else (t - t0) / p) (n - 1) + 1) * p.

Inductive session_event := SaveSession (req : base_session) | EraseSession (seq : Z) | Check (now : Z).

Definition spec_save (n p : Z) (req : base_session) (a : timers) : timers :=
  match armed a !! sequence req with
  | Some _ => a
  | None => {| clock := clock a; armed := <[sequence req := {| of_session := req; due := due_at n p (clock a) (timeoutMSec req) |}]> (armed a) |}
  end.

(** A clock that goes back takes the timers along. *)
Definition spec_check (now : Z) (a : timers) : gmap Z base_session * timers :=
  if now <? clock a then (∅, {| clock := now; armed := (λ t, {| of_session := of_session t; due := due t + (now - clock a) |}) <$> armed a |})
  else (of_session <$> filter (λ x, due x.2 <= now) (armed a), {| clock := now; armed := filter (λ x, now < due x.2) (armed a) |}).

(** What an event hands out. *)
Definition wheel_exec (e : session_event) (m : session_mgn) : option (gmap Z base_session * session_mgn) :=
  match e with
  | SaveSession req => pair ∅ <$> saveSession req m
  | EraseSession seq =>
      let '(r, m) := eraseAndGetSession seq m in
      Some (match r with Some req => {[seq := req]} | None => ∅ end, m)
  | Check now => checkTimeout now m
  end.

Definition spec_exec (n p : Z) (e : session_event) (a : timers) : gmap Z base_session * timers :=
  match e with
  | SaveSession req => (∅, spec_save n p req a)
  | EraseSession seq =>
      (match armed a !! seq with Some t => {[seq := of_session t]} | None => ∅ end, {| clock := clock a; armed := delete seq (armed a) |})
  | Check now => spec_check (now / p * p) a
  end.

(** ** Emptying slots *)

Section Expire.
Context (ss : gmap Z base_session).

Definition kept (f : gset Z) : gmap Z base_session := filter (λ x, x.1 ∉ f) ss.
Definition out (f : gset Z) : gmap Z base_session := filter (λ x, x.1 ∈ f) ss.

Lemma kept_lookup f k : kept f !! k = if decide (k ∈ f) then None else ss !! k.
Proof using Type.
  unfold kept. destruct (decide (k ∈ f)) as [H|H].
  - apply map_lookup_filter_None. right. intros x _ Hx. by apply Hx.
  - destruct (ss !! k) eqn:E; [by apply map_lookup_filter_Some|apply map_lookup_filter_None; by left].
Qed.

Lemma out_lookup f k : out f !! k = if decide (k ∈ f) then ss !! k else None.
Proof using Type.
  unfold out. destruct (decide (k ∈ f)) as [H|H].
  - destruct (ss !! k) eqn:E; [by apply map_lookup_filter_Some|apply map_lookup_filter_None; by left].
  - apply map_lookup_filter_None. right. intros x _ Hx. by apply H.
Qed.

Lemma expire_one f k : expireOne (out f, kept f) k = (out ({[k]} ∪ f), kept ({[k]} ∪ f)).
Proof using Type.
  unfold expireOne. cbn [fst snd]. rewrite kept_lookup. destruct (decide (k ∈ f)) as [Hk|Hk].
  { replace ({[k]} ∪ f) with f; [done|]. apply set_eq. intros x. rewrite elem_of_union, elem_of_singleton. split; [by right|intros [->|]; done]. }
  assert (Hout : ∀ j, k ≠ j → j ∈ f ↔ j ∈ {[k]} ∪ f) by (intros j Hj; rewrite elem_of_union, elem_of_singleton; intuition congruence).
  assert (Hin : k ∈ {[k]} ∪ f) by (apply elem_of_union; left; by apply elem_of_singleton).
  destruct (ss !! k) as [req|] eqn:E.
  - f_equal; apply map_eq; intros j.
    + destruct (decide (k = j)) as [<-|Hj].
      * rewrite lookup_insert_eq, out_lookup, decide_True by done. done.
      * rewrite lookup_insert_ne, !out_lookup by done. apply decide_ext, Hout. done.
    + destruct (decide (k = j)) as [<-|Hj].
      * rewrite lookup_delete_eq, kept_lookup, decide_True by done. done.
      * rewrite lookup_delete_ne, !kept_lookup by done. apply decide_ext, Hout. done.
  - f_equal; apply map_eq; intros j; rewrite ?out_lookup, ?kept_lookup; destruct (decide (k = j)) as [<-|Hj].
    + rewrite (decide_True _ _ Hin), (decide_False _ _ Hk). done.
    + apply decide_ext, Hout. done.
    + rewrite (decide_True _ _ Hin), (decide_False _ _ Hk). done.
    + apply decide_ext, Hout. done.
Qed.

Lemma expire_ids ids f : ∃ g, foldl expireOne (out f, kept f) ids = (out g, kept g) ∧ ∀ k, k ∈ g ↔ k ∈ ids ∨ k ∈ f.
Proof using Type.
  revert f. induction ids as [|k ids IH]; intros f; cbn [foldl].
  { exists f. split; [done|]. intros k. rewrite elem_of_nil. tauto. }
  rewrite expire_one. destruct (IH ({[k]} ∪ f)) as (g & -> & Hg). exists g. split; [done|]. intros j.
  rewrite Hg, elem_of_cons, elem_of_union, elem_of_singleton. tauto.
Qed.

Context (start n : Z) (Hn : 0 < n <= 2 ^ 31).

(** The place of the slot that is [i] slots ahead. *)
Definition place (i : Z) : nat := Z.to_nat ((start + i) mod n).

Lemma place_lt i : Z.of_nat (place i) < n.
Proof using Hn. unfold place. pose proof (Z.mod_pos_bound (start + i) n). lia. Qed.

Lemma place_inj i j : 0 <= i < n → 0 <= j < n → place i = place j → i = j.
Proof using Hn.
  intros Hi Hj H. unfold place in H. apply Z2Nat.inj in H; [|apply Z.mod_pos_bound; lia..].
  assert (Hd : (i - j) mod n = 0). { replace (i - j) with ((start + i) - (start + j)) by lia. rewrite Zminus_mod, H, Z.sub_diag. apply Z.mod_0_l. lia. }
  apply Z.mod_divide in Hd as [q Hq]; [|lia]. destruct (Z.lt_trichotomy q 0) as [?|[->|?]]; nia.
Qed.

Context (sl : list (list Z)) (Hl : Z.of_nat (length sl) = n) (Hs : 0 <= start < n).

Lemma expire_slots (num : nat) :
  Z.of_nat num <= n →
  ∃ f sl', foldl (expireSlot start n) (Some (∅, ss, sl)) (seqZ 0 (Z.of_nat num)) = Some (out f, kept f, sl') ∧ Z.of_nat (length sl') = n ∧
    (∀ k, k ∈ f ↔ ∃ i ids, 0 <= i < Z.of_nat num ∧ sl !! place i = Some ids ∧ k ∈ ids) ∧
    (∀ i, 0 <= i < n → sl' !! place i = if decide (i < Z.of_nat num) then Some [] else sl !! place i).
Proof using Hn Hl Hs.
  induction num as [|num IH]; intros Hnum.
  { exists ∅, sl. split; [|split; [done|split]].
    - assert (Ho : out ∅ = ∅) by (apply map_eq; intros k; rewrite out_lookup; done).
      assert (Hk : kept ∅ = ss) by (apply map_eq; intros k; rewrite kept_lookup; done).
      rewrite Ho, Hk. done.
    - intros k. split; [set_solver|]. intros (i & ? & ? & _). lia.
    - intros i Hi. rewrite decide_False by lia. done. }
  destruct IH as (f & sl' & Hf & Hl' & Hin & Hsl); [lia|]. rewrite seqZ_S, foldl_app, Hf.
  cbn [foldl expireSlot mbind option_bind]. replace (n =? 0) with false by lia. cbn [negb assert_that mbind option_bind].
  rewrite u32_id by (unfold is_u32; lia). fold (place (0 + Z.of_nat num)). rewrite Z.add_0_l.
  destruct (sl !! place (Z.of_nat num)) as [ids|] eqn:Eids; [|apply lookup_ge_None in Eids; pose proof (place_lt (Z.of_nat num)); lia].
  assert (E' : sl' !! place (Z.of_nat num) = Some ids) by (rewrite Hsl, decide_False by lia; done).
  rewrite E'. cbn [mbind option_bind]. destruct (expire_ids ids f) as (g & -> & Hg). exists g, (<[place (Z.of_nat num) := []]> sl').
  split; [done|]. split; [by rewrite length_insert|]. split.
  - intros k. rewrite Hg, Hin. split.
    + intros [Hk|(i & ids' & Hi & Hids & Hk)]; [exists (Z.of_nat num), ids|exists i, ids']; (split; [lia|done]).
    + intros (i & ids' & Hi & Hids & Hk). destruct (decide (i = Z.of_nat num)) as [->|Hne]; [left; congruence|].
      right. exists i, ids'. split; [lia|done].
  - intros i Hi. destruct (decide (i = Z.of_nat num)) as [->|Hne].
    + rewrite decide_True by lia. apply list_lookup_insert_eq. pose proof (place_lt (Z.of_nat num)). lia.
    + rewrite list_lookup_insert_ne, Hsl by (try done; intros E; apply place_inj in E; lia). apply decide_ext. lia.
Qed.
End Expire.

(** ** The wheel keeps timers *)

(** The wheel [m] of [n] slots of [p] milliseconds has the timers [a]: the number of a session is only in the slot of its moment.
    [used] are the numbers of all sessions so far. *)
Record wheel_ok (n p : Z) (used : gset Z) (a : timers) (m : session_mgn) : Prop := {
  wo_handler : timeoutHandler m = true;
  wo_n : slotNumber m = n ∧ 0 < n <= 2 ^ 31;
  wo_p : timeoutPrecision m = p ∧ 0 < p;
  wo_len : Z.of_nat (length (slots m)) = n;
  wo_slot : 0 <= lastCheckSlot m < n;
  wo_clock : lastCheckMSec m = clock a ∧ 0 <= clock a ∧ (p | clock a);
  wo_sessions : sessions m = of_session <$> armed a;
  wo_due : ∀ k t, armed a !! k = Some t → ∃ o, 0 <= o < n ∧ due t = clock a + (o + 1) * p ∧
    ∀ i ids, 0 <= i < n → slots m !! place (lastCheckSlot m) n i = Some ids → k ∈ ids ↔ i = o;
  wo_used : ∀ i ids k, slots m !! i = Some ids → k ∈ ids → k ∈ used;
  wo_dom : ∀ k, is_Some (armed a !! k) → k ∈ used }.

(** What is expected of the callers: numbers are not used again, moments and checks are less than 2^32 slots ahead. *)
Definition session_allowed (used : gset Z) (e : session_event) (m : session_mgn) : Prop :=
  match e with
  | SaveSession req =>
      ((sequence req ∉ used) ∨ is_Some (sessions m !! sequence req)) ∧ is_u64 (timeoutMSec req) ∧
      timeoutMSec req - lastCheckMSec m < 2 ^ 32 * timeoutPrecision m
  | EraseSession _ => True
  | Check now => 0 <= now < lastCheckMSec m + 2 ^ 32 * timeoutPrecision m
  end.

Definition numbers (e : session_event) : gset Z := match e with SaveSession req => {[sequence req]} | _ => ∅ end.

Ltac wheel_cbn := cbn [setTimeoutHandler set_wheel timeoutHandler slotNumber slots lastCheckMSec lastCheckSlot sessions timeoutPrecision clock armed numbers].

Lemma pushed (sl : list (list Z)) q ids x r ids' k :
  sl !! q = Some ids → <[q := ids ++ [x]]> sl !! r = Some ids' → ∃ ids0, sl !! r = Some ids0 ∧ (k ∈ ids' ↔ k ∈ ids0 ∨ (r = q ∧ k = x)).
Proof.
  intros Hq Hr. destruct (decide (q = r)) as [<-|Hne].
  - rewrite list_lookup_insert_eq in Hr by (by eapply lookup_lt_Some). injection Hr as <-. exists ids. split; [done|].
    rewrite elem_of_app, list_elem_of_singleton. tauto.
  - rewrite list_lookup_insert_ne in Hr by done. exists ids'. split; [done|]. intuition congruence.
Qed.

Section Wheel.
Context (n p : Z).

Lemma new_ok now m :
  0 < n <= 2 ^ 31 → 0 < p → 0 <= now → CSessionMgn_new n p now = Some m → wheel_ok n p ∅ {| clock := now / p * p; armed := ∅ |} (setTimeoutHandler m).
Proof using Type.
  intros Hn Hp Hnow. unfold CSessionMgn_new. replace (p =? 0) with false by lia. intros [= <-]. split; wheel_cbn; try done.
  - rewrite length_replicate. lia.
  - lia.
  - split; [done|]. split; [|by exists (now / p)]. pose proof (Z.div_pos now p). nia.
  - intros i ids k Hi Hk. apply lookup_replicate in Hi as [-> _]. by apply elem_of_nil in Hk.
  - intros k [? Hk]. by rewrite lookup_empty in Hk.
Qed.

(** The slot for a new session. *)
Lemma sleep_ok used a m req :
  wheel_ok n p used a m → is_u64 (timeoutMSec req) → timeoutMSec req - lastCheckMSec m < 2 ^ 32 * p →
  ∃ o, 0 <= o < n ∧ due_at n p (clock a) (timeoutMSec req) = clock a + (o + 1) * p ∧
    Z.to_nat <$> sleepIndex m req = Some (place (lastCheckSlot m) n o).
Proof using Type.
  intros [_ [Hn Hnb] [Hp Hpb] _ Hs [Hc [Hcb _]] _ _ _ _] [Ht0 Ht1] Ht. rewrite Hc in Ht. unfold due_at, sleepIndex. rewrite Hn, Hp, Hc.
  replace (p =? 0) with false by lia. replace (n =? 0) with false by lia. cbn [negb andb assert_that mbind option_bind fmap option_fmap option_map].
  set (t := timeoutMSec req) in *. set (k := if t <=? clock a then 1 else (t - clock a) / p).
  assert (Hk : 0 <= k ∧ (if t <=? clock a then 1 else u32 (u64 (t - clock a) / p)) = k).
  { unfold k. destruct (Z.leb_spec t (clock a)) as [?|Hlt]; [done|]. rewrite u64_id by lia.
    assert (0 <= (t - clock a) / p) by (apply Z.div_pos; lia). split; [done|]. apply u32_id. split; [done|]. apply Z.div_lt_upper_bound; lia. }
  destruct Hk as [Hk ->]. exists (Z.min k (n - 1)). split; [lia|]. split; [done|]. f_equal.
  unfold place. f_equal. f_equal. destruct (Z.leb_spec n k) as [?|?].
  - rewrite (u32_id (n - 1)) by (unfold is_u32; lia). rewrite u32_id by (unfold is_u32; lia). lia.
  - rewrite u32_id by (unfold is_u32; lia). lia.
Qed.

Lemma save_ok used a m req :
  wheel_ok n p used a m → session_allowed used (SaveSession req) m →
  ∃ m', saveSession req m = Some m' ∧ wheel_ok n p (numbers (SaveSession req) ∪ used) (spec_save n p req a) m'.
Proof using Type.
  intros Hw (Hfresh & Ht & Hahead). destruct (wo_p _ _ _ _ _ Hw) as [Hp Hpb]. rewrite Hp in Hahead.
  destruct (sleep_ok used a m req Hw Ht Hahead) as (o & Ho & Hdue & Hidx). destruct Hw as [Hh [Hn Hnb] _ Hl Hs Hc Hss Hd Hu Hdom].
  unfold saveSession, spec_save. assert (Hsl : sessions m !! sequence req = of_session <$> armed a !! sequence req) by (rewrite Hss; apply lookup_fmap).
  rewrite Hsl in *. destruct (armed a !! sequence req) as [t|] eqn:Et; cbn [fmap option_fmap option_map] in *.
  { exists m. split; [done|]. split; try done.
    - intros i ids k Hi Hk. apply elem_of_union. right. by eapply Hu.
    - intros k Hk. apply elem_of_union. right. by apply Hdom. }
  destruct Hfresh as [Hfresh|[? ?]]; [|done]. destruct (sleepIndex m req) as [i|]; [|done]. cbn [fmap option_fmap option_map] in Hidx.
  injection Hidx as Hi. cbn [mbind option_bind]. rewrite Hi.
  destruct (slots m !! place (lastCheckSlot m) n o) as [ids|] eqn:Eids.
  2:{ apply lookup_ge_None in Eids. pose proof (place_lt (lastCheckSlot m) n Hnb o). lia. }
  cbn [mbind option_bind]. eexists. split; [done|]. split; wheel_cbn; try done.
  - by rewrite length_insert.
  - by rewrite fmap_insert, Hss.
  - intros k t Hk. assert (Hcase : ∃ o', 0 <= o' < n ∧ due t = clock a + (o' + 1) * p ∧
      ∀ j ids', 0 <= j < n → slots m !! place (lastCheckSlot m) n j = Some ids' → k ∈ ids' ∨ (j = o ∧ k = sequence req) ↔ j = o').
    { destruct (decide (sequence req = k)) as [<-|Hne].
      - rewrite lookup_insert_eq in Hk. injection Hk as <-. exists o. split; [done|]. split; [done|]. intros j ids' Hj Hids'.
        pose proof (Hu _ _ (sequence req) Hids'). intuition congruence.
      - rewrite lookup_insert_ne in Hk by done. destruct (Hd k t Hk) as (o' & Ho' & Hdue' & Hin). exists o'. split; [done|]. split; [done|].
        intros j ids' Hj Hids'. rewrite (Hin j ids' Hj Hids'). intuition congruence. }
    destruct Hcase as (o' & Ho' & Hdue' & Hin). exists o'. split; [done|]. split; [done|]. intros j ids' Hj Hids'.
    destruct (pushed _ _ _ _ _ _ k Eids Hids') as (ids0 & Hids0 & Hiff). rewrite Hiff, <-(Hin j ids0 Hj Hids0).
    assert (place (lastCheckSlot m) n j = place (lastCheckSlot m) n o ↔ j = o) as ->; [|done].
    split; [by apply place_inj|by intros ->].
  - intros j ids' k Hj Hk. apply elem_of_union. destruct (pushed _ _ _ _ _ _ k Eids Hj) as (ids0 & Hids0 & Hin).
    destruct (proj1 Hin Hk) as [Hk'|[_ ->]]; [right; by eapply Hu|left; by apply elem_of_singleton].
  - intros k Hk. apply elem_of_union. destruct (decide (sequence req = k)) as [<-|Hne]; [left; by apply elem_of_singleton|].
    rewrite lookup_insert_ne in Hk by done. right. by apply Hdom.
Qed.
Lemma erase_ok used a m seq :
  wheel_ok n p used a m →
  ∃ m', eraseAndGetSession seq m = (of_session <$> armed a !! seq, m') ∧ wheel_ok n p used {| clock := clock a; armed := delete seq (armed a) |} m'.
Proof using Type.
  intros [Hh Hn Hp Hl Hs Hc Hss Hd Hu Hdom]. unfold eraseAndGetSession.
  assert (Hsl : sessions m !! seq = of_session <$> armed a !! seq) by (rewrite Hss; apply lookup_fmap).
  assert (Hrest : ∀ ss, ss = of_session <$> delete seq (armed a) →
    wheel_ok n p used {| clock := clock a; armed := delete seq (armed a) |} (set_wheel (slots m) (lastCheckMSec m) (lastCheckSlot m) ss m)).
  { intros ss ->. split; wheel_cbn; try done.
    - intros k t Hk. apply lookup_delete_Some in Hk as [_ Hk]. by apply Hd.
    - intros k [t Hk]. apply lookup_delete_Some in Hk as [_ Hk]. by apply Hdom. }
  rewrite Hsl. destruct (armed a !! seq) as [t|] eqn:Et; cbn [fmap option_fmap option_map].
  - eexists. split; [done|]. apply Hrest. by rewrite fmap_delete, Hss.
  - eexists. split; [done|]. apply Hrest. by rewrite delete_id, Hss.
Qed.

(** Moving the wheel on by [d] slots. *)
Lemma place_next s d i : 0 < n → place ((s + d) mod n) n i = place s n (d + i).
Proof using Type. intros Hn. unfold place. rewrite Zplus_mod_idemp_l. do 2 f_equal. lia. Qed.

Lemma place_wrap s i : 0 < n → place s n i = place s n (i - n).
Proof using Type. intros Hn. unfold place. replace (s + i) with (s + (i - n) + 1 * n) by lia. by rewrite Z.mod_add by lia. Qed.

Lemma place_all s r : 0 < n → Z.of_nat r < n → ∃ i, 0 <= i < n ∧ place s n i = r.
Proof using Type.
  intros Hn Hr. exists ((Z.of_nat r - s) mod n). split; [apply Z.mod_pos_bound; lia|]. unfold place.
  rewrite Zplus_mod_idemp_r. replace (s + (Z.of_nat r - s)) with (Z.of_nat r) by lia. rewrite Z.mod_small by lia. lia.
Qed.

Lemma check_back used a m now :
  wheel_ok n p used a m → 0 <= now → now / p * p < clock a →
  ∃ m', checkTimeout now m = Some (∅, m') ∧ wheel_ok n p used (spec_check (now / p * p) a).2 m'.
Proof using Type.
  intros [Hh Hn [Hp Hpb] Hl Hs [Hc [Hc0 Hdiv]] Hss Hd Hu Hdom] Hnow Hback. unfold checkTimeout. rewrite Hp, Hc.
  replace (p =? 0) with false by lia. cbn [negb assert_that mbind option_bind]. unfold spec_check. rewrite (proj2 (Z.ltb_lt _ _) Hback).
  eexists. split; [done|]. cbn [snd]. split; wheel_cbn; try done.
  - split; [done|]. split; [|by exists (now / p)]. pose proof (Z.div_pos now p). nia.
  - rewrite Hss, <-map_fmap_compose. done.
  - intros k t Hk. rewrite lookup_fmap in Hk. destruct (armed a !! k) as [t0|] eqn:Et; [|done]. injection Hk as <-. cbn [due].
    destruct (Hd k t0 Et) as (o & Ho & -> & Hin). exists o. split; [done|]. split; [lia|done].
  - intros k [t Hk]. rewrite lookup_fmap in Hk. apply Hdom. destruct (armed a !! k); [by eexists|done].
Qed.

Section Forward.
Context (used : gset Z) (a : timers) (m : session_mgn) (num : nat) (cur : Z) (f : gset Z).
Context (Hw : wheel_ok n p used a m).
Context (Hnum : Z.of_nat num <= n) (Hcase : cur = clock a + Z.of_nat num * p ∨ (Z.of_nat num = n ∧ clock a + n * p <= cur)).
Context (Hf : ∀ k, k ∈ f ↔ ∃ i ids, 0 <= i < Z.of_nat num ∧ slots m !! place (lastCheckSlot m) n i = Some ids ∧ k ∈ ids).

(** The sessions whose slots are emptied are those that are due. *)
Lemma fired_due k t : armed a !! k = Some t → k ∈ f ↔ due t <= cur.
Proof using Hw Hnum Hcase Hf.
  intros Hk. destruct Hw as [_ [_ Hnb] [_ Hpb] Hl Hs _ _ Hd _ _]. destruct (Hd k t Hk) as (o & Ho & -> & Hin). rewrite Hf.
  assert (Hiff : o < Z.of_nat num ↔ clock a + (o + 1) * p <= cur).
  { destruct Hcase as [->|[-> Hle]]; [|split; [nia|lia]]. split; intros; nia. }
  rewrite <-Hiff. split.
  - intros (i & ids & Hi & Hids & Hk'). apply (Hin i ids) in Hk'; [lia|lia|done].
  - intros Hlt. destruct (slots m !! place (lastCheckSlot m) n o) as [ids|] eqn:E; [exists o, ids; split_and!; try lia; [done|by apply (Hin o ids)]|].
    apply lookup_ge_None in E. pose proof (place_lt (lastCheckSlot m) n Hnb o). lia.
Qed.

Lemma fired_out : out (sessions m) f = (spec_check cur a).1.
Proof using Hw Hnum Hcase Hf.
  unfold spec_check. replace (cur <? clock a) with false by (destruct (wo_p _ _ _ _ _ Hw); destruct Hcase as [->|[? ?]]; nia).
  cbn [fst]. apply map_eq. intros k. rewrite out_lookup, (wo_sessions _ _ _ _ _ Hw), !lookup_fmap, map_lookup_filter.
  destruct (armed a !! k) as [t|] eqn:Et; cbn [fmap option_fmap option_map mbind option_bind]; [|by destruct (decide _)].
  pose proof (fired_due k t Et) as Hiff. destruct (decide (k ∈ f)) as [Hk|Hk].
  - rewrite option_guard_True by (cbn; tauto). done.
  - rewrite option_guard_False by (cbn; tauto). done.
Qed.

Lemma fired_kept : kept (sessions m) f = of_session <$> armed (spec_check cur a).2.
Proof using Hw Hnum Hcase Hf.
  unfold spec_check. replace (cur <? clock a) with false by (destruct (wo_p _ _ _ _ _ Hw); destruct Hcase as [->|[? ?]]; nia).
  cbn [snd armed]. apply map_eq. intros k. rewrite kept_lookup, (wo_sessions _ _ _ _ _ Hw), !lookup_fmap, map_lookup_filter.
  destruct (armed a !! k) as [t|] eqn:Et; cbn [fmap option_fmap option_map mbind option_bind]; [|by destruct (decide _)].
  pose proof (fired_due k t Et) as Hiff. destruct (decide (k ∈ f)) as [Hk|Hk].
  - rewrite option_guard_False by (cbn; rewrite Hiff in Hk; lia). done.
  - rewrite option_guard_True by (cbn; rewrite Hiff in Hk; lia). done.
Qed.

Context (sl' : list (list Z)) (Hcur : 0 <= cur ∧ (p | cur)) (Hl' : Z.of_nat (length sl') = n).
Context (Hsl : ∀ i, 0 <= i < n → sl' !! place (lastCheckSlot m) n i = if decide (i < Z.of_nat num) then Some [] else slots m !! place (lastCheckSlot m) n i).

Lemma forward_ok : wheel_ok n p used (spec_check cur a).2 (set_wheel sl' cur ((lastCheckSlot m + Z.of_nat num) mod n) (kept (sessions m) f) m).
Proof using Hw Hcur Hnum Hcase Hl' Hf Hsl.
  pose proof fired_kept as Hkept. destruct Hw as [Hh [Hn Hnb] [Hp Hpb] Hl Hs Hc Hss Hd Hu Hdom]. revert Hkept.
  unfold spec_check. replace (cur <? clock a) with false by (destruct Hcase as [->|[? ?]]; nia). cbn [snd]. intros Hkept. split; wheel_cbn; try done.
  - apply Z.mod_pos_bound. lia.
  - intros k t Hk. apply map_lookup_filter_Some in Hk as [Hk Hlt]. cbn in Hlt. destruct (Hd k t Hk) as (o & Ho & Hdue & Hin).
    destruct Hcase as [Hcur'|[Hall Hle]]; [|nia]. exists (o - Z.of_nat num). split; [nia|]. split; [rewrite Hdue, Hcur'; ring|]. intros i ids Hi. rewrite place_next by lia.
    destruct (decide (Z.of_nat num + i < n)) as [Hlo|Hhi].
    + rewrite Hsl, decide_False by lia. intros Hids. rewrite (Hin (Z.of_nat num + i) ids) by (done || lia). lia.
    + rewrite place_wrap, Hsl, decide_True by lia. intros [= <-]. rewrite elem_of_nil. lia.
  - intros r ids k Hr Hk. destruct (place_all (lastCheckSlot m) r) as (i & Hi & <-); [lia|apply lookup_lt_Some in Hr; lia|].
    rewrite Hsl in Hr by done. destruct (decide _); [injection Hr as <-; by apply elem_of_nil in Hk|by eapply Hu].
  - intros k [t Hk]. apply map_lookup_filter_Some in Hk as [Hk _]. apply Hdom. by eexists.
Qed.
End Forward.

Lemma check_ok used a m now :
  wheel_ok n p used a m → session_allowed used (Check now) m →
  ∃ m', checkTimeout now m = Some ((spec_check (now / p * p) a).1, m') ∧ wheel_ok n p used (spec_check (now / p * p) a).2 m'.
Proof using Type.
  intros Hw [H0 Hahead]. destruct (Z.ltb_spec (now / p * p) (clock a)) as [Hback|Hfwd].
  { destruct (check_back used a m now Hw H0 Hback) as (m' & Hr & Hw'). exists m'. split; [|done]. rewrite Hr. unfold spec_check.
    by rewrite (proj2 (Z.ltb_lt _ _) Hback). }
  pose proof Hw as [Hh [Hn Hnb] [Hp Hpb] Hl Hs [Hc [Hc0 [c Hdiv]]] _ _ _ _]. set (cur := now / p * p) in *.
  assert (Hd : (cur - clock a) / p = now / p - c) by (rewrite Hdiv; unfold cur; rewrite <-Z.mul_sub_distr_r, Z.div_mul; lia).
  assert (Hdb : 0 <= now / p - c < 2 ^ 32).
  { pose proof (Z.mul_div_le now p). split; [unfold cur in Hfwd; nia|]. rewrite Hp, Hc in Hahead. unfold cur in *. nia. }
  set (num := Z.min (now / p - c) n).
  destruct (expire_slots (sessions m) (lastCheckSlot m) n Hnb (slots m) Hl Hs (Z.to_nat num)) as (f & sl' & Hloop & Hl' & Hf & Hsl); [lia|].
  assert (Hcase : cur = clock a + Z.of_nat (Z.to_nat num) * p ∨ (Z.of_nat (Z.to_nat num) = n ∧ clock a + n * p <= cur)).
  { destruct (Z.le_gt_cases n (now / p - c)) as [Hle|Hgt]; [right; split; [lia|rewrite Hdiv; unfold cur; nia]|left].
    rewrite Z2Nat.id by lia. replace num with (now / p - c) by lia. rewrite Hdiv. unfold cur. ring. }
  assert (Hcur : 0 <= cur ∧ (p | cur)) by (split; [lia|by exists (now / p)]).
  rewrite <-(fired_out used a m (Z.to_nat num) cur f Hw) by (done || lia).
  exists (set_wheel sl' cur ((lastCheckSlot m + Z.of_nat (Z.to_nat num)) mod n) (kept (sessions m) f) m).
  split; [|apply (forward_ok used); try done; lia]. unfold checkTimeout. rewrite Hp, Hn, Hc. fold cur.
  replace (p =? 0) with false by lia. replace (n =? 0) with false by lia. rewrite (proj2 (Z.ltb_ge _ _) Hfwd), Hd, (u32_id (now / p - c)) by (exact Hdb || lia).
  replace (if n <=? now / p - c then n else now / p - c) with (Z.of_nat (Z.to_nat num)) by (destruct (Z.leb_spec n (now / p - c)); lia).
  cbn [negb assert_that mbind option_bind]. rewrite Hloop. cbn [mbind option_bind]. rewrite Hh, u32_id by (unfold is_u32; lia). done.
Qed.

Lemma step_ok used a m e :
  wheel_ok n p used a m → session_allowed used e m →
  ∃ m', wheel_exec e m = Some ((spec_exec n p e a).1, m') ∧ wheel_ok n p (numbers e ∪ used) (spec_exec n p e a).2 m'.
Proof using Type.
  intros Hw Hal. destruct e as [req|seq|now]; cbn [wheel_exec spec_exec fst snd].
  - destruct (save_ok used a m req Hw Hal) as (m' & -> & Hw'). by exists m'.
  - destruct (erase_ok used a m seq Hw) as (m' & -> & Hw'). exists m'. cbn [numbers]. rewrite (left_id_L ∅ (∪)). split; [|done].
    by destruct (armed a !! seq).
  - destruct (check_ok used a m now Hw Hal) as (m' & Hr & Hw'). exists m'. cbn [numbers]. by rewrite (left_id_L ∅ (∪)).
Qed.

(** ** Runs *)

(** Events with the sessions they hand out. *)
Inductive session_runs : gset Z → session_mgn → list (session_event * gmap Z base_session) → gset Z → session_mgn → Prop :=
| wr_nil used m : session_runs used m [] used m
| wr_cons used m e o m1 es used' m' :
    session_allowed used e m → wheel_exec e m = Some (o, m1) → session_runs (numbers e ∪ used) m1 es used' m' →
    session_runs used m ((e, o) :: es) used' m'.

Inductive timer_runs : timers → list (session_event * gmap Z base_session) → timers → Prop :=
| tr_nil a : timer_runs a [] a
| tr_cons a e es a' : timer_runs (spec_exec n p e a).2 es a' → timer_runs a ((e, (spec_exec n p e a).1) :: es) a'.

Lemma session_runs_ok used m es used' m' a :
  session_runs used m es used' m' → wheel_ok n p used a m → ∃ a', timer_runs a es a' ∧ wheel_ok n p used' a' m'.
Proof using Type.
  intros Hr. revert a. induction Hr as [used m|used m e o m1 es used' m' Hal He _ IH]; intros a Hw; [exists a; split; [constructor|done]|].
  destruct (step_ok used a m e Hw Hal) as (m1' & He' & Hw1). rewrite He in He'. injection He' as -> <-. destruct (IH _ Hw1) as (a' & Ha & Hw').
  exists a'. split; [by constructor|done].
Qed.

(** ** One session *)

(** What an event does to the timer with the number [k]. *)
Lemma timer_fate e a k t :
  armed a !! k = Some t → (∀ now, e = Check now → clock a <= now / p * p) →
  (armed (spec_exec n p e a).2 !! k = Some t ∧ (spec_exec n p e a).1 !! k = None ∧ ∀ now, e = Check now → now / p * p < due t) ∨
  (armed (spec_exec n p e a).2 !! k = None ∧ (spec_exec n p e a).1 !! k = Some (of_session t) ∧
   (e = EraseSession k ∨ ∃ now, e = Check now ∧ due t <= now / p * p)).
Proof using Type.
  intros Hk Hfwd. destruct e as [req|seq|now]; cbn [spec_exec fst snd armed].
  - left. split; [|done]. unfold spec_save. destruct (decide (sequence req = k)) as [<-|Hne]; [by rewrite Hk|].
    destruct (armed a !! sequence req); [done|]. cbn [armed]. by rewrite lookup_insert_ne.
  - destruct (decide (seq = k)) as [->|Hne].
    + right. rewrite Hk, lookup_delete_eq, lookup_singleton_eq. auto.
    + left. rewrite lookup_delete_ne by done. split; [done|]. split; [|done]. destruct (armed a !! seq); [by rewrite lookup_singleton_ne|done].
  - specialize (Hfwd now eq_refl). unfold spec_check. rewrite (proj2 (Z.ltb_ge _ _) Hfwd). cbn [fst snd armed]. rewrite lookup_fmap, !map_lookup_filter, Hk.
    cbn [mbind option_bind]. destruct (Z.lt_ge_cases (now / p * p) (due t)) as [Hlt|Hge].
    + left. rewrite option_guard_True, option_guard_False by (cbn; lia). split; [done|]. split; [done|]. by intros ? [= <-].
    + right. rewrite option_guard_False, option_guard_True by (cbn; lia). split; [done|]. split; [done|]. right. by exists now.
Qed.

(** A session that was handed out is not handed out again. *)
Lemma timer_gone used m es used' m' a k :
  session_runs used m es used' m' → wheel_ok n p used a m → k ∈ used → armed a !! k = None → ∀ e o, (e, o) ∈ es → o !! k = None.
Proof using Type.
  intros Hr. revert a. induction Hr as [used m|used m e o m1 es used' m' Hal He _ IH]; intros a Hw Hu Hk e' o' Hin; [by apply elem_of_nil in Hin|].
  destruct (step_ok used a m e Hw Hal) as (m1' & He' & Hw1). rewrite He in He'. injection He' as -> <-.
  assert (Hsame : armed (spec_exec n p e a).2 !! k = None ∧ (spec_exec n p e a).1 !! k = None).
  { destruct e as [req|seq|now]; cbn [spec_exec fst snd armed].
    - split; [|done]. unfold spec_save. destruct (armed a !! sequence req) eqn:E; [done|]. cbn [armed]. apply lookup_insert_None. split; [done|].
      intros <-. destruct Hal as [[Hn|Hn] _]; [done|]. rewrite (wo_sessions _ _ _ _ _ Hw), lookup_fmap, E in Hn. by destruct Hn.
    - split; [apply lookup_delete_None; by right|]. destruct (armed a !! seq) eqn:E; [|done]. apply lookup_singleton_None. congruence.
    - unfold spec_check. destruct (_ <? _); cbn [fst snd armed]; rewrite ?lookup_fmap, ?map_lookup_filter, Hk; done. }
  apply elem_of_cons in Hin as [[= -> ->]|Hin]; [by apply Hsame|]. eapply (IH _ Hw1); [|apply Hsame|done]. apply elem_of_union. by right.
Qed.

(** Checks at times that do not go back, from [t] on. *)
Fixpoint steady (t : Z) (es : list (session_event * gmap Z base_session)) : Prop :=
  match es with
  | [] => True
  | (Check now, _) :: es => t <= now ∧ steady now es
  | _ :: es => steady t es
  end.

Lemma floor_mono a u now : 0 < p → (p | a) → a <= u → u <= now → a <= now / p * p ∧ now / p * p <= now.
Proof using Type. intros Hp [q ->] Hu Hn. pose proof (Z.mul_div_le now p Hp). assert (q <= now / p) by (apply Z.div_le_lower_bound; lia). nia. Qed.

Lemma timer_waits used m es used' m' a k t u :
  session_runs used m es used' m' → wheel_ok n p used a m → armed a !! k = Some t → clock a <= u → steady u es →
  (∀ e o, (e, o) ∈ es → o !! k = Some (of_session t) → e = EraseSession k ∨ ∃ now, e = Check now ∧ due t <= now) ∧
  (∀ now o, (Check now, o) ∈ es → due t <= now / p * p → ∃ e' o', (e', o') ∈ es ∧ o' !! k = Some (of_session t)).
Proof using Type.
  intros Hr. revert a u. induction Hr as [used m|used m e o m1 es used' m' Hal He Hr IH]; intros a u Hw Hk Hu Hst.
  { split; [intros ? ? H|intros ? ? H]; by apply elem_of_nil in H. }
  destruct (wo_p _ _ _ _ _ Hw) as [_ Hp]. destruct (wo_clock _ _ _ _ _ Hw) as (_ & _ & Hdiv). destruct (step_ok used a m e Hw Hal) as (m1' & He' & Hw1).
  rewrite He in He'. injection He' as -> <-. set (o := (spec_exec n p e a).1) in *.
  assert (Hnext : ∃ u', clock (spec_exec n p e a).2 <= u' ∧ steady u' es ∧ ∀ now, e = Check now → clock a <= now / p * p ∧ now / p * p <= now).
  { destruct e as [req|seq|now]; cbn [steady] in Hst.
    - exists u. split; [|done]. cbn [spec_exec snd]. unfold spec_save. by destruct (armed a !! sequence req).
    - by exists u.
    - destruct Hst as [Hle Hst]. destruct (floor_mono _ _ _ Hp Hdiv Hu Hle). exists now. split; [|by split; [|intros ? [= <-]]].
      cbn [spec_exec]. unfold spec_check. destruct (_ <? _); cbn [snd clock]; lia. }
  destruct Hnext as (u' & Hu' & Hst' & Hfl).
  destruct (timer_fate e a k t Hk) as [(Hk' & Ho & Hlt)|(Hk' & Ho & Hend)]; [intros now E; by apply Hfl|..]; fold o in Ho.
  - destruct (IH _ u' Hw1 Hk' Hu' Hst') as [IH1 IH2]. split.
    + intros e' o' Hin Ho'. apply elem_of_cons in Hin as [[= -> ->]|Hin]; [congruence|by eapply IH1].
    + intros now o' Hin Hdue. apply elem_of_cons in Hin as [[= E ->]|Hin]; [symmetry in E; pose proof (Hlt now E); lia|].
      destruct (IH2 now o' Hin Hdue) as (e2 & o2 & Hin2 & Ho2). exists e2, o2. split; [by right|done].
  - split.
    + intros e' o' Hin Ho'. apply elem_of_cons in Hin as [[= -> ->]|Hin].
      * destruct Hend as [?|(now & E & Hle)]; [by left|right]. exists now. split; [done|]. pose proof (Hfl now E). lia.
      * assert (Hin' : k ∈ numbers e ∪ used) by (apply elem_of_union; right; apply (wo_dom _ _ _ _ _ Hw); by eexists).
        by rewrite (timer_gone _ _ _ _ _ _ k Hr Hw1 Hin' Hk' e' o' Hin) in Ho'.
    + intros now o' Hin Hdue. exists e, o. split; [by left|done].
Qed.
End Wheel.

(** ** What callers can rely on *)

Section Manager.
Context (n p now0 : Z) (m0 : session_mgn).

(** A manager with at most 2^31 slots whose handler is set. *)
Definition ready : Prop := 0 < n <= 2 ^ 31 ∧ 0 < p ∧ 0 <= now0 ∧ setTimeoutHandler <$> CSessionMgn_new n p now0 = Some m0.

Lemma ready_ok es used m : ready → session_runs ∅ m0 es used m → ∃ a, timer_runs n p {| clock := now0 / p * p; armed := ∅ |} es a ∧ wheel_ok n p used a m.
Proof using Type.
  intros (Hn & Hp & Hnow & Hm) Hr. destruct (CSessionMgn_new n p now0) as [m1|] eqn:E; [|done]. injection Hm as <-.
  eapply session_runs_ok; [done|]. by apply new_ok.
Qed.

(** C25: the timing wheel is a set of timers.  For every sequence of sessions saved under new numbers, answered, and checks of the clock,
    which may also go back: every event succeeds and hands out exactly the sessions that timers hand out, a check those whose moment
    has come.  So no session is handed out twice and none is forgotten. *)
Theorem wheel_refines_timers es used m :
  ready → session_runs ∅ m0 es used m →
  ∃ a, timer_runs n p {| clock := now0 / p * p; armed := ∅ |} es a ∧ sessions m = of_session <$> armed a ∧
    ∀ e, session_allowed used e m → ∃ m', wheel_exec e m = Some ((spec_exec n p e a).1, m').
Proof using Type.
  intros Hrd Hr. destruct (ready_ok es used m Hrd Hr) as (a & Ha & Hw). exists a. split; [done|]. split; [apply Hw|].
  intros e He. destruct (step_ok n p used a m e Hw He) as (m' & -> & _). by exists m'.
Qed.

(** C26: timeouts come in time.  A session that is saved with a moment the wheel can keep, and a clock that does not go back: a check hands it
    out only after its moment, and a check a slot after its moment finds it handed out, unless it was answered before. *)
Theorem timeout_in_window es1 used1 m1 req o es2 used m :
  ready → session_runs ∅ m0 es1 used1 m1 → (sequence req ∉ used1) →
  lastCheckMSec m1 < timeoutMSec req < lastCheckMSec m1 + n * p →
  session_runs used1 m1 ((SaveSession req, o) :: es2) used m → steady (lastCheckMSec m1) es2 →
  (∀ e o, (e, o) ∈ es2 → o !! sequence req = Some req → e = EraseSession (sequence req) ∨ ∃ now, e = Check now ∧ timeoutMSec req < now) ∧
  (∀ now o, (Check now, o) ∈ es2 → timeoutMSec req + p <= now → ∃ e' o', (e', o') ∈ es2 ∧ o' !! sequence req = Some req).
Proof using Type.
  intros Hrd Hr1 Hfresh Hwin Hr2 Hst. destruct (ready_ok es1 used1 m1 Hrd Hr1) as (a & _ & Hw). inversion Hr2 as [|? ? ? ? m2 ? ? ? Hal He Hr]; subst.
  destruct (step_ok n p used1 a m1 _ Hw Hal) as (m2' & He' & Hw2). rewrite He in He'. injection He' as -> <-. clear He Hr2.
  destruct (wo_clock _ _ _ _ _ Hw) as (Hc & Hc0 & Hdiv). destruct (wo_p _ _ _ _ _ Hw) as [_ Hp]. rewrite Hc in *.
  assert (Hnone : armed a !! sequence req = None).
  { destruct (armed a !! sequence req) eqn:E; [|done]. exfalso. apply Hfresh, (wo_dom _ _ _ _ _ Hw). by eexists. }
  set (d := due_at n p (clock a) (timeoutMSec req)).
  assert (Hd : timeoutMSec req < d ∧ ∀ now, timeoutMSec req + p <= now → d <= now / p * p).
  { unfold d, due_at. replace (timeoutMSec req <=? clock a) with false by lia. set (k := (timeoutMSec req - clock a) / p).
    pose proof (Z.mul_div_le (timeoutMSec req - clock a) p Hp). pose proof (Z.mul_succ_div_gt (timeoutMSec req - clock a) p Hp). fold k in H, H0.
    assert (k < n) by (apply Z.div_lt_upper_bound; lia). rewrite Z.min_l by lia. split; [lia|]. intros now Hnow. destruct Hdiv as [q Hq].
    assert (q + k + 1 <= now / p) by (apply Z.div_le_lower_bound; lia). nia. }
  assert (Ha : armed (spec_exec n p (SaveSession req) a).2 !! sequence req = Some {| of_session := req; due := d |}).
  { cbn [spec_exec snd]. unfold spec_save. rewrite Hnone. cbn [armed]. by rewrite lookup_insert_eq. }
  destruct (timer_waits n p _ _ _ _ _ _ _ _ (clock a) Hr Hw2 Ha) as [H1 H2]; [|done|].
  { cbn [spec_exec snd]. unfold spec_save. by rewrite Hnone. }
  cbn [of_session due] in *. split.
  - intros e o Hin Ho. destruct (H1 e o Hin Ho) as [?|(now & -> & Hle)]; [by left|right]. exists now. split; [done|lia].
  - intros now o Hin Hnow. apply (H2 now o Hin). by apply Hd.
Qed.
End Manager.

(** ** Runs *)

Definition demo_mgn : session_mgn :=
  {| timeoutHandler := true; slotNumber := 8; slots := replicate 8 []; lastCheckMSec := 1000; lastCheckSlot := 0; sessions := ∅;
     timeoutPrecision := 10; sessionNum := 0; sequenceNumber := 0 |}.

Definition demo_session (seq t : Z) : base_session := {| sequence := seq; timeoutMSec := t; object := 0 |}.

(** The events in order, with what they hand out. *)
Fixpoint session_run (es : list session_event) (m : session_mgn) : option (list (session_event * gmap Z base_session) * session_mgn) :=
  match es with
  | [] => Some ([], m)
  | e :: es => '(o, m) ← wheel_exec e m; '(os, m) ← session_run es m; Some ((e, o) :: os, m)
  end.

Lemma demo_wheel_ready : ready 8 10 1005 demo_mgn.
Proof. split_and!; try lia. reflexivity. Qed.

Lemma demo_waits : ∃ used m, session_runs ∅ demo_mgn [(SaveSession (demo_session 5 1042), ∅); (Check 1041, ∅); (Check 1052, {[5 := demo_session 5 1042]})] used m.
Proof.
  do 2 eexists. eapply wr_cons; [|vm_compute; reflexivity|].
  { cbn. split; [left; set_solver|]. split; [split; lia|lia]. }
  eapply wr_cons; [cbn; lia|vm_compute; reflexivity|]. eapply wr_cons; [cbn; lia|vm_compute; reflexivity|]. constructor.
Qed.

Lemma wheel_refines_timers_witness :
  ∃ used m es, ready 8 10 1005 demo_mgn ∧ session_runs ∅ demo_mgn es used m ∧ length es = 3%nat ∧ ∃ a, timer_runs 8 10 {| clock := 1005 / 10 * 10; armed := ∅ |} es a.
Proof.
  destruct demo_waits as (used & m & Hr). exists used, m. eexists. split; [exact demo_wheel_ready|]. split; [exact Hr|]. split; [done|].
  destruct (wheel_refines_timers 8 10 1005 demo_mgn _ used m demo_wheel_ready Hr) as (a & Ha & _). by exists a.
Defined.

Lemma timeout_in_window_witness :
  ∃ e (o : gmap Z base_session), (e, o) ∈ [(Check 1041, ∅); (Check 1052, {[5 := demo_session 5 1042]})] ∧ o !! 5 = Some (demo_session 5 1042).
Proof.
  destruct demo_waits as (used & m & Hr).
  apply (proj2 (timeout_in_window 8 10 1005 demo_mgn [] ∅ demo_mgn (demo_session 5 1042) ∅ _ used m demo_wheel_ready
    (wr_nil _ _) ltac:(set_solver) ltac:(cbn; lia) Hr ltac:(cbn; lia)) 1052 {[5 := demo_session 5 1042]}); [set_solver|cbn; lia].
Defined.

(** A number that is used again inherits the slot of its predecessor.  A session is answered and its number given to a new session with
    a later moment: the slot of the first still has the number, and the second is timed out long before its moment. *)
Lemma reused_number_times_out_early :
  fst <$> session_run [SaveSession (demo_session 5 1010); EraseSession 5; SaveSession (demo_session 5 1060); Check 1020] demo_mgn =
  Some [(SaveSession (demo_session 5 1010), ∅); (EraseSession 5, {[5 := demo_session 5 1010]}); (SaveSession (demo_session 5 1060), ∅);
        (Check 1020, {[5 := demo_session 5 1060]})].
Proof. vm_compute. reflexivity. Qed.

(** A moment further ahead than the wheel has slots is cut to the last slot: the session times out early. *)
Lemma long_timeout_early :
  fst <$> session_run [SaveSession (demo_session 5 9000); Check 1080] demo_mgn =
  Some [(SaveSession (demo_session 5 9000), ∅); (Check 1080, {[5 := demo_session 5 9000]})].
Proof. vm_compute. reflexivity. Qed.
