(* ===== verification/Sync.v ===== *)
(** * Locks and waiting

    The locks of src/src/public/common.{h,cc} and the waiter of src/src/public/awaiter.{h,cc}, for any threads in any interleaving:

    - [ReadWriteLock], a monitor with a condition variable, which guards the namespaces of the store engine.  Its methods run under the
      mutex, so that they are one step up to the point where they return or go to sleep; who is woken is a choice;
    - [RWLock], a spin lock on atomic variables, which guards the files of the log and the connections.  Every access to an atomic variable is
      a step of its own; a weak compare-and-exchange may fail for no reason;
    - [AWaiter], with which a thread waits for the callback of another; every access to its status, to the mutex and to the condition variable
      is a step.

    An event that is not possible is [None]; so is a failed assertion. *)
From S2P Require Import Prelude.

(** ** ReadWriteLock *)

(** Where a thread is: outside, asleep in a [wait] or woken from it, or inside. *)
Inductive rw_pc := RwIdle | RwReadSleep | RwReadAwake | RwReading | RwWriteSleep | RwWriteAwake | RwWriting.

#[global] Instance rw_pc_dec : EqDecision rw_pc.
Proof. solve_decision. Defined.

Record rw_lock := { rw_count : Z; rw_writeWaitCount : Z }.
Record rw_state := { rw_shared : rw_lock; rw_threads : gmap nat rw_pc }.

Definition ReadWriteLock_new : rw_lock := {| rw_count := 0; rw_writeWaitCount := 0 |}.

(** The loop of [readLock], up to its end or a [wait]. *)
Definition rw_readTry (l : rw_lock) : rw_pc * rw_lock :=
  if (rw_count l <? 0) || (0 <? rw_writeWaitCount l) then (RwReadSleep, l)
  else (RwReading, {| rw_count := i32 (rw_count l + 1); rw_writeWaitCount := rw_writeWaitCount l |}).

(** The loop of [writeLock], up to its end or a [wait]. *)
Definition rw_writeTry (l : rw_lock) : rw_pc * rw_lock :=
  if negb (rw_count l =? 0) then (RwWriteSleep, l)
  else (RwWriting, {| rw_count := -1; rw_writeWaitCount := i32 (rw_writeWaitCount l - 1) |}).

Definition ReadWriteLock_readLock (l : rw_lock) : rw_pc * rw_lock := rw_readTry l.

Definition ReadWriteLock_writeLock (l : rw_lock) : rw_pc * rw_lock :=
  rw_writeTry {| rw_count := rw_count l; rw_writeWaitCount := i32 (rw_writeWaitCount l + 1) |}.

(** Whether one sleeper is notified. *)
Definition ReadWriteLock_readUnlock (l : rw_lock) : bool * rw_lock :=
  let count := i32 (rw_count l - 1) in (count =? 0, {| rw_count := count; rw_writeWaitCount := rw_writeWaitCount l |}).

(** All sleepers are notified. *)
Definition ReadWriteLock_writeUnlock (l : rw_lock) : rw_lock := {| rw_count := 0; rw_writeWaitCount := rw_writeWaitCount l |}.

Definition rw_wake (pc : rw_pc) : rw_pc :=
  match pc with RwReadSleep => RwReadAwake | RwWriteSleep => RwWriteAwake | pc => pc end.

Definition rw_asleep (pc : rw_pc) : bool := match pc with RwReadSleep | RwWriteSleep => true | _ => false end.

(** The calls of a thread; [RwGo] goes on behind a [wait]; [RwSpurious] wakes a sleeper that nobody notified.  [RwReadUnlock] says whom
    [notify_one] wakes, nobody only if nobody sleeps. *)
Inductive rw_event := RwReadLock (t : nat) | RwReadUnlock (t : nat) (woken : option nat) | RwWriteLock (t : nat) | RwWriteUnlock (t : nat)
  | RwGo (t : nat) | RwSpurious (t : nat).

Definition rw_at (t : nat) (r : rw_pc * rw_lock) (s : rw_state) : rw_state :=
  {| rw_shared := r.2; rw_threads := <[t := r.1]> (rw_threads s) |}.

Definition rw_exec (e : rw_event) (s : rw_state) : option rw_state :=
  let l := rw_shared s in
  match e with
  | RwReadLock t => match rw_threads s !! t with Some RwIdle => Some (rw_at t (ReadWriteLock_readLock l) s) | _ => None end
  | RwWriteLock t => match rw_threads s !! t with Some RwIdle => Some (rw_at t (ReadWriteLock_writeLock l) s) | _ => None end
  | RwGo t =>
      match rw_threads s !! t with
      | Some RwReadAwake => Some (rw_at t (rw_readTry l) s)
      | Some RwWriteAwake => Some (rw_at t (rw_writeTry l) s)
      | _ => None
      end
  | RwReadUnlock t woken =>
      match rw_threads s !! t with
      | Some RwReading =>
          let '(notify, l) := ReadWriteLock_readUnlock l in
          let s := rw_at t (RwIdle, l) s in
          match (notify : bool), woken with
          | false, None => Some s
          | true, None => if decide (map_Forall (λ _ pc, rw_asleep pc = false) (rw_threads s)) then Some s else None
          | true, Some w =>
              pc ← rw_threads s !! w;
              if rw_asleep pc then Some (rw_at w (rw_wake pc, l) s) else None
          | false, Some _ => None
          end
      | _ => None
      end
  | RwWriteUnlock t =>
      match rw_threads s !! t with
      | Some RwWriting => Some {| rw_shared := ReadWriteLock_writeUnlock l; rw_threads := rw_wake <$> <[t := RwIdle]> (rw_threads s) |}
      | _ => None
      end
  | RwSpurious t =>
      pc ← rw_threads s !! t;
      if rw_asleep pc then Some (rw_at t (rw_wake pc, l) s) else None
  end.

(** ** RWLock *)

Definition sWriteLockStatus : Z := -1.
Definition sFreeStatus : Z := 0.

(** Between which accesses a thread is. *)
Inductive spin_pc :=
| SpIdle
| SpLoad | SpCheck (count : Z) | SpReadCas (count : Z) | SpReading
| SpWriteCas | SpWaitDec | SpSetId | SpWriting | SpStore.

#[global] Instance spin_pc_dec : EqDecision spin_pc.
Proof. solve_decision. Defined.

Record spin_lock := { writeFirst : bool; writeThreadId : option nat; lockCount : Z; writeWaitCount : Z }.
Record spin_state := { sp_lock : spin_lock; sp_threads : gmap nat spin_pc }.

Definition RWLock_new (write_first : bool) : spin_lock :=
  {| writeFirst := write_first; writeThreadId := None; lockCount := 0; writeWaitCount := 0 |}.

Definition set_id (o : option nat) (l : spin_lock) : spin_lock := Build_spin_lock (writeFirst l) o (lockCount l) (writeWaitCount l).
Definition set_lockCount (n : Z) (l : spin_lock) : spin_lock := Build_spin_lock (writeFirst l) (writeThreadId l) n (writeWaitCount l).
Definition set_writeWait (n : Z) (l : spin_lock) : spin_lock := Build_spin_lock (writeFirst l) (writeThreadId l) (lockCount l) n.

(** The calls, up to the first access behind the test of [writeThreadId]; the thread that has written may call again. *)
Definition RWLock_readLock (t : nat) (pc : spin_pc) (l : spin_lock) : option (spin_pc * spin_lock) :=
  match pc with
  | SpIdle | SpWriting => Some (if decide (writeThreadId l = Some t) then pc else SpLoad, l)
  | _ => None
  end.

Definition RWLock_readUnlock (t : nat) (pc : spin_pc) (l : spin_lock) : option (spin_pc * spin_lock) :=
  match pc with
  | SpReading | SpWriting =>
      Some (if decide (writeThreadId l = Some t) then (pc, l) else (SpIdle, set_lockCount (i32 (lockCount l - 1)) l))
  | _ => None
  end.

Definition RWLock_writeLock (t : nat) (pc : spin_pc) (l : spin_lock) : option (spin_pc * spin_lock) :=
  match pc with
  | SpIdle | SpWriting =>
      Some (if decide (writeThreadId l = Some t) then (pc, l) else (SpWriteCas, set_writeWait (i32 (writeWaitCount l + 1)) l))
  | _ => None
  end.

Definition RWLock_writeUnlock (t : nat) (pc : spin_pc) (l : spin_lock) : option (spin_pc * spin_lock) :=
  match pc with
  | SpIdle | SpWriting =>
      if decide (writeThreadId l = Some t) then
        if lockCount l =? sWriteLockStatus then Some (SpStore, set_id None l) else None
      else None
  | _ => None
  end.

(** The next access of a thread inside of a call; [weak] lets a compare-and-exchange fail. *)
Definition RWLock_go (t : nat) (weak : bool) (pc : spin_pc) (l : spin_lock) : option (spin_pc * spin_lock) :=
  match pc with
  | SpLoad =>
      Some (if lockCount l =? sWriteLockStatus then SpLoad else if writeFirst l then SpCheck (lockCount l) else SpReadCas (lockCount l), l)
  | SpCheck count => Some (if 0 <? writeWaitCount l then SpLoad else SpReadCas count, l)
  | SpReadCas count =>
      Some (if (lockCount l =? count) && negb weak then (SpReading, set_lockCount (i32 (count + 1)) l) else (SpLoad, l))
  | SpWriteCas =>
      Some (if (lockCount l =? sFreeStatus) && negb weak then (SpWaitDec, set_lockCount sWriteLockStatus l) else (SpWriteCas, l))
  | SpWaitDec => Some (SpSetId, set_writeWait (i32 (writeWaitCount l - 1)) l)
  | SpSetId => Some (SpWriting, set_id (Some t) l)
  | SpStore => Some (SpIdle, set_lockCount sFreeStatus l)
  | _ => None
  end.

Inductive spin_event := SpReadLock (t : nat) | SpReadUnlock (t : nat) | SpWriteLock (t : nat) | SpWriteUnlock (t : nat)
  | SpGo (t : nat) (weak : bool).

Definition spin_thread (e : spin_event) : nat :=
  match e with SpReadLock t | SpReadUnlock t | SpWriteLock t | SpWriteUnlock t | SpGo t _ => t end.

Definition spin_act (e : spin_event) : spin_pc → spin_lock → option (spin_pc * spin_lock) :=
  match e with
  | SpReadLock t => RWLock_readLock t
  | SpReadUnlock t => RWLock_readUnlock t
  | SpWriteLock t => RWLock_writeLock t
  | SpWriteUnlock t => RWLock_writeUnlock t
  | SpGo t weak => RWLock_go t weak
  end.

Definition spin_exec (e : spin_event) (s : spin_state) : option spin_state :=
  pc ← sp_threads s !! spin_thread e;
  '(pc, l) ← spin_act e pc (sp_lock s);
  Some {| sp_lock := l; sp_threads := <[spin_thread e := pc]> (sp_threads s) |}.

(** ** AWaiter *)

Inductive w_status := WIdle | WReady | WWaiting | WDone.
#[global] Instance w_status_dec : EqDecision w_status.
Proof. solve_decision. Defined.

(** The thread in [waitUsec]: before the first exchange, before the mutex, holding it, asleep, woken, holding it again, returned. *)
Inductive waiter_pc := WtStart | WtLock | WtTry | WtSleep | WtWake | WtStore | WtDone.
(** The thread in [invoke]: before the first exchange, before the mutex, holding it, about to release it, returned. *)
Inductive invoker_pc := IvStart | IvLock | IvTry | IvUnlock | IvDone.
Inductive aw_thread := Waiter | Invoker.

Record awaiter := { w_state : w_status; cvLock : option aw_thread; waiter_at : waiter_pc; invoker_at : invoker_pc }.

Definition AWaiter_new : awaiter := {| w_state := WIdle; cvLock := None; waiter_at := WtStart; invoker_at := IvStart |}.

Definition AWaiter_waitUsec (a : awaiter) : option awaiter :=
  match waiter_at a, cvLock a with
  | WtStart, _ =>
      Some (if decide (w_state a = WIdle) then Build_awaiter WReady (cvLock a) WtLock (invoker_at a)
            else Build_awaiter (w_state a) (cvLock a) WtDone (invoker_at a))
  | WtLock, None => Some (Build_awaiter (w_state a) (Some Waiter) WtTry (invoker_at a))
  | WtTry, _ =>
      Some (if decide (w_state a = WReady) then Build_awaiter WWaiting None WtSleep (invoker_at a)
            else Build_awaiter (w_state a) None WtDone (invoker_at a))
  | WtWake, None => Some (Build_awaiter (w_state a) (Some Waiter) WtStore (invoker_at a))
  | WtStore, _ => Some (Build_awaiter WDone None WtDone (invoker_at a))
  | _, _ => None
  end.

Definition notify_all (pc : waiter_pc) : waiter_pc := match pc with WtSleep => WtWake | pc => pc end.

Definition AWaiter_invoke (a : awaiter) : option awaiter :=
  match invoker_at a, cvLock a with
  | IvStart, _ =>
      Some (if decide (w_state a = WIdle) then Build_awaiter WDone (cvLock a) (waiter_at a) IvDone
            else Build_awaiter (w_state a) (cvLock a) (waiter_at a) IvLock)
  | IvLock, None => Some (Build_awaiter (w_state a) (Some Invoker) (waiter_at a) IvTry)
  | IvTry, _ =>
      Some (if decide (w_state a = WReady) then Build_awaiter WDone (cvLock a) (waiter_at a) IvUnlock
            else Build_awaiter (w_state a) (cvLock a) (notify_all (waiter_at a)) IvUnlock)
  | IvUnlock, _ => Some (Build_awaiter (w_state a) None (waiter_at a) IvDone)
  | _, _ => None
  end.

(** [AwTimeout]: the time to wait is over, or a wake-up that nobody asked for. *)
Inductive aw_event := AwWait | AwInvoke | AwTimeout.
#[global] Instance aw_event_eq_dec : EqDecision aw_event.
Proof. solve_decision. Defined.

Definition aw_exec (e : aw_event) (a : awaiter) : option awaiter :=
  match e with
  | AwWait => AWaiter_waitUsec a
  | AwInvoke => AWaiter_invoke a
  | AwTimeout => match waiter_at a with WtSleep => Some (Build_awaiter (w_state a) (cvLock a) WtWake (invoker_at a)) | _ => None end
  end.
