(* ===== verification/SyncSpec.v ===== *)
(** * What the locks and the waiter guarantee

    Mutual exclusion of the two locks for any number of threads below 2^31, by invariants that count the threads in each place, and that
    waiting for a callback neither misses it nor returns before it. *)
From S2P Require Import Prelude Sync.

(** ** ReadWriteLock *)

Definition rw_reads (pc : rw_pc) : bool := match pc with RwReading => true | _ => false end.
Definition rw_writes (pc : rw_pc) : bool := match pc with RwWriting => true | _ => false end.
Definition rw_waits (pc : rw_pc) : bool := match pc with RwWriteSleep | RwWriteAwake => true | _ => false end.

Abbreviation readers s := (count_of rw_reads (rw_threads s)).
Abbreviation writers s := (count_of rw_writes (rw_threads s)).

(** The count is that of the readers or -1 for a writer; the other count is that of the writers that wait. *)
Record rw_ok (s : rw_state) : Prop := {
  ro_size : Z.of_nat (size (rw_threads s)) < 2 ^ 31;
  ro_excl : writers s = 0 ∨ (writers s = 1 ∧ readers s = 0);
  ro_count : rw_count (rw_shared s) = readers s - writers s;
  ro_wait : rw_writeWaitCount (rw_shared s) = count_of rw_waits (rw_threads s) }.

(** A thread that moves: what has to be shown is what changes for it. *)
Lemma rw_move s t old new l :
  rw_ok s → rw_threads s !! t = Some old →
  let r := readers s - Z.b2z (rw_reads old) + Z.b2z (rw_reads new) in
  let w := writers s - Z.b2z (rw_writes old) + Z.b2z (rw_writes new) in
  (w = 0 ∨ (w = 1 ∧ r = 0)) → (0 <= r < 2 ^ 31 → rw_count l = r - w) →
  (0 <= count_of rw_waits (rw_threads s) - Z.b2z (rw_waits old) + Z.b2z (rw_waits new) < 2 ^ 31 →
   rw_writeWaitCount l = count_of rw_waits (rw_threads s) - Z.b2z (rw_waits old) + Z.b2z (rw_waits new)) →
  rw_ok (rw_at t (new, l) s).
Proof.
  intros [Hsz Hex Hc Hw] Ht r w Hex' Hc' Hw'. assert (Hsz' : size (<[t := new]> (rw_threads s)) = size (rw_threads s)).
  { apply map_size_insert_Some. by eexists. }
  pose proof (count_bound rw_reads (<[t := new]> (rw_threads s))) as Hb. pose proof (count_bound rw_waits (<[t := new]> (rw_threads s))) as Hb'.
  rewrite (count_insert _ _ _ _ _ Ht), Hsz' in Hb. rewrite (count_insert _ _ _ _ _ Ht), Hsz' in Hb'. split; cbn [rw_at rw_threads rw_shared fst snd]; rewrite ?Hsz', ?(count_insert rw_reads _ _ _ _ Ht), ?(count_insert rw_writes _ _ _ _ Ht), ?(count_insert rw_waits _ _ _ _ Ht); [done|done|apply Hc'; lia|apply Hw'; lia].
Qed.

Lemma rw_readTry_ok s t old : rw_ok s → rw_threads s !! t = Some old → old = RwIdle ∨ old = RwReadAwake → rw_ok (rw_at t (rw_readTry (rw_shared s)) s).
Proof.
  intros Hs Ht Hold. pose proof Hs as [Hsz Hex Hc Hw]. unfold rw_readTry.
  destruct ((rw_count (rw_shared s) <? 0) || (0 <? rw_writeWaitCount (rw_shared s))) eqn:E; bool_cases.
  - eapply rw_move; [done|done|destruct Hold as [->| ->]; cbn; lia..].
  - eapply rw_move; [done|done|destruct Hold as [->| ->]; cbn..]; [lia|lia|intros; rewrite i32_id; lia|intros; rewrite i32_id; lia|lia|lia].
Qed.

(** The loop of [writeLock], by a thread that is counted in [l]. *)
Lemma rw_writeTry_ok s t old l :
  rw_ok s → rw_threads s !! t = Some old → rw_reads old = false → rw_writes old = false → rw_count l = rw_count (rw_shared s) →
  rw_writeWaitCount l = count_of rw_waits (rw_threads s) - Z.b2z (rw_waits old) + 1 → rw_ok (rw_at t (rw_writeTry l) s).
Proof.
  intros Hs Ht Hr Hw Hcl Hwl. pose proof Hs as [Hsz Hex Hc _]. pose proof (count_bound rw_waits (rw_threads s)) as Hb.
  pose proof (count_bound rw_reads (rw_threads s)) as Hbr.
  assert (0 <= count_of rw_waits (rw_threads s) - Z.b2z (rw_waits old)).
  { destruct (rw_waits old) eqn:E; cbn [Z.b2z]; [|lia]. pose proof (count_pos _ _ _ _ Ht E). lia. }
  unfold rw_writeTry. rewrite Hcl. destruct (Z.eqb_spec (rw_count (rw_shared s)) 0) as [E|E]; cbn [negb];
    (eapply rw_move; [done|done|rewrite Hr, Hw; cbn; lia..|cbn; intros; rewrite ?i32_id; lia]).
Qed.

Lemma wake_reads pc : rw_reads (rw_wake pc) = rw_reads pc. Proof. by destruct pc. Qed.
Lemma wake_writes pc : rw_writes (rw_wake pc) = rw_writes pc. Proof. by destruct pc. Qed.
Lemma wake_waits pc : rw_waits (rw_wake pc) = rw_waits pc. Proof. by destruct pc. Qed.

Lemma rw_wake_ok s t pc : rw_ok s → rw_threads s !! t = Some pc → rw_ok (rw_at t (rw_wake pc, rw_shared s) s).
Proof.
  intros Hs Ht. pose proof Hs as [_ Hex Hc Hw]. apply (rw_move s t pc); try done; rewrite ?wake_reads, ?wake_writes, ?wake_waits; lia.
Qed.

Lemma rw_readUnlock_ok s t : rw_ok s → rw_threads s !! t = Some RwReading → rw_ok (rw_at t (RwIdle, (ReadWriteLock_readUnlock (rw_shared s)).2) s).
Proof.
  intros Hs Ht. pose proof Hs as [Hsz Hex Hc Hw]. pose proof (count_pos rw_reads _ _ _ Ht eq_refl). eapply rw_move; [done|done|cbn..].
  - lia.
  - intros. rewrite i32_id; lia.
  - lia.
Qed.

Lemma rw_writeUnlock_ok s t :
  rw_ok s → rw_threads s !! t = Some RwWriting →
  rw_ok {| rw_shared := ReadWriteLock_writeUnlock (rw_shared s); rw_threads := rw_wake <$> <[t := RwIdle]> (rw_threads s) |}.
Proof.
  intros Hs Ht. pose proof Hs as [Hsz Hex Hc Hw]. pose proof (count_pos rw_writes _ _ _ Ht eq_refl).
  assert (Hs' : rw_ok (rw_at t (RwIdle, ReadWriteLock_writeUnlock (rw_shared s)) s)) by (eapply rw_move; [done|done|cbn; lia..]).
  destruct Hs' as [Hsz' Hex' Hc' Hw']. cbn [rw_at rw_threads rw_shared fst snd] in *. split; cbn [rw_shared rw_threads].
  - by rewrite map_size_fmap.
  - by rewrite !count_fmap by (intros []; done).
  - by rewrite !count_fmap by (intros []; done).
  - by rewrite !count_fmap by (intros []; done).
Qed.

Lemma rw_exec_ok e s s' : rw_ok s → rw_exec e s = Some s' → rw_ok s'.
Proof.
  intros Hs He. pose proof Hs as [Hsz Hex Hc Hw]. pose proof (count_bound rw_waits (rw_threads s)) as Hb.
  destruct e as [t|t woken|t|t|t|t]; cbn [rw_exec] in He; destruct (rw_threads s !! t) as [pc|] eqn:Ht; [|done| |done| |done| |done| |done| |done].
  - destruct pc; try done. injection He as <-. by eapply rw_readTry_ok; [..|left].
  - destruct pc; try done. pose proof (rw_readUnlock_ok s t Hs Ht) as Hs'. destruct (ReadWriteLock_readUnlock (rw_shared s)) as [[] l]; cbn [snd] in Hs'.
    + destruct woken as [w|]; [|by destruct (decide _); [injection He as <-|]]. apply bind_Some in He as (pc & Hpc & He).
      destruct (rw_asleep pc); [|done]. injection He as <-. by apply (rw_wake_ok _ w pc Hs').
    + destruct woken; [done|]. by injection He as <-.
  - destruct pc; try done. injection He as <-. unfold ReadWriteLock_writeLock. pose proof (count_bound rw_waits (<[t := RwWriteSleep]> (rw_threads s))) as Hb'.
    rewrite (count_insert _ _ _ _ _ Ht), map_size_insert_Some in Hb' by (by eexists). cbn in Hb'. eapply rw_writeTry_ok; [done..|cbn; rewrite Hw, i32_id; lia].
  - destruct pc; try done. injection He as <-. by apply rw_writeUnlock_ok.
  - destruct pc; try done; injection He as <-; [by eapply rw_readTry_ok; [..|right]|]. eapply rw_writeTry_ok; [done..|cbn; lia].
  - cbn [mbind option_bind] in He. destruct (rw_asleep pc); [|done]. injection He as <-. by apply rw_wake_ok.
Qed.

(** Threads that have not called anything yet. *)
Definition rw_start (th : gmap nat rw_pc) : rw_state := {| rw_shared := ReadWriteLock_new; rw_threads := th |}.

Lemma rw_start_ok th : Z.of_nat (size th) < 2 ^ 31 → map_Forall (λ _ pc, pc = RwIdle) th → rw_ok (rw_start th).
Proof.
  intros Hsz Hid. assert (H0 : ∀ f, f RwIdle = false → count_of f th = 0).
  { intros f Hf. apply count_none. intros t pc Ht. by rewrite (Hid t pc Ht). }
  split; cbn; rewrite ?H0 by done; auto.
Qed.

(** A step while writers wait. *)
Lemma rw_no_new_reader e s s' :
  rw_exec e s = Some s' → 0 < rw_writeWaitCount (rw_shared s) → readers s' <= readers s.
Proof.
  intros He Hw. assert (Hmove : ∀ t old new l, rw_threads s !! t = Some old → rw_reads new = false → readers (rw_at t (new, l) s) <= readers s).
  { intros t old new l Ht Hn. cbn. rewrite (count_insert _ _ _ _ _ Ht), Hn. cbn. destruct (rw_reads old); cbn; lia. }
  assert (Hread : rw_readTry (rw_shared s) = (RwReadSleep, rw_shared s)).
  { unfold rw_readTry. replace (0 <? _) with true by lia. by rewrite orb_true_r. }
  assert (Hwrite : ∀ l, rw_reads (rw_writeTry l).1 = false) by (intros l; unfold rw_writeTry; by destruct (negb _)).
  destruct e as [t|t woken|t|t|t|t]; cbn [rw_exec] in He; destruct (rw_threads s !! t) as [pc|] eqn:Ht; [|done| |done| |done| |done| |done| |done].
  - destruct pc; try done. injection He as <-. unfold ReadWriteLock_readLock. rewrite Hread. by eapply Hmove.
  - destruct pc; try done. pose proof (Hmove t _ RwIdle (ReadWriteLock_readUnlock (rw_shared s)).2 Ht eq_refl) as Hm.
    destruct (ReadWriteLock_readUnlock (rw_shared s)) as [[] l]; cbn [snd] in Hm.
    + destruct woken as [w|]; [|by destruct (decide _); [injection He as <-|]]. apply bind_Some in He as (pc & Hpc & He).
      destruct (rw_asleep pc); [|done]. injection He as <-. etransitivity; [|exact Hm]. cbn [rw_at rw_threads fst snd] in *.
      rewrite (count_insert _ _ _ _ _ Hpc), wake_reads. lia.
    + destruct woken; [done|]. by injection He as <-.
  - destruct pc; try done. injection He as <-. unfold ReadWriteLock_writeLock. set (l := Build_rw_lock _ _). rewrite (surjective_pairing (rw_writeTry l)).
    by eapply Hmove.
  - destruct pc; try done. injection He as <-. cbn [rw_threads]. rewrite count_fmap, (count_insert _ _ _ _ _ Ht) by (intros []; done). cbn. lia.
  - destruct pc; try done; injection He as <-; [rewrite Hread; by eapply Hmove|]. rewrite (surjective_pairing (rw_writeTry (rw_shared s))). by eapply Hmove.
  - cbn [mbind option_bind] in He. destruct (rw_asleep pc); [|done]. injection He as <-. cbn [rw_at rw_threads fst snd].
    rewrite (count_insert _ _ _ _ _ Ht), wake_reads. lia.
Qed.

(** C22: [ReadWriteLock] excludes.  For fewer than 2^31 threads and every interleaving of their calls, wake-ups that nobody asked for included:
    a writer is alone, the count is the number of readers or -1, and while a writer waits no reader gets in. *)
Theorem rw_excludes th es s :
  Z.of_nat (size th) < 2 ^ 31 → map_Forall (λ _ pc, pc = RwIdle) th → run_all rw_exec es (rw_start th) = Some s →
  (∀ t u, rw_threads s !! t = Some RwWriting → rw_threads s !! u = Some RwWriting → t = u) ∧
  (∀ t u, rw_threads s !! t = Some RwWriting → rw_threads s !! u = Some RwReading → False) ∧
  rw_count (rw_shared s) = readers s - writers s ∧ rw_writeWaitCount (rw_shared s) = count_of rw_waits (rw_threads s) ∧
  ∀ t pc e s', rw_threads s !! t = Some pc → rw_waits pc = true → rw_exec e s = Some s' → readers s' <= readers s.
Proof.
  intros Hsz Hid Hr. assert (Hs : rw_ok s).
  { eapply (run_inv rw_exec rw_ok); [|by apply rw_start_ok|done]. intros e s1 s2 _. apply rw_exec_ok. }
  destruct Hs as [_ Hex Hc Hw]. split; [|split; [|split; [done|split; [done|]]]].
  - intros t u Ht Hu. by eapply (count_unique rw_writes (rw_threads s)); [lia|..].
  - intros t u Ht Hu. pose proof (count_pos rw_writes _ _ _ Ht eq_refl). pose proof (count_pos rw_reads _ _ _ Hu eq_refl). lia.
  - intros t pc e s' Ht Hpc He. eapply rw_no_new_reader; [done|]. rewrite Hw. by eapply count_pos.
Qed.

Definition demo_rw : gmap nat rw_pc := list_to_map ((λ t, (t, RwIdle)) <$> [0; 1; 2; 3]%nat).

Lemma demo_rw_idle : map_Forall (λ _ pc, pc = RwIdle) demo_rw.
Proof. by apply map_Forall_to_list; vm_compute; repeat constructor. Qed.

Lemma rw_excludes_witness :
  ∃ s, run_all rw_exec [RwReadLock 0; RwWriteLock 1; RwReadUnlock 0 (Some 1%nat); RwGo 1] (rw_start demo_rw) = Some s ∧
    ∀ u, rw_threads s !! u = Some RwWriting → 1%nat = u.
Proof.
  eexists. split; [vm_compute; reflexivity|]. intros u Hu.
  apply (proj1 (rw_excludes demo_rw [RwReadLock 0; RwWriteLock 1; RwReadUnlock 0 (Some 1%nat); RwGo 1] _ ltac:(vm_compute; done) demo_rw_idle ltac:(vm_compute; reflexivity)) 1%nat u);
    [vm_compute; reflexivity|done].
Defined.

(** *** A wake-up that is lost *)

(** The calls of readers. *)
Definition rw_reader_event (e : rw_event) : Prop := match e with RwReadLock _ | RwReadUnlock _ _ | RwGo _ => True | _ => False end.

(** The lock is free, a writer sleeps and nobody is on the way to wake it. *)
Record rw_stuck (w : nat) (s : rw_state) : Prop := {
  rs_free : rw_count (rw_shared s) = 0 ∧ 0 < rw_writeWaitCount (rw_shared s);
  rs_idle : map_Forall (λ _ pc, pc = RwIdle ∨ pc = RwReadSleep ∨ pc = RwWriteSleep) (rw_threads s);
  rs_sleep : rw_threads s !! w = Some RwWriteSleep }.

Lemma rw_stuck_step w e s s' : rw_reader_event e → rw_stuck w s → rw_exec e s = Some s' → rw_stuck w s'.
Proof.
  intros Hev [[Hc Hw] Hid Hsl] He. assert (Hpc : ∀ t pc, rw_threads s !! t = Some pc → pc = RwIdle ∨ pc = RwReadSleep ∨ pc = RwWriteSleep) by apply Hid.
  destruct e as [t|t woken|t|t|t|t]; try done; cbn [rw_exec] in He; destruct (rw_threads s !! t) as [pc|] eqn:Ht; [|done| |done| |done];
    destruct (Hpc t pc Ht) as [->|[->| ->]]; try done.
  injection He as <-. unfold ReadWriteLock_readLock, rw_readTry. replace (0 <? _) with true by lia. rewrite orb_true_r. split; cbn.
  - done.
  - apply map_Forall_insert_2; [by right; left|done].
  - rewrite lookup_insert_ne; [done|]. intros ->. congruence.
Qed.

(** A waiting writer can be forgotten.  A reader holds the lock, a writer and a second reader sleep; the unlock of the first notifies one
    sleeper, and when that is the reader it goes back to sleep because of the writer.  The lock is then free, and whatever readers call
    from there on, the writer is never woken and no reader gets in. *)
Lemma rw_writer_forgotten :
  ∃ s, run_all rw_exec [RwReadLock 0; RwWriteLock 1; RwReadLock 2; RwReadUnlock 0 (Some 2%nat); RwGo 2] (rw_start demo_rw) = Some s ∧
    rw_count (rw_shared s) = 0 ∧
    ∀ es s', Forall rw_reader_event es → run_all rw_exec es s = Some s' →
      rw_threads s' !! 1%nat = Some RwWriteSleep ∧ readers s' = 0.
Proof.
  eexists. split; [vm_compute; reflexivity|]. split; [reflexivity|]. intros es s' Hes Hr.
  assert (Hs' : rw_stuck 1 s').
  { eapply (run_inv rw_exec (rw_stuck 1)); [|split|exact Hr]; [|done|by apply map_Forall_to_list; vm_compute; repeat constructor; auto|reflexivity].
    intros e s1 s2 Hin. apply rw_stuck_step. by apply (proj1 (list.Forall_forall _ _) Hes). }
  split; [apply Hs'|]. apply count_none. intros t pc Ht. by destruct (rs_idle _ _ Hs' t pc Ht) as [->|[->| ->]].
Qed.

(** ** RWLock *)

Definition sp_reads (pc : spin_pc) : bool := match pc with SpReading => true | _ => false end.
Definition sp_owns (pc : spin_pc) : bool := match pc with SpWaitDec | SpSetId | SpWriting | SpStore => true | _ => false end.
Definition sp_waits (pc : spin_pc) : bool := match pc with SpWriteCas | SpWaitDec => true | _ => false end.

(** A count that was loaded is not that of a writer. *)
Definition loaded_ok (pc : spin_pc) : Prop := match pc with SpCheck c | SpReadCas c => c ≠ sWriteLockStatus | _ => True end.

Abbreviation at_place f s := (count_of f (sp_threads s)).

(** [lockCount] is the number of readers or -1 for the one owner, from its exchange on until it stores 0. *)
Record spin_ok (s : spin_state) : Prop := {
  so_size : Z.of_nat (size (sp_threads s)) < 2 ^ 31;
  so_excl : at_place sp_owns s = 0 ∨ (at_place sp_owns s = 1 ∧ at_place sp_reads s = 0);
  so_count : lockCount (sp_lock s) = at_place sp_reads s - at_place sp_owns s;
  so_wait : writeWaitCount (sp_lock s) = at_place sp_waits s;
  so_id : ∀ t, writeThreadId (sp_lock s) = Some t ↔ sp_threads s !! t = Some SpWriting;
  so_loaded : map_Forall (λ _ pc, loaded_ok pc) (sp_threads s) }.

Lemma spin_move s t old new l :
  spin_ok s → sp_threads s !! t = Some old →
  let r := at_place sp_reads s - Z.b2z (sp_reads old) + Z.b2z (sp_reads new) in
  let w := at_place sp_owns s - Z.b2z (sp_owns old) + Z.b2z (sp_owns new) in
  let q := at_place sp_waits s - Z.b2z (sp_waits old) + Z.b2z (sp_waits new) in
  (w = 0 ∨ (w = 1 ∧ r = 0)) → (0 <= r < 2 ^ 31 → lockCount l = r - w) → (0 <= q < 2 ^ 31 → writeWaitCount l = q) →
  (∀ u, writeThreadId l = Some u ↔ <[t := new]> (sp_threads s) !! u = Some SpWriting) → loaded_ok new →
  spin_ok {| sp_lock := l; sp_threads := <[t := new]> (sp_threads s) |}.
Proof.
  intros [Hsz Hex Hc Hw Hid Hld] Ht r w q Hex' Hc' Hw' Hid' Hld'.
  assert (Hsz' : size (<[t := new]> (sp_threads s)) = size (sp_threads s)) by (apply map_size_insert_Some; by eexists).
  pose proof (count_bound sp_reads (<[t := new]> (sp_threads s))) as Hb. pose proof (count_bound sp_waits (<[t := new]> (sp_threads s))) as Hb'.
  rewrite (count_insert _ _ _ _ _ Ht), Hsz' in Hb. rewrite (count_insert _ _ _ _ _ Ht), Hsz' in Hb'. split; cbn [sp_lock sp_threads];
    rewrite ?Hsz', ?(count_insert sp_reads _ _ _ _ Ht), ?(count_insert sp_owns _ _ _ _ Ht), ?(count_insert sp_waits _ _ _ _ Ht);
    [done|done|apply Hc'; lia|apply Hw'; lia|done|by apply map_Forall_insert_2].
Qed.

(** The thread that owns the lock is not changed. *)
Lemma spin_id s t old new l :
  spin_ok s → sp_threads s !! t = Some old → old ≠ SpWriting → new ≠ SpWriting → writeThreadId l = writeThreadId (sp_lock s) →
  ∀ u, writeThreadId l = Some u ↔ <[t := new]> (sp_threads s) !! u = Some SpWriting.
Proof.
  intros Hs Ht Ho Hn -> u. rewrite (so_id _ Hs). destruct (decide (t = u)) as [<-|Hne]; [rewrite lookup_insert_eq|by rewrite lookup_insert_ne].
  split; congruence.
Qed.

Lemma spin_set_id s t old l :
  spin_ok s → sp_threads s !! t = Some old → at_place sp_owns s = 1 → sp_owns old = true → writeThreadId l = Some t →
  ∀ u, writeThreadId l = Some u ↔ <[t := SpWriting]> (sp_threads s) !! u = Some SpWriting.
Proof.
  intros Hs Ht H1 Ho -> u. destruct (decide (t = u)) as [<-|Hne]; [by rewrite lookup_insert_eq|rewrite lookup_insert_ne by done].
  split; [congruence|]. intros Hu. exfalso. apply Hne. by eapply (count_unique sp_owns (sp_threads s)); [lia|..].
Qed.

Lemma spin_clear_id s t l :
  spin_ok s → sp_threads s !! t = Some SpWriting → writeThreadId l = None →
  ∀ u, writeThreadId l = Some u ↔ <[t := SpStore]> (sp_threads s) !! u = Some SpWriting.
Proof.
  intros Hs Ht -> u. destruct (decide (t = u)) as [<-|Hne]; [by rewrite lookup_insert_eq|rewrite lookup_insert_ne by done].
  split; [done|]. intros Hu. exfalso. apply Hne. eapply (count_unique sp_owns (sp_threads s)); try done. pose proof (so_excl _ Hs). lia.
Qed.

Lemma spin_same s t pc : spin_ok s → sp_threads s !! t = Some pc → spin_ok {| sp_lock := sp_lock s; sp_threads := <[t := pc]> (sp_threads s) |}.
Proof. intros Hs Ht. rewrite insert_id by done. by destruct s. Qed.

(** A step that only changes where a thread is. *)
Lemma spin_moved s t old new :
  spin_ok s → sp_threads s !! t = Some old → old ≠ SpWriting → new ≠ SpWriting → sp_reads old = sp_reads new → sp_owns old = sp_owns new →
  sp_waits old = sp_waits new → loaded_ok new → spin_ok {| sp_lock := sp_lock s; sp_threads := <[t := new]> (sp_threads s) |}.
Proof.
  intros Hs Ht Ho Hn Hr Hw Hq Hl. pose proof Hs as [_ Hex Hc Hwt _ _]. eapply spin_move; [done|done|rewrite Hr, Hw; lia..|rewrite Hq; lia| |done].
  by eapply spin_id.
Qed.

Lemma spin_not_owner s t pc : spin_ok s → sp_threads s !! t = Some pc → pc ≠ SpWriting → writeThreadId (sp_lock s) ≠ Some t.
Proof. intros Hs Ht Hpc H. apply (so_id _ Hs) in H. congruence. Qed.

Lemma spin_calls_ok e s pc pc' l :
  spin_ok s → sp_threads s !! spin_thread e = Some pc → (∀ t w, e ≠ SpGo t w) → spin_act e pc (sp_lock s) = Some (pc', l) →
  spin_ok {| sp_lock := l; sp_threads := <[spin_thread e := pc']> (sp_threads s) |}.
Proof.
  intros Hs Ht Hcall He. pose proof Hs as [Hsz Hex Hc Hw Hid _]. pose proof (count_bound sp_waits (sp_threads s)) as Hb.
  destruct (decide (pc = SpWriting)) as [->|Hpc].
  - pose proof (proj2 (Hid _) Ht) as Hown. pose proof (count_pos sp_owns _ _ _ Ht eq_refl) as Hpos.
    destruct e as [t|t|t|t|t w]; [..|by destruct (Hcall t w)]; cbn [spin_thread spin_act] in *;
      cbv [RWLock_readLock RWLock_readUnlock RWLock_writeLock RWLock_writeUnlock] in He; rewrite (decide_True _ _ Hown) in He.
    1-3: injection He as <- <-; by apply spin_same.
    destruct (lockCount (sp_lock s) =? sWriteLockStatus); [|done]. injection He as <- <-.
    eapply spin_move; [done|done|cbn; lia..|by apply spin_clear_id|done].
  - pose proof (spin_not_owner s _ pc Hs Ht Hpc) as Hown. destruct e as [t|t|t|t|t w]; [..|by destruct (Hcall t w)]; cbn [spin_thread spin_act] in *;
      cbv [RWLock_readLock RWLock_readUnlock RWLock_writeLock RWLock_writeUnlock] in He; rewrite (decide_False _ _ Hown) in He; destruct pc; try done;
      injection He as <- <-.
    + by eapply spin_moved.
    + pose proof (count_pos sp_reads _ _ _ Ht eq_refl). eapply spin_move; [done|done|cbn; lia|cbn; intros; rewrite i32_id; lia|cbn; lia| |done]. by eapply spin_id.
    + pose proof (count_bound sp_waits (<[t := SpWriteCas]> (sp_threads s))) as Hb'.
      rewrite (count_insert _ _ _ _ _ Ht), map_size_insert_Some in Hb' by (by eexists). cbn in Hb'.
      eapply spin_move; [done|done|cbn; lia|cbn; lia|cbn; intros; rewrite i32_id; lia| |done]. by eapply spin_id.
Qed.

Lemma spin_go_ok t weak s pc pc' l :
  spin_ok s → sp_threads s !! t = Some pc → RWLock_go t weak pc (sp_lock s) = Some (pc', l) →
  spin_ok {| sp_lock := l; sp_threads := <[t := pc']> (sp_threads s) |}.
Proof.
  intros Hs Ht He. pose proof Hs as [Hsz Hex Hc Hw Hid Hld]. pose proof (Hld _ _ Ht) as Hl. pose proof (count_bound sp_reads (sp_threads s)) as Hb.
  destruct pc as [| |c|c| | | | | |]; try done; cbn [RWLock_go] in He.
  - injection He as <- <-. destruct (Z.eqb_spec (lockCount (sp_lock s)) sWriteLockStatus); [by apply spin_same|].
    destruct (writeFirst (sp_lock s)); by eapply spin_moved.
  - injection He as <- <-. destruct (0 <? _); by eapply spin_moved.
  - destruct ((lockCount (sp_lock s) =? c) && negb weak) eqn:E; injection He as <- <-; [|by eapply spin_moved]. bool_cases. cbn in Hl. unfold sWriteLockStatus in Hl.
    eapply spin_move; [done|done|cbn; lia|cbn; intros; rewrite i32_id; lia|cbn; lia| |done]. by eapply spin_id.
  - destruct ((lockCount (sp_lock s) =? sFreeStatus) && negb weak) eqn:E; injection He as <- <-; [|by apply spin_same]. bool_cases. unfold sFreeStatus in *.
    eapply spin_move; [done|done|cbn; lia|cbn; unfold sWriteLockStatus; lia|cbn; lia| |done]. by eapply spin_id.
  - injection He as <- <-. pose proof (count_pos sp_owns _ _ _ Ht eq_refl). pose proof (count_pos sp_waits _ _ _ Ht eq_refl).
    eapply spin_move; [done|done|cbn; lia|cbn; lia|cbn; intros; rewrite i32_id; lia| |done]. by eapply spin_id.
  - injection He as <- <-. pose proof (count_pos sp_owns _ _ _ Ht eq_refl). eapply spin_move; [done|done|cbn; lia..| |done]. eapply spin_set_id; try done. lia.
  - injection He as <- <-. pose proof (count_pos sp_owns _ _ _ Ht eq_refl). eapply spin_move; [done|done|cbn; unfold sFreeStatus; lia..| |done]. by eapply spin_id.
Qed.

Lemma spin_exec_ok e s s' : spin_ok s → spin_exec e s = Some s' → spin_ok s'.
Proof.
  intros Hs (pc & Ht & ((pc' & l) & He & [= <-])%bind_Some)%bind_Some.
  destruct e as [t|t|t|t|t w]; [by eapply spin_calls_ok..|by eapply spin_go_ok].
Qed.

Definition spin_start (write_first : bool) (th : gmap nat spin_pc) : spin_state := {| sp_lock := RWLock_new write_first; sp_threads := th |}.

Lemma spin_start_ok wf th : Z.of_nat (size th) < 2 ^ 31 → map_Forall (λ _ pc, pc = SpIdle) th → spin_ok (spin_start wf th).
Proof.
  intros Hsz Hid. assert (H0 : ∀ f, f SpIdle = false → count_of f th = 0).
  { intros f Hf. apply count_none. intros t pc Ht. by rewrite (Hid t pc Ht). }
  split; cbn; rewrite ?H0 by done; auto.
  - intros t. split; [done|]. intros Ht. by specialize (Hid t _ Ht).
  - intros t pc Ht. by rewrite (Hid t pc Ht).
Qed.

(** C23: [RWLock] excludes.  For fewer than 2^31 threads, every interleaving of their accesses to the atomic variables, exchanges that fail for
    no reason included, and calls nested in a write lock: whoever writes is alone, from before its call returns until it gives the lock
    back; the count is the number of readers or -1; a thread that writes can unlock without failing an assertion. *)
Theorem spin_excludes wf th es s :
  Z.of_nat (size th) < 2 ^ 31 → map_Forall (λ _ pc, pc = SpIdle) th → run_all spin_exec es (spin_start wf th) = Some s →
  (∀ t u pc, sp_threads s !! t = Some SpWriting → sp_threads s !! u = Some pc → sp_owns pc = true ∨ pc = SpReading → t = u) ∧
  lockCount (sp_lock s) = at_place sp_reads s - at_place sp_owns s ∧
  (∀ t, sp_threads s !! t = Some SpWriting → is_Some (spin_exec (SpWriteUnlock t) s)).
Proof.
  intros Hsz Hid Hr. assert (Hs : spin_ok s).
  { eapply (run_inv spin_exec spin_ok); [|by apply spin_start_ok|done]. intros e s1 s2 _. apply spin_exec_ok. }
  pose proof Hs as [_ Hex Hc _ Hown _]. split; [|split; [done|]].
  - intros t u pc Ht Hu [Hpc| ->]; [by eapply (count_unique sp_owns (sp_threads s)); [lia|..]|].
    pose proof (count_pos sp_owns _ _ _ Ht eq_refl). pose proof (count_pos sp_reads _ _ _ Hu eq_refl). lia.
  - intros t Ht. pose proof (count_pos sp_owns _ _ _ Ht eq_refl). unfold spin_exec. cbn [spin_thread]. rewrite Ht. cbn [mbind option_bind spin_act RWLock_writeUnlock].
    rewrite decide_True by (by apply Hown). replace (lockCount (sp_lock s)) with sWriteLockStatus by (unfold sWriteLockStatus; lia). cbn. by eexists.
Qed.

Definition demo_spin : gmap nat spin_pc := list_to_map ((λ t, (t, SpIdle)) <$> [0; 1]%nat).

Lemma demo_spin_idle : map_Forall (λ _ pc, pc = SpIdle) demo_spin.
Proof. by apply map_Forall_to_list; vm_compute; repeat constructor. Qed.

Definition demo_write (t : nat) : list spin_event := [SpWriteLock t; SpGo t false; SpGo t false; SpGo t false].

Lemma spin_excludes_witness :
  ∃ s, run_all spin_exec (demo_write 0 ++ [SpReadLock 1; SpGo 1 false]) (spin_start true demo_spin) = Some s ∧
    sp_threads s !! 0%nat = Some SpWriting ∧ is_Some (spin_exec (SpWriteUnlock 0) s).
Proof.
  eexists. split; [vm_compute; reflexivity|]. split; [vm_compute; reflexivity|].
  apply (spin_excludes true demo_spin (demo_write 0 ++ [SpReadLock 1; SpGo 1 false]) _ ltac:(vm_compute; done) demo_spin_idle ltac:(vm_compute; reflexivity)).
  vm_compute. reflexivity.
Defined.

(** Write locks do not nest: the inner unlock gives the lock away, another thread gets it, and the outer unlock fails its assertion. *)
Lemma nested_write_unlocked :
  ∃ s, run_all spin_exec (demo_write 0 ++ [SpWriteLock 0; SpWriteUnlock 0; SpGo 0 false] ++ demo_write 1) (spin_start false demo_spin) = Some s ∧
    sp_threads s !! 1%nat = Some SpWriting ∧ spin_exec (SpWriteUnlock 0) s = None.
Proof. eexists. split; [vm_compute; reflexivity|]. split; vm_compute; reflexivity. Qed.

(** ** AWaiter *)

(** The states that are possible; [t]: the waiter was woken by a limit or without being asked. *)
Definition aw_okb (t : bool) (a : awaiter) : bool :=
  match cvLock a, waiter_at a, invoker_at a with
  | Some Waiter, (WtTry | WtStore), (IvStart | IvLock | IvDone) => true
  | Some Invoker, (WtStart | WtLock | WtSleep | WtWake | WtDone), (IvTry | IvUnlock) => true
  | None, (WtStart | WtLock | WtSleep | WtWake | WtDone), (IvStart | IvLock | IvDone) => true
  | _, _, _ => false
  end &&
  match waiter_at a, w_state a, invoker_at a with
  | WtStart, WIdle, IvStart => negb t
  | (WtStart | WtTry), WDone, IvDone => negb t
  | (WtLock | WtTry), WReady, (IvStart | IvLock | IvTry) => negb t
  | WtLock, WDone, (IvUnlock | IvDone) => negb t
  | WtSleep, WWaiting, (IvStart | IvLock | IvTry) => negb t
  | WtWake, WWaiting, (IvUnlock | IvDone) => true
  | WtStore, WWaiting, IvDone => true
  | WtDone, WDone, IvDone => true
  | (WtWake | WtStore), WWaiting, _ => t
  | WtDone, WDone, _ => t
  | _, _, _ => false
  end.

(** How many steps of the two threads are left at most. *)
Definition aw_left (a : awaiter) : Z :=
  match waiter_at a with WtStart => 5 | WtLock => 4 | WtTry => 3 | WtSleep | WtWake => 2 | WtStore => 1 | WtDone => 0 end +
  match invoker_at a with IvStart => 4 | IvLock => 3 | IvTry => 2 | IvUnlock => 1 | IvDone => 0 end.

Definition aw_timeout (e : aw_event) : bool := match e with AwTimeout => true | _ => false end.

Lemma aw_step_ok e t a a' :
  aw_okb t a = true → aw_exec e a = Some a' →
  aw_okb (t || aw_timeout e) a' = true ∧ 1 + aw_left a' <= aw_left a + (if negb t && aw_timeout e then 1 else 0).
Proof. by destruct t, e, a as [[] [[]|] [] []]; try done; intros _ [= <-]. Qed.

Lemma aw_runs es a :
  run_all aw_exec es AWaiter_new = Some a →
  aw_okb (existsb aw_timeout es) a = true ∧ Z.of_nat (length es) + aw_left a <= 9 + (if existsb aw_timeout es then 1 else 0).
Proof.
  assert (Hgen : ∀ t b, aw_okb t b = true → run_all aw_exec es b = Some a →
    aw_okb (t || existsb aw_timeout es) a = true ∧
    Z.of_nat (length es) + aw_left a <= aw_left b + (if negb t && existsb aw_timeout es then 1 else 0)).
  { induction es as [|e es IH]; intros t b Hb; cbn [run_all existsb length].
    - intros [= <-]. rewrite orb_false_r, andb_false_r. split; [done|lia].
    - intros (b' & He & Hr)%bind_Some. destruct (aw_step_ok e t b b' Hb He) as [Hb' Hlt]. destruct (IH _ b' Hb' Hr) as [Hok Hlen].
      rewrite orb_assoc. split; [done|]. destruct t, (aw_timeout e), (existsb aw_timeout es); cbn [negb andb orb] in *; lia. }
  by apply (Hgen false AWaiter_new).
Qed.

Lemma timeout_in es : existsb aw_timeout es = bool_decide (AwTimeout ∈ es).
Proof.
  induction es as [|e es IH]; [by rewrite bool_decide_eq_false_2 by apply not_elem_of_nil|]. cbn [existsb]. rewrite IH.
  destruct (bool_decide_reflect (AwTimeout ∈ es)) as [Hin|Hout]; symmetry.
  - rewrite orb_true_r. apply bool_decide_eq_true_2. by right.
  - destruct e; cbn; first [apply bool_decide_eq_true_2; by left|apply bool_decide_eq_false_2; by apply not_elem_of_cons].
Qed.

(** C24: waiting for a callback.  A thread waits for another to invoke, with or without a limit.  However their steps interleave, and wherever
    the limit ends or a wake-up comes that nobody asked for: both return, within nine steps and one such wake-up; the
    waiter never sleeps once the other has returned; and the waiter returns before the other only after such a wake-up, so that without a limit, and when
    nobody wakes it without being asked, the waiter object may be gone when it returns. *)
Theorem awaiter_meets es a :
  run_all aw_exec es AWaiter_new = Some a →
  (waiter_at a = WtDone → invoker_at a = IvDone ∨ AwTimeout ∈ es) ∧ (invoker_at a = IvDone → waiter_at a ≠ WtSleep) ∧
  (length es <= if bool_decide (AwTimeout ∈ es) then 10 else 9)%nat ∧
  (aw_exec AwWait a = None → aw_exec AwInvoke a = None → waiter_at a = WtDone ∧ invoker_at a = IvDone).
Proof.
  intros Hr. destruct (aw_runs es a Hr) as [Hok Hlen]. assert (0 <= aw_left a) by (by destruct a as [? ? [] []]). rewrite timeout_in in *.
  assert (Hl : (length es <= if bool_decide (AwTimeout ∈ es) then 10 else 9)%nat) by (destruct (bool_decide _); lia).
  split; [|split; [|split; [done|]]]; clear Hlen Hl Hr.
  - destruct (bool_decide_reflect (AwTimeout ∈ es)); [by right|]. left. by destruct a as [[] [[]|] [] []].
  - by destruct (bool_decide _), a as [[] [[]|] [] []].
  - by destruct (bool_decide _), a as [[] [[]|] [] []].
Qed.

Lemma awaiter_meets_witness :
  ∃ a, run_all aw_exec [AwWait; AwWait; AwInvoke; AwWait; AwInvoke; AwInvoke; AwInvoke; AwWait; AwWait] AWaiter_new = Some a ∧ invoker_at a = IvDone.
Proof.
  eexists. split; [vm_compute; reflexivity|].
  destruct (proj1 (awaiter_meets [AwWait; AwWait; AwInvoke; AwWait; AwInvoke; AwInvoke; AwInvoke; AwWait; AwWait] _ ltac:(vm_compute; reflexivity)) eq_refl)
    as [H|Hin]; [exact H|]. exfalso. revert Hin. apply (bool_decide_unpack _). vm_compute. exact I.
Defined.

(** The waiter does not look at the status when it wakes up: a wake-up that nobody asked for makes it return before the other thread has even
    started, which then uses a waiter that is gone. *)
Lemma spurious_wait_returns :
  ∃ a, run_all aw_exec [AwWait; AwWait; AwWait; AwTimeout; AwWait; AwWait] AWaiter_new = Some a ∧ waiter_at a = WtDone ∧ invoker_at a = IvStart.
Proof. eexists. split; [vm_compute; reflexivity|done]. Qed.
