(* ===== verification/Fifo.v ===== *)
(** * The queue of linked nodes

    src/src/common/bufferqueue.h, class [FifoQueue]: a queue for one thread that pushes and one that pops, without locks.  Values are kept in
    nodes of [nodeCapacity] elements that are linked from the tail, where values are popped, to the head; empty nodes go through a small ring,
    [RecycleBin], back to the pusher.

    Nodes live in a heap under their addresses; an access to an address that was freed or never allocated, a null pointer, an index outside
    of a vector and a failed assertion are [None].  The two threads take turns at every access to something that the other one may access
    too: the indexes [headIdx] and [tailIdx], the cursors and slots of the ring, and the nodes.  What only one thread uses ([headNode],
    [headNodeStartIdx] by the pusher, [tailNode], [tailNodeStartIdx] by the popper) goes along with the next such access. *)
From S2P Require Import Prelude.

(** ** State *)

Record fnode := { elements : list Z; next : option Z }.

(** The heap has the nodes that exist and the next address that [new] gives. *)
Record fifo := {
  nodes : gmap Z fnode; fresh : Z;
  binSize : Z; reusableNodes : list (option Z); cursorHead : Z; cursorTail : Z;
  headIdx : Z; headNodeStartIdx : Z; headNode : option Z;
  tailIdx : Z; tailNodeStartIdx : Z; tailNode : option Z;
  queueCapacity : Z; nodeCapacity : Z }.

Definition set_nodes (m : gmap Z fnode) (q : fifo) : fifo :=
  Build_fifo m (fresh q) (binSize q) (reusableNodes q) (cursorHead q) (cursorTail q) (headIdx q) (headNodeStartIdx q) (headNode q)
    (tailIdx q) (tailNodeStartIdx q) (tailNode q) (queueCapacity q) (nodeCapacity q).
Definition set_bin (l : list (option Z)) (h t : Z) (q : fifo) : fifo :=
  Build_fifo (nodes q) (fresh q) (binSize q) l h t (headIdx q) (headNodeStartIdx q) (headNode q)
    (tailIdx q) (tailNodeStartIdx q) (tailNode q) (queueCapacity q) (nodeCapacity q).
Definition set_head (i s : Z) (n : option Z) (q : fifo) : fifo :=
  Build_fifo (nodes q) (fresh q) (binSize q) (reusableNodes q) (cursorHead q) (cursorTail q) i s n
    (tailIdx q) (tailNodeStartIdx q) (tailNode q) (queueCapacity q) (nodeCapacity q).
Definition set_tail (i s : Z) (n : option Z) (q : fifo) : fifo :=
  Build_fifo (nodes q) (fresh q) (binSize q) (reusableNodes q) (cursorHead q) (cursorTail q) (headIdx q) (headNodeStartIdx q) (headNode q)
    i s n (queueCapacity q) (nodeCapacity q).

(** [new Node(nodeCapacity)]. *)
Definition new_node (q : fifo) : Z * fifo :=
  (fresh q,
   Build_fifo (<[fresh q := {| elements := replicate (Z.to_nat (nodeCapacity q)) 0; next := None |}]> (nodes q)) (fresh q + 1)
     (binSize q) (reusableNodes q) (cursorHead q) (cursorTail q) (headIdx q) (headNodeStartIdx q) (headNode q)
     (tailIdx q) (tailNodeStartIdx q) (tailNode q) (queueCapacity q) (nodeCapacity q)).

(** ** Construction *)

Definition FifoQueue_new : fifo :=
  {| nodes := ∅; fresh := 1; binSize := 3; reusableNodes := replicate 3 None; cursorHead := 0; cursorTail := 0;
     headIdx := 0; headNodeStartIdx := 0; headNode := None; tailIdx := 0; tailNodeStartIdx := 0; tailNode := None;
     queueCapacity := 0; nodeCapacity := 0 |}.

Definition FifoQueue_init (node_capacity capacity : Z) (q : fifo) : Z * fifo :=
  if capacity =? 0 then (-1, q) else
  match headNode q, tailNode q with
  | None, None =>
      let cap := if capacity <? nodeCapacity q then capacity else node_capacity in
      let q := Build_fifo (nodes q) (fresh q) (binSize q) (reusableNodes q) (cursorHead q) (cursorTail q) (headIdx q) (headNodeStartIdx q)
                 (headNode q) (tailIdx q) (tailNodeStartIdx q) (tailNode q) capacity cap in
      let '(n, q) := new_node q in
      (0, set_tail (tailIdx q) (tailNodeStartIdx q) (Some n) (set_head (headIdx q) (headNodeStartIdx q) (Some n) q))
  | _, _ => (-1, q)
  end.

(** ** What the calls test *)

Definition fifo_size (q : fifo) : Z := u32 (headIdx q - tailIdx q).
Definition fifo_full (q : fifo) : bool := fifo_size q =? queueCapacity q.
Definition fifo_empty (q : fifo) : bool := headIdx q =? tailIdx q.
Definition RecycleBin_empty (q : fifo) : bool := cursorHead q =? cursorTail q.
Definition RecycleBin_full (q : fifo) : bool := u32 ((cursorHead q + 1) mod binSize q) =? cursorTail q.

Definition put_element (q : fifo) (a : option Z) (i v : Z) : option fifo :=
  a ← a;
  n ← nodes q !! a;
  _ ← elements n !! Z.to_nat i;
  Some (set_nodes (<[a := {| elements := <[Z.to_nat i := v]> (elements n); next := next n |}]> (nodes q)) q).

Definition get_element (q : fifo) (a : option Z) (i : Z) : option Z :=
  a ← a;
  n ← nodes q !! a;
  elements n !! Z.to_nat i.

Definition put_next (q : fifo) (a : option Z) (x : option Z) : option fifo :=
  a ← a;
  n ← nodes q !! a;
  Some (set_nodes (<[a := {| elements := elements n; next := x |}]> (nodes q)) q).

(** ** The pusher *)

(** Where the pusher is in [push] with the value [v]: outside; before [full]; before the element is written; before the ring is asked; before
    its slot is read; before [cursorTail] is stored; before the node [n] is cut off; before it is linked; before [headIdx] is stored. *)
Inductive pusher :=
| PuIdle | PuCheck (v : Z) | PuWrite (v : Z) | PuBin (v : Z) | PuSlot (v : Z) | PuTail (v n : Z) | PuNull (v n : Z) | PuLink (v n : Z)
| PuDone (v : Z).

Definition push_step (pu : pusher) (q : fifo) : option (pusher * fifo) :=
  match pu with
  | PuIdle => None
  | PuCheck v => Some (if fifo_full q then PuIdle else PuWrite v, q)
  | PuWrite v =>
      let offset := u32 (headIdx q - headNodeStartIdx q) in
      q ← put_element q (headNode q) offset v;
      Some (if u32 (offset + 1) =? nodeCapacity q then PuBin v else PuDone v, q)
  | PuBin v => if RecycleBin_empty q then let '(n, q) := new_node q in Some (PuLink v n, q) else Some (PuSlot v, q)
  | PuSlot v =>
      _ ← assert_that (negb (RecycleBin_empty q));
      slot ← reusableNodes q !! Z.to_nat (cursorTail q);
      n ← slot;
      Some (PuTail v n, q)
  | PuTail v n => Some (PuNull v n, set_bin (reusableNodes q) (cursorHead q) ((cursorTail q + 1) mod binSize q) q)
  | PuNull v n => q ← put_next q (Some n) None; Some (PuLink v n, q)
  | PuLink v n =>
      new ← nodes q !! n;
      _ ← assert_that (bool_decide (next new = None));
      q ← put_next q (headNode q) (Some n);
      Some (PuDone v, set_head (headIdx q) (u64 (headIdx q + 1)) (Some n) q)
  | PuDone v => Some (PuIdle, set_head (u64 (headIdx q + 1)) (headNodeStartIdx q) (headNode q) q)
  end.

(** ** The popper *)

(** Where the popper is: outside; before [empty]; in [front], before the element is read; in [pop] with the value [v], before [empty]; before
    the link of the tail node is read; with that node [n] in hand and before the ring is asked; before its slot is written; before [cursorHead] is
    stored; before [tailIdx] is stored. *)
Inductive popper :=
| PoIdle | PoCheck | PoFront | PoAgain (v : Z) | PoNext (v : Z) | PoBin (v n : Z) | PoSlot (v n : Z) | PoHead (v n : Z) | PoDone (v : Z).

Definition pop_step (po : popper) (q : fifo) : option (popper * fifo) :=
  match po with
  | PoIdle => None
  | PoCheck => Some (if fifo_empty q then PoIdle else PoFront, q)
  | PoFront => v ← get_element q (tailNode q) (u32 (tailIdx q - tailNodeStartIdx q)); Some (PoAgain v, q)
  | PoAgain v =>
      if fifo_empty q then Some (PoIdle, q) else
      let offset := u32 (tailIdx q - tailNodeStartIdx q) in
      Some (if u32 (offset + 1) =? nodeCapacity q then PoNext v else PoDone v, q)
  | PoNext v =>
      n ← tailNode q;
      this ← nodes q !! n;
      Some (PoBin v n, set_tail (tailIdx q) (u64 (tailIdx q + 1)) (next this) q)
  | PoBin v n =>
      if RecycleBin_full q then _ ← nodes q !! n; Some (PoDone v, set_nodes (delete n (nodes q)) q) else Some (PoSlot v n, q)
  | PoSlot v n =>
      _ ← assert_that (negb (RecycleBin_full q));
      _ ← reusableNodes q !! Z.to_nat (cursorHead q);
      Some (PoHead v n, set_bin (<[Z.to_nat (cursorHead q) := Some n]> (reusableNodes q)) (cursorHead q) (cursorTail q) q)
  | PoHead v n => Some (PoDone v, set_bin (reusableNodes q) ((cursorHead q + 1) mod binSize q) (cursorTail q) q)
  | PoDone v => Some (PoIdle, set_tail (u64 (tailIdx q + 1)) (tailNodeStartIdx q) (tailNode q) q)
  end.

(** ** Both *)

(** The values whose push has returned 0 and the values that were popped, in order. *)
Record fifo_state := { queue : fifo; pushing : pusher; popping : popper; accepted : list Z; taken : list Z }.

Inductive fifo_event := FPush (v : Z) | FPushGo | FPop | FPopGo.

Definition fifo_exec (e : fifo_event) (s : fifo_state) : option fifo_state :=
  match e with
  | FPush v => match pushing s with PuIdle => Some (Build_fifo_state (queue s) (PuCheck v) (popping s) (accepted s) (taken s)) | _ => None end
  | FPushGo =>
      '(pu, q) ← push_step (pushing s) (queue s);
      Some (Build_fifo_state q pu (popping s) (match pushing s with PuDone v => accepted s ++ [v] | _ => accepted s end) (taken s))
  | FPop => match popping s with PoIdle => Some (Build_fifo_state (queue s) (pushing s) PoCheck (accepted s) (taken s)) | _ => None end
  | FPopGo =>
      '(po, q) ← pop_step (popping s) (queue s);
      Some (Build_fifo_state q (pushing s) po (accepted s) (match popping s with PoDone v => taken s ++ [v] | _ => taken s end))
  end.

(** ** The end *)

(** The nodes from [a] on are freed. *)
Fixpoint delete_chain (fuel : nat) (a : option Z) (m : gmap Z fnode) : option (gmap Z fnode) :=
  match a, fuel with
  | None, _ => Some m
  | Some _, O => None
  | Some a, S fuel => n ← m !! a; delete_chain fuel (next n) (delete a m)
  end.

(** The loop of [RecycleBin::clear], with [popFreeNode]. *)
Fixpoint clear_bin (fuel : nat) (q : fifo) : option fifo :=
  if RecycleBin_empty q then Some q else
  match fuel with
  | O => None
  | S fuel =>
      slot ← reusableNodes q !! Z.to_nat (cursorTail q);
      a ← slot;
      q ← put_next (set_bin (reusableNodes q) (cursorHead q) ((cursorTail q + 1) mod binSize q) q) (Some a) None;
      clear_bin fuel (set_nodes (delete a (nodes q)) q)
  end.

Definition FifoQueue_clear (q : fifo) : option fifo :=
  if queueCapacity q =? 0 then Some q else
  m ← delete_chain (S (size (nodes q))) (tailNode q) (nodes q);
  q ← clear_bin 3 (set_nodes m q);
  Some (Build_fifo (nodes q) (fresh q) (binSize q) [] (cursorHead q) (cursorTail q) 0 0 None 0 0 None 0 (nodeCapacity q)).
