(* ===== verification/FifoSpec.v ===== *)
(** * The queue of linked nodes is a queue

    One pusher and one popper in any interleaving.  The invariant follows the ownership of nodes: every node is in the chain from tail to
    head, in the ring of empty nodes, or in the hand of one of the threads. *)
From S2P Require Import Prelude Fifo.

(** ** Indexes *)

Lemma u_diff a b : 0 <= a - b < 2 ^ 32 → u32 (u64 a - u64 b) = a - b.
Proof.
  intros H. unfold u32, u64. rewrite (Z.mod_eq a), (Z.mod_eq b) by lia.
  assert (E : a - 2 ^ 64 * (a / 2 ^ 64) - (b - 2 ^ 64 * (b / 2 ^ 64)) = (a - b) + (b / 2 ^ 64 - a / 2 ^ 64) * 2 ^ 32 * 2 ^ 32) by lia.
  rewrite E, Z.mod_add by lia. by apply Z.mod_small.
Qed.

Lemma u_eq a b : 0 <= a - b < 2 ^ 32 → (u64 a =? u64 b) = (a =? b).
Proof.
  intros H. destruct (Z.eqb_spec a b) as [->|Hne]; [apply Z.eqb_refl|]. apply Z.eqb_neq. intros E. pose proof (u_diff a b H) as Hd.
  rewrite E, Z.sub_diag, u32_id in Hd by (unfold is_u32; lia). lia.
Qed.

Lemma u_succ a : u64 (u64 a + 1) = u64 (a + 1).
Proof. unfold u64. by rewrite Zplus_mod_idemp_l. Qed.

(** ** The invariant *)

(** The value of a push that is written and not yet counted. *)
Definition pending (pu : pusher) : list Z :=
  match pu with PuBin v | PuSlot v | PuTail v _ | PuNull v _ | PuLink v _ | PuDone v => [v] | _ => [] end.
Definition pu_hand (pu : pusher) : list Z := match pu with PuNull _ n | PuLink _ n => [n] | _ => [] end.
Definition po_hand (po : popper) : list Z := match po with PoBin _ n | PoSlot _ n | PoHead _ n => [n] | _ => [] end.

(** [h] and [t] values were pushed and popped; the head node starts at [hs] and the tail node at [ts]. *)
Definition pu_at (c : nat) (k : Z) (pu : pusher) (h t hs : nat) : Prop :=
  match pu with
  | PuIdle | PuCheck _ => (hs <= h < hs + c)%nat
  | PuWrite _ => (hs <= h < hs + c)%nat ∧ Z.of_nat h < Z.of_nat t + k
  | PuDone _ => (hs = h + 1 ∨ hs <= h ∧ h + 1 < hs + c)%nat ∧ Z.of_nat h < Z.of_nat t + k
  | _ => (h + 1 = hs + c)%nat ∧ Z.of_nat h < Z.of_nat t + k
  end.

Definition po_at (c : nat) (po : popper) (vs : list Z) (t ts : nat) : Prop :=
  match po with
  | PoIdle | PoCheck => (ts <= t < ts + c)%nat
  | PoFront => (ts <= t < ts + c)%nat ∧ (t < length vs)%nat
  | PoAgain v => (ts <= t < ts + c)%nat ∧ vs !! t = Some v
  | PoNext v => (t + 1 = ts + c)%nat ∧ vs !! t = Some v
  | PoBin v _ | PoSlot v _ | PoHead v _ => (ts = t + 1)%nat ∧ vs !! t = Some v
  | PoDone v => (ts = t + 1 ∨ ts <= t ∧ t + 1 < ts + c)%nat ∧ vs !! t = Some v
  end.

Definition f_pushed s : nat := length (accepted s).
Definition f_popped s : nat := length (taken s).

Record idx_ok (c : nat) (k : Z) (s : fifo_state) (ts hs : nat) (l : list Z) : Prop := {
  io_c : (0 < c)%nat ∧ Z.of_nat c < 2 ^ 32 ∧ nodeCapacity (queue s) = Z.of_nat c;
  io_k : 0 < k < 2 ^ 32 ∧ queueCapacity (queue s) = k;
  io_head : headIdx (queue s) = u64 (Z.of_nat (f_pushed s)) ∧ headNodeStartIdx (queue s) = u64 (Z.of_nat hs) ∧ headNode (queue s) = list.last l;
  io_tail : tailIdx (queue s) = u64 (Z.of_nat (f_popped s)) ∧ tailNodeStartIdx (queue s) = u64 (Z.of_nat ts) ∧ tailNode (queue s) = head l;
  io_starts : (hs + c = ts + length l * c ∧ 0 < length l)%nat;
  io_room : (f_popped s <= f_pushed s)%nat ∧ Z.of_nat (f_pushed s) <= Z.of_nat (f_popped s) + k;
  io_taken : taken s = take (f_popped s) (accepted s);
  io_pu : pu_at c k (pushing s) (f_pushed s) (f_popped s) hs;
  io_po : po_at c (popping s) (accepted s) (f_popped s) ts }.

(** The chain [l]: nodes of [c] elements, linked in order, with the values from the first that was not popped on. *)
Record chain_ok (c : nat) (s : fifo_state) (ts : nat) (l : list Z) : Prop := {
  ch_node : ∀ j a, l !! j = Some a → ∃ n, nodes (queue s) !! a = Some n ∧ length (elements n) = c ∧ next n = l !! S j;
  ch_value : ∀ j a i v, l !! j = Some a → (i < c)%nat → (f_popped s <= ts + j * c + i)%nat →
    (accepted s ++ pending (pushing s)) !! (ts + j * c + i)%nat = Some v → ∃ n, nodes (queue s) !! a = Some n ∧ elements n !! i = Some v }.

(** The ring [b] of empty nodes. *)
Record ring_bin_ok (s : fifo_state) (b : list Z) : Prop := {
  rb_size : binSize (queue s) = 3 ∧ length (reusableNodes (queue s)) = 3%nat ∧ (length b <= 2)%nat;
  rb_tail : 0 <= cursorTail (queue s) < 3;
  rb_head : cursorHead (queue s) = (cursorTail (queue s) + Z.of_nat (length b)) mod 3;
  rb_slots : ∀ j a, b !! j = Some a → reusableNodes (queue s) !! Z.to_nat ((cursorTail (queue s) + Z.of_nat j) mod 3) = Some (Some a);
  rb_pu : match pushing s with PuSlot _ => b ≠ [] | PuTail _ n => head b = Some n | _ => True end;
  rb_po : match popping s with
          | PoSlot _ _ => (length b < 2)%nat
          | PoHead _ n => (length b < 2)%nat ∧ reusableNodes (queue s) !! Z.to_nat (cursorHead (queue s)) = Some (Some n)
          | _ => True
          end }.

Definition owned (s : fifo_state) (l b : list Z) : list Z := l ++ b ++ pu_hand (pushing s) ++ po_hand (popping s).

Record heap_ok (c : nat) (s : fifo_state) (l b : list Z) : Prop := {
  ho_owned : NoDup (owned s l b);
  ho_nodes : ∀ a, a ∈ owned s l b → ∃ n, nodes (queue s) !! a = Some n ∧ length (elements n) = c;
  ho_fresh : ∀ a, is_Some (nodes (queue s) !! a) → a < fresh (queue s);
  ho_all : ∀ a, is_Some (nodes (queue s) !! a) → a ∈ owned s l b;
  ho_link : match pushing s with PuLink _ n => ∃ x, nodes (queue s) !! n = Some x ∧ next x = None | _ => True end }.

Definition fifo_ok (c : nat) (k : Z) (s : fifo_state) : Prop :=
  ∃ ts hs l b, idx_ok c k s ts hs l ∧ chain_ok c s ts l ∧ ring_bin_ok s b ∧ heap_ok c s l b.

(** ** Steps that only move a thread *)

Lemma fifo_moved c k s pu po :
  fifo_ok c k s →
  (∀ ts hs l b, idx_ok c k s ts hs l → ring_bin_ok s b → heap_ok c s l b →
     pu_at c k pu (f_pushed s) (f_popped s) hs ∧ po_at c po (accepted s) (f_popped s) ts ∧
     match pu with PuSlot _ => b ≠ [] | PuTail _ n => head b = Some n | _ => True end ∧
     match po with
     | PoSlot _ _ => (length b < 2)%nat
     | PoHead _ n => (length b < 2)%nat ∧ reusableNodes (queue s) !! Z.to_nat (cursorHead (queue s)) = Some (Some n)
     | _ => True
     end ∧ match pu with PuLink _ n => ∃ x, nodes (queue s) !! n = Some x ∧ next x = None | _ => True end) →
  pending pu = pending (pushing s) → pu_hand pu = pu_hand (pushing s) → po_hand po = po_hand (popping s) →
  fifo_ok c k (Build_fifo_state (queue s) pu po (accepted s) (taken s)).
Proof.
  intros (ts & hs & l & b & Hi & Hc & Hb & Hh) Hmove Hp Hu Ho. destruct (Hmove ts hs l b Hi Hb Hh) as (H1 & H2 & H3 & H4 & H5).
  exists ts, hs, l, b. destruct Hi, Hc as [Hn Hv], Hb, Hh as [Hd Hnd Hf Hal _]. unfold owned in *. split; [by split|]. split; [split|].
  - done.
  - cbn [pushing accepted queue]. rewrite Hp. apply Hv.
  - split; [by split|]. split; unfold owned; cbn [pushing popping queue]; rewrite ?Hu, ?Ho; done.
Qed.

(** ** What is read *)

Lemma read_size c k s ts hs l : idx_ok c k s ts hs l → fifo_size (queue s) = Z.of_nat (f_pushed s - f_popped s).
Proof.
  intros Hi. unfold fifo_size. destruct Hi as [_ [Hk _] [-> _] [-> _] _ [Hle Hroom] _ _ _].
  rewrite u_diff; lia.
Qed.

Lemma read_full c k s : fifo_ok c k s → fifo_full (queue s) = (Z.of_nat (f_pushed s - f_popped s) =? k).
Proof. intros (ts & hs & l & b & Hi & _). unfold fifo_full. rewrite (read_size _ _ _ _ _ _ Hi). by rewrite (proj2 (io_k _ _ _ _ _ _ Hi)). Qed.

Lemma read_empty c k s : fifo_ok c k s → fifo_empty (queue s) = (f_pushed s =? f_popped s)%nat.
Proof.
  intros (ts & hs & l & b & [_ [Hk _] [Hh _] [Ht _] _ [Hle Hroom] _ _ _] & _). unfold fifo_empty. rewrite Hh, Ht, u_eq by lia.
  destruct (Nat.eqb_spec (f_pushed s) (f_popped s)); lia.
Qed.

(** The offset of an index in the node that starts at [b]. *)
Lemma read_offset c a b : (b <= a < b + c)%nat → Z.of_nat c < 2 ^ 32 →
  u32 (u64 (Z.of_nat a) - u64 (Z.of_nat b)) = Z.of_nat (a - b) ∧ (u32 (Z.of_nat (a - b) + 1) =? Z.of_nat c) = (a + 1 =? b + c)%nat.
Proof.
  intros Hab Hc. rewrite u_diff by lia. split; [lia|]. destruct (Z.eqb_spec (u32 (Z.of_nat (a - b) + 1)) (Z.of_nat c)) as [E|E];
    rewrite u32_id in E by (unfold is_u32; lia); destruct (Nat.eqb_spec (a + 1) (b + c)); lia.
Qed.

(** ** The pusher *)

Lemma push_check c k s v : fifo_ok c k s → pushing s = PuCheck v → ∃ s', fifo_exec FPushGo s = Some s' ∧ fifo_ok c k s'.
Proof.
  intros Hs Hpu. cbn [fifo_exec]. rewrite Hpu. cbn [push_step mbind option_bind]. rewrite (read_full c k s Hs). eexists. split; [done|].
  apply fifo_moved; [done| |by rewrite Hpu; destruct (_ =? _)..|done].
  intros ts hs l b [] [] []. rewrite Hpu in *. destruct (Z.eqb_spec (Z.of_nat (f_pushed s - f_popped s)) k) as [E|E]; split_and!; try done; cbn in *; lia.
Qed.

Lemma last_lookup_S {A} (l : list A) a : list.last l = Some a → ∃ j, l !! j = Some a ∧ length l = S j.
Proof.
  intros Hl. rewrite last_lookup in Hl. exists (pred (length l)). split; [done|]. apply lookup_lt_Some in Hl. lia.
Qed.

Lemma place_unique c j i j' i' : (i < c)%nat → (i' < c)%nat → (j * c + i = j' * c + i')%nat → j = j' ∧ i = i'.
Proof.
  intros Hi Hi' H. destruct (Nat.lt_trichotomy j j') as [Hj|[->|Hj]]; [nia|split; [done|lia]|nia].
Qed.

(** A node is written: who owns what does not change. *)
Lemma heap_set c s l b a n n' q pu po acc tk :
  heap_ok c s l b → nodes (queue s) !! a = Some n → length (elements n') = c → nodes q = <[a := n']> (nodes (queue s)) →
  fresh q = fresh (queue s) → pu_hand pu = pu_hand (pushing s) → po_hand po = po_hand (popping s) →
  match pu with PuLink _ x => ∃ y, nodes q !! x = Some y ∧ next y = None | _ => True end →
  heap_ok c (Build_fifo_state q pu po acc tk) l b.
Proof.
  intros [Hd Hnd Hf Hal _] Hn Hlen Hq Hfr Hu Ho Hlk. unfold owned in *. split; unfold owned; cbn [pushing popping queue]; rewrite ?Hu, ?Ho, ?Hq, ?Hfr; [done| | | |].
  - intros x Hx. destruct (decide (a = x)) as [<-|Hne]; [rewrite lookup_insert_eq; by exists n'|rewrite lookup_insert_ne by done; by apply Hnd].
  - intros x Hx. destruct (decide (a = x)) as [<-|Hne]; [by apply Hf; rewrite Hn|]. rewrite lookup_insert_ne in Hx by done. by apply Hf.
  - intros x Hx. apply Hal. destruct (decide (a = x)) as [<-|Hne]; [by rewrite Hn|]. by rewrite lookup_insert_ne in Hx by done.
  - destruct pu; try done. by rewrite Hq in Hlk.
Qed.

Lemma chain_NoDup c s l b : heap_ok c s l b → NoDup l.
Proof. intros Hh. pose proof (ho_owned _ _ _ _ Hh) as Hd. unfold owned in Hd. by apply list.NoDup_app in Hd as [? _]. Qed.

(** The value [v] is written behind the last one. *)
Lemma chain_write c s ts l b j a n v q pu po :
  chain_ok c s ts l → heap_ok c s l b → pending (pushing s) = [] → pending pu = [v] → l !! j = Some a → nodes (queue s) !! a = Some n →
  (ts + j * c <= f_pushed s < ts + j * c + c)%nat →
  nodes q = <[a := {| elements := <[(f_pushed s - (ts + j * c))%nat := v]> (elements n); next := next n |}]> (nodes (queue s)) →
  chain_ok c (Build_fifo_state q pu po (accepted s) (taken s)) ts l.
Proof.
  intros [Hnode Hval] Hh Hp0 Hp Hj Hn Hrange Hq. set (i := (f_pushed s - (ts + j * c))%nat) in *.
  destruct (Hnode j a Hj) as (n0 & Hn0 & Hlen & Hnext). rewrite Hn in Hn0. injection Hn0 as <-. pose proof (chain_NoDup _ _ _ _ Hh) as Hnd.
  set (n' := {| elements := <[i := v]> (elements n); next := next n |}) in *. split; cbn [queue accepted pushing]; rewrite Hq.
  - intros j' a' Hj'. destruct (decide (a = a')) as [<-|Hne]; [|rewrite lookup_insert_ne by done; by apply Hnode].
    rewrite lookup_insert_eq. exists n'. split; [done|]. split; [cbn; by rewrite length_insert|]. by rewrite (list.NoDup_lookup l j' j a Hnd Hj' Hj).
  - rewrite Hp. intros j' a' i' v' Hj' Hi' Hle Hv'. destruct (decide (ts + j' * c + i' = f_pushed s)%nat) as [E|E].
    + destruct (place_unique c j' i' j i) as [-> ->]; [done|lia|lia|]. rewrite Hj in Hj'. injection Hj' as <-. rewrite E, lookup_app_r in Hv' by done.
      unfold f_pushed in Hv'. rewrite Nat.sub_diag in Hv'. injection Hv' as <-. exists n'. rewrite lookup_insert_eq. split; [done|]. cbn. apply list_lookup_insert_eq. lia.
    + assert (Hv : (accepted s ++ pending (pushing s)) !! (ts + j' * c + i')%nat = Some v').
      { rewrite Hp0, app_nil_r. apply lookup_app_Some in Hv' as [?|[Hge Hv']]; [done|]. apply lookup_lt_Some in Hv'. cbn in Hv'. unfold f_pushed in E. lia. }
      destruct (Hval j' a' i' v' Hj' Hi' Hle Hv) as (n0 & Hn0 & He0). destruct (decide (a = a')) as [<-|Hne]; [|exists n0; by rewrite lookup_insert_ne].
      rewrite Hn in Hn0. injection Hn0 as <-. exists n'. rewrite lookup_insert_eq. split; [done|]. cbn. rewrite list_lookup_insert_ne; [done|].
      intros <-. apply E. rewrite (list.NoDup_lookup l j' j a Hnd Hj' Hj). lia.
Qed.

Lemma push_write c k s v : fifo_ok c k s → pushing s = PuWrite v → ∃ s', fifo_exec FPushGo s = Some s' ∧ fifo_ok c k s'.
Proof.
  intros (ts & hs & l & b & Hi & Hc & Hb & Hh) Hpu. pose proof Hi as [(Hc0 & Hcb & Hcap) Hk (Hhi & Hhs & Hhn) Htail [Hst Hl0] Hroom Htk Hat Hpo].
  rewrite Hpu in Hat. destruct Hat as [Hat Hfree]. destruct (list.last l) as [a|] eqn:Hlast; [|apply last_None in Hlast; subst; cbn in Hl0; lia].
  destruct (last_lookup_S l a Hlast) as (j & Hj & Hlen). destruct (ch_node _ _ _ _ Hc j a Hj) as (n & Hn & Hln & Hnx).
  destruct (read_offset c (f_pushed s) hs Hat Hcb) as [Hoff Hlst]. assert (Hhs' : hs = (ts + j * c)%nat) by nia.
  destruct (lookup_lt_is_Some_2 (elements n) (f_pushed s - hs)) as [old Hold]; [lia|].
  cbn [fifo_exec]. rewrite Hpu. cbn [push_step]. rewrite Hhi, Hhs, Hhn, Hoff. cbn [put_element mbind option_bind]. rewrite Hn. cbn [mbind option_bind].
  rewrite Nat2Z.id, Hold. cbn [mbind option_bind set_nodes nodeCapacity]. rewrite Hcap, Hlst. eexists. split; [done|]. exists ts, hs, l, b.
  split; [|split; [|split]].
  - split; try done; [by rewrite Hlast|]. cbn [pushing]. destruct (Nat.eqb_spec (f_pushed s + 1) (hs + c)); (split; [|done]); unfold f_pushed in *; cbn [accepted]; lia.
  - eapply (chain_write c s ts l b j a n v); try done; [by rewrite Hpu|by destruct (_ =? _)%nat|lia|]. by rewrite <-Hhs'.
  - destruct Hb as [H1 H2 H3 H4 _ H6]. split; try done. cbn [pushing]. by destruct (_ =? _)%nat.
  - apply (heap_set c s l b a n {| elements := <[(f_pushed s - hs)%nat := v]> (elements n); next := next n |}); try done; [cbn; by rewrite length_insert|by rewrite Hpu; destruct (_ =? _)%nat|by destruct (_ =? _)%nat].
Qed.

(** The ring: whether it is empty or full. *)
Lemma ring_read s b : ring_bin_ok s b → RecycleBin_empty (queue s) = (length b =? 0)%nat ∧ RecycleBin_full (queue s) = (length b =? 2)%nat.
Proof.
  intros [(Hs & _ & Hle) Ht Hh _ _ _]. unfold RecycleBin_empty, RecycleBin_full. rewrite Hs, Hh.
  assert (Ht' : cursorTail (queue s) = 0 ∨ cursorTail (queue s) = 1 ∨ cursorTail (queue s) = 2) by lia.
  assert (Hl : length b = 0%nat ∨ length b = 1%nat ∨ length b = 2%nat) by lia.
  destruct Ht' as [->|[->| ->]], Hl as [->|[->| ->]]; done.
Qed.

(** The ring does not see what happens elsewhere. *)
Lemma ring_same s b q pu po acc tk :
  ring_bin_ok s b → binSize q = binSize (queue s) → reusableNodes q = reusableNodes (queue s) → cursorHead q = cursorHead (queue s) →
  cursorTail q = cursorTail (queue s) → match pu with PuSlot _ => b ≠ [] | PuTail _ n => head b = Some n | _ => True end → po = popping s →
  ring_bin_ok (Build_fifo_state q pu po acc tk) b.
Proof. intros [H1 H2 H3 H4 _ H6] E1 E2 E3 E4 Hpu ->. split; cbn [queue pushing popping]; rewrite ?E1, ?E2, ?E3, ?E4; done. Qed.

Lemma push_bin c k s v : fifo_ok c k s → pushing s = PuBin v → ∃ s', fifo_exec FPushGo s = Some s' ∧ fifo_ok c k s'.
Proof.
  intros Hs Hpu. destruct Hs as (ts & hs & l & b & Hi & Hc & Hb & Hh). pose proof (proj1 (ring_read s b Hb)) as He. cbn [fifo_exec]. rewrite Hpu. cbn [push_step].
  rewrite He. destruct (Nat.eqb_spec (length b) 0) as [E|E]; cbn [mbind option_bind new_node]; (eexists; split; [done|]).
  - exists ts, hs, l, b. pose proof Hi as [(Hc0 & Hcb & Hcap) H2 H3 H4 H5 H6 H7 H8 H9]. rewrite Hpu in H8. destruct Hh as [Hd Hnd Hf Hal _]. unfold owned in *.
    rewrite Hpu in Hd, Hnd, Hal. cbn [pu_hand app] in Hd, Hnd, Hal. set (x := fresh (queue s)) in *.
    assert (Hx : x ∉ l ++ b ++ po_hand (popping s)). { intros Hx. destruct (Hnd x Hx) as (n & Hn & _). assert (x < x); [|lia]. apply Hf. by rewrite Hn. }
    assert (Hother : ∀ a n, nodes (queue s) !! a = Some n → x ≠ a). { intros a n Ha E'. assert (a < x) by (apply Hf; by rewrite Ha). lia. }
    split; [by split|]. split; [split|split].
    + intros j a Hj. destruct (ch_node _ _ _ _ Hc j a Hj) as (n & Hn & Hrest). exists n. cbn. rewrite lookup_insert_ne by (by eapply Hother). done.
    + cbn [queue nodes accepted pushing]. intros j a i v' Hj Hi' Hle Hv. destruct (ch_value _ _ _ _ Hc j a i v' Hj Hi' Hle) as (n & Hn & Hrest).
      { by rewrite Hpu. } exists n. rewrite lookup_insert_ne by (by eapply Hother). done.
    + by eapply ring_same.
    + split; unfold owned; cbn [pushing popping queue nodes fresh pu_hand].
      * assert (Hperm : l ++ b ++ [x] ++ po_hand (popping s) ≡ₚ x :: l ++ b ++ po_hand (popping s)) by solve_Permutation.
        rewrite Hperm. by apply list.NoDup_cons.
      * intros a Ha. destruct (decide (x = a)) as [<-|Hne].
        -- rewrite lookup_insert_eq. eexists. split; [done|]. cbn. rewrite length_replicate. lia.
        -- rewrite lookup_insert_ne by done. apply Hnd. rewrite !elem_of_app, list_elem_of_singleton in Ha. rewrite !elem_of_app. intuition congruence.
      * intros a Ha. destruct (decide (x = a)) as [<-|Hne]; [lia|]. rewrite lookup_insert_ne in Ha by done. specialize (Hf a Ha). lia.
      * intros a Ha. rewrite !elem_of_app, list_elem_of_singleton. destruct (decide (x = a)) as [<-|Hne]; [tauto|]. rewrite lookup_insert_ne in Ha by done.
        specialize (Hal a Ha). rewrite !elem_of_app in Hal. tauto.
      * rewrite lookup_insert_eq. by eexists.
  - apply (fifo_moved c k s (PuSlot v) (popping s)); [by exists ts, hs, l, b| |by rewrite Hpu..|done].
    intros ts' hs' l' b' [] Hb' []. rewrite Hpu in *. pose proof (proj1 (ring_read s b' Hb')) as He'. destruct Hb'. split_and!; try done.
    intros ->. by rewrite He in He'.
Qed.

Lemma push_slot c k s v : fifo_ok c k s → pushing s = PuSlot v → ∃ s', fifo_exec FPushGo s = Some s' ∧ fifo_ok c k s'.
Proof.
  intros Hs Hpu. pose proof Hs as (ts & hs & l & b & Hi & Hc & Hb & Hh). pose proof (proj1 (ring_read s b Hb)) as He.
  pose proof Hb as [_ Ht _ Hsl Hne _]. rewrite Hpu in Hne. destruct b as [|a b]; [done|]. specialize (Hsl 0%nat a eq_refl).
  rewrite Z.add_0_r, Z.mod_small in Hsl by lia. cbn [fifo_exec]. rewrite Hpu. cbn [push_step]. rewrite He. cbn [length Nat.eqb negb assert_that mbind option_bind].
  rewrite Hsl. cbn [mbind option_bind]. eexists. split; [done|]. exists ts, hs, l, (a :: b). destruct Hi, Hc as [Hn Hv], Hb, Hh as [Hd Hnd Hf Hal _].
  unfold owned in *. rewrite Hpu in *. split; [by split|]. split; [by split; [|cbn [pushing]; rewrite ?Hpu in *]|]. split; [by split|]. by split; unfold owned.
Qed.

Lemma push_tail c k s v a : fifo_ok c k s → pushing s = PuTail v a → ∃ s', fifo_exec FPushGo s = Some s' ∧ fifo_ok c k s'.
Proof.
  intros (ts & hs & l & b & Hi & Hc & Hb & Hh) Hpu. cbn [fifo_exec]. rewrite Hpu. cbn [push_step mbind option_bind]. eexists. split; [done|].
  pose proof Hb as [(Hsz & Hlen & Hle) Ht Hhd Hsl Hne Hpo]. rewrite Hpu in Hne. destruct b as [|a' b]; [done|]. injection Hne as ->.
  exists ts, hs, l, b. destruct Hi, Hc as [Hn Hv], Hh as [Hd Hnd Hf Hal _]. unfold owned in *. rewrite Hpu in *. split; [by split|]. split; [by split|]. split.
  - rewrite Hsz. split; cbn [queue set_bin binSize reusableNodes cursorHead cursorTail pushing popping]; try done.
    + split; [done|]. split; [done|]. cbn in Hle. lia.
    + apply Z.mod_pos_bound. lia.
    + rewrite Hhd, Zplus_mod_idemp_l. f_equal. cbn [length]. lia.
    + intros j x Hj. rewrite Zplus_mod_idemp_l. specialize (Hsl (S j) x Hj). rewrite <-Hsl. do 3 f_equal. lia.
    + destruct (popping s); cbn in Hpo |- *; try done; (lia || (split; [lia|apply Hpo])).
  - assert (Hperm : owned (Build_fifo_state (queue s) (PuNull v a) (popping s) (accepted s) (taken s)) l b ≡ₚ l ++ (a :: b) ++ [] ++ po_hand (popping s)).
    { unfold owned. cbn [pushing popping pu_hand]. solve_Permutation. }
    split; unfold owned in *; cbn [pushing popping queue set_bin nodes fresh] in *; [by rewrite Hperm| |done| |done]; intros x; rewrite Hperm; [apply Hnd|apply Hal].
Qed.

Lemma put_next_ok q a n x : nodes q !! a = Some n → put_next q (Some a) x = Some (set_nodes (<[a := {| elements := elements n; next := x |}]> (nodes q)) q).
Proof. intros Hn. cbn [put_next mbind option_bind]. by rewrite Hn. Qed.

(** A node outside of the chain is written. *)
Lemma chain_other c s ts l a n q pu po acc tk :
  chain_ok c s ts l → a ∉ l → nodes q = <[a := n]> (nodes (queue s)) → acc ++ pending pu = accepted s ++ pending (pushing s) → length tk = length (taken s) →
  chain_ok c (Build_fifo_state q pu po acc tk) ts l.
Proof.
  intros [Hn Hv] Ha Hq Hp Ht. assert (Hne : ∀ j x, l !! j = Some x → a ≠ x) by (intros j x Hj ->; apply Ha; by eapply list_elem_of_lookup_2).
  split; cbn [queue accepted pushing]; rewrite Hq.
  - intros j x Hj. rewrite lookup_insert_ne by (by eapply Hne). by apply Hn.
  - rewrite Hp. unfold f_popped. cbn [taken]. rewrite Ht. intros j x i v Hj. rewrite lookup_insert_ne by (by eapply Hne). by apply Hv.
Qed.

Lemma push_null c k s v a : fifo_ok c k s → pushing s = PuNull v a → ∃ s', fifo_exec FPushGo s = Some s' ∧ fifo_ok c k s'.
Proof.
  intros (ts & hs & l & b & Hi & Hc & Hb & Hh) Hpu. pose proof Hh as [Hd Hnd _ _ _]. unfold owned in Hd, Hnd. rewrite Hpu in Hd, Hnd. cbn [pu_hand] in *.
  destruct (Hnd a) as (n & Hn & Hlen); [rewrite !elem_of_app; right; right; left; by apply list_elem_of_singleton|].
  cbn [fifo_exec]. rewrite Hpu. cbn [push_step]. rewrite (put_next_ok _ _ _ _ Hn). cbn [mbind option_bind]. eexists. split; [done|]. exists ts, hs, l, b.
  split; [|split; [|split]].
  - destruct Hi as [H1 H2 H3 H4 H5 H6 H7 H8 H9]. rewrite Hpu in H8. by split.
  - eapply chain_other; [done| |done|by rewrite Hpu|done]. apply list.NoDup_app in Hd as (_ & Hd & _). intros Ha. apply (Hd a Ha).
    rewrite !elem_of_app. right. left. by apply list_elem_of_singleton.
  - by eapply ring_same.
  - eapply heap_set; [done|exact Hn| |done|done|by rewrite Hpu|done|]; [done|]. cbn [queue nodes set_nodes]. rewrite lookup_insert_eq. by eexists.
Qed.

(** The chain grows by the node [a]. *)
Lemma chain_link c s ts l z a n y v q pu po :
  chain_ok c s ts l → a ∉ l → NoDup l → list.last l = Some z → nodes (queue s) !! z = Some n → nodes (queue s) !! a = Some y → length (elements y) = c →
  next y = None → pending (pushing s) = [v] → pending pu = [v] → (f_pushed s + 1 = ts + length l * c)%nat →
  nodes q = <[z := {| elements := elements n; next := Some a |}]> (nodes (queue s)) →
  chain_ok c (Build_fifo_state q pu po (accepted s) (taken s)) ts (l ++ [a]).
Proof.
  intros [Hn Hv] Ha Hnd Hz Hzn Hay Hlen Hnx Hp0 Hp Hh Hq. destruct (last_lookup_S l z Hz) as (j & Hj & Hl).
  assert (Hza : z ≠ a) by (intros ->; apply Ha; by eapply list_elem_of_lookup_2). split; cbn [queue accepted pushing]; rewrite Hq.
  - intros j' x Hx. apply lookup_app_Some in Hx as [Hx|[Hge Hx]].
    + destruct (Hn j' x Hx) as (n0 & Hn0 & Hl0 & Hx0). destruct (decide (z = x)) as [<-|Hne].
      * rewrite lookup_insert_eq. eexists. split; [done|]. cbn. rewrite Hzn in Hn0. injection Hn0 as <-. split; [done|].
        rewrite (list.NoDup_lookup l j' j z Hnd Hx Hj), lookup_app_r by lia. by replace (S j - length l)%nat with 0%nat by lia.
      * rewrite lookup_insert_ne by done. exists n0. split; [done|]. split; [done|]. rewrite Hx0. symmetry. apply lookup_app_l.
        pose proof (lookup_lt_Some _ _ _ Hx). assert (j' ≠ j) by (intros E; rewrite E, Hj in Hx; injection Hx as ->; done). lia.
    + apply list_lookup_singleton_Some in Hx as [Hj' <-]. rewrite lookup_insert_ne by done. exists y. split; [done|]. split; [done|]. rewrite Hnx. symmetry.
      apply lookup_ge_None. rewrite length_app. cbn. lia.
  - rewrite Hp. intros j' x i w Hx Hi Hle Hw. apply lookup_app_Some in Hx as [Hx|[Hge Hx]].
    + destruct (Hv j' x i w Hx Hi Hle) as (n0 & Hn0 & He0); [by rewrite Hp0|]. destruct (decide (z = x)) as [<-|Hne]; [|exists n0; by rewrite lookup_insert_ne].
      rewrite Hzn in Hn0. injection Hn0 as <-. eexists. rewrite lookup_insert_eq. by split.
    + apply list_lookup_singleton_Some in Hx as [Hj' <-]. exfalso. apply lookup_lt_Some in Hw. rewrite length_app in Hw. cbn in Hw. unfold f_pushed in Hh. nia.
Qed.

Lemma push_link c k s v a : fifo_ok c k s → pushing s = PuLink v a → ∃ s', fifo_exec FPushGo s = Some s' ∧ fifo_ok c k s'.
Proof.
  intros (ts & hs & l & b & Hi & Hc & Hb & Hh) Hpu. pose proof Hh as [Hd Hnd _ Hal Hlk]. unfold owned in Hd, Hnd. rewrite Hpu in Hd, Hnd, Hlk. cbn [pu_hand] in *.
  destruct Hlk as (y & Hy & Hnext). pose proof Hi as [H1 H2 (Hhi & Hhs & Hhn) H4 [Hst Hl0] H6 H7 Hat H9]. rewrite Hpu in Hat. destruct Hat as [Hat Hfree].
  destruct (list.last l) as [z|] eqn:Hlast; [|apply last_None in Hlast; subst; cbn in Hl0; lia]. destruct (last_lookup_S l z Hlast) as (j & Hj & Hlen).
  destruct (ch_node _ _ _ _ Hc j z Hj) as (n & Hn & Hln & _). assert (Ha : a ∉ l).
  { apply list.NoDup_app in Hd as (_ & Hd & _). intros Ha. apply (Hd a Ha). rewrite !elem_of_app. right. left. by apply list_elem_of_singleton. }
  cbn [fifo_exec]. rewrite Hpu. cbn [push_step]. rewrite Hy. cbn [mbind option_bind]. rewrite Hnext. cbn [bool_decide assert_that mbind option_bind decide_rel].
  rewrite bool_decide_eq_true_2 by done. cbn [assert_that mbind option_bind]. rewrite Hhn, (put_next_ok _ _ _ _ Hn). cbn [mbind option_bind]. eexists. split; [done|].
  exists ts, (f_pushed s + 1)%nat, (l ++ [a]), b. split; [|split; [|split]].
  - split; try done; cbn [queue set_head set_nodes headIdx headNodeStartIdx headNode tailIdx tailNodeStartIdx tailNode pushing].
    + rewrite Hhi, u_succ, last_snoc. split; [done|]. split; [|done]. f_equal. unfold f_pushed. cbn [accepted]. lia.
    + destruct H4 as (? & ? & ->). split; [done|]. split; [done|]. by destruct l.
    + rewrite length_app. cbn. split; [nia|lia].
    + split; [left; unfold f_pushed; cbn; lia|done].
  - destruct (Hnd a) as (y' & Hy' & Hly); [rewrite !elem_of_app; right; right; left; by apply list_elem_of_singleton|]. rewrite Hy in Hy'. injection Hy' as <-.
    eapply (chain_link c s ts l z a n y v); try done; [by eapply chain_NoDup|by rewrite Hpu|nia].
  - by eapply ring_same.
  - assert (Hperm : (l ++ [a]) ++ b ++ [] ++ po_hand (popping s) ≡ₚ l ++ b ++ [a] ++ po_hand (popping s)) by solve_Permutation.
    assert (Hh' : heap_ok c (Build_fifo_state (set_nodes (<[z := {| elements := elements n; next := Some a |}]> (nodes (queue s))) (queue s)) (PuNull v a) (popping s) (accepted s) (taken s)) l b).
    { apply (heap_set c s l b z n {| elements := elements n; next := Some a |}); try done. by rewrite Hpu. }
    destruct Hh' as [Hd' Hnd' Hf' Hal' _]. unfold owned in *. cbn [pushing popping pu_hand queue set_nodes nodes fresh] in *.
    split; unfold owned; cbn [pushing popping pu_hand queue set_head set_nodes nodes fresh]; [by rewrite Hperm| |done| |done]; intros x; rewrite Hperm; [apply Hnd'|apply Hal'].
Qed.

Lemma push_done c k s v : fifo_ok c k s → pushing s = PuDone v → ∃ s', fifo_exec FPushGo s = Some s' ∧ fifo_ok c k s'.
Proof.
  intros (ts & hs & l & b & Hi & Hc & Hb & Hh) Hpu. cbn [fifo_exec]. rewrite Hpu. cbn [push_step mbind option_bind]. eexists. split; [done|].
  pose proof Hi as [(Hc0 & H1) H2 (Hhi & Hhs) H4 H5 [Hle Hroom] Htk Hat Hpo]. rewrite Hpu in Hat. destruct Hat as [Hat Hfree].
  assert (Hlen : f_pushed (Build_fifo_state (queue s) PuIdle (popping s) (accepted s ++ [v]) (taken s)) = (f_pushed s + 1)%nat) by (unfold f_pushed; cbn; by rewrite length_app).
  assert (Hlk : ∀ t w, accepted s !! t = Some w → (accepted s ++ [v]) !! t = Some w) by (intros t w Ht; by apply lookup_app_l_Some).
  exists ts, hs, l, b. split; [|split; [|split]].
  - split; try done; unfold f_pushed, f_popped in *; cbn [accepted taken pushing popping queue set_head headIdx headNodeStartIdx headNode tailIdx tailNodeStartIdx tailNode] in *.
    + rewrite Hlen, Hhi, u_succ. split; [f_equal; lia|done].
    + rewrite Hlen. lia.
    + rewrite take_app_le by done. done.
    + rewrite Hlen. cbn. lia.
    + revert Hpo. destruct (popping s); cbn; rewrite ?length_app; intros Hpo; intuition auto; lia.
  - destruct Hc as [Hn Hv]. split; [done|]. cbn [accepted pushing queue pending set_head nodes]. rewrite app_nil_r. rewrite Hpu in Hv. apply Hv.
  - by eapply ring_same.
  - destruct Hh as [Hd Hnd Hf Hal _]. unfold owned in *. rewrite Hpu in *. by split.
Qed.

(** ** The popper *)

(** Steps that leave the nodes alone. *)
Lemma chain_same c s ts l q pu po acc tk :
  chain_ok c s ts l → nodes q = nodes (queue s) → acc ++ pending pu = accepted s ++ pending (pushing s) → (length (taken s) <= length tk)%nat →
  chain_ok c (Build_fifo_state q pu po acc tk) ts l.
Proof.
  intros [Hn Hv] Hq Hp Ht. split; cbn [queue accepted pushing]; rewrite Hq; [done|]. rewrite Hp. unfold f_popped in *. cbn [taken].
  intros j x i v Hj Hi Hle. apply Hv; [done|done|lia].
Qed.

Lemma pop_check c k s : fifo_ok c k s → popping s = PoCheck → ∃ s', fifo_exec FPopGo s = Some s' ∧ fifo_ok c k s'.
Proof.
  intros Hs Hpo. cbn [fifo_exec]. rewrite Hpo. cbn [pop_step mbind option_bind]. rewrite (read_empty c k s Hs). eexists. split; [done|].
  apply fifo_moved; [done| |done|done|by rewrite Hpo; destruct (_ =? _)%nat].
  intros ts hs l b [? ? ? ? ? [Hle _] ? ? Hat] [] []. rewrite Hpo in Hat. split_and!; try done; destruct (Nat.eqb_spec (f_pushed s) (f_popped s)) as [E|E]; try done.
  split; [done|]. unfold f_pushed in *. lia.
Qed.

Lemma pop_front c k s : fifo_ok c k s → popping s = PoFront → ∃ s', fifo_exec FPopGo s = Some s' ∧ fifo_ok c k s'.
Proof.
  intros Hs Hpo. pose proof Hs as (ts & hs & l & b & Hi & Hc & Hb & Hh).
  pose proof Hi as [(Hc0 & Hcb & _) _ _ (Hti & Hts & Htn) [Hst Hl0] _ _ _ Hat]. rewrite Hpo in Hat. destruct Hat as [Hat Hlt].
  destruct l as [|a l]; [cbn in Hl0; lia|]. destruct (read_offset c (f_popped s) ts Hat Hcb) as [Hoff _].
  destruct (lookup_lt_is_Some_2 (accepted s) (f_popped s)) as [v Hv]; [done|].
  destruct (ch_value _ _ _ _ Hc 0%nat a (f_popped s - ts)%nat v) as (n & Hn & He); [done|lia|lia| |].
  { replace (ts + 0 * c + (f_popped s - ts))%nat with (f_popped s) by lia. by apply lookup_app_l_Some. }
  cbn [fifo_exec]. rewrite Hpo. cbn [pop_step]. rewrite Hti, Hts, Htn, Hoff. cbn [get_element head mbind option_bind]. rewrite Hn. cbn [mbind option_bind].
  rewrite Nat2Z.id, He. cbn [mbind option_bind]. eexists. split; [done|].
  exists ts, hs, (a :: l), b. destruct Hi, Hb, Hh as [Hd Hnd Hf Hal Hlk]. unfold owned in *. rewrite Hpo in *. split; [by split|]. split; [by eapply chain_same|]. split; [by split|]. by split; unfold owned.
Qed.

Lemma pop_again c k s v : fifo_ok c k s → popping s = PoAgain v → ∃ s', fifo_exec FPopGo s = Some s' ∧ fifo_ok c k s'.
Proof.
  intros Hs Hpo. pose proof (read_empty c k s Hs) as He. pose proof Hs as (ts & hs & l & b & Hi & Hc & Hb & Hh).
  pose proof Hi as [(Hc0 & Hcb & Hcap) _ _ (Hti & Hts & Htn) [Hst Hl0] _ _ _ Hat]. rewrite Hpo in Hat. destruct Hat as [Hat Hv].
  destruct (read_offset c (f_popped s) ts Hat Hcb) as [Hoff Hlst]. pose proof (lookup_lt_Some _ _ _ Hv) as Hlt. cbn [fifo_exec]. rewrite Hpo. cbn [pop_step].
  rewrite He. replace (f_pushed s =? f_popped s)%nat with false by (symmetry; apply Nat.eqb_neq; unfold f_pushed; lia). rewrite Hti, Hts, Hoff, Hcap, Hlst.
  cbn [mbind option_bind]. eexists. split; [done|]. exists ts, hs, l, b. destruct Hi, Hb, Hh as [Hd Hnd Hf Hal Hlk]. unfold owned in *. rewrite Hpo in *.
  assert (Hhand : po_hand (if (f_popped s + 1 =? ts + c)%nat then PoNext v else PoDone v) = []) by (by destruct (f_popped s + 1 =? ts + c)%nat).
  split; [split; try done|split; [by eapply chain_same|split]].
  - cbn [popping]. destruct (Nat.eqb_spec (f_popped s + 1) (ts + c)); cbn; (split; [|done]); unfold f_popped in *; cbn [taken]; lia.
  - split; try done. cbn [popping]. by destruct (f_popped s + 1 =? ts + c)%nat.
  - split; unfold owned; cbn [pushing popping queue]; rewrite ?Hhand; done.
Qed.

(** The first node leaves the chain. *)
Lemma chain_tail c s ts a l q pu po :
  chain_ok c s ts (a :: l) → nodes q = nodes (queue s) → pending pu = pending (pushing s) →
  chain_ok c (Build_fifo_state q pu po (accepted s) (taken s)) (ts + c) l.
Proof.
  intros [Hn Hv] Hq Hp. split; cbn [queue accepted pushing]; rewrite Hq.
  - intros j x Hj. by apply (Hn (S j) x).
  - rewrite Hp. intros j x i v Hj Hi Hle Hx. apply (Hv (S j) x i v Hj Hi); [|by replace (ts + S j * c + i)%nat with (ts + c + j * c + i)%nat by lia].
    unfold f_popped in *. cbn [taken] in Hle. lia.
Qed.

Lemma pop_next c k s v : fifo_ok c k s → popping s = PoNext v → ∃ s', fifo_exec FPopGo s = Some s' ∧ fifo_ok c k s'.
Proof.
  intros (ts & hs & l & b & Hi & Hc & Hb & Hh) Hpo. pose proof Hi as [(Hc0 & Hcb & Hcap) H2 (Hhi & Hhs & Hhn) (Hti & Hts & Htn) [Hst Hl0] [Hle Hroom] Htk Hpu Hat].
  rewrite Hpo in Hat. destruct Hat as [Hat Hv]. pose proof (lookup_lt_Some _ _ _ Hv) as Hlt. fold (f_pushed s) in Hlt.
  destruct l as [|a [|a2 l]]; [cbn in Hl0; lia| |].
  { exfalso. cbn in Hst. destruct (pushing s); cbn in Hpu; lia. }
  destruct (ch_node _ _ _ _ Hc 0%nat a eq_refl) as (n & Hn & Hln & Hnx). cbn in Hnx.
  cbn [fifo_exec]. rewrite Hpo. cbn [pop_step]. rewrite Htn. cbn [head hd_error mbind option_bind]. rewrite Hn. cbn [mbind option_bind]. eexists. split; [done|].
  exists (ts + c)%nat, hs, (a2 :: l), b. split; [|split; [|split]].
  - split; try done; cbn [queue set_tail headIdx headNodeStartIdx headNode tailIdx tailNodeStartIdx tailNode popping].
    + rewrite Hti, u_succ, Hnx. split; [done|]. split; [f_equal; lia|done].
    + cbn [length] in *. split; [nia|lia].
  - by eapply chain_tail.
  - destruct Hb. by split.
  - assert (Hperm : (a2 :: l) ++ b ++ pu_hand (pushing s) ++ [a] ≡ₚ (a :: a2 :: l) ++ b ++ pu_hand (pushing s) ++ []) by solve_Permutation.
    destruct Hh as [Hd Hnd Hf Hal Hlk]. unfold owned in *. rewrite Hpo in *. cbn [po_hand] in *.
    split; unfold owned; cbn [pushing popping po_hand queue set_tail nodes fresh]; [by rewrite Hperm| |done| |done]; intros x; rewrite Hperm; [apply Hnd|apply Hal].
Qed.

Lemma pop_bin c k s v a : fifo_ok c k s → popping s = PoBin v a → ∃ s', fifo_exec FPopGo s = Some s' ∧ fifo_ok c k s'.
Proof.
  intros (ts & hs & l & b & Hi & Hc & Hb & Hh) Hpo. pose proof (proj2 (ring_read s b Hb)) as He. destruct Hh as [Hd Hnd Hf Hal Hlk]. unfold owned in *. rewrite Hpo in Hd, Hnd, Hal.
  cbn [po_hand] in *. destruct (Hnd a) as (n & Hn & _); [rewrite !elem_of_app; do 3 right; by apply list_elem_of_singleton|].
  cbn [fifo_exec]. rewrite Hpo. cbn [pop_step]. rewrite He. destruct Hi as [H1 H2 H3 H4 H5 H6 H7 H8 H9]. rewrite Hpo in H9. destruct H9 as [H9 Hv].
  destruct (Nat.eqb_spec (length b) 2) as [E|E]; cbn [mbind option_bind]; rewrite ?Hn; cbn [mbind option_bind]; (eexists; split; [done|]); exists ts, hs, l, b.
  - assert (Hd' : NoDup (l ++ b ++ pu_hand (pushing s)) ∧ (a ∉ l ++ b ++ pu_hand (pushing s))).
    { assert (Hperm : l ++ b ++ pu_hand (pushing s) ++ [a] ≡ₚ a :: l ++ b ++ pu_hand (pushing s)) by solve_Permutation. rewrite Hperm in Hd. apply list.NoDup_cons in Hd. tauto. }
    destruct Hd' as [Hd' Ha]. assert (Hother : ∀ x, x ∈ l ++ b ++ pu_hand (pushing s) → delete a (nodes (queue s)) !! x = nodes (queue s) !! x).
    { intros x Hx. apply lookup_delete_ne. by intros ->. }
    split; [split; try done; split; [by left|done]|]. split; [|split].
    + destruct Hc as [Hcn Hcv]. assert (Hl : ∀ j x, l !! j = Some x → delete a (nodes (queue s)) !! x = nodes (queue s) !! x).
      { intros j x Hj. apply Hother, elem_of_app. left. by eapply list_elem_of_lookup_2. }
      split; cbn [queue set_nodes nodes accepted pushing]; intros j x; intros; erewrite Hl by done; [by apply Hcn|by eapply Hcv].
    + destruct Hb. by split.
    + split; unfold owned; cbn [pushing popping po_hand queue set_nodes nodes fresh]; rewrite ?app_nil_r; [done| | | |].
      * intros x Hx. rewrite Hother by done. apply Hnd. rewrite !elem_of_app in *. tauto.
      * intros x [y Hy]. apply lookup_delete_Some in Hy as [_ Hy]. apply Hf. by eexists.
      * intros x [y Hy]. apply lookup_delete_Some in Hy as [Hxa Hy]. specialize (Hal x).
        rewrite !elem_of_app, list_elem_of_singleton in Hal. rewrite !elem_of_app. destruct Hal as [?|[?|[?|?]]]; [by eexists|auto|auto|auto|congruence].
      * destruct (pushing s) eqn:Epu; try done. rewrite Hother; [done|]. rewrite !elem_of_app. right. right. by apply list_elem_of_singleton.
  - split; [by split|]. split; [by eapply chain_same|]. split; [|by split; unfold owned].
    destruct Hb as [(? & ? & Hle) ? ? ? ? _]. split; try done. cbn [popping]. lia.
Qed.

Lemma slot_ne t i j : 0 <= t < 3 → (i < j < 3)%nat → Z.to_nat ((t + Z.of_nat j) mod 3) ≠ Z.to_nat ((t + Z.of_nat i) mod 3).
Proof.
  intros Ht Hij E. apply Z2Nat.inj in E; [|apply Z.mod_pos_bound; lia..]. assert (Hd : (Z.of_nat j - Z.of_nat i) mod 3 = 0).
  { replace (Z.of_nat j - Z.of_nat i) with ((t + Z.of_nat j) - (t + Z.of_nat i)) by lia. by rewrite Zminus_mod, E, Z.sub_diag. }
  rewrite Z.mod_small in Hd by lia. lia.
Qed.

Lemma pop_slot c k s v a : fifo_ok c k s → popping s = PoSlot v a → ∃ s', fifo_exec FPopGo s = Some s' ∧ fifo_ok c k s'.
Proof.
  intros (ts & hs & l & b & Hi & Hc & Hb & Hh) Hpo. pose proof (proj2 (ring_read s b Hb)) as He. destruct Hb as [(Hsz & Hlen & Hle) Ht Hhd Hsl Hpu Hlt].
  rewrite Hpo in Hlt. assert (Hcur : 0 <= cursorHead (queue s) < 3) by (rewrite Hhd; apply Z.mod_pos_bound; lia).
  destruct (lookup_lt_is_Some_2 (reusableNodes (queue s)) (Z.to_nat (cursorHead (queue s)))) as [old Hold]; [lia|].
  cbn [fifo_exec]. rewrite Hpo. cbn [pop_step]. rewrite He. replace (length b =? 2)%nat with false by (symmetry; apply Nat.eqb_neq; lia).
  cbn [negb assert_that mbind option_bind]. rewrite Hold. cbn [mbind option_bind]. eexists. split; [done|]. exists ts, hs, l, b.
  destruct Hi as [H1 H2 H3 H4 H5 H6 H7 H8 H9]. rewrite Hpo in H9. split; [by split|]. split; [by eapply chain_same|]. split.
  - split; cbn [queue set_bin binSize reusableNodes cursorHead cursorTail pushing popping]; try done.
    + by rewrite length_insert.
    + intros j x Hj. pose proof (lookup_lt_Some _ _ _ Hj). rewrite list_lookup_insert_ne by (rewrite Hhd; apply slot_ne; lia). by apply Hsl.
    + split; [done|]. apply list_lookup_insert_eq. lia.
  - destruct Hh as [Hd Hnd Hf Hal Hlk]. unfold owned in *. rewrite Hpo in *. by split; unfold owned.
Qed.

Lemma pop_head c k s v a : fifo_ok c k s → popping s = PoHead v a → ∃ s', fifo_exec FPopGo s = Some s' ∧ fifo_ok c k s'.
Proof.
  intros (ts & hs & l & b & Hi & Hc & Hb & Hh) Hpo. destruct Hb as [(Hsz & Hlen & Hle) Ht Hhd Hsl Hpu Hlt]. rewrite Hpo in Hlt. destruct Hlt as [Hlt Hslot].
  cbn [fifo_exec]. rewrite Hpo. cbn [pop_step mbind option_bind]. eexists. split; [done|]. exists ts, hs, l, (b ++ [a]).
  destruct Hi as [H1 H2 H3 H4 H5 H6 H7 H8 H9]. rewrite Hpo in H9. destruct H9 as [H9 Hv]. split; [split; try done; split; [by left|done]|]. split; [by eapply chain_same|]. split.
  - rewrite Hsz. split; cbn [queue set_bin binSize reusableNodes cursorHead cursorTail pushing popping]; try done.
    + rewrite length_app. cbn. split; [done|]. split; [done|lia].
    + rewrite Hhd, Zplus_mod_idemp_l, length_app. f_equal. cbn. lia.
    + intros j x Hj. apply lookup_app_Some in Hj as [Hj|[Hge Hj]]; [by apply Hsl|]. apply list_lookup_singleton_Some in Hj as [Hj <-].
      rewrite Hhd in Hslot. by replace j with (length b) by lia.
    + destruct (pushing s); try done; [by destruct b|]. destruct b; [done|exact Hpu].
  - assert (Hperm : l ++ (b ++ [a]) ++ pu_hand (pushing s) ++ [] ≡ₚ l ++ b ++ pu_hand (pushing s) ++ [a]) by solve_Permutation.
    destruct Hh as [Hd Hnd Hf Hal Hlk]. unfold owned in *. rewrite Hpo in *. cbn [po_hand] in *.
    split; unfold owned; cbn [pushing popping po_hand queue set_bin nodes fresh]; [by rewrite Hperm| |done| |done]; intros x; rewrite Hperm; [apply Hnd|apply Hal].
Qed.

Lemma pop_done c k s v : fifo_ok c k s → popping s = PoDone v → ∃ s', fifo_exec FPopGo s = Some s' ∧ fifo_ok c k s'.
Proof.
  intros (ts & hs & l & b & Hi & Hc & Hb & Hh) Hpo. cbn [fifo_exec]. rewrite Hpo. cbn [pop_step mbind option_bind]. eexists. split; [done|].
  destruct Hi as [(Hc0 & H1) H2 H3 (Hti & Hts) H5 [Hle Hroom] Htk Hpu Hat]. rewrite Hpo in Hat. destruct Hat as [Hat Hv]. pose proof (lookup_lt_Some _ _ _ Hv) as Hlt.
  assert (Hlen : length (taken s ++ [v]) = (f_popped s + 1)%nat) by (unfold f_popped; by rewrite length_app).
  exists ts, hs, l, b. split; [|split; [|split]].
  - split; try done; unfold f_pushed, f_popped in *; cbn [accepted taken pushing popping queue set_tail headIdx headNodeStartIdx headNode tailIdx tailNodeStartIdx tailNode] in *.
    + rewrite Hlen, Hti, u_succ. split; [f_equal; lia|done].
    + rewrite Hlen. lia.
    + rewrite Hlen, Nat.add_1_r, (take_S_r _ _ v) by done. by f_equal.
    + rewrite Hlen. destruct (pushing s); cbn in *; lia.
    + rewrite Hlen. cbn. lia.
  - eapply chain_same; [done|done|done|]. rewrite length_app. lia.
  - destruct Hb. by split; cbn [popping].
  - destruct Hh as [Hd Hnd Hf Hal Hlk]. unfold owned in *. rewrite Hpo in *. by split; unfold owned.
Qed.

(** ** Runs *)

Lemma push_ok c k s : fifo_ok c k s → pushing s ≠ PuIdle → ∃ s', fifo_exec FPushGo s = Some s' ∧ fifo_ok c k s'.
Proof.
  intros Hs Hpu. destruct (pushing s) eqn:E; [done|..]; eauto using push_check, push_write, push_bin, push_slot, push_tail, push_null, push_link, push_done.
Qed.

Lemma pop_ok c k s : fifo_ok c k s → popping s ≠ PoIdle → ∃ s', fifo_exec FPopGo s = Some s' ∧ fifo_ok c k s'.
Proof.
  intros Hs Hpo. destruct (popping s) eqn:E; [done|..]; eauto using pop_check, pop_front, pop_again, pop_next, pop_bin, pop_slot, pop_head, pop_done.
Qed.

Lemma call_ok c k s pu po :
  fifo_ok c k s → (pu = pushing s ∨ pushing s = PuIdle ∧ ∃ v, pu = PuCheck v) → (po = popping s ∨ popping s = PoIdle ∧ po = PoCheck) →
  fifo_ok c k (Build_fifo_state (queue s) pu po (accepted s) (taken s)).
Proof.
  intros Hs Hpu Hpo. apply fifo_moved; [done| |destruct Hpu as [->|[-> [v ->]]]; done|destruct Hpu as [->|[-> [v ->]]]; done|destruct Hpo as [->|[-> ->]]; done].
  intros ts hs l b [? ? ? ? ? ? ? Hu Ho] [? ? ? ? Hu' Ho'] [_ _ _ _ Hlk]. destruct Hpu as [->|[E [v ->]]], Hpo as [->|[E' ->]]; rewrite ?E, ?E' in *; done.
Qed.

Lemma fifo_exec_ok c k e s s' : fifo_ok c k s → fifo_exec e s = Some s' → fifo_ok c k s'.
Proof.
  intros Hs He. destruct e as [v| | |].
  - cbn [fifo_exec] in He. destruct (pushing s) eqn:E; try done. injection He as <-. apply call_ok; [done|right; split; [done|by exists v]|by left].
  - destruct (push_ok c k s Hs) as (s1 & He1 & Hs1); [|congruence]. intros E. cbn [fifo_exec] in He. by rewrite E in He.
  - cbn [fifo_exec] in He. destruct (popping s) eqn:E; try done. injection He as <-. apply call_ok; [done|by left|right; done].
  - destruct (pop_ok c k s Hs) as (s1 & He1 & Hs1); [|congruence]. intros E. cbn [fifo_exec] in He. by rewrite E in He.
Qed.

(** ** The end *)

Definition freed (l : list Z) (m : gmap Z fnode) : gmap Z fnode := foldl (λ m a, delete a m) m l.

Lemma freed_lookup l m x : freed l m !! x = if decide (x ∈ l) then None else m !! x.
Proof.
  revert m. induction l as [|a l IH]; intros m; cbn [freed foldl]; [done|]. fold (freed l (delete a m)). rewrite IH.
  destruct (decide (x ∈ l)) as [Hx|Hx]; destruct (decide (x ∈ a :: l)) as [Hx'|Hx']; try done.
  - exfalso. apply Hx'. by right.
  - apply elem_of_cons in Hx' as [->|?]; [apply lookup_delete_eq|done].
  - apply lookup_delete_ne. intros ->. apply Hx'. by left.
Qed.

Lemma delete_chain_ok fuel l m :
  NoDup l → (∀ j a, l !! j = Some a → ∃ n, m !! a = Some n ∧ next n = l !! S j) → (length l <= fuel)%nat →
  delete_chain fuel (head l) m = Some (freed l m).
Proof.
  revert l m. induction fuel as [|fuel IH]; intros [|a l] m Hnd Hl Hf; cbn [length] in Hf; [done|lia|done|].
  destruct (Hl 0%nat a eq_refl) as (n & Hn & Hnx). cbn [head hd_error delete_chain]. rewrite Hn. cbn [mbind option_bind]. rewrite Hnx.
  apply list.NoDup_cons in Hnd as [Ha Hnd]. assert (E : (a :: l) !! 1%nat = head l) by (by destruct l). rewrite E. change (freed (a :: l) m) with (freed l (delete a m)). apply IH; [done| |lia].
  intros j x Hj. destruct (Hl (S j) x Hj) as (n' & Hn' & Hnx'). exists n'. split; [|done]. rewrite lookup_delete_ne; [done|].
  intros ->. apply Ha. by eapply list_elem_of_lookup_2.
Qed.

(** The nodes [b] of the ring, from [cursorTail] on. *)
Definition ring_has (q : fifo) (b : list Z) : Prop :=
  (binSize q = 3 ∧ (length b <= 2)%nat) ∧ 0 <= cursorTail q < 3 ∧ cursorHead q = (cursorTail q + Z.of_nat (length b)) mod 3 ∧
  (∀ j a, b !! j = Some a → reusableNodes q !! Z.to_nat ((cursorTail q + Z.of_nat j) mod 3) = Some (Some a)).

Lemma ring_has_empty q b : ring_has q b → RecycleBin_empty q = (length b =? 0)%nat.
Proof.
  intros ((Hs & Hle) & Ht & Hh & _). unfold RecycleBin_empty. rewrite Hh.
  assert (Ht' : cursorTail q = 0 ∨ cursorTail q = 1 ∨ cursorTail q = 2) by lia.
  assert (Hl : length b = 0%nat ∨ length b = 1%nat ∨ length b = 2%nat) by lia.
  destruct Ht' as [->|[->| ->]], Hl as [->|[->| ->]]; done.
Qed.

Lemma clear_bin_ok fuel b q :
  ring_has q b → NoDup b → (∀ a, a ∈ b → is_Some (nodes q !! a)) → (length b <= fuel)%nat → ∃ q', clear_bin fuel q = Some q' ∧ nodes q' = freed b (nodes q).
Proof.
  revert b q. induction fuel as [|fuel IH]; intros [|a b] q Hr Hnd Hn Hf; cbn [length] in Hf; try lia; cbn [clear_bin]; rewrite (ring_has_empty _ _ Hr); cbn [length Nat.eqb];
    [by exists q..|]. destruct Hr as ((Hs & Hle) & Ht & Hh & Hsl). pose proof (Hsl 0%nat a eq_refl) as H0. rewrite Z.add_0_r, Z.mod_small in H0 by lia.
  rewrite H0. cbn [mbind option_bind]. destruct (Hn a) as [n Ha]; [by left|]. apply list.NoDup_cons in Hnd as [Hab Hnd].
  rewrite (put_next_ok _ _ n) by done. cbn [mbind option_bind]. destruct (IH b (set_nodes (delete a (<[a := {| elements := elements n; next := None |}]> (nodes q)))
    (set_bin (reusableNodes q) (cursorHead q) ((cursorTail q + 1) mod binSize q) q))) as (q' & Hq & Hm); [|done| |lia|].
  - cbn [length] in *. rewrite Hs. split_and!; cbn [set_nodes set_bin binSize cursorTail cursorHead reusableNodes]; try done; try lia; [apply Z.mod_pos_bound; lia..| |].
    + rewrite Hh, Zplus_mod_idemp_l. f_equal. lia.
    + intros j x Hj. rewrite Zplus_mod_idemp_l. rewrite <-(Hsl (S j) x Hj). do 3 f_equal. lia.
  - intros x Hx. cbn [set_nodes nodes]. rewrite lookup_delete_ne by (by intros ->). rewrite lookup_insert_ne by (by intros ->). apply Hn. by right.
  - exists q'. split; [exact Hq|]. rewrite Hm. cbn [set_nodes nodes freed foldl]. by rewrite delete_insert_eq.
Qed.

Lemma clear_ok c k s :
  fifo_ok c k s → pushing s = PuIdle → popping s = PoIdle → ∃ q, FifoQueue_clear (queue s) = Some q ∧ nodes q = ∅.
Proof.
  intros (ts & hs & l & b & Hi & Hc & [(Hsz & Hlen & Hle) Ht Hhd Hsl _ _] & Hh) Hpu Hpo. pose proof (chain_NoDup _ _ _ _ Hh) as Hndl.
  destruct Hh as [Hd Hnd Hf Hal _]. unfold owned in *. rewrite Hpu, Hpo in *. cbn [pu_hand po_hand] in *. rewrite !app_nil_r in *.
  apply list.NoDup_app in Hd as (_ & Hdis & Hndb). pose proof Hi as [_ [Hk Hcap] _ (_ & _ & Htn) _ _ _ _ _].
  unfold FifoQueue_clear. rewrite Hcap. replace (k =? 0) with false by lia. rewrite Htn, delete_chain_ok; [|done| |].
  - cbn [mbind option_bind]. destruct (clear_bin_ok 3 b (set_nodes (freed l (nodes (queue s))) (queue s))) as (q & Hq & Hm); [by split|done| |lia|].
    + intros a Ha. cbn [set_nodes nodes]. rewrite freed_lookup, decide_False by (intros Hl; by apply (Hdis a Hl)).
      destruct (Hnd a) as (n & Hn & _); [apply elem_of_app; by right|by exists n].
    + rewrite Hq. cbn [mbind option_bind]. eexists. split; [done|]. cbn [nodes]. rewrite Hm. cbn [set_nodes nodes]. apply map_empty. intros x. rewrite !freed_lookup.
      destruct (decide (x ∈ b)) as [Hb|Hb]; [done|]. destruct (decide (x ∈ l)) as [Hl|Hl]; [done|]. destruct (nodes (queue s) !! x) eqn:E; [|done].
      exfalso. destruct (proj1 (elem_of_app _ _ _) (Hal x ltac:(by rewrite E))); done.
  - intros j a Hj. destruct (ch_node _ _ _ _ Hc j a Hj) as (n & Hn & _ & Hnx). by exists n.
  - apply Nat.le_le_succ_r. assert (Hsub : list_to_set l ⊆@{gset Z} dom (nodes (queue s))).
    { intros x Hx. apply elem_of_list_to_set in Hx. destruct (Hnd x) as (n & Hn & _); [apply elem_of_app; by left|]. by apply elem_of_dom_2 in Hn. }
    apply subseteq_size in Hsub. rewrite size_list_to_set, size_dom in Hsub by done. done.
Qed.

(** ** What users can rely on *)

(** A queue that was initialised with nodes of [c] elements and room for [k] values. *)
Definition fifo_start (c k : Z) : fifo_state := Build_fifo_state (FifoQueue_init c k FifoQueue_new).2 PuIdle PoIdle [] [].

Lemma fifo_start_ok c k : 0 < c < 2 ^ 32 → 0 < k < 2 ^ 32 → fifo_ok (Z.to_nat c) k (fifo_start c k).
Proof.
  intros Hc Hk. assert (E : FifoQueue_init c k FifoQueue_new = (0, set_tail 0 0 (Some 1) (set_head 0 0 (Some 1)
    (new_node (Build_fifo ∅ 1 3 (replicate 3 None) 0 0 0 0 None 0 0 None k c)).2))).
  { unfold FifoQueue_init. replace (k =? 0) with false by lia. cbn [FifoQueue_new headNode tailNode nodeCapacity]. replace (k <? 0) with false by lia. done. }
  unfold fifo_start. rewrite E. exists 0%nat, 0%nat, [1], []. set (n := {| elements := replicate (Z.to_nat c) 0; next := None |}).
  assert (Hn : ∀ a, a ∈ [1] → ∃ n, nodes (snd (0, set_tail 0 0 (Some 1) (set_head 0 0 (Some 1) (new_node (Build_fifo ∅ 1 3 (replicate 3 None) 0 0 0 0 None 0 0 None k c)).2))) !! a = Some n
    ∧ length (elements n) = Z.to_nat c).
  { intros a ->%list_elem_of_singleton. exists n. split; [done|]. cbn. by rewrite length_replicate. }
  split; [|split; [|split]].
  - split; cbn; try done; try lia.
  - split; [|done]. intros [|j] a Hj; [|done]. injection Hj as <-. exists n. split; [done|]. split; [cbn; by rewrite length_replicate|done].
  - split; cbn; try done. split; [done|]. split; [done|lia].
  - split; unfold owned; cbn [pushing popping pu_hand po_hand app]; [apply NoDup_singleton|done| | |done].
    + intros a [x Hx]. cbn in Hx. apply lookup_insert_Some in Hx as [[<- _]|[_ Hx]]; [cbn; lia|by rewrite lookup_empty in Hx].
    + intros a [x Hx]. cbn in Hx. apply lookup_insert_Some in Hx as [[<- _]|[_ Hx]]; [by apply list_elem_of_singleton|by rewrite lookup_empty in Hx].
Qed.

(** C21: [FifoQueue] is a queue for two threads.  One thread pushes and one pops, in any interleaving of their accesses, while nodes are
    linked, emptied, reused and freed: the values that were popped are a beginning of the values that were pushed, in order; no more than
    its capacity are in the queue; no step reaches memory that is not there or fails an assertion; a push is refused exactly when the queue
    is full, and a pop when it is empty; and clearing the queue between calls frees every node once and leaves none. *)
Theorem fifo_is_queue c k es s :
  0 < c < 2 ^ 32 → 0 < k < 2 ^ 32 → run_all fifo_exec es (fifo_start c k) = Some s →
  taken s = take (length (taken s)) (accepted s) ∧ Z.of_nat (length (accepted s)) <= Z.of_nat (length (taken s)) + k ∧
  (pushing s ≠ PuIdle → is_Some (fifo_exec FPushGo s)) ∧ (popping s ≠ PoIdle → is_Some (fifo_exec FPopGo s)) ∧
  (∀ v, pushing s = PuCheck v →
     pushing <$> fifo_exec FPushGo s = Some (if Z.of_nat (length (accepted s) - length (taken s)) =? k then PuIdle else PuWrite v)) ∧
  (popping s = PoCheck → popping <$> fifo_exec FPopGo s = Some (if (length (accepted s) =? length (taken s))%nat then PoIdle else PoFront)) ∧
  (pushing s = PuIdle → popping s = PoIdle → ∃ q, FifoQueue_clear (queue s) = Some q ∧ nodes q = ∅).
Proof.
  intros Hc Hk Hr. assert (Hs : fifo_ok (Z.to_nat c) k s).
  { eapply (run_inv fifo_exec (fifo_ok (Z.to_nat c) k)); [|by apply fifo_start_ok|done]. intros e s1 s2 _. apply fifo_exec_ok. }
  pose proof Hs as (ts & hs & l & b & [_ _ _ _ _ Hroom Htk _ _] & _). split; [exact Htk|]. split; [apply Hroom|]. split_and!.
  - intros Hpu. destruct (push_ok _ _ _ Hs Hpu) as (s' & -> & _). done.
  - intros Hpo. destruct (pop_ok _ _ _ Hs Hpo) as (s' & -> & _). done.
  - intros v Hpu. cbn [fifo_exec]. rewrite Hpu. cbn [push_step mbind option_bind fmap option_fmap option_map pushing]. by rewrite (read_full _ _ _ Hs).
  - intros Hpo. cbn [fifo_exec]. rewrite Hpo. cbn [pop_step mbind option_bind fmap option_fmap option_map popping]. by rewrite (read_empty _ _ _ Hs).
  - by apply clear_ok with (Z.to_nat c) k.
Qed.

(** ** Runs *)

(** A push and a pop that fill and empty a node of one element. *)
Definition demo_push (v : Z) : list fifo_event := FPush v :: replicate 5 FPushGo.
Definition demo_pop : list fifo_event := FPop :: replicate 8 FPopGo.

Lemma fifo_is_queue_witness :
  ∃ s, run_all fifo_exec (demo_push 7 ++ demo_push 8 ++ demo_pop) (fifo_start 1 2) = Some s ∧ accepted s = [7; 8] ∧ taken s = [7] ∧
    ∃ q, FifoQueue_clear (queue s) = Some q ∧ nodes q = ∅.
Proof.
  eexists. split; [vm_compute; reflexivity|]. split; [reflexivity|]. split; [reflexivity|].
  apply (fifo_is_queue 1 2 (demo_push 7 ++ demo_push 8 ++ demo_pop)); [lia|lia|vm_compute; reflexivity|reflexivity|reflexivity].
Defined.

(** [RecycleBin::clear] also clears the vector of slots: a queue that is cleared and initialised again writes outside of it as soon as a node is
    empty. *)
Lemma cleared_queue_breaks :
  ∃ q s, FifoQueue_clear (queue (fifo_start 1 2)) = Some q ∧
    run_all fifo_exec (demo_push 7 ++ FPop :: replicate 5 FPopGo) (Build_fifo_state (FifoQueue_init 1 2 q).2 PuIdle PoIdle [] []) = Some s ∧
    popping s = PoSlot 7 2 ∧ fifo_exec FPopGo s = None.
Proof.
  eexists _, _. split; [vm_compute; reflexivity|]. split; [vm_compute; reflexivity|]. split; [reflexivity|]. vm_compute. reflexivity.
Qed.

(** [init] compares the old capacity of nodes, which is 0, instead of the one asked for: the nodes are not cut to the capacity of the queue,
    and a node of 0 elements is accepted, into which the first push writes. *)
Lemma empty_nodes_accepted :
  (FifoQueue_init 0 2 FifoQueue_new).1 = 0 ∧ nodeCapacity (FifoQueue_init 100 2 FifoQueue_new).2 = 100 ∧
  run_all fifo_exec [FPush 7; FPushGo; FPushGo] (fifo_start 0 2) = None.
Proof. by vm_compute. Qed.
