(* ===== verification/CList.v ===== *)
(** * Doubly linked lists

    src/src/public/list.{h,cc}: elements that are linked both ways, in memory under their addresses, with head, tail and a count.  A null
    pointer is [None]; an access to an address that is not an element is no execution.  The lists are shown to be lists: the operations
    do on the sequence of addresses what their names say. *)
From S2P Require Import Prelude.

(** ** The code *)

Record clist_elem := { prev : option Z; next : option Z }.
Record clist := { head : option Z; tail : option Z; num_nodes : Z }.

Definition set_prev (e : Z) (x : option Z) (m : gmap Z clist_elem) : option (gmap Z clist_elem) :=
  n ← m !! e; Some (<[e := {| prev := x; next := next n |}]> m).
Definition set_next (e : Z) (x : option Z) (m : gmap Z clist_elem) : option (gmap Z clist_elem) :=
  n ← m !! e; Some (<[e := {| prev := prev n; next := x |}]> m).

Definition list_push_front (l : clist) (e : Z) (m : gmap Z clist_elem) : option (clist * gmap Z clist_elem) :=
  match head l with
  | None =>
      m ← set_next e None m;
      m ← set_prev e None m;
      Some ({| head := Some e; tail := Some e; num_nodes := u32 (num_nodes l + 1) |}, m)
  | Some h =>
      m ← set_prev h (Some e) m;
      m ← set_prev e None m;
      m ← set_next e (Some h) m;
      Some ({| head := Some e; tail := tail l; num_nodes := u32 (num_nodes l + 1) |}, m)
  end.

Definition list_push_back (l : clist) (e : Z) (m : gmap Z clist_elem) : option (clist * gmap Z clist_elem) :=
  match tail l with
  | None =>
      m ← set_next e None m;
      m ← set_prev e None m;
      Some ({| head := Some e; tail := Some e; num_nodes := u32 (num_nodes l + 1) |}, m)
  | Some t =>
      m ← set_next t (Some e) m;
      m ← set_prev e (Some t) m;
      m ← set_next e None m;
      Some ({| head := head l; tail := Some e; num_nodes := u32 (num_nodes l + 1) |}, m)
  end.

(** What [list_remove], [list_pop_front] and [list_pop_back] do with an element. *)
Definition unlink (l : clist) (e : Z) (m : gmap Z clist_elem) : option (clist * gmap Z clist_elem) :=
  n ← m !! e;
  m ← match next n with Some x => set_prev x (prev n) m | None => Some m end;
  n ← m !! e;
  m ← match prev n with Some x => set_next x (next n) m | None => Some m end;
  n ← m !! e;
  Some ({| head := if decide (head l = Some e) then next n else head l; tail := if decide (tail l = Some e) then prev n else tail l;
           num_nodes := u32 (num_nodes l - 1) |}, m).

Definition list_remove (l : clist) (e : option Z) (m : gmap Z clist_elem) : option (option Z * clist * gmap Z clist_elem) :=
  match e with
  | None => Some (None, l, m)
  | Some e => '(l, m) ← unlink l e m; n ← m !! e; Some (next n, l, m)
  end.

Definition list_pop_front (l : clist) (m : gmap Z clist_elem) : option (option Z * clist * gmap Z clist_elem) :=
  match head l with
  | None => Some (None, l, m)
  | Some e => '(l, m) ← unlink l e m; Some (Some e, l, m)
  end.

Definition list_pop_back (l : clist) (m : gmap Z clist_elem) : option (option Z * clist * gmap Z clist_elem) :=
  match tail l with
  | None => Some (None, l, m)
  | Some e => '(l, m) ← unlink l e m; Some (Some e, l, m)
  end.

(** ** Segments *)

Definition or_else {A} (x y : option A) : option A := match x with Some _ => x | None => y end.

(** The elements [ls] are linked in order, behind [p] and in front of [x]. *)
Fixpoint segment (p : option Z) (ls : list Z) (x : option Z) (m : gmap Z clist_elem) : Prop :=
  match ls with
  | [] => True
  | a :: ls => m !! a = Some {| prev := p; next := or_else (list.head ls) x |} ∧ segment (Some a) ls x m
  end.

Lemma head_app (l1 l2 : list Z) : list.head (l1 ++ l2) = or_else (list.head l1) (list.head l2).
Proof. by destruct l1. Qed.

Lemma or_else_assoc {A} (x y z : option A) : or_else (or_else x y) z = or_else x (or_else y z).
Proof. by destruct x. Qed.

Lemma last_cons_else (a : Z) l : list.last (a :: l) = or_else (list.last l) (Some a).
Proof. destruct l as [|b l]; [done|]. change (list.last (a :: b :: l)) with (list.last (b :: l)). destruct (list.last (b :: l)) eqn:E; [done|]. by apply last_None in E. Qed.

Lemma segment_app p l1 l2 x m :
  segment p (l1 ++ l2) x m ↔ segment p l1 (or_else (list.head l2) x) m ∧ segment (or_else (list.last l1) p) l2 x m.
Proof.
  revert p. induction l1 as [|a l1 IH]; intros p; cbn [segment app]; [cbn; tauto|]. rewrite IH, head_app, or_else_assoc, last_cons_else, or_else_assoc. cbn. tauto.
Qed.

Lemma segment_frame p ls x m a n : a ∉ ls → segment p ls x m → segment p ls x (<[a := n]> m).
Proof.
  revert p. induction ls as [|b ls IH]; intros p Ha; cbn [segment]; [done|]. apply not_elem_of_cons in Ha as [Hne Ha].
  intros [Hb Hs]. split; [by rewrite lookup_insert_ne|by apply IH].
Qed.

(** The element in front is told its new neighbour. *)
Lemma segment_prev p b ls x m p' :
  (b ∉ ls) → segment p (b :: ls) x m → ∃ m', set_prev b p' m = Some m' ∧ segment p' (b :: ls) x m' ∧ ∀ a, a ≠ b → m' !! a = m !! a.
Proof.
  intros Hb [H Hs]. unfold set_prev. rewrite H. cbn [mbind option_bind]. eexists. split; [done|]. split; [split|].
  - by rewrite lookup_insert_eq.
  - by apply segment_frame.
  - intros a Ha. by rewrite lookup_insert_ne.
Qed.

(** The element at the end is told its new neighbour. *)
Lemma segment_next p b ls x m x' :
  (b ∉ ls) → segment p (ls ++ [b]) x m → ∃ m', set_next b x' m = Some m' ∧ segment p (ls ++ [b]) x' m' ∧ ∀ a, a ≠ b → m' !! a = m !! a.
Proof.
  intros Hb Hs. apply segment_app in Hs as [Hs [H _]]. unfold set_next. rewrite H. cbn [mbind option_bind]. eexists. split; [done|]. split.
  - apply segment_app. split; [by apply segment_frame|]. split; [by rewrite lookup_insert_eq|done].
  - intros a Ha. by rewrite lookup_insert_ne.
Qed.

Lemma segment_ext p ls x m m' : (∀ a, a ∈ ls → m' !! a = m !! a) → segment p ls x m → segment p ls x m'.
Proof.
  revert p. induction ls as [|b ls IH]; intros p Hm; cbn [segment]; [done|]. intros [Hb Hs]. split; [rewrite Hm; [done|by left]|].
  apply IH; [|done]. intros a Ha. apply Hm. by right.
Qed.

(** ** Lists *)

Record clist_ok (ls : list Z) (l : clist) (m : gmap Z clist_elem) : Prop := {
  lo_nodup : NoDup ls;
  lo_head : head l = list.head ls;
  lo_tail : tail l = list.last ls;
  lo_num : num_nodes l = u32 (Z.of_nat (length ls));
  lo_links : segment None ls None m }.

Lemma u32_step a d : u32 (u32 a + d) = u32 (a + d).
Proof. unfold u32. by rewrite Zplus_mod_idemp_l. Qed.

Lemma set_prev_dom e x m m' : set_prev e x m = Some m' → dom m' = dom m.
Proof. intros (n & Hn & [= <-])%bind_Some. apply dom_insert_lookup_L. by eexists. Qed.

Lemma set_next_dom e x m m' : set_next e x m = Some m' → dom m' = dom m.
Proof. intros (n & Hn & [= <-])%bind_Some. apply dom_insert_lookup_L. by eexists. Qed.

Lemma push_front_ok ls l m e :
  clist_ok ls l m → (e ∉ ls) → is_Some (m !! e) → ∃ l' m', list_push_front l e m = Some (l', m') ∧ clist_ok (e :: ls) l' m' ∧ dom m' = dom m.
Proof.
  intros [Hnd Hh Ht Hn Hl] He [n Hm]. unfold list_push_front. rewrite Hh, Hn, u32_step. destruct ls as [|h ls]; cbn [list.head].
  - unfold set_next, set_prev. rewrite Hm. cbn [mbind option_bind]. rewrite lookup_insert_eq. cbn [mbind option_bind next]. do 2 eexists. split; [done|]. split.
    + split; cbn; try done; [apply NoDup_singleton|]. by rewrite lookup_insert_eq.
    + rewrite insert_insert_eq. apply dom_insert_lookup_L. by eexists.
  - apply list.NoDup_cons in Hnd as [Hh' Hnd]. destruct (segment_prev None h ls None m (Some e) Hh' Hl) as (m1 & E1 & Hs1 & Hm1). rewrite E1. cbn [mbind option_bind].
    assert (Hne : e ≠ h) by (intros ->; apply He; by left). assert (He1 : m1 !! e = Some n) by (by rewrite Hm1).
    unfold set_next, set_prev. rewrite He1. cbn [mbind option_bind]. rewrite lookup_insert_eq. cbn [mbind option_bind prev]. do 2 eexists. split; [done|]. split.
    + split; cbn [head tail num_nodes]; try done; [by apply list.NoDup_cons; split; [|apply list.NoDup_cons]|f_equal; cbn; lia|].
      split; [by rewrite lookup_insert_eq|]. by do 2 (apply segment_frame; [done|]).
    + rewrite insert_insert_eq, dom_insert_lookup_L by (by eexists). by eapply set_prev_dom.
Qed.

Lemma push_back_ok ls l m e :
  clist_ok ls l m → (e ∉ ls) → is_Some (m !! e) → ∃ l' m', list_push_back l e m = Some (l', m') ∧ clist_ok (ls ++ [e]) l' m' ∧ dom m' = dom m.
Proof.
  intros [Hnd Hh Ht Hn Hl] He [n Hm]. unfold list_push_back. rewrite Ht, Hn, u32_step.
  destruct ls as [|t ls _] using rev_ind.
  - cbn [list.last]. unfold set_next, set_prev. rewrite Hm. cbn [mbind option_bind]. rewrite lookup_insert_eq. cbn [mbind option_bind next]. do 2 eexists. split; [done|]. split.
    + split; cbn; try done; [apply NoDup_singleton|]. by rewrite lookup_insert_eq.
    + rewrite insert_insert_eq. apply dom_insert_lookup_L. by eexists.
  - rewrite last_snoc. apply list.NoDup_app in Hnd as (Hnd & Hdis & _). assert (Ht' : t ∉ ls) by (intros Hx; apply (Hdis t Hx); by apply list_elem_of_singleton).
    destruct (segment_next None t ls None m (Some e) Ht' Hl) as (m1 & E1 & Hs1 & Hm1). rewrite E1. cbn [mbind option_bind].
    assert (Hne : e ≠ t) by (intros ->; apply He; apply elem_of_app; right; by apply list_elem_of_singleton). assert (He1 : m1 !! e = Some n) by (by rewrite Hm1).
    unfold set_next, set_prev. rewrite He1. cbn [mbind option_bind]. rewrite lookup_insert_eq. cbn [mbind option_bind prev]. do 2 eexists. split; [done|]. split.
    + split; cbn [head tail num_nodes]; try done.
      * apply list.NoDup_app. split; [apply list.NoDup_app; split; [done|split; [done|apply NoDup_singleton]]|]. split; [|apply NoDup_singleton].
        intros x Hx Hxe. apply list_elem_of_singleton in Hxe as ->. done.
      * rewrite Hh. by destruct ls.
      * by rewrite last_snoc.
      * f_equal. rewrite !length_app. cbn. lia.
      * apply segment_app. split; [by do 2 (apply segment_frame; [done|])|]. cbn. rewrite last_snoc. by rewrite lookup_insert_eq.
    + rewrite insert_insert_eq, dom_insert_lookup_L by (by eexists). by eapply set_next_dom.
Qed.

(** The neighbours of an element are told about each other. *)
Lemma fix_right p l2 q m :
  NoDup l2 → segment p l2 None m →
  ∃ m', match list.head l2 with Some x => set_prev x q m | None => Some m end = Some m' ∧ segment q l2 None m' ∧ dom m' = dom m ∧ ∀ a, a ∉ l2 → m' !! a = m !! a.
Proof.
  intros Hnd Hs. destruct l2 as [|b l2]; cbn [list.head]; [by exists m|]. apply list.NoDup_cons in Hnd as [Hb _].
  destruct (segment_prev p b l2 None m q Hb Hs) as (m' & E & Hs' & Hm). exists m'. split; [done|]. split; [done|]. split; [by eapply set_prev_dom|].
  intros a Ha. apply Hm. intros ->. apply Ha. by left.
Qed.

Lemma fix_left l1 x y m :
  NoDup l1 → segment None l1 x m →
  ∃ m', match list.last l1 with Some c => set_next c y m | None => Some m end = Some m' ∧ segment None l1 y m' ∧ dom m' = dom m ∧ ∀ a, a ∉ l1 → m' !! a = m !! a.
Proof.
  intros Hnd Hs. destruct l1 as [|b l1 _] using rev_ind; [by exists m|]. rewrite last_snoc. apply list.NoDup_app in Hnd as (_ & Hdis & _).
  assert (Hb : b ∉ l1) by (intros Hx; apply (Hdis b Hx); by apply list_elem_of_singleton).
  destruct (segment_next None b l1 x m y Hb Hs) as (m' & E & Hs' & Hm). exists m'. split; [done|]. split; [done|]. split; [by eapply set_next_dom|].
  intros a Ha. apply Hm. intros ->. apply Ha, elem_of_app. right. by apply list_elem_of_singleton.
Qed.

(** An element [e] is taken out; its own links stay as they were. *)
Lemma unlink_ok l1 e l2 l m :
  clist_ok (l1 ++ e :: l2) l m →
  ∃ l' m', unlink l e m = Some (l', m') ∧ clist_ok (l1 ++ l2) l' m' ∧ dom m' = dom m ∧ m' !! e = Some {| prev := list.last l1; next := list.head l2 |}.
Proof.
  intros [Hnd Hh Ht Hn Hl]. apply segment_app in Hl as [Hl1 [He Hl2]]. apply list.NoDup_app in Hnd as (Hnd1 & Hdis & Hnd2). apply list.NoDup_cons in Hnd2 as [He2 Hnd2].
  assert (He1 : e ∉ l1) by (intros Hx; apply (Hdis e Hx); by left). assert (Hdis' : ∀ x, x ∈ l1 → x ∉ l2) by (intros x Hx Hx'; apply (Hdis x Hx); by right).
  replace (or_else (list.head l2) None) with (list.head l2) in He by (by destruct (list.head l2)).
  replace (or_else (list.last l1) None) with (list.last l1) in He by (by destruct (list.last l1)).
  destruct (fix_right _ l2 (list.last l1) m Hnd2 Hl2) as (m1 & E1 & Hs1 & Hd1 & Hm1).
  destruct (fix_left l1 (Some e) (list.head l2) m1 Hnd1) as (m2 & E2 & Hs2 & Hd2 & Hm2); [apply (segment_ext _ _ _ m); [|done]; intros a Ha; apply Hm1; by apply Hdis'|].
  unfold unlink. rewrite He. cbn [mbind option_bind next prev]. rewrite E1. cbn [mbind option_bind]. rewrite (Hm1 e), He by done. cbn [mbind option_bind next prev].
  rewrite E2. cbn [mbind option_bind]. rewrite (Hm2 e), (Hm1 e), He by done. cbn [mbind option_bind next prev]. do 2 eexists. split; [done|].
  split; [|split; [congruence|by rewrite Hm2, Hm1]]. split; cbn [head tail num_nodes].
  - apply list.NoDup_app. split; [done|]. split; [|done]. intros x Hx. by apply Hdis'.
  - rewrite Hh, !head_app. destruct l1 as [|c l1]; cbn; [by rewrite decide_True|]. rewrite decide_False; [done|]. intros [= ->]. apply He1. by left.
  - rewrite Ht, !last_app, last_cons. destruct (list.last l2) as [t|] eqn:El.
    + rewrite decide_False; [done|]. intros [= ->]. apply He2. by apply last_Some_elem_of.
    + by rewrite decide_True.
  - rewrite Hn. replace (u32 (Z.of_nat (length (l1 ++ e :: l2))) - 1) with (u32 (Z.of_nat (length (l1 ++ e :: l2))) + -1) by lia. rewrite u32_step. f_equal.
    rewrite !length_app. cbn. lia.
  - apply segment_app. replace (or_else (list.head l2) None) with (list.head l2) by (by destruct (list.head l2)).
    replace (or_else (list.last l1) None) with (list.last l1) by (by destruct (list.last l1)). split; [done|].
    apply (segment_ext _ _ _ m1); [|done]. intros a Ha. apply Hm2. intros Ha'. by apply (Hdis' a Ha').
Qed.

(** ** Programs *)

Inductive clist_op := PushFront (e : Z) | PushBack (e : Z) | Remove (e : Z) | PopFront | PopBack.

Definition clist_exec (o : clist_op) (l : clist) (m : gmap Z clist_elem) : option (option Z * clist * gmap Z clist_elem) :=
  match o with
  | PushFront e => '(l, m) ← list_push_front l e m; Some (None, l, m)
  | PushBack e => '(l, m) ← list_push_back l e m; Some (None, l, m)
  | Remove e => list_remove l (Some e) m
  | PopFront => list_pop_front l m
  | PopBack => list_pop_back l m
  end.

Fixpoint clist_run (os : list clist_op) (l : clist) (m : gmap Z clist_elem) : option (list (option Z) * clist * gmap Z clist_elem) :=
  match os with
  | [] => Some ([], l, m)
  | o :: os => '(r, l, m) ← clist_exec o l m; '(rs, l, m) ← clist_run os l m; Some (r :: rs, l, m)
  end.

(** The same on a sequence: [e] is taken out, and what is behind it is the answer. *)
Fixpoint take_out (e : Z) (ls : list Z) : option Z * list Z :=
  match ls with
  | [] => (None, [])
  | a :: ls => if decide (a = e) then (list.head ls, ls) else let '(r, ls') := take_out e ls in (r, a :: ls')
  end.

Definition seq_exec (o : clist_op) (ls : list Z) : option Z * list Z :=
  match o with
  | PushFront e => (None, e :: ls)
  | PushBack e => (None, ls ++ [e])
  | Remove e => take_out e ls
  | PopFront => (list.head ls, list.tail ls)
  | PopBack => (list.last ls, take (pred (length ls)) ls)
  end.

Fixpoint seq_run (os : list clist_op) (ls : list Z) : list (option Z) * list Z :=
  match os with
  | [] => ([], ls)
  | o :: os => let '(r, ls) := seq_exec o ls in let '(rs, ls) := seq_run os ls in (r :: rs, ls)
  end.

(** Elements are put in that are not in the list, and taken out that are. *)
Definition op_valid (o : clist_op) (ls : list Z) (d : gset Z) : Prop :=
  match o with PushFront e | PushBack e => (e ∉ ls) ∧ e ∈ d | Remove e => e ∈ ls | _ => True end.

Fixpoint ops_valid (os : list clist_op) (ls : list Z) (d : gset Z) : Prop :=
  match os with [] => True | o :: os => op_valid o ls d ∧ ops_valid os (seq_exec o ls).2 d end.

Lemma take_out_split l1 e l2 : e ∉ l1 → take_out e (l1 ++ e :: l2) = (list.head l2, l1 ++ l2).
Proof.
  induction l1 as [|a l1 IH]; intros He; cbn [app take_out]; [by rewrite decide_True|]. apply not_elem_of_cons in He as [Hne He].
  rewrite decide_False by done. by rewrite IH.
Qed.

Lemma clist_exec_ok o ls l m :
  clist_ok ls l m → op_valid o ls (dom m) →
  ∃ l' m', clist_exec o l m = Some ((seq_exec o ls).1, l', m') ∧ clist_ok (seq_exec o ls).2 l' m' ∧ dom m' = dom m.
Proof.
  intros Hl Hv. destruct o as [e|e|e| |]; cbn [clist_exec seq_exec fst snd op_valid] in *.
  - destruct Hv as [He Hd%elem_of_dom]. destruct (push_front_ok ls l m e Hl He Hd) as (l' & m' & -> & H). by exists l', m'.
  - destruct Hv as [He Hd%elem_of_dom]. destruct (push_back_ok ls l m e Hl He Hd) as (l' & m' & -> & H). by exists l', m'.
  - apply list_elem_of_split in Hv as (l1 & l2 & ->). destruct (unlink_ok l1 e l2 l m Hl) as (l' & m' & E & Hl' & Hd & He). cbn [list_remove]. rewrite E.
    cbn [mbind option_bind]. rewrite He. cbn [mbind option_bind next]. exists l', m'. rewrite take_out_split; [done|].
    pose proof (lo_nodup _ _ _ Hl) as Hnd. apply list.NoDup_app in Hnd as (_ & Hdis & _). intros Hx. apply (Hdis e Hx). by left.
  - unfold list_pop_front. rewrite (lo_head _ _ _ Hl). destruct ls as [|e ls]; cbn [list.head list.tail]; [by exists l, m|].
    destruct (unlink_ok [] e ls l m Hl) as (l' & m' & E & Hl' & Hd & _). rewrite E. by exists l', m'.
  - unfold list_pop_back. rewrite (lo_tail _ _ _ Hl). destruct ls as [|e ls _] using rev_ind; [by exists l, m|]. rewrite last_snoc.
    destruct (unlink_ok ls e [] l m Hl) as (l' & m' & E & Hl' & Hd & _). rewrite E. cbn [mbind option_bind]. exists l', m'. split; [done|].
    rewrite length_app, Nat.add_1_r. cbn [pred]. rewrite take_app_length. by rewrite app_nil_r in Hl'.
Qed.

(** The doubly linked lists are lists.  Every program of pushes, removals and pops at both ends on an empty list, which pushes only elements
    that are not in it and removes only those that are, runs without touching anything but elements, answers what it answers on a
    sequence of addresses, and leaves head, tail, count and all links in both directions as that sequence says. *)
Lemma clist_refines_sequence os m :
  ops_valid os [] (dom m) →
  ∃ l' m', clist_run os {| head := None; tail := None; num_nodes := 0 |} m = Some ((seq_run os []).1, l', m') ∧ clist_ok (seq_run os []).2 l' m'.
Proof.
  intros Hv. assert (Hgen : ∀ os ls l m, clist_ok ls l m → ops_valid os ls (dom m) →
    ∃ l' m', clist_run os l m = Some ((seq_run os ls).1, l', m') ∧ clist_ok (seq_run os ls).2 l' m').
  { clear. induction os as [|o os IH]; intros ls l m Hl Hv; cbn [clist_run seq_run]; [by exists l, m|]. destruct Hv as [Hv Hvs].
    destruct (clist_exec_ok o ls l m Hl Hv) as (l1 & m1 & -> & Hl1 & Hd). cbn [mbind option_bind]. rewrite <-Hd in Hvs.
    destruct (seq_exec o ls) as [r ls1]. cbn [fst snd] in *. destruct (IH ls1 l1 m1 Hl1 Hvs) as (l2 & m2 & -> & Hl2). cbn [mbind option_bind].
    destruct (seq_run os ls1) as [rs ls2]. by exists l2, m2. }
  apply Hgen; [|done]. split; cbn; try done. constructor.
Qed.

Lemma clist_refines_sequence_witness :
  let m : gmap Z clist_elem := list_to_map ((λ e, (e, {| prev := None; next := None |})) <$> [1; 2; 3]) in
  ∃ l m', clist_run [PushBack 2; PushFront 1; PushBack 3; Remove 2; PopBack] {| head := None; tail := None; num_nodes := 0 |} m =
    Some ([None; None; None; Some 3; Some 3], l, m') ∧ clist_ok [1] l m'.
Proof.
  intros m. apply (clist_refines_sequence [PushBack 2; PushFront 1; PushBack 3; Remove 2; PopBack] m).
  cbn [ops_valid op_valid seq_exec snd fst app take_out decide]. split_and!; try done; rewrite ?not_elem_of_cons; try set_solver.
Defined.
