(* ===== verification/Url.v ===== *)
(** * Encoding for URLs

    src/src/public/url.{h,cc}: two pairs of functions, on C strings in blocks from [malloc] and on [std::string].  Characters are bytes, and
    [char] is signed where the code computes with it, and [isalnum], [isdigit] and [tolower] are those of the C locale, which answer
    for negative characters too.  A write behind the end of a block is no execution. *)
From S2P Require Import Prelude.

(** ** The code *)

Definition isdigit (c : Z) : bool := (48 <=? c) && (c <=? 57).
Definition isupper (c : Z) : bool := (65 <=? c) && (c <=? 90).
Definition islower (c : Z) : bool := (97 <=? c) && (c <=? 122).
Definition isalnum (c : Z) : bool := isdigit c || isupper c || islower c.
Definition tolower (c : Z) : Z := if isupper c then c + 32 else c.

(** [from_hex] is a [char]. *)
Definition from_hex (ch : Z) : Z :=
  schar (u8 (if isdigit (schar ch) then schar ch - 48 else tolower (schar ch) - 97 + 10)).

Definition hex : list Z := [48; 49; 50; 51; 52; 53; 54; 55; 56; 57; 97; 98; 99; 100; 101; 102].
Definition to_hex (code : Z) : option Z := hex !! Z.to_nat (Z.land code 15).

Definition kept (c : Z) : bool := isalnum (schar c) || (c =? 45) || (c =? 95) || (c =? 46) || (c =? 126).

(** [*pbuf++ = c] in a block of [cap] bytes of which [out] are written. *)
Definition emit (cap : Z) (out : list Z) (c : Z) : option (list Z) :=
  if Z.of_nat (length out) <? cap then Some (out ++ [u8 c]) else None.

Fixpoint encodeLoop (cap : Z) (str out : list Z) : option (list Z) :=
  match str with
  | [] => emit cap out 0
  | c :: str =>
      if kept c then out ← emit cap out c; encodeLoop cap str out else
      out ← emit cap out 37;
      h ← to_hex (Z.shiftr (schar c) 4);
      out ← emit cap out h;
      h ← to_hex (Z.land (schar c) 15);
      out ← emit cap out h;
      encodeLoop cap str out
  end.

(** The C string [str], without its zero; the result has one. *)
Definition url_encode (str : list Z) : option (list Z) := encodeLoop (Z.of_nat (length str) * 3 + 1) str [].

(** [str] is what is left; a [%] at the end, with fewer than two characters behind it, is dropped. *)
Fixpoint decodeLoop (cap : Z) (str out : list Z) : option (list Z) :=
  match str with
  | [] => emit cap out 0
  | c :: str =>
      if c =? 37 then
        match str with
        | a :: b :: str => out ← emit cap out (Z.lor (Z.shiftl (from_hex a) 4) (from_hex b)); decodeLoop cap str out
        | _ => decodeLoop cap str out
        end
      else out ← emit cap out c; decodeLoop cap str out
  end.

Definition url_decode (str : list Z) : option (list Z) := decodeLoop (Z.of_nat (length str) + 1) str [].

(** The loops of [urlEncode] and [urlDecode], which append to a string. *)
Fixpoint encodeString (url : list Z) : option (list Z) :=
  match url with
  | [] => Some []
  | c :: url =>
      rest ← encodeString url;
      if kept c then Some (c :: rest) else
      h1 ← to_hex (Z.shiftr (schar c) 4);
      h2 ← to_hex (Z.land (schar c) 15);
      Some (37 :: h1 :: h2 :: rest)
  end.

Fixpoint decodeString (url : list Z) : list Z :=
  match url with
  | [] => []
  | c :: url =>
      if c =? 37 then
        match url with
        | a :: b :: url => u8 (Z.lor (Z.shiftl (from_hex a) 4) (from_hex b)) :: decodeString url
        | _ => decodeString url
        end
      else c :: decodeString url
  end.

(** Their index has 32 bits: on a string of 2^32 characters or more it starts again at 0 and the loop does not end. *)
Definition urlEncode (url : list Z) : option (list Z) := if Z.of_nat (length url) <? 2 ^ 32 then encodeString url else None.
Definition urlDecode (url : list Z) : option (list Z) := if Z.of_nat (length url) <? 2 ^ 32 then Some (decodeString url) else None.

(** ** Percent encoding *)

(** The reference: unreserved characters stay, any other byte is [%] and its two hexadecimal digits. *)
Definition hex_digit (d : Z) : Z := if d <? 10 then 48 + d else 97 + (d - 10).
Definition percent (c : Z) : list Z := if kept c then [c] else [37; hex_digit (c / 16); hex_digit (c mod 16)].

(** A check for all bytes. *)
Lemma all_bytes (f : Z → bool) : forallb f (seqZ 0 256) = true → ∀ c, is_u8 c → f c = true.
Proof. intros H c Hc. rewrite forallb_forall in H. apply H, list_elem_of_In, elem_of_seqZ. unfold is_u8 in Hc. lia. Qed.

Definition byte_ok (c : Z) : bool :=
  bool_decide (to_hex (Z.shiftr (schar c) 4) = Some (hex_digit (c / 16))) && bool_decide (to_hex (Z.land (schar c) 15) = Some (hex_digit (c mod 16))) &&
  bool_decide (u8 (Z.lor (Z.shiftl (from_hex (hex_digit (c / 16))) 4) (from_hex (hex_digit (c mod 16)))) = c) &&
  bool_decide (Forall (λ x, is_u8 x ∧ x ≠ 0) (percent c)) && negb (kept c && (c =? 37)).

Lemma byte_facts c :
  is_u8 c → to_hex (Z.shiftr (schar c) 4) = Some (hex_digit (c / 16)) ∧ to_hex (Z.land (schar c) 15) = Some (hex_digit (c mod 16)) ∧
    u8 (Z.lor (Z.shiftl (from_hex (hex_digit (c / 16))) 4) (from_hex (hex_digit (c mod 16)))) = c ∧
    Forall (λ x, is_u8 x ∧ x ≠ 0) (percent c) ∧ (kept c = true → c ≠ 37).
Proof.
  intros Hc. assert (Hb : byte_ok c = true) by (apply all_bytes; [vm_compute; reflexivity|done]). unfold byte_ok in Hb.
  apply andb_prop in Hb as [Hb H5]. apply andb_prop in Hb as [Hb H4%bool_decide_eq_true]. apply andb_prop in Hb as [Hb H3%bool_decide_eq_true].
  apply andb_prop in Hb as [H1%bool_decide_eq_true H2%bool_decide_eq_true]. split_and!; try done. intros Hk ->. by rewrite Hk in H5.
Qed.

Lemma encodeString_percent url : Forall is_u8 url → encodeString url = Some (mjoin (percent <$> url)).
Proof.
  induction 1 as [|c url Hc _ IH]; [done|]. destruct (byte_facts c Hc) as (H1 & H2 & _). cbn [encodeString]. rewrite IH, H1, H2, fmap_cons.
  cbn [mbind option_bind mjoin list_join]. unfold percent at 3. by destruct (kept c).
Qed.

Lemma decodeString_percent c rest : is_u8 c → decodeString (percent c ++ rest) = c :: decodeString rest.
Proof.
  intros Hc. destruct (byte_facts c Hc) as (_ & _ & H3 & _ & H5). unfold percent. destruct (kept c); cbn [app decodeString].
  - rewrite (proj2 (Z.eqb_neq _ _) (H5 eq_refl)). done.
  - by rewrite H3.
Qed.

Lemma percent_length c : (length (percent c) <= 3)%nat.
Proof. unfold percent. destruct (kept c); cbn; lia. Qed.

Lemma emit_ok cap out c : Z.of_nat (length out) < cap → is_u8 c → emit cap out c = Some (out ++ [c]).
Proof. intros Hl Hc. unfold emit. rewrite (proj2 (Z.ltb_lt _ _) Hl). by rewrite u8_id. Qed.

Lemma encodeLoop_ok cap str out :
  Forall is_u8 str → Z.of_nat (length out) + 3 * Z.of_nat (length str) + 1 <= cap → encodeLoop cap str out = Some (out ++ mjoin (percent <$> str) ++ [0]).
Proof.
  intros Hs. revert out. induction Hs as [|c str Hc _ IH]; intros out Hcap; cbn [length] in Hcap.
  { cbn [encodeLoop fmap list_fmap mjoin list_join app]. apply emit_ok; [lia|done]. }
  destruct (byte_facts c Hc) as (H1 & H2 & _ & H4 & _). cbn [encodeLoop fmap list_fmap mjoin list_join]. unfold percent in *. destruct (kept c).
  - rewrite emit_ok by (lia || done). cbn [mbind option_bind]. rewrite IH by (rewrite length_app; cbn; lia). by rewrite <-!app_assoc.
  - rewrite !list.Forall_cons in H4. destruct H4 as (_ & [H41 _] & [H42 _] & _). rewrite emit_ok by (lia || done). cbn [mbind option_bind]. rewrite H1. cbn [mbind option_bind].
    rewrite emit_ok by (rewrite ?length_app; cbn; lia || done). cbn [mbind option_bind]. rewrite H2. cbn [mbind option_bind].
    rewrite emit_ok by (rewrite ?length_app; cbn; lia || done). cbn [mbind option_bind]. rewrite IH by (rewrite !length_app; cbn; lia). by rewrite <-!app_assoc.
Qed.

Lemma decodeLoop_ok cap str out :
  Forall is_u8 str → Z.of_nat (length out) + Z.of_nat (length str) + 1 <= cap → decodeLoop cap str out = Some (out ++ decodeString str ++ [0]).
Proof.
  remember (length str) as n eqn:Hn. revert str out Hn. induction n as [n IH] using lt_wf_ind. intros str out -> Hs Hcap.
  destruct str as [|c str]; [cbn [decodeLoop decodeString app]; apply emit_ok; [cbn in Hcap; lia|done]|].
  apply list.Forall_cons in Hs as [Hc Hs]. cbn [length] in *. cbn [decodeLoop decodeString]. destruct (c =? 37).
  - destruct str as [|a [|b str]].
    + apply (IH 0%nat); cbn in *; try done; lia.
    + apply (IH 1%nat); cbn [length] in *; try done; lia.
    + rewrite !list.Forall_cons in Hs. destruct Hs as (_ & _ & Hs). cbn [length] in *. unfold emit. rewrite (proj2 (Z.ltb_lt _ _)) by lia. cbn [mbind option_bind].
      rewrite (IH (length str)) by (try done; try lia; rewrite length_app; cbn [length]; lia). by rewrite <-app_assoc.
  - rewrite emit_ok by (done || lia). cbn [mbind option_bind].
    rewrite (IH (length str)) by (try done; try lia; rewrite length_app; cbn [length]; lia). by rewrite <-app_assoc.
Qed.

Lemma percents_length url : (length (mjoin (percent <$> url)) <= 3 * length url)%nat.
Proof.
  induction url as [|c url IH]; [done|]. change (length (percent c ++ mjoin (percent <$> url)) <= 3 * S (length url))%nat.
  rewrite length_app. pose proof (percent_length c). lia.
Qed.

Lemma percents_u8 url : Forall is_u8 url → Forall is_u8 (mjoin (percent <$> url)).
Proof.
  induction 1 as [|c url Hc _ IH]; [constructor|]. rewrite fmap_cons. cbn [mjoin list_join]. apply list.Forall_app. split; [|done].
  destruct (byte_facts c Hc) as (_ & _ & _ & H4 & _). eapply list.Forall_impl; [done|]. cbn. by intros x [? _].
Qed.

Lemma decodeString_percents url : Forall is_u8 url → decodeString (mjoin (percent <$> url)) = url.
Proof. induction 1 as [|c url Hc _ IH]; [done|]. change (decodeString (percent c ++ mjoin (percent <$> url)) = c :: url). by rewrite decodeString_percent, IH. Qed.

Lemma percents_nonzero url : Forall is_u8 url → Forall (λ c, c ≠ 0) (mjoin (percent <$> url)).
Proof.
  induction 1 as [|c url Hc _ IH]; [constructor|]. rewrite fmap_cons. cbn [mjoin list_join]. apply list.Forall_app. split; [|done].
  destruct (byte_facts c Hc) as (_ & _ & _ & H4 & _). eapply list.Forall_impl; [done|]. cbn. by intros x [_ ?].
Qed.

(** Encoding for a URL succeeds on every string of bytes, with characters above 127 too: every byte is written as itself where it is
    a letter, a digit or one of - _ . ~ and as % and two hexadecimal digits otherwise, and decoding gives the string back.  The pair on C
    strings computes the same with the zero behind it, and never writes outside the block it allocates, on any string for decoding too.
    The encoded string must be shorter than 2^32. *)
Lemma url_roundtrip url :
  Forall is_u8 url → 3 * Z.of_nat (length url) < 2 ^ 32 →
  ∃ e, e = mjoin (percent <$> url) ∧ Forall (λ c, c ≠ 0) e ∧ urlEncode url = Some e ∧ urlDecode e = Some url ∧
    url_encode url = Some (e ++ [0]) ∧ url_decode e = Some (url ++ [0]) ∧ url_decode url = Some (decodeString url ++ [0]).
Proof.
  intros Hu Hl. eexists. split; [done|]. pose proof (percents_u8 _ Hu) as He. pose proof (decodeString_percents _ Hu) as Hd.
  pose proof (percents_length url) as Hp. unfold urlEncode, urlDecode, url_encode, url_decode. rewrite !(proj2 (Z.ltb_lt _ (2 ^ 32))) by lia.
  split_and!; [by apply percents_nonzero|by apply encodeString_percent|by rewrite Hd|..].
  - rewrite encodeLoop_ok by (done || (cbn; lia)). done.
  - rewrite decodeLoop_ok by (done || (cbn; lia)). by rewrite Hd.
  - rewrite decodeLoop_ok by (done || (cbn; lia)). done.
Qed.

Lemma url_roundtrip_witness :
  url_encode [97; 32; 228; 37] = Some [97; 37; 50; 48; 37; 101; 52; 37; 50; 53; 0] ∧
  ∃ e, e = mjoin (percent <$> [97; 32; 228; 37]) ∧ Forall (λ c, c ≠ 0) e ∧ urlEncode [97; 32; 228; 37] = Some e ∧ urlDecode e = Some [97; 32; 228; 37] ∧
    url_encode [97; 32; 228; 37] = Some (e ++ [0]) ∧ url_decode e = Some ([97; 32; 228; 37] ++ [0]) ∧
    url_decode [97; 32; 228; 37] = Some (decodeString [97; 32; 228; 37] ++ [0]).
Proof.
  split; [vm_compute; reflexivity|]. apply (url_roundtrip [97; 32; 228; 37]); [|vm_compute; reflexivity].
  repeat constructor; vm_compute; (reflexivity || discriminate).
Defined.
