(* ===== verification/Config.v ===== *)
(** * Configuration files

    src/src/public/config.{h,cc}: a file of sections, keys and values, read line by line.  A line is parsed in place, in the block [data],
    by C functions on pointers into it; a pointer is its distance from the start of the block.  A block is what [fgets] wrote, the
    terminating zero last: no scan goes behind that zero.  [None] is a read or a write outside of the block, or of [key], and the
    exceptions of [std::stoi].  [mtx] is held by every call, so a call is one step.  [configMap] is a map to maps; the order in which an
    [unordered_map] is walked through is a parameter of the functions that do so. *)
From S2P Require Import Prelude Strings.

(** ** C strings in a block *)

(** The string from the start of [l], up to its zero. *)
Fixpoint c_str (l : list Z) : option (list Z) :=
  match l with
  | [] => None
  | c :: l => if c =? 0 then Some [] else s ← c_str l; Some (c :: s)
  end.

Definition str_at (b : list Z) (p : nat) : option (list Z) := c_str (drop p b).
Definition strlen (b : list Z) (p : nat) : option nat := s ← str_at b p; Some (length s).

Fixpoint index_of (c : Z) (s : list Z) : option nat :=
  match s with
  | [] => None
  | x :: s => if x =? c then Some 0%nat else i ← index_of c s; Some (S i)
  end.
Definition strchr (b : list Z) (p : nat) (c : Z) : option (option nat) := s ← str_at b p; Some (i ← index_of c s; Some (p + i)%nat).

(** [*p = v]. *)
Definition wr (b : list Z) (p : nat) (v : Z) : option (list Z) := if (p <? length b)%nat then Some (<[p := v]> b) else None.

(** [while (P( *p)) p++] and [while (P( *(p - 1))) p--]. *)
Fixpoint span_len (P : Z → bool) (l : list Z) : option nat :=
  match l with
  | [] => None
  | c :: l => if P c then n ← span_len P l; Some (S n) else Some 0%nat
  end.
Definition while_fwd (P : Z → bool) (b : list Z) (p : nat) : option nat := n ← span_len P (drop p b); Some (p + n)%nat.

Fixpoint while_back (P : Z → bool) (b : list Z) (p : nat) : option nat :=
  match p with
  | O => None
  | S q => c ← b !! q; if P c then while_back P b q else Some p
  end.

(** ** A line *)

Definition blank (c : Z) : bool := (c =? 32) || (c =? 9) || (c =? 13) || (c =? 10).

(** The loop that removes blanks from the back. *)
Fixpoint trim_back (b : list Z) (p p1 : nat) : option nat :=
  match p1 with
  | O => Some O
  | S q => if (p1 <=? p)%nat then Some p1 else c ← b !! q; if blank c then trim_back b p q else Some p1
  end.

(** [char key[128], value[4096]]. *)
Definition key_size : nat := 128.
Definition line_size : nat := 4096.

(** Where a comment starts, or the string ends. *)
Definition value_end (b : list Z) (value : nat) : option nat :=
  p ← strchr b value 35;
  match p with Some p => Some p | None => n ← strlen b value; Some (value + n)%nat end.

(** [parseValue] in three parts.  The last: the value from [value] on, up to a comment, and both are copied out. *)
Definition parse_value (b : list Z) (name value : nat) : option (list Z * Z * option (list Z * list Z)) :=
  value ← while_fwd (λ c, c =? 32) b value;
  p ← value_end b value;
  p ← while_back (λ c, schar c <=? 32) b p;
  b ← wr b p 0;
  c ← b !! name;
  if c =? 0 then Some (b, -2, None) else
  key ← str_at b name;
  val ← str_at b value;
  if (length key <? key_size)%nat && (length val <? line_size)%nat then Some (b, 0, Some (key, val)) else None.

(** The separator, and the end of the name. *)
Definition parse_pair (b : list Z) (p : nat) : option (list Z * Z * option (list Z * list Z)) :=
  p1 ← strchr b 0 61;
  match p1 with
  | None => Some (b, -2, None)
  | Some p1 =>
      let value := S p1 in
      p1 ← while_back (λ c, c =? 32) b p1;
      b ← wr b p1 0;
      parse_value b p value
  end.

(** The block afterwards, what is returned, and [key] and [val] when it is 0. *)
Definition parseValue (b : list Z) : option (list Z * Z * option (list Z * list Z)) :=
  p ← while_fwd blank b 0;
  n ← strlen b p;
  p1 ← trim_back b p (p + n);
  b ← wr b p1 0;
  c ← b !! p;
  if (c =? 35) || (c =? 0) then Some (b, -1, None) else parse_pair b p.

Definition name_char (c : Z) : bool :=
  ((65 <=? c) && (c <=? 90)) || ((97 <=? c) && (c <=? 122)) || ((48 <=? c) && (c <=? 57)) || (c =? 95).

(** The block afterwards, also when it is no section: the bracket at its end is gone then. *)
Definition isSectionName (b : list Z) : option (list Z * option (list Z)) :=
  n ← strlen b 0;
  c ← b !! 0%nat;
  if (n <=? 2)%nat || negb (c =? 91) then Some (b, None) else
  p ← while_back blank b n;
  c ← b !! (p - 1)%nat;
  if negb (c =? 93) then Some (b, None) else
  b ← wr b (p - 1) 0;
  s ← str_at b 1;
  Some (b, if forallb name_char s then Some s else None).

(** ** Loading *)

Abbreviation strmap := (gmap (list Z) (list Z)).
Abbreviation configMap := (gmap (list Z) (gmap (list Z) (list Z))).

(** [m]: the section the lines belong to. *)
Record loading := { conf : configMap; m : option (list Z) }.

Inductive line_result :=
| LGo (s : loading)
| LFail (c : configMap).

(** A value under a key that has one is appended behind a zero. *)
Definition add_value (key value : list Z) (kv : strmap) : strmap :=
  match kv !! key with
  | Some old => <[key := old ++ 0 :: value]> kv
  | None => <[key := value]> kv
  end.

Definition load_line (data : list Z) (s : loading) : option line_result :=
  '(data, sName) ← isSectionName data;
  match sName with
  | Some sName =>
      match conf s !! sName with
      | Some _ => Some (LGo {| conf := conf s; m := Some sName |})
      | None => Some (LGo {| conf := <[sName := ∅]> (conf s); m := Some sName |})
      end
  | None =>
      '(_, ret, kv) ← parseValue data;
      if ret =? -2 then Some (LFail (conf s)) else
      match kv with
      | None => Some (LGo s)
      | Some (key, value) =>
          match m s with
          | None => Some (LFail (conf s))
          | Some sec => Some (LGo {| conf := alter (add_value key value) sec (conf s); m := m s |})
          end
      end
  end.

(** [fgets] of a file that is not at its end, into [n + 1] bytes: the line without its zero, and the rest. *)
Fixpoint fgets (n : nat) (f : list Z) : list Z * list Z :=
  match n, f with
  | S n, c :: f => if c =? 10 then ([c], f) else let '(l, r) := fgets n f in (c :: l, r)
  | _, _ => ([], f)
  end.

Definition EXIT_SUCCESS : Z := 0.
Definition EXIT_FAILURE : Z := 1.

(** Every round reads a byte at least, so that the length of the file is fuel enough ([load_loop_fuel]). *)
Fixpoint load_loop (fuel : nat) (f : list Z) (s : loading) : option (Z * configMap) :=
  match f with
  | [] => Some (EXIT_SUCCESS, conf s)
  | _ :: _ =>
      match fuel with
      | O => None
      | S fuel =>
          let '(line, rest) := fgets (line_size - 1) f in
          r ← load_line (line ++ [0]) s;
          match r with
          | LFail c => Some (EXIT_FAILURE, c)
          | LGo s => load_loop fuel rest s
          end
      end
  end.

(** [None] for a file that cannot be opened. *)
Definition load (file : option (list Z)) (c : configMap) : option (Z * configMap) :=
  match file with
  | None => Some (EXIT_FAILURE, c)
  | Some f => load_loop (length f) f {| conf := c; m := None |}
  end.

(** ** Answers *)

(** [std::string::c_str], and the C string that starts at [p] in a [std::string]. *)
Fixpoint cut0 (s : list Z) : list Z :=
  match s with
  | [] => []
  | c :: s => if c =? 0 then [] else c :: cut0 s
  end.

Definition findValue (section key : list Z) (c : configMap) : option (list Z) := kv ← c !! section; kv !! key.

Definition getString (section key : list Z) (d : option (list Z)) (c : configMap) : option (list Z) :=
  match findValue section key c with Some v => Some (cut0 v) | None => d end.

(** The loop over a value in [getStringList], [getIntList] and [toString]: at every zero, and at the end, what [p] points to is used. *)
Definition at_zeros {A} (use : option nat → list A) (data : list Z) (p : option nat) : list A :=
  let '(out, p) := foldl (λ '(out, p) i, match data !! i with Some 0 => (out ++ use p, Some (S i)) | _ => (out, p) end)
                     ([], p) (seq 0 (length data)) in
  out ++ use p.

Definition pieces (data : list Z) : list (list Z) :=
  at_zeros (λ p, match p with Some p => [cut0 (drop p data)] | None => [] end) data (Some 0%nat).

Definition getStringList (section key : list Z) (c : configMap) : list (list Z) :=
  match findValue section key c with Some v => pieces v | None => [] end.

(** [None]: an exception. *)
Definition getInt (section key : list Z) (d : Z) (c : configMap) : option Z :=
  let str := getString section key None c in
  if isPureInt str then s ← str; stoi s else Some d.

(** [atoi]: [strtol] at 64 bits, which stops at the bounds, cut to 32 bits. *)
Definition atoi (s : list Z) : Z :=
  match parse_int s with Some n => i32 (u32 (Z.max (- 2 ^ 63) (Z.min (2 ^ 63 - 1) n))) | None => 0 end.

Definition getIntList (section key : list Z) (c : configMap) : list Z :=
  match findValue section key c with Some v => atoi <$> pieces v | None => [] end.

(** The sections and their keys and values in the order in which the maps are walked through. *)
Abbreviation walk := (list (list Z * list (list Z * list Z))).

(** Both append, and return the length of everything. *)
Definition getSectionKey (w : walk) (section : list Z) (keys : list (list Z)) : Z * list (list Z) :=
  match (list_to_map w : gmap (list Z) _) !! section with
  | None => (0, keys)
  | Some kvs => let keys := keys ++ kvs.*1 in (Z.of_nat (length keys), keys)
  end.
Definition getSectionName (w : walk) (sections : list (list Z)) : Z * list (list Z) :=
  let sections := sections ++ w.*1 in (Z.of_nat (length sections), sections).

Definition pair_line (key v : list Z) : list Z := [32; 32; 32; 32] ++ key ++ [32; 61; 32] ++ v ++ [10].

(** The values behind the first: [p] is null until the first zero. *)
Definition more_values (key v : list Z) : list Z :=
  at_zeros (λ p, match p with Some p => pair_line key (cut0 (drop p v)) | None => [] end) v None.

Definition toString_pair (key v : list Z) : list Z :=
  let s := cut0 v in
  pair_line key s ++ if decide (length s ≠ length v) then more_values key v else [].
Definition toString (w : walk) : list Z :=
  mjoin ((λ '(name, kvs), [91] ++ name ++ [93; 10] ++ mjoin ((λ '(k, v), toString_pair k v) <$> kvs)) <$> w) ++ [10].
