(* ===== verification/ConfigSpec.v ===== *)
(** * What loading a configuration does

    The lines of a configuration file are described by [cfg_line] and [render]; [load_line] is computed on each kind of them, and [load]
    on files of them.  A configuration that was written by [toString] is such a file. *)
From S2P Require Import Prelude Strings Config.

(** ** Scanning a block *)

(** Lists that are the same up to the order in which they are appended. *)
Ltac apps := repeat first [rewrite <-!app_assoc | progress cbn [app]]; reflexivity.

Lemma c_str_app s r : 0 ∉ s → c_str (s ++ 0 :: r) = Some s.
Proof.
  induction s as [|c s IH]; intros Hs; [done|]. apply not_elem_of_cons in Hs as [Hc Hs]. cbn [app c_str].
  rewrite (proj2 (Z.eqb_neq c 0)) by congruence. by rewrite IH.
Qed.

Lemma str_at_app l s r : 0 ∉ s → str_at (l ++ s ++ 0 :: r) (length l) = Some s.
Proof. intros Hs. unfold str_at. rewrite drop_app_length. by apply c_str_app. Qed.

Lemma strlen_app l s r : 0 ∉ s → strlen (l ++ s ++ 0 :: r) (length l) = Some (length s).
Proof. intros Hs. unfold strlen. by rewrite str_at_app. Qed.

Lemma index_of_app c s r : c ∉ s → index_of c (s ++ c :: r) = Some (length s).
Proof.
  induction s as [|x s IH]; intros Hs; cbn [app index_of length]; [by rewrite Z.eqb_refl|]. apply not_elem_of_cons in Hs as [Hx Hs].
  rewrite (proj2 (Z.eqb_neq x c)) by congruence. by rewrite IH.
Qed.

Lemma index_of_none c s : c ∉ s → index_of c s = None.
Proof.
  induction s as [|x s IH]; intros Hs; [done|]. apply not_elem_of_cons in Hs as [Hx Hs]. cbn [index_of].
  rewrite (proj2 (Z.eqb_neq x c)) by congruence. by rewrite IH.
Qed.

Lemma strchr_found l s c t r : 0 ∉ s ++ c :: t → c ∉ s → strchr (l ++ s ++ c :: t ++ 0 :: r) (length l) c = Some (Some (length l + length s)%nat).
Proof.
  intros H0 Hc. unfold strchr. assert (Hb : l ++ s ++ c :: t ++ 0 :: r = l ++ (s ++ c :: t) ++ 0 :: r) by (by rewrite <-!app_assoc).
  rewrite Hb, str_at_app by done. cbn [mbind option_bind]. by rewrite index_of_app.
Qed.

Lemma strchr_none l s c r : 0 ∉ s → c ∉ s → strchr (l ++ s ++ 0 :: r) (length l) c = Some None.
Proof. intros H0 Hc. unfold strchr. rewrite str_at_app by done. cbn [mbind option_bind]. by rewrite index_of_none. Qed.

Lemma wr_app l c r v : wr (l ++ c :: r) (length l) v = Some (l ++ v :: r).
Proof.
  unfold wr. rewrite (proj2 (Nat.ltb_lt _ _)) by (rewrite length_app; cbn; lia). f_equal.
  rewrite insert_app_r_alt by lia. by rewrite Nat.sub_diag.
Qed.

Definition all (P : Z → bool) (s : list Z) : Prop := Forall (λ c, P c = true) s.

Lemma span_len_app P s c r : all P s → P c = false → span_len P (s ++ c :: r) = Some (length s).
Proof. induction 1 as [|x s Hx _ IH]; intros Hc; cbn [app span_len length]; [by rewrite Hc|]. rewrite Hx. by rewrite IH. Qed.

Lemma while_fwd_app P l s c r : all P s → P c = false → while_fwd P (l ++ s ++ c :: r) (length l) = Some (length l + length s)%nat.
Proof. intros Hs Hc. unfold while_fwd. rewrite drop_app_length. by rewrite span_len_app. Qed.

Lemma lookup_next l c (r : list Z) : (l ++ c :: r) !! length l = Some c.
Proof. rewrite lookup_app_r by lia. by rewrite Nat.sub_diag. Qed.

Lemma while_back_app P l c s r : all P s → P c = false → while_back P ((l ++ [c]) ++ s ++ r) (length (l ++ [c]) + length s) = Some (length (l ++ [c])).
Proof.
  intros Hs Hc. revert r. induction s as [|x s IH] using rev_ind; intros r.
  - rewrite Nat.add_0_r, length_app. cbn [length]. rewrite Nat.add_1_r. cbn [while_back app]. rewrite <-app_assoc. cbn [app]. rewrite lookup_next.
    cbn [mbind option_bind]. by rewrite Hc.
  - apply Forall_app in Hs as [Hs [Hx _]%list.Forall_cons]. rewrite (length_app s). cbn [length]. rewrite Nat.add_1_r, Nat.add_succ_r. cbn [while_back].
    rewrite <-(app_assoc s), (app_assoc _ s). rewrite <-length_app. cbn [app]. rewrite lookup_next. cbn [mbind option_bind]. rewrite Hx.
    rewrite length_app, <-app_assoc. by apply (IH Hs (x :: r)).
Qed.

Lemma trim_back_app l s r p : all blank s → (p = length l ∨ (p < length l)%nat ∧ ∃ l' c, l = l' ++ [c] ∧ blank c = false) →
  trim_back (l ++ s ++ r) p (length l + length s) = Some (length l).
Proof.
  intros Hs Hl. revert r. induction s as [|x s IH] using rev_ind; intros r.
  - rewrite Nat.add_0_r. destruct Hl as [->|[Hp (l' & c & -> & Hc)]].
    + destruct (length l) eqn:E; cbn [trim_back]; [done|]. by rewrite (proj2 (Nat.leb_le _ _)) by lia.
    + rewrite length_app in *. cbn [length] in *. rewrite Nat.add_1_r in *. cbn [trim_back app]. rewrite (proj2 (Nat.leb_gt _ _)) by lia.
      rewrite <-app_assoc. cbn [app]. rewrite lookup_next. cbn [mbind option_bind]. by rewrite Hc.
  - apply Forall_app in Hs as [Hs [Hx _]%list.Forall_cons]. rewrite (length_app s). cbn [length]. rewrite Nat.add_1_r, Nat.add_succ_r. cbn [trim_back].
    rewrite (proj2 (Nat.leb_gt _ _)) by (destruct Hl as [?|[? _]]; lia).
    rewrite <-(app_assoc s), (app_assoc l s). rewrite <-length_app. cbn [app]. rewrite lookup_next. cbn [mbind option_bind]. rewrite Hx.
    rewrite length_app, <-app_assoc. by apply (IH Hs (x :: r)).
Qed.

(** ** The lines of a file *)

Inductive cfg_line :=
| CSection (name tail : list Z)
| CPair (lead key gap1 gap2 val tail : list Z) (comment : option (list Z))
| CComment (lead text : list Z)
| CBlank (blanks : list Z).

Definition render_comment (c : option (list Z)) : list Z := match c with Some t => 35 :: t | None => [] end.

(** A line without its end. *)
Definition render_text (l : cfg_line) : list Z :=
  match l with
  | CSection name tail => 91 :: name ++ 93 :: tail
  | CPair lead key gap1 gap2 val tail comment => lead ++ key ++ gap1 ++ 61 :: gap2 ++ val ++ tail ++ render_comment comment
  | CComment lead text => lead ++ 35 :: text
  | CBlank blanks => blanks
  end.
Definition render (l : cfg_line) : list Z := render_text l ++ [10].

Definition plain (c : Z) : bool := negb (c =? 0) && negb (c =? 10).
Definition white (c : Z) : bool := blank c && plain c.
Definition space (c : Z) : bool := c =? 32.
Definition visible (c : Z) : bool := 32 <? schar c.

(** Nothing in front of a key or a value that is taken for a blank, and their last character is one that stays. *)
Definition key_ok (key : list Z) : Prop :=
  all plain key ∧ (61 ∉ key) ∧ (length key < key_size)%nat ∧ ∃ k c, key = k ++ [c] ∧ visible c = true ∧ ∃ x k', key = x :: k' ∧ blank x = false ∧ x ≠ 35.
Definition val_ok (val : list Z) : Prop :=
  val = [] ∨ all plain val ∧ (35 ∉ val) ∧ ∃ v c, val = v ++ [c] ∧ visible c = true ∧ ∃ x v', val = x :: v' ∧ x ≠ 32.

Definition line_ok (l : cfg_line) : Prop :=
  match l with
  | CSection name tail => all name_char name ∧ all white tail
  | CPair lead key gap1 gap2 val tail comment =>
      all white lead ∧ key_ok key ∧ all space gap1 ∧ all space gap2 ∧ val_ok val ∧ all white tail ∧
      (lead = [] → list.head key ≠ Some 91) ∧ match comment with Some t => all plain t ∧ val ≠ [] | None => True end
  | CComment lead text => all white lead ∧ all plain text
  | CBlank blanks => all white blanks
  end ∧ (length (render_text l) < line_size - 1)%nat.

Definition start_section (name : list Z) (c : configMap) : configMap :=
  match c !! name with Some _ => c | None => <[name := ∅]> c end.

(** What a line means. *)
Definition apply_line (s : loading) (l : cfg_line) : loading :=
  match l, m s with
  | CSection name _, _ => {| conf := start_section name (conf s); m := Some name |}
  | CPair _ key _ _ val _ _, Some sec => {| conf := alter (add_value key val) sec (conf s); m := Some sec |}
  | _, _ => s
  end.

(** ** Characters *)

Lemma all_not_in P s c : all P s → P c = false → c ∉ s.
Proof. intros Hs Hc Hin. unfold all in Hs. rewrite list.Forall_forall in Hs. by rewrite (Hs c Hin) in Hc. Qed.

Lemma all_impl (P Q : Z → bool) s : (∀ c, P c = true → Q c = true) → all P s → all Q s.
Proof. intros H Hs. eapply list.Forall_impl; [exact Hs|]. auto. Qed.

Lemma plain_no_zero s : all plain s → 0 ∉ s.
Proof. intros Hs. by apply (all_not_in plain). Qed.

Lemma white_plain s : all white s → all plain s.
Proof. apply all_impl. intros c Hc. unfold white in Hc. by apply andb_prop in Hc as [_ ?]. Qed.

Lemma white_blank s : all white s → all blank s.
Proof. apply all_impl. intros c Hc. unfold white in Hc. by apply andb_prop in Hc as [? _]. Qed.

Lemma space_plain s : all space s → all plain s.
Proof. apply all_impl. intros c Hc%Z.eqb_eq. by subst. Qed.

Lemma blank_cases c : blank c = true → c = 32 ∨ c = 9 ∨ c = 13 ∨ c = 10.
Proof. unfold blank. intros H. repeat (apply orb_prop in H as [H|H]); apply Z.eqb_eq in H; auto. Qed.

Lemma white_invisible s : all white s → all (λ c, schar c <=? 32) s.
Proof. intros Hs%white_blank. eapply all_impl; [|done]. intros c [->|[->|[->| ->]]]%blank_cases; done. Qed.

Lemma visible_ge c : visible c = true → (schar c <=? 32) = false.
Proof. unfold visible. intros H%Z.ltb_lt. by apply Z.leb_gt. Qed.

Lemma visible_not_blank c : visible c = true → blank c = false.
Proof. intros Hv. destruct (blank c) eqn:E; [|done]. by destruct (blank_cases c E) as [->|[->|[->| ->]]]. Qed.

Lemma visible_not_space c : visible c = true → (c =? 32) = false.
Proof. intros Hv. apply Z.eqb_neq. by intros ->. Qed.

(** ** Trimming a line *)

(** Blanks at the end of a string. *)
Lemma split_blanks s : ∃ t z, s = t ++ z ∧ all blank z ∧ (t = [] ∨ ∃ l c, t = l ++ [c] ∧ blank c = false).
Proof.
  induction s as [|c s IH] using rev_ind; [exists [], []; repeat split; [constructor|by left]|]. destruct (blank c) eqn:Hc.
  - destruct IH as (t & z & -> & Hz & Ht). exists t, (z ++ [c]). rewrite <-app_assoc. split_and!; [done| |done].
    apply Forall_app. split; [done|]. by repeat constructor.
  - exists (s ++ [c]), []. rewrite app_nil_r. split_and!; [done|constructor|]. right. eauto.
Qed.

(** The first part of [parseValue]. *)
Lemma parse_trim lead x t z r :
  all blank lead → blank x = false → 0 ∉ x :: t → all blank z → (∃ l c, x :: t = l ++ [c] ∧ blank c = false) →
  let b := lead ++ (x :: t) ++ z ++ 0 :: r in
  ∃ r', while_fwd blank b 0 = Some (length lead) ∧ strlen b (length lead) = Some (length (x :: t) + length z)%nat ∧
    trim_back b (length lead) (length lead + (length (x :: t) + length z)) = Some (length lead + length (x :: t))%nat ∧
    wr b (length lead + length (x :: t)) 0 = Some (lead ++ (x :: t) ++ 0 :: r').
Proof.
  intros Hl Hx H0 Hz (l & c & Ht & Hc) b. assert (Hz0 : 0 ∉ z) by (by apply (all_not_in blank)).
  assert (Hb : b = lead ++ ((x :: t) ++ z) ++ 0 :: r) by (unfold b; by rewrite <-!app_assoc).
  assert (Hy : ∃ y r', z ++ 0 :: r = y :: r') by (destruct z; eauto). destruct Hy as (y & r' & Hy). exists r'. split_and!.
  - unfold b. rewrite <-(app_nil_l (lead ++ _)). by apply (while_fwd_app blank [] lead x).
  - rewrite Hb, strlen_app, length_app; [done|]. rewrite elem_of_app. tauto.
  - unfold b. rewrite Nat.add_assoc, app_assoc, <-length_app. apply trim_back_app; [done|]. right. split.
    + rewrite length_app. cbn [length]. lia.
    + exists (lead ++ l), c. by rewrite Ht, app_assoc.
  - unfold b. rewrite Hy, app_assoc, <-length_app, wr_app. by rewrite <-app_assoc.
Qed.

Lemma no_zero_app s t : 0 ∉ s → 0 ∉ t → 0 ∉ s ++ t.
Proof. rewrite elem_of_app. tauto. Qed.

(** A comment up to the blanks at its end. *)
Lemma split_comment text :
  all plain text → ∃ t z, text ++ [10] = t ++ z ∧ all blank z ∧ (∃ l c, 35 :: t = l ++ [c] ∧ blank c = false) ∧ 0 ∉ 35 :: t.
Proof.
  intros Ht. destruct (split_blanks (35 :: text ++ [10])) as (t & z & He & Hz & Hc).
  destruct t as [|x t]; cbn [app] in He; [subst z; by apply list.Forall_cons in Hz as [? _]|]. injection He as <- He.
  exists t, z. split_and!; [done..|by destruct Hc|]. intros [?|Hin]%elem_of_cons; [done|].
  assert (Hin' : 0 ∈ text ++ [10]) by (rewrite He; by apply elem_of_app; left).
  apply elem_of_app in Hin' as [?%plain_no_zero|?%list_elem_of_singleton]; done.
Qed.

Lemma parse_comment lead text :
  all white lead → all plain text → ∃ b, parseValue (lead ++ 35 :: text ++ [10; 0]) = Some (b, -1, None).
Proof.
  intros Hl Ht. destruct (split_comment text Ht) as (t & z & He & Hz & Hc & H0).
  destruct (parse_trim lead 35 t z []) as (r' & E1 & E2 & E3 & E4); [by apply white_blank|done..|].
  assert (Hb : lead ++ 35 :: text ++ [10; 0] = lead ++ (35 :: t) ++ z ++ [0]).
  { change ([10; 0]) with ([10] ++ [0]). rewrite (app_assoc text), He. apps. }
  rewrite Hb. unfold parseValue. rewrite E1. cbn [mbind option_bind]. rewrite E2. cbn [mbind option_bind]. rewrite E3. cbn [mbind option_bind].
  rewrite E4. cbn [mbind option_bind]. cbn [app]. rewrite lookup_next. cbn [mbind option_bind]. cbn. eauto.
Qed.

Lemma parse_blank blanks : all white blanks → ∃ b, parseValue (blanks ++ [10; 0]) = Some (b, -1, None).
Proof.
  intros Hb. assert (Ha : all blank (blanks ++ [10])) by (apply Forall_app; split; [by apply white_blank|by repeat constructor]).
  change [10; 0] with ([10] ++ [0]). rewrite app_assoc. set (s := blanks ++ [10]) in *.
  unfold parseValue. rewrite (while_fwd_app blank [] s 0 [] Ha eq_refl : while_fwd blank (s ++ [0]) 0 = _). cbn [mbind option_bind length Nat.add].
  rewrite (strlen_app s [] [] (not_elem_of_nil _) : strlen (s ++ [0]) (length s) = Some 0%nat). cbn [mbind option_bind length]. assert (E : trim_back (s ++ [0]) (length s) (length s + 0) = Some (length s)) by (apply (trim_back_app s [] [0]); [constructor|by left]).
  rewrite E. cbn [mbind option_bind]. rewrite wr_app. cbn [mbind option_bind]. rewrite lookup_next. cbn [mbind option_bind]. cbn. eauto.
Qed.

(** ** A key and its value *)

Lemma parse_split lead x t z :
  all blank lead → blank x = false → x ≠ 35 → 0 ∉ x :: t → all blank z → (∃ l c, x :: t = l ++ [c] ∧ blank c = false) →
  ∃ r, parseValue (lead ++ (x :: t) ++ z ++ [0]) = parse_pair (lead ++ (x :: t) ++ 0 :: r) (length lead).
Proof.
  intros Hl Hx Hx35 H0 Hz Hc. destruct (parse_trim lead x t z []) as (r & E1 & E2 & E3 & E4); [done..|]. exists r.
  unfold parseValue. rewrite E1. cbn [mbind option_bind]. rewrite E2. cbn [mbind option_bind]. rewrite E3. cbn [mbind option_bind].
  rewrite E4. cbn [mbind option_bind]. cbn [app]. rewrite lookup_next. cbn [mbind option_bind].
  rewrite (proj2 (Z.eqb_neq x 35)) by done. rewrite (proj2 (Z.eqb_neq x 0)); [done|]. apply not_elem_of_cons in H0 as [? _]. done.
Qed.

(** Where the key ends a zero is written: on the [=] or on the first space in front of it. *)
Lemma cut_key gap1 (r : list Z) :
  all space gap1 → ∃ y mid, gap1 ++ 61 :: r = y :: mid ++ r ∧ length mid = length gap1 ∧ (mid = [] ∨ ∃ l, mid = l ++ [61]).
Proof.
  intros Hg. destruct gap1 as [|y gap1]; [exists 61, []; eauto|]. exists y, (gap1 ++ [61]). split_and!.
  - cbn [app]. by rewrite <-app_assoc.
  - rewrite length_app. cbn. lia.
  - right. eauto.
Qed.

Lemma parse_pair_cut lead key gap1 rest r :
  all white lead → key_ok key → all space gap1 → 0 ∉ rest →
  ∃ mid, length mid = length gap1 ∧ (mid = [] ∨ ∃ l, mid = l ++ [61]) ∧
    parse_pair (lead ++ (key ++ gap1 ++ 61 :: rest) ++ 0 :: r) (length lead) =
      parse_value ((lead ++ key) ++ 0 :: mid ++ rest ++ 0 :: r) (length lead) (length ((lead ++ key) ++ 0 :: mid)).
Proof.
  intros Hl (Hk & Hk61 & Hkl & k & c & Hkc & Hc & _) Hg H0. destruct (cut_key gap1 (rest ++ 0 :: r) Hg) as (y & mid & Hy & Hm & Hm').
  exists mid. split_and!; [done..|]. set (b := lead ++ (key ++ gap1 ++ 61 :: rest) ++ 0 :: r).
  assert (Hb1 : b = [] ++ (lead ++ key ++ gap1) ++ 61 :: rest ++ 0 :: r) by (unfold b; by rewrite <-!app_assoc).
  assert (Hb2 : b = (lead ++ k ++ [c]) ++ gap1 ++ 61 :: rest ++ 0 :: r) by (unfold b; rewrite Hkc, <-!app_assoc; done).
  assert (Hb3 : b = (lead ++ key) ++ y :: mid ++ rest ++ 0 :: r).
  { unfold b. rewrite <-!app_assoc. cbn [app]. by rewrite Hy. }
  assert (E1 : strchr b 0 61 = Some (Some (length (lead ++ k ++ [c]) + length gap1)%nat)).
  { rewrite Hb1. etransitivity; [apply (strchr_found [] (lead ++ key ++ gap1) 61 rest r)|].
    - rewrite <-!app_assoc. repeat apply no_zero_app; [by apply plain_no_zero, white_plain|by apply plain_no_zero|by apply plain_no_zero, space_plain|].
      by apply not_elem_of_cons.
    - rewrite !elem_of_app. pose proof (all_not_in _ _ 61 Hl eq_refl). pose proof (all_not_in _ _ 61 Hg eq_refl). tauto.
    - rewrite Hkc, !length_app. do 2 f_equal. cbn [length]. lia. }
  assert (E2 : while_back (λ c, c =? 32) b (length (lead ++ k ++ [c]) + length gap1) = Some (length (lead ++ key))).
  { rewrite Hb2, Hkc, !(app_assoc lead). apply while_back_app; [done|]. by apply visible_not_space. }
  unfold parse_pair. rewrite E1. cbn [mbind option_bind]. rewrite E2. cbn [mbind option_bind]. rewrite Hb3, wr_app. cbn [mbind option_bind].
  assert (E3 : S (length (lead ++ k ++ [c]) + length gap1) = length ((lead ++ key) ++ 0 :: mid)).
  { rewrite Hkc, !length_app. cbn [length]. lia. }
  by rewrite E3.
Qed.

(** What is copied out of a block with the key and the value in their places. *)
Lemma copy_out lead key mid val r1 r2 :
  key_ok key → 0 ∉ val → (length val < line_size)%nat →
  let b := lead ++ key ++ 0 :: mid in
  b = r1 ++ val ++ 0 :: r2 →
  (c ← b !! length lead;
   if c =? 0 then Some (b, -2, None) else
   key ← str_at b (length lead);
   val ← str_at b (length r1);
   if (length key <? key_size)%nat && (length val <? line_size)%nat then Some (b, 0, Some (key, val)) else None) = Some (b, 0, Some (key, val)).
Proof.
  intros (Hk & _ & Hkl & _ & _ & _ & _ & x & k' & Hx & _) Hv Hvl b Hb. pose proof (plain_no_zero _ Hk) as Hk0.
  assert (E1 : b !! length lead = Some x) by (unfold b; rewrite Hx; cbn [app]; apply lookup_next). rewrite E1. cbn [mbind option_bind].
  rewrite (proj2 (Z.eqb_neq x 0)) by (rewrite Hx in Hk0; apply not_elem_of_cons in Hk0 as [? _]; congruence).
  assert (E2 : str_at b (length lead) = Some key) by (by apply str_at_app). assert (E3 : str_at b (length r1) = Some val) by (rewrite Hb; by apply str_at_app).
  rewrite E2. cbn [mbind option_bind]. rewrite E3. cbn [mbind option_bind].
  by rewrite (proj2 (Nat.ltb_lt _ _) Hkl), (proj2 (Nat.ltb_lt _ _) Hvl).
Qed.

(** What stands behind a value: nothing or a comment. *)
Definition comment_ok (com : list Z) : Prop := com = [] ∨ ∃ t, com = 35 :: t ∧ 0 ∉ t.

Lemma value_end_app pre s com r :
  0 ∉ s → 35 ∉ s → comment_ok com → value_end (pre ++ s ++ com ++ 0 :: r) (length pre) = Some (length pre + length s)%nat.
Proof.
  intros H0 H35 [->|(t & -> & Ht)]; unfold value_end; cbn [app].
  - rewrite strchr_none by done. cbn [mbind option_bind]. by rewrite strlen_app.
  - rewrite strchr_found; [done| |done]. apply no_zero_app; [done|]. by apply not_elem_of_cons.
Qed.

Lemma parse_value_empty lead key mid r :
  key_ok key → mid = [] ∨ (∃ l, mid = l ++ [61]) →
  let b := (lead ++ key) ++ 0 :: mid ++ 0 :: r in
  parse_value b (length lead) (length ((lead ++ key) ++ 0 :: mid)) = Some (b, 0, Some (key, [])).
Proof.
  intros Hk Hm b. set (pre := (lead ++ key) ++ 0 :: mid). assert (Hb : b = pre ++ [] ++ 0 :: r) by (unfold b, pre; cbn [app]; by rewrite <-!app_assoc).
  assert (Hb' : b = lead ++ key ++ 0 :: mid ++ 0 :: r) by (unfold b; by rewrite <-!app_assoc). unfold parse_value.
  assert (E1 : while_fwd (λ c, c =? 32) b (length pre) = Some (length pre)).
  { rewrite Hb. rewrite <-(Nat.add_0_r (length pre)) at 2. apply (while_fwd_app _ pre [] 0 r); [constructor|done]. }
  rewrite E1. cbn [mbind option_bind]. assert (E : value_end b (length pre) = Some (length pre + 0)%nat).
  { rewrite Hb. apply (value_end_app pre [] [] r); [apply not_elem_of_nil..|by left]. }
  rewrite E. cbn [mbind option_bind].
  assert (E2 : ∃ p, while_back (λ c, schar c <=? 32) b (length pre + 0) = Some p ∧ wr b p 0 = Some b).
  { destruct Hm as [Hm|[l Hm]].
    - destruct Hk as (_ & _ & _ & k & c & Hkc & Hc & _). exists (length (lead ++ key)). split; [|unfold b; by rewrite wr_app].
      unfold b, pre. rewrite Hm, Hkc, (app_assoc lead). rewrite (length_app _ [0]). change (0 :: [] ++ 0 :: r) with ([0] ++ 0 :: r).
      rewrite Nat.add_0_r. apply while_back_app; [by repeat constructor|by apply visible_ge].
    - exists (length pre). split; [|rewrite Hb; cbn [app]; by rewrite wr_app]. assert (Hp : pre = ((lead ++ key) ++ 0 :: l) ++ [61]).
      { unfold pre. rewrite Hm. by rewrite <-!app_assoc. } rewrite Hb, Hp. by apply (while_back_app _ _ 61 []); [constructor|]. }
  destruct E2 as (p & E2 & E3). rewrite E2. cbn [mbind option_bind]. rewrite E3. cbn [mbind option_bind]. rewrite Hb'.
  apply (copy_out lead key (mid ++ 0 :: r) [] pre r); [done|apply not_elem_of_nil|unfold line_size; cbn [length]; lia|]. rewrite <-Hb'. exact Hb.
Qed.

Lemma parse_value_some lead key mid gap2 val tail com r :
  key_ok key → all space gap2 → val ≠ [] → val_ok val → all white tail → comment_ok com → (length val < line_size)%nat →
  ∃ b', parse_value ((lead ++ key) ++ 0 :: mid ++ (gap2 ++ val ++ tail ++ com) ++ 0 :: r) (length lead) (length ((lead ++ key) ++ 0 :: mid)) =
    Some (b', 0, Some (key, val)).
Proof.
  intros Hk Hg Hne [?|(Hv & Hv35 & v & c & Hvc & Hc & x & v' & Hvx & Hx)] Ht Hcom Hl; [done|]. pose proof (plain_no_zero _ Hv) as Hv0.
  set (b := (lead ++ key) ++ _). set (p0 := (lead ++ key) ++ 0 :: mid). set (pre := p0 ++ gap2).
  assert (Hb1 : b = p0 ++ gap2 ++ x :: v' ++ tail ++ com ++ 0 :: r) by (unfold b, p0; rewrite Hvx; apps).
  assert (Hb2 : b = pre ++ (val ++ tail) ++ com ++ 0 :: r) by (rewrite Hb1; unfold pre; rewrite Hvx; apps).
  assert (Hb3 : b = ((pre ++ v) ++ [c]) ++ tail ++ com ++ 0 :: r) by (rewrite Hb2, Hvc; apps).
  assert (Hy : ∃ y r', tail ++ com ++ 0 :: r = y :: r') by (destruct tail, com; cbn; eauto). destruct Hy as (y & r' & Hy).
  assert (E0 : while_fwd (λ c, c =? 32) b (length p0) = Some (length pre)).
  { rewrite Hb1. unfold pre. rewrite length_app. apply while_fwd_app; [done|by apply Z.eqb_neq]. }
  unfold parse_value. fold p0. rewrite E0. cbn [mbind option_bind]. assert (E : value_end b (length pre) = Some (length (pre ++ val) + length tail)%nat).
  { rewrite Hb2. etransitivity; [apply value_end_app; [|by apply not_elem_of_app; split; [done|apply (all_not_in white)]|done]|].
    - by apply no_zero_app, plain_no_zero, white_plain.
    - by rewrite !length_app, Nat.add_assoc. }
  rewrite E. cbn [mbind option_bind].
  assert (Hpv : pre ++ val = (pre ++ v) ++ [c]) by (rewrite Hvc; by rewrite <-app_assoc).
  assert (E2 : while_back (λ c, schar c <=? 32) b (length (pre ++ val) + length tail) = Some (length (pre ++ val))).
  { rewrite Hb3, Hpv. apply while_back_app; [by apply white_invisible|by apply visible_ge]. }
  rewrite E2. cbn [mbind option_bind]. assert (E3 : wr b (length (pre ++ val)) 0 = Some ((pre ++ val) ++ 0 :: r')).
  { rewrite Hb3, Hy, <-Hpv. by rewrite wr_app. }
  rewrite E3. cbn [mbind option_bind]. exists ((pre ++ val) ++ 0 :: r').
  assert (Hs : (pre ++ val) ++ 0 :: r' = lead ++ key ++ 0 :: mid ++ gap2 ++ val ++ 0 :: r') by (unfold pre, p0; by rewrite <-!app_assoc).
  rewrite Hs. apply (copy_out lead key _ val pre r'); [done..|]. rewrite <-Hs. by rewrite <-app_assoc.
Qed.

(** ** A line is read as it is meant *)

Lemma space_blank s : all space s → all blank s.
Proof. apply all_impl. by intros c ->%Z.eqb_eq. Qed.

Lemma all_app P s t : all P (s ++ t) ↔ all P s ∧ all P t.
Proof. apply Forall_app. Qed.

Lemma parse_key_value lead key gap1 rest z :
  all white lead → key_ok key → all space gap1 → 0 ∉ rest → all blank z → (rest = [] ∨ ∃ l c, rest = l ++ [c] ∧ blank c = false) →
  ∃ mid r, (mid = [] ∨ ∃ l, mid = l ++ [61]) ∧
    parseValue (lead ++ key ++ gap1 ++ 61 :: rest ++ z ++ [0]) =
    parse_value ((lead ++ key) ++ 0 :: mid ++ rest ++ 0 :: r) (length lead) (length ((lead ++ key) ++ 0 :: mid)).
Proof.
  intros Hl Hk Hg H0 Hz Hrest. destruct (Hk) as (Hkp & _ & _ & _ & _ & _ & _ & x & k' & Hx & Hxb & Hx35).
  assert (Hlast : ∃ l c, x :: k' ++ gap1 ++ 61 :: rest = l ++ [c] ∧ blank c = false).
  { destruct Hrest as [->|(l & c & -> & Hc)]; [exists (x :: k' ++ gap1), 61|exists (x :: k' ++ gap1 ++ 61 :: l), c]; (split; [apps|done]). }
  destruct (parse_split lead x (k' ++ gap1 ++ 61 :: rest) z) as [r E]; [by apply white_blank|done|done| |done|done|].
  { change (0 ∉ (x :: k') ++ gap1 ++ 61 :: rest). rewrite <-Hx. repeat apply no_zero_app; [by apply plain_no_zero|by apply plain_no_zero, space_plain|].
    by apply not_elem_of_cons. }
  destruct (parse_pair_cut lead key gap1 rest r) as (mid & _ & Hm & E'); [done..|]. exists mid, r. split; [done|].
  rewrite <-E'. etransitivity; [|etransitivity; [exact E|]]; [f_equal; rewrite Hx; apps|]. rewrite Hx. f_equal.
Qed.

Lemma all_cons P c s : all P (c :: s) ↔ P c = true ∧ all P s.
Proof. unfold all. by rewrite list.Forall_cons. Qed.

(** The three shapes of a pair: no value, a value, and a value with a comment behind it. *)
Lemma parse_no_value lead key gap1 gap2 tail :
  all white lead → key_ok key → all space gap1 → all space gap2 → all white tail →
  ∃ b, parseValue (lead ++ key ++ gap1 ++ 61 :: gap2 ++ tail ++ [10; 0]) = Some (b, 0, Some (key, [])).
Proof.
  intros Hl Hk Hg1 Hg2 Ht. destruct (parse_key_value lead key gap1 [] (gap2 ++ tail ++ [10])) as (mid & r & Hm & E); [done..| | |by left|].
  - apply not_elem_of_nil.
  - rewrite !all_app. split_and!; [by apply space_blank|by apply white_blank|by repeat constructor].
  - eexists. etransitivity; [|by apply (parse_value_empty lead key mid r)]. cbn [app] in E. rewrite <-E. f_equal. apps.
Qed.

Lemma val_ends val : val_ok val → val ≠ [] → (0 ∉ val) ∧ ∃ v c, val = v ++ [c] ∧ blank c = false.
Proof.
  intros [?|(Hp & _ & v & c & -> & Hc & _)] ?; [done|]. split; [by apply plain_no_zero|]. exists v, c. split; [done|by apply visible_not_blank].
Qed.

Lemma parse_with_value lead key gap1 gap2 val tail :
  all white lead → key_ok key → all space gap1 → all space gap2 → all white tail → val_ok val → val ≠ [] → (length val < line_size)%nat →
  ∃ b, parseValue (lead ++ key ++ gap1 ++ 61 :: gap2 ++ val ++ tail ++ [10; 0]) = Some (b, 0, Some (key, val)).
Proof.
  intros Hl Hk Hg1 Hg2 Ht Hv Hne Hlen. destruct (val_ends val Hv Hne) as [Hv0 (v & c & Hvc & Hc)].
  destruct (parse_key_value lead key gap1 (gap2 ++ val) (tail ++ [10])) as (mid & r & Hm & E); [done..| | | |].
  - apply no_zero_app; [by apply plain_no_zero, space_plain|done].
  - rewrite all_app. split; [by apply white_blank|by repeat constructor].
  - right. exists (gap2 ++ v), c. split; [rewrite Hvc; apps|done].
  - destruct (parse_value_some lead key mid gap2 val [] [] r) as [b' E']; [done..|constructor|by left|done|]. exists b'. rewrite <-E'.
    cbn [app]. rewrite !app_nil_r, <-E. f_equal. apps.
Qed.

Lemma parse_with_comment lead key gap1 gap2 val tail t :
  all white lead → key_ok key → all space gap1 → all space gap2 → all white tail → val_ok val → val ≠ [] → (length val < line_size)%nat → all plain t →
  ∃ b, parseValue (lead ++ key ++ gap1 ++ 61 :: gap2 ++ val ++ tail ++ 35 :: t ++ [10; 0]) = Some (b, 0, Some (key, val)).
Proof.
  intros Hl Hk Hg1 Hg2 Ht Hv Hne Hlen Htp. destruct (val_ends val Hv Hne) as [Hv0 (v & c & Hvc & Hc)].
  destruct (split_comment t Htp) as (t' & z & He & Hz & (l & d & Hd & Hdb) & Ht0).
  destruct (parse_key_value lead key gap1 (gap2 ++ val ++ tail ++ 35 :: t') z) as (mid & r & Hm & E); [done..| |done| |].
  - repeat apply no_zero_app; [by apply plain_no_zero, space_plain|done|by apply plain_no_zero, white_plain|]. done.
  - right. exists (gap2 ++ val ++ tail ++ l), d. split; [rewrite Hd; apps|done].
  - destruct (parse_value_some lead key mid gap2 val tail (35 :: t') r) as [b' E']; [done..|right; exists t'; split; [done|by apply not_elem_of_cons in Ht0 as [_ ?]]|done|].
    exists b'. rewrite <-E', <-E. f_equal. change [10; 0] with ([10] ++ [0]). rewrite (app_assoc t), He. apps.
Qed.

Lemma parse_line_pair lead key gap1 gap2 val tail comment :
  line_ok (CPair lead key gap1 gap2 val tail comment) →
  ∃ b, parseValue (render_text (CPair lead key gap1 gap2 val tail comment) ++ [10; 0]) = Some (b, 0, Some (key, val)).
Proof.
  intros [(Hl & Hk & Hg1 & Hg2 & Hv & Ht & _ & Hcom) Hlen]. cbn [render_text] in *.
  assert (Hvl : (length val < line_size)%nat) by (rewrite !length_app in Hlen; cbn [length] in Hlen; rewrite !length_app in Hlen; lia).
  destruct comment as [t|]; cbn [render_comment]; [|destruct (decide (val = [])) as [->|Hne]].
  - destruct Hcom as [Htp Hne]. edestruct (parse_with_comment lead key gap1 gap2 val tail t) as [b E]; [done..|]. exists b. rewrite <-E. f_equal. apps.
  - destruct (parse_no_value lead key gap1 gap2 tail) as [b E]; [done..|]. exists b. rewrite <-E. f_equal. rewrite app_nil_r. apps.
  - destruct (parse_with_value lead key gap1 gap2 val tail) as [b E]; [done..|]. exists b. rewrite <-E. f_equal. rewrite app_nil_r. apps.
Qed.

Lemma not_section c s : c ≠ 91 → 0 ∉ c :: s → isSectionName (c :: s ++ [0]) = Some (c :: s ++ [0], None).
Proof.
  intros Hc H0. unfold isSectionName. rewrite (strlen_app [] (c :: s) [] H0 : strlen (c :: s ++ [0]) 0 = Some (S (length s))). cbn [mbind option_bind lookup list_lookup].
  rewrite (proj2 (Z.eqb_neq c 91) Hc). by rewrite orb_true_r.
Qed.

Lemma section_line name tail :
  all name_char name → all white tail → ∃ b, isSectionName ((91 :: name ++ 93 :: tail) ++ [10; 0]) = Some (b, Some name).
Proof.
  intros Hn Ht. set (b := (91 :: name ++ 93 :: tail) ++ [10; 0]). assert (Hb : b = [] ++ (91 :: name ++ 93 :: tail ++ [10]) ++ [0]) by (unfold b; apps).
  assert (Hb2 : b = ((91 :: name) ++ [93]) ++ (tail ++ [10]) ++ [0]) by (unfold b; apps).
  assert (Hb3 : b = (91 :: name) ++ 93 :: tail ++ [10; 0]) by (unfold b; apps).
  assert (Hn0 : 0 ∉ name) by (by apply (all_not_in name_char)). set (pre := (91 :: name) ++ [93]) in *. set (z := tail ++ [10]) in *.
  assert (E1 : strlen b 0 = Some (length pre + length z)%nat).
  { rewrite Hb. etransitivity; [apply (strlen_app [])|].
    - change (0 ∉ (91 :: name) ++ (93 :: tail) ++ [10]). rewrite !elem_of_app, !elem_of_cons. pose proof (plain_no_zero _ (white_plain _ Ht)).
      pose proof (not_elem_of_nil 0). intuition congruence.
    - f_equal. unfold pre, z. cbn [length app]. rewrite !length_app. cbn [length]. rewrite !length_app. cbn [length]. lia. }
  assert (E2 : while_back blank b (length pre + length z) = Some (length pre)).
  { rewrite Hb2. apply while_back_app; [|done]. apply all_app. split; [by apply white_blank|by repeat constructor]. }
  assert (E3 : (length pre - 1)%nat = length (91 :: name)) by (unfold pre; rewrite length_app; cbn [length]; lia).
  unfold isSectionName. rewrite E1. cbn [mbind option_bind]. rewrite (proj2 (Nat.leb_gt _ _)) by (unfold pre, z; rewrite !length_app; cbn [length]; lia).
  replace (b !! 0%nat) with (Some 91) by (unfold b; reflexivity). cbn [mbind option_bind orb negb Z.eqb]. rewrite E2. cbn [mbind option_bind]. rewrite E3.
  rewrite Hb3, lookup_next. cbn [mbind option_bind]. rewrite wr_app. cbn [mbind option_bind negb Z.eqb Pos.eqb].
  rewrite (str_at_app [91] name (tail ++ [10; 0]) Hn0 : str_at ((91 :: name) ++ 0 :: tail ++ [10; 0]) 1 = Some name). cbn [mbind option_bind].
  assert (E4 : forallb name_char name = true) by (apply forallb_forall; intros x Hx%list_elem_of_In; unfold all in Hn; rewrite list.Forall_forall in Hn; by apply Hn).
  rewrite E4. eauto.
Qed.

(** A line that does not start with a bracket. *)
Lemma load_line_plain text s b r kv :
  list.head (text ++ [10]) ≠ Some 91 → 0 ∉ text → parseValue (text ++ [10; 0]) = Some (b, r, kv) → r ≠ -2 →
  load_line ((text ++ [10]) ++ [0]) s =
    match kv, m s with
    | None, _ => Some (LGo s)
    | Some _, None => Some (LFail (conf s))
    | Some (key, value), Some sec => Some (LGo {| conf := alter (add_value key value) sec (conf s); m := m s |})
    end.
Proof.
  intros Hh H0 Hp Hr. assert (Ht : ∃ c t, text ++ [10] = c :: t) by (destruct text; cbn; eauto). destruct Ht as (c & t & Ht).
  assert (H0' : 0 ∉ text ++ [10]) by (apply no_zero_app; [done|by intros ?%list_elem_of_singleton]). unfold load_line.
  rewrite Ht in Hh, H0' |- *. cbn [app list.head] in *. rewrite not_section by (done || congruence). cbn [mbind option_bind].
  assert (Hb : c :: t ++ [0] = text ++ [10; 0]) by (change (c :: t ++ [0]) with ((c :: t) ++ [0]); rewrite <-Ht; apps). rewrite Hb, Hp. cbn [mbind option_bind].
  rewrite (proj2 (Z.eqb_neq r (-2)) Hr). destruct kv as [[key value]|]; [|done]. by destruct (m s).
Qed.

Lemma white_head lead c (r : list Z) : all white lead → c ≠ 91 ∨ lead ≠ [] → list.head (lead ++ c :: r) ≠ Some 91.
Proof.
  intros Hl Hc. destruct lead as [|d lead]; cbn; [destruct Hc; congruence|]. apply list.Forall_cons in Hl as [Hd _]. intros [= ->]. done.
Qed.

Lemma line_plain l : line_ok l → all plain (render_text l).
Proof.
  intros [Hl _]. destruct l as [name tail|lead key g1 g2 val tail com|lead text|bs]; cbn [render_text] in *.
  - destruct Hl as [Hn Ht]. rewrite all_cons, all_app, all_cons. split_and!; [done| |done|by apply white_plain].
    eapply all_impl; [|done]. intros c Hc. unfold plain. apply andb_true_intro. split; apply negb_true_iff, Z.eqb_neq; intros ->; done.
  - destruct Hl as (Hl & (Hk & _) & Hg1 & Hg2 & Hv & Ht & _ & Hcom). rewrite !all_app, all_cons, !all_app.
    split_and!; [by apply white_plain|done|by apply space_plain|done|by apply space_plain| |by apply white_plain|].
    + destruct Hv as [->|[? _]]; [constructor|done].
    + destruct com as [t|]; cbn [render_comment]; [|constructor]. apply all_cons. by destruct Hcom.
  - destruct Hl as [Hl Ht]. rewrite all_app, all_cons. split_and!; [by apply white_plain|done..].
  - by apply white_plain.
Qed.

(** A pair needs a section in front of it. *)
Definition is_pair (l : cfg_line) : bool := match l with CPair _ _ _ _ _ _ _ => true | _ => false end.

Lemma pair_head l : line_ok l → is_pair l = true → list.head (render_text l ++ [10]) ≠ Some 91.
Proof.
  intros [Hl _] Hp. destruct l as [|lead key g1 g2 val tail com| |]; try done.
  destruct Hl as (Hl & (_ & _ & _ & _ & _ & _ & _ & x & k' & -> & _) & _ & _ & _ & _ & Hh & _). cbn [render_text].
  rewrite <-!app_assoc. cbn [app]. apply white_head; [done|]. destruct lead; [left; intros ->; by apply Hh|by right].
Qed.

Lemma load_line_ok l s : line_ok l → is_pair l = false ∨ is_Some (m s) → load_line (render l ++ [0]) s = Some (LGo (apply_line s l)).
Proof.
  intros Hl Hm. pose proof (plain_no_zero _ (line_plain l Hl)) as H0. unfold render. destruct l as [name tail|lead key g1 g2 val tail com|lead text|bs].
  - destruct Hl as [[Hn Ht] _]. cbn [render_text]. rewrite <-app_assoc. destruct (section_line name tail Hn Ht) as [b E]. cbn [app] in *.
    unfold load_line. rewrite E. cbn [mbind option_bind apply_line]. unfold start_section. by destruct (conf s !! name).
  - destruct (parse_line_pair _ _ _ _ _ _ _ Hl) as [b E]. destruct Hm as [?|[sec Hm]]; [done|].
    rewrite (load_line_plain _ s b 0 (Some (key, val))); [|..|done|done|done].
    + cbn [apply_line]. by rewrite Hm.
    + by apply pair_head.
  - destruct Hl as [[Hl Ht] _]. destruct (parse_comment lead text Hl Ht) as [b E].
    rewrite (load_line_plain _ s b (-1) None); [by destruct s| |done| |done]; cbn [render_text]; rewrite <-!app_assoc; cbn [app]; [by apply white_head; auto|done].
  - destruct Hl as [Hl _]. destruct (parse_blank bs Hl) as [b E]. rewrite (load_line_plain _ s b (-1) None); [by destruct s| |done|done|done].
    cbn [render_text]. by apply white_head; auto.
Qed.

(** ** Files *)

Lemma fgets_line n s rest : all plain s → (length s < n)%nat → fgets n (s ++ 10 :: rest) = (s ++ [10], rest).
Proof.
  intros Hs. revert n. induction Hs as [|c s Hc _ IH]; intros n Hn; destruct n as [|n]; cbn [length] in Hn; [lia|done|lia|].
  cbn [app fgets]. unfold plain in Hc. apply andb_prop in Hc as [_ Hc%negb_true_iff]. rewrite Hc. by rewrite IH by lia.
Qed.

Lemma fgets_shorter n f l r : fgets n f = (l, r) → (length r <= length f)%nat.
Proof.
  revert f l r. induction n as [|n IH]; intros f l r H; [by injection H as <- <-|]. destruct f as [|c f]; [by injection H as <- <-|]. cbn [fgets] in H.
  destruct (c =? 10); [injection H as <- <-; cbn; lia|]. destruct (fgets n f) as [l' r'] eqn:E. injection H as <- <-. apply IH in E. cbn [length]. lia.
Qed.

Lemma fgets_progress n c f l r : fgets (S n) (c :: f) = (l, r) → (length r <= length f)%nat.
Proof.
  cbn [fgets]. destruct (c =? 10); [intros H; injection H as <- <-; lia|]. destruct (fgets n f) as [l' r'] eqn:E. intros H. injection H as <- <-.
  by apply fgets_shorter in E.
Qed.

Lemma line_size_S : (line_size - 1)%nat = S (line_size - 2).
Proof. unfold line_size. lia. Qed.

(** The length of the file is fuel enough. *)
Lemma load_loop_fuel n n' f s : (length f <= n)%nat → (length f <= n')%nat → load_loop n f s = load_loop n' f s.
Proof.
  revert n' f s. induction n as [|n IH]; intros n' f s Hn Hn'; destruct f as [|c f]; [by destruct n'|cbn in Hn; lia|by destruct n'|].
  destruct n' as [|n']; [cbn in Hn'; lia|]. cbn [load_loop]. rewrite line_size_S. destruct (fgets _ _) as [l r] eqn:E. apply fgets_progress in E. cbn [length] in *.
  destruct (load_line _ s) as [[s'|c']|]; cbn [mbind option_bind]; [|done..]. apply IH; lia.
Qed.

(** One line, whatever follows. *)
Lemma load_loop_line n text rest s :
  all plain text → (length text < line_size - 1)%nat → (length (text ++ 10%Z :: rest) <= n)%nat →
  load_loop n (text ++ 10 :: rest) s =
    (r ← load_line ((text ++ [10]) ++ [0]) s;
     match r with LFail c => Some (EXIT_FAILURE, c) | LGo s => load_loop (length rest) rest s end).
Proof.
  intros Ht Hl Hn. destruct n as [|n]; [rewrite length_app in Hn; cbn in Hn; lia|].
  assert (Hne : ∃ c f, text ++ 10 :: rest = c :: f) by (destruct text; cbn; eauto). destruct Hne as (c & f & Hf). rewrite Hf. cbn [load_loop].
  rewrite <-Hf, fgets_line by done. destruct (load_line _ s) as [[s'|c']|]; cbn [mbind option_bind]; [|done..].
  apply load_loop_fuel; [|lia]. rewrite length_app in Hn. cbn [length] in Hn. lia.
Qed.

(** Pairs only where a section was started. *)
Fixpoint placed (started : bool) (ls : list cfg_line) : bool :=
  match ls with
  | [] => true
  | l :: ls => (started || negb (is_pair l)) && placed (started || match l with CSection _ _ => true | _ => false end) ls
  end.

Definition print_lines (ls : list cfg_line) : list Z := mjoin (render <$> ls).

Lemma print_lines_cons l ls : print_lines (l :: ls) = render_text l ++ 10 :: print_lines ls.
Proof. unfold print_lines. cbn [fmap list_fmap mjoin list_join]. unfold render at 1. by rewrite <-app_assoc. Qed.

Lemma load_lines ls rest s n :
  Forall line_ok ls → placed (bool_decide (is_Some (m s))) ls = true → (length (print_lines ls ++ rest) <= n)%nat →
  load_loop n (print_lines ls ++ rest) s = load_loop (length rest) rest (foldl apply_line s ls).
Proof.
  intros Hls. revert s n. induction Hls as [|l ls Hl _ IH]; intros s n Hp Hn; [apply load_loop_fuel; [done|lia]|].
  cbn [placed] in Hp. apply andb_prop in Hp as [Hp1 Hp2]. rewrite print_lines_cons in Hn |- *. rewrite <-app_assoc in Hn |- *. cbn [app] in Hn |- *.
  rewrite load_loop_line; [|by apply line_plain|apply Hl|done]. change (render_text l ++ [10]) with (render l). rewrite load_line_ok; [|done|].
  - cbn [mbind option_bind foldl]. apply IH; [|done]. rewrite <-Hp2. f_equal. destruct l; cbn [apply_line]; destruct (m s) eqn:Em; cbn; rewrite ?Em; done.
  - apply orb_prop in Hp1 as [H%bool_decide_eq_true|H%negb_true_iff]; auto.
Qed.

(** Lines that are refused: no separator, or a pair in front of all sections. *)
Definition junk (text : list Z) : Prop :=
  ∃ lead x t, text = lead ++ x :: t ∧ all white lead ∧ blank x = false ∧ x ≠ 35 ∧ (x ≠ 91 ∨ lead ≠ []) ∧ all plain (x :: t) ∧ 61 ∉ x :: t.
Definition refused (text : list Z) (s : loading) : Prop :=
  (length text < line_size - 1)%nat ∧ (junk text ∨ m s = None ∧ ∃ l, text = render_text l ∧ line_ok l ∧ is_pair l = true).

Lemma parse_junk lead x t :
  all white lead → blank x = false → x ≠ 35 → all plain (x :: t) → 61 ∉ x :: t → ∃ b, parseValue ((lead ++ x :: t) ++ [10; 0]) = Some (b, -2, None).
Proof.
  intros Hl Hx H35 Hp H61. destruct (split_blanks (x :: t ++ [10])) as (t' & z & He & Hz & Hend).
  destruct t' as [|y t']; cbn [app] in He; [subst z; apply list.Forall_cons in Hz as [? _]; congruence|]. injection He as <- He.
  assert (Hsub : ∀ c, c ∉ x :: t → c ≠ 10 → c ∉ x :: t').
  { intros c Hc Hc10 [->|Hin]%elem_of_cons; [by apply Hc, elem_of_cons; left|]. assert (Hin' : c ∈ t ++ [10]) by (rewrite He; by apply elem_of_app; left).
    apply elem_of_app in Hin' as [Hin'|?%list_elem_of_singleton]; [|done]. by apply Hc, elem_of_cons; right. }
  destruct (parse_split lead x t' z) as [r E]; [by apply white_blank|done|done| |done|by destruct Hend|].
  { by apply Hsub; [apply plain_no_zero|]. }
  exists (lead ++ (x :: t') ++ 0 :: r). etransitivity; [|etransitivity; [exact E|]].
  - f_equal. transitivity (lead ++ x :: (t ++ [10]) ++ [0]); [apps|]. rewrite He. apps.
  - unfold parse_pair. assert (Es : strchr (lead ++ (x :: t') ++ 0 :: r) 0 61 = Some None); [|by rewrite Es].
    rewrite (app_assoc lead). apply (strchr_none [] (lead ++ x :: t')); apply not_elem_of_app.
    + split; [by apply plain_no_zero, white_plain|]. by apply Hsub; [apply plain_no_zero|].
    + split; [by apply (all_not_in white)|]. by apply Hsub.
Qed.

Lemma load_refused text s : refused text s → all plain text ∧ load_line ((text ++ [10]) ++ [0]) s = Some (LFail (conf s)).
Proof.
  intros [_ [(lead & x & t & -> & Hl & Hx & H35 & H91 & Hp & H61)|(Hm & l & -> & Hl & Hpair)]].
  - assert (Hpl : all plain (lead ++ x :: t)) by (apply all_app; split; [by apply white_plain|done]). split; [done|].
    destruct (parse_junk lead x t) as [b E]; [done..|]. unfold load_line.
    assert (Hs : isSectionName (((lead ++ x :: t) ++ [10]) ++ [0]) = Some (((lead ++ x :: t) ++ [10]) ++ [0], None)).
    { assert (Hc : ∃ c r, (lead ++ x :: t) ++ [10] = c :: r ∧ c ≠ 91).
      { destruct lead as [|d lead]; cbn [app]; eexists _, _; (split; [done|]); [by destruct H91|]. apply all_cons in Hl as [Hd _]. by intros ->. }
      destruct Hc as (c & r & Hc & H). assert (H0 : 0 ∉ c :: r) by (rewrite <-Hc; apply no_zero_app; [by apply plain_no_zero|by intros ?%list_elem_of_singleton]).
      rewrite Hc. by apply not_section. }
    rewrite Hs. cbn [mbind option_bind]. rewrite <-app_assoc. cbn [app]. rewrite E. done.
  - split; [by apply line_plain|]. destruct l as [| lead key g1 g2 val tail com | |]; try done. destruct (parse_line_pair _ _ _ _ _ _ _ Hl) as [b E].
    rewrite (load_line_plain _ s b 0 (Some (key, val))); [by rewrite Hm| |by apply plain_no_zero, line_plain|done|done].
    by apply pair_head.
Qed.

(** ** Values with several strings *)

Lemma cut0_app s r : 0 ∉ s → cut0 (s ++ 0 :: r) = s.
Proof.
  induction s as [|c s IH]; intros Hs; [done|]. apply not_elem_of_cons in Hs as [Hc Hs]. cbn [app cut0].
  rewrite (proj2 (Z.eqb_neq c 0)) by congruence. by rewrite IH.
Qed.

Lemma cut0_id s : 0 ∉ s → cut0 s = s.
Proof.
  induction s as [|c s IH]; intros Hs; [done|]. apply not_elem_of_cons in Hs as [Hc Hs]. cbn [cut0].
  rewrite (proj2 (Z.eqb_neq c 0)) by congruence. by rewrite IH.
Qed.

Lemma join_cons (v v' : list Z) vs : join_with 0 (v :: v' :: vs) = v ++ 0 :: join_with 0 (v' :: vs).
Proof. done. Qed.

Lemma join_snoc v vs u : join_with 0 (v :: vs) ++ 0 :: u = join_with 0 ((v :: vs) ++ [u]).
Proof. revert v. induction vs as [|v' vs IH]; intros v; [done|]. rewrite join_cons, <-app_assoc. cbn [app]. rewrite IH. done. Qed.

Lemma cut0_join v vs : 0 ∉ v → cut0 (join_with 0 (v :: vs)) = v.
Proof. intros Hv. destruct vs; [by apply cut0_id|]. rewrite join_cons. by apply cut0_app. Qed.

Section zeros.
Context {A : Type} (use : option nat → list A) (g : list Z → list A) (data : list Z).
Context (Huse : ∀ q, use (Some q) = g (cut0 (drop q data))).

Definition zero_step '((out, p) : list A * option nat) (i : nat) : list A * option nat :=
  match data !! i with Some 0 => (out ++ use p, Some (S i)) | _ => (out, p) end.

(** Characters that are not zero change nothing. *)
Lemma zero_skip pre v rest st : data = pre ++ v ++ rest → 0 ∉ v → foldl zero_step st (seq (length pre) (length v)) = st.
Proof using Type.
  intros Hd. revert pre Hd. induction v as [|c v IH]; intros pre Hd Hv; [done|]. apply not_elem_of_cons in Hv as [Hc Hv]. cbn [length seq foldl].
  assert (E : zero_step st (length pre) = st).
  { unfold zero_step. destruct st as [out p]. rewrite Hd. cbn [app]. rewrite lookup_next. by destruct c. }
  rewrite E. specialize (IH (pre ++ [c])). rewrite length_app in IH. cbn [length] in IH. rewrite Nat.add_1_r in IH. apply IH; [|done].
  rewrite Hd. apps.
Qed.

Lemma zeros_join pre v vs out p :
  data = pre ++ join_with 0 (v :: vs) → 0 ∉ v → Forall (λ v, 0 ∉ v) vs →
  (let '(out, p) := foldl zero_step (out, p) (seq (length pre) (length (join_with 0 (v :: vs)))) in out ++ use p) =
  out ++ use p ++ mjoin (g <$> vs).
Proof using Huse.
  revert pre v out p. induction vs as [|v' vs IH]; intros pre v out p Hd Hv Hvs.
  - rewrite (zero_skip pre v []); [by cbn; rewrite app_nil_r|by rewrite app_nil_r|done].
  - apply list.Forall_cons in Hvs as [Hv' Hvs]. rewrite join_cons in Hd |- *. rewrite length_app, seq_app, foldl_app.
    rewrite (zero_skip pre v (0 :: join_with 0 (v' :: vs))) by done. cbn [length seq foldl].
    assert (E : zero_step (out, p) (length pre + length v) = (out ++ use p, Some (S (length pre + length v)))).
    { unfold zero_step. rewrite Hd, app_assoc, <-length_app. by rewrite lookup_next. }
    rewrite E. assert (Hl : S (length pre + length v) = length (pre ++ v ++ [0])) by (rewrite !length_app; cbn [length]; lia).
    rewrite Hl. rewrite IH; [|rewrite Hd; apps|done|done]. rewrite Huse, Hd. rewrite <-!app_assoc. do 2 f_equal. cbn [fmap list_fmap mjoin list_join]. f_equal.
    f_equal. replace (pre ++ v ++ 0 :: join_with 0 (v' :: vs)) with ((pre ++ v ++ [0]) ++ join_with 0 (v' :: vs)) by apps.
    rewrite drop_app_length. by apply cut0_join.
Qed.

Lemma at_zeros_join v vs p : data = join_with 0 (v :: vs) → Forall (λ v, 0 ∉ v) (v :: vs) → at_zeros use data p = use p ++ mjoin (g <$> vs).
Proof using Huse.
  intros Hd [Hv Hvs]%list.Forall_cons. pose proof (zeros_join [] v vs [] p Hd Hv Hvs) as E. cbn [length app] in E. rewrite <-Hd in E. exact E.
Qed.
End zeros.

Lemma pieces_join v vs : Forall (λ v, 0 ∉ v) (v :: vs) → pieces (join_with 0 (v :: vs)) = v :: vs.
Proof.
  intros Hvs. unfold pieces. rewrite (at_zeros_join _ (λ s, [s]) _) with (v := v) (vs := vs) by done.
  apply list.Forall_cons in Hvs as [Hv _]. rewrite drop_0, cut0_join by done. cbn [app]. f_equal. clear. induction vs; [done|]. cbn in *. by f_equal.
Qed.

Lemma toString_values key v vs : Forall (λ v, 0 ∉ v) (v :: vs) → toString_pair key (join_with 0 (v :: vs)) = mjoin (pair_line key <$> (v :: vs)).
Proof.
  intros Hvs. destruct (proj1 (list.Forall_cons _ _ _) Hvs) as [Hv _]. unfold toString_pair. rewrite cut0_join by done. cbn [fmap list_fmap mjoin list_join]. f_equal.
  destruct (decide _) as [Hl|Hl].
  - unfold more_values. by rewrite (at_zeros_join _ (pair_line key) _) with (v := v) (vs := vs).
  - destruct vs as [|v' vs]; [done|]. exfalso. apply Hl. rewrite join_cons, length_app. cbn [length]. lia.
Qed.

(** ** The text of a configuration *)

Definition pair_of (key v : list Z) : cfg_line := CPair [32; 32; 32; 32] key [32] [32] v [] None.
Definition lines_of (w : walk) : list cfg_line :=
  mjoin ((λ '(name, kvs), CSection name [] :: mjoin ((λ '(k, v), pair_of k <$> pieces v) <$> kvs)) <$> w) ++ [CBlank []].

(** The walk goes through all of the configuration, in any order. *)
Definition walks (w : walk) (c : configMap) : Prop :=
  NoDup w.*1 ∧ Forall (λ x, NoDup (x.2).*1) w ∧ c = list_to_map ((λ x, (x.1, list_to_map x.2)) <$> w).

(** Names, keys and values that can be written on a line of their own. *)
Definition pair_clean (x : list Z * list Z) : Prop :=
  ∃ v vs, x.2 = join_with 0 (v :: vs) ∧ Forall (λ v, (0 ∉ v) ∧ line_ok (pair_of x.1 v)) (v :: vs).
Definition clean (w : walk) : Prop := Forall (λ x, line_ok (CSection x.1 []) ∧ Forall pair_clean x.2) w.

Lemma print_lines_app ls ls' : print_lines (ls ++ ls') = print_lines ls ++ print_lines ls'.
Proof. unfold print_lines. by rewrite fmap_app, join_app. Qed.

Lemma pieces_clean x : pair_clean x → ∃ v vs, x.2 = join_with 0 (v :: vs) ∧ pieces x.2 = v :: vs ∧ Forall (λ v, (0 ∉ v) ∧ line_ok (pair_of x.1 v)) (v :: vs).
Proof.
  intros (v & vs & He & Hvs). exists v, vs. split_and!; [done| |done]. rewrite He. apply pieces_join. eapply list.Forall_impl; [done|]. cbn. by intros ? [? _].
Qed.

Lemma print_pairs key vs : print_lines (pair_of key <$> vs) = mjoin (pair_line key <$> vs).
Proof.
  induction vs as [|v vs IH]; [done|]. change (print_lines (pair_of key v :: (pair_of key <$> vs)) = pair_line key v ++ mjoin (pair_line key <$> vs)).
  rewrite print_lines_cons, IH. unfold pair_line, pair_of. cbn [render_text render_comment]. rewrite !app_nil_r. apps.
Qed.

Lemma print_kvs kvs : Forall pair_clean kvs →
  print_lines (mjoin ((λ '(k, v), pair_of k <$> pieces v) <$> kvs)) = mjoin ((λ '(k, v), toString_pair k v) <$> kvs).
Proof.
  induction 1 as [|[k v] kvs Hx _ IH]; [done|]. destruct (pieces_clean _ Hx) as (v0 & vs & He & Hp & Hvs). cbn [fst snd] in *.
  cbn [fmap list_fmap mjoin list_join]. rewrite print_lines_app. f_equal; [|exact IH]. rewrite Hp, He, toString_values, print_pairs; [done|].
  eapply list.Forall_impl; [done|]. cbn. by intros ? [? _].
Qed.

Lemma toString_lines w : clean w → toString w = print_lines (lines_of w).
Proof.
  intros Hw. unfold toString, lines_of. rewrite print_lines_app. f_equal. induction Hw as [|[name kvs] w [_ Hx] _ IH]; [done|].
  cbn [fmap list_fmap mjoin list_join]. rewrite print_lines_app. f_equal; [|exact IH]. rewrite print_lines_cons. cbn [render_text fst snd] in *.
  rewrite print_kvs by done. apps.
Qed.

Lemma lines_of_ok w : clean w → Forall line_ok (lines_of w) ∧ placed false (lines_of w) = true.
Proof.
  intros Hw. unfold lines_of. split.
  - apply Forall_app. split; [|repeat constructor; unfold line_size; cbn; lia]. apply Forall_join, Forall_fmap. eapply list.Forall_impl; [exact Hw|].
    intros [name kvs] [Hn Hk]. cbn in *. constructor; [done|]. apply Forall_join, Forall_fmap. eapply list.Forall_impl; [exact Hk|].
    intros [k v] Hx. destruct (pieces_clean _ Hx) as (v0 & vs & He & Hp & Hvs). cbn [fst snd compose] in *. rewrite Hp. apply Forall_fmap.
    eapply list.Forall_impl; [done|]. cbn. by intros ? [_ ?].
  - destruct w as [|[name kvs] w]; [done|]. cbn [fmap list_fmap mjoin list_join app placed is_pair negb orb andb].
    match goal with |- placed true ?l = true => generalize l end. induction l as [|l ls IH]; [done|]. exact IH.
Qed.

Lemma apply_pair name k v c :
  apply_line {| conf := c; m := Some name |} (pair_of k v) = {| conf := alter (add_value k v) name c; m := Some name |}.
Proof. done. Qed.

(** The values of a key, one after the other. *)
Lemma apply_values name k v vs c kv :
  c !! name = Some kv → kv !! k = None →
  foldl apply_line {| conf := c; m := Some name |} (pair_of k <$> (v :: vs)) =
    {| conf := <[name := <[k := join_with 0 (v :: vs)]> kv]> c; m := Some name |}.
Proof.
  intros Hc Hk. cbn [fmap list_fmap foldl]. rewrite apply_pair.
  assert (E : alter (add_value k v) name c = <[name := <[k := v]> kv]> c).
  { apply map_eq. intros i. destruct (decide (i = name)) as [->|Hi]; [|by rewrite lookup_alter_ne, lookup_insert_ne by done].
    rewrite lookup_alter, decide_True, Hc by done. cbn. rewrite lookup_insert, decide_True by done. f_equal. unfold add_value. by rewrite Hk. }
  rewrite E. clear E Hc Hk. 
  enough (G : ∀ u, foldl apply_line {| conf := <[name := <[k := u]> kv]> c; m := Some name |} (pair_of k <$> vs) =
    {| conf := <[name := <[k := match vs with [] => u | _ => u ++ 0 :: join_with 0 vs end]> kv]> c; m := Some name |}) by (rewrite (G v); by destruct vs).
  induction vs as [|v' vs IH]; intros u; [done|]. cbn [fmap list_fmap foldl]. rewrite apply_pair.
  assert (E : alter (add_value k v') name (<[name := <[k := u]> kv]> c) = <[name := <[k := u ++ 0 :: v']> kv]> c).
  { rewrite alter_insert_eq. f_equal. unfold add_value. rewrite lookup_insert, decide_True by done. by rewrite insert_insert_eq. }
  rewrite E, IH. destruct vs; [done|]. by rewrite join_cons, <-app_assoc.
Qed.

Lemma apply_kvs name kvs c kv :
  c !! name = Some kv → NoDup kvs.*1 → (∀ k, k ∈ kvs.*1 → kv !! k = None) → Forall pair_clean kvs →
  foldl apply_line {| conf := c; m := Some name |} (mjoin ((λ '(k, v), pair_of k <$> pieces v) <$> kvs)) =
    {| conf := <[name := list_to_map kvs ∪ kv]> c; m := Some name |}.
Proof.
  intros Hc Hnd Hk Hcl. revert c kv Hc Hk. induction Hcl as [|[k v] kvs Hx _ IH]; intros c kv Hc Hk.
  - cbn. rewrite (left_id ∅ (∪)). by rewrite insert_id.
  - destruct (pieces_clean _ Hx) as (v0 & vs & He & Hp & _). cbn [fmap list_fmap mjoin list_join fst snd] in *. apply list.NoDup_cons in Hnd as [Hnk Hnd].
    rewrite foldl_app, Hp, (apply_values name k v0 vs c kv) by (done || by apply Hk, list_elem_of_here). rewrite <-He.
    rewrite (IH Hnd _ (<[k := v]> kv)).
    + f_equal. rewrite insert_insert_eq. f_equal. cbn [list_to_map foldr uncurry]. rewrite <-insert_union_l, <-insert_union_r; [done|].
      by apply not_elem_of_list_to_map_1.
    + by rewrite lookup_insert, decide_True.
    + intros k' Hk'. rewrite lookup_insert_ne by (intros ->; done). by apply Hk, list_elem_of_further.
Qed.

Lemma apply_lines_of w c s :
  clean w → NoDup w.*1 → Forall (λ x, NoDup (x.2).*1) w → (∀ n, n ∈ w.*1 → c !! n = None) → conf s = c →
  conf (foldl apply_line s (lines_of w)) = list_to_map ((λ x, (x.1, list_to_map x.2)) <$> w) ∪ c.
Proof.
  intros Hcl Hnd Hk. revert c s. unfold lines_of.
  induction Hcl as [|[name kvs] w [_ Hx] _ IH]; intros c s Hc Hs; [cbn; rewrite (left_id ∅ (∪)); by destruct s|].
  cbn [fmap list_fmap mjoin list_join fst snd] in *. apply list.NoDup_cons in Hnd as [Hnn Hnd]. apply list.Forall_cons in Hk as [Hk1 Hk]. cbn [snd] in Hk1.
  rewrite <-app_assoc, foldl_app. cbn [foldl apply_line]. unfold start_section. rewrite Hs, (Hc name) by apply list_elem_of_here.
  rewrite (apply_kvs name kvs _ ∅); [|by rewrite lookup_insert, decide_True|done|intros; apply lookup_empty|done].
  rewrite (right_id ∅ (∪)). rewrite (IH Hnd Hk (<[name := list_to_map kvs]> c)); [| |cbn; by rewrite insert_insert_eq].
  - rewrite <-insert_union_r; [by rewrite insert_union_l|]. apply not_elem_of_list_to_map_1. by rewrite <-list_fmap_compose.
  - intros n Hn. rewrite lookup_insert_ne by (intros ->; done). by apply Hc, list_elem_of_further.
Qed.


(** Names, keys and values as lines can give them, and short enough to be written on a line by [toString]. *)
Definition config_clean (c : configMap) : Prop :=
  map_Forall (λ name kvs, line_ok (CSection name []) ∧ map_Forall (λ k v, pair_clean (k, v)) kvs) c.
Definition fits (l : cfg_line) : Prop :=
  match l with CPair _ key _ _ val _ _ => (length (render_text (pair_of key val)) < line_size - 1)%nat | _ => True end.

Lemma clean_walk w c : walks w c → config_clean c → clean w.
Proof.
  intros (Hnd & Hk & ->) Hc. apply list.Forall_forall. intros [name kvs] Hin. cbn [fst snd].
  destruct (Hc name (list_to_map kvs)) as [Hn Hv].
  { apply elem_of_list_to_map_1; [by rewrite <- list_fmap_compose|]. apply list_elem_of_fmap. by exists (name, kvs). }
  split; [done|]. rewrite list.Forall_forall in Hk. specialize (Hk _ Hin). apply list.Forall_forall. intros [k v] Hkv. apply (Hv k v).
  by apply elem_of_list_to_map_1.
Qed.

Lemma pair_line_ok lead key gap1 gap2 val tail comment :
  let l := CPair lead key gap1 gap2 val tail comment in line_ok l → fits l → (0 ∉ val) ∧ line_ok (pair_of key val).
Proof.
  intros l [(_ & Hk & _ & _ & Hv & _) _] Hf. split.
  - destruct Hv as [->|[Hv _]]; [apply not_elem_of_nil|by apply plain_no_zero].
  - split; [|exact Hf]. cbn. split_and!; try done; repeat constructor.
Qed.

Lemma clean_value key val l kvs :
  (0 ∉ val) ∧ line_ok (pair_of key val) → map_Forall (λ k v, pair_clean (k, v)) kvs → kvs !! key = l →
  map_Forall (λ k v, pair_clean (k, v)) (add_value key val kvs).
Proof.
  intros Hv Hk Hl. unfold add_value. rewrite Hl. destruct l as [old|]; apply map_Forall_insert_2; try done.
  - destruct (Hk _ _ Hl) as (v & vs & E & Hvs). cbn [fst snd] in *. subst old. exists v, (vs ++ [val]). rewrite join_snoc. split; [done|].
    apply list.Forall_cons in Hvs as [H1 H2]. constructor; [done|]. apply Forall_app. split; [done|by constructor].
  - exists val, []. split; [done|by constructor].
Qed.

Lemma clean_lines ls s : Forall line_ok ls → Forall fits ls → config_clean (conf s) → config_clean (conf (foldl apply_line s ls)).
Proof.
  revert s. induction ls as [|l ls IH]; intros s Hok Hf Hc; [done|]. apply list.Forall_cons in Hok as [Hl Hok]. apply list.Forall_cons in Hf as [Hfl Hf].
  apply IH; [done|done|]. destruct l as [name tail|lead key g1 g2 val tail com|lead text|bs]; cbn [apply_line]; try done.
  - cbn [conf]. unfold start_section. destruct (conf s !! name); [done|]. apply map_Forall_insert_2; [|done]. split; [|apply map_Forall_empty].
    destruct Hl as [[Hn _] Hlen]. split; [split; [done|constructor]|]. cbn in *. rewrite length_app in *. cbn in *. lia.
  - destruct (m s) as [sec|]; [|done]. cbn [conf]. intros name kvs. rewrite lookup_alter_Some. intros [(<- & kv & Hkv & ->)|[_ Hkv]]; [|by apply Hc].
    destruct (Hc _ _ Hkv) as [Hn Hkvs]. split; [done|]. eapply clean_value; [|done|done]. by apply (pair_line_ok lead _ g1 g2 _ tail com).
Qed.

(** C32: a configuration is written and read back: whatever order the maps are walked through in, the text that [toString] makes of a
    configuration is loaded into an empty configuration with success and gives the same
    sections, keys and values, keys with several values too, when its names, keys and values are [clean]: each pair fits a line, keys are shorter
    than 128 and values have no number sign and no control characters or ones above 127 at their ends.  That is so for what was loaded from any file of
    lines as in [load_reads], when also the lines that [toString] makes of its pairs fit ([fits]). *)
Theorem config_roundtrip w c :
  walks w c →
  clean w ∨ (∃ ls, Forall line_ok ls ∧ Forall fits ls ∧ c = conf (foldl apply_line {| conf := ∅; m := None |} ls)) →
  load (Some (toString w)) ∅ = Some (EXIT_SUCCESS, c).
Proof.
  intros Hw Hcl. assert (Hclw : clean w).
  { destruct Hcl as [|(ls & H1 & H2 & ->)]; [done|]. eapply clean_walk; [done|]. apply clean_lines; [done..|apply map_Forall_empty]. }
  destruct Hw as (Hnd & Hk & ->). rewrite toString_lines by done. destruct (lines_of_ok w Hclw) as [Hok Hpl]. unfold load.
  rewrite <-(app_nil_r (print_lines _)). rewrite load_lines; [|done|by rewrite bool_decide_false by (by intros [? ?])|lia]. cbn [length load_loop]. do 2 f_equal.
  rewrite (apply_lines_of w ∅); [by rewrite (right_id ∅ (∪))|done..|intros; apply lookup_empty|done].
Qed.

(** ** Examples *)

Definition demo_key : list Z := [107; 49].
Definition demo_lines : list cfg_line :=
  [CComment [32] [99]; CSection [115] [32]; CPair [9] demo_key [32] [] [97; 32; 98] [13] (Some [33]); CBlank []; CPair [] demo_key [] [32] [] [] None].
Definition demo_walk : walk := [([115], [(demo_key, [49; 0; 50])])].

Lemma demo_key_ok : key_ok demo_key.
Proof.
  assert (Hp : all plain demo_key) by (by repeat constructor). assert (H61 : 61 ∉ demo_key) by (by apply (all_not_in (λ c, negb (c =? 61))); [repeat constructor|]).
  split; [done|]. split; [done|]. split; [unfold key_size; cbn; lia|]. exists [107], 49. split_and!; [done..|]. by exists 107, [49].
Qed.

Lemma short_line (s : list Z) : (length s < 100)%nat → (length s < line_size - 1)%nat.
Proof. unfold line_size. lia. Qed.

Lemma demo_lines_ok : Forall line_ok demo_lines.
Proof.
  assert (Hv : val_ok [97; 32; 98]).
  { right. split_and!; [by repeat constructor|by apply (all_not_in (λ c, negb (c =? 35))); [repeat constructor|]|]. exists [97; 32], 98. split_and!; [done..|]. by exists 97, [32; 98]. }
  pose proof demo_key_ok.
  do 5 (apply list.Forall_cons_2; [split; [cbn; repeat match goal with |- _ ∧ _ => split end; try done; try (by repeat constructor); by left|apply short_line; cbn; lia]|]). done.
Qed.


Lemma demo_walk_clean : clean demo_walk.
Proof.
  assert (Hl : ∀ c, c = 49 ∨ c = 50 → (0 ∉ [c]) ∧ line_ok (pair_of demo_key [c])).
  { intros c Hc. assert (H0 : 0 ∉ [c]) by (by intros <-%list_elem_of_singleton; destruct Hc). assert (H35 : 35 ∉ [c]) by (by intros <-%list_elem_of_singleton; destruct Hc).
    assert (Hv : val_ok [c]).
    { right. split; [destruct Hc as [->| ->]; by repeat constructor|]. split; [done|]. exists [], c. split; [done|]. split; [by destruct Hc as [->| ->]|].
      exists c, []. split; [done|]. by destruct Hc as [->| ->]. }
    pose proof demo_key_ok. split; [done|]. split; [|apply short_line; cbn; lia]. cbn. repeat match goal with |- _ ∧ _ => split end; try done; by repeat constructor. }
  apply list.Forall_singleton. split; [split; [split; [by repeat constructor|constructor]|apply short_line; cbn; lia]|]. apply list.Forall_singleton.
  exists [49], [[50]]. split; [done|]. apply list.Forall_cons_2; [by apply Hl; left|]. apply list.Forall_singleton, Hl. by right.
Qed.

Lemma config_roundtrip_witness :
  toString demo_walk = [91; 115; 93; 10; 32; 32; 32; 32; 107; 49; 32; 61; 32; 49; 10; 32; 32; 32; 32; 107; 49; 32; 61; 32; 50; 10; 10] ∧
  load (Some (toString demo_walk)) ∅ = Some (EXIT_SUCCESS, {[ [115] := {[ demo_key := [49; 0; 50] ]} ]}).
Proof.
  split; [vm_compute; reflexivity|]. apply (config_roundtrip demo_walk); [|left; apply demo_walk_clean].
  split; [apply NoDup_singleton|]. split; [|reflexivity]. apply list.Forall_singleton, NoDup_singleton.
Defined.
