(* ===== verification/ConfigSafe.v ===== *)
(** * Loading any file

    When reading a file stays inside the arrays of a line and a key, the types of names, keys and values afterwards, and that values
    that are there stay the first. *)
From S2P Require Import Prelude Strings Config ConfigSpec.

(** ** What a line can do *)

Lemma c_str_inv l s : c_str l = Some s → (0 ∉ s) ∧ ∃ r, l = s ++ 0 :: r.
Proof.
  revert s. induction l as [|c l IH]; intros s H; [done|]. cbn [c_str] in H. destruct (c =? 0) eqn:E.
  - injection H as <-. apply Z.eqb_eq in E as ->. split; [apply not_elem_of_nil|by exists l].
  - apply bind_Some in H as (s' & H & [= <-]). destruct (IH _ H) as [H0 [r ->]]. split; [|by exists r].
    apply not_elem_of_cons. split; [|done]. apply Z.eqb_neq in E. congruence.
Qed.

Lemma str_at_inv b p s : str_at b p = Some s → (0 ∉ s) ∧ ∃ r, drop p b = s ++ 0 :: r.
Proof. apply c_str_inv. Qed.

Definition key_typed (key : list Z) : Prop := key ≠ [] ∧ (0 ∉ key) ∧ (length key < key_size)%nat.
Definition string_typed (s : list Z) : Prop := (0 ∉ s) ∧ (length s < line_size)%nat.

Lemma parse_value_typed b p v b' r key val : parse_value b p v = Some (b', r, Some (key, val)) → r = 0 ∧ key_typed key ∧ string_typed val.
Proof.
  unfold parse_value. intros (v' & _ & (q & _ & (q' & _ & (b2 & _ & (c & Hc & H)%bind_Some)%bind_Some)%bind_Some)%bind_Some)%bind_Some.
  destruct (c =? 0) eqn:E0; [done|]. apply bind_Some in H as (k & Hk & (w & Hw & H)%bind_Some). destruct ((length k <? key_size)%nat) eqn:E1; [|done].
  destruct ((length w <? line_size)%nat) eqn:E2; [|done]. injection H as <- <- <- <-. apply Nat.ltb_lt in E1, E2.
  apply str_at_inv in Hk as [Hk0 [rk Hk]]. apply str_at_inv in Hw as [Hw0 _]. split_and!; try done. split_and!; try done. intros ->.
  rewrite <-(Nat.add_0_r p), <-lookup_drop, Hk in Hc. cbn in Hc. injection Hc as <-. done.
Qed.

Lemma parseValue_typed b b' r key val : parseValue b = Some (b', r, Some (key, val)) → r = 0 ∧ key_typed key ∧ string_typed val.
Proof.
  unfold parseValue. intros (p & _ & (n & _ & (p1 & _ & (b1 & _ & (c & _ & H)%bind_Some)%bind_Some)%bind_Some)%bind_Some)%bind_Some.
  destruct (_ || _); [done|]. unfold parse_pair in H. apply bind_Some in H as ([q|] & _ & H); [|done].
  apply bind_Some in H as (q' & _ & (b2 & _ & H)%bind_Some). by apply parse_value_typed in H.
Qed.

Lemma section_typed b b' name : isSectionName b = Some (b', Some name) → all name_char name.
Proof.
  unfold isSectionName. intros (n & _ & (c & _ & H)%bind_Some)%bind_Some. destruct (_ || _); [done|].
  apply bind_Some in H as (p & _ & (d & _ & H)%bind_Some). destruct (negb _); [done|]. apply bind_Some in H as (b2 & _ & (s & _ & H)%bind_Some).
  destruct (forallb name_char s) eqn:E; [|done]. injection H as <- <-. apply list.Forall_forall. intros x Hx. rewrite forallb_forall in E. by apply E, list_elem_of_In.
Qed.

(** Everything that sections and pairs keep, loading keeps. *)
Section load_inv.
Context (P : configMap → Prop).
Context (Hsec : ∀ name c, all name_char name → P c → P (start_section name c)).
Context (Hval : ∀ sec key val c, key_typed key → string_typed val → P c → P (alter (add_value key val) sec c)).

Lemma load_line_inv data s r : load_line data s = Some r → P (conf s) → P (match r with LGo s => conf s | LFail c => c end).
Proof using Hsec Hval.
  unfold load_line. intros ([b [name|]] & Hb & H)%bind_Some HP.
  - apply section_typed in Hb. pose proof (Hsec name (conf s) Hb HP) as Hs. unfold start_section in Hs. destruct (conf s !! name); by injection H as <-.
  - apply bind_Some in H as ([[b' ret] kv] & Hp & H). destruct (ret =? -2); [by injection H as <-|]. destruct kv as [[key val]|]; [|by injection H as <-].
    apply parseValue_typed in Hp as (_ & Hk & Hv). destruct (m s) as [sec|]; injection H as <-; [|done]. by apply Hval.
Qed.

Lemma load_loop_inv n f s r c : load_loop n f s = Some (r, c) → P (conf s) → P c.
Proof using Hsec Hval.
  revert f s. induction n as [|n IH]; intros f s H HP; destruct f as [|x f]; cbn [load_loop] in H; [by injection H as <- <-|done|by injection H as <- <-|].
  destruct (fgets _ _) as [l rest]. apply bind_Some in H as (lr & Hl & H). pose proof (load_line_inv _ _ _ Hl HP) as HP'.
  destruct lr as [s'|c']; [by apply IH in H|by injection H as <- <-].
Qed.

Lemma load_inv file c r c' : load file c = Some (r, c') → P c → P c'.
Proof using Hsec Hval. unfold load. destruct file as [f|]; intros H HP; [by apply load_loop_inv in H|by injection H as <- <-]. Qed.
End load_inv.

(** ** Types *)

(** Stored values are strings between zeros. *)
Definition value_typed (v : list Z) : Prop := v = join_with 0 (pieces v) ∧ pieces v ≠ [] ∧ Forall string_typed (pieces v).
Definition section_ok (kv : strmap) : Prop := map_Forall (λ key v, key_typed key ∧ value_typed v) kv.
Definition config_typed (c : configMap) : Prop := map_Forall (λ name kv, all name_char name ∧ section_ok kv) c.

Lemma value_typed_join v vs : Forall string_typed (v :: vs) → pieces (join_with 0 (v :: vs)) = v :: vs ∧ value_typed (join_with 0 (v :: vs)).
Proof.
  intros Hvs. assert (E : pieces (join_with 0 (v :: vs)) = v :: vs) by (apply pieces_join; eapply list.Forall_impl; [done|]; by intros ? [? _]).
  split; [done|]. unfold value_typed. by rewrite E.
Qed.

Lemma value_typed_one v : string_typed v → pieces v = [v] ∧ value_typed v.
Proof. intros Hv. apply (value_typed_join v []). by constructor. Qed.

Lemma value_typed_snoc v u : value_typed v → string_typed u → pieces (v ++ 0 :: u) = pieces v ++ [u] ∧ value_typed (v ++ 0 :: u).
Proof.
  intros (Hv & Hne & Hp) Hu. destruct (pieces v) as [|x xs] eqn:E; [done|]. rewrite Hv, join_snoc. cbn [app]. apply value_typed_join.
  apply list.Forall_cons in Hp as [? ?]. constructor; [done|]. apply Forall_app. split; [done|by constructor].
Qed.

Lemma typed_section name c : all name_char name → config_typed c → config_typed (start_section name c).
Proof.
  intros Hn Hc. unfold start_section. destruct (c !! name); [done|]. apply map_Forall_insert_2; [|done]. split; [done|]. apply map_Forall_empty.
Qed.

Lemma typed_value sec key val c : key_typed key → string_typed val → config_typed c → config_typed (alter (add_value key val) sec c).
Proof.
  intros Hk Hv Hc name kv. rewrite lookup_alter_Some. intros [(<- & kv' & Hkv & ->)|[_ Hkv]]; [|by apply Hc].
  destruct (Hc _ _ Hkv) as [Hn Hs]. split; [done|]. unfold add_value. destruct (kv' !! key) as [old|] eqn:E.
  - apply map_Forall_insert_2; [|done]. split; [done|]. destruct (Hs _ _ E) as [_ Hold]. by apply value_typed_snoc.
  - apply map_Forall_insert_2; [|done]. split; [done|]. by apply value_typed_one.
Qed.

Lemma typed_first v : value_typed v → list.head (pieces v) = Some (cut0 v).
Proof.
  intros (Hv & Hne & Hp). destruct (pieces v) as [|x xs]; [done|]. apply list.Forall_cons in Hp as [[Hx _] _]. cbn [list.head]. rewrite Hv. by rewrite cut0_join.
Qed.

(** Strings are only added behind those that are there. *)
Definition kept_behind (section key v : list Z) (c : configMap) : Prop :=
  config_typed c ∧ ∃ v', findValue section key c = Some v' ∧ pieces v `prefix_of` pieces v'.

Lemma kept_section section key v name c : all name_char name → kept_behind section key v c → kept_behind section key v (start_section name c).
Proof.
  intros Hn [Hc (v' & Hv & Hp)]. split; [by apply typed_section|]. exists v'. split; [|done]. unfold start_section. destruct (c !! name) eqn:E; [done|].
  unfold findValue in *. rewrite lookup_insert_ne; [done|]. intros ->. by rewrite E in Hv.
Qed.

Lemma kept_value section key v sec k val c :
  key_typed k → string_typed val → kept_behind section key v c → kept_behind section key v (alter (add_value k val) sec c).
Proof.
  intros Hk Hs [Hc (v' & Hv & Hp)]. split; [by apply typed_value|]. unfold findValue in *. destruct (c !! section) as [kv|] eqn:E; [|done].
  cbn in Hv. destruct (decide (sec = section)) as [->|Hne]; [|exists v'; by rewrite lookup_alter_ne, E by done].
  rewrite lookup_alter, decide_True, E by done. cbn. unfold add_value. destruct (decide (k = key)) as [->|Hk'].
  - rewrite Hv. exists (v' ++ 0 :: val). rewrite lookup_insert, decide_True by done. split; [done|]. destruct (Hc _ _ E) as [_ Hkv]. destruct (Hkv _ _ Hv) as [_ Hvt].
    destruct (value_typed_snoc v' val Hvt Hs) as [-> _]. by apply prefix_app_r.
  - exists v'. split; [|done]. destruct (kv !! k); by rewrite lookup_insert_ne.
Qed.

(** Loading a file never replaces what was configured before.  Whatever bytes the file has and whether it is loaded to its end, a key
    that had a value answers [getString] as before, and the strings [getStringList] gave stay in front of those that were added. *)
Lemma load_keeps file c r c' section key v d :
  load file c = Some (r, c') → config_typed c → findValue section key c = Some v →
  getString section key d c' = getString section key d c ∧ getStringList section key c `prefix_of` getStringList section key c'.
Proof.
  intros Hl Hc Hv. destruct (load_inv (kept_behind section key v) (kept_section section key v) (kept_value section key v) _ _ _ _ Hl) as [Hc' (v' & Hv' & Hp)].
  { split; [done|]. by exists v. }
  unfold getString, getStringList. rewrite Hv, Hv'. split; [|done].
  assert (Ht : ∀ c v, config_typed c → findValue section key c = Some v → value_typed v).
  { intros c0 v0 H0 (kv & Hkv & Hx)%bind_Some. destruct (H0 _ _ Hkv) as [_ H1]. by destruct (H1 _ _ Hx). }
  pose proof (typed_first v (Ht _ _ Hc Hv)) as E1. pose proof (typed_first v' (Ht _ _ Hc' Hv')) as E2. destruct Hp as [k Hp]. rewrite Hp in E2.
  destruct (pieces v); [done|]. cbn in *. congruence.
Qed.

(** ** Reading stays inside the arrays *)

(** The block of a line: its last byte is a zero. *)
Definition ended (b : list Z) : Prop := ∃ s, b = s ++ [0].

Lemma c_str_ended s : ∃ t, c_str (s ++ [0]) = Some t ∧ t = cut0 s ∧ (length t <= length s)%nat.
Proof.
  induction s as [|c s (t & E & -> & Hl)]; [by exists []|]. cbn [app c_str cut0]. destruct (c =? 0); [exists []; cbn; repeat split; lia|].
  rewrite E. exists (c :: cut0 s). cbn [length]. repeat split; lia.
Qed.

Lemma ended_drop b p : ended b → (p < length b)%nat → ∃ s, drop p b = s ++ [0] ∧ (length s = length b - S p)%nat.
Proof.
  intros [s ->] Hp. rewrite length_app in *. cbn [length] in *. exists (drop p s). split; [by rewrite drop_app_le by lia|]. rewrite length_drop. lia.
Qed.

Lemma str_at_ended b p : ended b → (p < length b)%nat → ∃ s, str_at b p = Some s ∧ (p + length s < length b)%nat.
Proof.
  intros Hb Hp. destruct (ended_drop b p Hb Hp) as (s & Hs & Hl). unfold str_at. rewrite Hs. destruct (c_str_ended s) as (t & E & _ & Ht).
  exists t. split; [done|]. lia.
Qed.

Lemma while_fwd_ended P b p : P 0 = false → ended b → (p < length b)%nat → ∃ q, while_fwd P b p = Some q ∧ (p <= q < length b)%nat.
Proof.
  intros H0 Hb Hp. destruct (ended_drop b p Hb Hp) as (s & Hs & Hl). unfold while_fwd. rewrite Hs.
  assert (E : ∃ n, span_len P (s ++ [0]) = Some n ∧ (n <= length s)%nat).
  { clear -H0. induction s as [|c s (n & E & Hn)]; cbn [app span_len length]; [rewrite H0; by exists 0%nat|]. destruct (P c); [|exists 0%nat; split; [done|lia]].
    rewrite E. exists (S n). split; [done|lia]. }
  destruct E as (n & E & Hn). rewrite E. exists (p + n)%nat. split; [done|lia].
Qed.

Lemma trim_back_ended b p p1 : (p <= p1 < length b)%nat → ∃ q, trim_back b p p1 = Some q ∧ (p <= q <= p1)%nat.
Proof.
  intros Hp. induction p1 as [|p1 IH]; cbn [trim_back]; [exists 0%nat; split; [done|lia]|].
  destruct (Nat.leb_spec (S p1) p) as [Hle|Hlt]; [exists (S p1); split; [done|lia]|].
  destruct (lookup_lt_is_Some_2 b p1) as [c Hc]; [lia|]. rewrite Hc. cbn [mbind option_bind]. destruct (blank c) eqn:Eb; [|exists (S p1); split_and!; done || lia].
  destruct IH as (q & Eq & Hq); [lia|]. exists q. split; [done|lia].
Qed.

(** What a scan from the start goes over. *)
Lemma while_fwd_all P b q j c : while_fwd P b 0 = Some q → (j < q)%nat → b !! j = Some c → P c = true.
Proof.
  unfold while_fwd. rewrite drop_0. intros (n & Hn & [= <-])%bind_Some. cbn [Nat.add]. revert n j Hn. induction b as [|x b IH]; intros n j Hn Hj Hc; [done|].
  cbn [span_len] in Hn. destruct (P x) eqn:Ex; [|injection Hn as <-; lia]. apply bind_Some in Hn as (n' & Hn' & [= <-]).
  destruct j as [|j]; [by injection Hc as <-|]. apply (IH n' j); [done|lia|done].
Qed.

(** A character that stops the scan stands in front. *)
Lemma while_back_stops P b p j c : b !! j = Some c → P c = false → (j < p <= length b)%nat → ∃ q, while_back P b p = Some q ∧ (j < q <= p)%nat.
Proof.
  intros Hj Hc. induction p as [|p IH]; intros Hp; [lia|]. cbn [while_back]. destruct (lookup_lt_is_Some_2 b p) as [d Hd]; [lia|]. rewrite Hd. cbn [mbind option_bind].
  destruct (P d) eqn:Ed; [|exists (S p); split; [done|lia]]. destruct (decide (j = p)) as [->|Hne]; [congruence|]. destruct IH as (q & E & Hq); [lia|].
  exists q. split; [done|lia].
Qed.

Lemma wr_ended b p : ended b → (p < length b)%nat → ∃ b', wr b p 0 = Some b' ∧ ended b' ∧ length b' = length b ∧ b' = <[p := 0]> b.
Proof.
  intros [s ->] Hp. unfold wr. rewrite (proj2 (Nat.ltb_lt _ _) Hp). eexists. split_and!; [done| |by rewrite length_insert|done].
  rewrite length_app in Hp. cbn [length] in Hp. destruct (decide (p < length s)%nat) as [Hl|Hl].
  - exists (<[p := 0]> s). by rewrite insert_app_l.
  - exists s. rewrite insert_app_r_alt by lia. by replace (p - length s)%nat with 0%nat by lia.
Qed.

Lemma c_str_cut b t q : c_str b = Some t → (q < length b)%nat → c_str (<[q := 0]> b) = Some (take q t).
Proof.
  revert t q. induction b as [|c b IH]; intros t q H Hq; [done|]. cbn [c_str] in H. destruct q as [|q]; [done|]. cbn [length] in Hq.
  change (<[S q := 0]> (c :: b)) with (c :: <[q := 0]> b). cbn [c_str]. destruct (c =? 0); [by injection H as <-|].
  apply bind_Some in H as (s & Hs & [= <-]). by rewrite (IH s q Hs) by lia.
Qed.

Lemma index_of_take c q t i : index_of c (take q t) = Some i → index_of c t = Some i ∧ (i < q)%nat.
Proof.
  revert q i. induction t as [|x t IH]; intros q i H; [by rewrite take_nil in H|]. destruct q as [|q]; [done|]. cbn [take index_of] in *.
  destruct (x =? c); [injection H as <-; split; [done|lia]|]. apply bind_Some in H as (k & Hk & [= <-]). apply IH in Hk as [-> Hk]. split; [done|lia].
Qed.

Lemma index_of_lt c t i : index_of c t = Some i → (i < length t)%nat.
Proof. rewrite <-(firstn_all t) at 1. by intros [_ ?]%index_of_take. Qed.

Lemma strchr_cut b q i : ended b → (q < length b)%nat → strchr (<[q := 0]> b) 0 61 = Some (Some i) → strchr b 0 61 = Some (Some i) ∧ (i < q)%nat.
Proof.
  intros [s ->] Hq H. destruct (c_str_ended s) as (t & E & _). unfold strchr, str_at in *. rewrite drop_0 in *. rewrite (c_str_cut _ t q E Hq) in H. rewrite E.
  cbn [mbind option_bind] in *. injection H as H. apply bind_Some in H as (k & Hk & [= <-]). apply index_of_take in Hk as [-> Hk]. done.
Qed.

(** In front of a separator there is a character that stays, within the length of a key. *)
Definition safe (b : list Z) : Prop :=
  ∀ i, strchr b 0 61 = Some (Some i) → (i < key_size)%nat ∧ ∃ j c, (j < i)%nat ∧ b !! j = Some c ∧ visible c = true.

Lemma safe_cut b q : ended b → (q < length b)%nat → safe b → safe (<[q := 0]> b).
Proof.
  intros Hb Hq Hs i Hi. apply strchr_cut in Hi as [Hi Hiq]; [|done..]. destruct (Hs i Hi) as [Hk (j & c & Hj & Hc & Hv)]. split; [done|]. exists j, c.
  split_and!; [done| |done]. by rewrite list_lookup_insert_ne by lia.
Qed.

Lemma str_at_zero b p s q : str_at b p = Some s → b !! q = Some 0 → (p <= q)%nat → (length s <= q - p)%nat.
Proof.
  intros [H0 [r Hr]]%str_at_inv Hq Hp. destruct (decide (length s <= q - p)%nat) as [|Hn]; [done|]. exfalso. apply H0.
  apply list_elem_of_lookup_2 with (q - p)%nat. rewrite <-(lookup_app_l s (0 :: r)) by lia. rewrite <-Hr, lookup_drop. by replace (p + (q - p))%nat with q by lia.
Qed.

(** The last part, with a visible character in front of the end of the key. *)
Lemma parse_value_defined b name value j c q :
  ended b → (length b <= line_size)%nat → b !! j = Some c → visible c = true → (name <= j < q)%nat → (q < key_size)%nat → (q < value < length b)%nat →
  b !! q = Some 0 → ∃ x, parse_value b name value = Some x.
Proof.
  intros Hb Hl Hj Hv Hjq Hq Hval Hz. unfold parse_value. destruct (while_fwd_ended (λ c, c =? 32) b value) as (v & E1 & Hv1); [done|done|lia|]. rewrite E1. cbn [mbind option_bind].
  assert (E2 : ∃ p, value_end b v = Some p ∧ (v <= p < length b)%nat).
  { destruct (str_at_ended b v Hb) as (s & Es & Hs); [lia|]. unfold value_end, strchr, strlen. rewrite Es. cbn [mbind option_bind].
    destruct (index_of 35 s) as [k|] eqn:Ek; cbn [mbind option_bind]; eexists; (split; [done|]); [apply index_of_lt in Ek|]; lia. }
  destruct E2 as (p & E2 & Hp). rewrite E2. cbn [mbind option_bind].
  destruct (while_back_stops (λ c, schar c <=? 32) b p j c) as (p' & E3 & Hp'); [done|by apply visible_ge|lia|]. rewrite E3. cbn [mbind option_bind].
  destruct (wr_ended b p' Hb) as (b' & E4 & Hb' & Hl' & ->); [lia|]. rewrite E4. cbn [mbind option_bind].
  destruct (lookup_lt_is_Some_2 (<[p' := 0]> b) name) as [d Hd]; [lia|]. rewrite Hd. cbn [mbind option_bind]. destruct (d =? 0); [eauto|].
  destruct (str_at_ended _ name Hb') as (k & Ek & Hk); [lia|]. destruct (str_at_ended _ v Hb') as (w & Ew & Hw); [lia|]. rewrite Ek. cbn [mbind option_bind]. rewrite Ew. cbn [mbind option_bind].
  assert (Hkl : (length k < key_size)%nat).
  { assert (Hz' : (<[p' := 0]> b : list Z) !! q = Some 0).
    { rewrite list_lookup_insert. destruct (decide _) as [|_]; [done|]. done. }
    pose proof (str_at_zero _ _ _ q Ek Hz'). lia. }
  rewrite (proj2 (Nat.ltb_lt _ _) Hkl), (proj2 (Nat.ltb_lt _ _)) by lia. cbn [andb]. eauto.
Qed.

Lemma parseValue_defined b : ended b → (length b <= line_size)%nat → safe b → ∃ x, parseValue b = Some x.
Proof.
  intros Hb Hl Hs. assert (Hne : (0 < length b)%nat) by (destruct Hb as [s ->]; rewrite length_app; cbn; lia). unfold parseValue.
  destruct (while_fwd_ended blank b 0) as (p & E1 & Hp); [done..|]. rewrite E1. cbn [mbind option_bind].
  destruct (str_at_ended b p Hb) as (s & Es & Hsl); [lia|]. unfold strlen. rewrite Es. cbn [mbind option_bind].
  destruct (trim_back_ended b p (p + length s)) as (p1 & E2 & Hp1); [lia|]. rewrite E2. cbn [mbind option_bind].
  destruct (wr_ended b p1 Hb) as (b1 & E3 & Hb1 & Hl1 & Hb1'); [lia|]. rewrite E3. cbn [mbind option_bind].
  destruct (lookup_lt_is_Some_2 b1 p) as [c Hc]; [lia|]. rewrite Hc. cbn [mbind option_bind]. destruct (_ || _); [eauto|].
  assert (Hs1 : safe b1) by (rewrite Hb1'; apply safe_cut; [done|lia|done]). unfold parse_pair.
  destruct (str_at_ended b1 0 Hb1) as (t & Et & Ht); [lia|]. assert (Ec : strchr b1 0 61 = Some (i ← index_of 61 t; Some i)) by (unfold strchr; by rewrite Et).
  rewrite Ec. cbn [mbind option_bind]. destruct (index_of 61 t) as [i|] eqn:Ei; cbn [mbind option_bind]; [|eauto]. apply index_of_lt in Ei.
  destruct (Hs1 i Ec) as [Hi (j & d & Hj & Hd & Hv)].
  destruct (while_back_stops (λ c, c =? 32) b1 i j d) as (q & E4 & Hq); [done|by apply visible_not_space|lia|]. rewrite E4. cbn [mbind option_bind].
  destruct (wr_ended b1 q Hb1) as (b2 & E5 & Hb2 & Hl2 & Hb2'); [lia|]. rewrite E5. cbn [mbind option_bind].
  apply (parse_value_defined b2 p (S i) j d q); try done; try lia.
  - rewrite Hb2', list_lookup_insert_ne by lia. done.
  - split; [|lia]. destruct (decide (p <= j)%nat) as [|Hn]; [done|]. exfalso. pose proof (visible_not_blank d Hv) as Hnb.
    assert (Hbj : b !! j = Some d) by (rewrite Hb1', list_lookup_insert_ne in Hd by lia; done). rewrite (while_fwd_all blank b p j d E1) in Hnb; [done|lia|done].
  - rewrite Hb2'. apply list_lookup_insert_eq. lia.
Qed.

Lemma isSectionName_defined b :
  ended b → safe b → ∃ b' r, isSectionName b = Some (b', r) ∧ ended b' ∧ length b' = length b ∧ safe b'.
Proof.
  intros Hb Hs. assert (Hne : (0 < length b)%nat) by (destruct Hb as [s ->]; rewrite length_app; cbn; lia). unfold isSectionName.
  destruct (str_at_ended b 0 Hb Hne) as (s & Es & Hsl). unfold strlen. rewrite Es. cbn [mbind option_bind].
  destruct (lookup_lt_is_Some_2 b 0) as [c Hc]; [lia|]. rewrite Hc. cbn [mbind option_bind].
  destruct (Nat.leb_spec (length s) 2) as [Hle|Hlt]; cbn [orb]; [by exists b, None|]. destruct (Z.eqb_spec c 91) as [->|Hc91]; cbn [negb]; [|by exists b, None].
  destruct (while_back_stops blank b (length s) 0 91) as (p & E1 & Hp); [done|done|lia|]. rewrite E1. cbn [mbind option_bind].
  destruct (lookup_lt_is_Some_2 b (p - 1)) as [d Hd]; [lia|]. rewrite Hd. cbn [mbind option_bind]. destruct (negb (d =? 93)); [by exists b, None|].
  destruct (wr_ended b (p - 1) Hb) as (b' & E2 & Hb' & Hl & ->); [lia|]. rewrite E2. cbn [mbind option_bind].
  destruct (str_at_ended _ 1 Hb') as (t & Et & _); [lia|]. rewrite Et. cbn [mbind option_bind]. eexists _, _. split_and!; [done..|].
  apply safe_cut; [done|lia|done].
Qed.

(** A line as it was read.  Where it has a separator, a character that is neither a blank nor above 127 stands in front of it, and it is
    among the first 128 characters. *)
Definition line_safe (line : list Z) : Prop :=
  ∀ i, index_of 61 (cut0 line) = Some i → (i < key_size)%nat ∧ Exists (λ c, visible c = true) (take i line).

Lemma line_safe_block line : line_safe line → safe (line ++ [0]).
Proof.
  intros Hl i Hi. unfold strchr, str_at in Hi. rewrite drop_0 in Hi. destruct (c_str_ended line) as (t & E & -> & Ht). rewrite E in Hi. cbn [mbind option_bind] in Hi.
  injection Hi as Hi. apply bind_Some in Hi as (k & Hk & [= ->]). destruct (Hl i Hk) as [Hi (c & Hc & Hv)%list.Exists_exists]. split; [done|].
  apply list_elem_of_lookup in Hc as [j Hj]. apply lookup_take_Some in Hj as [Hj Hji]. exists j, c. split_and!; [done| |done]. by apply lookup_app_l_Some.
Qed.

Lemma load_line_defined line s : line_safe line → (length line < line_size)%nat → ∃ r, load_line (line ++ [0]) s = Some r.
Proof.
  intros Hs Hl. destruct (isSectionName_defined (line ++ [0])) as (b & r & E & Hb & Hlb & Hsb); [by exists line|by apply line_safe_block|].
  unfold load_line. rewrite E. cbn [mbind option_bind]. destruct r as [name|]; [destruct (conf s !! name); eauto|].
  destruct (parseValue_defined b Hb) as [[[b' r] kv] Ep]; [rewrite Hlb, length_app; cbn [length]; lia|done|]. rewrite Ep. cbn [mbind option_bind].
  destruct (r =? -2); [eauto|]. destruct kv as [[k v]|]; [|eauto]. destruct (m s); eauto.
Qed.

(** The lines [fgets] cuts a file into. *)
Fixpoint cut_lines (fuel : nat) (f : list Z) : list (list Z) :=
  match f, fuel with
  | _ :: _, S fuel => let '(line, rest) := fgets (line_size - 1) f in line :: cut_lines fuel rest
  | _, _ => []
  end.
Definition file_lines (f : list Z) : list (list Z) := cut_lines (length f) f.

Lemma fgets_length n f l r : fgets n f = (l, r) → (length l <= n)%nat.
Proof.
  revert f l r. induction n as [|n IH]; intros f l r H; [injection H as <- <-; cbn; lia|]. destruct f as [|c f]; [injection H as <- <-; cbn; lia|]. cbn [fgets] in H.
  destruct (c =? 10); [injection H as <- <-; cbn; lia|]. destruct (fgets n f) as [l' r'] eqn:E. injection H as <- <-. apply IH in E. cbn [length]. lia.
Qed.

Lemma load_loop_defined n f s : (length f <= n)%nat → Forall line_safe (cut_lines n f) → ∃ x, load_loop n f s = Some x.
Proof.
  revert f s. induction n as [|n IH]; intros f s Hn Hs; destruct f as [|c f]; cbn [load_loop cut_lines length] in *; [eauto|lia|eauto|].
  destruct (fgets _ _) as [l r] eqn:E. apply list.Forall_cons in Hs as [Hl Hs]. pose proof (fgets_length _ _ _ _ E) as Hlen.
  destruct (load_line_defined l s Hl) as [lr El]; [unfold line_size in *; lia|]. rewrite El. cbn [mbind option_bind]. destruct lr as [s'|c']; [|eauto].
  apply IH; [|done]. rewrite line_size_S in E. apply fgets_progress in E. lia.
Qed.

Lemma load_defined f c : Forall line_safe (file_lines f) → ∃ r c', load (Some f) c = Some (r, c').
Proof. intros Hs. destruct (load_loop_defined (length f) f {| conf := c; m := None |}) as [[r c'] E]; [lia|done|]. by exists r, c'. Qed.

(** C33: loading is safe and only adds.  For every file in whose lines an [=], if there is one, is among the first 128 characters and has a
    character in front of it that is no blank and not above 127, loading returns, and reads and writes nothing outside of the arrays of a
    line, a key and a value; afterwards, whether the file was loaded to its end or not, names of sections are words of letters, digits
    and underscores, keys are not empty, a value is a sequence of strings without zeros that each fit a line, put together with
    zeros; and a key that had a value answers [getString] as before, and the strings of [getStringList] stay in front of those that
    were added. *)
Theorem load_typed f c :
  Forall line_safe (file_lines f) → config_typed c →
  ∃ r c', load (Some f) c = Some (r, c') ∧ config_typed c' ∧
    ∀ section key v d, findValue section key c = Some v →
      getString section key d c' = getString section key d c ∧ getStringList section key c `prefix_of` getStringList section key c'.
Proof.
  intros Hs Hc. destruct (load_defined f c Hs) as (r & c' & Hl). exists r, c'. split; [done|]. split.
  - revert Hc. apply (load_inv _ typed_section typed_value _ _ _ _ Hl).
  - intros section key v d. by apply (load_keeps (Some f) c r).
Qed.

(** ** Lines that are read differently from what they look like *)

(** A separator at the start of a line: the byte in front of the array is read. *)
Lemma leading_separator : load (Some [91; 115; 93; 10; 61; 120; 10]) ∅ = None.
Proof. vm_compute. reflexivity. Qed.

(** "k = # c": a comment instead of a value becomes the value. *)
Lemma comment_is_value : ∃ c, load (Some [91; 115; 93; 10; 107; 32; 61; 32; 35; 32; 99; 10]) ∅ = Some (EXIT_SUCCESS, c) ∧ getString [115] [107] None c = Some [35; 32; 99].
Proof. eexists. split; vm_compute; reflexivity. Qed.

(** "k = a" followed by a character above 127: it is cut off. *)
Lemma high_character_lost : ∃ c, load (Some [91; 115; 93; 10; 107; 32; 61; 32; 97; 228; 10]) ∅ = Some (EXIT_SUCCESS, c) ∧ getString [115] [107] None c = Some [97].
Proof. eexists. split; vm_compute; reflexivity. Qed.

(** "k = -": [isPureInt] accepts it and [std::stoi] throws. *)
Lemma lone_minus_throws : getInt [115] [107] 5 {[ [115] := {[ [107] := [45] ]} ]} = None.
Proof. vm_compute. reflexivity. Qed.

(** ** Examples *)

(** "[s] k=1", loaded over a configuration that has a value for k. *)
Lemma load_typed_witness :
  ∃ r c', load (Some [91; 115; 93; 10; 107; 61; 49; 10]) {[ [115] := {[ [107] := [50] ]} ]} = Some (r, c') ∧ config_typed c' ∧
    getString [115] [107] None c' = Some [50].
Proof.
  destruct (load_typed [91; 115; 93; 10; 107; 61; 49; 10] {[ [115] := {[ [107] := [50] ]} ]}) as (r & c' & H1 & H2 & H3).
  - apply list.Forall_cons. split; [intros i [=]|]. apply list.Forall_cons. split; [|by constructor]. intros i [= <-].
    split; [apply Nat.ltb_lt; reflexivity|]. by left.
  - apply map_Forall_singleton. split; [by repeat constructor|]. apply map_Forall_singleton. split.
    + split; [done|]. split; [by apply (bool_decide_unpack _)|apply Nat.ltb_lt; reflexivity].
    + apply value_typed_one. split; [by apply (bool_decide_unpack _)|apply Nat.ltb_lt; reflexivity].
  - exists r, c'. split; [exact H1|]. split; [exact H2|]. exact (proj1 (H3 [115] [107] [50] None eq_refl)).
Defined.
