(* ===== verification/BufQueue.v ===== *)
(** * The second queue of messages in a ring of bytes

    [BufferQueue] and [LockBufferQueue] of src/src/common/bufferqueue.{h,cc}.  Every message is a word of 8 bytes and its bytes, wrapped
    around the end of the block where needed.  The word has the kind of the message in its two highest bits: 0 for a message in one part,
    with its length below, 1 for one in two parts, with a length of 30 and one of 32 bits.

    A pointer into the block is its offset.  [None] is an execution without meaning: a failed assertion or an access outside of the block.
    The lengths that callers pass are those of their buffers, so that sums of them stay below 2^64; lengths that are read from the ring
    are at their width.  [cvLock] only serialises: operations are atomic, a wait that ends with an empty queue finds nothing. *)
From S2P Require Import Prelude Buffers RingQueue.

(** ** [BufferQueue] *)

Record buf_queue := {
  startPos : Z;
  endPos : Z;
  eleNumber : Z;
  totalBufSize : Z;
  circleBuf : list Z }.

(** The constructor leaves the number of messages as it is in memory. *)
Definition BufferQueue_new (junk : Z) : buf_queue := {| startPos := 0; endPos := 0; eleNumber := junk; totalBufSize := 0; circleBuf := [] |}.

Definition set_startPos (v : Z) (q : buf_queue) : buf_queue := Build_buf_queue v (endPos q) (eleNumber q) (totalBufSize q) (circleBuf q).
Definition set_endPos (v : Z) (q : buf_queue) : buf_queue := Build_buf_queue (startPos q) v (eleNumber q) (totalBufSize q) (circleBuf q).
Definition set_eleNumber (v : Z) (q : buf_queue) : buf_queue := Build_buf_queue (startPos q) (endPos q) v (totalBufSize q) (circleBuf q).
Definition set_circleBuf (m : list Z) (q : buf_queue) : buf_queue := Build_buf_queue (startPos q) (endPos q) (eleNumber q) (totalBufSize q) m.

(** [mem] is the new block; the positions stay. *)
Definition BufferQueue_initialize (maxSize : Z) (mem : list Z) (q : buf_queue) : bool * buf_queue :=
  if maxSize =? 0 then (false, q) else (true, Build_buf_queue (startPos q) (endPos q) (eleNumber q) maxSize mem).

Definition BufferQueue_isEmpty (q : buf_queue) : bool := startPos q =? endPos q.

Definition tryEnqueueFull (len : Z) (q : buf_queue) : option bool :=
  if len =? 0 then Some false
  else if endPos q =? startPos q then Some (totalBufSize q <? len)
  else if startPos q <? endPos q then Some (totalBufSize q - endPos q + startPos q <? 8 + len)
  else
    _ ← assert_that (endPos q <=? startPos q);
    Some (startPos q - endPos q <? 8 + len).

Definition BufferQueue_size (q : buf_queue) : Z :=
  if startPos q <=? endPos q then endPos q - startPos q else totalBufSize q - (startPos q - endPos q).
Definition BufferQueue_count (q : buf_queue) : Z := eleNumber q.

(** [enqueue] of one buffer. *)
Definition BufferQueue_enqueue (buf : list Z) (q : buf_queue) : option (bool * buf_queue) :=
  let len := Z.of_nat (length buf) in
  if len =? 0 then Some (false, q) else
  full ← tryEnqueueFull len q;
  if (full : bool) then Some (false, q) else
  let size := totalBufSize q in
  let e := endPos q in
  '(m, e') ←
    (if size <? e + 8 then
       m ← putSplitLen (circleBuf q) size e len;
       m ← poke m (e + 8 - size) buf;
       let e' := len + e + 8 - size in
       _ ← assert_that (e' <=? startPos q);
       Some (m, e')
     else if size <? e + 8 + len then
       m ← SetLen (circleBuf q) e len;
       let n := Z.to_nat (size - e - 8) in
       m ← poke m (e + 8) (take n buf);
       m ← poke m 0 (drop n buf);
       let e' := len - (size - e - 8) in
       _ ← assert_that (e' <=? startPos q);
       Some (m, e')
     else
       m ← SetLen (circleBuf q) e len;
       m ← poke m (e + 8) buf;
       Some (m, (e + 8 + len) mod size));
  Some (true, set_eleNumber (u64 (eleNumber q + 1)) (set_endPos e' (set_circleBuf m q))).

Definition BufferQueue_enqueueData (data : data_buffer) (q : buf_queue) : option (bool * buf_queue) :=
  buf ← peek (bytes data) 0 (getDataLen data);
  BufferQueue_enqueue buf q.

(** The word of a message in two parts. *)
Definition twoWord (len1 len2 : Z) : Z := Z.lor (Z.lor (Z.shiftl 1 62) (u64 (Z.shiftl len1 32))) len2.

(** [enqueue] of two buffers as the parts of a message. *)
Definition BufferQueue_enqueue2 (buf1 buf2 : list Z) (q : buf_queue) : option (bool * buf_queue) :=
  let len1 := Z.of_nat (length buf1) in
  let len2 := Z.of_nat (length buf2) in
  let len := len1 + len2 in
  if len =? 0 then Some (false, q) else
  full ← tryEnqueueFull len q;
  if (full : bool) then Some (false, q) else
  let encoded_len := twoWord len1 len2 in
  let size := totalBufSize q in
  let e := endPos q in
  '(m, e') ←
    (if size <? e + 8 then
       m ← putSplitLen (circleBuf q) size e encoded_len;
       m ← poke m (e + 8 - size) buf1;
       m ← poke m (e + 8 - size + len1) buf2;
       let e' := len + e + 8 - size in
       _ ← assert_that (e' <=? startPos q);
       Some (m, e')
     else if size <? e + 8 + len then
       m ← SetLen (circleBuf q) e encoded_len;
       m ← (if size <? e + 8 + len1 then
              let n := Z.to_nat (size - e - 8) in
              m ← poke m (e + 8) (take n buf1);
              m ← poke m 0 (drop n buf1);
              poke m (len1 - (size - e - 8)) buf2
            else
              let n := Z.to_nat (size - e - 8 - len1) in
              m ← poke m (e + 8) buf1;
              m ← poke m (e + 8 + len1) (take n buf2);
              poke m 0 (drop n buf2));
       let e' := len - (size - e - 8) in
       _ ← assert_that (e' <=? startPos q);
       Some (m, e')
     else
       m ← SetLen (circleBuf q) e encoded_len;
       m ← poke m (e + 8) buf1;
       m ← poke m (e + 8 + len1) buf2;
       Some (m, (e + 8 + len) mod size));
  Some (true, set_eleNumber (u64 (eleNumber q + 1)) (set_endPos e' (set_circleBuf m q))).

Definition BufferQueue_enqueueData2 (hdr data : data_buffer) (q : buf_queue) : option (bool * buf_queue) :=
  buf1 ← peek (bytes hdr) 0 (getDataLen hdr);
  buf2 ← peek (bytes data) 0 (getDataLen data);
  BufferQueue_enqueue2 buf1 buf2 q.

(** The parts of a word. *)
Definition wordType (w : Z) : Z := Z.land (Z.shiftr w 62) 3.
Definition wordLen (w : Z) : Z := Z.land w 0x3FFFFFFFFFFFFFFF.
Definition wordLen1 (w : Z) : Z := Z.shiftr (Z.land w 0x3FFFFFFF00000000) 32.
Definition wordLen2 (w : Z) : Z := Z.land w 0xFFFFFFFF.

(** The front of a queue that reaches around the end: its word, the start of its data and the position behind it; [Some None] for a
    message of another kind. *)
Definition frontAround (kind : Z) (len_of : Z → Z) (q : buf_queue) : option (option (Z * Z * Z)) :=
  _ ← assert_that (startPos q + 1 <=? totalBufSize q);
  if totalBufSize q <? startPos q + 8 then
    w ← splitLen (circleBuf q) (totalBufSize q) (startPos q);
    if negb (wordType w =? kind) then Some None else
    let from := startPos q + 8 - totalBufSize q in
    let new_begin := u64 (from + len_of w) in
    _ ← assert_that (new_begin <=? endPos q);
    Some (Some (w, from, new_begin))
  else
    w ← GetLen (circleBuf q) (startPos q);
    if negb (wordType w =? kind) then Some None else
    let from := if startPos q + 8 =? totalBufSize q then 0 else startPos q + 8 in
    if u64 (startPos q + 8 + len_of w) <? totalBufSize q then Some (Some (w, from, u64 (startPos q + 8 + len_of w)))
    else
      let new_begin := u64 (u64 (startPos q + 8 + len_of w) - totalBufSize q) in
      _ ← assert_that (new_begin <=? endPos q);
      Some (Some (w, from, new_begin)).

Definition decNumber (q : buf_queue) : buf_queue := if eleNumber q =? 0 then q else set_eleNumber (eleNumber q - 1) q.

(** What messages are taken into: a [std::string] or a [DataBuffer]. *)
Class Sink (S : Type) := { sink_clear : S → S; sink_write : S → list Z → option S }.

#[export] Instance string_sink : Sink (list Z) := { sink_clear _ := []; sink_write s l := Some (s ++ l) }.
#[export] Instance data_sink (junk : nat → Z) : Sink data_buffer := { sink_clear := clear; sink_write := writeBytes junk }.

Section sinks.
Context {S : Type} `{Sink S}.

(** [len] bytes of the ring from [from] on. *)
Definition copyOut (s : S) (q : buf_queue) (from len : Z) : option S := l ← peek (circleBuf q) from len; sink_write s l.

(** [dequeue] of a message in one part; the two functions of the source differ only in what they write to. *)
Definition BufferQueue_dequeue (data : S) (q : buf_queue) : option (bool * S * buf_queue) :=
  if BufferQueue_isEmpty q then Some (false, data, q) else
  let data := sink_clear data in
  if startPos q <? endPos q then
    w ← GetLen (circleBuf q) (startPos q);
    if negb (wordType w =? 0) then Some (false, data, q) else
    let len := wordLen w in
    _ ← assert_that (u64 (startPos q + 8 + len) <=? endPos q);
    data ← copyOut data q (startPos q + 8) len;
    Some (true, data, decNumber (set_startPos (startPos q + (len + 8)) q))
  else
    f ← frontAround 0 wordLen q;
    match f with
    | None => Some (false, data, q)
    | Some (w, from, to) =>
        let len := wordLen w in
        data ← (if from <? to then
                  _ ← assert_that (to - from =? len);
                  copyOut data q from len
                else
                  data ← copyOut data q from (totalBufSize q - from);
                  data ← copyOut data q 0 to;
                  _ ← assert_that (totalBufSize q - (from - to) =? len);
                  Some data);
        Some (true, data, decNumber (set_startPos to q))
    end.

(** [dequeue] of a message in two parts. *)
Definition BufferQueue_dequeue2 (hdr data : S) (q : buf_queue) : option (bool * S * S * buf_queue) :=
  if BufferQueue_isEmpty q then Some (false, hdr, data, q) else
  let hdr := sink_clear hdr in
  let data := sink_clear data in
  if startPos q <? endPos q then
    _ ← assert_that (startPos q + 8 <? endPos q);
    w ← GetLen (circleBuf q) (startPos q);
    if negb (wordType w =? 1) then Some (false, hdr, data, q) else
    let len1 := wordLen1 w in
    let len2 := wordLen2 w in
    _ ← assert_that (u64 (startPos q + 8 + (len1 + len2)) <=? endPos q);
    hdr ← copyOut hdr q (startPos q + 8) len1;
    data ← copyOut data q (startPos q + 8 + len1) len2;
    Some (true, hdr, data, decNumber (set_startPos (startPos q + (len1 + len2 + 8)) q))
  else
    f ← frontAround 1 (λ w, wordLen1 w + wordLen2 w) q;
    match f with
    | None => Some (false, hdr, data, q)
    | Some (w, from, to) =>
        let len1 := wordLen1 w in
        let len2 := wordLen2 w in
        let len := len1 + len2 in
        let size := totalBufSize q in
        '(hdr, data) ←
          (if from <? to then
             _ ← assert_that (to - from =? len);
             hdr ← copyOut hdr q from len1;
             data ← copyOut data q (from + len1) len2;
             Some (hdr, data)
           else
             _ ← assert_that (size - (from - to) =? len);
             if size - from <? len1 then
               hdr ← copyOut hdr q from (size - from);
               hdr ← copyOut hdr q 0 (len1 - (size - from));
               data ← copyOut data q (from + len1 - size) len2;
               Some (hdr, data)
             else
               hdr ← copyOut hdr q from len1;
               data ← copyOut data q (from + len1) (size - from - len1);
               data ← copyOut data q 0 (len - (size - from));
               Some (hdr, data));
        Some (true, hdr, data, decNumber (set_startPos to q))
    end.

(** ** [LockBufferQueue] *)

(** [others]: what other threads do while the queue is empty and the call waits. *)
Definition LockBufferQueue_dequeue (others : buf_queue → buf_queue) (wait_ms : Z) (data : S) (q : buf_queue) : option (bool * S * buf_queue) :=
  if BufferQueue_isEmpty q then
    if wait_ms =? 0 then Some (false, data, q) else BufferQueue_dequeue data (others q)
  else BufferQueue_dequeue data q.

Definition LockBufferQueue_dequeue2 (others : buf_queue → buf_queue) (wait_ms : Z) (hdr data : S) (q : buf_queue) : option (bool * S * S * buf_queue) :=
  if BufferQueue_isEmpty q then
    if wait_ms =? 0 then Some (false, hdr, data, q) else BufferQueue_dequeue2 hdr data (others q)
  else BufferQueue_dequeue2 hdr data q.
End sinks.

Definition LockBufferQueue_initialize := BufferQueue_initialize.
Definition LockBufferQueue_enqueue := BufferQueue_enqueue.
Definition LockBufferQueue_enqueue2 := BufferQueue_enqueue2.
Definition LockBufferQueue_enqueueData := BufferQueue_enqueueData.
Definition LockBufferQueue_enqueueData2 := BufferQueue_enqueueData2.
Definition LockBufferQueue_isEmpty := BufferQueue_isEmpty.
