(* ===== verification/BufQueueSpec.v ===== *)
(** * The second ring as a queue of messages in one or two parts

    The reads and writes around the end are those of [RingSpec]; what is new is the word of a message, which tells its kind, and that
    messages are taken into a [Sink], whose laws a string and a [DataBuffer] satisfy. *)
From S2P Require Import Prelude Buffers BufferSpec RingQueue RingSpec BufQueue.

(** ** Words *)

Lemma twoWord_value a b : 0 <= a < 2 ^ 30 → 0 <= b < 2 ^ 32 → twoWord a b = 2 ^ 62 + a * 2 ^ 32 + b.
Proof.
  intros Ha Hb. unfold twoWord. assert (Hs : Z.shiftl a 32 = a * 2 ^ 32) by (apply Z.shiftl_mul_pow2; lia).
  rewrite Hs, u64_id by lia. rewrite lor_shiftl by lia.
  replace (1 * 2 ^ 62 + a * 2 ^ 32) with (Z.shiftl (2 ^ 30 + a) 32) by (rewrite Z.shiftl_mul_pow2 by lia; lia).
  rewrite lor_shiftl by lia. lia.
Qed.

Lemma wordType_value w : 0 <= w < 2 ^ 64 → wordType w = w / 2 ^ 62.
Proof.
  intros Hw. unfold wordType. rewrite Z.shiftr_div_pow2 by lia. change 3 with (Z.ones 2). rewrite Z.land_ones by lia. apply Z.mod_small. split.
  - apply Z.div_pos; lia.
  - apply Z.div_lt_upper_bound; lia.
Qed.

Lemma wordLen_value w : wordLen w = w mod 2 ^ 62.
Proof. unfold wordLen. change 0x3FFFFFFFFFFFFFFF with (Z.ones 62). apply Z.land_ones. lia. Qed.

Lemma wordLen2_value w : wordLen2 w = w mod 2 ^ 32.
Proof. unfold wordLen2. change 0xFFFFFFFF with (Z.ones 32). apply Z.land_ones. lia. Qed.

Lemma wordLen1_value w : wordLen1 w = (w / 2 ^ 32) mod 2 ^ 30.
Proof.
  unfold wordLen1. rewrite Z.shiftr_land. change (Z.shiftr 0x3FFFFFFF00000000 32) with (Z.ones 30). rewrite Z.land_ones by lia.
  by rewrite Z.shiftr_div_pow2 by lia.
Qed.

(** Messages in one and in two parts. *)
Inductive bmsg :=
| One (d : list Z)
| Two (h d : list Z).

Definition body (m : bmsg) : list Z := match m with One d => d | Two h d => h ++ d end.
Definition kind_of (m : bmsg) : Z := match m with One _ => 0 | Two _ _ => 1 end.
Definition word_of (m : bmsg) : Z :=
  match m with
  | One d => Z.of_nat (length d)
  | Two h d => twoWord (Z.of_nat (length h)) (Z.of_nat (length d))
  end.

(** Messages whose lengths fit their words. *)
Definition bmsg_ok (m : bmsg) : Prop :=
  (0 < length (body m))%nat ∧ Forall is_u8 (body m) ∧
  match m with
  | One d => Z.of_nat (length d) < 2 ^ 62
  | Two h d => Z.of_nat (length h) < 2 ^ 30 ∧ Z.of_nat (length d) < 2 ^ 32
  end.

Lemma word_facts m : bmsg_ok m → 0 <= word_of m < 2 ^ 64 ∧ wordType (word_of m) = kind_of m.
Proof.
  intros (_ & _ & Hm). destruct m as [d|h d]; cbn [word_of kind_of].
  - split; [lia|]. rewrite wordType_value by lia. apply Z.div_small. lia.
  - destruct Hm as [Hh Hd]. rewrite twoWord_value by lia. split; [lia|]. rewrite wordType_value by lia. symmetry. apply (Z.div_unique _ _ _ (Z.of_nat (length h) * 2 ^ 32 + Z.of_nat (length d))); lia.
Qed.

Lemma one_len d : bmsg_ok (One d) → wordLen (word_of (One d)) = Z.of_nat (length d).
Proof. intros (_ & _ & Hm). cbn [word_of]. rewrite wordLen_value. apply Z.mod_small. lia. Qed.

Lemma two_lens h d :
  bmsg_ok (Two h d) → wordLen1 (word_of (Two h d)) = Z.of_nat (length h) ∧ wordLen2 (word_of (Two h d)) = Z.of_nat (length d).
Proof.
  intros (_ & _ & Hh & Hd). cbn [word_of]. rewrite twoWord_value, wordLen1_value, wordLen2_value by lia. split.
  - replace ((2 ^ 62 + Z.of_nat (length h) * 2 ^ 32 + Z.of_nat (length d)) / 2 ^ 32) with (2 ^ 30 + Z.of_nat (length h)).
    + replace (2 ^ 30 + Z.of_nat (length h)) with (Z.of_nat (length h) + 1 * 2 ^ 30) by lia. rewrite Z.mod_add by lia. apply Z.mod_small. lia.
    + apply (Z.div_unique _ _ _ (Z.of_nat (length d))); lia.
  - replace (2 ^ 62 + Z.of_nat (length h) * 2 ^ 32 + Z.of_nat (length d)) with (Z.of_nat (length d) + (2 ^ 30 + Z.of_nat (length h)) * 2 ^ 32) by lia.
    rewrite Z.mod_add by lia. apply Z.mod_small. lia.
Qed.

(** ** What messages are taken into *)

Class SinkLaws (S : Type) `{Sink S} := {
  sink_ok : S → Prop;
  sink_view : S → list Z;
  sink_used : S → Z;
  sink_limit : Z;
  sink_clear_ok s : sink_ok s → sink_ok (sink_clear s) ∧ sink_view (sink_clear s) = [] ∧ sink_used (sink_clear s) = 0;
  sink_write_ok s l : sink_ok s → Forall is_u8 l → sink_used s + Z.of_nat (length l) <= sink_limit →
    ∃ s', sink_write s l = Some s' ∧ sink_ok s' ∧ sink_view s' = sink_view s ++ l ∧ sink_used s' = sink_used s + Z.of_nat (length l) }.

#[export] Program Instance string_laws : SinkLaws (list Z) :=
  {| sink_ok _ := True; sink_view s := s; sink_used s := Z.of_nat (length s); sink_limit := 2 ^ 62 |}.
Next Obligation. done. Qed.
Next Obligation. intros s l _ _ _. exists (s ++ l). split_and!; [done..|]. rewrite length_app. lia. Qed.

#[export] Program Instance data_laws (junk : nat → Z) (Hj : ∀ i, is_u8 (junk i)) : SinkLaws data_buffer (H := data_sink junk) :=
  {| sink_ok := wf_buf; sink_view := contents; sink_used := pfree; sink_limit := size_limit |}.
Next Obligation.
  intros junk Hj s [Ho He Hc Hb Hu]. cbn. split_and!; [|done|done]. split; try done; unfold pend, bytes in *; cbn in *; lia.
Qed.
Next Obligation.
  intros junk Hj s l Hs Hl Hlim. destruct (writeBytes_ok junk Hj s l Hs Hl Hlim) as (b & E & Hw & Hc & Hf & _). by exists b.
Qed.

(** ** Messages in the ring *)

Definition menc (m : bmsg) : list Z := le_bytes 8 (word_of m) ++ body m.
Definition mencs (ms : list bmsg) : list Z := mjoin (menc <$> ms).

Lemma length_menc m : length (menc m) = (8 + length (body m))%nat.
Proof. unfold menc. by rewrite length_app, length_le_bytes. Qed.

Lemma mencs_cons m ms : mencs (m :: ms) = menc m ++ mencs ms.
Proof. done. Qed.

Lemma mencs_snoc ms m : mencs (ms ++ [m]) = mencs ms ++ menc m.
Proof. unfold mencs. rewrite fmap_app, join_app. cbn. by rewrite app_nil_r. Qed.

(** The queue [q] holds the messages [ms]; it is never full to the last byte. *)
Record bq_ok (ms : list bmsg) (q : buf_queue) : Prop := {
  bo_size : totalBufSize q = Z.of_nat (length (circleBuf q));
  bo_room : (0 < length (circleBuf q))%nat ∧ Z.of_nat (length (circleBuf q)) < 2 ^ 62;
  bo_begin : 0 <= startPos q < totalBufSize q;
  bo_used : (length (mencs ms) < length (circleBuf q))%nat;
  bo_end : endPos q = Z.of_nat (wr (length (circleBuf q)) (Z.to_nat (startPos q) + length (mencs ms)));
  bo_view : view (circleBuf q) (Z.to_nat (startPos q)) (length (mencs ms)) = mencs ms;
  bo_msgs : Forall bmsg_ok ms }.

Section Front.
Context (m : bmsg) (ms : list bmsg) (q : buf_queue) (Hq : bq_ok (m :: ms) q).
Abbreviation B := (length (circleBuf q)).
Abbreviation b := (Z.to_nat (startPos q)).
Abbreviation n := (length (body m)).

Lemma bfront_used : length (mencs (m :: ms)) = (8 + n + length (mencs ms))%nat ∧ bmsg_ok m ∧ (0 < n)%nat.
Proof using Hq.
  rewrite mencs_cons, length_app, length_menc. pose proof (bo_msgs _ _ Hq) as Hm. apply list.Forall_cons in Hm as [Hm _].
  split_and!; [lia|done|apply Hm].
Qed.

Lemma bfront_view :
  view (circleBuf q) b 8 = le_bytes 8 (word_of m) ∧ view (circleBuf q) (wr B (b + 8)) n = body m ∧
  view (circleBuf q) (wr B (b + 8 + n)) (length (mencs ms)) = mencs ms.
Proof using Hq.
  destruct bfront_used as (Hf & _ & Hn). destruct Hq as [Hs [Hm H62] Hb Hu He Hv _]. rewrite Hf in Hu, Hv.
  rewrite Hs in Hb. rewrite <-Nat.add_assoc, view_app, view_app in Hv by wr_lia. rewrite mencs_cons in Hv. unfold menc in Hv. rewrite <-app_assoc in Hv.
  apply app_inj_1 in Hv as [Hv1 Hv]; [|by rewrite length_view, length_le_bytes].
  apply app_inj_1 in Hv as [Hv2 Hv3]; [|by rewrite length_view]. split_and!; [done|done|]. rewrite <-Hv3 at 2. f_equal. wr_lia.
Qed.

(** Where the first message is when nothing reaches around the end, and otherwise. *)
Lemma bfront_whole :
  startPos q < endPos q →
  GetLen (circleBuf q) (startPos q) = Some (word_of m) ∧ wr B (b + 8) = (b + 8)%nat ∧ (b + 8 + n < B)%nat ∧
  startPos q + 8 + Z.of_nat n <= endPos q ∧ startPos q + (Z.of_nat n + 8) = Z.of_nat (wr B (b + 8 + n)).
Proof using Hq.
  intros Hlt. destruct bfront_view as (Hv1 & _ & _). destruct bfront_used as (Hf & Hm & Hn). destruct (word_facts m Hm) as [Hw _].
  destruct Hq as [Hs [Hr H62] Hb Hu He _ _]. rewrite Hf in Hu, He. rewrite Hs in Hb.
  assert (Hwr : (b + (8 + n + length (mencs ms)) < B)%nat) by wr_lia.
  assert (HeE : endPos q = startPos q + Z.of_nat (8 + n + length (mencs ms))) by (rewrite He; wr_lia).
  split_and!; [|wr_lia|lia|lia|wr_lia]. apply (GetLen_view _ _ b); [lia|lia|done|done].
Qed.

Lemma bfront_around kind len_of :
  endPos q < startPos q → (kind_of m = kind → len_of (word_of m) = Z.of_nat n) →
  frontAround kind len_of q =
    Some (if kind_of m =? kind then Some (word_of m, Z.of_nat (wr B (b + 8)), Z.of_nat (wr B (wr B (b + 8) + n))) else None).
Proof using Hq.
  intros Hlt Hlen. destruct bfront_view as (Hv1 & _ & _). destruct bfront_used as (Hf & Hm & Hn). destruct (word_facts m Hm) as [Hw Hk].
  destruct Hq as [Hs [Hr H62] Hb Hu He _ _]. rewrite Hf in Hu, He. rewrite Hs in Hb.
  assert (Hwr : (B <= b + (8 + n + length (mencs ms)))%nat) by wr_lia.
  assert (HeE : endPos q = startPos q + Z.of_nat (8 + n + length (mencs ms)) - Z.of_nat B) by (rewrite He; wr_lia).
  unfold frontAround. rewrite Hs. assert_step. destruct (Z.ltb_spec (Z.of_nat B) (startPos q + 8)) as [Hsp|Hsp].
  - replace (startPos q) with (Z.of_nat b) at 1 by lia. rewrite (splitLen_view _ b (word_of m)), bind_Some_eq by (done || lia). rewrite Hk.
    destruct (Z.eqb_spec (kind_of m) kind) as [Hkk|_]; cbn [negb]; [|done]. rewrite Hlen, u64_id by (done || lia). assert_step.
    do 3 f_equal; [f_equal; wr_lia|wr_lia].
  - rewrite (GetLen_view _ _ b (word_of m)), bind_Some_eq by (done || lia). rewrite Hk.
    destruct (Z.eqb_spec (kind_of m) kind) as [Hkk|_]; cbn [negb]; [|done]. rewrite Hlen, !u64_id by (done || lia).
    assert (Hfrom : (if startPos q + 8 =? Z.of_nat B then 0 else startPos q + 8) = Z.of_nat (wr B (b + 8)))
      by (destruct (Z.eqb_spec (startPos q + 8) (Z.of_nat B)); wr_lia).
    rewrite Hfrom. destruct (Z.ltb_spec (startPos q + 8 + Z.of_nat n) (Z.of_nat B)) as [Hl|Hl]; [do 3 f_equal; wr_lia|].
    rewrite u64_id by lia. assert_step. do 3 f_equal. wr_lia.
Qed.
End Front.

(** The queue after its first message, of [n] bytes, was taken. *)
Definition bpopped (n : nat) (q : buf_queue) : buf_queue :=
  decNumber (set_startPos (Z.of_nat (wr (length (circleBuf q)) (Z.to_nat (startPos q) + 8 + n))) q).

Lemma bempty q : bq_ok [] q → BufferQueue_isEmpty q = true.
Proof.
  intros [Hs [Hm _] Hb _ He _ _]. unfold BufferQueue_isEmpty. apply Z.eqb_eq. rewrite He. change (length (mencs [])) with 0%nat. wr_lia.
Qed.

Lemma bnonempty m ms q : bq_ok (m :: ms) q → BufferQueue_isEmpty q = false ∧ (startPos q < endPos q ∨ endPos q < startPos q).
Proof.
  intros Hq. destruct (bfront_used m ms q Hq) as (Hf & _ & Hn). destruct Hq as [Hs [Hm _] Hb Hu He _ _]. rewrite Hf in Hu, He.
  assert (startPos q ≠ endPos q) by (rewrite He; wr_lia). unfold BufferQueue_isEmpty. split; [by apply Z.eqb_neq|lia].
Qed.

Lemma decNumber_ok ms q : bq_ok ms q → bq_ok ms (decNumber q).
Proof. intros Hq. unfold decNumber. destruct (_ =? 0); [done|]. by destruct Hq. Qed.

Lemma bpopped_ok m ms q : bq_ok (m :: ms) q → bq_ok ms (bpopped (length (body m)) q).
Proof.
  intros Hq. destruct (bfront_used m ms q Hq) as (Hf & _ & Hn). destruct (bfront_view m ms q Hq) as (_ & _ & Hv).
  apply decNumber_ok. destruct Hq as [Hs [Hm H62] Hb Hu He _ Hms]. rewrite Hf in Hu, He.
  split; cbn [totalBufSize startPos endPos circleBuf set_startPos]; try done.
  - wr_lia.
  - lia.
  - rewrite He, Nat2Z.id. f_equal. wr_lia.
  - rewrite Nat2Z.id. exact Hv.
  - by apply list.Forall_cons in Hms as [_ ?].
Qed.

(** ** Taking messages *)

(** The first assertion of the goal holds. *)
Ltac assert_first :=
  match goal with |- context [assert_that ?b] =>
    replace b with true by (symmetry; first [apply Z.leb_le|apply Z.ltb_lt|apply Z.eqb_eq]; lia);
    cbn [assert_that]; rewrite bind_Some_eq end.

Section Take.
Context {S : Type} `{HS : SinkLaws S}.

Definition wrote (s : S) (l : list Z) (s' : S) : Prop :=
  sink_ok s' ∧ sink_view s' = sink_view s ++ l ∧ sink_used s' = sink_used s + Z.of_nat (length l).

Lemma wrote_app s l1 s1 l2 s2 : wrote s l1 s1 → wrote s1 l2 s2 → wrote s (l1 ++ l2) s2.
Proof using Type.
  intros (_ & Hv1 & Hu1) (Hk2 & Hv2 & Hu2). split_and!; [done| |rewrite Hu2, Hu1, length_app; lia]. by rewrite Hv2, Hv1, app_assoc.
Qed.

Lemma copyOut_ok s q from len p k :
  from = Z.of_nat p → len = Z.of_nat k → (p + k <= length (circleBuf q))%nat → sink_ok s → Forall is_u8 (view (circleBuf q) p k) →
  sink_used s + Z.of_nat k <= sink_limit → ∃ s', copyOut s q from len = Some s' ∧ wrote s (view (circleBuf q) p k) s'.
Proof using Type.
  intros Hf Hl Hp Hs Hu Hlim. destruct (sink_write_ok s (view (circleBuf q) p k) Hs Hu) as (s' & E & H'); [by rewrite length_view|].
  exists s'. split; [|done]. unfold copyOut. rewrite (peek_view _ _ _ p k) by done. exact E.
Qed.

(** A range of the ring in one piece, or in two around the end. *)
Lemma copy_range s q from k :
  (from < length (circleBuf q))%nat → (0 < k < length (circleBuf q))%nat → totalBufSize q = Z.of_nat (length (circleBuf q)) →
  sink_ok s → Forall is_u8 (view (circleBuf q) from k) → sink_used s + Z.of_nat k <= sink_limit →
  let to := Z.of_nat (wr (length (circleBuf q)) (from + k)) in
  ∃ s', (if Z.of_nat from <? to then _ ← assert_that (to - Z.of_nat from =? Z.of_nat k); copyOut s q (Z.of_nat from) (Z.of_nat k)
         else s ← copyOut s q (Z.of_nat from) (totalBufSize q - Z.of_nat from); s ← copyOut s q 0 to;
              _ ← assert_that (totalBufSize q - (Z.of_nat from - to) =? Z.of_nat k); Some s) = Some s' ∧
    wrote s (view (circleBuf q) from k) s'.
Proof using Type.
  intros Hf Hk Ht Hs Hu Hlim to. set (B := length (circleBuf q)) in *. destruct (decide (from + k < B)%nat) as [Hw|Hw].
  - assert (Hto : to = Z.of_nat (from + k)) by (unfold to; wr_lia). destruct (copyOut_ok s q (Z.of_nat from) (Z.of_nat k) from k) as (s' & E & H'); try done; try lia.
    exists s'. split; [|done]. rewrite (proj2 (Z.ltb_lt _ _)) by lia. assert_step. exact E.
  - assert (Hto : to = Z.of_nat (from + k - B)) by (unfold to; wr_lia).
    assert (Hv : view (circleBuf q) from k = view (circleBuf q) from (B - from) ++ view (circleBuf q) 0 (from + k - B)).
    { replace k with ((B - from) + (from + k - B))%nat at 1 by lia. rewrite view_app by lia. do 2 f_equal. fold B. wr_lia. }
    rewrite Hv in Hu |- *. apply Forall_app in Hu as [Hu1 Hu2].
    destruct (copyOut_ok s q (Z.of_nat from) (totalBufSize q - Z.of_nat from) from (B - from)) as (s1 & E1 & H1); try done; try lia.
    destruct (H1) as (Hk1 & _ & Hl1). rewrite length_view in Hl1.
    destruct (copyOut_ok s1 q 0 to 0 (from + k - B)) as (s2 & E2 & H2); try done; try lia.
    exists s2. split; [|by apply (wrote_app s _ s1)]. rewrite (proj2 (Z.ltb_ge _ _)) by lia. rewrite E1, bind_Some_eq, E2, bind_Some_eq. assert_step. done.
Qed.

Lemma front_bytes m ms q : bq_ok (m :: ms) q → Forall is_u8 (view (circleBuf q) (wr (length (circleBuf q)) (Z.to_nat (startPos q) + 8)) (length (body m))).
Proof using Type.
  intros Hq. destruct (bfront_view m ms q Hq) as (_ & -> & _). by destruct (bfront_used m ms q Hq) as (_ & (_ & ? & _) & _).
Qed.

(** A message in one part is taken as it was put; one in two parts stays, and the target is cleared. *)
Lemma bdequeue_ok s m ms q :
  bq_ok (m :: ms) q → sink_ok s → Z.of_nat (length (body m)) <= sink_limit →
  match m with
  | One d => ∃ s', BufferQueue_dequeue s q = Some (true, s', bpopped (length d) q) ∧ sink_ok s' ∧ sink_view s' = d
  | Two _ _ => BufferQueue_dequeue s q = Some (false, sink_clear s, q)
  end.
Proof using Type.
  intros Hq Hs Hlim. destruct (bnonempty m ms q Hq) as [Hne Hsp]. destruct (bfront_used m ms q Hq) as (Hf & Hm & Hn).
  destruct (bfront_view m ms q Hq) as (_ & Hv & _). pose proof (front_bytes m ms q Hq) as Hb8. destruct (word_facts m Hm) as [Hw Hk].
  pose proof (bo_size _ _ Hq) as Hsz. pose proof (bo_begin _ _ Hq) as Hb. pose proof (bo_used _ _ Hq) as Hu. destruct (bo_room _ _ Hq) as [_ H62].
  destruct (sink_clear_ok s Hs) as (Hs0 & Hv0 & Hu0). unfold BufferQueue_dequeue. rewrite Hne. cbv zeta. destruct Hsp as [Hlt|Hlt].
  - rewrite (proj2 (Z.ltb_lt _ _)) by done. destruct (bfront_whole m ms q Hq Hlt) as (E & Hwr & Hle & Hend & Hnb). rewrite E, bind_Some_eq, Hk.
    destruct m as [d|h d]; cbn [kind_of Z.eqb negb body] in *; [|done]. rewrite (one_len d Hm). rewrite u64_id by lia. assert_first.
    destruct (copyOut_ok (sink_clear s) q (startPos q + 8) (Z.of_nat (length d)) (Z.to_nat (startPos q) + 8) (length d)) as (s' & E' & Hk' & Hv' & _); try done; try lia.
    { by rewrite <-Hwr. }
    exists s'. rewrite E', bind_Some_eq, Hnb. split_and!; [done|done|]. by rewrite Hv', Hv0, <-Hwr, Hv.
  - rewrite (proj2 (Z.ltb_ge _ _)) by lia. rewrite (bfront_around _ ms q Hq 0 wordLen Hlt) by (destruct m; [by intros _; apply one_len|done]).
    destruct m as [d|h d]; cbn [kind_of Z.eqb body] in *; rewrite bind_Some_eq; [|done]. rewrite (one_len d Hm).
    destruct (copy_range (sink_clear s) q (wr (length (circleBuf q)) (Z.to_nat (startPos q) + 8)) (length d)) as (s' & E' & Hk' & Hv' & _); try done; try lia; try wr_lia.
    exists s'. rewrite E', bind_Some_eq. rewrite wr_wr by (rewrite Hsz in Hb; lia). split_and!; [done|done|]. by rewrite Hv', Hv0, Hv.
Qed.

(** The parts of a message are at their places in the view of its bytes. *)
Lemma view_parts cb from n1 n2 h d :
  (from < length cb)%nat → (n1 + n2 < length cb)%nat → n1 = length h → n2 = length d → view cb from (n1 + n2) = h ++ d →
  view cb from n1 = h ∧ view cb (wr (length cb) (from + n1)) n2 = d.
Proof using Type.
  intros Hf Hn H1 H2 Hv. rewrite view_app in Hv by lia. by apply app_inj_1 in Hv as [? ?]; [|rewrite length_view].
Qed.

(** Up to the end of the block and on from its start. *)
Lemma copy_two s q from len to p k1 k2 :
  from = Z.of_nat p → len = Z.of_nat k1 → to = Z.of_nat k2 → (p + k1)%nat = length (circleBuf q) → (k1 + k2 <= length (circleBuf q))%nat →
  (0 < length (circleBuf q))%nat → sink_ok s → Forall is_u8 (view (circleBuf q) (wr (length (circleBuf q)) p) (k1 + k2)) →
  sink_used s + Z.of_nat (k1 + k2) <= sink_limit →
  ∃ s1 s', copyOut s q from len = Some s1 ∧ copyOut s1 q 0 to = Some s' ∧ wrote s (view (circleBuf q) (wr (length (circleBuf q)) p) (k1 + k2)) s'.
Proof using Type.
  intros Hf Hl Ht Hp Hk H0 Hs Hu Hlim. set (B := length (circleBuf q)) in *.
  assert (Hv : view (circleBuf q) (wr B p) (k1 + k2) = view (circleBuf q) p k1 ++ view (circleBuf q) 0 k2).
  { destruct (decide (k1 = 0%nat)) as [->|Hne]; [by replace (wr B p) with 0%nat by wr_lia|]. rewrite view_app by wr_lia. f_equal; [f_equal; wr_lia|].
    fold B. f_equal. wr_lia. }
  rewrite Hv in Hu |- *. apply Forall_app in Hu as [Hu1 Hu2].
  destruct (copyOut_ok s q from len p k1) as (s1 & E1 & H1); try done; try lia. destruct (H1) as (Hk1 & _ & Hl1). rewrite length_view in Hl1.
  destruct (copyOut_ok s1 q 0 to 0 k2) as (s2 & E2 & H2); try done; try lia. exists s1, s2. split_and!; [done|done|]. by apply (wrote_app s _ s1).
Qed.

(** Both parts of a message whose data start at [from]. *)
Lemma copy_parts hs ds q from n1 n2 h d :
  (from < length (circleBuf q))%nat → (0 < n1 + n2 < length (circleBuf q))%nat → totalBufSize q = Z.of_nat (length (circleBuf q)) →
  n1 = length h → n2 = length d → view (circleBuf q) from (n1 + n2) = h ++ d → Forall is_u8 (h ++ d) → sink_ok hs → sink_ok ds →
  sink_used hs = 0 → sink_used ds = 0 → Z.of_nat (n1 + n2) <= sink_limit →
  let to := Z.of_nat (wr (length (circleBuf q)) (from + (n1 + n2))) in
  let size := totalBufSize q in
  ∃ hs' ds', (if Z.of_nat from <? to then
         _ ← assert_that (to - Z.of_nat from =? Z.of_nat n1 + Z.of_nat n2);
         hdr ← copyOut hs q (Z.of_nat from) (Z.of_nat n1); data ← copyOut ds q (Z.of_nat from + Z.of_nat n1) (Z.of_nat n2); Some (hdr, data)
       else
         _ ← assert_that (size - (Z.of_nat from - to) =? Z.of_nat n1 + Z.of_nat n2);
         if size - Z.of_nat from <? Z.of_nat n1 then
           hdr ← copyOut hs q (Z.of_nat from) (size - Z.of_nat from); hdr ← copyOut hdr q 0 (Z.of_nat n1 - (size - Z.of_nat from));
           data ← copyOut ds q (Z.of_nat from + Z.of_nat n1 - size) (Z.of_nat n2); Some (hdr, data)
         else
           hdr ← copyOut hs q (Z.of_nat from) (Z.of_nat n1); data ← copyOut ds q (Z.of_nat from + Z.of_nat n1) (size - Z.of_nat from - Z.of_nat n1);
           data ← copyOut data q 0 (Z.of_nat n1 + Z.of_nat n2 - (size - Z.of_nat from)); Some (hdr, data)) = Some (hs', ds') ∧
    wrote hs h hs' ∧ wrote ds d ds'.
Proof using Type.
  intros Hf Hn Hsz H1 H2 Hv Hu Hhs Hds Hh0 Hd0 Hlim to size. apply Forall_app in Hu as [Huh Hud].
  destruct (view_parts (circleBuf q) from n1 n2 h d) as [Hvh Hvd]; [lia|lia|done..|]. set (B := length (circleBuf q)) in *.
  destruct (decide (from + (n1 + n2) < B)%nat) as [Hw|Hw].
  - assert (Hto : to = Z.of_nat (from + (n1 + n2))) by (unfold to; wr_lia). rewrite (proj2 (Z.ltb_lt _ _)) by lia.
    replace (wr B (from + n1)) with (from + n1)%nat in Hvd by wr_lia.
    destruct (copyOut_ok hs q (Z.of_nat from) (Z.of_nat n1) from n1) as (hs' & E1 & W1); try done; try lia; [by rewrite Hvh|].
    destruct (copyOut_ok ds q (Z.of_nat from + Z.of_nat n1) (Z.of_nat n2) (from + n1) n2) as (ds' & E2 & W2); try done; try lia; [by rewrite Hvd|].
    exists hs', ds'. assert_first. rewrite E1, bind_Some_eq, E2, bind_Some_eq. rewrite Hvh in W1. by rewrite Hvd in W2.
  - assert (Hto : to = Z.of_nat (from + (n1 + n2) - B)) by (unfold to; wr_lia). rewrite (proj2 (Z.ltb_ge _ to)) by lia. unfold size. assert_first.
    destruct (Z.ltb_spec (totalBufSize q - Z.of_nat from) (Z.of_nat n1)) as [Hc|Hc].
    + destruct (copy_two hs q (Z.of_nat from) (totalBufSize q - Z.of_nat from) (Z.of_nat n1 - (totalBufSize q - Z.of_nat from)) from (B - from) (n1 - (B - from)))
        as (hs1 & hs' & E1 & E2 & W1); try done; try lia; fold B; replace (wr B from) with from by wr_lia; replace (B - from + (n1 - (B - from)))%nat with n1 by lia; try lia; [by rewrite Hvh|].
      fold B in W1. replace (wr B from) with from in W1 by wr_lia. replace (B - from + (n1 - (B - from)))%nat with n1 in W1 by lia.
      replace (wr B (from + n1)) with (from + n1 - B)%nat in Hvd by wr_lia.
      destruct (copyOut_ok ds q (Z.of_nat from + Z.of_nat n1 - totalBufSize q) (Z.of_nat n2) (from + n1 - B) n2) as (ds' & E3 & W2); try done; try lia; [by rewrite Hvd|].
      exists hs', ds'. rewrite E1, bind_Some_eq, E2, bind_Some_eq, E3, bind_Some_eq. rewrite Hvh in W1. by rewrite Hvd in W2.
    + destruct (copyOut_ok hs q (Z.of_nat from) (Z.of_nat n1) from n1) as (hs' & E1 & W1); try done; try lia; [by rewrite Hvh|].
      destruct (copy_two ds q (Z.of_nat from + Z.of_nat n1) (totalBufSize q - Z.of_nat from - Z.of_nat n1) (Z.of_nat n1 + Z.of_nat n2 - (totalBufSize q - Z.of_nat from))
        (from + n1) (B - from - n1) (from + n1 + n2 - B)) as (ds1 & ds' & E2 & E3 & W2); try done; try lia; fold B;
        replace (B - from - n1 + (from + n1 + n2 - B))%nat with n2 by lia; try lia; [by rewrite Hvd|].
      fold B in W2. replace (B - from - n1 + (from + n1 + n2 - B))%nat with n2 in W2 by lia.
      exists hs', ds'. rewrite E1, bind_Some_eq, E2, bind_Some_eq, E3, bind_Some_eq. rewrite Hvh in W1. by rewrite Hvd in W2.
Qed.

Lemma bdequeue2_ok hs ds m ms q :
  bq_ok (m :: ms) q → sink_ok hs → sink_ok ds → Z.of_nat (length (body m)) <= sink_limit →
  match m with
  | One _ => BufferQueue_dequeue2 hs ds q = Some (false, sink_clear hs, sink_clear ds, q)
  | Two h d => ∃ hs' ds', BufferQueue_dequeue2 hs ds q = Some (true, hs', ds', bpopped (length (body m)) q) ∧
      sink_ok hs' ∧ sink_view hs' = h ∧ sink_ok ds' ∧ sink_view ds' = d
  end.
Proof using Type.
  intros Hq Hhs Hds Hlim. destruct (bnonempty m ms q Hq) as [Hne Hsp]. destruct (bfront_used m ms q Hq) as (Hf & Hm & Hn).
  destruct (bfront_view m ms q Hq) as (_ & Hv & _). destruct (word_facts m Hm) as [Hw Hk]. pose proof (bo_size _ _ Hq) as Hsz.
  pose proof (bo_begin _ _ Hq) as Hb. pose proof (bo_used _ _ Hq) as Hu. destruct (bo_room _ _ Hq) as [_ H62]. destruct (sink_clear_ok hs Hhs) as (Hh0 & Hhv0 & Hhu0).
  destruct (sink_clear_ok ds Hds) as (Hd0 & Hdv0 & Hdu0). unfold BufferQueue_dequeue2. rewrite Hne. cbv zeta. destruct Hsp as [Hlt|Hlt].
  - rewrite (proj2 (Z.ltb_lt _ _)) by done. destruct (bfront_whole m ms q Hq Hlt) as (E & Hwr & Hle & Hend & Hnb). destruct m as [d|h d]; cbn [kind_of] in *;
      assert_first; rewrite E, bind_Some_eq, Hk; cbn [Z.eqb Pos.eqb negb body] in *; [done|]. destruct (two_lens h d Hm) as [-> ->].
    rewrite length_app in *. rewrite u64_id by lia. assert_first. rewrite Hwr in Hv.
    destruct (view_parts (circleBuf q) (Z.to_nat (startPos q) + 8) (length h) (length d) h d) as [Hvh Hvd]; try done; try lia.
    replace (wr (length (circleBuf q)) (Z.to_nat (startPos q) + 8 + length h)) with (Z.to_nat (startPos q) + 8 + length h)%nat in Hvd by wr_lia.
    destruct Hm as (_ & [Huh Hud]%Forall_app & _).
    destruct (copyOut_ok (sink_clear hs) q (startPos q + 8) (Z.of_nat (length h)) (Z.to_nat (startPos q) + 8) (length h)) as (hs' & E1 & Hk1 & Hv1 & _); try done; try lia; [by rewrite Hvh|].
    destruct (copyOut_ok (sink_clear ds) q (startPos q + 8 + Z.of_nat (length h)) (Z.of_nat (length d)) (Z.to_nat (startPos q) + 8 + length h) (length d)) as (ds' & E2 & Hk2 & Hv2 & _); try done; try lia; [by rewrite Hvd|].
    exists hs', ds'. rewrite E1, bind_Some_eq, E2, bind_Some_eq. replace (Z.of_nat (length h) + Z.of_nat (length d) + 8) with (Z.of_nat (length h + length d) + 8) by lia. rewrite Hnb.
    split_and!; [done|done|by rewrite Hv1, Hhv0, Hvh|done|by rewrite Hv2, Hdv0, Hvd].
  - rewrite (proj2 (Z.ltb_ge _ _)) by lia. rewrite (bfront_around _ ms q Hq 1 (λ w, wordLen1 w + wordLen2 w) Hlt).
    2:{ destruct m as [d|h d]; [done|]. intros _. destruct (two_lens h d Hm) as [-> ->]. cbn [body]. rewrite length_app. lia. }
    destruct m as [d|h d]; cbn [kind_of Z.eqb Pos.eqb body] in *; rewrite bind_Some_eq; [done|]. destruct (two_lens h d Hm) as [-> ->]. rewrite length_app in *.
    destruct Hm as (_ & Hu8 & _).
    destruct (copy_parts (sink_clear hs) (sink_clear ds) q (wr (length (circleBuf q)) (Z.to_nat (startPos q) + 8)) (length h) (length d) h d)
      as (hs' & ds' & E & (Hk1 & Hv1 & _) & Hk2 & Hv2 & _); try done; try lia; try wr_lia.
    exists hs', ds'. rewrite E, bind_Some_eq. rewrite wr_wr by (rewrite Hsz in Hb; lia). split_and!; [done|done|by rewrite Hv1, Hhv0|done|by rewrite Hv2, Hdv0].
Qed.
End Take.

(** ** Adding messages *)

Lemma bused_pos ms q : bq_ok ms q → ms = [] ∨ (8 < length (mencs ms))%nat.
Proof. intros Hq. destruct ms as [|m ms]; [by left|right]. destruct (bfront_used m ms q Hq) as (-> & _ & ?). lia. Qed.

(** What the queue takes for full: an empty queue forgets the word of the message. *)
Definition looks_full (size : Z) (n : nat) (ms : list bmsg) : bool :=
  match ms with
  | [] => size <? Z.of_nat n
  | _ => size <? Z.of_nat (length (mencs ms) + 8 + n)
  end.

Lemma tryEnqueueFull_ok n ms q : bq_ok ms q → (0 < n)%nat → tryEnqueueFull (Z.of_nat n) q = Some (looks_full (totalBufSize q) n ms).
Proof.
  intros Hq Hn. destruct (bused_pos ms q Hq) as [->|Hu8]; destruct Hq as [Hs [Hm H62] Hb Hu He _ _]; unfold tryEnqueueFull, looks_full; rewrite (proj2 (Z.eqb_neq _ 0)) by lia.
  - change (length (mencs [])) with 0%nat in *. by rewrite (proj2 (Z.eqb_eq _ _)) by (rewrite He; wr_lia).
  - destruct ms as [|m ms]; [cbn in Hu8; lia|]. set (used := length (mencs (m :: ms))) in *.
    destruct (decide (Z.to_nat (startPos q) + used < length (circleBuf q))%nat) as [Hw|Hw].
    + assert (HeE : endPos q = startPos q + Z.of_nat used) by (rewrite He; wr_lia).
      rewrite (proj2 (Z.eqb_neq _ _)) by lia. rewrite (proj2 (Z.ltb_lt _ _)) by lia. f_equal. apply eq_true_iff_eq. rewrite !Z.ltb_lt. lia.
    + assert (HeE : endPos q = startPos q + Z.of_nat used - totalBufSize q) by (rewrite He; wr_lia).
      rewrite (proj2 (Z.eqb_neq _ _)) by lia. rewrite (proj2 (Z.ltb_ge _ _)) by lia. assert_step. f_equal. apply eq_true_iff_eq. rewrite !Z.ltb_lt. lia.
Qed.

(** The queue after message [m] was added. *)
Definition bpushed (m : bmsg) (q : buf_queue) : buf_queue :=
  set_eleNumber (u64 (eleNumber q + 1))
    (set_endPos (Z.of_nat (wr (length (circleBuf q)) (Z.to_nat (endPos q) + 8 + length (body m))))
       (set_circleBuf (rput (circleBuf q) (Z.to_nat (endPos q)) (menc m)) q)).

Lemma bpushed_ok m ms q :
  bq_ok ms q → bmsg_ok m → (length (mencs ms) + 8 + length (body m) < length (circleBuf q))%nat → bq_ok (ms ++ [m]) (bpushed m q).
Proof.
  intros [Hs [Hm H62] Hb Hu He Hv Hms] Hmk Hroom.
  assert (Hl : length (mencs (ms ++ [m])) = (length (mencs ms) + (8 + length (body m)))%nat) by (by rewrite mencs_snoc, length_app, length_menc).
  split; unfold bpushed; cbn [totalBufSize startPos endPos circleBuf set_eleNumber set_endPos set_circleBuf]; rewrite ?length_rput; try done.
  - rewrite Hl. lia.
  - rewrite Hl, He, Nat2Z.id. f_equal. wr_lia.
  - rewrite Hl, He, Nat2Z.id, view_app by (rewrite ?length_rput; lia). rewrite mencs_snoc, length_rput. f_equal.
    + rewrite view_rput_before; [done|lia|]. rewrite length_menc. lia.
    + rewrite <-(length_menc m). apply view_rput_same; [wr_lia|]. rewrite length_menc. lia.
  - apply Forall_app. by rewrite Forall_singleton.
Qed.

Lemma rput_menc cb e m :
  (e < length cb)%nat → (8 + length (body m) <= length cb)%nat →
  rput cb e (menc m) = rput (rput cb e (le_bytes 8 (word_of m))) (wr (length cb) (e + 8)) (body m).
Proof. intros He Hd. unfold menc. rewrite rput_app by (rewrite ?length_le_bytes; lia). by rewrite length_le_bytes. Qed.

Section Push.
Context (ms : list bmsg) (q : buf_queue) (Hq : bq_ok ms q) (m : bmsg) (Hm : bmsg_ok m).
Hypothesis Hroom : (length (mencs ms) + 8 + length (body m) < length (circleBuf q))%nat.

Lemma bpush_facts :
  endPos q = Z.of_nat (Z.to_nat (endPos q)) ∧ (Z.to_nat (endPos q) < length (circleBuf q))%nat ∧
  ((length (circleBuf q) <= Z.to_nat (endPos q) + 8 + length (body m))%nat →
   Z.of_nat (Z.to_nat (endPos q) + 8 + length (body m) - length (circleBuf q)) <= startPos q) ∧
  tryEnqueueFull (Z.of_nat (length (body m))) q = Some false ∧ (0 < length (body m))%nat.
Proof using Hq Hm Hroom.
  assert (Hl : (0 < length (body m))%nat) by apply Hm. pose proof (bo_end _ _ Hq) as He. pose proof (bo_begin _ _ Hq) as Hb. pose proof (bo_size _ _ Hq) as Hs.
  split_and!; [lia| | | |done].
  - rewrite He, Nat2Z.id. wr_lia.
  - rewrite He, Nat2Z.id. wr_lia.
  - rewrite (tryEnqueueFull_ok _ ms) by done. f_equal. unfold looks_full. destruct ms; apply Z.ltb_ge; lia.
Qed.

Lemma benqueue_ok d : m = One d → BufferQueue_enqueue d q = Some (true, bpushed m q).
Proof using Hq Hm Hroom.
  intros E. destruct bpush_facts as (HeZ & HeB & Hwrap & Hfull & Hl). pose proof (bo_size _ _ Hq) as Hs. unfold bpushed. subst m. cbn [body word_of] in *.
  unfold BufferQueue_enqueue. rewrite (proj2 (Z.eqb_neq _ 0)) by lia. rewrite Hfull, bind_Some_eq. set (e := Z.to_nat (endPos q)) in *. rewrite HeZ, Hs.
  destruct (push_end e (length d) (length (circleBuf q))) as [Hend Hend']; [lia..|].
  match goal with |- (?inner ≫= _) = _ => assert (Hin : inner =
    Some (rput (circleBuf q) e (menc (One d)), Z.of_nat (wr (length (circleBuf q)) (e + 8 + length d)))) end; [|by rewrite Hin, bind_Some_eq].
  rewrite (rput_menc (circleBuf q) e (One d)) by (cbn [body]; lia). cbn [body word_of]. set (m1 := rput (circleBuf q) e (le_bytes 8 (Z.of_nat (length d)))).
  assert (Hm1 : length m1 = length (circleBuf q)) by apply length_rput. pose proof (length_le_bytes 8 (Z.of_nat (length d))) as H8.
  destruct (Z.ltb_spec (Z.of_nat (length (circleBuf q))) (Z.of_nat e + 8)) as [Hc1|Hc1].
  - rewrite putSplitLen_rput, bind_Some_eq by lia. fold m1. poke_step (e + 8 - length (circleBuf q))%nat.
    assert_step. rewrite Hend' by lia. do 3 f_equal; [wr_lia|lia].
  - unfold SetLen. destruct (Z.ltb_spec (Z.of_nat (length (circleBuf q))) (Z.of_nat e + 8 + Z.of_nat (length d))) as [Hc2|Hc2].
    + poke_step e. fold m1. rewrite <-bind_assoc. rewrite (poke_around m1 _ (e + 8)), bind_Some_eq by lia. rewrite Hm1. assert_step. rewrite Hend' by lia.
      do 3 f_equal. lia.
    + poke_step e. fold m1. rewrite (poke_wr m1 _ (e + 8)), bind_Some_eq by lia. by rewrite Hm1, Hend.
Qed.

Lemma benqueue2_ok h d : m = Two h d → BufferQueue_enqueue2 h d q = Some (true, bpushed m q).
Proof using Hq Hm Hroom.
  intros E. destruct bpush_facts as (HeZ & HeB & Hwrap & Hfull & Hl). pose proof (bo_size _ _ Hq) as Hs. unfold bpushed. subst m. cbn [body] in *.
  assert (Hlen : length (h ++ d) = (length h + length d)%nat) by apply length_app.
  assert (HlZ : Z.of_nat (length h) + Z.of_nat (length d) = Z.of_nat (length (h ++ d))) by lia. set (dd := h ++ d) in *.
  unfold BufferQueue_enqueue2. rewrite HlZ. rewrite (proj2 (Z.eqb_neq _ 0)) by lia. rewrite Hfull, bind_Some_eq. set (e := Z.to_nat (endPos q)) in *. rewrite HeZ, Hs.
  destruct (push_end e (length dd) (length (circleBuf q))) as [Hend Hend']; [lia..|].
  match goal with |- (?inner ≫= _) = _ => assert (Hin : inner =
    Some (rput (circleBuf q) e (menc (Two h d)), Z.of_nat (wr (length (circleBuf q)) (e + 8 + length dd)))) end; [|by rewrite Hin, bind_Some_eq].
  rewrite (rput_menc (circleBuf q) e (Two h d)) by (cbn [body]; fold dd; lia). cbn [body word_of]. set (w := twoWord (Z.of_nat (length h)) (Z.of_nat (length d))).
  set (m1 := rput (circleBuf q) e (le_bytes 8 w)). assert (Hm1 : length m1 = length (circleBuf q)) by apply length_rput. pose proof (length_le_bytes 8 w) as H8.
  rewrite (rput_app m1) by (rewrite ?Hm1; wr_lia). rewrite Hm1. set (m2 := rput m1 (wr (length (circleBuf q)) (e + 8)) h).
  assert (Hm2 : length m2 = length (circleBuf q)) by (by unfold m2; rewrite length_rput).
  destruct (Z.ltb_spec (Z.of_nat (length (circleBuf q))) (Z.of_nat e + 8)) as [Hc1|Hc1].
  - rewrite putSplitLen_rput, bind_Some_eq by lia. fold m1. rewrite (poke_rput m1 _ (e + 8 - length (circleBuf q))), bind_Some_eq by lia.
    replace (e + 8 - length (circleBuf q))%nat with (wr (length (circleBuf q)) (e + 8)) by wr_lia. fold m2.
    rewrite (poke_wr m2 _ (e + 8 + length h - length (circleBuf q))), bind_Some_eq by lia. assert_step. rewrite Hend', Hm2 by lia. do 3 f_equal; [wr_lia|lia].
  - unfold SetLen. destruct (Z.ltb_spec (Z.of_nat (length (circleBuf q))) (Z.of_nat e + 8 + Z.of_nat (length dd))) as [Hc2|Hc2]; poke_step e; fold m1.
    + match goal with |- (?inner ≫= _) = _ => assert (Hin : inner =
        Some (rput m2 (wr (length (circleBuf q)) (wr (length (circleBuf q)) (e + 8) + length h)) d)) end.
      { destruct (Z.ltb_spec (Z.of_nat (length (circleBuf q))) (Z.of_nat e + 8 + Z.of_nat (length h))) as [Hc3|Hc3].
        - rewrite <-bind_assoc. rewrite (poke_around m1 _ (e + 8)), bind_Some_eq by lia. rewrite Hm1. fold m2.
          rewrite (poke_wr m2 _ (e + 8 + length h - length (circleBuf q))) by lia. rewrite Hm2. do 2 f_equal. wr_lia.
        - rewrite (poke_wr m1 _ (e + 8)), bind_Some_eq by lia. rewrite Hm1. fold m2.
          rewrite (poke_around m2 _ (e + 8 + length h)) by lia. rewrite Hm2. do 2 f_equal. wr_lia. }
      rewrite Hin, bind_Some_eq. assert_step. rewrite Hend' by lia. do 2 f_equal. lia.
    + rewrite (poke_wr m1 _ (e + 8)), bind_Some_eq by lia. rewrite Hm1. fold m2.
      rewrite (poke_wr m2 _ (e + 8 + length h)), bind_Some_eq by lia. rewrite Hm2, Hend. do 3 f_equal. wr_lia.
Qed.
End Push.

(** ** The queue that the ring implements *)

Inductive bq_op :=
| BPut (m : bmsg)
| BGet
| BGet2
| BSize
| BIsEmpty.

Inductive bq_obs :=
| PutDone (ok : bool)
| GetDone (r : option (list Z))
| Get2Done (r : option (list Z * list Z))
| SizeIs (n : Z)
| EmptyIs (b : bool).

(** A list of messages.  A put that the ring does not take for full must leave a byte of it free. *)
Definition bq_spec (size : Z) (op : bq_op) (ms : list bmsg) : option (bq_obs * list bmsg) :=
  match op with
  | BPut m =>
      if decide (body m = []) then Some (PutDone false, ms)
      else if looks_full size (length (body m)) ms then Some (PutDone false, ms)
      else if Z.of_nat (length (mencs ms) + 8 + length (body m)) <? size then Some (PutDone true, ms ++ [m]) else None
  | BGet => Some (match ms with One d :: ms => (GetDone (Some d), ms) | _ => (GetDone None, ms) end)
  | BGet2 => Some (match ms with Two h d :: ms => (Get2Done (Some (h, d)), ms) | _ => (Get2Done None, ms) end)
  | BSize => Some (SizeIs (Z.of_nat (length (mencs ms))), ms)
  | BIsEmpty => Some (EmptyIs (bool_decide (ms = [])), ms)
  end.

Section Run.
Context {S : Type} `{HS : SinkLaws S}.

Definition bq_exec (op : bq_op) '((hs, ds, q) : S * S * buf_queue) : option (bq_obs * (S * S * buf_queue)) :=
  match op with
  | BPut (One d) => '(b, q) ← BufferQueue_enqueue d q; Some (PutDone b, (hs, ds, q))
  | BPut (Two h d) => '(b, q) ← BufferQueue_enqueue2 h d q; Some (PutDone b, (hs, ds, q))
  | BGet => '(b, ds, q) ← BufferQueue_dequeue ds q; Some (GetDone (if (b : bool) then Some (sink_view ds) else None), (hs, ds, q))
  | BGet2 => '(b, hs, ds, q) ← BufferQueue_dequeue2 hs ds q;
      Some (Get2Done (if (b : bool) then Some (sink_view hs, sink_view ds) else None), (hs, ds, q))
  | BSize => Some (SizeIs (BufferQueue_size q), (hs, ds, q))
  | BIsEmpty => Some (EmptyIs (BufferQueue_isEmpty q), (hs, ds, q))
  end.

Definition fits (m : bmsg) : Prop := bmsg_ok m ∧ Z.of_nat (length (body m)) <= sink_limit.
Definition bq_op_ok (op : bq_op) : Prop := match op with BPut m => body m = [] ∨ fits m | _ => True end.

Definition bq_state (size : Z) (ms : list bmsg) '((hs, ds, q) : S * S * buf_queue) : Prop :=
  bq_ok ms q ∧ totalBufSize q = size ∧ sink_ok hs ∧ sink_ok ds ∧ Forall fits ms.

Lemma put_refines m ms q :
  bq_ok ms q → body m = [] ∨ bmsg_ok m →
  let put := match m with One d => BufferQueue_enqueue d q | Two h d => BufferQueue_enqueue2 h d q end in
  ∀ a ms', bq_spec (totalBufSize q) (BPut m) ms = Some (a, ms') →
  ∃ b q', put = Some (b, q') ∧ a = PutDone b ∧ bq_ok ms' q' ∧ totalBufSize q' = totalBufSize q ∧ (ms' = ms ∨ ms' = ms ++ [m] ∧ bmsg_ok m).
Proof using Type.
  intros Hq Hm put a ms' Hs. cbn [bq_spec] in Hs. destruct (decide (body m = [])) as [He|Hne].
  { injection Hs as <- <-. exists false, q. split_and!; try done; [|by left]. unfold put. destruct m as [d|h d]; cbn [body] in He; [by subst|].
    apply app_eq_nil in He as [-> ->]. done. }
  destruct Hm as [?|Hm]; [done|]. assert (Hl : (0 < length (body m))%nat) by apply Hm.
  pose proof (tryEnqueueFull_ok (length (body m)) ms q Hq Hl) as Hf. destruct (looks_full (totalBufSize q) (length (body m)) ms).
  - injection Hs as <- <-. exists false, q. split_and!; try done; [|by left]. unfold put. destruct m as [d|h d]; cbn [body] in *.
    + unfold BufferQueue_enqueue. rewrite (proj2 (Z.eqb_neq _ 0)) by lia. by rewrite Hf, bind_Some_eq.
    + unfold BufferQueue_enqueue2. rewrite length_app, Nat2Z.inj_add in *. rewrite (proj2 (Z.eqb_neq _ 0)) by lia. by rewrite Hf, bind_Some_eq.
  - destruct (Z.ltb_spec (Z.of_nat (length (mencs ms) + 8 + length (body m))) (totalBufSize q)) as [Hr|Hr]; [|done]. injection Hs as <- <-.
    pose proof (bo_size _ _ Hq) as Hsz. assert (Hroom : (length (mencs ms) + 8 + length (body m) < length (circleBuf q))%nat) by lia.
    exists true, (bpushed m q). split_and!; [|done|by apply bpushed_ok|done|by right]. unfold put. destruct m as [d|h d].
    + by apply (benqueue_ok ms q Hq (One d)).
    + by apply (benqueue2_ok ms q Hq (Two h d)).
Qed.

Lemma size_refines ms q : bq_ok ms q → BufferQueue_size q = Z.of_nat (length (mencs ms)).
Proof using Type.
  intros [Hs [Hm _] Hb Hu He _ _]. unfold BufferQueue_size. destruct (Z.leb_spec (startPos q) (endPos q)) as [Hc|Hc]; rewrite He in Hc |- *; wr_lia.
Qed.

Lemma bq_step size op ms st a ms' :
  bq_state size ms st → bq_op_ok op → bq_spec size op ms = Some (a, ms') → ∃ st', bq_exec op st = Some (a, st') ∧ bq_state size ms' st'.
Proof using Type.
  destruct st as [[hs ds] q]. intros (Hq & Hsz & Hhs & Hds & Hms) Hop Hs. destruct op as [m| | | |].
  - rewrite <-Hsz in Hs. destruct (put_refines m ms q Hq) with (a := a) (ms' := ms') as (b & q' & E & -> & Hq' & Hsz' & Hms'); [destruct Hop as [?|[? _]]; auto|done|].
    exists (hs, ds, q'). split; [cbn [bq_exec]; destruct m; rewrite E, bind_Some_eq; done|]. split_and!; try done; [by rewrite Hsz'|].
    destruct Hms' as [->|[-> Hm]]; [done|]. apply Forall_app. split; [done|]. apply list.Forall_singleton. destruct Hop as [He|?]; [|done].
    destruct Hm as [Hm _]. rewrite He in Hm. cbn in Hm. lia.
  - cbn [bq_spec bq_exec] in *. injection Hs as Hs. destruct ms as [|m ms].
    + injection Hs as <- <-. exists (hs, ds, q). unfold BufferQueue_dequeue. by rewrite (bempty q Hq).
    + pose proof Hms as Hall. apply list.Forall_cons in Hms as [[_ Hlim] Hms]. pose proof (bdequeue_ok ds m ms q Hq Hds Hlim) as Hd. destruct m as [d|h d]; injection Hs as <- <-.
      * destruct Hd as (ds' & E & Hk & Hv). exists (hs, ds', bpopped (length d) q). rewrite E, bind_Some_eq. cbv beta iota. rewrite Hv. split; [done|].
        split_and!; [by apply (bpopped_ok (One d) ms)| |done|done|done]. rewrite <-Hsz. unfold bpopped, decNumber. by destruct (_ =? 0).
      * rewrite Hd, bind_Some_eq. exists (hs, sink_clear ds, q). split; [done|]. split_and!; [done|done|done|by apply sink_clear_ok|done].
  - cbn [bq_spec bq_exec] in *. injection Hs as Hs. destruct ms as [|m ms].
    + injection Hs as <- <-. exists (hs, ds, q). unfold BufferQueue_dequeue2. by rewrite (bempty q Hq).
    + pose proof Hms as Hall. apply list.Forall_cons in Hms as [[_ Hlim] Hms]. pose proof (bdequeue2_ok hs ds m ms q Hq Hhs Hds Hlim) as Hd. destruct m as [d|h d]; injection Hs as <- <-.
      * rewrite Hd, bind_Some_eq. exists (sink_clear hs, sink_clear ds, q). split; [done|]. split_and!; [done|done|by apply sink_clear_ok|by apply sink_clear_ok|done].
      * destruct Hd as (hs' & ds' & E & Hk1 & Hv1 & Hk2 & Hv2). exists (hs', ds', bpopped (length (h ++ d)) q). cbn [body] in E. rewrite E, bind_Some_eq. cbv beta iota. rewrite Hv1, Hv2. split; [done|].
        split_and!; [by apply (bpopped_ok (Two h d) ms)| |done|done|done]. rewrite <-Hsz. unfold bpopped, decNumber. by destruct (_ =? 0).
  - injection Hs as <- <-. exists (hs, ds, q). cbn [bq_exec]. by rewrite (size_refines ms q Hq).
  - injection Hs as <- <-. exists (hs, ds, q). cbn [bq_exec]. destruct ms as [|m ms]; [by rewrite (bempty q Hq)|]. by destruct (bnonempty m ms q Hq) as [-> _].
Qed.

Lemma bq_runs size ops ms st l ms' :
  bq_state size ms st → Forall bq_op_ok ops → run_obs (bq_spec size) ops ms = Some (l, ms') → ∃ st', run_obs bq_exec ops st = Some (l, st') ∧ bq_state size ms' st'.
Proof using Type.
  intros Hst Hops. apply (run_obs_refines (bq_spec size) bq_exec (bq_state size)); [|done]. intros op u t a u' Hin Hu.
  apply bq_step; [done|]. rewrite list.Forall_forall in Hops. by apply Hops.
Qed.

(** A ring of any size is a queue of messages in one and two parts.  For every program of puts, gets, sizes and tests on a new queue of
    which no accepted put fills the ring to its last byte, nothing fails and everything observed is what a list of messages gives: puts
    are refused when there is no room, gets give the messages in their order and part by part into a string or a buffer, and a get of the
    other kind leaves the message in the queue. *)
Lemma buf_queue_refines size mem junk hs ds ops l ms :
  0 < size < 2 ^ 62 → Z.of_nat (length mem) = size → sink_ok hs → sink_ok ds → Forall bq_op_ok ops →
  run_obs (bq_spec size) ops [] = Some (l, ms) →
  ∃ q, BufferQueue_initialize size mem (BufferQueue_new junk) = (true, q) ∧
    ∃ st, run_obs bq_exec ops (hs, ds, q) = Some (l, st).
Proof using Type.
  intros Hsize Hmem Hhs Hds Hops Hr. unfold BufferQueue_initialize. rewrite (proj2 (Z.eqb_neq size 0)) by lia. eexists. split; [done|].
  destruct (bq_runs size ops [] (hs, ds, Build_buf_queue 0 0 junk size mem) l ms) as (st & E & _); [|done|done|by exists st].
  split_and!; try done. split; cbn [totalBufSize startPos endPos circleBuf]; try done; try lia; change (length (mencs [])) with 0%nat; [lia|]. wr_lia.
Qed.
End Run.

(** A put that fills the ring to its last byte is accepted, and the queue is empty. *)
Lemma exact_fill_loses :
  ∃ q, BufferQueue_enqueue (replicate 24 7) (BufferQueue_initialize 32 (replicate 32 0) (BufferQueue_new 0)).2 = Some (true, q) ∧
    BufferQueue_isEmpty q = true ∧ BufferQueue_size q = 0.
Proof. eexists. split; [vm_compute; reflexivity|]. split; vm_compute; reflexivity. Qed.

(** An empty queue accepts a message that does not fit with its word, and the assertion behind it fails. *)
Lemma long_message_fails :
  tryEnqueueFull 30 (BufferQueue_initialize 32 (replicate 32 0) (BufferQueue_new 0)).2 = Some false ∧
  BufferQueue_enqueue (replicate 30 7) (BufferQueue_initialize 32 (replicate 32 0) (BufferQueue_new 0)).2 = None.
Proof. split; vm_compute; reflexivity. Qed.

Definition demo_bops : list bq_op :=
  [BPut (One [1; 2; 3]); BPut (Two [4] [5; 6]); BGet; BPut (One [7; 8; 9; 10; 11]); BGet; BGet2; BSize; BGet; BIsEmpty].

Lemma buf_queue_refines_witness :
  run_obs (bq_spec 32) demo_bops [] =
    Some ([PutDone true; PutDone true; GetDone (Some [1; 2; 3]); PutDone true; GetDone None; Get2Done (Some ([4], [5; 6])); SizeIs 13;
           GetDone (Some [7; 8; 9; 10; 11]); EmptyIs true], []) ∧
  ∃ q, BufferQueue_initialize 32 (replicate 32 0) (BufferQueue_new 99) = (true, q) ∧
    ∃ st, run_obs bq_exec demo_bops ([] : list Z, [] : list Z, q) =
      Some ([PutDone true; PutDone true; GetDone (Some [1; 2; 3]); PutDone true; GetDone None; Get2Done (Some ([4], [5; 6])); SizeIs 13;
             GetDone (Some [7; 8; 9; 10; 11]); EmptyIs true], st).
Proof.
  split; [vm_compute; reflexivity|]. apply (buf_queue_refines 32 (replicate 32 0) 99 [] [] demo_bops _ []); try done.
  assert (Hu : ∀ l, forallb (λ c, (0 <=? c) && (c <? 256)) l = true → Forall is_u8 l).
  { intros l Hl. apply list.Forall_forall. intros c Hc%list_elem_of_In. rewrite forallb_forall in Hl. specialize (Hl c Hc).
    apply andb_prop in Hl as [? ?]. unfold is_u8. lia. }
  unfold demo_bops. repeat apply list.Forall_cons_2; try exact I; [..|constructor]; right; (split; [split_and!|]); try (apply Hu; reflexivity); cbn; lia.
Defined.
