(* ===== verification/RaftBuf.v ===== *)
(** * Fields in a buffer of the raft library

    src/src/meta/raft/buffer_helper.{h,cc}, class [BufferHelper]: integers of 8 to 64 bits in either order of their bytes, raw bytes,
    strings with a length and C strings, written to and read from a buffer of fixed size.  The buffer is a class of the raft library, of
    which only its block of bytes is used.  [Throw] is [std::overflow_error]; [None] is a failed assertion or an access outside of the
    block. *)
From S2P Require Import Prelude Buffers.

(** ** Integers as bytes *)

(** The macros [put16l] to [put64b] and [get16l] to [get64b], for [k] bytes. *)
Definition put_l (k : nat) (val : Z) : list Z := (λ i, Z.land (Z.shiftr val (8 * Z.of_nat i)) 255) <$> seq 0 k.
Definition put_b (k : nat) (val : Z) : list Z := reverse (put_l k val).

(** [tmp <<= 8; tmp |= ptr[i]] from the highest byte on. *)
Definition get_b (k : nat) (l : list Z) : Z := foldl (λ tmp x, Z.lor (Z.shiftl tmp 8 mod 2 ^ (8 * Z.of_nat k)) x) 0 l.
Definition get_l (k : nat) (l : list Z) : Z := get_b k (reverse l).

(** The value of [k] bytes as a signed number. *)
Definition signed (k : nat) (z : Z) : Z := if z <? 2 ^ (8 * Z.of_nat k - 1) then z else z - 2 ^ (8 * Z.of_nat k).

(** ** [BufferHelper] *)

Inductive endianness := LITTLE | BIG.

Record helper := { endian_ : endianness; buf_ : list Z; pos_ : Z }.

Definition helper_new (src_buf : list Z) (endian : endianness) : helper := {| endian_ := endian; buf_ := src_buf; pos_ := 0 |}.

Inductive thrown (A : Type) := Ok (a : A) | Throw.
Arguments Ok {A} a.
Arguments Throw {A}.

Definition helper_size (h : helper) : Z := Z.of_nat (length (buf_ h)).

(** [pos]. *)
Definition set_pos (new_pos : Z) (h : helper) : thrown helper :=
  if helper_size h <? new_pos then Throw else Ok {| endian_ := endian_ h; buf_ := buf_ h; pos_ := new_pos |}.

Definition is_valid (len : Z) (h : helper) : bool := negb (helper_size h <? pos_ h + len).

Definition put_int (k : nat) (h : helper) (val : Z) : list Z := match endian_ h with LITTLE => put_l k val | BIG => put_b k val end.
Definition get_int (k : nat) (h : helper) (l : list Z) : Z := match endian_ h with LITTLE => get_l k l | BIG => get_b k l end.

(** Stores [l] and moves on. *)
Definition store (l : list Z) (h : helper) : option (thrown helper) :=
  b ← poke (buf_ h) (pos_ h) l;
  Some (set_pos (pos_ h + Z.of_nat (length l)) {| endian_ := endian_ h; buf_ := b; pos_ := pos_ h |}).

(** [writeUInt8] to [writeInt64], by their number of bytes: the signed ones store the same bytes. *)
Definition writeInt (k : nat) (val : Z) (h : helper) : option (thrown helper) :=
  if negb (is_valid (Z.of_nat k) h) then Some Throw else store (put_int k h val) h.

Definition writeRaw (raw : list Z) (h : helper) : option (thrown helper) :=
  _ ← assert_that (is_valid (Z.of_nat (length raw)) h);
  store raw h.

(** [writeBuffer]: what is behind the position of another buffer. *)
Definition writeBuffer (buf : list Z) (pos : Z) (h : helper) : option (thrown helper) :=
  l ← peek buf pos (Z.of_nat (length buf) - pos);
  writeRaw l h.

Definition writeBytes (raw : list Z) (h : helper) : option (thrown helper) :=
  _ ← assert_that (is_valid (Z.of_nat (length raw) + 4) h);
  r ← writeInt 4 (u32 (Z.of_nat (length raw))) h;
  match r with Ok h => writeRaw raw h | Throw => Some Throw end.

Definition writeStr (str : list Z) (h : helper) : option (thrown helper) := writeBytes str h.

(** The loop of [writeCStr] on the characters in front of the zero. *)
Fixpoint cstr_loop (str : list Z) (local_pos : Z) (b : list Z) : option (Z * list Z) :=
  _ ← assert_that (local_pos <? Z.of_nat (length b));
  match str with
  | [] => b ← poke b local_pos [0]; Some (local_pos + 1, b)
  | c :: str => b ← poke b local_pos [c]; cstr_loop str (local_pos + 1) b
  end.
Definition writeCStr (str : list Z) (h : helper) : option (thrown helper) :=
  '(p, b) ← cstr_loop str (pos_ h) (buf_ h);
  Some (set_pos p {| endian_ := endian_ h; buf_ := b; pos_ := pos_ h |}).

(** Reads: the result and the helper behind it. *)
Definition readRaw (len : Z) (h : helper) : option (thrown (list Z * helper)) :=
  match set_pos (pos_ h + len) h with
  | Throw => Some Throw
  | Ok h' => l ← peek (buf_ h) (pos_ h) len; Some (Ok (l, h'))
  end.

(** [readUInt8] to [readUInt64]. *)
Definition readUInt (k : nat) (h : helper) : option (thrown (Z * helper)) :=
  if negb (is_valid (Z.of_nat k) h) then Some Throw else
  l ← peek (buf_ h) (pos_ h) (Z.of_nat k);
  Some (match set_pos (pos_ h + Z.of_nat k) h with Ok h' => Ok (get_int k h l, h') | Throw => Throw end).

(** [readInt8] to [readInt64]. *)
Definition readInt (k : nat) (h : helper) : option (thrown (Z * helper)) :=
  r ← readUInt k h;
  Some (match r with Ok (z, h') => Ok (signed k z, h') | Throw => Throw end).

(** [readBuffer] fills another buffer from its position on. *)
Definition readBuffer (dst : list Z) (pos : Z) (h : helper) : option (thrown (list Z * helper)) :=
  r ← readRaw (Z.of_nat (length dst) - pos) h;
  match r with
  | Throw => Some Throw
  | Ok (l, h') => dst ← poke dst pos l; Some (Ok (dst, h'))
  end.

Definition readBytes (h : helper) : option (thrown (list Z * helper)) :=
  r ← readUInt 4 h;
  match r with
  | Throw => Some Throw
  | Ok (len, h) => _ ← assert_that (is_valid len h); readRaw len h
  end.

Definition readStr (h : helper) : option (thrown (list Z * helper)) := readBytes h.

(** The characters up to the first zero of the block. *)
Fixpoint cstr_of (l : list Z) : option (list Z) :=
  match l with
  | [] => None
  | c :: l => if c =? 0 then Some [] else s ← cstr_of l; Some (c :: s)
  end.
Definition readCStr (h : helper) : option (thrown (list Z * helper)) :=
  s ← cstr_of (drop (Z.to_nat (pos_ h)) (buf_ h));
  Some (match set_pos (pos_ h + Z.of_nat (length s) + 1) h with Ok h' => Ok (s, h') | Throw => Throw end).
