(* ===== verification/RaftBufSpec.v ===== *)
(** * Fields that are written are read back

    The contract of [BufferHelper]: a list of fields, each an integer, raw bytes, a string or a C string, is a sequence of bytes; writing
    appends it, and reading takes it from the front. *)
From S2P Require Import Prelude Buffers BufferSpec RaftBuf.

(** ** Integers *)

Lemma put_b_be k val : put_b k val = be_bytes k val.
Proof.
  unfold put_b. revert val. induction k as [|k IH]; intros val; [done|].
  change (be_bytes (S k) val) with (be_bytes k (Z.shiftr val 8) ++ [u8 val]). rewrite <-(IH (Z.shiftr val 8)). unfold put_l. rewrite <-cons_seq, fmap_cons, reverse_cons. f_equal.
  - f_equal. rewrite <-fmap_S_seq, <-list_fmap_compose. apply list_fmap_ext. intros i j _. cbn [compose].
    rewrite Z.shiftr_shiftr by lia. do 2 f_equal. lia.
  - cbn. change 255 with (Z.ones 8). by rewrite Z.land_ones.
Qed.

Lemma put_l_be k val : put_l k val = reverse (be_bytes k val).
Proof. rewrite <-put_b_be. unfold put_b. by rewrite reverse_involutive. Qed.

Lemma get_b_be k l : Forall is_u8 l → (length l <= k)%nat → get_b k l = be_value l.
Proof.
  induction l as [|x l IH] using rev_ind; [done|]. rewrite Forall_app, Forall_singleton, length_app. cbn [length]. intros [Hl Hx] Hk.
  rewrite be_value_snoc. unfold get_b in *. rewrite foldl_app, IH by (done || lia). cbn [foldl]. f_equal. apply Z.mod_small.
  pose proof (be_value_bound l Hl) as Hb. rewrite Z.shiftl_mul_pow2 by lia. split; [lia|].
  apply Z.lt_le_trans with (2 ^ (8 * Z.of_nat (length l)) * 2 ^ 8); [lia|]. rewrite <-Z.pow_add_r by lia. apply Z.pow_le_mono_r; lia.
Qed.

Lemma length_put_int k h val : length (put_int k h val) = k.
Proof. unfold put_int. destruct (endian_ h); rewrite ?put_l_be, ?put_b_be, ?length_reverse; apply length_be_bytes. Qed.

Lemma get_put_int k h h' val : endian_ h' = endian_ h → 0 <= val < 2 ^ (8 * Z.of_nat k) → get_int k h' (put_int k h val) = val.
Proof.
  intros He Hv. unfold get_int, put_int. rewrite He. pose proof (be_bytes_u8 k val). pose proof (length_be_bytes k val).
  destruct (endian_ h); [unfold get_l; rewrite put_l_be, reverse_involutive|rewrite put_b_be]; (rewrite get_b_be by (done || lia)); by apply be_value_bytes_id.
Qed.

(** The bytes of a number depend on it modulo their width only. *)
Lemma be_bytes_reduce k val : be_bytes k val = be_bytes k (val mod 2 ^ (8 * Z.of_nat k)).
Proof.
  pose proof (be_bytes_value (be_bytes k val) (be_bytes_u8 k val)) as E. rewrite length_be_bytes, be_value_bytes in E. done.
Qed.

Lemma put_int_mod k h val : put_int k h val = put_int k h (val mod 2 ^ (8 * Z.of_nat k)).
Proof. unfold put_int. rewrite !put_l_be, !put_b_be. destruct (endian_ h); by rewrite (be_bytes_reduce k val). Qed.

Lemma signed_mod k val : (0 < k)%nat → - 2 ^ (8 * Z.of_nat k - 1) <= val < 2 ^ (8 * Z.of_nat k - 1) → signed k (val mod 2 ^ (8 * Z.of_nat k)) = val.
Proof.
  intros Hk Hv. assert (E : 2 ^ (8 * Z.of_nat k) = 2 * 2 ^ (8 * Z.of_nat k - 1)) by (rewrite <-Z.pow_succ_r by lia; f_equal; lia).
  assert (0 < 2 ^ (8 * Z.of_nat k - 1)) by (apply Z.pow_pos_nonneg; lia). unfold signed. destruct (Z.ltb_spec val 0) as [Hn|Hn].
  - replace (val mod 2 ^ (8 * Z.of_nat k)) with (val + 2 ^ (8 * Z.of_nat k)).
    + rewrite (proj2 (Z.ltb_ge _ _)) by lia. lia.
    + apply (Z.mod_unique _ _ (-1)); lia.
  - rewrite Z.mod_small by lia. by rewrite (proj2 (Z.ltb_lt _ _)) by lia.
Qed.

(** ** Fields *)

Inductive field :=
| FUInt (k : nat) (val : Z)
| FInt (k : nat) (val : Z)
| FRaw (l : list Z)
| FStr (l : list Z)
| FCStr (l : list Z).

Definition field_ok (f : field) : Prop :=
  match f with
  | FUInt k val => (0 < k)%nat ∧ 0 <= val < 2 ^ (8 * Z.of_nat k)
  | FInt k val => (0 < k)%nat ∧ - 2 ^ (8 * Z.of_nat k - 1) <= val < 2 ^ (8 * Z.of_nat k - 1)
  | FRaw _ => True
  | FStr l => Z.of_nat (length l) < 2 ^ 32
  | FCStr l => 0 ∉ l
  end.

Definition field_bytes (h : helper) (f : field) : list Z :=
  match f with
  | FUInt k val | FInt k val => put_int k h val
  | FRaw l => l
  | FStr l => put_int 4 h (Z.of_nat (length l)) ++ l
  | FCStr l => l ++ [0]
  end.

Definition write_field (f : field) (h : helper) : option (thrown helper) :=
  match f with
  | FUInt k val | FInt k val => writeInt k val h
  | FRaw l => writeRaw l h
  | FStr l => writeStr l h
  | FCStr l => writeCStr l h
  end.

(** Reads a field of the kind of [f]. *)
Definition read_field (f : field) (h : helper) : option (thrown (field * helper)) :=
  match f with
  | FUInt k _ => r ← readUInt k h; Some (match r with Ok (z, h) => Ok (FUInt k z, h) | Throw => Throw end)
  | FInt k _ => r ← readInt k h; Some (match r with Ok (z, h) => Ok (FInt k z, h) | Throw => Throw end)
  | FRaw l => r ← readRaw (Z.of_nat (length l)) h; Some (match r with Ok (s, h) => Ok (FRaw s, h) | Throw => Throw end)
  | FStr _ => r ← readStr h; Some (match r with Ok (s, h) => Ok (FStr s, h) | Throw => Throw end)
  | FCStr _ => r ← readCStr h; Some (match r with Ok (s, h) => Ok (FCStr s, h) | Throw => Throw end)
  end.

(** [l] was appended. *)
Definition hwrote (h : helper) (l : list Z) (h' : helper) : Prop :=
  endian_ h' = endian_ h ∧ length (buf_ h') = length (buf_ h) ∧ pos_ h' = pos_ h + Z.of_nat (length l) ∧
  take (Z.to_nat (pos_ h')) (buf_ h') = take (Z.to_nat (pos_ h)) (buf_ h) ++ l.

(** [l] was taken from the front. *)
Definition htook (h : helper) (l : list Z) (h' : helper) : Prop := endian_ h' = endian_ h ∧ buf_ h' = buf_ h ∧ pos_ h' = pos_ h + Z.of_nat (length l).

Lemma hwrote_app h l1 h1 l2 h2 : hwrote h l1 h1 → hwrote h1 l2 h2 → hwrote h (l1 ++ l2) h2.
Proof.
  intros (He1 & Hl1 & Hp1 & Ht1) (He2 & Hl2 & Hp2 & Ht2). split_and!; [congruence|congruence|rewrite Hp2, Hp1, length_app; lia|by rewrite Ht2, Ht1, app_assoc].
Qed.

Section Write.
Context (h : helper) (Hp : 0 <= pos_ h).

Lemma store_ok l : pos_ h + Z.of_nat (length l) <= helper_size h → ∃ h', store l h = Some (Ok h') ∧ hwrote h l h'.
Proof using Hp.
  intros Hl. unfold helper_size in Hl. unfold store. rewrite poke_Some, bind_Some_eq by lia. unfold set_pos, helper_size. cbn [buf_ endian_].
  set (b := take _ _ ++ _). assert (Hb : length b = length (buf_ h)) by (unfold b; rewrite !length_app, length_take, length_drop; lia).
  rewrite Hb, (proj2 (Z.ltb_ge _ _)) by lia. eexists. split; [done|]. split_and!; cbn; try done.
  unfold b. rewrite app_assoc, take_app_le by (rewrite length_app, length_take; lia). apply take_ge. rewrite length_app, length_take. lia.
Qed.

Lemma writeInt_ok k val : pos_ h + Z.of_nat k <= helper_size h → ∃ h', writeInt k val h = Some (Ok h') ∧ hwrote h (put_int k h val) h'.
Proof using Hp.
  intros Hk. unfold writeInt, is_valid. rewrite (proj2 (Z.ltb_ge _ _)) by lia. cbn [negb]. apply store_ok. by rewrite length_put_int.
Qed.

Lemma writeRaw_ok l : pos_ h + Z.of_nat (length l) <= helper_size h → ∃ h', writeRaw l h = Some (Ok h') ∧ hwrote h l h'.
Proof using Hp.
  intros Hl. unfold writeRaw, is_valid. rewrite (proj2 (Z.ltb_ge _ _)) by lia. cbn [negb assert_that]. rewrite bind_Some_eq. by apply store_ok.
Qed.
End Write.

Lemma cstr_loop_ok str p b :
  0 <= p → p + Z.of_nat (length str) + 1 <= Z.of_nat (length b) →
  cstr_loop str p b = Some (p + Z.of_nat (length str) + 1, take (Z.to_nat p) b ++ (str ++ [0]) ++ drop (Z.to_nat p + length str + 1) b).
Proof.
  revert p b. induction str as [|c str IH]; intros p b Hp Hb; cbn [length] in *; cbn [cstr_loop]; rewrite (proj2 (Z.ltb_lt _ _)) by lia; cbn [assert_that]; rewrite bind_Some_eq.
  - rewrite poke_Some, bind_Some_eq by (cbn; lia). cbn [length app Z.of_nat]. by rewrite Z.add_0_r, Nat.add_0_r.
  - rewrite poke_Some, bind_Some_eq by (cbn; lia). set (b1 := take _ _ ++ _).
    assert (Hb1 : length b1 = length b) by (unfold b1; rewrite !length_app, length_take, length_drop; cbn; lia). rewrite IH by lia. do 2 f_equal; [lia|].
    assert (E : take (Z.to_nat (p + 1)) b1 = take (Z.to_nat p) b ++ [c]).
    { unfold b1. rewrite app_assoc, take_app_le by (rewrite length_app, length_take; cbn; lia). apply take_ge. rewrite length_app, length_take. cbn. lia. }
    assert (E2 : drop (Z.to_nat (p + 1) + length str + 1) b1 = drop (Z.to_nat p + S (length str) + 1) b).
    { unfold b1. rewrite app_assoc, drop_app_ge by (rewrite length_app, length_take; cbn; lia). rewrite drop_drop. f_equal.
      rewrite length_app, length_take. cbn [length]. lia. }
    by rewrite E, E2, <-app_assoc.
Qed.

Lemma writeCStr_ok l h :
  0 <= pos_ h → pos_ h + Z.of_nat (length (l ++ [0])) <= helper_size h → ∃ h', writeCStr l h = Some (Ok h') ∧ hwrote h (l ++ [0]) h'.
Proof.
  intros Hp Hl. rewrite length_app in Hl. cbn [length] in Hl. unfold helper_size in Hl. unfold writeCStr. rewrite cstr_loop_ok, bind_Some_eq by lia. cbv beta iota. unfold set_pos, helper_size. cbn [buf_ endian_].
  set (b := take _ _ ++ _). assert (Hb : length b = length (buf_ h)) by (unfold b; rewrite !length_app, length_take, length_drop; cbn; lia).
  rewrite Hb, (proj2 (Z.ltb_ge _ _)) by lia. eexists. split; [done|]. split_and!; cbn [endian_ buf_ pos_]; try done; [rewrite length_app; cbn; lia|].
  unfold b. rewrite app_assoc, take_app_le by (rewrite !length_app, length_take; cbn; lia). apply take_ge. rewrite !length_app, length_take. cbn. lia.
Qed.

Lemma raft_write_field_ok f h :
  0 <= pos_ h → field_ok f → pos_ h + Z.of_nat (length (field_bytes h f)) <= helper_size h → ∃ h', write_field f h = Some (Ok h') ∧ hwrote h (field_bytes h f) h'.
Proof.
  intros Hp Hf Hl. destruct f as [k val|k val|l|l|l]; cbn [write_field field_bytes] in *.
  - rewrite length_put_int in Hl. by apply writeInt_ok.
  - rewrite length_put_int in Hl. by apply writeInt_ok.
  - by apply writeRaw_ok.
  - rewrite length_app, length_put_int in Hl. unfold writeStr, writeBytes, is_valid. rewrite (proj2 (Z.ltb_ge _ _)) by lia. cbn [negb assert_that].
    rewrite bind_Some_eq, u32_id by (cbn in Hf; unfold is_u32; lia). destruct (writeInt_ok h Hp 4 (Z.of_nat (length l))) as (h1 & E1 & H1); [lia|]. rewrite E1, bind_Some_eq.
    destruct (H1) as (He & Hb & Hp1 & _). rewrite length_put_int in Hp1. unfold helper_size in *.
    destruct (writeRaw_ok h1) with (l := l) as (h2 & E2 & H2); [lia|unfold helper_size; lia|]. exists h2. split; [done|]. by apply (hwrote_app h _ h1).
  - by apply writeCStr_ok.
Qed.

(** ** Reading *)

Section Read.
Context (h : helper) (Hp : 0 <= pos_ h).

Lemma front_fits l rest : drop (Z.to_nat (pos_ h)) (buf_ h) = l ++ rest → (0 < length l)%nat ∨ pos_ h <= helper_size h → pos_ h + Z.of_nat (length l) <= helper_size h.
Proof using Hp.
  intros Hd Hl. unfold helper_size in *. pose proof (f_equal length Hd) as E. rewrite length_drop, length_app in E. lia.
Qed.

Lemma peek_front l rest :
  drop (Z.to_nat (pos_ h)) (buf_ h) = l ++ rest → pos_ h + Z.of_nat (length l) <= helper_size h → peek (buf_ h) (pos_ h) (Z.of_nat (length l)) = Some l.
Proof using Hp. intros Hd Hl. unfold helper_size in Hl. rewrite peek_Some by lia. by rewrite Hd, Nat2Z.id, take_app_length. Qed.

Lemma set_pos_ok p : p <= helper_size h → set_pos p h = Ok {| endian_ := endian_ h; buf_ := buf_ h; pos_ := p |}.
Proof using Type. intros H. unfold set_pos. by rewrite (proj2 (Z.ltb_ge _ _)) by lia. Qed.

Lemma readRaw_ok l rest :
  drop (Z.to_nat (pos_ h)) (buf_ h) = l ++ rest → pos_ h + Z.of_nat (length l) <= helper_size h →
  ∃ h', readRaw (Z.of_nat (length l)) h = Some (Ok (l, h')) ∧ htook h l h'.
Proof using Hp.
  intros Hd Hl. unfold readRaw. rewrite set_pos_ok by done. rewrite (peek_front l rest), bind_Some_eq by done. eexists. by split.
Qed.

Lemma readUInt_ok k val rest :
  0 <= val < 2 ^ (8 * Z.of_nat k) → drop (Z.to_nat (pos_ h)) (buf_ h) = put_int k h val ++ rest → pos_ h + Z.of_nat k <= helper_size h →
  ∃ h', readUInt k h = Some (Ok (val, h')) ∧ htook h (put_int k h val) h'.
Proof using Hp.
  intros Hv Hd Hl. unfold readUInt, is_valid. rewrite (proj2 (Z.ltb_ge _ _)) by lia. cbn [negb].
  pose proof (peek_front (put_int k h val) rest Hd) as E. rewrite length_put_int in E. rewrite E, bind_Some_eq by done. rewrite set_pos_ok by done.
  rewrite get_put_int by done. eexists. split; [done|]. split_and!; cbn; try done. by rewrite length_put_int.
Qed.
End Read.

Lemma cstr_of_app l rest : 0 ∉ l → cstr_of (l ++ 0 :: rest) = Some l.
Proof.
  induction l as [|c l IH]; intros Hl; [done|]. apply not_elem_of_cons in Hl as [Hc Hl]. cbn [app cstr_of]. rewrite (proj2 (Z.eqb_neq c 0)) by congruence. by rewrite IH.
Qed.

Lemma raft_read_field_ok f h rest :
  0 <= pos_ h → field_ok f → drop (Z.to_nat (pos_ h)) (buf_ h) = field_bytes h f ++ rest → pos_ h + Z.of_nat (length (field_bytes h f)) <= helper_size h →
  ∃ h', read_field f h = Some (Ok (f, h')) ∧ htook h (field_bytes h f) h'.
Proof.
  intros Hp Hf Hd Hl. destruct f as [k val|k val|l|l|l]; cbn [read_field field_bytes field_ok] in *.
  - rewrite length_put_int in Hl. destruct (readUInt_ok h Hp k val rest) as (h' & E & H); [lia|done|done|]. exists h'. by rewrite E.
  - destruct Hf as [Hk Hv]. rewrite length_put_int in Hl. unfold readInt. rewrite put_int_mod in Hd |- *.
    assert (0 < 2 ^ (8 * Z.of_nat k)) by (apply Z.pow_pos_nonneg; lia).
    destruct (readUInt_ok h Hp k (val mod 2 ^ (8 * Z.of_nat k)) rest) as (h' & E & H'); [by apply Z.mod_pos_bound|done|done|]. exists h'.
    rewrite E, !bind_Some_eq. cbv beta iota. by rewrite signed_mod.
  - destruct (readRaw_ok h Hp l rest) as (h' & E & H); [done..|]. exists h'. by rewrite E.
  - rewrite length_app, length_put_int in Hl. rewrite <-app_assoc in Hd. unfold readStr, readBytes.
    destruct (readUInt_ok h Hp 4 (Z.of_nat (length l)) (l ++ rest)) as (h1 & E1 & He1 & Hb1 & Hp1); [lia|done|lia|]. rewrite E1, bind_Some_eq. rewrite length_put_int in Hp1.
    assert (Hs : helper_size h1 = helper_size h) by (unfold helper_size; by rewrite Hb1). unfold is_valid. rewrite (proj2 (Z.ltb_ge _ _)) by lia. cbn [negb assert_that]. rewrite bind_Some_eq.
    destruct (readRaw_ok h1) with (l := l) (rest := rest) as (h2 & E2 & He2 & Hb2 & Hp2); [lia| |lia|].
    { rewrite Hb1, Hp1, Z2Nat.inj_add, <-drop_drop, Hd by lia. rewrite Nat2Z.id. replace 4%nat with (length (put_int 4 h (Z.of_nat (length l)))) at 1 by apply length_put_int. apply drop_app_length. }
    exists h2. rewrite E2, bind_Some_eq. split; [done|]. split_and!; [congruence..|]. rewrite length_app, length_put_int. lia.
  - rewrite length_app in Hl. cbn [length] in Hl. rewrite <-app_assoc in Hd. unfold readCStr. rewrite Hd. cbn [app]. rewrite cstr_of_app, bind_Some_eq by done.
    rewrite set_pos_ok by lia. eexists. split; [done|]. split_and!; cbn; try done. rewrite length_app. cbn. lia.
Qed.

(** ** Lists of fields *)

Fixpoint write_all (fs : list field) (h : helper) : option (thrown helper) :=
  match fs with
  | [] => Some (Ok h)
  | f :: fs => r ← write_field f h; match r with Ok h => write_all fs h | Throw => Some Throw end
  end.

Fixpoint read_all (fs : list field) (h : helper) : option (thrown (list field * helper)) :=
  match fs with
  | [] => Some (Ok ([], h))
  | f :: fs =>
      r ← read_field f h;
      match r with
      | Throw => Some Throw
      | Ok (g, h) => r ← read_all fs h; Some (match r with Ok (gs, h) => Ok (g :: gs, h) | Throw => Throw end)
      end
  end.

Definition fields_bytes (h : helper) (fs : list field) : list Z := mjoin (field_bytes h <$> fs).

Lemma fields_bytes_endian h h' fs : endian_ h' = endian_ h → fields_bytes h' fs = fields_bytes h fs.
Proof.
  intros He. unfold fields_bytes. f_equal. apply list_fmap_ext. intros _ f _. destruct f; cbn [field_bytes]; unfold put_int; by rewrite ?He.
Qed.

Lemma fields_bytes_cons h f fs : fields_bytes h (f :: fs) = field_bytes h f ++ fields_bytes h fs.
Proof. done. Qed.

Lemma write_all_ok fs h :
  0 <= pos_ h → Forall field_ok fs → pos_ h + Z.of_nat (length (fields_bytes h fs)) <= helper_size h →
  ∃ h', write_all fs h = Some (Ok h') ∧ hwrote h (fields_bytes h fs) h'.
Proof.
  intros Hp Hfs. revert h Hp. induction Hfs as [|f fs Hf _ IH]; intros h Hp Hl.
  { exists h. split; [done|]. split_and!; cbn; try done; [lia|by rewrite app_nil_r]. }
  rewrite fields_bytes_cons, length_app in Hl. destruct (raft_write_field_ok f h Hp Hf) as (h1 & E1 & H1); [lia|]. destruct (H1) as (He & Hb & Hp1 & _).
  pose proof (fields_bytes_endian h h1 fs He) as Hfb. destruct (IH h1) as (h2 & E2 & H2); [lia|rewrite Hfb; unfold helper_size in *; lia|].
  exists h2. cbn [write_all]. rewrite E1, bind_Some_eq. split; [done|]. rewrite Hfb in H2. by apply (hwrote_app h _ h1).
Qed.

Lemma read_all_ok fs h rest :
  0 <= pos_ h → Forall field_ok fs → drop (Z.to_nat (pos_ h)) (buf_ h) = fields_bytes h fs ++ rest →
  pos_ h + Z.of_nat (length (fields_bytes h fs)) <= helper_size h →
  ∃ h', read_all fs h = Some (Ok (fs, h')) ∧ htook h (fields_bytes h fs) h'.
Proof.
  intros Hp Hfs. revert h Hp. induction Hfs as [|f fs Hf _ IH]; intros h Hp Hd Hl.
  { exists h. split; [done|]. split_and!; cbn; try done; lia. }
  rewrite fields_bytes_cons in Hd, Hl. rewrite <-app_assoc in Hd. rewrite length_app in Hl.
  destruct (raft_read_field_ok f h (fields_bytes h fs ++ rest)) as (h1 & E1 & He & Hb & Hp1); [done|done|done|lia|]. pose proof (fields_bytes_endian h h1 fs He) as Hfb.
  destruct (IH h1) as (h2 & E2 & He2 & Hb2 & Hp2); [lia| |rewrite Hfb; unfold helper_size in *; rewrite Hb; lia|].
  { rewrite Hb, Hp1, Z2Nat.inj_add, <-drop_drop, Hd, Hfb by lia. by rewrite Nat2Z.id, drop_app_length. }
  exists h2. cbn [read_all]. rewrite E1, bind_Some_eq, E2, bind_Some_eq. split; [done|]. split_and!; [congruence..|]. rewrite fields_bytes_cons, length_app, <-Hfb. lia.
Qed.

(** Fields written to a buffer of the raft library are read back.  For either order of bytes and every list of integers of any width,
    signed or not, raw bytes, strings and C strings that fits the buffer, all writes succeed, and reading fields of the same kinds from
    the start gives the same values and ends where writing ended. *)
Lemma raft_fields_roundtrip e buf fs :
  let h := helper_new buf e in
  Forall field_ok fs → (length (fields_bytes h fs) <= length buf)%nat →
  ∃ h', write_all fs h = Some (Ok h') ∧ ∃ h'', read_all fs (helper_new (buf_ h') e) = Some (Ok (fs, h'')) ∧ pos_ h'' = pos_ h'.
Proof.
  intros h Hfs Hl. destruct (write_all_ok fs h) as (h' & E & He & Hb & Hp & Ht); [done|done|unfold helper_size; cbn; lia|]. exists h'. split; [done|].
  cbn [pos_ helper_new h] in Hp, Ht. destruct (read_all_ok fs (helper_new (buf_ h') e) (drop (Z.to_nat (pos_ h')) (buf_ h'))) as (h'' & E' & _ & _ & Hp'); [done|done| | |].
  - cbn [pos_ buf_ helper_new]. rewrite (fields_bytes_endian h) by done. change (take (Z.to_nat 0) (buf_ h)) with (@nil Z) in Ht. cbn [app] in Ht. rewrite <-Ht. by rewrite take_drop.
  - rewrite (fields_bytes_endian h) by done. unfold helper_size. cbn [pos_ buf_ helper_new]. cbn [buf_ helper_new h] in Hb. lia.
  - exists h''. split; [done|]. rewrite Hp', (fields_bytes_endian h) by done. cbn [pos_ helper_new]. lia.
Qed.

Definition demo_fields : list field := [FUInt 2 40000; FInt 4 (-5); FStr [97; 98]; FCStr [99]; FRaw [1; 0; 2]; FUInt 8 (2 ^ 63)].

Lemma raft_fields_roundtrip_witness :
  ∃ h', write_all demo_fields (helper_new (replicate 40 9) BIG) = Some (Ok h') ∧
    ∃ h'', read_all demo_fields (helper_new (buf_ h') BIG) = Some (Ok (demo_fields, h'')) ∧ pos_ h'' = pos_ h'.
Proof.
  apply (raft_fields_roundtrip BIG (replicate 40 9) demo_fields); [|vm_compute; lia]. unfold demo_fields. repeat apply list.Forall_cons_2; [..|constructor]; cbn [field_ok]; try lia; [done|].
  by intros ?%list_elem_of_singleton.
Defined.
