(* ===== verification/RaftLog.v ===== *)
(** * The log of the raft library

    src/src/meta/raft/kv_log_store.{h,cc}, class [KvLogStore]: entries in a database under their index, 8 bytes with the highest first, and
    the first and the next index in a mapped file.  The database is the class [Rocks] of [Engine]; entries, their bytes and the buffers
    they are packed in are classes of the raft library, of which [EntryCodec] has what is used.  The mapped file keeps the two numbers
    over restarts.  A null pointer is [None] in the results; an outer [None] is a failed assertion, an exception of the raft library, or
    the mutex [logs_lock_] locked by the thread that holds it. *)
From S2P Require Import Prelude RdbDefine Engine RaftBuf.

Class EntryCodec (E : Type) := {
  serialize : E → list Z;
  deserialize : list Z → option E;
  get_ulong : list Z → Z;
  entry_term : E → Z;
  entry_size : E → Z;
  deserialize_serialize e : deserialize (serialize e) = Some e;
  get_ulong_serialize e : get_ulong (serialize e) = entry_term e }.

Record log_store (D : Type) := { startIdx : Z; nextIdx : Z; db : D }.
Arguments startIdx {D}.
Arguments nextIdx {D}.
Arguments db {D}.
Arguments Build_log_store {D}.

(** [put64b]. *)
Definition log_key (idx : Z) : list Z := put_b 8 idx.

Section store.
Context {D E : Type} `{Rocks D} `{EntryCodec E}.

Definition set_db (d : D) (l : log_store D) : log_store D := Build_log_store (startIdx l) (nextIdx l) d.

(** [open_sys_file] on the two words of the file, which are 0 in a new one. *)
Definition open_sys_file (words : Z * Z) (d : D) : log_store D :=
  {| startIdx := if words.1 =? 0 then 1 else words.1; nextIdx := if words.2 =? 0 then 1 else words.2; db := d |}.

Definition next_slot (l : log_store D) : Z := nextIdx l.
Definition start_index (l : log_store D) : Z := startIdx l.

(** The entry under an index; null when the database reports anything but success. *)
Definition entry_at (index : Z) (l : log_store D) : option (option E) :=
  let '(s, value) := db_get (log_key index) (db l) in
  if decide (s = kOk) then e ← deserialize value; Some (Some e) else Some None.

Definition last_entry (l : log_store D) : option (option E) :=
  if startIdx l =? nextIdx l then Some None else entry_at (nextIdx l - 1) l.

Definition term_at (index : Z) (l : log_store D) : Z :=
  let '(s, value) := db_get (log_key index) (db l) in
  if decide (s = kOk) then get_ulong value else 0.

Definition append (e : E) (l : log_store D) : Z * log_store D :=
  let '(s, d) := db_put (log_key (nextIdx l)) (serialize e) (db l) in
  if decide (s = kOk) then (nextIdx l, Build_log_store (startIdx l) (u64 (nextIdx l + 1)) d) else (0, set_db d l).

Definition write_at (index : Z) (e : E) (l : log_store D) : log_store D :=
  set_db (db_put (log_key index) (serialize e) (db l)).2 l.

(** The vector is made with a null pointer for every index before the entries are pushed. *)
Definition log_entries (start fin : Z) (l : log_store D) : option (list (option E)) :=
  es ← mapM (λ kv, deserialize kv.2) (db_range (log_key start) (log_key fin) (db l));
  Some (replicate (Z.to_nat (u64 (fin - start))) None ++ (Some <$> es)).

(** The loop of [log_entries_ext]: an entry is pushed before its size is looked at. *)
Fixpoint ext_loop (hint accum : Z) (kvs : list (list Z * list Z)) : option (list E) :=
  match kvs with
  | [] => Some []
  | kv :: kvs =>
      e ← deserialize kv.2;
      let accum := u64 (accum + entry_size e) in
      if negb (hint =? 0) && (hint <=? accum) then Some [e] else es ← ext_loop hint accum kvs; Some (e :: es)
  end.
Definition log_entries_ext (start fin hint : Z) (l : log_store D) : option (list E) :=
  ext_loop hint 0 (db_range (log_key start) (log_key fin) (db l)).

(** The serialized entries that [pack] puts behind each other, each with its length. *)
Definition pack (index cnt : Z) (l : log_store D) : option (list (list Z)) :=
  batch ← log_entries index (u64 (index + cnt)) l;
  mapM (λ ii, le ← batch !! ii; e ← le; Some (serialize e)) (seq 0 (Z.to_nat cnt)).

(** [num_logs] is the first number of the pack.  [write_at] locks the mutex that is held here. *)
Definition apply_pack (index num_logs : Z) (l : log_store D) : option (log_store D) :=
  if startIdx l =? nextIdx l then Some l
  else if (index <? startIdx l) || (nextIdx l <? index) then Some l
  else if 0 <? num_logs then None
  else Some (Build_log_store (startIdx l) (if nextIdx l <? u64 (index + num_logs) then u64 (index + num_logs) else nextIdx l) (db l)).

(** [compact]; the loop ends for indexes below the last number of 64 bits. *)
Definition compact (last_log_index : Z) (l : log_store D) : bool * log_store D :=
  let d := foldl (λ d ii, (db_delete (log_key ii) d).2) (db l) (seqZ (startIdx l) (last_log_index - startIdx l + 1)) in
  let start := u64 (last_log_index + 1) in
  (true, Build_log_store start (if u64 (nextIdx l - 1) <=? last_log_index then start else nextIdx l) d).
End store.
