(* ===== verification/RaftLogSpec.v ===== *)
(** * The log of the raft library as a sequence of entries *)
From S2P Require Import Prelude RdbDefine Engine RaftBuf RaftBufSpec RaftLog.

(** ** Keys *)

Lemma log_key_be idx : log_key idx = be_bytes 8 idx.
Proof. apply put_b_be. Qed.

Lemma log_key_compare i j : 0 <= i < 2 ^ 64 → 0 <= j < 2 ^ 64 → bytes_compare (log_key i) (log_key j) = (i ?= j).
Proof.
  intros Hi Hj. rewrite !log_key_be, <-(app_nil_r (be_bytes 8 i)), <-(app_nil_r (be_bytes 8 j)), compare_be_bytes by done. by destruct (i ?= j).
Qed.

Lemma log_key_inj i j : 0 <= i < 2 ^ 64 → 0 <= j < 2 ^ 64 → log_key i = log_key j → i = j.
Proof. intros Hi Hj E. rewrite !log_key_be in E. rewrite <-(be_value_bytes_id 8 i), <-(be_value_bytes_id 8 j) by done. by rewrite E. Qed.

Lemma log_key_scan x y i : 0 <= x < 2 ^ 64 → 0 <= y < 2 ^ 64 → 0 <= i < 2 ^ 64 → in_scan (log_key x, log_key y) (log_key i) = true ↔ x <= i < y.
Proof.
  intros Hx Hy Hi. unfold in_scan. cbn [fst snd]. rewrite !log_key_compare by done.
  destruct (Z.compare_spec i x), (Z.compare_spec i y); split; intros; (done || lia).
Qed.

Definition key_lt (a b : list Z * list Z) : Prop := bytes_compare a.1 b.1 = Lt.

Lemma bytes_compare_asym l1 l2 : bytes_compare l1 l2 = CompOpp (bytes_compare l2 l1).
Proof.
  revert l2. induction l1 as [|x l1 IH]; intros [|y l2]; try done. cbn [bytes_compare]. rewrite (Z.compare_antisym y x).
  destruct (y ?= x); cbn; [apply IH|done|done].
Qed.

#[export] Instance key_lt_antisym : AntiSymm (=) key_lt.
Proof. intros a b H1 H2. unfold key_lt in *. rewrite bytes_compare_asym, H2 in H1. done. Qed.

Lemma sorted_NoDup l : StronglySorted key_lt l → NoDup l.
Proof.
  induction 1 as [|a l _ IH Ha]; [constructor|]. constructor; [|done]. intros Hin. rewrite list.Forall_forall in Ha. specialize (Ha a Hin).
  unfold key_lt in Ha. pose proof (bytes_compare_asym a.1 a.1) as E. rewrite Ha in E. done.
Qed.

(** Two sorted ranges with the same elements are the same. *)
Lemma sorted_same l1 l2 : StronglySorted key_lt l1 → StronglySorted key_lt l2 → (∀ x, x ∈ l1 ↔ x ∈ l2) → l1 = l2.
Proof. intros H1 H2 He. apply (StronglySorted_unique key_lt); [done|done|]. apply NoDup_Permutation; [by apply sorted_NoDup|by apply sorted_NoDup|done]. Qed.

(** ** The abstract log *)

(** What scans of the database add to its laws: they go through the keys in order. *)
Class RocksSorted (D : Type) `{Rocks D} (rocks_is : gmap (list Z) (list Z) → D → Prop) :=
  db_range_sorted m d lo hi : rocks_is m d → StronglySorted key_lt (db_range lo hi d).

(** A database that does not fail. *)
Class RocksReliable (D : Type) `{Rocks D} := {
  put_reliable k v d : (db_put k v d).1 = kOk;
  get_reliable k d : (db_get k d).1 = kOk ∨ (db_get k d).1 = kNotFound;
  delete_reliable k d : (db_delete k d).1 = kOk }.

Section refine.
Context {D E : Type} `{HL : RocksLaws D rocks_is} `{HS : !RocksSorted D rocks_is} `{HC : EntryCodec E}.
Implicit Types (l : log_store D) (es : list E).

Record log_is (first : Z) (es : list E) (m : gmap (list Z) (list Z)) (l : log_store D) : Prop := {
  li_start : startIdx l = first;
  li_next : nextIdx l = first + Z.of_nat (length es);
  li_range : 1 <= first ∧ first + Z.of_nat (length es) < 2 ^ 64;
  li_db : rocks_is m (db l);
  li_entries : ∀ i e, es !! i = Some e → m !! log_key (first + Z.of_nat i) = Some (serialize e);
  li_keys : ∀ k v, m !! k = Some v → ∃ i, k = log_key i ∧ first <= i < first + Z.of_nat (length es) }.

(** The entry under an index. *)
Definition entry_of (first : Z) (es : list E) (i : Z) : option E := if i <? first then None else es !! Z.to_nat (i - first).

Lemma log_is_get first es m l i :
  log_is first es m l → 0 <= i < 2 ^ 64 → m !! log_key i = serialize <$> entry_of first es i.
Proof using Type.
  intros Hl Hi. destruct (li_range _ _ _ _ Hl) as [H1 H2]. unfold entry_of. destruct (Z.ltb_spec i first) as [Hlt|Hge].
  { destruct (m !! log_key i) as [v|] eqn:Em; [|done]. exfalso. destruct (li_keys _ _ _ _ Hl _ _ Em) as (j & Hj & Hjr). apply log_key_inj in Hj; lia. }
  destruct (es !! Z.to_nat (i - first)) as [e|] eqn:Ee; cbn.
  - rewrite <-(li_entries _ _ _ _ Hl _ _ Ee). by replace (first + Z.of_nat (Z.to_nat (i - first))) with i by lia.
  - apply lookup_ge_None in Ee. destruct (m !! log_key i) as [v|] eqn:Em; [|done]. exfalso. destruct (li_keys _ _ _ _ Hl _ _ Em) as (j & Hj & Hjr).
    apply log_key_inj in Hj; lia.
Qed.

(** The entries of a range of indexes. *)
Definition entries_in (first : Z) (es : list E) (x y : Z) : list E := take (Z.to_nat (y - Z.max x first)) (drop (Z.to_nat (x - first)) es).
Definition range_pairs (x : Z) (es : list E) : list (list Z * list Z) := imap (λ n e, (log_key (x + Z.of_nat n), serialize e)) es.

Lemma range_pairs_sorted x es : 0 <= x → x + Z.of_nat (length es) <= 2 ^ 64 → StronglySorted key_lt (range_pairs x es).
Proof using Type.
  revert x. induction es as [|e es IH]; intros x Hx Hl; [constructor|]. unfold range_pairs. cbn [imap length] in *.
  assert (E0 : imap ((λ n e, (log_key (x + Z.of_nat n), serialize e)) ∘ S) es = range_pairs (x + 1) es).
  { unfold range_pairs. apply imap_ext. intros n e' _. cbn [compose]. do 2 f_equal. lia. }
  rewrite E0. constructor; [apply IH; lia|]. apply list.Forall_forall. intros kv Hkv. unfold range_pairs in Hkv.
  apply elem_of_lookup_imap in Hkv as (n & e' & -> & Hn). apply lookup_lt_Some in Hn. unfold key_lt. cbn [fst]. rewrite log_key_compare by lia. apply Z.compare_lt_iff. lia.
Qed.

Lemma range_ok first es m l x y :
  log_is first es m l → 0 <= x → x < 2 ^ 64 → 0 <= y < 2 ^ 64 →
  db_range (log_key x) (log_key y) (db l) = range_pairs (Z.max x first) (entries_in first es x y).
Proof using HL HS.
  intros Hl Hx Hx' Hy. destruct (li_range _ _ _ _ Hl) as [H1 H2]. set (es' := entries_in first es x y).
  assert (Hlen : length es' = (Z.to_nat (y - Z.max x first) `min` (length es - Z.to_nat (x - first)))%nat) by (unfold es', entries_in; by rewrite length_take, length_drop).
  apply sorted_same; [by apply (db_range_sorted m), Hl|apply range_pairs_sorted; lia|]. intros [k v]. rewrite (db_range_ok m) by apply Hl. split.
  - intros [Hk Hs]. destruct (li_keys _ _ _ _ Hl _ _ Hk) as (i & -> & Hi). apply log_key_scan in Hs; [|lia..].
    rewrite (log_is_get first es m l i Hl) in Hk by lia. unfold entry_of in Hk. rewrite (proj2 (Z.ltb_ge _ _)) in Hk by lia.
    apply fmap_Some in Hk as (e & He & ->). apply elem_of_lookup_imap. exists (Z.to_nat (i - Z.max x first)), e. split; [do 2 f_equal; lia|].
    unfold es', entries_in. rewrite lookup_take_lt by lia. rewrite lookup_drop. rewrite <-He. f_equal. lia.
  - intros Hin. apply elem_of_lookup_imap in Hin as (n & e & [= -> ->] & Hn). pose proof (lookup_lt_Some _ _ _ Hn) as Hnl.
    unfold es', entries_in in Hn. apply lookup_take_Some in Hn as [Hn Hny]. rewrite lookup_drop in Hn. pose proof (lookup_lt_Some _ _ _ Hn). split.
    + rewrite (log_is_get first es m l) by (done || lia). unfold entry_of. rewrite (proj2 (Z.ltb_ge _ _)) by lia.
      replace (Z.to_nat (Z.max x first + Z.of_nat n - first)) with (Z.to_nat (x - first) + n)%nat by lia. by rewrite Hn.
    + apply log_key_scan; lia.
Qed.

(** ** Operations *)

Context `{HR : !RocksReliable D}.

Inductive log_op :=
| LAppend (e : E)
| LCompact (last : Z)
| LEntry (i : Z)
| LTerm (i : Z)
| LLast
| LNext
| LStart
| LRange (x y hint : Z)
| LReopen.

Inductive log_obs :=
| ONum (n : Z)
| OEntry (e : option E)
| OEntries (es : list E)
| ODone.

Definition log_exec (op : log_op) (l : log_store D) : option (log_obs * log_store D) :=
  match op with
  | LAppend e => let '(n, l) := append e l in Some (ONum n, l)
  | LCompact k => Some (ODone, (compact k l).2)
  | LEntry i => e ← entry_at i l; Some (OEntry e, l)
  | LTerm i => Some (ONum (term_at i l), l)
  | LLast => e ← last_entry l; Some (OEntry e, l)
  | LNext => Some (ONum (next_slot l), l)
  | LStart => Some (ONum (start_index l), l)
  | LRange x y hint => es ← log_entries_ext x y hint l; Some (OEntries es, l)
  | LReopen => Some (ODone, open_sys_file (startIdx l, nextIdx l) (db l))
  end.

(** Up to and with the entry with which the sizes reach the hint, when there is one. *)
Fixpoint up_to (hint accum : Z) (es : list E) : list E :=
  match es with
  | [] => []
  | e :: es =>
      let accum := u64 (accum + entry_size e) in
      if negb (hint =? 0) && (hint <=? accum) then [e] else e :: up_to hint accum es
  end.

(** The log as its first index and its entries.  It may be compacted from its first index on, also behind its end. *)
Definition log_spec (op : log_op) '((first, es) : Z * list E) : option (log_obs * (Z * list E)) :=
  let next := first + Z.of_nat (length es) in
  match op with
  | LAppend e => if next <? 2 ^ 64 - 1 then Some (ONum next, (first, es ++ [e])) else None
  | LCompact k => if (first - 1 <=? k) && (k <? 2 ^ 64 - 1) then Some (ODone, (k + 1, drop (Z.to_nat (k + 1 - first)) es)) else None
  | LEntry i => if (0 <=? i) && (i <? 2 ^ 64) then Some (OEntry (entry_of first es i), (first, es)) else None
  | LTerm i => if (0 <=? i) && (i <? 2 ^ 64) then Some (ONum (from_option entry_term 0 (entry_of first es i)), (first, es)) else None
  | LLast => Some (OEntry (list.last es), (first, es))
  | LNext => Some (ONum next, (first, es))
  | LStart => Some (ONum first, (first, es))
  | LRange x y hint =>
      if (0 <=? x) && (x <? 2 ^ 64) && (0 <=? y) && (y <? 2 ^ 64) then Some (OEntries (up_to hint 0 (entries_in first es x y)), (first, es)) else None
  | LReopen => Some (ODone, (first, es))
  end.

Definition log_state '((first, es) : Z * list E) (l : log_store D) : Prop := ∃ m, log_is first es m l.

Lemma get_ok first es m l i :
  log_is first es m l → 0 <= i < 2 ^ 64 →
  db_get (log_key i) (db l) =
    match entry_of first es i with Some e => (kOk, serialize e) | None => (kNotFound, (db_get (log_key i) (db l)).2) end.
Proof using HL HR.
  intros Hl Hi. pose proof (log_is_get _ _ _ _ i Hl Hi) as Hg. destruct (db_get_ok m (db l) (log_key i) (li_db _ _ _ _ Hl)) as [Hok Hno].
  pose proof (get_reliable (log_key i) (db l)) as Hr. destruct (db_get (log_key i) (db l)) as [s v]. cbn [fst snd] in *.
  destruct (entry_of first es i) as [e|]; cbn [fmap option_fmap option_map] in Hg; destruct Hr as [->| ->].
  - specialize (Hok eq_refl). congruence.
  - specialize (Hno eq_refl). congruence.
  - specialize (Hok eq_refl). congruence.
  - done.
Qed.

Lemma entry_at_ok first es m l i : log_is first es m l → 0 <= i < 2 ^ 64 → entry_at i l = Some (entry_of first es i).
Proof using HL HR.
  intros Hl Hi. unfold entry_at. rewrite (get_ok first es m l i Hl Hi). destruct (entry_of first es i) as [e|]; [|by rewrite decide_False].
  rewrite decide_True by done. by rewrite deserialize_serialize.
Qed.

Lemma term_at_ok first es m l i : log_is first es m l → 0 <= i < 2 ^ 64 → term_at i l = from_option entry_term 0 (entry_of first es i).
Proof using HL HR.
  intros Hl Hi. unfold term_at. rewrite (get_ok first es m l i Hl Hi). destruct (entry_of first es i) as [e|]; [|by rewrite decide_False].
  rewrite decide_True by done. cbn. apply get_ulong_serialize.
Qed.

Lemma last_entry_ok first es m l : log_is first es m l → last_entry l = Some (list.last es).
Proof using HL HR.
  intros Hl. unfold last_entry. rewrite (li_start _ _ _ _ Hl), (li_next _ _ _ _ Hl). destruct (li_range _ _ _ _ Hl) as [H1 H2]. destruct (decide (es = [])) as [->|Hne].
  - cbn. by rewrite Z.add_0_r, Z.eqb_refl.
  - assert (0 < length es)%nat by (destruct es; cbn; [done|lia]). rewrite (proj2 (Z.eqb_neq _ _)) by lia. rewrite (entry_at_ok first es m) by (done || lia).
    f_equal. unfold entry_of. rewrite (proj2 (Z.ltb_ge _ _)) by lia. rewrite last_lookup. f_equal. lia.
Qed.

Lemma ext_loop_ok hint accum x es : ext_loop hint accum (range_pairs x es) = Some (up_to hint accum es).
Proof using Type.
  unfold range_pairs. revert accum x. induction es as [|e es IH]; intros accum x; [done|]. cbn [imap ext_loop up_to fst snd]. rewrite deserialize_serialize. cbn [mbind option_bind].
  destruct (_ && _); [done|]. assert (E0 : imap ((λ n e, (log_key (x + Z.of_nat n), serialize e)) ∘ S) es = imap (λ n e, (log_key (x + 1 + Z.of_nat n), serialize e)) es).
  { apply imap_ext. intros n e' _. cbn [compose]. do 2 f_equal. lia. }
  rewrite E0, IH. done.
Qed.

Lemma log_append_ok first es m l e :
  log_is first es m l → first + Z.of_nat (length es) < 2 ^ 64 - 1 →
  ∃ l', append e l = (first + Z.of_nat (length es), l') ∧ log_is first (es ++ [e]) (<[log_key (first + Z.of_nat (length es)) := serialize e]> m) l'.
Proof using HL HR.
  intros Hl Hn. destruct (li_range _ _ _ _ Hl) as [H1 H2]. set (next := first + Z.of_nat (length es)) in *. unfold append. rewrite (li_next _ _ _ _ Hl). fold next.
  pose proof (db_put_ok m (db l) (log_key next) (serialize e) (li_db _ _ _ _ Hl)) as Hp. pose proof (put_reliable (log_key next) (serialize e) (db l)) as Hr.
  destruct (db_put _ _ _) as [s d]. cbn [fst snd] in *. destruct Hp as [Hp|[Hp _]]; [|done]. rewrite decide_True by done. eexists. split; [done|].
  assert (Hlen : Z.of_nat (length (es ++ [e])) = Z.of_nat (length es) + 1) by (rewrite length_app; cbn; lia).
  split; cbn [startIdx nextIdx db]; rewrite ?Hlen; try done.
  - apply Hl.
  - rewrite u64_id by lia. unfold next. lia.
  - lia.
  - intros i e' Hi. apply lookup_app_Some in Hi as [Hi|[Hi1 Hi2]].
    + rewrite lookup_insert_ne; [by apply (li_entries _ _ _ _ Hl)|]. apply lookup_lt_Some in Hi. intros Hk. apply log_key_inj in Hk; unfold next in *; lia.
    + apply list_lookup_singleton_Some in Hi2 as [Hi2 <-]. replace (first + Z.of_nat i) with next by (unfold next; lia). by rewrite lookup_insert, decide_True.
  - intros k v. rewrite lookup_insert_Some. intros [[<- <-]|[_ Hk]]; [exists next; unfold next in *; split; [done|lia]|].
    destruct (li_keys _ _ _ _ Hl _ _ Hk) as (i & -> & Hi). exists i. split; [done|lia].
Qed.

(** Deleting a list of keys. *)
Lemma delete_all_ok m (d : D) ids :
  rocks_is m d → ∃ m', rocks_is m' (foldl (λ d ii, (db_delete (log_key ii) d).2) d ids) ∧
    ∀ k, m' !! k = if decide (k ∈ log_key <$> ids) then None else m !! k.
Proof using HL HR.
  revert m d. induction ids as [|i ids IH]; intros m d Hd; [by exists m|]. cbn [foldl]. destruct (db_delete_ok m d (log_key i) Hd) as [Hi|[Hi _]]; [|by destruct Hi; apply delete_reliable].
  destruct (IH _ _ Hi) as (m' & Hm' & Hk). exists m'. split; [done|]. intros k. rewrite Hk, fmap_cons.
  destruct (decide (k ∈ log_key <$> ids)) as [Hin|Hout]; [by rewrite decide_True by (by right)|]. destruct (decide (k = log_key i)) as [->|Hne].
  - rewrite decide_True by (by left). by rewrite lookup_delete, decide_True.
  - rewrite decide_False by (by rewrite elem_of_cons; intros [?|?]). by rewrite lookup_delete_ne.
Qed.

Lemma compact_ok first es m l k :
  log_is first es m l → first - 1 <= k < 2 ^ 64 - 1 → log_state (k + 1, drop (Z.to_nat (k + 1 - first)) es) (compact k l).2.
Proof using HL HR.
  intros Hl Hk. destruct (li_range _ _ _ _ Hl) as [H1 H2]. unfold compact. cbn [snd]. rewrite (li_start _ _ _ _ Hl), (li_next _ _ _ _ Hl).
  destruct (delete_all_ok m (db l) (seqZ first (k - first + 1)) (li_db _ _ _ _ Hl)) as (m' & Hm' & Hlk). exists m'.
  assert (Hlen : Z.of_nat (length (drop (Z.to_nat (k + 1 - first)) es)) = Z.max 0 (Z.of_nat (length es) - (k + 1 - first))) by (rewrite length_drop; lia).
  split; cbn [startIdx nextIdx db]; rewrite ?Hlen; [by rewrite u64_id by lia| |lia|done| |].
  - rewrite !u64_id by lia. destruct (Z.leb_spec (first + Z.of_nat (length es) - 1) k); lia.
  - intros i e Hi. rewrite lookup_drop in Hi. pose proof (lookup_lt_Some _ _ _ Hi). rewrite Hlk, decide_False.
    + rewrite <-(li_entries _ _ _ _ Hl _ _ Hi). f_equal. f_equal. lia.
    + intros (j & Hj & Hin)%list_elem_of_fmap. apply elem_of_seqZ in Hin. apply log_key_inj in Hj; lia.
  - intros key v. rewrite Hlk. destruct (decide _) as [|Hout]; [done|]. intros Hkv. destruct (li_keys _ _ _ _ Hl _ _ Hkv) as (i & -> & Hi). exists i. split; [done|].
    split; [|lia]. destruct (decide (i <= k)); [|lia]. exfalso. apply Hout, list_elem_of_fmap_2, elem_of_seqZ. lia.
Qed.

Lemma log_step op a l o a' : log_state a l → log_spec op a = Some (o, a') → ∃ l', log_exec op l = Some (o, l') ∧ log_state a' l'.
Proof using HL HR HS.
  destruct a as [first es]. intros [m Hl] Hs. destruct (li_range _ _ _ _ Hl) as [H1 H2].
  destruct op as [e|k|i|i| | | |x y hint|]; cbn [log_spec log_exec] in *.
  - destruct (Z.ltb_spec (first + Z.of_nat (length es)) (2 ^ 64 - 1)) as [Hn|]; [|done]. injection Hs as <- <-.
    destruct (log_append_ok first es m l e Hl Hn) as (l' & -> & Hl'). exists l'. split; [done|by eexists].
  - destruct (_ && _) eqn:Eb; [|done]. bool_cases. injection Hs as <- <-. eexists. split; [done|]. by apply (compact_ok first es m l k); [|lia].
  - destruct (_ && _) eqn:Eb; [|done]. bool_cases. injection Hs as <- <-. exists l. rewrite (entry_at_ok first es m) by (done || lia). split; [done|by exists m].
  - destruct (_ && _) eqn:Eb; [|done]. bool_cases. injection Hs as <- <-. exists l. rewrite (term_at_ok first es m) by (done || lia). split; [done|by exists m].
  - injection Hs as <- <-. exists l. rewrite (last_entry_ok first es m) by done. split; [done|by exists m].
  - injection Hs as <- <-. exists l. unfold next_slot. rewrite (li_next _ _ _ _ Hl). split; [done|by exists m].
  - injection Hs as <- <-. exists l. unfold start_index. rewrite (li_start _ _ _ _ Hl). split; [done|by exists m].
  - destruct (_ && _) eqn:Eb; [|done]. bool_cases. injection Hs as <- <-. exists l. unfold log_entries_ext. rewrite (range_ok first es m) by (done || lia).
    rewrite ext_loop_ok. split; [done|by exists m].
  - injection Hs as <- <-. eexists. split; [done|]. exists m. unfold open_sys_file. cbn [fst snd].
    rewrite (li_start _ _ _ _ Hl), (li_next _ _ _ _ Hl), !(proj2 (Z.eqb_neq _ 0)) by lia. by destruct Hl.
Qed.

Lemma log_initial d : rocks_is ∅ d → log_state (1, []) (open_sys_file (0, 0) d).
Proof using Type. intros Hd. exists ∅. split; cbn; [done|done|lia|done|done|]. intros k v. by rewrite lookup_empty. Qed.

(** C34: the log of the raft library is a sequence of entries.  On a new file and an empty database that does not fail, for every program of
    appends, compactions (from the first index on, also past the end), reads of entries, terms, the last entry, ranges with a limit on
    their size, and restarts, everything answered is what the sequence gives: indexes are handed out in order from 1, entries that
    were not compacted are found under their index in every way of reading, and compacted ones are gone. *)
Theorem raft_log_refines (d : D) ops os a :
  rocks_is ∅ d → run_obs log_spec ops (1, []) = Some (os, a) → ∃ l, run_obs log_exec ops (open_sys_file (0, 0) d) = Some (os, l).
Proof using HL HR HS.
  intros Hd Hr. destruct (run_obs_refines log_spec log_exec log_state ops (1, []) (open_sys_file (0, 0) d) os a) as (l & E0 & _); [|by apply log_initial|done|by exists l].
  intros op u t o u' _. apply log_step.
Qed.
End refine.

(** ** A database in memory with sorted scans *)

Definition key_le (a b : list Z * list Z) : Prop := bytes_compare a.1 b.1 ≠ Gt.
#[local] Instance key_le_dec a b : Decision (key_le a b).
Proof. unfold key_le. solve_decision. Defined.

Lemma bytes_compare_eq l1 l2 : bytes_compare l1 l2 = Eq → l1 = l2.
Proof.
  revert l2. induction l1 as [|x l1 IH]; intros [|y l2]; try done. cbn [bytes_compare]. destruct (Z.compare_spec x y) as [->| |]; [|done|done].
  intros Hc. f_equal. by apply IH.
Qed.

#[local] Instance key_le_total : Total key_le.
Proof. intros a b. unfold key_le. rewrite (bytes_compare_asym b.1 a.1). destruct (bytes_compare a.1 b.1); [left|left|right]; done. Qed.

Lemma bytes_compare_trans l1 l2 l3 : bytes_compare l1 l2 ≠ Gt → bytes_compare l2 l3 ≠ Gt → bytes_compare l1 l3 ≠ Gt.
Proof.
  revert l2 l3. induction l1 as [|x l1 IH]; intros [|y l2] [|z l3]; try done. cbn [bytes_compare].
  destruct (Z.compare_spec x y), (Z.compare_spec y z), (Z.compare_spec x z); subst; try done; try lia. apply IH.
Qed.

#[local] Instance key_le_trans : Transitive key_le.
Proof. intros a b c. apply bytes_compare_trans. Qed.

#[local] Instance sorted_rocks : Rocks (gmap (list Z) (list Z)) := {
  db_put k v d := (kOk, <[k := v]> d);
  db_get k d := match d !! k with Some v => (kOk, v) | None => (kNotFound, []) end;
  db_delete k d := (kOk, delete k d);
  db_range lo hi d := merge_sort key_le (filter (λ kv, in_scan (lo, hi) kv.1 = true) (map_to_list d)) }.

#[local] Instance sorted_rocks_laws : RocksLaws (gmap (list Z) (list Z)) eq.
Proof.
  split.
  - by intros m m' d -> ->.
  - intros m d k v ->. by left.
  - intros m d k ->. cbn. by destruct (d !! k).
  - intros m d k ->. by left.
  - intros m d lo hi k v ->. cbn. rewrite merge_sort_Permutation, list_elem_of_filter, elem_of_map_to_list. tauto.
Qed.

#[local] Instance sorted_rocks_reliable : RocksReliable (gmap (list Z) (list Z)).
Proof. split; [done| |done]. intros k d. cbn. destruct (d !! k); [by left|by right]. Qed.

Lemma sorted_strict l : StronglySorted key_le l → NoDup l.*1 → StronglySorted key_lt l.
Proof.
  induction 1 as [|a l _ IH Ha]; intros Hn; [constructor|]. rewrite fmap_cons in Hn. apply list.NoDup_cons in Hn as [Hna Hn]. constructor; [by apply IH|].
  apply list.Forall_forall. intros b Hb. rewrite list.Forall_forall in Ha. specialize (Ha b Hb). unfold key_le, key_lt in *.
  destruct (bytes_compare a.1 b.1) eqn:E; [|done|done]. exfalso. apply Hna. rewrite (bytes_compare_eq _ _ E). by apply list_elem_of_fmap_2.
Qed.

#[local] Instance sorted_rocks_sorted : RocksSorted (gmap (list Z) (list Z)) eq.
Proof.
  intros m d lo hi ->. cbn. apply sorted_strict; [by apply (StronglySorted_merge_sort key_le)|]. rewrite merge_sort_Permutation.
  apply (sublist_NoDup _ (map_to_list d).*1); [apply NoDup_fst_map_to_list|]. apply fmap_sublist, sublist_filter.
Qed.

(** Entries of a term and bytes: the term first, as the raft library lays them out. *)
#[local] Instance demo_codec : EntryCodec (Z * list Z).
Proof.
  refine {| serialize e := e.1 :: e.2; deserialize l := match l with t :: r => Some (t, r) | [] => None end;
            get_ulong l := List.hd 0 l; entry_term e := e.1; entry_size e := Z.of_nat (length e.2) |}.
  - by intros [t r].
  - by intros [t r].
Defined.

Definition demo_log_ops : list (@log_op (Z * list Z)) :=
  [LAppend (1, [7]); LAppend (1, [8; 9]); LAppend (2, [5]); LCompact 1; LEntry 1; LEntry 2; LTerm 3; LLast; LReopen; LStart; LNext; LRange 1 4 0; LRange 2 4 2;
   LCompact 9; LLast; LAppend (3, [])].

Lemma raft_log_refines_witness :
  ∃ l, run_obs log_exec demo_log_ops (open_sys_file (0, 0) (∅ : gmap (list Z) (list Z))) =
    Some ([ONum 1; ONum 2; ONum 3; ODone; OEntry None; OEntry (Some (1, [8; 9])); ONum 2; OEntry (Some (2, [5])); ODone; ONum 2; ONum 4;
           OEntries [(1, [8; 9]); (2, [5])]; OEntries [(1, [8; 9])]; ODone; OEntry None; ONum 10], l).
Proof. by eapply (raft_log_refines (rocks_is := eq) ∅); [|vm_compute]. Defined.

(** ** What the log does outside of it *)

Section outside.
Context {D E : Type} `{Rocks D} `{HC : EntryCodec E}.
Implicit Types l : log_store D.

(** A failing database: index 0 is answered and no index is used. *)
Lemma append_error e l s d :
  db_put (log_key (nextIdx l)) (serialize e) (db l) = (s, d) → s ≠ kOk → append e l = (0, Build_log_store (startIdx l) (nextIdx l) d).
Proof using Type. intros E0 Hs. unfold append. rewrite E0. by rewrite decide_False. Qed.

(** An entry written over another one leaves the indexes alone: what came after it stays in the log. *)
Lemma write_at_keeps i e l : next_slot (write_at i e l) = next_slot l ∧ start_index (write_at i e l) = start_index l.
Proof using Type. done. Qed.

(** Null pointers come first in a batch, one for every index asked for. *)
Lemma log_entries_nulls x y l es :
  0 <= x <= y → y < 2 ^ 64 → log_entries x y l = Some es → take (Z.to_nat (y - x)) es = replicate (Z.to_nat (y - x)) None.
Proof using Type.
  intros Hx Hy Hl. unfold log_entries in Hl. apply bind_Some in Hl as (es' & _ & [= <-]). rewrite u64_id by lia. by rewrite take_app_length' by (by rewrite length_replicate).
Qed.

(** So a pack of at least one entry never succeeds. *)
Lemma pack_fails index cnt l : 0 <= index → 0 < cnt < 2 ^ 31 → index + cnt < 2 ^ 64 → pack index cnt l = None.
Proof using Type.
  intros Hi Hc Hs. unfold pack. destruct (log_entries index (u64 (index + cnt)) l) as [es|] eqn:El; [|done]. cbn [mbind option_bind].
  rewrite u64_id in El by lia. apply log_entries_nulls in El; [|lia..]. replace (index + cnt - index) with cnt in El by lia.
  replace (Z.to_nat cnt) with (S (Z.to_nat (cnt - 1))) in * by lia. destruct es as [|[e|] es]; [done|done|]. done.
Qed.

(** An empty log ignores a pack; another one does not return from it. *)
Lemma apply_pack_ignored index n l : startIdx l = nextIdx l → apply_pack index n l = Some l.
Proof using Type. intros E0. unfold apply_pack. by rewrite E0, Z.eqb_refl. Qed.

Lemma apply_pack_blocks index n l : startIdx l ≠ nextIdx l → startIdx l <= index <= nextIdx l → 0 < n → apply_pack index n l = None.
Proof using Type.
  intros Hne Hi Hn. unfold apply_pack. rewrite (proj2 (Z.eqb_neq _ _)) by done. rewrite !(proj2 (Z.ltb_ge _ _)) by lia. cbn. by rewrite (proj2 (Z.ltb_lt 0 n)).
Qed.

(** A compaction below the first index moves it back to entries that are gone. *)
Lemma compact_back k l : 0 <= k < startIdx l → startIdx l < 2 ^ 64 → startIdx (compact k l).2 = k + 1 ∧ db (compact k l).2 = db l.
Proof using Type.
  intros Hk Hs. unfold compact. cbn [snd startIdx db]. rewrite u64_id by lia. split; [done|]. by rewrite seqZ_nil by lia.
Qed.
End outside.
