(* ===== verification/StatInfo.v ===== *)
(** * Statistics of the servers

    src/src/meta/stat_info.{h,cc}, and [setStatInfo] and [getStatInfo] of src/src/meta/sys_mgr.cc: numbers for every namespace of a server,
    their bytes in a [DataBuffer], their sums over servers, and their text.  A detail is its vector of signed 64-bit numbers; the maps of
    the code are finite maps that are gone through in the order of their keys.  [None] is an access outside of a vector or of
    [format_str], or a failed assertion of the buffer. *)
From S2P Require Import Prelude Buffers Strings.

(** *** Numbers of a namespace *)

Definition get_unit_value (d : list Z) (unit_index : Z) : Z :=
  if Z.of_nat (length d) <=? unit_index then 0 else u64 (default 0 (d !! Z.to_nat unit_index)).

(** [resize] with zeros; the new size is computed in 32 bits. *)
Definition resize0 (n : nat) (d : list Z) : list Z := take n d ++ replicate (n - length d) 0.
Definition set_unit_value (unit_index v : Z) (d : list Z) : option (list Z) :=
  let d := if Z.of_nat (length d) <=? unit_index then resize0 (Z.to_nat (u32 (unit_index + 1))) d else d in
  _ ← assert_that (unit_index <? Z.of_nat (length d));
  Some (<[Z.to_nat unit_index := v]> d).

Definition add_unit_value (unit_index v : Z) (d : list Z) : option (list Z) :=
  set_unit_value unit_index (i64 (v + get_unit_value d unit_index)) d.

Definition update_stat_info_detail (sv d : list Z) : option (list Z) :=
  run_all (λ i d, add_unit_value (Z.of_nat i) (default 0 (sv !! i)) d) (seq 0 (length sv)) d.

Definition insert_stat_info_detail (sv d : list Z) : option (list Z) :=
  run_all (λ i d, set_unit_value (Z.of_nat i) (default 0 (sv !! i)) d) (seq 0 (length sv)) (resize0 (length sv) d).

(** *** Numbers of a server *)

Record node_stat := { last_update_time : Z; data_holder : gmap Z (list Z) }.
Definition NodeStatInfo_new : node_stat := {| last_update_time := 0; data_holder := ∅ |}.
Definition setLastUpdateTime (t : Z) (n : node_stat) : node_stat := {| last_update_time := t; data_holder := data_holder n |}.
Definition set_holder (m : gmap Z (list Z)) (n : node_stat) : node_stat := {| last_update_time := last_update_time n; data_holder := m |}.
Definition node_clear (n : node_stat) : node_stat := set_holder ∅ n.

(** A map in the order of its keys. *)
Definition fst_le {A} (a b : Z * A) : Prop := a.1 <= b.1.
#[export] Instance fst_le_dec {A} (a b : Z * A) : Decision (fst_le a b).
Proof. unfold fst_le. apply _. Defined.
Definition in_order {A} (m : gmap Z A) : list (Z * A) := merge_sort fst_le (map_to_list m).

(** [data_holder[area]] makes an empty detail for a new namespace. *)
Definition insert_stat_detail (area : Z) (detail : list Z) (n : node_stat) : option node_stat :=
  d ← insert_stat_info_detail detail (default [] (data_holder n !! area)); Some (set_holder (<[area := d]> (data_holder n)) n).
Definition update_area (area : Z) (detail : list Z) (n : node_stat) : option node_stat :=
  d ← update_stat_info_detail detail (default [] (data_holder n !! area)); Some (set_holder (<[area := d]> (data_holder n)) n).

Definition update_stat_info (rv n : node_stat) : option node_stat :=
  n ← run_all (λ kv, update_area kv.1 kv.2) (in_order (data_holder rv)) n;
  Some (setLastUpdateTime (last_update_time rv) n).

(** *** Bytes *)

Section bytes.
Context (junk : nat → Z).

Definition detail_encode (d : list Z) (b : data_buffer) : option data_buffer :=
  b ← writeInt32 junk b (u32 (Z.of_nat (length d))); writeAll (writeInt64 junk) b d.

Fixpoint encode_areas (l : list (Z * list Z)) (b : data_buffer) : option data_buffer :=
  match l with
  | [] => Some b
  | (area, d) :: l => b ← writeInt32 junk b area; b ← detail_encode d b; encode_areas l b
  end.
Definition node_encode (n : node_stat) (b : data_buffer) : option data_buffer :=
  b ← writeInt32 junk b (u32 (Z.of_nat (size (data_holder n)))); encode_areas (in_order (data_holder n)) b.
End bytes.

Definition detail_decode (b : data_buffer) : option (list Z * data_buffer) :=
  '(size, b) ← readInt32 b; readAll readInt64 i64 (Z.to_nat size) b.

Fixpoint decode_areas (n : nat) (m : gmap Z (list Z)) (b : data_buffer) : option (gmap Z (list Z) * data_buffer) :=
  match n with
  | O => Some (m, b)
  | S n => '(area, b) ← readInt32 b; '(info, b) ← detail_decode b; decode_areas n (<[area := info]> m) b
  end.
Definition node_decode (b : data_buffer) (n : node_stat) : option (node_stat * data_buffer) :=
  '(size, b) ← readInt32 b; '(m, b) ← decode_areas (Z.to_nat size) ∅ b; Some (set_holder m n, b).

(** *** Text *)

Definition format_str : list (list Z) :=
  [[100; 97; 116; 97; 83; 105; 122; 101]; [117; 115; 101; 83; 105; 122; 101]; [105; 116; 101; 109; 67; 111; 117; 110; 116]].

(** [snprintf] into a buffer of [n] bytes. *)
Definition snprintf (n : nat) (s : list Z) : list Z := take (n - 1) s.

(** Both [format_detail] with a prefix and [format_total_detail]; the value has a letter u behind its digits. *)
Definition format_detail (prefix d : list Z) (m : gmap (list Z) (list Z)) : option (gmap (list Z) (list Z)) :=
  run_all (λ i m, name ← format_str !! i;
     Some (<[snprintf 200 (prefix ++ [32] ++ name) := snprintf 50 (to_string (default 0 (d !! i)) ++ [117])]> m)) (seq 0 (length d)) m.
Definition format_detail_numbers (d : list Z) (m : gmap (list Z) Z) : option (gmap (list Z) Z) :=
  run_all (λ i m, name ← format_str !! i; Some (<[name := default 0 (d !! i)]> m)) (seq 0 (length d)) m.

(** Both [format_info] and [format_total_info]. *)
Definition format_info (n : node_stat) (m : gmap (list Z) (list Z)) : option (gmap (list Z) (list Z)) :=
  run_all (λ kv m, format_detail (snprintf 20 (to_string kv.1)) kv.2 m) (in_order (data_holder n)) m.

(** *** All servers *)

Definition setStatInfo (server_id : Z) (node_info : node_stat) (statInfo : gmap Z node_stat) : gmap Z node_stat :=
  if server_id =? 0 then statInfo else <[server_id := node_info]> statInfo.

Definition getStatInfo (server_id : Z) (available : gset Z) (statInfo : gmap Z node_stat) (node_info : node_stat) : option node_stat :=
  if server_id =? 0 then
    run_all (λ kv n, if decide (kv.1 ∈ available) then update_stat_info kv.2 n else Some n) (in_order statInfo) node_info
  else match statInfo !! server_id with Some s => update_stat_info s node_info | None => Some node_info end.
