(* ===== verification/StatSpec.v ===== *)
(** * Statistics: sums over the servers, and their bytes *)
From S2P Require Import Prelude Buffers BufferSpec Strings StatInfo.

(** ** Signed 64-bit numbers *)

Definition is_i64 (x : Z) : Prop := - 2 ^ 63 <= x < 2 ^ 63.

Lemma i64_range x : is_i64 (i64 x).
Proof. unfold is_i64, i64. pose proof (Z.mod_pos_bound x (2 ^ 64)). destruct (Z.ltb_spec (x mod 2 ^ 64) (2 ^ 63)); lia. Qed.

Lemma i64_id x : is_i64 x → i64 x = x.
Proof.
  unfold is_i64, i64. intros Hx. destruct (decide (0 <= x)).
  - rewrite Z.mod_small by lia. destruct (Z.ltb_spec x (2 ^ 63)); lia.
  - replace (x mod 2 ^ 64) with (x + 2 ^ 64) by (apply (Z.mod_unique _ _ (-1)); lia). destruct (Z.ltb_spec (x + 2 ^ 64) (2 ^ 63)); lia.
Qed.

Lemma i64_mod a b : a mod 2 ^ 64 = b mod 2 ^ 64 → i64 a = i64 b.
Proof. unfold i64. by intros ->. Qed.

Lemma mod_i64 a : i64 a mod 2 ^ 64 = a mod 2 ^ 64.
Proof.
  unfold i64. destruct (_ <? _); [by rewrite Z.mod_mod|]. rewrite Zminus_mod, Z_mod_same_full, Z.sub_0_r, !Z.mod_mod by lia. done.
Qed.

Lemma i64_add a b : i64 (i64 a + b) = i64 (a + b).
Proof. apply i64_mod. rewrite Zplus_mod, mod_i64, <-Zplus_mod. done. Qed.

Lemma i64_add_u64 a b : i64 (a + u64 b) = i64 (a + b).
Proof. apply i64_mod. unfold u64. by rewrite Zplus_mod_idemp_r. Qed.

(** ** Numbers of a namespace *)

Definition unit_of (d : list Z) (j : nat) : Z := default 0 (d !! j).

Lemma lookup_resize0 n d j : unit_of (resize0 n d) j = if decide (j < n)%nat then unit_of d j else 0.
Proof.
  unfold unit_of, resize0. destruct (decide (j < n)%nat) as [Hj|Hj].
  - destruct (decide (j < length d)%nat) as [Hd|Hd].
    + rewrite lookup_app_l by (rewrite length_take; lia). by rewrite lookup_take_lt.
    + rewrite lookup_app_r by (rewrite length_take; lia). rewrite (lookup_ge_None_2 d) by lia. rewrite lookup_replicate_2; [done|]. rewrite length_take. lia.
  - rewrite lookup_ge_None_2; [done|]. rewrite length_app, length_take, length_replicate. lia.
Qed.

Lemma length_resize0 n d : length (resize0 n d) = n.
Proof. unfold resize0. rewrite length_app, length_take, length_replicate. lia. Qed.

Lemma set_unit_ok i v d :
  Z.of_nat i < 2 ^ 32 - 1 →
  ∃ d', set_unit_value (Z.of_nat i) v d = Some d' ∧ length d' = (length d `max` S i)%nat ∧ ∀ j, unit_of d' j = if decide (j = i) then v else unit_of d j.
Proof.
  intros Hi. unfold set_unit_value. set (d1 := if _ : bool then _ else _).
  assert (length d1 = (length d `max` S i)%nat ∧ ∀ j, unit_of d1 j = unit_of d j) as [Hlen Hu].
  { unfold d1. destruct (Z.leb_spec (Z.of_nat (length d)) (Z.of_nat i)) as [Hl|Hl]; [|split; [lia|done]].
    rewrite u32_id by (unfold is_u32; lia). split; [rewrite length_resize0; lia|]. intros j. rewrite lookup_resize0. destruct (decide _) as [|Hj]; [done|].
    unfold unit_of. by rewrite lookup_ge_None_2 by lia. }
  rewrite (proj2 (Z.ltb_lt _ _)) by lia. cbn [assert_that mbind option_bind]. rewrite Nat2Z.id. eexists. split; [done|].
  split; [by rewrite length_insert|]. intros j. rewrite <-Hu. unfold unit_of. destruct (decide (j = i)) as [->|Hne].
  - by rewrite list_lookup_insert_eq by lia.
  - by rewrite list_lookup_insert_ne.
Qed.

Lemma get_unit_ok d i : get_unit_value d (Z.of_nat i) = u64 (unit_of d i).
Proof.
  unfold get_unit_value, unit_of. rewrite Nat2Z.id. destruct (Z.leb_spec (Z.of_nat (length d)) (Z.of_nat i)); [|done].
  by rewrite lookup_ge_None_2 by lia.
Qed.

(** The numbers of another detail are added, with the wrap of 64 bits. *)
Lemma update_detail_upto sv d k :
  Z.of_nat (length sv) < 2 ^ 32 → (k <= length sv)%nat →
  ∃ d', run_all (λ i d, add_unit_value (Z.of_nat i) (default 0 (sv !! i)) d) (seq 0 k) d = Some d' ∧ length d' = (length d `max` k)%nat ∧
    ∀ j, unit_of d' j = if decide (j < k)%nat then i64 (unit_of d j + unit_of sv j) else unit_of d j.
Proof.
  intros Hsv. induction k as [|k IH]; intros Hk; [by exists d; split; [|split; [cbn; lia|]]|]. destruct IH as (d1 & Hr & Hl & Hu); [lia|].
  rewrite seq_S, run_all_app, Hr. cbn [run_all mbind option_bind Nat.add]. unfold add_unit_value. rewrite get_unit_ok.
  destruct (set_unit_ok k (i64 (default 0 (sv !! k) + u64 (unit_of d1 k))) d1) as (d2 & -> & Hl2 & Hu2); [lia|]. exists d2. split; [done|].
  split; [lia|]. intros j. rewrite Hu2. destruct (decide (j = k)) as [->|Hne].
  - rewrite decide_True by lia. rewrite i64_add_u64, Hu, decide_False by lia. f_equal. unfold unit_of. lia.
  - rewrite Hu. destruct (decide (j < k)%nat); [by rewrite decide_True by lia|by rewrite decide_False by lia].
Qed.

Lemma update_detail_ok sv d :
  Z.of_nat (length sv) < 2 ^ 32 → (∀ j, is_i64 (unit_of d j)) →
  ∃ d', update_stat_info_detail sv d = Some d' ∧ length d' = (length d `max` length sv)%nat ∧ ∀ j, unit_of d' j = i64 (unit_of d j + unit_of sv j).
Proof.
  intros Hsv Hd. destruct (update_detail_upto sv d (length sv) Hsv) as (d' & Hr & Hl & Hu); [lia|]. exists d'. split; [done|]. split; [done|]. intros j. rewrite Hu.
  destruct (decide _); [done|]. unfold unit_of at 3. rewrite (lookup_ge_None_2 sv) by lia. cbn. rewrite Z.add_0_r. symmetry. apply i64_id, Hd.
Qed.

(** [insert_stat_info_detail] makes the detail the other one. *)
Lemma insert_detail_ok sv d : Z.of_nat (length sv) < 2 ^ 32 → insert_stat_info_detail sv d = Some sv.
Proof.
  intros Hsv. unfold insert_stat_info_detail.
  assert (Hup : ∀ k, (k <= length sv)%nat → ∃ d', run_all (λ i d, set_unit_value (Z.of_nat i) (default 0 (sv !! i)) d) (seq 0 k) (resize0 (length sv) d) = Some d' ∧
    length d' = length sv ∧ ∀ j, (j < k)%nat → unit_of d' j = unit_of sv j).
  { induction k as [|k IH]; intros Hk; [eexists; split; [done|]; split; [apply length_resize0|lia]|]. destruct IH as (d1 & Hr & Hl & Hu); [lia|].
    rewrite seq_S, run_all_app, Hr. cbn [run_all mbind option_bind Nat.add].
    destruct (set_unit_ok k (default 0 (sv !! k)) d1) as (d2 & -> & Hl2 & Hu2); [lia|]. exists d2. split; [done|]. split; [lia|]. intros j Hj. rewrite Hu2.
    destruct (decide (j = k)) as [->|]; [done|]. apply Hu. lia. }
  destruct (Hup (length sv)) as (d' & -> & Hl & Hu); [lia|]. f_equal. apply (list_eq_same_length _ _ (length sv)); [done|done|].
  intros j x y Hj Hx Hy. specialize (Hu j Hj). unfold unit_of in Hu. by rewrite Hx, Hy in Hu.
Qed.

(** ** Numbers of a server *)

Definition node_unit (n : node_stat) (a : Z) (j : nat) : Z := unit_of (default [] (data_holder n !! a)) j.

(** Details that the code can hold. *)
Definition node_ok (n : node_stat) : Prop := ∀ a d, data_holder n !! a = Some d → Z.of_nat (length d) < 2 ^ 32 ∧ Forall is_i64 d.

Lemma in_order_perm {A} (m : gmap Z A) : in_order m ≡ₚ map_to_list m.
Proof. apply merge_sort_Permutation. Qed.

Lemma in_order_nodup {A} (m : gmap Z A) : NoDup (in_order m).*1.
Proof. rewrite in_order_perm. apply NoDup_fst_map_to_list. Qed.

Lemma in_order_elem {A} (m : gmap Z A) k x : (k, x) ∈ in_order m ↔ m !! k = Some x.
Proof. rewrite in_order_perm. apply elem_of_map_to_list. Qed.

Lemma in_order_map {A} (m : gmap Z A) : list_to_map (in_order m) = m.
Proof. rewrite (list_to_map_proper _ (map_to_list m)); [apply list_to_map_to_list|apply in_order_nodup|apply in_order_perm]. Qed.

Definition nodes_i64 (n : node_stat) : Prop := ∀ a j, is_i64 (node_unit n a j).

Lemma update_area_ok area d n :
  Z.of_nat (length d) < 2 ^ 32 → nodes_i64 n →
  ∃ n', update_area area d n = Some n' ∧ nodes_i64 n' ∧
    ∀ a j, node_unit n' a j = if decide (a = area) then i64 (node_unit n a j + unit_of d j) else node_unit n a j.
Proof.
  intros Hd Hn. destruct (update_detail_ok d (default [] (data_holder n !! area)) Hd) as (d' & Hu & _ & Hv); [intros j; apply Hn|].
  unfold update_area. rewrite Hu. cbn [mbind option_bind]. eexists. split; [done|]. apply and_wlog_l; [intros Hall a j; rewrite Hall; destruct (decide _); [apply i64_range|apply Hn]|].
  intros a j. unfold node_unit. cbn [set_holder data_holder]. destruct (decide (a = area)) as [->|Hne].
  - rewrite lookup_insert, decide_True by done. apply Hv.
  - by rewrite lookup_insert_ne.
Qed.

Lemma update_areas_ok (l : list (Z * list Z)) n :
  NoDup l.*1 → Forall (λ kv, Z.of_nat (length kv.2) < 2 ^ 32) l → nodes_i64 n →
  ∃ n', run_all (λ kv, update_area kv.1 kv.2) l n = Some n' ∧ nodes_i64 n' ∧
    ∀ a j, node_unit n' a j = i64 (node_unit n a j + unit_of (default [] ((list_to_map l : gmap Z (list Z)) !! a)) j).
Proof.
  revert n. induction l as [|[area d] l IH]; intros n Hnd Hl Hn; cbn [run_all fst snd].
  { exists n. split; [done|]. split; [done|]. intros a j. cbn. rewrite lookup_empty. cbn. rewrite Z.add_0_r. symmetry. apply i64_id, Hn. }
  rewrite fmap_cons in Hnd. apply list.NoDup_cons in Hnd as [Hna Hnd]. apply list.Forall_cons in Hl as [Hd Hl]. cbn [fst snd] in *.
  destruct (update_area_ok area d n Hd Hn) as (n1 & -> & Hn1 & Hu1). rewrite bind_Some_eq. destruct (IH n1 Hnd Hl Hn1) as (n2 & -> & Hn2 & Hu2). exists n2. split; [done|]. split; [done|].
  intros a j. rewrite Hu2, Hu1. cbn [list_to_map]. rewrite list_to_map_cons. destruct (decide (a = area)) as [->|Hne].
  - rewrite i64_add, lookup_insert, decide_True by done. rewrite not_elem_of_list_to_map_1 by done. change (unit_of (default [] None) j) with 0. f_equal. cbn [default id]. apply Z.add_0_r.
  - by rewrite lookup_insert_ne.
Qed.

Lemma update_stat_ok rv n :
  node_ok rv → nodes_i64 n →
  ∃ n', update_stat_info rv n = Some n' ∧ nodes_i64 n' ∧ last_update_time n' = last_update_time rv ∧
    ∀ a j, node_unit n' a j = i64 (node_unit n a j + node_unit rv a j).
Proof.
  intros Hrv Hn. destruct (update_areas_ok (in_order (data_holder rv)) n) as (n' & Hr & Hn' & Hu); [apply in_order_nodup| |done|].
  - apply list.Forall_forall. intros [a d] Hin. apply in_order_elem in Hin. by apply (Hrv a).
  - unfold update_stat_info. rewrite Hr. cbn [mbind option_bind]. eexists. split; [done|]. split; [exact Hn'|]. split; [done|].
    intros a j. rewrite in_order_map in Hu. apply Hu.
Qed.

(** ** Sums over the servers *)

Definition Zsum (l : list Z) : Z := foldr Z.add 0 l.

Lemma get_all_ok (available : gset Z) (l : list (Z * node_stat)) n :
  Forall (λ kv, node_ok kv.2) l → nodes_i64 n →
  let l' := (filter (λ kv : Z * node_stat, kv.1 ∈ available) l).*2 in
  ∃ n', run_all (λ kv n, if decide (kv.1 ∈ available) then update_stat_info kv.2 n else Some n) l n = Some n' ∧
    last_update_time n' = from_option last_update_time (last_update_time n) (list.last l') ∧
    ∀ a j, node_unit n' a j = i64 (node_unit n a j + Zsum ((λ s, node_unit s a j) <$> l')).
Proof.
  revert n. induction l as [|[id s] l IH]; intros n Hl Hn l'; cbn [run_all fst snd].
  { exists n. split; [done|]. split; [done|]. intros a j. cbn. rewrite Z.add_0_r. symmetry. apply i64_id, Hn. }
  apply list.Forall_cons in Hl as [Hs Hl]. cbn [fst snd] in Hs. subst l'. rewrite filter_cons. cbn [fst]. destruct (decide (id ∈ available)) as [Hin|Hout].
  - destruct (update_stat_ok s n Hs Hn) as (n1 & -> & Hn1 & Ht1 & Hu1). rewrite bind_Some_eq. destruct (IH n1 Hl Hn1) as (n2 & -> & Ht2 & Hu2). exists n2. split; [done|].
    rewrite fmap_cons. cbn [snd]. split.
    + rewrite Ht2, last_cons. destruct (list.last _); [done|]. exact Ht1.
    + intros a j. rewrite Hu2, Hu1, i64_add. cbn [fmap list_fmap Zsum foldr]. f_equal. unfold Zsum. cbn. lia.
  - rewrite bind_Some_eq. by apply IH.
Qed.

(** The statistics of the cluster are the sums over its servers.  For every namespace and every number of it, what is asked for all
    servers is the sum of what the servers in the list of available ones reported, with the wrap of signed 64-bit numbers and 0 for
    numbers a server did not report; the time is that of the last such server in the order of the identifiers. *)
Lemma cluster_stat_sums (available : gset Z) (statInfo : gmap Z node_stat) :
  map_Forall (λ _, node_ok) statInfo →
  let ss := (filter (λ kv : Z * node_stat, kv.1 ∈ available) (in_order statInfo)).*2 in
  ∃ n, getStatInfo 0 available statInfo NodeStatInfo_new = Some n ∧
    last_update_time n = from_option last_update_time 0 (list.last ss) ∧ ∀ a j, node_unit n a j = i64 (Zsum ((λ s, node_unit s a j) <$> ss)).
Proof.
  intros Hok. unfold getStatInfo. cbn [Z.eqb]. apply (get_all_ok available (in_order statInfo) NodeStatInfo_new).
  - apply list.Forall_forall. intros [id s] Hin. apply in_order_elem in Hin. by apply (Hok id).
  - intros a j. unfold node_unit. cbn [NodeStatInfo_new data_holder]. rewrite lookup_empty. change (is_i64 0). unfold is_i64. lia.
Qed.

(** ** Bytes *)

Lemma readAll64_ok v b rest :
  Forall is_i64 v → wf_buf b → contents b = mjoin (be_bytes 8 <$> v) ++ rest →
  ∃ b', readAll readInt64 i64 (length v) b = Some (v, b') ∧ wf_buf b' ∧ contents b' = rest.
Proof.
  intros Hv. revert b. induction Hv as [|x v Hx Hv IH]; intros b Hb Hc; cbn [readAll length]; [by exists b|].
  cbn in Hc. rewrite <-app_assoc in Hc. destruct (readInt_ok b (be_bytes 8 x) _ Hb Hc) as (b1 & Hr & (Hw1 & _) & Hc1).
  rewrite length_be_bytes in Hr. change (readInt64 b) with (readInt (Z.of_nat 8) b). rewrite Hr, bind_Some_eq, be_value_bytes.
  destruct (IH b1 Hw1 Hc1) as (b2 & -> & Hw2 & Hc2). rewrite bind_Some_eq. exists b2. split; [|done].
  rewrite (i64_mod _ x) by (apply Z.mod_mod; lia). by rewrite i64_id.
Qed.

Definition detail_bytes (d : list Z) : list Z := be_bytes 4 (Z.of_nat (length d)) ++ mjoin (be_bytes 8 <$> d).
Definition areas_bytes (l : list (Z * list Z)) : list Z := mjoin ((λ kv, be_bytes 4 kv.1 ++ detail_bytes kv.2) <$> l).

Lemma length_detail_bytes d : length (detail_bytes d) = (4 + 8 * length d)%nat.
Proof. unfold detail_bytes. by rewrite length_app, length_be_bytes, length_join_bytes. Qed.

Lemma areas_bytes_cons a d l : areas_bytes ((a, d) :: l) = be_bytes 4 a ++ detail_bytes d ++ areas_bytes l.
Proof. unfold areas_bytes. cbn. by rewrite <-app_assoc. Qed.

Lemma length_areas_bytes l : (length l <= length (areas_bytes l))%nat.
Proof. induction l as [|[a d] l IH]; [done|]. rewrite areas_bytes_cons, !length_app, length_be_bytes. cbn [length]. lia. Qed.

Section bytes.
Context (junk : nat → Z) (Hjunk : ∀ i, is_u8 (junk i)).

Lemma detail_encode_ok d b :
  wf_buf b → pfree b + Z.of_nat (length (detail_bytes d)) <= size_limit → ∃ b', detail_encode junk d b = Some b' ∧ appended b (detail_bytes d) b'.
Proof using Hjunk.
  intros Hb Hsz. rewrite length_detail_bytes in Hsz. apply writeVector_ok; [done| |done|lia|lia]. intros b0 n Hw Hn. apply writeInt64_ok; [done|done|lia].
Qed.

Lemma encode_areas_ok l b :
  wf_buf b → pfree b + Z.of_nat (length (areas_bytes l)) <= size_limit → ∃ b', encode_areas junk l b = Some b' ∧ appended b (areas_bytes l) b'.
Proof using Hjunk.
  revert b. induction l as [|[a d] l IH]; intros b Hb Hsz; cbn [encode_areas].
  { exists b. split; [done|]. split; [done|]. split; [by rewrite app_nil_r|]. split; [cbn; lia|done]. }
  rewrite areas_bytes_cons in *. rewrite !length_app, length_be_bytes in Hsz.
  destruct (writeInt32_ok junk Hjunk b a Hb) as (b1 & -> & Ha1); [lia|]. rewrite bind_Some_eq. pose proof Ha1 as (Hw1 & _ & Hf1 & _). rewrite length_be_bytes in Hf1.
  destruct (detail_encode_ok d b1 Hw1) as (b2 & -> & Ha2); [lia|]. rewrite bind_Some_eq. pose proof Ha2 as (Hw2 & _ & Hf2 & _).
  destruct (IH b2 Hw2) as (b3 & -> & Ha3); [lia|]. exists b3. split; [done|]. eapply appended_trans; [done|]. by eapply appended_trans.
Qed.
End bytes.

Lemma detail_decode_ok d b rest :
  Forall is_i64 d → Z.of_nat (length d) < 2 ^ 32 → wf_buf b → contents b = detail_bytes d ++ rest →
  ∃ b', detail_decode b = Some (d, b') ∧ wf_buf b' ∧ contents b' = rest.
Proof.
  intros Hd Hl Hb Hc. unfold detail_bytes in Hc. rewrite <-app_assoc in Hc. unfold detail_decode.
  destruct (readInt_bytes 4 b (Z.of_nat (length d)) _ Hb Hc) as (b1 & Hr & Hw1 & Hc1); [lia|].
  change (readInt32 b) with (readInt (Z.of_nat 4) b). rewrite Hr, bind_Some_eq, Nat2Z.id. by apply readAll64_ok.
Qed.

Lemma decode_areas_ok l m b rest :
  Forall (λ kv, 0 <= kv.1 < 2 ^ 32 ∧ Z.of_nat (length kv.2) < 2 ^ 32 ∧ Forall is_i64 kv.2) l → wf_buf b → contents b = areas_bytes l ++ rest →
  ∃ b', decode_areas (length l) m b = Some (foldl (λ m kv, <[kv.1 := kv.2]> m) m l, b') ∧ wf_buf b' ∧ contents b' = rest.
Proof.
  intros Hl. revert m b. induction Hl as [|[a d] l (Ha & Hd & Hi) Hl IH]; intros m b Hb Hc; cbn [decode_areas length foldl]; [by exists b|]. cbn [fst snd] in *.
  rewrite areas_bytes_cons, <-app_assoc in Hc. destruct (readInt_bytes 4 b a _ Hb Hc) as (b1 & Hr & Hw1 & Hc1); [lia|].
  change (readInt32 b) with (readInt (Z.of_nat 4) b). rewrite Hr, bind_Some_eq. rewrite <-app_assoc in Hc1.
  destruct (detail_decode_ok d b1 _ Hi Hd Hw1 Hc1) as (b2 & -> & Hw2 & Hc2). rewrite bind_Some_eq. by apply IH.
Qed.

(** Reading in the order of the keys what was written makes the map again. *)
Lemma fold_in_order (m : gmap Z (list Z)) : foldl (λ m kv, <[kv.1 := kv.2]> m) ∅ (in_order m) = m.
Proof.
  assert (Hg : ∀ (l : list (Z * list Z)) (m0 : gmap Z (list Z)), NoDup l.*1 → foldl (λ m kv, <[kv.1 := kv.2]> m) m0 l = list_to_map l ∪ m0).
  { induction l as [|[k x] l IH]; intros m0 Hn; cbn [foldl fst snd]; [by rewrite list_to_map_nil, (left_id_L ∅ (∪))|]. rewrite fmap_cons in Hn. apply list.NoDup_cons in Hn as [Hk Hn].
    rewrite IH by done. rewrite list_to_map_cons, <-insert_union_r by (by apply not_elem_of_list_to_map_1). by rewrite insert_union_l. }
  rewrite Hg by apply in_order_nodup. by rewrite (right_id_L ∅ (∪)), in_order_map.
Qed.

(** The statistics of a server survive the wire.  Whatever a buffer holds and whatever was in the record that is read into, the map of
    the namespaces that is read is the map that was written, negative numbers included, and the rest of the buffer is left; the time of
    the report is not sent and stays that of the record. *)
Lemma stat_roundtrip (junk : nat → Z) (n n0 : node_stat) b :
  (∀ i, is_u8 (junk i)) → wf_buf b → contents b = [] → node_ok n → map_Forall (λ a _, 0 <= a < 2 ^ 32) (data_holder n) →
  pfree b + 4 + Z.of_nat (length (areas_bytes (in_order (data_holder n)))) <= size_limit →
  ∃ b1 b2, node_encode junk n b = Some b1 ∧
    node_decode b1 n0 = Some ({| last_update_time := last_update_time n0; data_holder := data_holder n |}, b2) ∧ contents b2 = [].
Proof.
  intros Hj Hb Hemp Hok Ha Hsz. unfold node_encode. set (l := in_order (data_holder n)) in *.
  assert (Hlen : length l = size (data_holder n)) by (unfold l; rewrite in_order_perm; apply length_map_to_list).
  assert (Hl : Forall (λ kv, 0 <= kv.1 < 2 ^ 32 ∧ Z.of_nat (length kv.2) < 2 ^ 32 ∧ Forall is_i64 kv.2) l).
  { apply list.Forall_forall. intros [a d] Hin. apply in_order_elem in Hin. split; [by apply (Ha a d)|by apply (Hok a)]. }
  assert (Hle : (length l <= length (areas_bytes l))%nat) by apply length_areas_bytes.
  assert (Hs : Z.of_nat (size (data_holder n)) < 2 ^ 32) by (pose proof (wb_order _ Hb); unfold size_limit in Hsz; lia).
  rewrite u32_id by (unfold is_u32; lia).
  destruct (writeInt32_ok junk Hj b (Z.of_nat (size (data_holder n))) Hb) as (b0 & -> & Ha0); [lia|]. rewrite bind_Some_eq.
  pose proof Ha0 as (Hw0 & _ & Hf0 & _). rewrite length_be_bytes in Hf0.
  destruct (encode_areas_ok junk Hj l b0 Hw0) as (b1 & -> & Ha1); [lia|]. pose proof (appended_trans _ _ _ _ _ Ha0 Ha1) as (Hw1 & Hc1 & _).
  rewrite Hemp in Hc1. cbn [app] in Hc1. unfold node_decode.
  destruct (readInt_bytes 4 b1 (Z.of_nat (size (data_holder n))) _ Hw1 Hc1) as (b2 & Hr & Hw2 & Hc2); [lia|]. exists b1.
  change (readInt32 b1) with (readInt (Z.of_nat 4) b1). rewrite Hr, bind_Some_eq, Nat2Z.id, <-Hlen.
  destruct (decode_areas_ok l ∅ b2 [] Hl Hw2) as (b3 & -> & _ & Hc3); [by rewrite app_nil_r|]. exists b3. split; [done|].
  rewrite bind_Some_eq. unfold l. by rewrite fold_in_order.
Qed.

(** ** Instances *)

Definition demo_node1 : node_stat := {| last_update_time := 70; data_holder := {[ 3 := [5; -2; 9]; 8 := [2 ^ 63 - 1] ]} |}.
Definition demo_node2 : node_stat := {| last_update_time := 60; data_holder := {[ 8 := [1; 4] ]} |}.
Definition demo_stats : gmap Z node_stat := {[ 11 := demo_node1; 12 := demo_node2; 13 := demo_node1 ]}.

Lemma node_ok_dec n : forallb (λ kv, forallb (λ x, (- 2 ^ 63 <=? x) && (x <? 2 ^ 63)) kv.2 && (Z.of_nat (length kv.2) <? 2 ^ 32)) (map_to_list (data_holder n)) = true → node_ok n.
Proof.
  intros Hf a d Hd. rewrite forallb_forall in Hf. apply elem_of_map_to_list, list_elem_of_In in Hd. specialize (Hf _ Hd). cbn [fst snd] in Hf.
  apply andb_prop in Hf as [Hf Hl]. split; [by apply Z.ltb_lt|]. rewrite forallb_forall in Hf. apply list.Forall_forall. intros x Hx. apply list_elem_of_In in Hx.
  specialize (Hf x Hx). bool_cases. unfold is_i64. lia.
Qed.

Lemma cluster_stat_sums_witness :
  ∃ n, getStatInfo 0 {[ 11; 12 ]} demo_stats NodeStatInfo_new = Some n ∧ last_update_time n = 60 ∧
    node_unit n 3 1 = -2 ∧ node_unit n 8 0 = - 2 ^ 63 ∧ node_unit n 8 1 = 4 ∧ node_unit n 8 2 = 0.
Proof.
  destruct (cluster_stat_sums {[ 11; 12 ]} demo_stats) as (n & E & Ht & Hu).
  - unfold demo_stats. apply map_Forall_insert_2; [by apply node_ok_dec|]. apply map_Forall_insert_2; [by apply node_ok_dec|]. apply map_Forall_singleton. by apply node_ok_dec.
  - exists n. rewrite !Hu, Ht. by vm_compute.
Defined.

Lemma stat_roundtrip_witness :
  ∃ b1 b2, node_encode demo_junk demo_node1 DataBuffer_new = Some b1 ∧
    node_decode b1 demo_node2 = Some ({| last_update_time := 60; data_holder := data_holder demo_node1 |}, b2) ∧ contents b2 = [].
Proof.
  apply (stat_roundtrip demo_junk demo_node1 demo_node2 DataBuffer_new).
  - apply demo_junk_u8.
  - apply wf_new.
  - done.
  - by apply node_ok_dec.
  - unfold demo_node1. cbn [data_holder]. apply map_Forall_insert_2; [lia|]. apply map_Forall_singleton. lia.
  - by vm_compute.
Defined.

(** ** What the code does outside of them *)

(** There are three names: a detail of more numbers has no text. *)
Lemma format_detail_overrun prefix x1 x2 x3 x4 d m : format_detail prefix (x1 :: x2 :: x3 :: x4 :: d) m = None.
Proof. done. Qed.

(** The size is computed in 32 bits: the last index is written outside of the vector. *)
Lemma set_unit_overrun v d : Z.of_nat (length d) < 2 ^ 32 → set_unit_value (2 ^ 32 - 1) v d = None.
Proof.
  intros Hd. unfold set_unit_value. rewrite (proj2 (Z.leb_le _ _)) by lia. replace (u32 (2 ^ 32 - 1 + 1)) with 0 by done.
  by rewrite length_resize0.
Qed.
