(* ===== verification/RaftState.v ===== *)
(** * Configuration, vote and commit index of a raft server

    src/src/meta/raft/kv_state_mgr.{h,cc}, class [KvStateMgr]: the configuration of the cluster and the state of the server (term and vote)
    in a file each, written to a file beside it that then takes its place; src/src/meta/raft/kv_state_machine.{h,cc}, class
    [KvStateMachine]: commits of the log handed to the user's machine, with the index of the last one in a mapped file.  Configurations,
    states and snapshots are classes of the raft library: [FileCodec] is what is used of them, [counted_codec] one such codec.  A call of the system is one step, and the
    process can stop between any two; [None] is an exception of the raft library. *)
From S2P Require Import Prelude.

Class FileCodec (A : Type) := {
  enc : A → list Z;
  dec : list Z → option A;
  dec_enc a : dec (enc a) = Some a }.

(** ** Files *)

(** The content of a file and of the file beside it; [None] when there is none. *)
Definition two_files : Type := option (list Z) * option (list Z).

(** The steps of [save_config] and of [save_state] on the disk: the file beside is made empty and written, the old file is removed when
    there is one, and the file beside takes its name. *)
Definition save_steps (bytes : list Z) : list (two_files → two_files) :=
  [λ p, (p.1, Some []); λ p, (p.1, Some bytes);
   λ p, if p.1 is Some _ then (None, p.2) else p;
   λ p, if p.2 is Some b then (Some b, None) else p].
Definition run_steps (fs : list (two_files → two_files)) (p : two_files) : two_files := foldl (λ p f, f p) p fs.

Section mgr.
Context {C S V : Type} `{FileCodec C} `{FileCodec S}.
(** The server of an identifier in a configuration, and the configuration of one server. *)
Context (get_server : C → option V) (only : V → C) (self : V).

Record state_mgr := { my_srv_config : option V; saved_config : C; saved_state : option S; config_files : two_files; state_files : two_files }.

Definition save_config (c : C) (m : state_mgr) : option state_mgr :=
  c' ← dec (enc c);
  Some (Build_state_mgr (my_srv_config m) c' (saved_state m) (run_steps (save_steps (enc c)) (config_files m)) (state_files m)).
Definition save_state (s : S) (m : state_mgr) : option state_mgr :=
  s' ← dec (enc s);
  Some (Build_state_mgr (my_srv_config m) (saved_config m) (Some s') (config_files m) (run_steps (save_steps (enc s)) (state_files m))).

(** The constructor on what the directory holds. *)
Definition KvStateMgr_new (config_fs state_fs : two_files) : option state_mgr :=
  m ← match config_fs.1 with
      | Some b => c ← dec b; Some (Build_state_mgr (get_server c) c None config_fs state_fs)
      | None => save_config (only self) (Build_state_mgr (Some self) (only self) None config_fs state_fs)
      end;
  match state_fs.1 with
  | Some b => s ← dec b; Some (Build_state_mgr (my_srv_config m) (saved_config m) (Some s) (config_files m) (state_files m))
  | None => Some m
  end.

Definition load_config (m : state_mgr) : C := saved_config m.
Definition read_state (m : state_mgr) : option S := saved_state m.
End mgr.
Arguments state_mgr : clear implicits.

(** ** Commits *)

Section machine.
Context {U D N : Type} `{FileCodec N}.
(** The operations of the user's machine. *)
Context (doPreCommit : Z → U → U) (doCommit : Z → D → U → U) (doRollback : Z → U → U).
(** [readStr] of the bytes of an entry. *)
Context (readStr : D → option (list Z)).

Record machine := { lastCommitedIdx : Z; last_snapshot : option N; baseSM : option U }.

Definition open_machine (word : Z) (u : option U) : machine := {| lastCommitedIdx := word; last_snapshot := None; baseSM := u |}.
Definition set_user (u : option U) (m : machine) : machine := Build_machine (lastCommitedIdx m) (last_snapshot m) u.

Definition pre_commit (log_idx : Z) (m : machine) : machine := set_user (doPreCommit log_idx <$> baseSM m) m.

(** The two steps of [commit]. *)
Definition commit_apply (log_idx : Z) (data : D) (m : machine) : machine := set_user (doCommit log_idx data <$> baseSM m) m.
Definition commit_index (log_idx : Z) (m : machine) : machine := Build_machine log_idx (last_snapshot m) (baseSM m).
Definition commit (log_idx : Z) (data : D) (m : machine) : machine := commit_index log_idx (commit_apply log_idx data m).

Definition rollback (log_idx : Z) (data : D) (m : machine) : option machine :=
  _ ← readStr data; Some (set_user (doRollback log_idx <$> baseSM m) m).

(** The four zero bytes of the only object of a snapshot. *)
Definition read_logical_snp_obj : list Z * bool * Z := (replicate 4 0, true, 0).
Definition save_logical_snp_obj (obj_id : Z) : Z := u64 (obj_id + 1).

Definition set_snapshot (s : N) (m : machine) : option machine :=
  s' ← dec (enc s); Some (Build_machine (lastCommitedIdx m) (Some s') (baseSM m)).
Definition apply_snapshot (s : N) (m : machine) : option (bool * machine) := m ← set_snapshot s m; Some (true, m).
(** Also what the handler is called with. *)
Definition create_snapshot (s : N) (m : machine) : option (bool * machine) := m ← set_snapshot s m; Some (true, m).
Definition last_commit_index (m : machine) : Z := lastCommitedIdx m.
End machine.
Arguments machine : clear implicits.

(** ** Restarts *)

(** What a file holds after whole saves and [k] steps of another one. *)
Definition after_saves (bs : list (list Z)) (b : list Z) (k : nat) (p : two_files) : two_files :=
  run_steps (take k (save_steps b)) (foldl (λ p b, run_steps (save_steps b) p) p bs).

Lemma save_whole b p : run_steps (save_steps b) p = (Some b, None).
Proof. by destruct p as [[f|] g]. Qed.

Lemma saves_whole bs p : (foldl (λ p b, run_steps (save_steps b) p) p bs).1 = from_option Some p.1 (list.last bs).
Proof.
  revert p. induction bs as [|b bs IH]; intros p; [done|]. cbn [foldl]. rewrite IH, save_whole, last_cons. by destruct (list.last bs).
Qed.

(** Up to the third step the old content is there, after it nothing, and after the fourth the new one. *)
Lemma after_saves_ok bs b k p :
  (after_saves bs b k p).1 = if (k <=? 2)%nat then from_option Some p.1 (list.last bs) else if (k =? 3)%nat then None else Some b.
Proof.
  unfold after_saves. rewrite <-(saves_whole bs p). destruct (foldl _ p bs) as [[f|] g]; destruct k as [|[|[|[|k]]]]; try done; cbn; by destruct k.
Qed.

(** The last thing saved; nothing when the process stopped between the removal of the old file and the new name. *)
Definition left_after {A} (xs : list A) (x : A) (k : nat) : option A :=
  if (k <=? 2)%nat then list.last xs else if (k =? 3)%nat then None else Some x.

Lemma after_saves_left `{FileCodec A} (xs : list A) x k : (after_saves (enc <$> xs) (enc x) k (None, None)).1 = enc <$> left_after xs x k.
Proof.
  rewrite after_saves_ok, fmap_last. unfold left_after. destruct (k <=? 2)%nat; [by destruct (list.last xs)|]. by destruct (k =? 3)%nat.
Qed.

Section restart.
Context {C S V : Type} `{HC : FileCodec C} `{HS : FileCodec S}.
Context (get_server : C → option V) (only : V → C) (self : V).

Lemma restart_reads cfs sfs (oc : option C) (os : option S) :
  cfs.1 = enc <$> oc → sfs.1 = enc <$> os →
  ∃ m, KvStateMgr_new get_server only self cfs sfs = Some m ∧ read_state m = os ∧ load_config m = default (only self) oc.
Proof.
  intros Hc Hs. unfold KvStateMgr_new, save_config. rewrite Hc, Hs. destruct oc as [c|]; cbn [fmap option_fmap option_map]; rewrite !dec_enc, !bind_Some_eq;
    (destruct os as [s|]; cbn [fmap option_fmap option_map]; [rewrite dec_enc, bind_Some_eq|]); eexists; (split; [done|]); by split.
Qed.

(** What a raft server knows after it was stopped at any point.  For all saves of configurations and of states, and any step of a last
    save of each at which the process stopped, the server starts again, with the last whole save or, once the new file has its name, the
    one that was interrupted; only between the removal of the old file and the new name it starts with no state, so that its vote is
    forgotten, and with itself as the whole cluster. *)
Lemma raft_state_restart (cs : list C) c kc (ss : list S) s ks :
  ∃ m, KvStateMgr_new get_server only self (after_saves (enc <$> cs) (enc c) kc (None, None)) (after_saves (enc <$> ss) (enc s) ks (None, None)) = Some m ∧
    read_state m = left_after ss s ks ∧ load_config m = default (only self) (left_after cs c kc).
Proof. apply restart_reads; apply after_saves_left. Qed.
End restart.

(** Lists of bytes with their length in front. *)
#[local] Instance counted_codec : FileCodec (list Z).
Proof.
  refine {| enc l := Z.of_nat (length l) :: l;
            dec l := match l with n :: l => if decide (n = Z.of_nat (length l)) then Some l else None | [] => None end |}.
  intros l. by rewrite decide_True.
Defined.

(** Two states were saved; the save of a third stops when the old file is gone, and the save of a configuration before the old one is. *)
Lemma raft_state_restart_witness :
  ∃ m, KvStateMgr_new (V := Z) head (λ x, [x]) 7 (after_saves (enc <$> [[7; 8]]) (enc [7; 8; 9]) 2 (None, None))
         (after_saves (enc <$> [[1; 7]; [2; 8]]) (enc [3; 7]) 3 (None, None)) = Some m ∧
    read_state m = None ∧ load_config m = [7; 8].
Proof. apply (raft_state_restart head (λ x, [x]) 7 [[7; 8]] [7; 8; 9] 2 [[1; 7]; [2; 8]] [3; 7] 3). Defined.

(** ** Commits and crashes *)

(** What the raft library does with the machine: it commits the entry behind the last index, and after a stop it starts again from the
    index in the file.  [WStopped] is a stop between the two steps of a commit. *)
Inductive commit_event := WCommit | WStopped.
#[export] Instance commit_event_eq_dec : EqDecision commit_event.
Proof. solve_decision. Defined.

Section commits.
Context {U D N : Type} (doCommit : Z → D → U → U) (entry : Z → D).
Implicit Types m : machine U N.

Definition commit_step (e : commit_event) (m : machine U N) : machine U N :=
  let i := last_commit_index m + 1 in
  match e with
  | WCommit => commit doCommit i (entry i) m
  | WStopped => let m := commit_apply doCommit i (entry i) m in open_machine (lastCommitedIdx m) (baseSM m)
  end.

(** The indexes given to the user's machine: again after a stop, never out of order and none left out. *)
Fixpoint applied (i : Z) (es : list commit_event) : list Z :=
  match es with [] => [] | WCommit :: es => (i + 1) :: applied (i + 1) es | WStopped :: es => (i + 1) :: applied i es end.

Lemma commits_applied es m u :
  baseSM m = Some u → baseSM (foldl (λ m e, commit_step e m) m es) = Some (foldl (λ u i, doCommit i (entry i) u) u (applied (lastCommitedIdx m) es)).
Proof using Type.
  revert m u. induction es as [|[|] es IH]; intros m u Hu; [done| |]; cbn [foldl applied]; (erewrite IH; [|unfold commit_step, commit, commit_apply, open_machine, set_user; cbn; by rewrite Hu]);
    unfold commit_step, commit, last_commit_index; cbn; done.
Qed.

Lemma commits_index es m : lastCommitedIdx (foldl (λ m e, commit_step e m) m es) = lastCommitedIdx m + Z.of_nat (length (filter (.= WCommit) es)).
Proof using Type.
  revert m. induction es as [|[|] es IH]; intros m; cbn [foldl]; [cbn; lia| |]; rewrite IH.
  - rewrite filter_cons_True by done. cbn [length]. cbn [commit_step commit commit_index lastCommitedIdx]. unfold last_commit_index. lia.
  - by rewrite filter_cons_False.
Qed.
End commits.

(** Every index is applied, in order, again only where a stop came between the two steps of its commit. *)
Lemma applied_in_order i es : StronglySorted Z.le (applied i es) ∧ ∀ j, i < j <= i + Z.of_nat (length (filter (.= WCommit) es)) → j ∈ applied i es.
Proof.
  assert (Hlow : ∀ es i, Forall (λ j, i < j) (applied i es)).
  { intros es0. induction es0 as [|[|] es0 IH]; intros i0; cbn [applied]; [constructor| |]; (constructor; [lia|]); [|apply IH]. eapply list.Forall_impl; [apply IH|]. cbn. lia. }
  revert i. induction es as [|[|] es IH]; intros i; cbn [applied].
  - split; [constructor|]. cbn. lia.
  - rewrite filter_cons_True by done. cbn [length]. destruct (IH (i + 1)) as [H1 H2]. split.
    + constructor; [done|]. eapply list.Forall_impl; [apply Hlow|]. cbn. lia.
    + intros j Hj. destruct (decide (j = i + 1)) as [->|]; [by left|right; apply H2; lia].
  - rewrite filter_cons_False by done. destruct (IH i) as [H1 H2]. split.
    + constructor; [done|]. eapply list.Forall_impl; [apply Hlow|]. cbn. lia.
    + intros j Hj. right. by apply H2.
Qed.

(** A snapshot that is applied changes neither the last index nor the user's machine. *)
Lemma apply_snapshot_keeps {U N} `{FileCodec N} (s : N) (m : machine U N) :
  ∃ m', apply_snapshot s m = Some (true, m') ∧ last_snapshot m' = Some s ∧ last_commit_index m' = last_commit_index m ∧ baseSM m' = baseSM m.
Proof. unfold apply_snapshot, set_snapshot. rewrite dec_enc, bind_Some_eq. by eexists. Qed.

(** It is forgotten with the process. *)
Lemma snapshot_forgotten {U N} (m : machine U N) : last_snapshot (open_machine (lastCommitedIdx m) (baseSM m) : machine U N) = None.
Proof. done. Qed.
