(* ===== verification/DayTime.v ===== *)
(** * Daily tasks

    src/src/common/daytimetaskmgn.{h,cc}, class [CDayTimeTaskMgn]: a task that is due at a time of the day and then every so many seconds.
    The time zone is its offset [tz] from UTC in seconds, the same all year; times are seconds.  The two loops go on for at most [fuel]
    turns; [None] is a loop that does not end. *)
From S2P Require Import Prelude.

Definition sDaySecs : Z := 24 * 3600.

Record day_task := {
  m_starthour : Z; m_startmin : Z; m_startsec : Z; m_intervalsec : Z;
  m_begin : Z; m_end : Z; m_startTaskTime : Z; m_nextTaskTime : Z }.

Definition set_next (n : Z) (d : day_task) : day_task :=
  Build_day_task (m_starthour d) (m_startmin d) (m_startsec d) (m_intervalsec d) (m_begin d) (m_end d) (m_startTaskTime d) n.

Section tasks.
Context (tz : Z).

(** [mktime] of the day of [n] in the zone, at a time of the day. *)
Definition mktime (n hour min sec : Z) : Z := (n + tz) / sDaySecs * sDaySecs - tz + 3600 * hour + 60 * min + sec.

(** [while (next <= n) next += interval]. *)
Fixpoint advance (fuel : nat) (next n interval : Z) : option Z :=
  if next <=? n then match fuel with O => None | S fuel => advance fuel (next + interval) n interval end
  else Some next.

(** [now] is the time of the system. *)
Definition reinittime (fuel : nat) (now : Z) (d : day_task) : option day_task :=
  let mn := mktime now 0 0 0 in
  let start := mktime now (m_starthour d) (m_startmin d) (m_startsec d) in
  next ← advance fuel start now (m_intervalsec d);
  Some (Build_day_task (m_starthour d) (m_startmin d) (m_startsec d) (m_intervalsec d) mn (mn + sDaySecs) start next).

Definition day_init (fuel : nat) (now starthour startmin startsec intervalsec : Z) : option day_task :=
  let startmin := if (starthour =? 0) && (startmin =? 0) then 1 else startmin in
  reinittime fuel now (Build_day_task starthour startmin startsec intervalsec 0 0 0 0).

Definition day_check (fuel : nat) (now t : Z) (d : day_task) : option (bool * day_task) :=
  d ← (if (t <? m_begin d) || (m_end d <? t) then reinittime fuel now d else Some d);
  if m_nextTaskTime d <=? t then
    next ← advance fuel (m_nextTaskTime d + m_intervalsec d) t (m_intervalsec d);
    Some (true, set_next next d)
  else Some (false, d).
End tasks.

(** ** The loops *)

Definition after (start interval t : Z) : Z := if start <=? t then start + interval * ((t - start) / interval + 1) else start.

(** The first time after [t] of those that start at [start] and come every [interval] seconds. *)
Lemma advance_ok fuel start n interval :
  0 < interval → (n - start < Z.of_nat fuel) → advance fuel start n interval = Some (after start interval n).
Proof.
  intros Hi. revert start. induction fuel as [|fuel IH]; intros start Hf; cbn [advance]; unfold after; destruct (Z.leb_spec start n) as [Hle|]; [lia|done| |done].
  rewrite IH by lia. unfold after. destruct (Z.leb_spec (start + interval) n) as [H2|H2]; f_equal.
  - replace (n - start) with ((n - (start + interval)) + 1 * interval) by lia. rewrite Z.div_add by lia. nia.
  - rewrite (Z.div_small (n - start)) by lia. lia.
Qed.

(** An interval of 0 never ends once a task is due. *)
Lemma advance_zero fuel start n : start <= n → advance fuel start n 0 = None.
Proof. intros Hs. induction fuel as [|fuel IH]; cbn [advance]; rewrite (proj2 (Z.leb_le _ _)) by done; [done|]. by rewrite Z.add_0_r. Qed.

Lemma after_spec start interval t : 0 < interval → t < after start interval t ∧ start <= after start interval t ∧ (∃ k, 0 <= k ∧ after start interval t = start + interval * k) ∧
  ∀ k, 0 <= k → t < start + interval * k → after start interval t <= start + interval * k.
Proof.
  intros Hi. unfold after. destruct (Z.leb_spec start t) as [Hle|Hgt].
  - pose proof (Z.div_mod (t - start) interval). pose proof (Z.mod_pos_bound (t - start) interval Hi).
    assert (0 <= (t - start) / interval) by (apply Z.div_pos; lia). split; [nia|]. split; [nia|]. split; [exists ((t - start) / interval + 1); split; [lia|done]|].
    intros k Hk Ht. assert ((t - start) / interval < k) by (apply Z.div_lt_upper_bound; lia). nia.
  - split; [lia|]. split; [lia|]. split; [exists 0; split; lia|]. intros k Hk _. nia.
Qed.

(** What comes after a later time comes after what came after an earlier one. *)
Lemma after_after start interval p t : 0 < interval → p <= t → after start interval p <= t →
  after (after start interval p + interval) interval t = after start interval t.
Proof.
  intros Hi Hpt Ha. destruct (after_spec start interval p Hi) as (_ & Hs & (k & Hk & Ek) & _). rewrite Ek in *.
  apply Z.le_antisymm.
  - destruct (after_spec start interval t Hi) as (Ht & _ & (k' & Hk' & E') & _). rewrite E' in *.
    destruct (after_spec (start + interval * k + interval) interval t Hi) as (_ & _ & _ & Hm).
    assert (k < k') by nia. specialize (Hm (k' - k - 1)). replace (start + interval * k + interval + interval * (k' - k - 1)) with (start + interval * k') in Hm by lia. apply Hm; lia.
  - destruct (after_spec (start + interval * k + interval) interval t Hi) as (Ht & _ & (k' & Hk' & E') & _). rewrite E' in *.
    destruct (after_spec start interval t Hi) as (_ & _ & _ & Hm). specialize (Hm (k + 1 + k')). replace (start + interval * (k + 1 + k')) with (start + interval * k + interval + interval * k') in Hm by lia.
    apply Hm; lia.
Qed.

Lemma after_same start interval p t : 0 < interval → p <= t → t < after start interval p → after start interval t = after start interval p.
Proof.
  intros Hi Hpt Ht. destruct (after_spec start interval p Hi) as (Hp & _ & (k & Hk & Ek) & Hm). destruct (after_spec start interval t Hi) as (Ht' & _ & (k' & Hk' & Ek') & Hm').
  apply Z.le_antisymm; [rewrite Ek; apply Hm'; lia|rewrite Ek'; apply Hm; lia].
Qed.

(** ** A day of checks *)

Fixpoint day_checks (tz : Z) (fuel : nat) (ts : list Z) (d : day_task) : option (list bool) :=
  match ts with
  | [] => Some []
  | t :: ts => '(r, d) ← day_check tz fuel t t d; rs ← day_checks tz fuel ts d; Some (r :: rs)
  end.

(** Whether one of the times that start at [start] and come every [interval] seconds lies after [p] and not after [t]. *)
Definition due (start interval p t : Z) : bool := after start interval p <=? t.

Fixpoint due_all (start interval p : Z) (ts : list Z) : list bool :=
  match ts with [] => [] | t :: ts => due start interval p t :: due_all start interval t ts end.

Lemma due_iff start interval p t : 0 < interval → due start interval p t = true ↔ ∃ k, 0 <= k ∧ p < start + interval * k <= t.
Proof.
  intros Hi. unfold due. rewrite Z.leb_le. destruct (after_spec start interval p Hi) as (Hp & _ & (k & Hk & E) & Hm). split.
  - intros Ht. exists k. rewrite <-E. lia.
  - intros (k' & Hk' & Hp' & Ht'). specialize (Hm k' Hk' Hp'). lia.
Qed.

Lemma day_checks_ok tz fuel ts d p start :
  0 < m_intervalsec d → m_nextTaskTime d = after start (m_intervalsec d) p → m_begin d <= p → m_begin d <= start →
  StronglySorted Z.le (p :: ts) → Forall (λ t, t <= m_end d) ts → m_end d - m_begin d < Z.of_nat fuel →
  day_checks tz fuel ts d = Some (due_all start (m_intervalsec d) p ts).
Proof.
  revert d p. induction ts as [|t ts IH]; intros d p Hi Hn Hb Hst Hs He Hf; [done|]. cbn [day_checks due_all].
  apply StronglySorted_inv in Hs as [Hs Hp]. apply list.Forall_cons in He as [He1 He2]. apply list.Forall_cons in Hp as [Hpt _].
  unfold day_check, due. rewrite (proj2 (Z.ltb_ge _ _)) by lia. rewrite (proj2 (Z.ltb_ge (m_end d) t)) by lia. cbn [orb]. rewrite bind_Some_eq, Hn.
  destruct (after_spec start (m_intervalsec d) p Hi) as (Hp' & Hs' & _). destruct (Z.leb_spec (after start (m_intervalsec d) p) t) as [Hle|Hgt].
  - rewrite advance_ok by lia. rewrite !bind_Some_eq, after_after by done. rewrite (IH (set_next (after start (m_intervalsec d) t) d) t); try done. cbn. lia.
  - rewrite bind_Some_eq, (IH d t); try done; [|lia]. rewrite Hn. symmetry. by apply after_same.
Qed.

Lemma mktime_day tz n : mktime tz n 0 0 0 <= n < mktime tz n 0 0 0 + sDaySecs.
Proof.
  unfold mktime, sDaySecs. pose proof (Z.div_mod (n + tz) (24 * 3600)). pose proof (Z.mod_pos_bound (n + tz) (24 * 3600)). lia.
Qed.

(** C40: tasks of a day are started when they are due.  After [init] at some time, with a positive interval, every check in the same day, at times
    that do not go back, ends and says yes exactly when one of the times of the task (the time of the day, and then every interval) has
    come since the check before it: none is missed and none is started twice.  A task at midnight counts as one minute later.  The fuel
    is the seconds of a day, which the loops cannot exceed. *)
Theorem day_tasks_due tz fuel p hour min sec interval ts :
  0 < interval → 0 <= hour → 0 <= min → 0 <= sec → sDaySecs < Z.of_nat fuel →
  StronglySorted Z.le (p :: ts) → Forall (λ t, t <= mktime tz p 0 0 0 + sDaySecs) ts →
  let start := mktime tz p hour (if (hour =? 0) && (min =? 0) then 1 else min) sec in
  ∃ d, day_init tz fuel p hour min sec interval = Some d ∧ day_checks tz fuel ts d = Some (due_all start interval p ts) ∧
    ∀ q t, due start interval q t = true ↔ ∃ k, 0 <= k ∧ q < start + interval * k <= t.
Proof.
  intros Hi Hh Hm Hsec Hf Hs He start. pose proof (mktime_day tz p) as Hd. unfold day_init, reinittime. cbn [m_starthour m_startmin m_startsec m_intervalsec]. fold start.
  assert (Hst : mktime tz p 0 0 0 <= start) by (unfold start, mktime; destruct (_ && _); lia).
  rewrite advance_ok by lia. rewrite bind_Some_eq. eexists. split; [done|]. split; [|intros q t; by apply due_iff].
  apply day_checks_ok; cbn; try done; lia.
Qed.

Lemma day_tasks_due_witness :
  ∃ d, day_init 28800 (Z.to_nat 86401) 1000000 10 0 0 600 = Some d ∧
    day_checks 28800 (Z.to_nat 86401) [1000100; 1001300; 1001400; 1007900; 1008000] d = Some [false; true; true; true; true].
Proof.
  destruct (day_tasks_due 28800 (Z.to_nat 86401) 1000000 10 0 0 600 [1000100; 1001300; 1001400; 1007900; 1008000]) as (d & E1 & E2 & _); [lia|lia|lia|lia|unfold sDaySecs; lia| | |exists d; split; [exact E1|rewrite E2; by vm_compute]].
  - repeat (constructor; [|repeat (constructor; [lia|]); constructor]). constructor.
  - repeat (constructor; [by vm_compute|]). constructor.
Defined.

(** The day after: a task that became due in the night is not started by the first check of the morning, which works the times out anew. *)
Lemma morning_misses tz fuel t d :
  m_end d < t → 0 < m_intervalsec d → 0 <= m_starthour d → 0 <= m_startmin d → 0 <= m_startsec d → sDaySecs < Z.of_nat fuel →
  ∃ d', day_check tz fuel t t d = Some (false, d') ∧ t < m_nextTaskTime d'.
Proof.
  intros He Hi Hh Hm Hs Hf. pose proof (mktime_day tz t) as Hd. unfold day_check. rewrite (proj2 (Z.ltb_lt (m_end d) t)), orb_true_r by done. unfold reinittime.
  rewrite advance_ok by (try done; unfold mktime, sDaySecs in *; lia). rewrite !bind_Some_eq. cbn [m_nextTaskTime].
  destruct (after_spec (mktime tz t (m_starthour d) (m_startmin d) (m_startsec d)) (m_intervalsec d) t Hi) as (Ht & _).
  rewrite (proj2 (Z.leb_gt _ _)) by done. eexists. split; [done|]. done.
Qed.

(** With an interval of 0 the start does not end once the time of the day has come. *)
Lemma day_init_zero tz fuel now hour min sec : mktime tz now hour (if (hour =? 0) && (min =? 0) then 1 else min) sec <= now → day_init tz fuel now hour min sec 0 = None.
Proof. intros Hs. unfold day_init, reinittime. cbn [m_starthour m_startmin m_startsec m_intervalsec]. by rewrite advance_zero. Qed.
