(* ===== verification/ServerTable.v ===== *)
(** * The table manager of a storage server

    src/src/storage/table_mgr.{h,cc}, class [TableMgr]: the table of a server, the buckets it holds, will hold and gives up, the servers it
    copies them to, and the answers it has for the store.  [self] is the address of the server; [None] is an access outside of the table, a failed
    assertion, a division by 0, or a loop that does not end. *)
From S2P Require Import Prelude Bitmap Storage.

Record server_tables := {
  server_table : option (list Z);
  table_version : Z;
  copy_count : Z;
  bucket_count : Z;
  holding_buckets : list Z;
  padding_buckets : list Z;
  release_buckets : list Z;
  available_server_ids : gset Z;
  allSlaveServerIds : gset Z;
  allProxyServerIds : gset Z;
  tm_migrates : gmap Z (list Z);
  validBucketMgn : valid_buckets }.

Definition TableMgr_new : server_tables :=
  {| server_table := None; table_version := 0; copy_count := 0; bucket_count := 0; holding_buckets := []; padding_buckets := []; release_buckets := [];
     available_server_ids := ∅; allSlaveServerIds := ∅; allProxyServerIds := ∅; tm_migrates := ∅; validBucketMgn := ValidBucket_clean |}.

Definition getHashTableSize (m : server_tables) : Z := u32 (bucket_count m * copy_count m).

Definition at_word (t : list Z) (i : Z) : option Z := if i <? 0 then None else t !! Z.to_nat i.

Section server.
Context (self : Z).

Definition KV_SERVERFLAG_PROXY : Z := 3.
Definition isMaster (bucket_number server_flag : Z) (m : server_tables) : option bool :=
  t ← server_table m;
  let index := if server_flag =? KV_SERVERFLAG_PROXY then i32 (bucket_number + getHashTableSize m) else bucket_number in
  x ← at_word t index; Some (x =? self).

(** [while (index < end)]: words that are not 0 are taken. *)
Fixpoint column_loop (fuel : nat) (t : list Z) (b index last : Z) : option (list Z) :=
  if index <? last then
    match fuel with
    | O => None
    | S fuel => sid ← at_word t index; l ← column_loop fuel t b (i32 (index + b)) last; Some (if sid =? 0 then l else sid :: l)
    end
  else Some [].
Definition loop_fuel (t : list Z) : nat := S (length t).

Definition getSlaves (bucket_number : Z) (is_migrating : bool) (m : server_tables) : option (list Z) :=
  t ← server_table m;
  let more := if is_migrating then getHashTableSize m else 0 in
  let last := i32 (i32 (getHashTableSize m) + more) in
  let index := i32 (i32 (bucket_number + bucket_count m) + more) in
  x ← at_word t (u32 (index - bucket_count m));
  if x =? self then column_loop (loop_fuel t) t (bucket_count m) index last else Some [].

Definition getAllDs (bucket_number : Z) (is_migrating : bool) (m : server_tables) : option (list Z) :=
  t ← server_table m;
  let more := if is_migrating then getHashTableSize m else 0 in
  let last := i32 (i32 (getHashTableSize m) + more) in
  let index := i32 (bucket_number + more) in
  sid ← at_word t index;
  l ← column_loop (loop_fuel t) t (bucket_count m) (i32 (index + bucket_count m)) last;
  Some (if sid =? 0 then l else sid :: l).

Definition getMigrateTarget (bucket_number : Z) (m : server_tables) : option Z :=
  t ← server_table m; at_word t (u32 (bucket_number + getHashTableSize m)).

(** Adds what [f] gives for every bucket to a set. *)
Definition collect (f : Z → option (list Z)) (b : Z) : option (gset Z) := run_all (λ i s, l ← f i; Some (list_to_set l ∪ s)) (seqZ 0 b) ∅.

Definition computeAllSlaveServerIds (m : server_tables) : option (gset Z) :=
  collect (λ i, l1 ← getSlaves i false m; l2 ← getSlaves i true m; Some (l1 ++ l2)) (bucket_count m).

Definition proxyOf (m : server_tables) (i : Z) : option (list Z) :=
  quick ← getAllDs i false m;
  target ← getAllDs i true m;
  if negb (bool_decide (self ∈ quick)) then Some []
  else if bool_decide (merge_sort Z.le quick = merge_sort Z.le target) then Some []
  else x ← target !! O; Some (if x =? 0 then [] else [x]).
Definition computeAllProxyServerIds (m : server_tables) : option (gset Z) := collect (proxyOf m) (bucket_count m).

(** [std::set_difference]: of equal elements, as many more as the first list has. *)
Fixpoint set_difference (l1 : list Z) : list Z → list Z :=
  match l1 with
  | [] => λ _, []
  | x :: l1' => fix go (l2 : list Z) : list Z :=
      match l2 with
      | [] => x :: l1'
      | y :: l2' => if x <? y then x :: set_difference l1' l2 else if y <? x then go l2' else set_difference l1' l2'
      end
  end.

(** Whether no copy in use is at [dest]; the loop ends at the first one that is. *)
Definition needMigrate (t : list Z) (b c index dest : Z) : option bool :=
  run_all (λ j need, if (need : bool) then s ← at_word t (index + b * j); Some (negb (dest =? s)) else Some false) (seqZ 0 c) true.

(** [calculateMigrates]. *)
Definition migratesOf (t : list Z) (b c hs index : Z) (mg : gmap Z (list Z)) : option (gmap Z (list Z)) :=
  run_all (λ i mg, dest ← at_word t (hs + (index + b * i)); need ← needMigrate t b c index dest;
     Some (if (need : bool) then <[index := default [] (mg !! index) ++ [dest]]> mg else mg)) (seqZ 0 c) mg.

(** One turn of the loop of [doUpdateTable] over the table in use: the servers, the buckets held, and what migrates. *)
Definition scan_step (t : list Z) (b c hs : Z) (i : Z) (st : gset Z * list Z * gmap Z (list Z)) : option (gset Z * list Z * gmap Z (list Z)) :=
  let '(av, hold, mg) := st in
  x ← at_word t i;
  let av := {[x]} ∪ av in
  if x =? self then
    mg ← (if (i <? b) && (hs <? Z.of_nat (length t)) then migratesOf t b c hs i mg else Some mg);
    Some (av, hold ++ [i mod b], mg)
  else Some (av, hold, mg).

Definition pad_step (t : list Z) (b : Z) (i : Z) (st : gset Z * list Z) : option (gset Z * list Z) :=
  x ← at_word t i; Some ({[x]} ∪ st.1, if x =? self then st.2 ++ [i mod b] else st.2).

Definition doUpdateTable (t : list Z) (version c b : Z) (fromMaster : bool) (m : server_tables) : option server_tables :=
  let hs := u32 (b * c) in
  _ ← assert_that (negb (hs =? 0) && (Z.of_nat (length t) mod hs =? 0));
  '(av, hold, mg) ← run_all (scan_step t b c hs) (seqZ 0 hs) (∅, [], ∅);
  '(av, pad) ← (if hs <? Z.of_nat (length t) then run_all (pad_step t b) (seqZ hs (u32 (2 * hs) - hs)) (av, []) else Some (av, []));
  let hold := merge_sort Z.le hold in
  let rel := set_difference (merge_sort Z.le (holding_buckets m)) hold in
  v ← ValidBucket_add hold ValidBucket_clean;
  v ← ValidBucket_add pad v;
  let m := Build_server_tables (Some t) version c b hold pad rel av (allSlaveServerIds m) (allProxyServerIds m) mg (setFromMaster fromMaster v) in
  slaves ← computeAllSlaveServerIds m;
  proxies ← computeAllProxyServerIds m;
  Some (Build_server_tables (Some t) version c b hold pad rel av slaves proxies mg (setFromMaster fromMaster v)).

(** [initMigrateDoneSet]: records of a bucket and its servers; a bucket whose servers differ from the table has migrated. *)
Fixpoint init_done_loop (fuel : nat) (t st : list Z) (b c i : Z) (done : bitmap) : option bitmap :=
  if i <? Z.of_nat (length st) then
    match fuel with
    | O => None
    | S fuel =>
        bucket ← at_word st i;
        let bucket := i32 bucket in
        let i := i + 1 in
        migrated ← run_all (λ j r, if (r : bool) then Some true else x ← at_word st (i + j); y ← at_word t (bucket + j * b); Some (negb (x =? y))) (seqZ 0 c) false;
        done ← (if (migrated : bool) then CBitMap_set bucket done else Some done);
        init_done_loop fuel t st b c (i + c) done
    end
  else Some done.
Definition initMigrateDoneSet (current_state_table : list Z) (done : bitmap) (m : server_tables) : option bitmap :=
  match current_state_table with
  | [] => Some done
  | _ => t ← server_table m; init_done_loop (S (length current_state_table)) t current_state_table (bucket_count m) (copy_count m) 0 done
  end.
End server.
