(* ===== verification/ServerTableSpec.v ===== *)
(** * The table manager of a storage server: what an update leaves *)
From S2P Require Import Prelude Bitmap Storage ServerTable.

Definition nonzero (l : list Z) : list Z := filter (λ x, x ≠ 0) l.

(** ** Helpers of the update *)

Lemma set_difference_count l1 l2 k :
  StronglySorted Z.le l1 → StronglySorted Z.le l2 →
  count_occ Z.eq_dec (set_difference l1 l2) k = (count_occ Z.eq_dec l1 k - count_occ Z.eq_dec l2 k)%nat.
Proof.
  intros H1. revert l2. induction H1 as [|x l1 H1 IH Hx]; intros l2 H2; [done|]. induction H2 as [|y l2 H2 IH2 Hy]; [cbn; destruct (Z.eq_dec x k); lia|].
  cbn [set_difference]. destruct (Z.ltb_spec x y) as [Hlt|Hge]; [|destruct (Z.ltb_spec y x) as [Hgt|Hle]].
  - cbn [count_occ]. rewrite IH by (by constructor). cbn [count_occ]. destruct (Z.eq_dec x k) as [->|]; [|done].
    destruct (Z.eq_dec y k) as [->|]; [lia|]. assert (count_occ Z.eq_dec l2 k = 0%nat) as ->; [|lia].
    apply count_occ_not_In. intros Hin. rewrite list.Forall_forall in Hy. apply list_elem_of_In in Hin. specialize (Hy k Hin). lia.
  - change ((fix go (l2 : list Z) : list Z := _) l2) with (set_difference (x :: l1) l2). rewrite IH2. cbn [count_occ]. destruct (Z.eq_dec y k) as [->|]; [|done].
    assert (count_occ Z.eq_dec (x :: l1) k = 0%nat) as E; [|cbn [count_occ] in E; lia].
    apply count_occ_not_In. intros [->|Hin]; [lia|]. rewrite list.Forall_forall in Hx. apply list_elem_of_In in Hin. specialize (Hx k Hin). lia.
  - assert (x = y) as -> by lia. rewrite IH by done. cbn [count_occ]. destruct (Z.eq_dec y k); lia.
Qed.

Lemma collect_cells_ok f g b :
  (∀ i, 0 <= i < b → f i = Some (g i)) → ∃ s, collect f b = Some s ∧ ∀ x, x ∈ s ↔ ∃ i, 0 <= i < b ∧ x ∈ g i.
Proof.
  intros Hf. unfold collect. assert (Hg : ∀ ids (s : gset Z), (∀ i, i ∈ ids → 0 <= i < b) →
    ∃ s', run_all (λ i (s : gset Z), l ← f i; Some (list_to_set l ∪ s : gset Z)) ids s = Some s' ∧ ∀ x, x ∈ s' ↔ x ∈ s ∨ ∃ i, i ∈ ids ∧ x ∈ g i).
  { intros ids. induction ids as [|i ids IH]; intros s Hi; [exists s; split; [done|]; intros x; split; [by left|intros [?|(i & Hin & _)]; [done|by apply not_elem_of_nil in Hin]]|].
    cbn [run_all]. rewrite Hf by (apply Hi; by left). rewrite !bind_Some_eq. destruct (IH (list_to_set (g i) ∪ s)) as (s' & -> & Hs'); [intros j Hj; apply Hi; by right|].
    exists s'. split; [done|]. intros x. rewrite Hs', elem_of_union, elem_of_list_to_set. split.
    - intros [[Hx|Hx]|(j & Hj & Hx)]; [right; exists i; split; [by left|done]|by left|right; exists j; split; [by right|done]].
    - intros [Hx|(j & [->|Hj]%elem_of_cons & Hx)]; [left; by right|left; by left|right; by exists j]. }
  destruct (Hg (seqZ 0 b) ∅) as (s & -> & Hs); [intros i ?%elem_of_seqZ; lia|]. exists s. split; [done|]. intros x. rewrite Hs, elem_of_empty.
  setoid_rewrite elem_of_seqZ. split; [intros [[]|(i & Hi & Hx)]; exists i; split; [lia|done]|intros (i & Hi & Hx); right; exists i; split; [lia|done]].
Qed.

(** ** A table of two halves *)

Section Tables.
Context (t : list Z) (b c : Z) (Hb : 0 < b) (Hc : 0 < c) (Hbc : 2 * (b * c) + b < 2 ^ 31) (Hlen : Z.of_nat (length t) = 2 * (b * c)) (self : Z).


Lemma at_server_cell off i j : 0 <= off <= b * c → 0 <= i < b → 0 <= j < c → at_word t (off + (i + b * j)) = Some (cellAt t b off i j).
Proof using Hb Hc Hbc Hlen.
  intros Ho Hi Hj. assert (0 <= i + b * j < b * c) by nia. unfold at_word, cellAt. rewrite (proj2 (Z.ltb_ge _ _)) by lia.
  destruct (lookup_lt_is_Some_2 t (Z.to_nat (off + (i + b * j)))) as [x ->]; [lia|done].
Qed.

Lemma column_ok off i n j fuel :
  0 <= off <= b * c → 0 <= i < b → 0 <= j → j + Z.of_nat n = c → (n < fuel)%nat →
  column_loop fuel t b (off + (i + b * j)) (off + b * c) = Some (nonzero (cellAt t b off i <$> seqZ j (Z.of_nat n))).
Proof using Hb Hc Hbc Hlen.
  intros Ho Hi. revert j fuel. induction n as [|n IH]; intros j fuel Hj Hn Hf; (destruct fuel as [|fuel]; [lia|]); cbn [column_loop].
  - rewrite (proj2 (Z.ltb_ge _ _)) by nia. done.
  - rewrite (proj2 (Z.ltb_lt _ _)) by nia. rewrite at_server_cell by lia. rewrite bind_Some_eq. rewrite i32_id by nia.
    replace (off + (i + b * j) + b) with (off + (i + b * (j + 1))) by lia. rewrite IH by lia. rewrite bind_Some_eq.
    rewrite (seqZ_cons j (Z.of_nat (S n))) by lia. rewrite fmap_cons. unfold nonzero. rewrite filter_cons. replace (Z.pred (Z.of_nat (S n))) with (Z.of_nat n) by lia.
    replace (Z.succ j) with (j + 1) by lia. destruct (Z.eqb_spec (cellAt t b off i j) 0) as [E|E]; [by rewrite decide_False by (intros []; done)|by rewrite decide_True].
Qed.

Definition half (is_migrating : bool) : Z := if is_migrating then b * c else 0.

Lemma half_range mig : 0 <= half mig <= b * c.
Proof using Hb Hc Hbc Hlen. unfold half. destruct mig; nia. Qed.

Section updated.
Context (m : server_tables) (Ht : server_table m = Some t) (Hmb : bucket_count m = b) (Hmc : copy_count m = c).

Lemma table_size : getHashTableSize m = b * c.
Proof using Hb Hc Hbc Hlen Hmb Hmc. unfold getHashTableSize. rewrite Hmb, Hmc. apply u32_id. unfold is_u32. nia. Qed.

Lemma getSlaves_ok i mig :
  0 <= i < b → getSlaves self i mig m = Some (if decide (cellAt t b (half mig) i 0 = self) then nonzero (tail (rowAt t b c (half mig) i)) else []).
Proof using Hb Hc Hbc Hlen Ht Hmb Hmc.
  intros Hi. unfold getSlaves. rewrite Ht, Hmb, table_size, bind_Some_eq. pose proof (half_range mig) as Hh. fold (half mig).
  rewrite (i32_id (b * c)) by nia. rewrite (i32_id (i + b)) by nia. rewrite !i32_id by nia. replace (i + b + half mig) with (half mig + (i + b * 1)) by lia.
  rewrite u32_id by (unfold is_u32; nia). replace (half mig + (i + b * 1) - b) with (half mig + (i + b * 0)) by lia. rewrite at_server_cell by lia. rewrite bind_Some_eq.
  destruct (Z.eqb_spec (cellAt t b (half mig) i 0) self) as [E|E]; [|by rewrite decide_False]. rewrite decide_True by done.
  rewrite (Z.add_comm (b * c)). rewrite (column_ok (half mig) i (Z.to_nat (c - 1)) 1) by (done || unfold loop_fuel; nia).
  unfold rowAt. rewrite (seqZ_cons 0 c) by lia. cbn [fmap list_fmap tail]. repeat f_equal; lia.
Qed.

Lemma getAllDs_ok i mig : 0 <= i < b → getAllDs i mig m = Some (nonzero (rowAt t b c (half mig) i)).
Proof using Hb Hc Hbc Hlen Ht Hmb Hmc.
  intros Hi. unfold getAllDs. rewrite Ht, Hmb, table_size, bind_Some_eq. pose proof (half_range mig) as Hh. fold (half mig).
  rewrite (i32_id (b * c)) by nia. rewrite (i32_id (i + half mig)) by nia. rewrite !i32_id by nia. replace (i + half mig) with (half mig + (i + b * 0)) by lia.
  rewrite at_server_cell by lia. rewrite bind_Some_eq. replace (half mig + (i + b * 0) + b) with (half mig + (i + b * 1)) by lia. rewrite (Z.add_comm (b * c)).
  rewrite (column_ok (half mig) i (Z.to_nat (c - 1)) 1) by (done || unfold loop_fuel; nia). rewrite bind_Some_eq.
  unfold rowAt. rewrite (seqZ_cons 0 c) by lia. rewrite fmap_cons. unfold nonzero. rewrite filter_cons. replace (Z.of_nat (Z.to_nat (c - 1))) with (Z.pred c) by lia.
  destruct (Z.eqb_spec (cellAt t b (half mig) i 0) 0) as [E|E]; [by rewrite decide_False by (intros []; done)|by rewrite decide_True].
Qed.

Lemma slaves_ok :
  ∃ s, computeAllSlaveServerIds self m = Some s ∧
    ∀ x, x ∈ s ↔ x ≠ 0 ∧ ∃ i mig, 0 <= i < b ∧ cellAt t b (half mig) i 0 = self ∧ x ∈ tail (rowAt t b c (half mig) i).
Proof using Hb Hc Hbc Hlen Ht Hmb Hmc.
  unfold computeAllSlaveServerIds. rewrite Hmb.
  set (g mig i := if decide (cellAt t b (half mig) i 0 = self) then nonzero (tail (rowAt t b c (half mig) i)) else []).
  destruct (collect_cells_ok (λ i, l1 ← getSlaves self i false m; l2 ← getSlaves self i true m; Some (l1 ++ l2)) (λ i, g false i ++ g true i) b) as (s & -> & Hs).
  { intros i Hi. rewrite !getSlaves_ok by done. rewrite !bind_Some_eq. done. }
  assert (Hg : ∀ x mig i, x ∈ g mig i ↔ x ≠ 0 ∧ cellAt t b (half mig) i 0 = self ∧ x ∈ tail (rowAt t b c (half mig) i)).
  { intros x mig i. unfold g. destruct (decide _); [unfold nonzero; rewrite list_elem_of_filter; tauto|]. rewrite elem_of_nil. tauto. }
  exists s. split; [done|]. intros x. rewrite Hs. split.
  - intros (i & Hi & [Hx|Hx]%elem_of_app); apply Hg in Hx as (Hx0 & Hx1 & Hx2); (split; [done|]); [by exists i, false|by exists i, true].
  - intros (Hx & i & [] & Hi & Hm & Hin); exists i; (split; [done|]); apply elem_of_app; [right|left]; by apply Hg.
Qed.

(** Buckets of this server whose servers change pass on to the first server of the second half. *)
Lemma proxies_ok :
  (∀ i, 0 <= i < b → nonzero (rowAt t b c (b * c) i) ≠ []) →
  ∃ s, computeAllProxyServerIds self m = Some s ∧
    ∀ x, x ∈ s ↔ ∃ i, 0 <= i < b ∧ self ∈ nonzero (rowAt t b c 0 i) ∧ ¬ nonzero (rowAt t b c 0 i) ≡ₚ nonzero (rowAt t b c (b * c) i) ∧
                   head (nonzero (rowAt t b c (b * c) i)) = Some x.
Proof using Hb Hc Hbc Hlen Ht Hmb Hmc.
  intros Hne. unfold computeAllProxyServerIds. rewrite Hmb.
  set (q i := nonzero (rowAt t b c 0 i)). set (d i := nonzero (rowAt t b c (b * c) i)).
  destruct (collect_cells_ok (proxyOf self m) (λ i, if decide (self ∈ q i ∧ ¬ q i ≡ₚ d i) then option_list (head (d i)) else []) b) as (s & -> & Hs).
  - intros i Hi. unfold proxyOf. rewrite !getAllDs_ok by done. rewrite !bind_Some_eq. cbn [half]. fold (q i) (d i). case_bool_decide as Hq; cbn [negb].
    2: { by rewrite decide_False by tauto. }
    case_bool_decide as Hsort.
    + rewrite decide_False; [done|]. intros [_ Hp]. apply Hp. rewrite <-(merge_sort_Permutation Z.le (q i)), Hsort. apply merge_sort_Permutation.
    + rewrite decide_True.
      * specialize (Hne i Hi). fold (d i) in Hne. destruct (d i) as [|x l] eqn:Ed; [done|]. cbn [lookup list_lookup head option_list]. rewrite bind_Some_eq.
        rewrite (proj2 (Z.eqb_neq x 0)); [done|]. assert (x ∈ d i) as Hx by (rewrite Ed; left). unfold d, nonzero in Hx. by apply list_elem_of_filter in Hx as [Hx _].
      * split; [done|]. intros Hp. apply Hsort. apply (StronglySorted_unique Z.le); [apply (StronglySorted_merge_sort Z.le)..|]. by rewrite !merge_sort_Permutation.
  - exists s. split; [done|]. intros x. rewrite Hs. split.
    + intros (i & Hi & Hx). destruct (decide _) as [[Hq Hp]|]; [|by apply not_elem_of_nil in Hx]. exists i. split; [done|]. split; [done|]. split; [done|].
      fold (d i). destruct (head (d i)); cbn in Hx; [|by apply not_elem_of_nil in Hx]. by apply list_elem_of_singleton in Hx as ->.
    + intros (i & Hi & Hq & Hp & Hx). exists i. split; [done|]. rewrite decide_True by done. fold (d i) in Hx. rewrite Hx. cbn. left.
Qed.
End updated.

(** *** The loops of the update *)

Lemma needMigrate_ok i dest : 0 <= i < b → needMigrate t b c i dest = Some (bool_decide (dest ∉ rowAt t b c 0 i)).
Proof using Hb Hc Hbc Hlen.
  intros Hi. unfold needMigrate, rowAt. assert (Hg : ∀ js need, (∀ j, j ∈ js → 0 <= j < c) →
    run_all (λ j need, if (need : bool) then s ← at_word t (i + b * j); Some (negb (dest =? s)) else Some false) js need =
    Some (need && bool_decide (dest ∉ cellAt t b 0 i <$> js))).
  { induction js as [|j js IH]; intros need Hjs; [cbn; by rewrite andb_true_r|]. cbn [run_all].
    destruct need; [|rewrite bind_Some_eq, IH by (intros; apply Hjs; by right); done].
    pose proof (at_server_cell 0 i j ltac:(nia) Hi ltac:(apply Hjs; left)) as Ha. rewrite Z.add_0_l in Ha. rewrite Ha, !bind_Some_eq, IH by (intros; apply Hjs; by right).
    f_equal. rewrite fmap_cons. cbn [andb]. destruct (Z.eqb_spec dest (cellAt t b 0 i j)) as [->|Hne]; cbn [negb andb].
    - rewrite bool_decide_eq_false_2; [done|]. intros Hn. apply Hn. left.
    - apply bool_decide_ext. rewrite not_elem_of_cons. tauto. }
  rewrite Hg by (intros j ?%elem_of_seqZ; lia). done.
Qed.

Lemma migratesOf_ok i mg : 0 <= i < b → migratesOf t b c (b * c) i mg = Some (note i (missing t b c i) mg).
Proof using Hb Hc Hbc Hlen.
  intros Hi. unfold migratesOf, missing. unfold rowAt at 2. assert (Hg : ∀ js mg, (∀ j, j ∈ js → 0 <= j < c) →
    run_all (λ j mg, dest ← at_word t (b * c + (i + b * j)); need ← needMigrate t b c i dest;
      Some (if (need : bool) then <[i := default [] (mg !! i) ++ [dest]]> mg else mg)) js mg =
    Some (note i (filter (λ d, d ∉ rowAt t b c 0 i) (cellAt t b (b * c) i <$> js)) mg)).
  { induction js as [|j js IH]; intros mg0 Hjs; [done|]. cbn [run_all]. rewrite at_server_cell by (nia || (apply Hjs; left)). rewrite bind_Some_eq, needMigrate_ok, !bind_Some_eq by done.
    rewrite IH by (intros; apply Hjs; by right). f_equal. rewrite fmap_cons, filter_cons. case_bool_decide as E.
    - rewrite decide_True by done. etransitivity; [|apply (note_app i [cellAt t b (b * c) i j])]. done.
    - by rewrite decide_False by tauto. }
  rewrite Hg by (intros j ?%elem_of_seqZ; lia). done.
Qed.

(** The buckets of the words of this server among those from [lo] on. *)
Definition own (lo : Z) (n : nat) : list Z := (λ i, i mod b) <$> filter (λ i, t !! Z.to_nat i = Some self) (seqZ lo (Z.of_nat n)).

Lemma own_S lo n :
  own lo (S n) = own lo n ++ (if decide (t !! Z.to_nat (lo + Z.of_nat n) = Some self) then [(lo + Z.of_nat n) mod b] else []).
Proof using Type.
  unfold own. rewrite seqZ_S, list.filter_app, fmap_app. f_equal. rewrite filter_cons, filter_nil. by destruct (decide _).
Qed.

Lemma scan_ok n :
  Z.of_nat n <= b * c →
  ∃ av mg, run_all (scan_step self t b c (b * c)) (seqZ 0 (Z.of_nat n)) (∅, [], ∅) = Some (av, own 0 n, mg) ∧ av = list_to_set (take n t) ∧
    ∀ k, mg !! k = if decide (0 <= k < Z.of_nat n ∧ handedOver t b c self k ≠ []) then Some (handedOver t b c self k) else None.
Proof using Hb Hc Hbc Hlen.
  induction n as [|n IH]; intros Hn.
  { exists ∅, ∅. split; [done|]. split; [done|]. intros k. rewrite lookup_empty, decide_False; [done|lia]. }
  destruct IH as (av & mg & Hr & Hav & Hmg); [lia|]. rewrite seqZ_S, run_all_app, Hr, bind_Some_eq. cbn [run_all scan_step]. rewrite Z.add_0_l.
  destruct (lookup_lt_is_Some_2 t n) as [x Hx]; [lia|]. unfold at_word. rewrite (proj2 (Z.ltb_ge (Z.of_nat n) 0)), Nat2Z.id, Hx, bind_Some_eq by lia.
  assert (Hav' : {[x]} ∪ av = list_to_set (take (S n) t)).
  { rewrite (take_S_r _ _ _ Hx), list_to_set_app_L. cbn. subst av. rewrite (right_id_L ∅ (∪)). apply (comm_L (∪)). }
  rewrite own_S, Z.add_0_l, Nat2Z.id, Hx. destruct (Z.eqb_spec x self) as [->|Hne].
  - rewrite decide_True by done. rewrite (proj2 (Z.ltb_lt (b * c) _)), andb_true_r by nia.
    assert (Hstep : (if Z.of_nat n <? b then migratesOf t b c (b * c) (Z.of_nat n) mg else Some mg) = Some (note (Z.of_nat n) (handedOver t b c self (Z.of_nat n)) mg)).
    { unfold handedOver. rewrite Nat2Z.id, Hx. destruct (Z.ltb_spec (Z.of_nat n) b); [rewrite decide_True by (split; [lia|done]); apply migratesOf_ok; lia|].
      rewrite decide_False by lia. done. }
    rewrite Hstep, !bind_Some_eq. eexists _, _. split; [done|]. split; [exact Hav'|]. intros k. rewrite note_lookup, !Hmg, (decide_False (P := 0 <= Z.of_nat n < Z.of_nat n ∧ _)) by lia. cbn [default app].
    destruct (decide (k = Z.of_nat n ∧ _)) as [[-> Hk]|Hk]; [by rewrite decide_True by (split; [lia|done])|]. apply decide_ext. split; [intros [??]; split; [lia|done]|].
    intros [Hr1 Hr2]. split; [|done]. destruct (decide (k = Z.of_nat n)) as [->|]; [tauto|lia].
  - rewrite decide_False by congruence. rewrite bind_Some_eq, app_nil_r. exists ({[x]} ∪ av), mg. split; [done|]. split; [exact Hav'|]. intros k. rewrite Hmg. apply decide_ext.
    split; [intros [??]; split; [lia|done]|]. intros [Hr1 Hr2]. split; [|done]. destruct (decide (k = Z.of_nat n)) as [->|]; [|lia]. exfalso. apply Hr2. unfold handedOver.
    rewrite Nat2Z.id, Hx, decide_False; [done|]. intros [_ [= ->]]. done.
Qed.

Lemma pad_addrs_ok n av :
  Z.of_nat n <= b * c →
  run_all (pad_step self t b) (seqZ (b * c) (Z.of_nat n)) (av, []) = Some (list_to_set (take n (drop (Z.to_nat (b * c)) t)) ∪ av, own (b * c) n).
Proof using Hb Hc Hbc Hlen.
  induction n as [|n IH]; intros Hn; [cbn [Z.of_nat take list_to_set]; rewrite seqZ_nil by lia; cbn [run_all]; rewrite take_0; cbn [list_to_set]; by rewrite union_empty_l_L|]. rewrite seqZ_S, run_all_app, IH, bind_Some_eq by lia. cbn [run_all]. unfold pad_step, at_word.
  destruct (lookup_lt_is_Some_2 t (Z.to_nat (b * c + Z.of_nat n))) as [x Hx]; [nia|]. rewrite (proj2 (Z.ltb_ge _ _)), Hx, !bind_Some_eq by nia. cbn [fst snd].
  rewrite own_S, Hx. f_equal. f_equal.
  - rewrite (take_S_r _ _ x), list_to_set_app_L; [cbn; rewrite (right_id_L ∅ (∪)), (assoc_L (∪)); f_equal; apply (comm_L (∪))|]. rewrite lookup_drop, <-Hx. f_equal. nia.
  - destruct (Z.eqb_spec x self) as [->|]; [by rewrite decide_True|]. rewrite decide_False by congruence. by rewrite app_nil_r.
Qed.

Lemma own_elem off k :
  off = 0 ∨ off = b * c → k ∈ own off (Z.to_nat (b * c)) ↔ 0 <= k < b ∧ self ∈ rowAt t b c off k.
Proof using Hb Hc Hbc Hlen.
  intros Hoff. assert (Ho : 0 <= off <= b * c) by nia. assert (Hmod : ∀ i j, 0 <= i < b → (off + (i + b * j)) mod b = i).
  { intros i j Hi. destruct Hoff as [->| ->]; [rewrite Z.add_0_l|replace (b * c + (i + b * j)) with (i + (c + j) * b) by lia; rewrite Z.mod_add by lia; by apply Z.mod_small].
    rewrite (Z.mul_comm b), Z.mod_add by lia. by apply Z.mod_small. }
  unfold own. rewrite list_elem_of_fmap. split.
  - intros (w & -> & [Hw Hin]%list_elem_of_filter). apply elem_of_seqZ in Hin. rewrite Z2Nat.id in Hin by nia.
    pose proof (Z.div_mod (w - off) b) as Hd. pose proof (Z.mod_pos_bound (w - off) b Hb) as Hm. set (i := (w - off) mod b) in *. set (j := (w - off) / b) in *.
    assert (Hj : 0 <= j < c) by nia. assert (Hw' : w = off + (i + b * j)) by lia. rewrite Hw', Hmod by done. split; [done|]. unfold rowAt. apply list_elem_of_fmap.
    exists j. split; [|apply elem_of_seqZ; lia]. unfold cellAt. rewrite <-Hw', Hw. done.
  - intros [Hk Hin]. unfold rowAt in Hin. apply list_elem_of_fmap in Hin as (j & Hs & Hj). apply elem_of_seqZ in Hj. exists (off + (k + b * j)). split; [by rewrite Hmod|].
    apply list_elem_of_filter. split; [|apply elem_of_seqZ; nia]. pose proof (at_server_cell off k j Ho Hk ltac:(lia)) as Ha. unfold at_word in Ha.
    rewrite (proj2 (Z.ltb_ge _ _)) in Ha by nia. by rewrite Ha, Hs.
Qed.
End Tables.

(** ** The buckets that may be served *)

Lemma ValidBucket_add_ok ks v :
  length (m_bucketArray v) = Z.to_nat sMaxBucketNumber → Forall (λ k, 0 <= k < sMaxBucketNumber) ks →
  ∃ v', ValidBucket_add ks v = Some v' ∧ length (m_bucketArray v') = length (m_bucketArray v) ∧ m_fromMaster v' = m_fromMaster v ∧
    ∀ k, 0 <= k < sMaxBucketNumber → m_bucketArray v' !! Z.to_nat k = if decide (k ∈ ks) then Some 1 else m_bucketArray v !! Z.to_nat k.
Proof.
  intros Hl Hks. unfold ValidBucket_add.
  assert (Hg : ∀ l, length l = Z.to_nat sMaxBucketNumber → ∃ l', foldl (λ l i, l ← l; ValidBucket_add1 l i) (Some l) ks = Some l' ∧ length l' = length l ∧
    ∀ k, 0 <= k < sMaxBucketNumber → l' !! Z.to_nat k = if decide (k ∈ ks) then Some 1 else l !! Z.to_nat k).
  { clear v Hl. induction Hks as [|i ks Hi Hks IH]; intros l Hl; cbn [foldl].
    { exists l. split; [done|]. split; [done|]. intros k Hk. by rewrite decide_False by apply not_elem_of_nil. }
    rewrite bind_Some_eq. unfold ValidBucket_add1 at 2. rewrite (proj2 (Z.leb_le _ _)), (proj2 (Z.ltb_lt _ _)) by lia. cbn [andb].
    destruct (IH (<[Z.to_nat i := 1]> l)) as (l' & -> & Hl' & Hk'); [by rewrite length_insert|]. exists l'. split; [done|]. split; [by rewrite Hl', length_insert|].
    intros k Hk. rewrite Hk' by done. destruct (decide (k ∈ ks)) as [Hin|Hout]; [by rewrite decide_True by (by right)|].
    destruct (decide (k = i)) as [->|Hne]; [rewrite decide_True by (by left); apply list_lookup_insert_eq; lia|].
    rewrite decide_False by (rewrite elem_of_cons; tauto). apply list_lookup_insert_ne. lia. }
  destruct (Hg (m_bucketArray v) Hl) as (l' & -> & Hl' & Hk'). rewrite bind_Some_eq. by eexists.
Qed.

(** ** The update *)

Record updated_to (self : Z) (t : list Z) (version c b : Z) (fromMaster : bool) (m m' : server_tables) : Prop := {
  ut_table : server_table m' = Some t ∧ table_version m' = version ∧ copy_count m' = c ∧ bucket_count m' = b;
  ut_holding k : k ∈ holding_buckets m' ↔ 0 <= k < b ∧ self ∈ rowAt t b c 0 k;
  ut_padding k : k ∈ padding_buckets m' ↔ 0 <= k < b ∧ self ∈ rowAt t b c (b * c) k;
  ut_release k : count_occ Z.eq_dec (release_buckets m') k = (count_occ Z.eq_dec (holding_buckets m) k - count_occ Z.eq_dec (holding_buckets m') k)%nat;
  ut_available : available_server_ids m' = list_to_set t;
  ut_migrates k : tm_migrates m' !! k = if decide (handedOver t b c self k = []) then None else Some (handedOver t b c self k);
  ut_valid k : 0 <= k < sMaxBucketNumber →
    ValidBucket_valid k (validBucketMgn m') = Some (negb fromMaster || bool_decide (k ∈ holding_buckets m' ∨ k ∈ padding_buckets m'));
  ut_slaves x : x ∈ allSlaveServerIds m' ↔
    x ≠ 0 ∧ ∃ i mig, 0 <= i < b ∧ cellAt t b (half b c mig) i 0 = self ∧ x ∈ tail (rowAt t b c (half b c mig) i);
  ut_proxies x : x ∈ allProxyServerIds m' ↔
    ∃ i, 0 <= i < b ∧ self ∈ nonzero (rowAt t b c 0 i) ∧ ¬ nonzero (rowAt t b c 0 i) ≡ₚ nonzero (rowAt t b c (b * c) i) ∧
         head (nonzero (rowAt t b c (b * c) i)) = Some x }.

Lemma valid_of l k fromMaster (P : Prop) `{!Decision P} :
  0 <= k < sMaxBucketNumber → l !! Z.to_nat k = Some (if decide P then 1 else 0) →
  ValidBucket_valid k (setFromMaster fromMaster {| m_bucketArray := l; m_fromMaster := false |}) = Some (negb fromMaster || bool_decide P).
Proof.
  intros Hk Hl. unfold ValidBucket_valid, setFromMaster. cbn [m_fromMaster m_bucketArray]. destruct fromMaster; [|done]. cbn [negb orb].
  rewrite (proj2 (Z.leb_le _ _)), (proj2 (Z.ltb_lt _ _)) by lia. cbn [andb]. rewrite Hl, bind_Some_eq. by destruct (decide P) as [HP|HP]; [rewrite bool_decide_eq_true_2|rewrite bool_decide_eq_false_2].
Qed.

(** C35: what a storage server knows after a new table.  For a table of two halves, of at most as many buckets as there are bits for them, in
    which every bucket has a server in the second half, the
    update ends, and: the buckets it holds and those it will hold are the rows with its address in the first and in the second half; released are
    those it held before, as many times more as it held them; the servers are all in the table; a bucket it is master of migrates to the servers of the second half that
    do not have it; the store serves the buckets held now or later, when the table came from the master; the slaves are the other servers of the rows it is
    master of, in either half; and proxies are the first servers of the second half of the rows it holds that change. *)
Theorem server_table_update self (t : list Z) version c b fromMaster m :
  0 < b <= sMaxBucketNumber → 0 < c → 2 * (b * c) + b < 2 ^ 31 → Z.of_nat (length t) = 2 * (b * c) →
  (∀ i, 0 <= i < b → nonzero (rowAt t b c (b * c) i) ≠ []) →
  ∃ m', doUpdateTable self t version c b fromMaster m = Some m' ∧ updated_to self t version c b fromMaster m m'.
Proof.
  intros [Hb Hmax] Hc Hbc Hlen Hne. assert (Hhs : u32 (b * c) = b * c) by (apply u32_id; unfold is_u32; nia). unfold doUpdateTable. rewrite Hhs.
  rewrite (proj2 (Z.eqb_neq (b * c) 0)) by nia. rewrite Hlen, Z.mod_mul by nia. cbn [negb andb Z.eqb assert_that]. rewrite bind_Some_eq.
  destruct (scan_ok t b c Hb Hc Hbc Hlen self (Z.to_nat (b * c))) as (av & mg & Hscan & Hav & Hmg); [lia|]. rewrite Z2Nat.id in Hscan, Hmg by nia. rewrite Hscan, bind_Some_eq.
  rewrite (proj2 (Z.ltb_lt (b * c) _)) by nia. rewrite u32_id by (unfold is_u32; nia). replace (2 * (b * c) - b * c) with (b * c) by lia.
  pose proof (pad_addrs_ok t b c Hb Hc Hbc Hlen self (Z.to_nat (b * c)) av) as Hpad. rewrite Z2Nat.id in Hpad by nia. rewrite Hpad, bind_Some_eq by lia. clear Hscan Hpad.
  set (hold := merge_sort Z.le (own t b self 0 (Z.to_nat (b * c)))). set (pad := own t b self (b * c) (Z.to_nat (b * c))).
  assert (Hhold : ∀ k, k ∈ hold ↔ 0 <= k < b ∧ self ∈ rowAt t b c 0 k).
  { intros k. unfold hold. rewrite (merge_sort_Permutation Z.le). apply (own_elem t b c Hb Hc Hbc Hlen self 0 k). by left. }
  assert (Hpad : ∀ k, k ∈ pad ↔ 0 <= k < b ∧ self ∈ rowAt t b c (b * c) k) by (intros k; apply (own_elem t b c Hb Hc Hbc Hlen self (b * c) k); by right).
  destruct (ValidBucket_add_ok hold ValidBucket_clean) as (v1 & -> & Hl1 & Hf1 & Hv1).
  { apply length_replicate. } { apply list.Forall_forall. intros k Hk. apply Hhold in Hk. lia. }
  destruct (ValidBucket_add_ok pad v1) as (v2 & E2 & Hl2 & Hf2 & Hv2).
  { rewrite Hl1. apply length_replicate. } { apply list.Forall_forall. intros k Hk. apply Hpad in Hk. lia. }
  rewrite bind_Some_eq, E2, bind_Some_eq. set (m1 := Build_server_tables _ _ _ _ _ _ _ _ _ _ _ _).
  destruct (slaves_ok t b c Hb Hc Hbc Hlen self m1) as (sl & -> & Hsl); [done..|]. rewrite bind_Some_eq.
  destruct (proxies_ok t b c Hb Hc Hbc Hlen self m1) as (pr & -> & Hpr); [done..|]. rewrite bind_Some_eq. eexists. split; [done|].
  split; cbn [server_table table_version copy_count bucket_count holding_buckets padding_buckets release_buckets available_server_ids tm_migrates validBucketMgn allSlaveServerIds allProxyServerIds]; try done.
  - intros k. rewrite set_difference_count by (apply (StronglySorted_merge_sort Z.le)). by rewrite (proj1 (Permutation_count_occ Z.eq_dec _ _) (merge_sort_Permutation Z.le (holding_buckets m)) k).
  - subst av. rewrite (comm_L (∪)), <-list_to_set_app_L. rewrite (take_ge (drop _ _)) by (rewrite length_drop; lia). by rewrite take_drop.
  - intros k. rewrite Hmg. destruct (decide (handedOver t b c self k = [])) as [E|E]; [by rewrite decide_False by tauto|]. rewrite decide_True; [done|]. split; [|done].
    unfold handedOver in E. destruct (decide (0 <= k < b ∧ _)) as [[Hk _]|]; [nia|done].
  - intros k Hk. rewrite Hf1 in Hf2. destruct v2 as [l2 f2]. cbn [m_fromMaster m_bucketArray] in *. subst f2. apply valid_of; [done|]. rewrite Hv2, Hv1 by done.
    assert (Hz : m_bucketArray ValidBucket_clean !! Z.to_nat k = Some 0) by (apply lookup_replicate_2; lia). rewrite Hz.
    destruct (decide (k ∈ pad)), (decide (k ∈ hold)), (decide (k ∈ hold ∨ k ∈ pad)); tauto || done.
Qed.

(** Two buckets of two copies; the second bucket moves from server 8 to server 9. *)
Definition demo_table : list Z := [7; 8; 8; 7; 7; 9; 8; 7].

Lemma server_table_update_witness :
  ∃ m', doUpdateTable 8 demo_table 3 2 2 true TableMgr_new = Some m' ∧ updated_to 8 demo_table 3 2 2 true TableMgr_new m' ∧
    tm_migrates m' !! 1 = Some [9] ∧ (1 ∈ holding_buckets m') ∧ (1 ∉ padding_buckets m').
Proof.
  destruct (server_table_update 8 demo_table 3 2 2 true TableMgr_new) as (m' & E & H).
  - unfold sMaxBucketNumber. lia.
  - lia.
  - lia.
  - done.
  - intros i Hi. assert (i = 0 ∨ i = 1) as [-> | ->] by lia; by vm_compute.
  - exists m'. split; [exact E|]. split; [exact H|]. rewrite (ut_migrates _ _ _ _ _ _ _ _ H), (ut_holding _ _ _ _ _ _ _ _ H), (ut_padding _ _ _ _ _ _ _ _ H).
    split; [by vm_compute|]. split.
    + split; [lia|]. apply (bool_decide_unpack _). by vm_compute.
    + intros [_ Hin]. revert Hin. apply (bool_decide_unpack _). by vm_compute.
Defined.

(** ** Tables without a second half *)

(** The update allows them, but the slaves and proxies of the second half are read all the same, behind the end of the table. *)
Lemma short_table_overrun self t version c b fromMaster m :
  0 < b → 0 < c → 2 * (b * c) + b < 2 ^ 31 → Z.of_nat (length t) = b * c → doUpdateTable self t version c b fromMaster m = None.
Proof.
  intros Hb Hc Hbc Hlen. unfold doUpdateTable. assert (Hhs : u32 (b * c) = b * c) by (apply u32_id; unfold is_u32; nia). rewrite Hhs.
  destruct (assert_that _); [|done]. rewrite bind_Some_eq. destruct (run_all (scan_step _ _ _ _ _) _ _) as [[[av hold] mg]|]; [|done]. rewrite bind_Some_eq.
  rewrite (proj2 (Z.ltb_ge (b * c) _)) by lia. rewrite bind_Some_eq. destruct (ValidBucket_add _ ValidBucket_clean) as [v1|]; [|done]. rewrite bind_Some_eq.
  destruct (ValidBucket_add [] v1) as [v2|]; [|done]. rewrite bind_Some_eq. set (m1 := Build_server_tables _ _ _ _ _ _ _ _ _ _ _ _).
  assert (Hs : getSlaves self 0 true m1 = None).
  { unfold getSlaves, getHashTableSize. cbn [server_table m1 bucket_count copy_count]. rewrite bind_Some_eq, Hhs. rewrite (i32_id (0 + b)), (i32_id (0 + b + b * c)) by nia. rewrite u32_id by (unfold is_u32; nia).
    unfold at_word. rewrite (proj2 (Z.ltb_ge _ 0)) by nia. rewrite (lookup_ge_None_2 t) by lia. done. }
  unfold computeAllSlaveServerIds, collect. cbn [bucket_count m1]. rewrite seqZ_cons by lia. cbn [run_all]. rewrite Hs. by destruct (getSlaves self 0 false m1).
Qed.
