(* ===== verification/Shell.v ===== *)
(** * The command line of the client

    src/src/client/kv_client.{h,cc}, class [KvClient]: the options of the program, a line of text cut into a command and its parameters, and what each
    command asks of the client library (module [Client]).  Text is its bytes; a line lies in memory with a 0 behind it and is cut up there.
    [None] is an access outside of the line.  What is printed is not modelled, except for which help is. *)
From S2P Require Import Prelude Strings Config Client.

Definition sCmdMaxLine : Z := 4096.

Inductive cmd := CHelp | CQuit | CPut | CGet | CGetpb | CLocate | CRemove | CDelall | CStat.
#[export] Instance cmd_eq_dec : EqDecision cmd.
Proof. solve_decision. Defined.

(** help, quit, exit, put, get, getpb, locate, remove, delall, stat. *)
Definition cmd_map : list (list Z * cmd) :=
  [([104; 101; 108; 112], CHelp); ([113; 117; 105; 116], CQuit); ([101; 120; 105; 116], CQuit); ([112; 117; 116], CPut); ([103; 101; 116], CGet);
   ([103; 101; 116; 112; 98], CGetpb); ([108; 111; 99; 97; 116; 101], CLocate); ([114; 101; 109; 111; 118; 101], CRemove);
   ([100; 101; 108; 97; 108; 108], CDelall); ([115; 116; 97; 116], CStat)].
Definition find_cmd (s : list Z) : option cmd := p ← list_find (λ e, e.1 = s) cmd_map; Some p.2.2.

(** ** A line *)

Definition char_at (m : list Z) (i : Z) : option Z := if i <? 0 then None else m !! Z.to_nat i.

(** The loop over the white space at the end, which has no lower bound. *)
Fixpoint back_over (fuel : nat) (m : list Z) (p : Z) : option Z :=
  match fuel with
  | O => None
  | S fuel => c ← char_at m (p - 1); if (c =? 32) || (c =? 10) || (c =? 13) then back_over fuel m (p - 1) else Some p
  end.

Fixpoint skip_blanks (s : list Z) : nat := match s with 32 :: s => S (skip_blanks s) | _ => O end.

(** [strToLower] in place. *)
Fixpoint lower_mem (l : list Z) : option (list Z) :=
  match l with
  | [] => None
  | c :: l =>
      if c =? 0 then Some (c :: l)
      else if Z.testbit c 7 then match l with [] => None | c2 :: l => r ← lower_mem l; Some (c :: c2 :: r) end
      else r ← lower_mem l; Some ((if (65 <=? c) && (c <=? 90) then c + 32 else c) :: r)
  end.

(** The pieces between spaces that [strsep] gives. *)
Fixpoint split_on (d : Z) (s : list Z) : list (list Z) :=
  match s with
  | [] => [[]]
  | c :: s => if c =? d then [] :: split_on d s else match split_on d s with p :: ps => (c :: p) :: ps | [] => [[c]] end
  end.

(** The second half of [parseCmd], from the first word on: a command with its parameters, or nothing. *)
Definition parse_words (line : list Z) : option (option (cmd * list (list Z))) :=
  match list_find (.= 32) (cut0 line) with
  | Some (token, _) =>
      l ← lower_mem (<[token := 0]> line);
      Some (x ← find_cmd (cut0 l); Some (x, filter (λ p, p ≠ []) (split_on 32 (cut0 (drop (S token) l)))))
  | None => l ← lower_mem line; Some (x ← find_cmd (cut0 l); Some (x, []))
  end.

Definition parseCmd (key_str : list Z) : option (option (cmd * list (list Z))) :=
  let m := key_str ++ [0] in
  let key := skip_blanks m in
  p ← back_over (S (length m)) m (Z.of_nat (key + length (cut0 (drop key m))));
  let m := <[Z.to_nat p := 0]> m in
  c ← m !! key;
  if c =? 0 then Some None else parse_words (drop key m).

(** ** Commands *)

Inductive action :=
| AHelp (topic : option (list Z))
| APut (ns : Z) (key data : list Z) (expired : Z)
| AGet (ns : Z) (key : list Z)
| ALocate (key : list Z)
| ARemove (ns : Z) (key : list Z)
| AInvalid (ns : Z)
| AClear (ns : Z)
| ANothing.

Definition default_area : Z := 0.

(** The [do_cmd] functions, up to the call of the client library; [getpb] makes the call of [get]. *)
Definition do_cmd (x : cmd) (param : list (list Z)) : action :=
  let n := Z.of_nat (length param) in
  let at_ (i : nat) := default [] (param !! i) in
  let name : list Z := default [] (p ← list_find (λ e, e.2 = x) cmd_map; Some p.2.1) in
  match x with
  | CHelp => AHelp (if n =? 0 then None else Some (at_ 0%nat))
  | CQuit | CStat => ANothing
  | CPut =>
      if (n <? 2) || (4 <? n) then AHelp (Some name)
      else APut (if 2 <? n then atoi (at_ 2%nat) else default_area) (at_ 0%nat) (at_ 1%nat) (if 3 <? n then atoi (at_ 3%nat) else 0)
  | CGet | CGetpb => if (n <? 1) || (2 <? n) then AHelp (Some name) else AGet (if 2 <=? n then atoi (at_ 1%nat) else default_area) (at_ 0%nat)
  | CLocate => if n <? 1 then AHelp (Some name) else ALocate (at_ 0%nat)
  | CRemove => if n <? 2 then AHelp (Some name) else ARemove (if 2 <=? n then atoi (at_ 1%nat) else default_area) (at_ 0%nat)
  | CDelall => if negb (n =? 1) then AHelp (Some name) else let area := atoi (at_ 0%nat) in if area <? -4 then AInvalid area else AClear area
  end.

(** The commands of the option [-l], between semicolons; those that are not known are left out. *)
Fixpoint run_cmds (lines : list (list Z)) : option (list action) :=
  match lines with
  | [] => Some []
  | s :: lines => x ← parseCmd s; r ← run_cmds lines; Some (match x with Some (c, ps) => do_cmd c ps :: r | None => r end)
  end.
Definition run_line (cmd_line : list Z) : option (list action) := l ← tokenize cmd_line [59]; run_cmds l.

(** The lines at the prompt, up to the command to quit. *)
Fixpoint run_prompt (lines : list (list Z)) : option (list action) :=
  match lines with
  | [] => Some []
  | s :: lines =>
      x ← parseCmd s;
      match x with
      | None => run_prompt lines
      | Some (CQuit, _) => Some []
      | Some (c, ps) => r ← run_prompt lines; Some (do_cmd c ps :: r)
      end
  end.

(** What is asked of the client library. *)
Section perform.
Context `{ClientCodec} (junk : nat → Z) (rpc : Z → list Z → Z * option (list Z)).

Definition perform (a : action) (c : api) : option api :=
  match a with
  | APut ns key data expired => '(_, c) ← KvClientApi_put junk rpc ns key data (u32 expired) c; Some c
  | AGet ns key => '(_, _, c) ← KvClientApi_get junk rpc ns key c; Some c
  | ALocate key => _ ← getServerId key c; Some c
  | ARemove ns key => _ ← KvClientApi_remove ns key c; Some c
  | _ => Some c
  end.
End perform.

(** ** Options *)

Inductive opt_arg := OptMeta (s : list Z) | OptData (s : list Z) | OptLine (s : list Z) | OptFile (s : list Z) | OptVerbose | OptVersion | OptHelp | OptOther.

Record options := { server_addr : list Z; is_config_server : bool; is_data_server : bool; cmd_line : list Z; cmd_file_name : list Z }.
Definition options_new : options := {| server_addr := []; is_config_server := false; is_data_server := false; cmd_line := []; cmd_file_name := [] |}.

(** The loop over what [getopt_long] gives; [None] ends the program. *)
Fixpoint parseOpts (opts : list opt_arg) (o : options) : option options :=
  match opts with
  | [] => if decide (server_addr o = []) then None else Some o
  | OptMeta s :: opts =>
      if negb (bool_decide (server_addr o = [])) && negb (is_config_server o) then None
      else parseOpts opts (Build_options s true (is_data_server o) (cmd_line o) (cmd_file_name o))
  | OptData s :: opts =>
      if negb (bool_decide (server_addr o = [])) && is_config_server o then None
      else parseOpts opts (Build_options s (is_config_server o) true (cmd_line o) (cmd_file_name o))
  | OptLine s :: opts => parseOpts opts (Build_options (server_addr o) (is_config_server o) (is_data_server o) s (cmd_file_name o))
  | OptFile s :: opts => parseOpts opts (Build_options (server_addr o) (is_config_server o) (is_data_server o) (cmd_line o) s)
  | (OptVersion | OptHelp) :: _ => None
  | (OptVerbose | OptOther) :: opts => parseOpts opts o
  end.
