(* ===== verification/ShellSpec.v ===== *)
(** * The command line of the client: lines and their commands *)
From S2P Require Import Prelude Strings Config ConfigSpec Client Shell.

(** ** Words *)

(** Characters of words, and of the space behind them. *)
Definition plain (c : Z) : Prop := c ≠ 0 ∧ c ≠ 10 ∧ c ≠ 13 ∧ c ≠ 32.
Definition blank (c : Z) : Prop := c = 32 ∨ c = 10 ∨ c = 13.

Definition lower (c : Z) : Z := if (65 <=? c) && (c <=? 90) then c + 32 else c.

(** Words with at least one space before each. *)
Definition spaced (ws : list (nat * list Z)) : list Z := mjoin ((λ '(k, w), replicate (S k) 32 ++ w) <$> ws).

Lemma skip_blanks_at n c l : c ≠ 32 → skip_blanks (replicate n 32 ++ c :: l) = n.
Proof.
  intros Hc. induction n as [|n IH]; cbn; [|by rewrite IH]. destruct c as [|p|p]; try done. do 6 (destruct p; try done).
Qed.

Lemma lower_mem_word w l : Forall (λ c, plain c ∧ Z.testbit c 7 = false) w → lower_mem (w ++ 0 :: l) = Some ((lower <$> w) ++ 0 :: l).
Proof.
  induction 1 as [|c w [Hc Hb] _ IH]; [done|]. cbn [app lower_mem]. rewrite (proj2 (Z.eqb_neq c 0)) by apply Hc. rewrite Hb, IH. done.
Qed.

Lemma lower_no_zero w : Forall (λ c, plain c ∧ Z.testbit c 7 = false) w → 0 ∉ lower <$> w.
Proof.
  intros Hw (c & Hc & Hin)%list_elem_of_fmap. rewrite list.Forall_forall in Hw. destruct (Hw c Hin) as [[H0 _] _]. unfold lower in Hc. destruct (Z.leb_spec 65 c), (Z.leb_spec c 90); cbn [andb] in Hc; lia.
Qed.

Lemma split_on_word w l : 32 ∉ w → split_on 32 (w ++ 32 :: l) = w :: split_on 32 l.
Proof.
  induction w as [|c w IH]; [done|]. rewrite not_elem_of_cons. intros [Hc Hw]. cbn [app split_on]. rewrite (proj2 (Z.eqb_neq c 32)) by done. by rewrite IH.
Qed.

Lemma split_on_last w : 32 ∉ w → split_on 32 w = [w].
Proof.
  induction w as [|c w IH]; [done|]. rewrite not_elem_of_cons. intros [Hc Hw]. cbn [split_on]. rewrite (proj2 (Z.eqb_neq c 32)) by done. by rewrite IH.
Qed.

Definition words (s : list Z) : list (list Z) := filter (λ p, p ≠ []) (split_on 32 s).

Lemma words_blank s : words (32 :: s) = words s.
Proof. unfold words. cbn [split_on Z.eqb Pos.eqb]. by rewrite filter_cons, decide_False by (intros []; done). Qed.

Lemma words_blanks n s : words (replicate n 32 ++ s) = words s.
Proof. induction n as [|n IH]; [done|]. cbn [replicate app]. by rewrite words_blank. Qed.

Definition word_ok (w : list Z) : Prop := w ≠ [] ∧ Forall plain w.

Lemma word_no_space w : word_ok w → 32 ∉ w.
Proof. intros [_ Hw] Hin. rewrite list.Forall_forall in Hw. destruct (Hw _ Hin) as (_ & _ & _ & ?). done. Qed.

Lemma spaced_cons k w ws : spaced ((k, w) :: ws) = 32 :: replicate k 32 ++ w ++ spaced ws.
Proof. unfold spaced. cbn. by rewrite <-app_assoc. Qed.

Lemma words_first w s : word_ok w → words (w ++ 32 :: s) = w :: words s.
Proof. intros Hw. unfold words. rewrite split_on_word by (by apply word_no_space). by rewrite filter_cons_True by apply Hw. Qed.

Lemma words_spaced ws : Forall (λ p, word_ok p.2) ws → words (spaced ws) = ws.*2.
Proof.
  assert (Hg : ∀ w ws, word_ok w → Forall (λ p : nat * list Z, word_ok p.2) ws → words (w ++ spaced ws) = w :: ws.*2).
  { intros w ws' Hw Hws. revert w Hw. induction Hws as [|[k v] ws' Hv Hws IH]; intros w Hw.
    - unfold words. rewrite app_nil_r, split_on_last by (by apply word_no_space). rewrite filter_cons_True by apply Hw. done.
    - rewrite spaced_cons, words_first, words_blanks, IH by done. done. }
  destruct 1 as [|[k w] ws Hw Hws]; [done|]. rewrite spaced_cons, words_blank, words_blanks. by apply Hg.
Qed.

(** ** A line in memory *)

Lemma char_at_mid a x l : char_at (a ++ x :: l) (Z.of_nat (length a)) = Some x.
Proof. unfold char_at. rewrite (proj2 (Z.ltb_ge _ _)), Nat2Z.id by lia. by rewrite list_lookup_middle. Qed.

Lemma back_over_ok a x bs rest fuel :
  ¬ blank x → Forall blank bs → (length bs < fuel)%nat →
  back_over fuel (a ++ x :: bs ++ rest) (Z.of_nat (length a + S (length bs))) = Some (Z.of_nat (S (length a))).
Proof.
  intros Hx. revert rest fuel. induction bs as [|c bs IH] using rev_ind; intros rest fuel Hbs Hf; (destruct fuel as [|fuel]; [lia|]); cbn [back_over].
  - replace (Z.of_nat (length a + S (length [])) - 1) with (Z.of_nat (length a)) by (cbn; lia). rewrite char_at_mid, bind_Some_eq. unfold blank in Hx.
    rewrite !(proj2 (Z.eqb_neq x _)) by tauto. cbn [orb]. f_equal. cbn. lia.
  - apply list.Forall_app in Hbs as [Hbs Hc]. apply list.Forall_cons in Hc as [Hc _]. rewrite length_app in *. cbn [length] in *.
    replace (Z.of_nat (length a + S (length bs + 1)) - 1) with (Z.of_nat (length (a ++ x :: bs))) by (rewrite length_app; cbn; lia).
    assert (E : a ++ x :: (bs ++ [c]) ++ rest = (a ++ x :: bs) ++ c :: rest) by (rewrite <-!app_assoc; done). rewrite E, char_at_mid, bind_Some_eq.
    assert ((c =? 32) || (c =? 10) || (c =? 13) = true) as ->.
    { destruct Hc as [->|[->| ->]]; done. }
    rewrite <-app_assoc. cbn [app]. replace (Z.of_nat (length (a ++ x :: bs))) with (Z.of_nat (length a + S (length bs))) by (rewrite length_app; done). apply IH; [done|lia].
Qed.

(** Only white space: the loop runs out in front of the line. *)
Lemma back_over_blank bs rest fuel : Forall blank bs → back_over fuel (bs ++ rest) (Z.of_nat (length bs)) = None.
Proof.
  revert rest fuel. induction bs as [|c bs IH] using rev_ind; intros rest fuel Hbs; (destruct fuel as [|fuel]; [done|]); cbn [back_over]; [done|].
  apply list.Forall_app in Hbs as [Hbs Hc]. apply list.Forall_cons in Hc as [Hc _]. rewrite length_app. cbn [length]. rewrite <-app_assoc. cbn [app].
  replace (Z.of_nat (length bs + 1) - 1) with (Z.of_nat (length bs)) by lia. rewrite char_at_mid, bind_Some_eq.
  assert ((c =? 32) || (c =? 10) || (c =? 13) = true) as ->; [destruct Hc as [->|[->| ->]]; done|]. by apply IH.
Qed.

Lemma spaced_no_zero ws : Forall (λ p, word_ok p.2) ws → 0 ∉ spaced ws.
Proof.
  induction 1 as [|[k w] ws [_ Hw] Hws IH]; [apply not_elem_of_nil|]. rewrite spaced_cons. rewrite elem_of_cons, !elem_of_app. intros [?|[Hr|[Hin|?]]]; [done| |by rewrite list.Forall_forall in Hw; apply Hw in Hin as [? _]|done].
  by apply elem_of_replicate in Hr as [? _].
Qed.

Lemma cut0_line s l : 0 ∉ s → cut0 (s ++ 0 :: l) = s.
Proof. apply cut0_app. Qed.

Lemma find_space w l : 32 ∉ w → list_find (.= 32) (w ++ 32 :: l) = Some (length w, 32).
Proof.
  intros Hw. apply list_find_Some. rewrite list_lookup_middle by done. split; [done|]. split; [done|]. intros j y Hj Hlt ->. apply Hw.
  rewrite lookup_app_l in Hj by done. by eapply list_elem_of_lookup_2.
Qed.

Lemma find_no_space w : 32 ∉ w → list_find (.= 32) w = None.
Proof. intros Hw. apply list_find_None, list.Forall_forall. intros x Hx ->. done. Qed.

(** The last character of the words of a line. *)
Lemma line_ends w ws : word_ok w → Forall (λ p, word_ok p.2) ws → ∃ a x, w ++ spaced ws = a ++ [x] ∧ ¬ blank x.
Proof.
  intros Hw Hws. assert (Hend : ∀ v, word_ok v → ∃ a x, v = a ++ [x] ∧ ¬ blank x).
  { intros v [Hne Hp]. destruct v as [|x a _] using rev_ind; [done|]. exists a, x. split; [done|]. apply list.Forall_app in Hp as [_ Hp]. apply list.Forall_cons in Hp as [Hp _].
    unfold plain, blank in *. tauto. }
  destruct ws as [|[k v] ws _] using rev_ind; [by rewrite app_nil_r; apply Hend|]. apply list.Forall_app in Hws as [_ Hv]. apply list.Forall_cons in Hv as [Hv _].
  destruct (Hend v Hv) as (a & x & -> & Hx). exists (w ++ spaced ws ++ 32 :: replicate k 32 ++ a), x. split; [|done].
  unfold spaced. rewrite fmap_app, join_app. cbn. rewrite app_nil_r, <-!app_assoc. cbn. by rewrite <-!app_assoc.
Qed.

Lemma skip_blanks_line n c l : c ≠ 32 → drop n (replicate n 32 ++ c :: l) = c :: l.
Proof. intros _. rewrite drop_app_length'; [done|]. by rewrite length_replicate. Qed.

(** The white space around the words goes. *)
Lemma parseCmd_trim n c0 body a x bs :
  c0 ≠ 32 → c0 ≠ 0 → c0 :: body = a ++ [x] → ¬ blank x → 0 ∉ c0 :: body → Forall blank bs →
  ∃ rest, parseCmd (replicate n 32 ++ (c0 :: body) ++ bs) = parse_words ((c0 :: body) ++ 0 :: rest).
Proof.
  intros H32 H0 Hbody Hx Hz Hbs. assert (Hbz : 0 ∉ bs) by (intros Hin; rewrite list.Forall_forall in Hbs; destruct (Hbs 0 Hin) as [?|[?|?]]; done).
  assert (Hl : S (length body) = S (length a)) by (change (length (c0 :: body) = S (length a)); rewrite Hbody, length_app; cbn; lia).
  unfold parseCmd. rewrite <-!app_assoc. cbn [app]. rewrite skip_blanks_at, skip_blanks_line by done.
  assert (Ecut : cut0 (c0 :: body ++ bs ++ [0]) = (c0 :: body) ++ bs).
  { change (c0 :: body ++ bs ++ [0]) with ((c0 :: body) ++ bs ++ [0]). rewrite app_assoc. apply cut0_app. rewrite elem_of_app. tauto. }
  rewrite Ecut. assert (Em : replicate n 32 ++ c0 :: body ++ bs ++ [0] = (replicate n 32 ++ a) ++ x :: bs ++ [0]).
  { change (c0 :: body ++ bs ++ [0]) with ((c0 :: body) ++ bs ++ [0]). rewrite Hbody, <-!app_assoc. done. }
  rewrite Em. replace (Z.of_nat (n + length ((c0 :: body) ++ bs))) with (Z.of_nat (length (replicate n 32%Z ++ a) + S (length bs)))
    by (rewrite !length_app, length_replicate; cbn [length]; lia).
  rewrite back_over_ok by (done || (rewrite !length_app; cbn; rewrite length_app; lia)). rewrite bind_Some_eq, <-Em, Nat2Z.id.
  rewrite length_app, length_replicate. replace (S (n + length a)) with (length (replicate n 32%Z ++ c0 :: body) + 0)%nat by (rewrite length_app, length_replicate; cbn [length]; lia).
  assert (Et : ∃ rest, <[0%nat := 0]> (bs ++ [0]) = 0 :: rest) by (destruct bs; by eexists). destruct Et as [rest Et]. exists rest.
  change (c0 :: body ++ bs ++ [0]) with ((c0 :: body) ++ bs ++ [0]). rewrite app_assoc, insert_app_r, Et, <-app_assoc. cbn [app].
  rewrite lookup_app_r by (by rewrite length_replicate). rewrite length_replicate, Nat.sub_diag. cbn [lookup list_lookup]. rewrite bind_Some_eq, (proj2 (Z.eqb_neq c0 0)) by done.
  by rewrite skip_blanks_line.
Qed.

Lemma parse_words_ok w ws rest :
  word_ok w → Forall (λ c, Z.testbit c 7 = false) w → Forall (λ p, word_ok p.2) ws →
  parse_words ((w ++ spaced ws) ++ 0 :: rest) = Some (x ← find_cmd (lower <$> w); Some (x, ws.*2)).
Proof.
  intros Hw Hascii Hws. assert (Hz : 0 ∉ w ++ spaced ws).
  { rewrite elem_of_app. intros [Hin|Hin]; [|by apply spaced_no_zero in Hin]. destruct Hw as [_ Hw]. rewrite list.Forall_forall in Hw. by apply Hw in Hin as [? _]. }
  assert (Hlow : Forall (λ c, plain c ∧ Z.testbit c 7 = false) w) by (destruct Hw; by apply Forall_and). assert (Hlz : 0 ∉ lower <$> w) by by apply lower_no_zero.
  unfold parse_words. rewrite cut0_app by done. destruct ws as [|[k v] ws].
  - rewrite app_nil_r, find_no_space by (by apply word_no_space). rewrite lower_mem_word by done. rewrite bind_Some_eq, cut0_app by done. done.
  - rewrite spaced_cons, find_space by (by apply word_no_space). rewrite <-app_assoc. cbn [app]. rewrite insert_app_r_alt, Nat.sub_diag by done. cbn [insert list_insert].
    rewrite lower_mem_word by done. rewrite bind_Some_eq, cut0_app by done.
    replace (drop (S (length w)) ((lower <$> w) ++ 0 :: (replicate k 32 ++ v ++ spaced ws) ++ 0 :: rest)) with ((replicate k 32 ++ v ++ spaced ws) ++ 0 :: rest).
    2: { rewrite <-(length_fmap lower w). by rewrite drop_app_ge, Nat.sub_succ_l, Nat.sub_diag by lia. }
    assert (Hz' : 0 ∉ replicate k 32 ++ v ++ spaced ws).
    { intros Hin. apply Hz. rewrite elem_of_app, spaced_cons. right. by right. }
    rewrite cut0_app by done. change (filter _ _) with (words (replicate k 32 ++ v ++ spaced ws)).
    rewrite <-words_blank, <-spaced_cons, words_spaced by done. done.
Qed.

(** A line that is typed is understood.  Whatever spaces lie before and between the words and whatever white space ends the line, the
    command is that of the first word, in letters of either case, and the parameters are the other words in their order; an unknown word is no command. *)
Lemma command_line_parsed n w ws bs :
  word_ok w → Forall (λ c, Z.testbit c 7 = false) w → Forall (λ p, word_ok p.2) ws → Forall blank bs →
  parseCmd (replicate n 32 ++ w ++ spaced ws ++ bs) = Some (x ← find_cmd (lower <$> w); Some (x, ws.*2)).
Proof.
  intros Hw Hascii Hws Hbs. destruct (line_ends w ws Hw Hws) as (a & x & Hbody & Hx). pose proof (spaced_no_zero ws Hws) as Hsz.
  assert (Hp : ∃ c0 w', w = c0 :: w' ∧ plain c0 ∧ 0 ∉ w).
  { destruct Hw as [Hne Hw]. destruct w as [|c0 w']; [done|]. exists c0, w'. split; [done|]. apply list.Forall_cons in Hw as [Hc0 Hw']. split; [done|].
    intros Hin. assert (Hall : Forall plain (c0 :: w')) by (by constructor). rewrite list.Forall_forall in Hall. by apply Hall in Hin as [? _]. }
  destruct Hp as (c0 & w' & -> & Hc0 & Hwz). destruct (parseCmd_trim n c0 (w' ++ spaced ws) a x bs) as [rest Hr]; try done; try apply Hc0.
  { change (0 ∉ (c0 :: w') ++ spaced ws). rewrite elem_of_app. tauto. }
  rewrite (app_assoc (c0 :: w')). cbn [app] in *. rewrite Hr. by apply (parse_words_ok (c0 :: w')).
Qed.

(** put, with a key, a value, a namespace and white space around. *)
Lemma command_line_parsed_witness :
  parseCmd [32; 80; 117; 84; 32; 32; 107; 32; 118; 49; 32; 51; 13; 10] = Some (Some (CPut, [[107]; [118; 49]; [51]])) ∧
  do_cmd CPut [[107]; [118; 49]; [51]] = APut 3 [107] [118; 49] 0.
Proof.
  split; [|by vm_compute]. change (parseCmd (replicate 1 32 ++ [80; 117; 84] ++ spaced [(1%nat, [107]); (0%nat, [118; 49]); (0%nat, [51])] ++ [13; 10]) = Some (Some (CPut, [[107]; [118; 49]; [51]]))).
  rewrite (command_line_parsed 1 [80; 117; 84] [(1%nat, [107]); (0%nat, [118; 49]); (0%nat, [51])] [13; 10]).
  - done.
  - split; [done|]. repeat constructor; lia.
  - repeat constructor.
  - repeat constructor; try done; lia.
  - constructor; [right; by right|]. constructor; [right; by left|]. constructor.
Defined.

(** ** What else lines do *)

Lemma skip_blanks_le s : (skip_blanks (s ++ [0%Z]) <= length s)%nat.
Proof.
  induction s as [|c s IH]; [done|]. cbn [app length]. destruct (decide (c = 32)) as [->|Hc]; [cbn; lia|]. rewrite (skip_blanks_at 0 c (s ++ [0]) Hc : skip_blanks (c :: s ++ [0]) = 0%nat). lia.
Qed.

(** A line without words is read in front of its first byte: the line at the prompt of which only the end is typed is one. *)
Lemma blank_line_underrun s : Forall blank s → parseCmd s = None.
Proof.
  intros Hs. assert (Hz : 0 ∉ s) by (intros Hin; rewrite list.Forall_forall in Hs; destruct (Hs 0 Hin) as [?|[?|?]]; done). pose proof (skip_blanks_le s) as Hle.
  unfold parseCmd. rewrite (drop_app_le s) by done. set (key := skip_blanks (s ++ [0])) in *. rewrite cut0_app by (intros Hin; apply Hz; by eapply (subseteq_drop key s)).
  rewrite length_drop. replace (key + (length s - key))%nat with (length s) by lia. by rewrite back_over_blank.
Qed.

(** [remove] needs the namespace that its help calls optional. *)
Lemma remove_needs_area key : do_cmd CRemove [key] = AHelp (Some [114; 101; 109; 111; 118; 101]).
Proof. done. Qed.
