(* ===== verification/NetAddr.v ===== *)
(** * Addresses of servers, paths and other text

    The rest of src/src/public/common.cc that is text: [NetHelper], whose [str2Addr] and [addr2String] turn text into the 64-bit identifiers that
    servers have everywhere and back, the parts of paths, and text for display.  [inet_addr] and [gethostbyname] of the C library are the class
    [Resolver]; an identifier is the address in the order of the network, as a number of this machine, with the port above. *)
From S2P Require Import Prelude Strings Config.

(** ** Addresses *)

(** Byte [i] of a 32-bit word in memory. *)
Definition byte_of (ip : Z) (i : Z) : Z := Z.land (Z.shiftr ip (8 * i)) 255.

(** [addr2IpStr]. *)
Definition addr2IpStr (ip : Z) : list Z :=
  to_string (byte_of ip 0) ++ [46] ++ to_string (byte_of ip 1) ++ [46] ++ to_string (byte_of ip 2) ++ [46] ++ to_string (byte_of ip 3).

Definition INADDR_NONE : Z := 2 ^ 32 - 1.

Class Resolver := {
  inet_addr : list Z → Z;
  gethostbyname : list Z → option Z;
  inet_addr_dotted ip : is_u32 ip → inet_addr (addr2IpStr ip) = ip }.

Definition i16 (z : Z) : Z := let m := z mod 2 ^ 16 in if m <? 2 ^ 15 then m else m - 2 ^ 16.

Section net.
Context `{Resolver}.

Definition ipStr2Addr (ip_str : list Z) : Z :=
  let ip := cut0 ip_str in
  let x := inet_addr ip in
  if x =? INADDR_NONE then match gethostbyname ip with None => 0 | Some x => x end else x.

(** The port is a signed 16-bit number that is widened to 64 bits. *)
Definition str2Addr (ip_ptr : list Z) (port : Z) : Z :=
  let ip := cut0 ip_ptr in
  let '(nip, port) :=
    match list_find (.= 58) ip with
    | Some (S n, _) => (ipStr2Addr (take (min (S n) 64) ip), i16 (atoi (drop (S (S n)) ip)))
    | _ => (ipStr2Addr ip, i16 port)
    end in
  if nip =? 0 then 0 else Z.lor (u64 (Z.shiftl (u64 port) 32)) nip.
End net.

Definition addr2String (ipport : Z) : list Z :=
  let ip := Z.land ipport 0xffffffff in
  let port := Z.land (Z.shiftr ipport 32) 0xffff in
  if 0 <? port then addr2IpStr ip ++ [58] ++ to_string port else addr2IpStr ip.

(** ** Paths *)

(** The last place of a character of a set. *)
Definition find_last (P : Z → bool) (s : list Z) : option nat :=
  let l := filter (λ i, P (default 0 (s !! i)) = true) (seq 0 (length s)) in list.last l.
Definition is_slash (c : Z) : bool := (c =? 47) || (c =? 92).

Definition getFullPathDir (s : list Z) : list Z := match find_last is_slash s with Some pos => take pos s | None => s end.
Definition getFullPathName (s : list Z) : list Z := match find_last is_slash s with Some pos => drop (S pos) s | None => s end.
Definition getFileNameFromFullPath := getFullPathName.
Definition getDirPart (s : list Z) : list Z := match find_last (λ c, c =? 47) s with Some pos => take pos s | None => [46] end.
Definition getDirPath (s : list Z) : list Z := match find_last (λ c, c =? 47) s with Some pos => take pos s | None => s end.

Definition isRelPath (s : list Z) : bool :=
  bool_decide (take 2 s = [46; 47]) || bool_decide (take 3 s = [46; 46; 47]) || negb (bool_decide (47 ∈ s)).

(** The directories that [mkdirRecursive] makes, in order. *)
Definition mkdirs (path : list Z) : list (list Z) :=
  ((λ i, take i path) <$> filter (λ i, path !! i = Some 47) (seq 1 (length path - 1))) ++ [path].

(** ** Display *)

(** [isInteger] on a C string. *)
Definition isInteger (s : list Z) : bool := forallb is_digit (cut0 s).

Definition hex_digit (n : Z) : Z := if n <? 10 then 48 + n else 55 + n.

(** [convShowString] into a buffer of [msize] bytes: the bytes written, with their 0; [None] when they are more. *)
Fixpoint conv_loop (msize index : Z) (s : list Z) : list Z :=
  match s with
  | c :: s => if index <? msize - 4 then [92; hex_digit (c / 16); hex_digit (c mod 16)] ++ conv_loop msize (index + 3) s else []
  | [] => []
  end.
Definition convShowString (s : list Z) (ret : option Z) : option (list Z) :=
  let msize := default (Z.of_nat (length s) * 3 + 5) ret in
  let l := conv_loop msize 0 s ++ [0] in
  _ ← assert_that (Z.of_nat (length l) <=? msize); Some l.

(** [rollProduceFilename]: a path and a number of at least six digits, cut to 255 bytes. *)
Definition rollProduceFilename (log_base_path : list Z) (logindex : Z) : list Z :=
  let n := to_string logindex in take 255 (log_base_path ++ [46] ++ replicate (6 - length n) 48 ++ n).
