(* ===== verification/NetAddrSpec.v ===== *)
(** * Addresses of servers: text and identifiers *)
From S2P Require Import Prelude Strings Config ConfigSpec NetAddr.

Lemma byte_of_u8 ip i : is_u8 (byte_of ip i).
Proof. unfold byte_of, is_u8. change 255 with (Z.ones 8). rewrite Z.land_ones by lia. apply Z.mod_pos_bound. lia. Qed.

Lemma to_string_no c n : 0 <= n → is_digit c = false → c ∉ to_string n.
Proof.
  intros Hn Hc Hin. destruct (to_string_digits n Hn) as [Hd _]. rewrite list.Forall_forall in Hd. specialize (Hd c Hin). congruence.
Qed.

Lemma dotted_no c ip : is_digit c = false → c ≠ 46 → c ∉ addr2IpStr ip.
Proof.
  intros Hc Hne. pose proof (byte_of_u8 ip) as Hb. unfold is_u8 in Hb. unfold addr2IpStr. rewrite !elem_of_app, !list_elem_of_singleton.
  intros [Hin|[?|[Hin|[?|[Hin|[?|Hin]]]]]]; try done; apply to_string_no in Hin; try done; apply Hb.
Qed.

Lemma addr2IpStr_nonempty ip : ∃ c l, addr2IpStr ip = c :: l.
Proof.
  unfold addr2IpStr. destruct (to_string_digits (byte_of ip 0)) as [_ Hne]; [apply byte_of_u8|]. destruct (to_string _) as [|c l]; [done|]. by eexists _, _.
Qed.

Section roundtrip.
Context `{HR : Resolver}.

Lemma ipStr2Addr_dotted ip : is_u32 ip → ip ≠ INADDR_NONE → ipStr2Addr (addr2IpStr ip) = ip.
Proof using Type.
  intros Hip Hne. unfold ipStr2Addr. rewrite cut0_id by (by apply dotted_no). rewrite inet_addr_dotted by done. by rewrite (proj2 (Z.eqb_neq _ _)).
Qed.

Lemma length_to_string8 n : is_u8 n → (length (to_string n) <= 3)%nat.
Proof using Type.
  unfold is_u8. intros Hn. assert (Hall : Forall (λ k, (length (to_string (Z.of_nat k)) <= 3)%nat) (seq 0 256)) by (apply (bool_decide_unpack _); by vm_compute).
  rewrite list.Forall_forall in Hall. specialize (Hall (Z.to_nat n)). rewrite Z2Nat.id in Hall by lia. apply Hall, elem_of_seq. lia.
Qed.

Lemma length_dotted ip : (length (addr2IpStr ip) <= 15)%nat.
Proof using Type.
  unfold addr2IpStr. rewrite !length_app. pose proof (λ i, length_to_string8 _ (byte_of_u8 ip i)) as Hl. pose proof (Hl 0). pose proof (Hl 1). pose proof (Hl 2). pose proof (Hl 3). cbn [length]. lia.
Qed.

(** An address with a port, in text that may go on with something that is not a digit. *)
Lemma str2Addr_port_tail ip port p t :
  is_u32 ip → ip ≠ 0 → ip ≠ INADDR_NONE → 0 <= port < 2 ^ 16 → 0 ∉ t → match t with [] => True | c :: _ => is_digit c = false end →
  str2Addr (addr2IpStr ip ++ [58] ++ to_string port ++ t) p = Z.lor (u64 (Z.shiftl (u64 (i16 port)) 32)) ip.
Proof using Type.
  intros Hip H0 Hne Hp Ht0 Ht. pose proof (length_dotted ip) as Hl. assert (Hc : 58 ∉ addr2IpStr ip) by by apply dotted_no. unfold str2Addr.
  rewrite cut0_id by (rewrite !elem_of_app, list_elem_of_singleton; intros [Hin|[?|[Hin|?]]]; [by apply dotted_no in Hin|done|by apply to_string_no in Hin; [|lia|]|done]).
  assert (Hf : list_find (.= 58) (addr2IpStr ip ++ 58 :: to_string port ++ t) = Some (length (addr2IpStr ip), 58)).
  { apply list_find_Some. rewrite list_lookup_middle by done. split; [done|]. split; [done|]. intros j y Hj Hlt ->. apply Hc. rewrite lookup_app_l in Hj by done. by eapply list_elem_of_lookup_2. }
  cbn [app]. rewrite Hf. destruct (addr2IpStr_nonempty ip) as (c & l & El). assert (Hlen : length (addr2IpStr ip) = S (length l)) by by rewrite El. rewrite Hlen, Nat.min_l by lia.
  rewrite <-Hlen, take_app_length.
  assert (Ed : drop (S (length (addr2IpStr ip))) (addr2IpStr ip ++ 58 :: to_string port ++ t) = to_string port ++ t).
  { rewrite drop_app_ge by lia. by replace (S (length (addr2IpStr ip)) - length (addr2IpStr ip))%nat with 1%nat by lia. }
  rewrite Ed, ipStr2Addr_dotted by done. rewrite (proj2 (Z.eqb_neq ip 0)) by done. unfold atoi. rewrite parse_to_string_tail by (done || lia).
  rewrite Z.min_r, Z.max_r by lia. unfold u32. rewrite Z.mod_small by lia. rewrite i32_id by lia. done.
Qed.

Lemma str2Addr_port ip port p :
  is_u32 ip → ip ≠ 0 → ip ≠ INADDR_NONE → 0 <= port < 2 ^ 16 →
  str2Addr (addr2IpStr ip ++ [58] ++ to_string port) p = Z.lor (u64 (Z.shiftl (u64 (i16 port)) 32)) ip.
Proof using Type.
  intros Hip H0 Hne Hp. rewrite <-(app_nil_r (to_string port)). apply str2Addr_port_tail; try done. apply not_elem_of_nil.
Qed.

(** A port that does not fit a signed 16-bit number sets the upper bits of the identifier. *)
Lemma port_bits port : 0 <= port < 2 ^ 16 → u64 (Z.shiftl (u64 (i16 port)) 32) = Z.shiftl (if port <? 2 ^ 15 then port else port + (2 ^ 32 - 2 ^ 16)) 32.
Proof using Type.
  intros Hp. unfold i16. rewrite (Z.mod_small port) by lia. rewrite !Z.shiftl_mul_pow2 by lia. destruct (Z.ltb_spec port (2 ^ 15)) as [Hl|Hl].
  - unfold u64. rewrite (Z.mod_small port (2 ^ 64)) by lia. by rewrite Z.mod_small by lia.
  - replace (u64 (port - 2 ^ 16)) with (port - 2 ^ 16 + 2 ^ 64) by (unfold u64; apply (Z.mod_unique _ _ (-1)); lia).
    unfold u64. symmetry. apply (Z.mod_unique _ _ (2 ^ 32 - 1)); lia.
Qed.

Lemma addr2String_parts ip port :
  is_u32 ip → 0 <= port < 2 ^ 16 → addr2String (Z.lor (Z.shiftl port 32) ip) = if 0 <? port then addr2IpStr ip ++ [58] ++ to_string port else addr2IpStr ip.
Proof using Type.
  intros Hip Hp. unfold addr2String. unfold is_u32 in Hip. rewrite lor_shiftl by lia. change 0xffffffff with (Z.ones 32). change 0xffff with (Z.ones 16). rewrite !Z.land_ones by lia.
  rewrite Z.shiftr_div_pow2 by lia. rewrite (Z.add_comm (port * _)), Z.mod_add, Z.div_add, (Z.mod_small ip), (Z.div_small ip), Z.add_0_l, (Z.mod_small port) by lia. done.
Qed.

(** An identifier with a port below 2^15 is read back from its text. *)
Lemma addr_roundtrip ip port p :
  is_u32 ip → ip ≠ 0 → ip ≠ INADDR_NONE → 0 < port < 2 ^ 15 →
  str2Addr (addr2String (Z.lor (Z.shiftl port 32) ip)) p = Z.lor (Z.shiftl port 32) ip.
Proof using Type.
  intros Hip H0 Hne Hp. rewrite addr2String_parts by (done || lia). rewrite (proj2 (Z.ltb_lt _ _)) by lia. rewrite str2Addr_port by (done || lia).
  rewrite port_bits by lia. by rewrite (proj2 (Z.ltb_lt _ _)) by lia.
Qed.

(** A larger port is not: the identifier read has all bits above the port set. *)
Lemma addr_high_port ip port p :
  is_u32 ip → ip ≠ 0 → ip ≠ INADDR_NONE → 2 ^ 15 <= port < 2 ^ 16 →
  str2Addr (addr2String (Z.lor (Z.shiftl port 32) ip)) p = Z.lor (Z.shiftl (port + (2 ^ 32 - 2 ^ 16)) 32) ip.
Proof using Type.
  intros Hip H0 Hne Hp. rewrite addr2String_parts by (done || lia). rewrite (proj2 (Z.ltb_lt _ _)) by lia. rewrite str2Addr_port by (done || lia).
  rewrite port_bits by lia. by rewrite (proj2 (Z.ltb_ge _ _)) by lia.
Qed.
End roundtrip.

(** ** Paths and display *)

Lemma conv_loop_all msize index s :
  0 <= index → index + 3 * Z.of_nat (length s) + 5 <= msize + 0 ∨ s = [] → conv_loop msize index s = mjoin ((λ c, [92; hex_digit (c / 16); hex_digit (c mod 16)]) <$> s).
Proof.
  revert index. induction s as [|c s IH]; intros index Hi Hs; [done|]. destruct Hs as [Hs|]; [|done]. cbn [length conv_loop] in *. rewrite (proj2 (Z.ltb_lt _ _)) by lia.
  rewrite IH; [done|lia|]. left. lia.
Qed.

(** The buffer that [convShowString] makes holds all of the text. *)
Lemma convShowString_all s : convShowString s None = Some (mjoin ((λ c, [92; hex_digit (c / 16); hex_digit (c mod 16)]) <$> s) ++ [0]).
Proof.
  unfold convShowString. cbn [default]. cbv zeta. rewrite conv_loop_all by (lia || (left; lia)).
  assert (Hl : length (mjoin ((λ c, [92; hex_digit (c / 16); hex_digit (c mod 16)]) <$> s)) = (3 * length s)%nat).
  { induction s as [|c s IH]; [done|]. change (mjoin _) with ([92; hex_digit (c / 16); hex_digit (c mod 16)] ++ mjoin ((λ c, [92; hex_digit (c / 16); hex_digit (c mod 16)]) <$> s)). rewrite length_app, IH. cbn [length]. lia. }
  rewrite length_app, Hl. cbn [length]. rewrite (proj2 (Z.leb_le _ _)) by lia. done.
Qed.

(** An empty string counts as a number. *)
Lemma isInteger_empty : isInteger [] = true.
Proof. done. Qed.
