(* ===== verification/EventThread.v ===== *)
(** * Threads with an event loop

    The class [CThread] of src/src/common/rpc/cthread.{h,cc}: a thread that runs an event loop, to which other threads hand callbacks
    ([dispatch]), a pair of sockets that wakes the loop, its status, which saves writing to the socket while the loop is awake, timers, and
    [stop].  Every access to a shared variable or to the sockets is a step of its thread, and the threads interleave in any way: the loop, any
    number of threads that dispatch, and one that stops the loop.  A callback that dispatches to its own loop for later is a thread that runs
    while the loop does not move.

    A callback is a number; which callbacks ran is kept in [ran], which were pushed in [pushed].  An event that is not possible is [None]. *)
From S2P Require Import Prelude.

(** ** Data *)

Inductive th_status := IDLE | WAKE | EXIT.
#[global] Instance th_status_dec : EqDecision th_status.
Proof. solve_decision. Defined.

(** The first byte of a status in memory, which [send] writes. *)
Definition status_byte (st : th_status) : Z := match st with IDLE => 32 | WAKE => 49 | EXIT => 48 end.

Inductive schedule := STACK | DEFER.
#[global] Instance schedule_dec : EqDecision schedule.
Proof. solve_decision. Defined.

(** Where the thread of the loop is: waiting for an event; in [wake] with the bytes it received: before the first test of the status, before
    its store, before the lock, behind it, with the swapped list before the unlock, running callbacks, at the test and the store of the status
    when the list is empty, before the unlock, at the second test and store, before the bytes are looked at; or behind the end of the loop. *)
Inductive loop_pc :=
| LpLoop
| LpTest (buf : list Z) | LpWake (buf : list Z) | LpLock (buf : list Z) | LpSwap (buf : list Z)
| LpUnlock (buf : list Z) (cbs : list nat) | LpRun (buf : list Z) (cbs : list nat)
| LpEmpty (buf : list Z) | LpIdle (buf : list Z) | LpRelease (buf : list Z)
| LpAfter (buf : list Z) | LpAfterIdle (buf : list Z) | LpExit (buf : list Z)
| LpEnd.

(** Where a thread is in [dispatch]: before the lock, behind it, before the unlock, before the status is read, before [send]; or outside, with
    the result of its last call. *)
Inductive disp_pc := DsLock (cb : nat) | DsPush (cb : nat) | DsUnlock | DsRead | DsSend | DsOut (ret : option bool).

(** Where the thread that stops the loop is: outside, before [send], in [join] (whether the byte was sent), returned. *)
Inductive stop_pc := StIdle | StSend | StJoin (sent : bool) | StDone.

Inductive holder := ByLoop | ByThread (t : nat).

Record cthread := {
  th_stat : th_status;
  spin : option holder;
  callbacks : list nat;
  fd_bytes : list Z;                  (* written to [fd_w] and not yet received from [fd_r] *)
  loop_at : loop_pc;
  dispatchers : gmap nat disp_pc;
  stop_at : stop_pc;
  ran : list nat;
  pushed : list nat
}.

Definition set_stat st s := Build_cthread st (spin s) (callbacks s) (fd_bytes s) (loop_at s) (dispatchers s) (stop_at s) (ran s) (pushed s).
Definition set_spin o s := Build_cthread (th_stat s) o (callbacks s) (fd_bytes s) (loop_at s) (dispatchers s) (stop_at s) (ran s) (pushed s).
Definition set_callbacks l s := Build_cthread (th_stat s) (spin s) l (fd_bytes s) (loop_at s) (dispatchers s) (stop_at s) (ran s) (pushed s).
Definition set_bytes l s := Build_cthread (th_stat s) (spin s) (callbacks s) l (loop_at s) (dispatchers s) (stop_at s) (ran s) (pushed s).
Definition set_loop pc s := Build_cthread (th_stat s) (spin s) (callbacks s) (fd_bytes s) pc (dispatchers s) (stop_at s) (ran s) (pushed s).
Definition set_disp t pc s :=
  Build_cthread (th_stat s) (spin s) (callbacks s) (fd_bytes s) (loop_at s) (<[t := pc]> (dispatchers s)) (stop_at s) (ran s) (pushed s).
Definition set_stop pc s := Build_cthread (th_stat s) (spin s) (callbacks s) (fd_bytes s) (loop_at s) (dispatchers s) pc (ran s) (pushed s).
Definition add_ran cb s := Build_cthread (th_stat s) (spin s) (callbacks s) (fd_bytes s) (loop_at s) (dispatchers s) (stop_at s) (ran s ++ [cb]) (pushed s).
Definition add_pushed cb s :=
  Build_cthread (th_stat s) (spin s) (callbacks s) (fd_bytes s) (loop_at s) (dispatchers s) (stop_at s) (ran s) (pushed s ++ [cb]).

(** A thread whose constructor is over, in front of its loop. *)
Definition CThread_init (th : gmap nat disp_pc) : cthread :=
  {| th_stat := IDLE; spin := None; callbacks := []; fd_bytes := []; loop_at := LpLoop; dispatchers := th; stop_at := StIdle; ran := []; pushed := [] |}.

(** ** The loop *)

(** The buffer of [wake]. *)
Definition recv_size : nat := 4096.

(** The event of the socket, up to the return of [recv]. *)
Definition CThread_recv (s : cthread) : option cthread :=
  match fd_bytes s with
  | [] => None
  | bytes => Some (set_loop (LpTest (take recv_size bytes)) (set_bytes (drop recv_size bytes) s))
  end.

(** The next access of [wake]. *)
Definition CThread_wake (s : cthread) : option cthread :=
  match loop_at s with
  | LpLoop => CThread_recv s
  | LpTest buf => Some (set_loop (if decide (th_stat s = IDLE) then LpWake buf else LpLock buf) s)
  | LpWake buf => Some (set_loop (LpLock buf) (set_stat WAKE s))
  | LpLock buf => match spin s with None => Some (set_loop (LpSwap buf) (set_spin (Some ByLoop) s)) | Some _ => None end
  | LpSwap buf =>
      Some (match callbacks s with
            | [] => set_loop (LpEmpty buf) s
            | cbs => set_loop (LpUnlock buf cbs) (set_callbacks [] s)
            end)
  | LpUnlock buf cbs => Some (set_loop (LpRun buf cbs) (set_spin None s))
  | LpRun buf [] => Some (set_loop (LpLock buf) s)
  | LpRun buf (cb :: cbs) => Some (set_loop (LpRun buf cbs) (add_ran cb s))
  | LpEmpty buf => Some (set_loop (if decide (th_stat s = WAKE) then LpIdle buf else LpRelease buf) s)
  | LpIdle buf => Some (set_loop (LpRelease buf) (set_stat IDLE s))
  | LpRelease buf => Some (set_loop (LpAfter buf) (set_spin None s))
  | LpAfter buf => Some (set_loop (if decide (th_stat s = WAKE) then LpAfterIdle buf else LpExit buf) s)
  | LpAfterIdle buf => Some (set_loop (LpExit buf) (set_stat IDLE s))
  | LpExit buf => Some (set_loop (if bool_decide (status_byte EXIT ∈ buf) then LpEnd else LpLoop) s)
  | LpEnd => None
  end.

(** ** Dispatching *)

(** Whether [dispatch] calls the callback itself. *)
Definition dispatch_now (sched : schedule) (self : bool) : bool := bool_decide (sched = STACK) && self.

(** The call of a thread that is not the loop, or of a callback that wants to run later. *)
Definition CThread_dispatch (t cb : nat) (sched : schedule) (self : bool) (s : cthread) : option cthread :=
  if dispatch_now sched self then None else
  match dispatchers s !! t with
  | Some (DsOut _) => Some (set_disp t (DsLock cb) s)
  | _ => None
  end.

(** Its next access; [full] says that the buffer of the socket takes no more, which it does not say when it is empty. *)
Definition CThread_dispatch_go (t : nat) (full : bool) (s : cthread) : option cthread :=
  pc ← dispatchers s !! t;
  match pc with
  | DsLock cb => match spin s with None => Some (set_disp t (DsPush cb) (set_spin (Some (ByThread t)) s)) | Some _ => None end
  | DsPush cb => Some (set_disp t DsUnlock (add_pushed cb (set_callbacks (callbacks s ++ [cb]) s)))
  | DsUnlock => Some (set_disp t DsRead (set_spin None s))
  | DsRead =>
      Some (set_disp t (match th_stat s with EXIT => DsOut (Some false) | IDLE => DsSend | WAKE => DsOut (Some true) end) s)
  | DsSend =>
      if full then
        match fd_bytes s with [] => None | _ => Some (set_disp t (DsOut (Some false)) s) end
      else Some (set_disp t (DsOut (Some true)) (set_bytes (fd_bytes s ++ [status_byte IDLE]) s))
  | DsOut _ => None
  end.

(** ** Stopping *)

(** The object owns the thread of the loop, so that the early return of an object without one is not taken. *)
Definition CThread_stop (full : bool) (s : cthread) : option cthread :=
  match stop_at s with
  | StIdle => Some (set_stop StSend (set_stat EXIT s))
  | StSend =>
      if full then match fd_bytes s with [] => None | _ => Some (set_stop (StJoin false) s) end
      else Some (set_stop (StJoin true) (set_bytes (fd_bytes s ++ [status_byte EXIT]) s))
  | StJoin _ => match loop_at s with LpEnd => Some (set_stop StDone s) | _ => None end
  | StDone => None
  end.

Inductive th_event := ThLoop | ThDispatch (t cb : nat) (sched : schedule) | ThGo (t : nat) (full : bool) | ThStop (full : bool).

Definition th_exec (e : th_event) (s : cthread) : option cthread :=
  match e with
  | ThLoop => CThread_wake s
  | ThDispatch t cb sched => CThread_dispatch t cb sched false s
  | ThGo t full => CThread_dispatch_go t full s
  | ThStop full => CThread_stop full s
  end.

(** ** Timers *)

(** What a timer of the loop does: its callback, the microseconds it waits, whether it starts again. *)
Record timer := { timer_cb : nat; timeout_usec : Z; persist : bool }.

(** The callbacks that [registerTimer] and [unregisterTimer] dispatch, on the timers by their identifiers. *)
Definition CThread_registerTimer (id : Z) (cb : nat) (usec : Z) (pers : bool) (timers : gmap Z timer) : gmap Z timer :=
  let timers := match timers !! id with Some _ => delete id timers | None => timers end in
  match timers !! id with
  | Some _ => timers
  | None => <[id := {| timer_cb := cb; timeout_usec := u64 usec; persist := pers |}]> timers
  end.

Definition CThread_unregisterTimer (id : Z) (timers : gmap Z timer) : gmap Z timer :=
  match timers !! id with Some _ => delete id timers | None => timers end.
