(* ===== verification/EventThreadSpec.v ===== *)
(** * What a thread with an event loop guarantees

    Callbacks that are dispatched run once each and in their order, none is forgotten in a loop that sleeps, and a loop that is stopped has run
    what was dispatched before; by invariants of the steps of all threads. *)
From S2P Require Import Prelude EventThread.

(** ** The invariants *)

Definition in_hand (pc : loop_pc) : list nat := match pc with LpUnlock _ cbs | LpRun _ cbs => cbs | _ => [] end.

(** The bytes that [wake] has received. *)
Definition received (pc : loop_pc) : list Z :=
  match pc with
  | LpTest buf | LpWake buf | LpLock buf | LpSwap buf | LpUnlock buf _ | LpRun buf _ | LpEmpty buf | LpIdle buf | LpRelease buf
  | LpAfter buf | LpAfterIdle buf | LpExit buf => buf
  | LpLoop | LpEnd => []
  end.

Definition loop_holds (pc : loop_pc) : bool := match pc with LpSwap _ | LpUnlock _ _ | LpEmpty _ | LpIdle _ | LpRelease _ => true | _ => false end.
Definition disp_holds (pc : disp_pc) : bool := match pc with DsPush _ | DsUnlock => true | _ => false end.

(** In [wake] before the list was found empty. *)
Definition loop_early (pc : loop_pc) : bool :=
  match pc with LpTest _ | LpWake _ | LpLock _ | LpSwap _ | LpUnlock _ _ | LpRun _ _ => true | _ => false end.
Definition loop_empty (pc : loop_pc) : bool := match pc with LpEmpty _ | LpIdle _ => true | _ => false end.
(** Where the status may be [WAKE]. *)
Definition loop_awake (pc : loop_pc) : bool :=
  match pc with LpLock _ | LpSwap _ | LpUnlock _ _ | LpRun _ _ | LpEmpty _ | LpIdle _ => true | _ => false end.
(** Behind the push and before the byte. *)
Definition disp_pending (pc : disp_pc) : bool := match pc with DsUnlock | DsRead | DsSend => true | _ => false end.
Definition disp_out (pc : disp_pc) : bool := match pc with DsOut _ => true | _ => false end.

Definition stop_unsent (pc : stop_pc) : bool := match pc with StIdle | StSend => true | _ => false end.

Record spin_ok (s : cthread) : Prop := {
  so_loop : spin s = Some ByLoop ↔ loop_holds (loop_at s) = true;
  so_disp t : spin s = Some (ByThread t) ↔ (∃ pc, dispatchers s !! t = Some pc ∧ disp_holds pc = true)
}.

(** Nothing is lost, repeated or moved. *)
Definition order_ok (s : cthread) : Prop := ran s ++ in_hand (loop_at s) ++ callbacks s = pushed s.

(** Whoever waits to run will be noticed. *)
Record wake_ok (s : cthread) : Prop := {
  wo_empty : loop_empty (loop_at s) = true → callbacks s = [];
  wo_status : stop_at s = StIdle → th_stat s ≠ EXIT;
  wo_awake : stop_at s = StIdle → th_stat s = WAKE → loop_awake (loop_at s) = true;
  wo_noticed : stop_at s = StIdle → callbacks s ≠ [] →
    fd_bytes s ≠ [] ∨ loop_early (loop_at s) = true ∨ (∃ t pc, dispatchers s !! t = Some pc ∧ disp_pending pc = true)
}.

(** The byte that ends the loop. *)
Record exit_ok (s : cthread) : Prop := {
  eo_sent : stop_at s = StJoin true → status_byte EXIT ∈ fd_bytes s ++ received (loop_at s) ∨ loop_at s = LpEnd;
  eo_unsent : stop_unsent (stop_at s) = true → (status_byte EXIT ∉ fd_bytes s ++ received (loop_at s)) ∧ loop_at s ≠ LpEnd
}.

(** ** The lock *)

Lemma spin_keep s s' :
  spin_ok s → spin s' = spin s → loop_holds (loop_at s') = loop_holds (loop_at s) → dispatchers s' = dispatchers s → spin_ok s'.
Proof. intros [Hl Hd] E1 E2 E3. split; [|intros t]; rewrite ?E1, ?E2, ?E3; auto. Qed.

Lemma spin_holder_move s t old new o :
  spin_ok s → dispatchers s !! t = Some old →
  o = (if disp_holds new then Some (ByThread t) else if disp_holds old then None else spin s) → (disp_holds new = true → disp_holds old = false → spin s = None) →
  spin_ok (set_disp t new (set_spin o s)).
Proof.
  intros [Hl Hd] Ht Ho Hfree. destruct (Hd t) as [Hd1 Hd2]. subst o.
  assert (Hold : disp_holds old = true → spin s = Some (ByThread t)) by (intros E; apply Hd2; eauto).
  assert (Hown : spin s = Some (ByThread t) → disp_holds old = true) by (intros E; destruct (Hd1 E) as (pc & Hpc & E'); congruence).
  assert (Hbusy : disp_holds new = true ∨ disp_holds old = true → spin s = None ∨ spin s = Some (ByThread t)).
  { destruct (disp_holds old); [auto|]. intros [E|]; [left; by apply Hfree|done]. }
  split; cbn.
  - rewrite <-Hl. destruct (disp_holds new), (disp_holds old); try done; destruct Hbusy as [->| ->]; auto; by split.
  - intros u. destruct (decide (u = t)) as [->|Hne].
    + rewrite lookup_insert_eq. destruct (disp_holds new) eqn:En; [split; eauto|]. destruct (disp_holds old) eqn:Eo.
      * split; [done|]. intros (pc & [= <-] & E). congruence.
      * split; [intros E; apply Hown in E; congruence|]. intros (pc & [= <-] & E). congruence.
    + rewrite lookup_insert_ne by done. rewrite <-(Hd u). destruct (disp_holds new), (disp_holds old); try done; destruct Hbusy as [E|E]; auto; try rewrite E; try (specialize (Hold eq_refl); congruence); split; congruence.
Qed.

Lemma spin_keep_ok s s' : spin_ok s → spin s' = spin s → loop_at s' = loop_at s → dispatchers s' = dispatchers s → spin_ok s'.
Proof. intros Hs E1 E2 E3. apply (spin_keep s); congruence. Qed.

Lemma spin_loop_ok s s' : spin_ok s → CThread_wake s = Some s' → spin_ok s'.
Proof.
  intros Hs H. pose proof Hs as [Hl Hd]. unfold CThread_wake, CThread_recv in H.
  destruct (loop_at s) as [|buf|buf|buf|buf|buf cbs|buf [|cb cbs]|buf|buf|buf|buf|buf|buf|] eqn:El; cbn [loop_holds] in Hl.
  all: try (repeat case_match; simplify_eq; apply (spin_keep s); cbn; rewrite ?El; repeat case_decide; repeat case_bool_decide; done).
  - destruct (spin s) eqn:Es; [done|]. injection H as <-. split; cbn; [done|]. intros t. rewrite <-(Hd t). by split.
  - injection H as <-. split; cbn; [done|]. intros t. rewrite <-(Hd t), (proj2 Hl eq_refl). by split.
  - injection H as <-. split; cbn; [done|]. intros t. rewrite <-(Hd t), (proj2 Hl eq_refl). by split.
Qed.

Lemma spin_ok_step e s s' : spin_ok s → th_exec e s = Some s' → spin_ok s'.
Proof.
  intros Hs H. destruct e as [|t cb sched|t full|full]; cbn [th_exec] in H.
  - by apply (spin_loop_ok s).
  - unfold CThread_dispatch in H. destruct (dispatch_now _ _); [done|]. destruct (dispatchers s !! t) as [[]|] eqn:Et; try done. injection H as <-.
    by eapply (spin_holder_move s t _ (DsLock cb) (spin s)).
  - apply bind_Some in H as (pc & Et & H). destruct pc as [cb|cb| | | |].
    + destruct (spin s) eqn:Es; [done|]. injection H as <-. by eapply (spin_holder_move s t _ (DsPush cb) (Some (ByThread t))).
    + injection H as <-. apply (spin_keep_ok (set_disp t DsUnlock (set_spin (spin s) s))); [|done..]. eapply spin_holder_move; [done|exact Et| |done].
      apply (so_disp _ Hs). eauto.
    + injection H as <-. by eapply (spin_holder_move s t _ DsRead None).
    + injection H as <-. eapply (spin_holder_move s t _ _ (spin s)); [done|exact Et|by destruct (th_stat s)..].
    + apply (spin_keep_ok (set_disp t (DsOut (Some (negb full))) (set_spin (spin s) s))); [by eapply spin_holder_move|..];
        destruct full; [destruct (fd_bytes s); [done|]| |destruct (fd_bytes s); [done|]| |destruct (fd_bytes s); [done|]|]; by injection H as <-.
    + done.
  - unfold CThread_stop in H. apply (spin_keep_ok s); [done|..]; destruct (stop_at s), full; try destruct (fd_bytes s); try destruct (loop_at s) eqn:?; try done; injection H as <-; cbn; congruence.
Qed.

(** ** Order and noticing *)

Lemma order_ok_step e s s' : order_ok s → th_exec e s = Some s' → order_ok s'.
Proof.
  unfold order_ok. intros Ho H. destruct e as [|t cb sched|t full|full]; cbn [th_exec] in H.
  - unfold CThread_wake, CThread_recv in H. destruct (loop_at s) as [|buf|buf|buf|buf|buf cbs|buf [|cb cbs]|buf|buf|buf|buf|buf|buf|] eqn:El; cbn [in_hand app] in Ho.
    all: repeat case_match; simplify_eq; cbn; rewrite ?El; repeat case_decide; repeat case_bool_decide; cbn; rewrite ?app_nil_r in *; try done; try congruence.
    + by match goal with E : callbacks s = [] |- _ => rewrite E, app_nil_r end.
    + by rewrite <-app_assoc.
  - unfold CThread_dispatch in H. repeat case_match; by simplify_eq.
  - apply bind_Some in H as (pc & Et & H). repeat case_match; simplify_eq; cbn; try done. by rewrite !app_assoc, <-Ho, <-!app_assoc.
  - unfold CThread_stop in H. repeat case_match; simplify_eq; cbn; congruence.
Qed.

Lemma received_split (b : Z) n (bytes : list Z) : b ∈ drop n bytes ++ take n bytes ↔ b ∈ bytes.
Proof. by rewrite (Permutation_app_comm (drop n bytes)), take_drop. Qed.

Lemma exit_recv s s' : exit_ok s → loop_at s = LpLoop → CThread_recv s = Some s' → exit_ok s'.
Proof.
  intros [H1 H2] El H. unfold CThread_recv in H. generalize dependent recv_size. intros n H. rewrite El in *. cbn [received] in *. rewrite app_nil_r in *.
  destruct (fd_bytes s) as [|b bytes] eqn:Eb; [done|]. injection H as <-. split; cbn [set_loop set_bytes stop_at fd_bytes loop_at received]; rewrite received_split.
  - intros E. destruct (H1 E); [by left|done].
  - intros E. by destruct (H2 E).
Qed.

Lemma exit_keep s s' :
  exit_ok s → stop_at s' = stop_at s → received (loop_at s') = received (loop_at s) → (loop_at s' = LpEnd ↔ loop_at s = LpEnd) →
  (fd_bytes s' = fd_bytes s ∨ fd_bytes s' = fd_bytes s ++ [status_byte IDLE]) → exit_ok s'.
Proof.
  intros [H1 H2] E1 E2 E3 E4.
  assert (E : status_byte EXIT ∈ fd_bytes s' ++ received (loop_at s') ↔ status_byte EXIT ∈ fd_bytes s ++ received (loop_at s)).
  { rewrite E2. destruct E4 as [->| ->]; [done|]. rewrite !elem_of_app, list_elem_of_singleton. assert (status_byte EXIT ≠ status_byte IDLE) by done. tauto. }
  split; rewrite E1, E, E3; auto.
Qed.

Lemma exit_ok_step e s s' : exit_ok s → th_exec e s = Some s' → exit_ok s'.
Proof.
  intros Hs H. destruct e as [|t cb sched|t full|full]; cbn [th_exec] in H.
  - unfold CThread_wake in H. destruct (loop_at s) as [|buf|buf|buf|buf|buf cbs|buf [|cb cbs]|buf|buf|buf|buf|buf|buf|] eqn:El; [by apply (exit_recv s)|..].
    all: try (repeat case_match; simplify_eq; apply (exit_keep s); cbn; rewrite ?El; repeat case_decide; cbn; by auto).
    injection H as <-. destruct Hs as [H1 H2]. rewrite El in *. cbn [received] in *. rewrite elem_of_app in H1. rewrite not_elem_of_app in H2.
    split; cbn [set_loop stop_at fd_bytes loop_at]; intros E; case_bool_decide as Hin; cbn [received]; rewrite ?app_nil_r.
    + by right.
    + left. destruct (H1 E) as [[|]|]; done.
    + by destruct (H2 E) as [[_ ?] _].
    + split; [|done]. by destruct (H2 E) as [[? _] _].
  - unfold CThread_dispatch in H. repeat case_match; simplify_eq; apply (exit_keep s); by auto.
  - apply bind_Some in H as (pc & Et & H). repeat case_match; simplify_eq; apply (exit_keep s); by auto.
  - unfold CThread_stop in H. destruct Hs as [H1 H2]. destruct (stop_at s) eqn:Es.
    + injection H as <-. split; [done|]. intros _. by apply H2.
    + destruct full; [destruct (fd_bytes s); [done|]|]; injection H as <-; split; try done. intros _. left. cbn. rewrite !elem_of_app, list_elem_of_singleton. auto.
    + destruct (loop_at s) eqn:El; try done. injection H as <-. by split.
    + done.
Qed.

Definition some_pending (m : gmap nat disp_pc) : Prop := ∃ t pc, m !! t = Some pc ∧ disp_pending pc = true.

Lemma pending_insert m t old new : m !! t = Some old → disp_pending new = true ∨ disp_pending old = false → some_pending m → some_pending (<[t := new]> m).
Proof.
  intros Ht Hor (u & pc & Hu & Hp). destruct (decide (u = t)) as [->|Hne].
  - destruct Hor; [exists t, new; by rewrite lookup_insert_eq|congruence].
  - exists u, pc. by rewrite lookup_insert_ne.
Qed.

Lemma pending_here m t new : disp_pending new = true → some_pending (<[t := new]> m).
Proof. intros H. exists t, new. by rewrite lookup_insert_eq. Qed.

(** Steps of the loop that neither change the status nor take callbacks or bytes. *)
Lemma wake_loop_move s pc :
  wake_ok s → (loop_empty pc = true → callbacks s = []) → (stop_at s = StIdle → th_stat s = WAKE → loop_awake pc = true) →
  (loop_early (loop_at s) = true → loop_early pc = true ∨ callbacks s = []) → wake_ok (set_loop pc s).
Proof.
  intros [H1 H2 H3 H4] Ha Hb Hc. split; cbn; auto. intros E Hne. destruct (H4 E Hne) as [|[He|]]; auto. destruct (Hc He); [by auto|done].
Qed.

Lemma wake_loop_ok s s' : spin_ok s → wake_ok s → CThread_wake s = Some s' → wake_ok s'.
Proof.
  intros Hs Hw H. pose proof Hw as [H1 H2 H3 H4]. unfold CThread_wake, CThread_recv in H.
  destruct (loop_at s) as [|buf|buf|buf|buf|buf cbs|buf [|cb cbs]|buf|buf|buf|buf|buf|buf|] eqn:El; cbn in *.
  all: try done.
  - destruct (fd_bytes s) as [|b bytes]; [done|]. injection H as <-. split; cbn; auto; try done.
  - injection H as <-. apply wake_loop_move; try done; rewrite ?El; case_decide; cbn; auto.
  - injection H as <-. split; cbn; auto; try done.
  - destruct (spin s); [done|]. injection H as <-. split; cbn; auto; try done.
  - destruct (callbacks s) as [|cb cbs] eqn:Ec; injection H as <-; [apply wake_loop_move; try done; rewrite ?El; auto|]. split; cbn; auto; done.
  - injection H as <-. split; cbn; auto; done.
  - injection H as <-. split; cbn; auto; done.
  - injection H as <-. split; cbn; auto; done.
  - injection H as <-. apply wake_loop_move; try done; rewrite ?El; case_decide; cbn; auto; try done.
  - injection H as <-. split; cbn; auto; done.
  - injection H as <-. split; cbn; auto; try done.
  - injection H as <-. apply wake_loop_move; try done; rewrite ?El; case_decide; cbn; auto; try done.
  - injection H as <-. split; cbn; auto; try done.
  - injection H as <-. apply wake_loop_move; try done; rewrite ?El; case_bool_decide; cbn; auto; try done.
Qed.

(** Steps of another thread that neither change the loop nor the list of callbacks. *)
Lemma wake_disp_move s t old new o bytes :
  wake_ok s → dispatchers s !! t = Some old → (bytes = [] → fd_bytes s = []) →
  disp_pending new = true ∨ disp_pending old = false ∨ bytes ≠ [] ∨ loop_early (loop_at s) = true ∨ callbacks s = [] ∨ stop_at s ≠ StIdle →
  wake_ok (set_disp t new (set_bytes bytes (set_spin o s))).
Proof.
  intros [H1 H2 H3 H4] Ht Hb Hor. split; cbn; auto. intros E Hne. specialize (H2 E).
  destruct Hor as [Hp|[Hp|[Hp|[Hp|[Hp|Hp]]]]]; [right; right; by apply pending_here| |by left|by auto|done|done].
  destruct (H4 E Hne) as [Hf|[He|Hp']]; [left; by intros ?%Hb|by auto|right; right; exact (pending_insert _ _ _ _ Ht (or_intror Hp) Hp')].
Qed.

(** Who reads [WAKE] or does not read [IDLE] has been noticed. *)
Lemma wake_noticed s : wake_ok s → th_stat s ≠ IDLE → loop_early (loop_at s) = true ∨ callbacks s = [] ∨ stop_at s ≠ StIdle.
Proof.
  intros [H1 H2 H3 _] Hi. destruct (stop_at s) eqn:E; [|by auto..]. destruct (th_stat s) eqn:Est; [done| |by destruct H2].
  specialize (H3 eq_refl eq_refl). destruct (loop_at s); cbn in *; auto; done.
Qed.

Lemma wake_go_ok t full s s' : spin_ok s → wake_ok s → CThread_dispatch_go t full s = Some s' → wake_ok s'.
Proof.
  intros Hs Hw H. apply bind_Some in H as (pc & Et & H).
  pose proof (λ new o bytes, wake_disp_move s t pc new o bytes Hw Et) as Hmove.
  destruct pc as [cb|cb| | | |ret].
  - destruct (spin s); [done|]. injection H as <-. apply (Hmove (DsPush cb) (Some (ByThread t)) (fd_bytes s)); auto.
  - injection H as <-. destruct Hw as [H1 H2 H3 H4]. split; cbn; auto.
    + intros He. exfalso. destruct Hs as [Hl Hd]. assert (E1 : spin s = Some (ByThread t)) by (apply Hd; eauto).
      destruct (loop_at s); try done; rewrite (proj2 Hl eq_refl) in E1; done.
    + intros E _. right. right. by apply pending_here.
  - injection H as <-. apply (Hmove DsRead None (fd_bytes s)); auto.
  - injection H as <-. eapply (Hmove _ (spin s) (fd_bytes s)); [done|]. destruct (decide (th_stat s = IDLE)) as [->|Hi]; [by auto|].
    do 3 right. by apply wake_noticed.
  - destruct full; [destruct (fd_bytes s) as [|b bytes] eqn:Eb; [done|]|]; injection H as <-.
    + apply (Hmove (DsOut (Some false)) (spin s) (fd_bytes s)); rewrite ?Eb; auto.
    + apply (Hmove (DsOut (Some true)) (spin s) (fd_bytes s ++ [status_byte IDLE])); [by intros [_ ?]%app_nil|]. do 2 right. left. by intros [_ ?]%app_nil.
  - done.
Qed.

Lemma wake_ok_step e s s' : spin_ok s → wake_ok s → th_exec e s = Some s' → wake_ok s'.
Proof.
  intros Hs Hw H. destruct e as [|t cb sched|t full|full]; cbn [th_exec] in H; [by eapply wake_loop_ok| |by eapply wake_go_ok|].
  - unfold CThread_dispatch in H. destruct (dispatch_now _ _); [done|]. destruct (dispatchers s !! t) as [[]|] eqn:Et; try done. injection H as <-.
    by apply (wake_disp_move s t _ (DsLock cb) (spin s) (fd_bytes s) Hw Et); auto.
  - destruct Hw as [H1 H2 H3 H4]. unfold CThread_stop in H. destruct (stop_at s), full; try destruct (fd_bytes s); try destruct (loop_at s) eqn:Heql; try done;
      injection H as <-; split; cbn; try done; by rewrite ?Heql.
Qed.

(** ** Runs *)

Record th_ok (s : cthread) : Prop := { to_spin : spin_ok s; to_order : order_ok s; to_wake : wake_ok s; to_exit : exit_ok s }.

Lemma th_ok_step e s s' : th_ok s → th_exec e s = Some s' → th_ok s'.
Proof. intros [] H. split; by eauto using spin_ok_step, order_ok_step, wake_ok_step, exit_ok_step. Qed.

Lemma th_ok_run es s s' : th_ok s → run_all th_exec es s = Some s' → th_ok s'.
Proof. intros Hs Hr. eapply (run_inv th_exec); [|exact Hs|exact Hr]. intros e s1 s2 _. apply th_ok_step. Qed.

Definition all_out (s : cthread) : Prop := map_Forall (λ _ pc, disp_out pc = true) (dispatchers s).

Lemma th_ok_init th : map_Forall (λ _ pc, disp_out pc = true) th → th_ok (CThread_init th).
Proof.
  intros Hout. split; [|done|..]; split; cbn; try done.
  - intros t. split; [done|]. intros (pc & Hpc & E). specialize (Hout t pc Hpc). by destruct pc.
  - intros _. split; [|done]. apply not_elem_of_nil.
Qed.

(** Steps of the loop alone. *)
Definition loop_reach (s s' : cthread) : Prop := ∃ n, run_all th_exec (replicate n ThLoop) s = Some s'.

Lemma reach_refl s : loop_reach s s.
Proof. by exists 0%nat. Qed.

Lemma reach_step s s1 s' : CThread_wake s = Some s1 → loop_reach s1 s' → loop_reach s s'.
Proof. intros H [n Hn]. exists (S n). cbn [replicate run_all th_exec]. by rewrite H, bind_Some_eq. Qed.

Lemma reach_trans s1 s2 s3 : loop_reach s1 s2 → loop_reach s2 s3 → loop_reach s1 s3.
Proof. intros [n Hn] [m Hm]. exists (n + m)%nat. rewrite replicate_add, run_all_app, Hn. done. Qed.

(** What the loop on its own does not change. *)
Definition same_rest (s s' : cthread) : Prop := dispatchers s' = dispatchers s ∧ stop_at s' = stop_at s ∧ pushed s' = pushed s ∧ fd_bytes s' = fd_bytes s.

Lemma same_rest_trans s1 s2 s3 : same_rest s1 s2 → same_rest s2 s3 → same_rest s1 s3.
Proof. unfold same_rest. intuition congruence. Qed.

(** The loop on its own gets to a state with [Q]. *)
Definition loop_gets (Q : cthread → Prop) (s : cthread) : Prop := ∃ s', loop_reach s s' ∧ same_rest s s' ∧ Q s'.

Lemma gets_here (Q : cthread → Prop) s : Q s → loop_gets Q s.
Proof. intros HQ. exists s. split; [apply reach_refl|done]. Qed.

Lemma gets_step Q s s1 : CThread_wake s = Some s1 → same_rest s s1 → loop_gets Q s1 → loop_gets Q s.
Proof. intros H Hr (s' & Hs & Hr' & HQ). exists s'. split; [by eapply reach_step|]. split; [by eapply same_rest_trans|done]. Qed.

Lemma gets_trans Q R s : loop_gets Q s → (∀ s1, Q s1 → loop_gets R s1) → loop_gets R s.
Proof.
  intros (s1 & Hs & Hr & HQ) HR. destruct (HR s1 HQ) as (s2 & Hs2 & Hr2 & HR2). exists s2.
  split; [by eapply reach_trans|]. split; [by eapply same_rest_trans|done].
Qed.

(** One step of the loop at a known place. *)
Ltac loop_step El := eapply gets_step; [unfold CThread_wake; rewrite El; reflexivity|done|].

(** What holds when [wake] has returned. *)
Definition returned (buf : list Z) (cbs : list nat) (s : cthread) : Prop :=
  callbacks s = cbs ∧ loop_at s = (if bool_decide (status_byte EXIT ∈ buf) then LpEnd else LpLoop).

Lemma gets_exit buf cbs s : loop_at s = LpExit buf → callbacks s = cbs → loop_gets (returned buf cbs) s.
Proof. intros El Ec. loop_step El. by apply gets_here. Qed.

Lemma gets_after_idle buf cbs s : loop_at s = LpAfterIdle buf → callbacks s = cbs → loop_gets (returned buf cbs) s.
Proof. intros El Ec. loop_step El. by apply gets_exit. Qed.

Lemma gets_after buf cbs s : loop_at s = LpAfter buf → callbacks s = cbs → loop_gets (returned buf cbs) s.
Proof. intros El Ec. loop_step El. case_decide; [by apply gets_after_idle|by apply gets_exit]. Qed.

Lemma gets_release buf cbs s : loop_at s = LpRelease buf → callbacks s = cbs → loop_gets (returned buf cbs) s.
Proof. intros El Ec. loop_step El. by apply gets_after. Qed.

Lemma gets_idle buf cbs s : loop_at s = LpIdle buf → callbacks s = cbs → loop_gets (returned buf cbs) s.
Proof. intros El Ec. loop_step El. by apply gets_release. Qed.

Lemma gets_empty buf cbs s : loop_at s = LpEmpty buf → callbacks s = cbs → loop_gets (returned buf cbs) s.
Proof. intros El Ec. loop_step El. case_decide; [by apply gets_idle|by apply gets_release]. Qed.

(** From the moment the list is empty, [wake] returns. *)
Lemma gets_late s :
  loop_early (loop_at s) = false → loop_at s ≠ LpLoop → loop_at s ≠ LpEnd → loop_gets (returned (received (loop_at s)) (callbacks s)) s.
Proof.
  intros He H1 H2. destruct (loop_at s) eqn:El; try done; cbn [received];
    auto using gets_empty, gets_idle, gets_release, gets_after, gets_after_idle, gets_exit.
Qed.

(** Before, it runs all callbacks first. *)
Lemma gets_swap_empty buf s : loop_at s = LpSwap buf → callbacks s = [] → loop_gets (returned buf []) s.
Proof. intros El Ec. eapply gets_step; [unfold CThread_wake; rewrite El, Ec; reflexivity|done|]. by apply gets_empty. Qed.

Lemma gets_lock_empty buf s : loop_at s = LpLock buf → spin s = None → callbacks s = [] → loop_gets (returned buf []) s.
Proof.
  intros El Es Ec. eapply gets_step; [unfold CThread_wake; rewrite El, Es; reflexivity|done|]. by apply gets_swap_empty.
Qed.

Lemma gets_run buf cbs s : loop_at s = LpRun buf cbs → spin s = None → callbacks s = [] → loop_gets (returned buf []) s.
Proof.
  revert s. induction cbs as [|cb cbs IH]; intros s El Es Ec; loop_step El; [by apply gets_lock_empty|by apply IH].
Qed.

Lemma gets_run_all buf cbs s : loop_at s = LpRun buf cbs → spin s = None → loop_gets (returned buf []) s.
Proof.
  revert s. induction cbs as [|cb cbs IH]; intros s El Es; loop_step El; [|by apply IH].
  eapply gets_step; [unfold CThread_wake; cbn; rewrite Es; reflexivity|done|]. destruct (callbacks s) as [|cb cbs] eqn:Ec; [by apply gets_swap_empty|].
  eapply gets_step; [unfold CThread_wake; cbn; rewrite Ec; reflexivity|done|]. eapply gets_step; [reflexivity|done|].
  by eapply (gets_run buf (cb :: cbs)).
Qed.

Lemma gets_swap buf s : loop_at s = LpSwap buf → loop_gets (returned buf []) s.
Proof.
  intros El. destruct (callbacks s) as [|cb cbs] eqn:Ec; [by apply gets_swap_empty|].
  eapply gets_step; [unfold CThread_wake; rewrite El, Ec; reflexivity|done|]. eapply gets_step; [reflexivity|done|]. by eapply (gets_run buf (cb :: cbs)).
Qed.

Lemma gets_lock buf s : loop_at s = LpLock buf → spin s = None → loop_gets (returned buf []) s.
Proof. intros El Es. eapply gets_step; [unfold CThread_wake; rewrite El, Es; reflexivity|done|]. by apply gets_swap. Qed.

Lemma gets_early s :
  th_ok s → all_out s → loop_early (loop_at s) = true → loop_gets (returned (received (loop_at s)) []) s.
Proof.
  intros Hok Hout He. destruct (to_spin _ Hok) as [Hl Hd].
  assert (Hs : loop_holds (loop_at s) = false → spin s = None).
  { intros Eh. destruct (spin s) as [[|t]|] eqn:Es; [by rewrite (proj1 Hl eq_refl) in Eh| |done]. destruct (proj1 (Hd t) eq_refl) as (pc & Hpc & Eh').
    specialize (Hout t pc Hpc). by destruct pc. }
  destruct (loop_at s) as [|buf|buf|buf|buf|buf cbs|buf cbs|buf|buf|buf|buf|buf|buf|] eqn:El; try done; cbn [received loop_holds] in *.
  - specialize (Hs eq_refl). loop_step El. case_decide; [|by apply gets_lock]. eapply gets_step; [reflexivity|done|]. by apply gets_lock.
  - specialize (Hs eq_refl). loop_step El. by apply gets_lock.
  - by apply gets_lock; [|apply Hs].
  - by apply gets_swap.
  - loop_step El. by eapply gets_run_all.
  - by eapply gets_run_all; [|apply Hs].
Qed.

(** The loop takes the bytes that woke it. *)
Lemma gets_recv s : th_ok s → all_out s → loop_at s = LpLoop → fd_bytes s ≠ [] →
  ∃ s1, th_exec ThLoop s = Some s1 ∧ dispatchers s1 = dispatchers s ∧ stop_at s1 = stop_at s ∧ pushed s1 = pushed s ∧
    fd_bytes s1 = drop recv_size (fd_bytes s) ∧ loop_at s1 = LpTest (take recv_size (fd_bytes s)).
Proof.
  intros Hok Hout El Hb. cbn [th_exec]. unfold CThread_wake. rewrite El. unfold CThread_recv.
  destruct (fd_bytes s) as [|b bytes]; [done|]. eexists. split; [reflexivity|]. by repeat split.
Qed.

(** The loop gets back to where it waits for events, or ends. *)
Lemma gets_rest s :
  th_ok s → all_out s → loop_at s ≠ LpEnd → loop_at s ≠ LpLoop →
  ∃ cbs, loop_gets (returned (received (loop_at s)) cbs) s.
Proof.
  intros Hok Hout H1 H2. destruct (loop_early (loop_at s)) eqn:He; [exists []; by apply gets_early|eexists; by apply gets_late].
Qed.

Lemma reach_ok s s' : th_ok s → loop_reach s s' → th_ok s'.
Proof. intros Hok [n Hn]. by eapply th_ok_run. Qed.

(** One pass through [wake]. *)
Lemma gets_wake s :
  th_ok s → all_out s → loop_at s = LpLoop → fd_bytes s ≠ [] →
  ∃ s', loop_reach s s' ∧ dispatchers s' = dispatchers s ∧ stop_at s' = stop_at s ∧ pushed s' = pushed s ∧
    fd_bytes s' = drop recv_size (fd_bytes s) ∧ returned (take recv_size (fd_bytes s)) [] s'.
Proof.
  intros Hok Hout El Hb. destruct (gets_recv s Hok Hout El Hb) as (s1 & He & E1 & E2 & E3 & E4 & E5).
  assert (Hok1 : th_ok s1) by (by eapply th_ok_step). assert (Hout1 : all_out s1) by (unfold all_out; by rewrite E1).
  destruct (gets_early s1 Hok1 Hout1) as (s' & Hr & (F1 & F2 & F3 & F4) & Hret); [by rewrite E5|]. rewrite E5 in Hret.
  exists s'. split; [by eapply reach_step|]. split_and!; try congruence. done.
Qed.

(** When nobody stops the loop, it gets to where it waits with nothing left to run. *)
Lemma loop_drains s :
  th_ok s → all_out s → stop_at s = StIdle → ∃ s', loop_reach s s' ∧ pushed s' = pushed s ∧ loop_at s' = LpLoop ∧ callbacks s' = [].
Proof.
  intros Hok Hout Hst.
  assert (Hloop : ∀ s, th_ok s → all_out s → stop_at s = StIdle → loop_at s = LpLoop →
    ∃ s', loop_reach s s' ∧ pushed s' = pushed s ∧ loop_at s' = LpLoop ∧ callbacks s' = []).
  { clear. intros s Hok Hout Hst El. destruct (callbacks s) as [|cb cbs] eqn:Ec; [exists s; by split; [apply reach_refl|]|].
    destruct (to_exit _ Hok) as [_ Hx]. rewrite Hst in Hx. destruct (Hx eq_refl) as [Hx1 _]. rewrite not_elem_of_app in Hx1.
    assert (Hb : fd_bytes s ≠ []).
    { destruct (wo_noticed _ (to_wake _ Hok) Hst) as [|[He|(t & pc & Hpc & Hp)]]; [congruence|done|by rewrite El in He|].
      specialize (Hout t pc Hpc). by destruct pc. }
    destruct (gets_wake s Hok Hout El Hb) as (s' & Hr & _ & _ & E3 & _ & E5 & E6). exists s'. split_and!; try done.
    rewrite E6, bool_decide_eq_false_2; [done|]. intros Hin. destruct Hx1 as [Hx1 _]. apply Hx1. rewrite <-(take_drop recv_size (fd_bytes s)), elem_of_app. by left. }
  destruct (to_exit _ Hok) as [_ Hx]. rewrite Hst in Hx. destruct (Hx eq_refl) as [Hx1 Hend]. rewrite not_elem_of_app in Hx1.
  assert (El : {loop_at s = LpLoop} + {loop_at s ≠ LpLoop}) by (destruct (loop_at s); [by left|by right..]).
  destruct El as [El|El]; [by apply Hloop|]. destruct (gets_rest s Hok Hout Hend El) as (cbs & s1 & Hr & (F1 & F2 & F3 & F4) & E5 & E6).
  rewrite bool_decide_eq_false_2 in E6 by tauto.
  destruct (Hloop s1) as (s' & Hr' & Hp & Hl & Hc); [by eapply reach_ok|unfold all_out; by rewrite F1|congruence|done|].
  exists s'. split_and!; try done; [by eapply reach_trans|congruence].
Qed.

(** C36: dispatching to a thread with an event loop.  Whatever the order of the steps of the loop, of any threads that dispatch and of the one
    that stops it: what ran is a beginning of what was dispatched, so that every callback runs at most once and in order.  And while nobody has
    stopped the loop, no callback is forgotten, although the status makes most dispatches skip the byte that wakes the loop: once all calls of
    [dispatch] have returned, the loop on its own runs everything that was dispatched and waits again. *)
Theorem dispatched_callbacks_run th es s :
  map_Forall (λ _ pc, disp_out pc = true) th → run_all th_exec es (CThread_init th) = Some s →
  ran s `prefix_of` pushed s ∧
  (stop_at s = StIdle → all_out s → ∃ n s', run_all th_exec (replicate n ThLoop) s = Some s' ∧ ran s' = pushed s ∧ callbacks s' = [] ∧ loop_at s' = LpLoop).
Proof.
  intros Hth Hrun. assert (Hok : th_ok s) by (eapply th_ok_run; [by apply th_ok_init|done]). split.
  - rewrite <-(to_order _ Hok). by apply prefix_app_r.
  - intros Hst Hout. destruct (loop_drains s Hok Hout Hst) as (s' & [n Hn] & Hp & Hl & Hc). exists n, s'. split_and!; try done.
    assert (Ho : order_ok s') by (apply to_order; by eapply th_ok_run). unfold order_ok in Ho. rewrite Hl, Hc in Ho. cbn in Ho. rewrite app_nil_r in Ho. congruence.
Qed.

Definition demo_threads : gmap nat disp_pc := list_to_map ((λ t, (t, DsOut None)) <$> [0; 1]%nat).

Lemma demo_threads_out : map_Forall (λ _ pc, disp_out pc = true) demo_threads.
Proof. by apply map_Forall_to_list; vm_compute; repeat constructor. Qed.

(** One thread dispatches and wakes the loop; while the loop is awake and has swapped the list, another dispatches without a byte. *)
Definition demo_dispatch : list th_event :=
  [ThDispatch 0 10 STACK] ++ replicate 5 (ThGo 0 false) ++ replicate 5 ThLoop ++
  [ThDispatch 1 11 DEFER; ThLoop] ++ replicate 4 (ThGo 1 false).

(** ** Stopping *)

(** What had to run before the loop ends has run from the moment on at which the loop that has received the last byte finds the list empty. *)
Record last_ok (p : list nat) (s : cthread) : Prop := {
  lo_pushed : p `prefix_of` pushed s;
  lo_ran : loop_early (loop_at s) = false → status_byte EXIT ∈ received (loop_at s) ∨ loop_at s = LpEnd → p `prefix_of` ran s
}.

Lemma last_ok_step p e s s' : th_ok s → last_ok p s → th_exec e s = Some s' → last_ok p s'.
Proof.
  intros Hok [H1 H2] H. assert (Hord := to_order _ Hok). unfold order_ok in Hord. destruct e as [|t cb sched|t full|full]; cbn [th_exec] in H.
  - unfold CThread_wake in H. destruct (loop_at s) as [|buf|buf|buf|buf|buf cbs|buf [|cb cbs]|buf|buf|buf|buf|buf|buf|] eqn:El; cbn in *.
    1: unfold CThread_recv in H; destruct (fd_bytes s); [done|]; by injection H as <-.
    4: destruct (callbacks s) eqn:Ec; injection H as <-; split; cbn; [done| |done|done]; intros _ _; rewrite app_nil_r in Hord; by rewrite Hord.
    all: repeat case_match; simplify_eq; split; cbn; auto; repeat case_decide; cbn; auto; try done.
    all: try (intros _ [Hin|]; [by apply H2; [|left]|done]). by intros _ [Hin%elem_of_nil|].
  - unfold CThread_dispatch in H. repeat case_match; simplify_eq; by split.
  - apply bind_Some in H as (pc & Et & H). repeat case_match; simplify_eq; split; cbn; auto. by apply prefix_app_r.
  - unfold CThread_stop in H. destruct (stop_at s), full; try destruct (fd_bytes s); try destruct (loop_at s) eqn:Heql; try done;
      injection H as <-; split; cbn; try done; by rewrite ?Heql.
Qed.

Lemma unsent_last s : th_ok s → stop_unsent (stop_at s) = true → last_ok (pushed s) s.
Proof.
  intros Hok Hu. destruct (eo_unsent _ (to_exit _ Hok) Hu) as [Hn He]. rewrite not_elem_of_app in Hn. split; [done|]. intros _ [Hin|]; [by destruct Hn|done].
Qed.

(** A loop that was sent the last byte ends. *)
Lemma loop_ends n s :
  (length (fd_bytes s) <= n)%nat → th_ok s → all_out s → stop_at s = StJoin true → ∃ s', loop_reach s s' ∧ stop_at s' = stop_at s ∧ loop_at s' = LpEnd.
Proof.
  revert s. induction n as [|n IH]; intros s Hlen Hok Hout Hst.
  all: assert (Hend : {loop_at s = LpEnd} + {loop_at s ≠ LpEnd}) by (destruct (loop_at s); [by right..|by left]).
  all: destruct Hend as [El|Hend]; [exists s; by split; [apply reach_refl|]|].
  all: assert (Hrest : ∃ s1, loop_reach s s1 ∧ dispatchers s1 = dispatchers s ∧ stop_at s1 = stop_at s ∧ fd_bytes s1 = fd_bytes s ∧ (loop_at s1 = LpLoop ∨ loop_at s1 = LpEnd)).
  1,3: assert (El : {loop_at s = LpLoop} + {loop_at s ≠ LpLoop}) by (destruct (loop_at s); [by left|by right..]); destruct El as [El|El];
    [exists s; split_and!; auto using reach_refl|]; destruct (gets_rest s Hok Hout Hend El) as (cbs & s1 & Hr & (F1 & F2 & F3 & F4) & E5 & E6);
    exists s1; split_and!; try done; rewrite E6; case_bool_decide; auto.
  all: destruct Hrest as (s1 & Hr & F1 & F2 & F4 & [El|El]); [|exists s1; by split].
  all: assert (Hok1 : th_ok s1) by (by eapply reach_ok); destruct (eo_sent _ (to_exit _ Hok1)) as [Hin|]; [congruence| |congruence];
    rewrite El in Hin; cbn [received] in Hin; rewrite app_nil_r in Hin.
  - rewrite F4 in Hin. destruct (fd_bytes s); [by apply elem_of_nil in Hin|cbn in Hlen; lia].
  - assert (Hb : fd_bytes s1 ≠ []) by (intros E; rewrite E in Hin; by apply elem_of_nil in Hin).
    destruct (gets_wake s1 Hok1) as (s2 & Hr2 & G1 & G2 & G3 & G4 & G5 & G6); [unfold all_out; by rewrite F1|done|done|].
    destruct (IH s2) as (s' & Hr' & Hst' & El'); [|by eapply reach_ok; [|done]|unfold all_out; by rewrite G1, F1|congruence|].
    + rewrite G4, length_drop, F4. assert (recv_size = 4096%nat) as -> by done. rewrite F4 in Hb. destruct (fd_bytes s); [done|]. cbn [length] in *. lia.
    + exists s'. split; [by eapply reach_trans; [|eapply reach_trans]|]. split; [congruence|done].
Qed.

Lemma wake_keeps_stop s s' : CThread_wake s = Some s' → stop_at s' = stop_at s ∧ loop_at s ≠ LpEnd.
Proof.
  unfold CThread_wake, CThread_recv. intros H.
  destruct (loop_at s) as [|buf|buf|buf|buf|buf cbs|buf [|cb cbs]|buf|buf|buf|buf|buf|buf|]; repeat case_match; try done; by injection H as <-.
Qed.

(** C37: stopping a loop.  At the moment before the byte of [stop] is sent, remember what was dispatched.  Whatever the threads do then: if the
    loop ends, all of that has run, in order; [stop] returns only when the loop has ended; and if the byte could be written and all calls of
    [dispatch] have returned, the loop on its own ends and [stop] returns. *)
Theorem stop_runs_dispatched th es1 s1 es2 s2 :
  map_Forall (λ _ pc, disp_out pc = true) th → run_all th_exec es1 (CThread_init th) = Some s1 → stop_unsent (stop_at s1) = true →
  run_all th_exec es2 s1 = Some s2 →
  (loop_at s2 = LpEnd → pushed s1 `prefix_of` ran s2) ∧ (stop_at s2 = StDone → loop_at s2 = LpEnd) ∧
  (stop_at s2 = StJoin true → all_out s2 → ∃ n s3, run_all th_exec (replicate n ThLoop ++ [ThStop false]) s2 = Some s3 ∧ stop_at s3 = StDone).
Proof.
  intros Hth Hr1 Hu Hr2. assert (Hok1 : th_ok s1) by (eapply th_ok_run; [by apply th_ok_init|done]). assert (Hok2 : th_ok s2) by (by eapply th_ok_run). split; [|split].
  - intros El. assert (Hl : th_ok s2 ∧ last_ok (pushed s1) s2); [|by apply Hl; rewrite ?El; auto].
    refine (run_inv th_exec (λ s, th_ok s ∧ last_ok (pushed s1) s) es2 s1 s2 _ _ Hr2); [|by split; [|apply unsent_last]].
    intros e s s' _ [Ho Hl] He. split; [by eapply th_ok_step|by eapply last_ok_step].
  - refine (run_inv th_exec (λ s, stop_at s = StDone → loop_at s = LpEnd) es2 s1 s2 _ _ Hr2); [|by intros E; rewrite E in Hu].
    intros e s s' _ Hs He. destruct e as [|t cb sched|t full|full]; cbn [th_exec] in He.
    + intros Hd. destruct (wake_keeps_stop s s' He) as [E Hne]. rewrite E in Hd. by apply Hs in Hd.
    + unfold CThread_dispatch in He. repeat case_match; by simplify_eq.
    + apply bind_Some in He as (pc & Et & He). repeat case_match; by simplify_eq.
    + unfold CThread_stop in He. destruct (stop_at s), full; try destruct (fd_bytes s); try destruct (loop_at s) eqn:Heql; try done; by injection He as <-.
  - intros Hst Hout. destruct (loop_ends _ s2 (reflexivity _) Hok2 Hout Hst) as (s' & [n Hn] & E1 & E2). exists n, (set_stop StDone s').
    rewrite run_all_app, Hn, bind_Some_eq. cbn [run_all th_exec]. unfold CThread_stop. by rewrite E1, Hst, E2.
Qed.

Lemma dispatched_callbacks_run_witness :
  ∃ s, run_all th_exec demo_dispatch (CThread_init demo_threads) = Some s ∧ (callbacks s = [11%nat]) ∧ fd_bytes s = [] ∧
    ∃ n s', run_all th_exec (replicate n ThLoop) s = Some s' ∧ ran s' = pushed s ∧ callbacks s' = [] ∧ loop_at s' = LpLoop.
Proof.
  eexists. split; [vm_compute; reflexivity|]. split_and!; [done..|].
  apply (dispatched_callbacks_run demo_threads demo_dispatch); [apply demo_threads_out|vm_compute; reflexivity|done|].
  by apply map_Forall_to_list; vm_compute; repeat constructor.
Defined.

(** A thread dispatches, another stops the loop. *)
Definition demo_stop : list th_event := [ThDispatch 0 10 STACK] ++ replicate 5 (ThGo 0 false).

Lemma stop_runs_dispatched_witness :
  ∃ s1 s2, run_all th_exec demo_stop (CThread_init demo_threads) = Some s1 ∧ run_all th_exec [ThStop false; ThStop false] s1 = Some s2 ∧
    ∃ n s3, run_all th_exec (replicate n ThLoop ++ [ThStop false]) s2 = Some s3 ∧ stop_at s3 = StDone.
Proof.
  eexists _, _. split; [vm_compute; reflexivity|]. split; [vm_compute; reflexivity|].
  eapply (stop_runs_dispatched demo_threads demo_stop _ [ThStop false; ThStop false]);
    [apply demo_threads_out|vm_compute; reflexivity|done|vm_compute; reflexivity|done|].
  by apply map_Forall_to_list; vm_compute; repeat constructor.
Defined.

(** A call of [dispatch] says no when the socket takes no more bytes, or when the loop is being stopped, although the callback then runs. *)
Lemma dispatch_refused_runs :
  (∃ s, run_all th_exec (demo_stop ++ [ThDispatch 1 11 STACK] ++ replicate 5 (ThGo 1 true) ++ replicate 15 ThLoop) (CThread_init demo_threads) = Some s ∧
    dispatchers s !! 1%nat = Some (DsOut (Some false)) ∧ ran s = [10; 11]%nat) ∧
  (∃ s, run_all th_exec ([ThStop false; ThDispatch 0 10 STACK] ++ replicate 4 (ThGo 0 false) ++ [ThStop false] ++ replicate 12 ThLoop)
      (CThread_init demo_threads) = Some s ∧ dispatchers s !! 0%nat = Some (DsOut (Some false)) ∧ ran s = [10%nat]).
Proof. split; eexists; (split; [vm_compute; reflexivity|]); split; vm_compute; reflexivity. Qed.

(** The test and the store of the status at the end of [wake] are two accesses: a [stop] in between is overwritten, and later calls of [dispatch]
    say yes to callbacks that never run. *)
Lemma stop_overwritten :
  ∃ s, run_all th_exec (demo_stop ++ replicate 11 ThLoop ++ [ThStop false] ++ replicate 4 ThLoop ++ [ThStop false] ++ replicate 10 ThLoop ++ [ThStop false] ++
      [ThDispatch 1 11 STACK] ++ replicate 5 (ThGo 1 false)) (CThread_init demo_threads) = Some s ∧
    dispatchers s !! 1%nat = Some (DsOut (Some true)) ∧ callbacks s = [11%nat] ∧ loop_at s = LpEnd ∧ stop_at s = StDone ∧ th_exec ThLoop s = None.
Proof. eexists. split; [vm_compute; reflexivity|]. split_and!; vm_compute; reflexivity. Qed.

(** The byte of [stop] may not fit, and nobody looks: the loop goes on waiting for events and [stop] for its end. *)
Lemma stop_byte_lost :
  ∃ s, run_all th_exec (demo_stop ++ [ThStop false; ThStop true] ++ replicate 13 ThLoop) (CThread_init demo_threads) = Some s ∧
    loop_at s = LpLoop ∧ fd_bytes s = [] ∧ th_exec ThLoop s = None ∧ th_exec (ThStop false) s = None.
Proof. eexists. split; [vm_compute; reflexivity|]. split_and!; vm_compute; reflexivity. Qed.

(** ** Timers *)

(** Registering a timer replaces the one of its identifier and touches no other; unregistering removes it. *)
Lemma timer_registered id cb usec pers timers j :
  CThread_registerTimer id cb usec pers timers !! j =
    (if decide (j = id) then Some {| timer_cb := cb; timeout_usec := u64 usec; persist := pers |} else timers !! j) ∧
  CThread_unregisterTimer id timers !! j = (if decide (j = id) then None else timers !! j).
Proof.
  unfold CThread_registerTimer, CThread_unregisterTimer. destruct (timers !! id) eqn:E; rewrite ?lookup_delete_eq, ?E; case_decide as Hj; subst;
    rewrite ?lookup_insert_eq, ?lookup_insert_ne, ?lookup_delete_eq, ?lookup_delete_ne by done; done.
Qed.
