(* ===== verification/WorkQueue.v ===== *)
(** * Queues of work

    The classes of src/src/public/threadctl.{h,cc} and the last one of src/src/common/bufferqueue.h, in which threads wait under a mutex for
    work:

    - [CQueueThread]: worker threads, a queue without bound, a handler, [start] and [stop];
    - [CThreadPool]: the same with tasks, started by its constructor and stopped by its destructor;
    - [CTMsgQueueCond]: a bounded queue of pointers to messages.

    What a thread does while it holds the mutex, up to its release or a [wait], is one step; the threads interleave, who is woken is a choice,
    and a [wait] may end for no reason.  Work is a number; what was accepted, taken from the queue and handled is kept, in order.  An event that
    is not possible is [None]. *)
From S2P Require Import Prelude.

(** ** CQueueThread *)

(** A worker before the mutex (at first, after its work, or woken), asleep in [wait], with work in its hands, or returned. *)
Inductive worker_pc := WkReady | WkAsleep | WkHandle (x : nat) | WkEnd.

(** The thread that stops: outside, before [notify_all], joining the workers, or returned; a second call finds nothing to do. *)
Inductive halt_pc := HtIdle | HtNotify | HtJoin | HtDone.
#[global] Instance halt_pc_dec : EqDecision halt_pc.
Proof. solve_decision. Defined.

Record work_queue := {
  threadCount : Z;
  running : bool;
  wq_items : list nat;
  workers : gmap nat worker_pc;
  spawning : nat;                     (* threads that [start] has still to make *)
  to_notify : nat;                    (* calls of [enqueue] between their unlock and their [notify_one] *)
  halt_at : halt_pc;
  accepted : list nat;
  taken : list nat;
  handled : list nat
}.

Definition set_workers m s := Build_work_queue (threadCount s) (running s) (wq_items s) m (spawning s) (to_notify s) (halt_at s) (accepted s) (taken s) (handled s).
Definition set_running b s := Build_work_queue (threadCount s) b (wq_items s) (workers s) (spawning s) (to_notify s) (halt_at s) (accepted s) (taken s) (handled s).
Definition set_items l s := Build_work_queue (threadCount s) (running s) l (workers s) (spawning s) (to_notify s) (halt_at s) (accepted s) (taken s) (handled s).
Definition set_spawning n s := Build_work_queue (threadCount s) (running s) (wq_items s) (workers s) n (to_notify s) (halt_at s) (accepted s) (taken s) (handled s).
Definition set_notify n s := Build_work_queue (threadCount s) (running s) (wq_items s) (workers s) (spawning s) n (halt_at s) (accepted s) (taken s) (handled s).
Definition set_halt pc s := Build_work_queue (threadCount s) (running s) (wq_items s) (workers s) (spawning s) (to_notify s) pc (accepted s) (taken s) (handled s).
Definition add_accepted x s :=
  Build_work_queue (threadCount s) (running s) (wq_items s) (workers s) (spawning s) (to_notify s) (halt_at s) (accepted s ++ [x]) (taken s) (handled s).
Definition add_taken x s :=
  Build_work_queue (threadCount s) (running s) (wq_items s) (workers s) (spawning s) (to_notify s) (halt_at s) (accepted s) (taken s ++ [x]) (handled s).
Definition add_handled x s :=
  Build_work_queue (threadCount s) (running s) (wq_items s) (workers s) (spawning s) (to_notify s) (halt_at s) (accepted s) (taken s) (handled s ++ [x]).

Definition CQueueThread_new (thread_count : Z) : work_queue :=
  {| threadCount := u32 thread_count; running := false; wq_items := []; workers := ∅; spawning := 0; to_notify := 0; halt_at := HtIdle;
     accepted := []; taken := []; handled := [] |}.

Definition CQueueThread_setThreadCount (thread_count : Z) (s : work_queue) : bool * work_queue :=
  if running s then (false, s)
  else (true, Build_work_queue (u32 thread_count) (running s) (wq_items s) (workers s) (spawning s) (to_notify s) (halt_at s) (accepted s) (taken s) (handled s)).

(** [start] in steps: it lets work in, and then makes its threads one after the other, behind those that are there, while
    others enqueue and the first ones work.  A new thread has a new name. *)
Definition CQueueThread_start (s : work_queue) : work_queue := set_spawning (Z.to_nat (threadCount s)) (set_running true s).
Definition CQueueThread_spawn (s : work_queue) : option work_queue :=
  match spawning s with
  | O => None
  | S n => Some (set_spawning n (set_workers (<[fresh (dom (workers s)) := WkReady]> (workers s)) s))
  end.

(** [enqueue] up to the release of the mutex, and what it returns. *)
Definition CQueueThread_enqueue (x : nat) (s : work_queue) : bool * work_queue :=
  if negb (running s) then (false, s)
  else (true, set_notify (S (to_notify s)) (add_accepted x (set_items (wq_items s ++ [x]) s))).

(** The turn of a worker under the mutex. *)
Definition CQueueThread_turn (t : nat) (s : work_queue) : work_queue :=
  if negb (running s) || negb (bool_decide (wq_items s = [])) then
    match wq_items s with
    | x :: items => set_workers (<[t := WkHandle x]> (workers s)) (add_taken x (set_items items s))
    | [] => set_workers (<[t := WkEnd]> (workers s)) s
    end
  else set_workers (<[t := WkAsleep]> (workers s)) s.

(** The next step of a worker. *)
Definition CQueueThread_work (t : nat) (s : work_queue) : option work_queue :=
  match workers s !! t with
  | Some WkReady => Some (CQueueThread_turn t s)
  | Some (WkHandle x) => Some (set_workers (<[t := WkReady]> (workers s)) (add_handled x s))
  | _ => None
  end.

Definition wake_worker (pc : worker_pc) : worker_pc := match pc with WkAsleep => WkReady | pc => pc end.
Definition worker_asleep (pc : worker_pc) : bool := match pc with WkAsleep => true | _ => false end.
Definition worker_ended (pc : worker_pc) : bool := match pc with WkEnd => true | _ => false end.

(** [notify_one] wakes one sleeper, nobody only if nobody sleeps. *)
Definition work_notify (woken : option nat) (s : work_queue) : option work_queue :=
  match to_notify s with
  | 0%nat => None
  | S n =>
      match woken with
      | Some t => match workers s !! t with Some WkAsleep => Some (set_workers (<[t := WkReady]> (workers s)) (set_notify n s)) | _ => None end
      | None => if bool_decide (map_Forall (λ _ pc, worker_asleep pc = false) (workers s)) then Some (set_notify n s) else None
      end
  end.

(** A second call, when the workers have been joined, changes nothing. *)
Definition CQueueThread_stop (s : work_queue) : option work_queue :=
  match halt_at s with
  | HtIdle => match spawning s with O => Some (set_halt HtNotify (set_running false s)) | S _ => None end
  | HtNotify => Some (set_halt HtJoin (set_workers (wake_worker <$> workers s) s))
  | HtJoin => if bool_decide (map_Forall (λ _ pc, worker_ended pc = true) (workers s)) then Some (set_halt HtDone s) else None
  | HtDone => Some s
  end.

(** [WqSpawn]: the next thread of a [start]; [WqSpurious]: a sleeper that nobody woke.  The vector of threads is under no lock, so that calls of
    [start] and [stop] come one after the other; a [start] behind a [stop] is left out. *)
Inductive wq_event := WqStart | WqSpawn | WqEnqueue (x : nat) | WqNotify (woken : option nat) | WqWork (t : nat) | WqStop | WqSpurious (t : nat).

Definition wq_exec (e : wq_event) (s : work_queue) : option work_queue :=
  match e with
  | WqStart => if decide (halt_at s = HtIdle ∧ spawning s = 0%nat) then Some (CQueueThread_start s) else None
  | WqSpawn => CQueueThread_spawn s
  | WqEnqueue x => Some (CQueueThread_enqueue x s).2
  | WqNotify woken => work_notify woken s
  | WqWork t => CQueueThread_work t s
  | WqStop => CQueueThread_stop s
  | WqSpurious t => match workers s !! t with Some WkAsleep => Some (set_workers (<[t := WkReady]> (workers s)) s) | _ => None end
  end.

(** ** CThreadPool *)

(** The workers of the pool have the code of those above, with [stop] for not [running], and the calls of tasks for the handler; the
    constructor makes them as [start] does. *)
Definition CThreadPool_new (threads : Z) : work_queue := CQueueThread_start (CQueueThread_new threads).
Definition CThreadPool_execute (task : nat) (s : work_queue) : bool * work_queue := CQueueThread_enqueue task s.
Definition CThreadPool_work (t : nat) (s : work_queue) : option work_queue := CQueueThread_work t s.
Definition CThreadPool_delete (s : work_queue) : option work_queue := CQueueThread_stop s.

(** ** CTMsgQueueCond *)

(** A message is a pointer, [None] the null pointer.  A thread in [getmsg] is outside, asleep, or woken; it keeps what its last call returned. *)
Inductive getter_pc := GtOut (ret : option (option nat)) | GtAsleep | GtAwake.

Record msg_queue := { m_queue : list (option nat); getters : gmap nat getter_pc; posted : list (option nat); received : list nat }.

Definition max_messages : Z := 100000.

Definition CTMsgQueueCond_size (s : msg_queue) : Z := u32 (Z.of_nat (length (m_queue s))).

Definition wake_getter (pc : getter_pc) : getter_pc := match pc with GtAsleep => GtAwake | pc => pc end.

Definition CTMsgQueueCond_postmsg (msg : option nat) (s : msg_queue) : bool * msg_queue :=
  if max_messages <? Z.of_nat (length (m_queue s)) then (false, s)
  else (true, Build_msg_queue (m_queue s ++ [msg]) (wake_getter <$> getters s) (posted s ++ [msg]) (received s)).

(** [getmsg] with a queue that is not empty, or behind its [wait]. *)
Definition getmsg_front (t : nat) (s : msg_queue) : msg_queue :=
  match m_queue s with
  | [] => Build_msg_queue [] (<[t := GtOut (Some None)]> (getters s)) (posted s) (received s)
  | Some v :: q => Build_msg_queue q (<[t := GtOut (Some (Some v))]> (getters s)) (posted s) (received s ++ [v])
  | None :: q => Build_msg_queue (None :: q) (<[t := GtOut (Some None)]> (getters s)) (posted s) (received s)
  end.

Definition CTMsgQueueCond_getmsg (t : nat) (s : msg_queue) : option msg_queue :=
  match getters s !! t with
  | Some (GtOut _) =>
      Some (match m_queue s with
            | [] => Build_msg_queue [] (<[t := GtAsleep]> (getters s)) (posted s) (received s)
            | _ => getmsg_front t s
            end)
  | Some GtAwake => Some (getmsg_front t s)
  | _ => None
  end.

(** The time of [getmsg_usec] is over, or a wake-up for no reason. *)
Definition getmsg_timeout (t : nat) (s : msg_queue) : option msg_queue :=
  match getters s !! t with
  | Some GtAsleep => Some (Build_msg_queue (m_queue s) (<[t := GtAwake]> (getters s)) (posted s) (received s))
  | _ => None
  end.

(** The messages that the destructor leaves. *)
Fixpoint CTMsgQueueCond_delete (q : list (option nat)) : list (option nat) :=
  match q with Some _ :: q => CTMsgQueueCond_delete q | q => q end.

Inductive mq_event := MqPost (msg : option nat) | MqGet (t : nat) | MqTimeout (t : nat).

Definition mq_exec (e : mq_event) (s : msg_queue) : option msg_queue :=
  match e with
  | MqPost msg => Some (CTMsgQueueCond_postmsg msg s).2
  | MqGet t => CTMsgQueueCond_getmsg t s
  | MqTimeout t => getmsg_timeout t s
  end.

Definition CTMsgQueueCond_new (th : gmap nat getter_pc) : msg_queue := {| m_queue := []; getters := th; posted := []; received := [] |}.
