(* ===== verification/WorkQueueSpec.v ===== *)
(** * What the queues of work guarantee

    Work that was accepted is taken in its order and handled once, no worker sleeps over it, and stopping waits for all of it; messages of the
    bounded queue are delivered in their order.  By invariants of the steps. *)
From S2P Require Import Prelude WorkQueue.

(** ** Work in hands *)

Definition in_hands (pc : worker_pc) : list nat := match pc with WkHandle x => [x] | _ => [] end.
Definition hands (m : gmap nat worker_pc) : list nat := map_to_list m ≫= λ p, in_hands p.2.

Lemma hands_insert m t old new : m !! t = Some old → hands (<[t := new]> m) ++ in_hands old ≡ₚ hands m ++ in_hands new.
Proof.
  intros Ht. unfold hands. rewrite <-(insert_id m t old Ht) at 2. rewrite <-!(insert_delete_eq m).
  rewrite !map_to_list_insert by apply lookup_delete_eq. cbn [mbind list_bind snd]. fold (@mbind list _). solve_Permutation.
Qed.

Lemma hands_new m t pc : m !! t = None → in_hands pc = [] → hands (<[t := pc]> m) ≡ₚ hands m.
Proof. intros Ht E. unfold hands. rewrite map_to_list_insert by done. cbn. by rewrite E. Qed.

Lemma hands_fmap (f : worker_pc → worker_pc) m : (∀ pc, in_hands (f pc) = in_hands pc) → hands (f <$> m) = hands m.
Proof.
  intros Hf. unfold hands. rewrite map_to_list_fmap. induction (map_to_list m) as [|[t pc] l IH]; [done|]. cbn. by rewrite Hf, IH.
Qed.

Lemma hands_none m : map_Forall (λ _ pc, in_hands pc = []) m → hands m = [].
Proof.
  intros H. unfold hands. apply map_Forall_to_list in H. induction H as [|[t pc] l E H IH]; [done|]. cbn in *. by rewrite E, IH.
Qed.

(** ** The invariant *)

Definition worker_awake (pc : worker_pc) : bool := match pc with WkReady | WkHandle _ => true | _ => false end.

Record wq_ok (s : work_queue) : Prop := {
  wk_order : taken s ++ wq_items s = accepted s;
  wk_once : handled s ++ hands (workers s) ≡ₚ taken s;
  wk_spawning : spawning s ≠ 0%nat → running s = true ∧ halt_at s = HtIdle;
  wk_halted : halt_at s ≠ HtIdle → running s = false;
  wk_started : workers s ≠ ∅ → halt_at s = HtIdle → running s = true;
  wk_none : workers s = ∅ → handled s = [];
  wk_ended t : workers s !! t = Some WkEnd → wq_items s = [] ∧ halt_at s ≠ HtIdle;
  wk_asleep t : workers s !! t = Some WkAsleep → halt_at s = HtIdle ∨ halt_at s = HtNotify;
  wk_noticed : running s = true → workers s ≠ ∅ → wq_items s ≠ [] → to_notify s ≠ 0%nat ∨ ∃ t pc, workers s !! t = Some pc ∧ worker_awake pc = true;
  wk_done : halt_at s = HtDone → map_Forall (λ _ pc, worker_ended pc = true) (workers s)
}.

Lemma wq_ok_new n : wq_ok (CQueueThread_new n).
Proof. by split. Qed.

Lemma wq_ok_start s : halt_at s = HtIdle → wq_ok s → wq_ok (CQueueThread_start s).
Proof.
  intros Hh [H1 H2 H0 H3 H4 H5 H6 H7 H8 H9]. split; cbn; auto. by rewrite Hh.
Qed.

Lemma wq_ok_spawn s s' : wq_ok s → CQueueThread_spawn s = Some s' → wq_ok s'.
Proof.
  intros [H1 H2 H0 H3 H4 H5 H6 H7 H8 H9]. unfold CQueueThread_spawn. destruct (spawning s) as [|n]; [done|]. intros [= <-]. destruct H0 as [Hr Hh]; [done|].
  set (t := fresh (dom (workers s))). assert (Ht : workers s !! t = None) by apply not_elem_of_dom, is_fresh.
  assert (Hold : ∀ u pc, <[t := WkReady]> (workers s) !! u = Some pc → pc = WkReady ∨ workers s !! u = Some pc).
  { intros u pc. destruct (decide (u = t)) as [->|Hne]; [rewrite lookup_insert_eq; intros [= <-]; by left|rewrite lookup_insert_ne by done; by right]. }
  split; cbn; auto.
  - by rewrite hands_new.
  - intros E. by apply insert_non_empty in E.
  - intros u Hu. destruct (Hold u _ Hu) as [|Hu']; [done|]. by apply (H6 u).
  - intros _ _ _. right. exists t, WkReady. split; [apply lookup_insert_eq|done].
  - by rewrite Hh.
Qed.

Lemma wq_ok_enqueue x s : wq_ok s → wq_ok (CQueueThread_enqueue x s).2.
Proof.
  intros Hs. unfold CQueueThread_enqueue. destruct (running s) eqn:Er; cbn [negb snd]; [|done]. destruct Hs as [H1 H2 H0 H3 H4 H5 H6 H7 H8 H9]. split; cbn; auto.
  - by rewrite app_assoc, H1.
  - intros t Ht. destruct (H6 t Ht) as [_ Hh]. by rewrite H3 in Er.
Qed.

(** A step of one worker, which was awake. *)
Lemma wq_move s t old new items tk hd :
  wq_ok s → workers s !! t = Some old → worker_awake old = true → tk ++ items = accepted s → hd ++ hands (<[t := new]> (workers s)) ≡ₚ tk →
  (items ≠ [] → worker_awake new = true ∧ wq_items s ≠ []) → (new = WkEnd → halt_at s ≠ HtIdle) → (new = WkAsleep → halt_at s = HtIdle) →
  wq_ok (Build_work_queue (threadCount s) (running s) items (<[t := new]> (workers s)) (spawning s) (to_notify s) (halt_at s) (accepted s) tk hd).
Proof.
  intros [H1 H2 H0 H3 H4 H5 H6 H7 H8 H9] Et Hold Ho Hp Hi Hend Hsleep.
  assert (Hne : workers s ≠ ∅) by (intros E; by rewrite E in Et).
  assert (Hnil : ∀ pc, worker_awake pc = false → new = pc → items = []).
  { intros pc Hpc ->. destruct items; [done|]. destruct Hi as [Hi _]; [done|]. congruence. }
  split; cbn; auto.
  - intros E. by apply insert_non_empty in E.
  - intros u. destruct (decide (u = t)) as [->|Hu]; [rewrite lookup_insert_eq|rewrite lookup_insert_ne by done].
    + intros [= ->]. split; [by apply (Hnil WkEnd)|by apply Hend].
    + intros Hu'. destruct (H6 u Hu') as [E ?]. split; [|done]. destruct items; [done|]. by destruct Hi as [_ ?].
  - intros u. destruct (decide (u = t)) as [->|Hu]; [rewrite lookup_insert_eq|rewrite lookup_insert_ne by done; apply H7]. intros [= ->]. auto.
  - intros _ _ Hne'. right. exists t, new. rewrite lookup_insert_eq. by destruct Hi.
  - intros Hd. specialize (H9 Hd t old Et). by destruct old.
Qed.

Lemma wq_ok_work t s s' : wq_ok s → CQueueThread_work t s = Some s' → wq_ok s'.
Proof.
  intros Hs H. unfold CQueueThread_work in H. destruct (workers s !! t) as [pc|] eqn:Et; [|done].
  pose proof (wk_order _ Hs) as Ho. pose proof (wk_once _ Hs) as Hp. assert (Hne : workers s ≠ ∅) by (intros E; by rewrite E in Et).
  pose proof (λ new, hands_insert _ _ _ new Et) as Hh. destruct pc as [| |x|]; try done; injection H as <-; cbn [in_hands] in Hh.
  - unfold CQueueThread_turn. destruct (wq_items s) as [|x items] eqn:Ei; [rewrite bool_decide_eq_true_2 by done|rewrite bool_decide_eq_false_2 by done].
    + destruct (running s) eqn:Er; cbn [negb orb]; (apply (wq_move s t WkReady); [done..|by rewrite Ei| |by rewrite Ei| |]).
      * specialize (Hh WkAsleep). rewrite !app_nil_r in Hh. by rewrite Hh.
      * done.
      * intros _. destruct (halt_at s) eqn:Eh; [done|by rewrite (wk_halted _ Hs) in Er; rewrite ?Eh..].
      * specialize (Hh WkEnd). rewrite !app_nil_r in Hh. by rewrite Hh.
      * intros _ Eh. by rewrite (wk_started _ Hs) in Er.
      * done.
    + rewrite orb_true_r. apply (wq_move s t WkReady); try done.
      * cbn. by rewrite <-app_assoc.
      * cbn. specialize (Hh (WkHandle x)). rewrite app_nil_r in Hh. by rewrite Hh, <-Hp, app_assoc.
      * intros _. by rewrite Ei.
  - apply (wq_move s t (WkHandle x)); try done.
    cbn. specialize (Hh WkReady). rewrite app_nil_r in Hh. by rewrite <-Hp, <-Hh, <-!app_assoc, (Permutation_app_comm [x]).
Qed.

(** Waking sleepers changes nothing else. *)
Lemma wq_wake s m n h :
  wq_ok s → hands m ≡ₚ hands (workers s) → (m = ∅ ↔ workers s = ∅) → (h = HtIdle ↔ halt_at s = HtIdle) →
  (∀ t pc, m !! t = Some pc → workers s !! t = Some pc ∨ workers s !! t = Some WkAsleep ∧ pc = WkReady) →
  (∀ t pc, workers s !! t = Some pc → m !! t = Some pc ∨ m !! t = Some WkReady) → (h = HtDone → halt_at s = HtDone ∧ m = workers s) →
  (∀ t, m !! t = Some WkAsleep → h = HtIdle ∨ h = HtNotify) → (n ≠ to_notify s → n ≠ 0%nat ∨ map_Forall (λ _ pc, worker_asleep pc = false) (workers s) ∨ ∃ t, m !! t = Some WkReady) →
  wq_ok (set_halt h (set_notify n (set_workers m s))).
Proof.
  intros [H1 H2 H0 H3 H4 H5 H6 H7 H8 H9] Eh Hem Hh Hback Hfor Hnd Hsl Hn. split; cbn; auto.
  - by rewrite Eh.
  - intros Hsp. destruct (H0 Hsp). split; [done|by apply Hh].
  - intros E. apply H3. by rewrite <-Hh.
  - rewrite Hem, Hh. done.
  - rewrite Hem. done.
  - intros t Ht. rewrite Hh. destruct (Hback t _ Ht) as [|[_ ?]]; [by apply (H6 t)|done].
  - rewrite Hem. intros Er Hne Hi.
    assert (Hkeep : to_notify s ≠ 0%nat ∨ (∃ t pc, m !! t = Some pc ∧ worker_awake pc = true)).
    { destruct (H8 Er Hne Hi) as [|(t & pc & Ht & Ha)]; [by left|right]. destruct (Hfor t pc Ht); [by exists t, pc|by exists t, WkReady]. }
    destruct (decide (n = to_notify s)) as [->|Hne']; [done|]. destruct (Hn Hne') as [|[Hs|[t Ht]]]; [by left| |right; by exists t, WkReady].
    right. destruct (map_choose (workers s) Hne) as (t & pc & Ht). specialize (Hs t pc Ht). destruct (decide (worker_ended pc = true)) as [He|He].
    + destruct pc; try done. by destruct (H6 t Ht).
    + exists t. destruct (Hfor t pc Ht) as [Hm|Hm]; eexists; (split; [exact Hm|]); by destruct pc.
  - intros Eh'. destruct (Hnd Eh') as [Ed ->]. auto.
Qed.

(** A sleeper that is woken. *)
Lemma wq_wake_one s t n :
  wq_ok s → workers s !! t = Some WkAsleep → wq_ok (set_workers (<[t := WkReady]> (workers s)) (set_notify n s)).
Proof.
  intros Hs Et. change (wq_ok (set_halt (halt_at s) (set_notify n (set_workers (<[t := WkReady]> (workers s)) s)))).
  assert (Ht : <[t := WkReady]> (workers s) !! t = Some WkReady) by apply lookup_insert_eq. apply wq_wake; try done.
  - pose proof (hands_insert _ _ _ WkReady Et) as Hh. cbn in Hh. by rewrite !app_nil_r in Hh.
  - split; intros E; [by apply insert_non_empty in E|by rewrite E in Et].
  - intros u pc. destruct (decide (u = t)) as [->|Hne]; [rewrite Ht; intros [= <-]; by right|rewrite lookup_insert_ne by done; by left].
  - intros u pc Hu. destruct (decide (u = t)) as [->|Hne]; [by right|rewrite lookup_insert_ne by done; by left].
  - intros Ed. by specialize (wk_done _ Hs Ed t _ Et).
  - intros u. destruct (decide (u = t)) as [->|Hne]; [by rewrite Ht|rewrite lookup_insert_ne by done; apply (wk_asleep _ Hs)].
  - intros _. right. right. by exists t.
Qed.

Lemma wq_notify_nobody s n :
  wq_ok s → map_Forall (λ _ pc, worker_asleep pc = false) (workers s) → wq_ok (set_notify n s).
Proof.
  intros Hs Hn. change (wq_ok (set_halt (halt_at s) (set_notify n (set_workers (workers s) s)))). apply wq_wake; auto. intros t Ht. by specialize (Hn t _ Ht).
Qed.

Lemma wq_ok_stop s s' : wq_ok s → CQueueThread_stop s = Some s' → wq_ok s'.
Proof.
  intros Hs H. unfold CQueueThread_stop in H. destruct (halt_at s) eqn:Eh.
  - destruct (spawning s) eqn:Esp; [|done]. injection H as <-. destruct Hs as [H1 H2 H0 H3 H4 H5 H6 H7 H8 H9]. split; cbn; auto; try done. intros t Ht. by destruct (H6 t Ht).
  - injection H as <-. change (wq_ok (set_halt HtJoin (set_notify (to_notify s) (set_workers (wake_worker <$> workers s) s)))). apply wq_wake; try done.
    + rewrite hands_fmap; [done|]. by intros [].
    + apply fmap_empty_iff.
    + by rewrite Eh.
    + intros t pc. rewrite lookup_fmap, fmap_Some. intros (pc' & Ht & ->). destruct pc'; auto.
    + intros t pc Ht. rewrite lookup_fmap, Ht. destruct pc; auto.
    + intros t. rewrite lookup_fmap, fmap_Some. by intros ([] & Ht & ?).
  - case_bool_decide as Hd; [|done]. injection H as <-. destruct Hs as [H1 H2 H0 H3 H4 H5 H6 H7 H8 H9]. rewrite Eh in *. split; cbn; auto; try done.
    + intros Hsp. by destruct (H0 Hsp).
    + intros t Ht. by destruct (H6 t Ht).
    + intros t Ht. by specialize (Hd t _ Ht).
  - by injection H as <-.
Qed.

Lemma wq_ok_step e s s' : wq_ok s → wq_exec e s = Some s' → wq_ok s'.
Proof.
  intros Hs H. destruct e as [| |x|woken|t| |t]; cbn [wq_exec] in H.
  - destruct (decide _) as [[? _]|]; [|done]. injection H as <-. by apply wq_ok_start.
  - by eapply wq_ok_spawn.
  - injection H as <-. by apply wq_ok_enqueue.
  - unfold work_notify in H. destruct (to_notify s) as [|n]; [done|]. destruct woken as [t|].
    + destruct (workers s !! t) as [[]|] eqn:Et; try done. injection H as <-. by apply wq_wake_one.
    + case_bool_decide as Hn; [|done]. injection H as <-. by apply wq_notify_nobody.
  - by eapply wq_ok_work.
  - by eapply wq_ok_stop.
  - destruct (workers s !! t) as [[]|] eqn:Et; try done. injection H as <-. by apply (wq_wake_one s t (to_notify s)).
Qed.

(** ** Settling *)

Definition worker_ready (pc : worker_pc) : bool := match pc with WkReady => true | _ => false end.
Definition worker_handles (pc : worker_pc) : bool := match pc with WkHandle _ => true | _ => false end.

(** How many steps workers and notifications have left at most. *)
Definition work_left (s : work_queue) : Z :=
  3 * Z.of_nat (length (wq_items s)) + 2 * count_of worker_handles (workers s) + count_of worker_ready (workers s) + 2 * Z.of_nat (to_notify s).

Lemma work_left_nonneg s : 0 <= work_left s.
Proof. unfold work_left. pose proof (count_bound worker_handles (workers s)). pose proof (count_bound worker_ready (workers s)). lia. Qed.

(** The steps that the work itself makes. *)
Definition work_event (e : wq_event) : Prop := match e with WqNotify _ | WqWork _ => True | _ => False end.

Lemma work_left_less e s s' : work_event e → wq_exec e s = Some s' → work_left s' < work_left s.
Proof.
  intros He H. unfold work_left. destruct e as [| |x|woken|t| |t]; try done; cbn [wq_exec] in H.
  - unfold work_notify in H. destruct (to_notify s) as [|n] eqn:En; [done|]. destruct woken as [t|].
    + destruct (workers s !! t) as [[]|] eqn:Et; try done. injection H as <-. cbn. rewrite !(count_insert _ _ _ _ _ Et). cbn. lia.
    + case_bool_decide; [|done]. injection H as <-. cbn. lia.
  - unfold CQueueThread_work in H. destruct (workers s !! t) as [[| |x|]|] eqn:Et; try done; injection H as <-.
    + unfold CQueueThread_turn. destruct (_ || _); [destruct (wq_items s) as [|x items] eqn:Ei|]; cbn; rewrite !(count_insert _ _ _ _ _ Et); cbn [worker_handles worker_ready Z.b2z length]; rewrite ?Ei; cbn [length]; lia.
    + cbn. rewrite !(count_insert _ _ _ _ _ Et). cbn. lia.
Qed.

Lemma work_runs es s s' : Forall work_event es → run_all wq_exec es s = Some s' → Z.of_nat (length es) + work_left s' <= work_left s.
Proof.
  revert s. induction es as [|e es IH]; intros s Hes; cbn [run_all]; [intros [= <-]; cbn; lia|]. intros (s1 & He & Hr)%bind_Some.
  apply list.Forall_cons in Hes as [Hw Hes]. pose proof (work_left_less e s s1 Hw He). specialize (IH s1 Hes Hr). cbn [length]. lia.
Qed.

(** When the work can make no step, all of it is done. *)
Lemma work_stuck s :
  wq_ok s → workers s ≠ ∅ → (∀ e, work_event e → wq_exec e s = None) → halt_at s ≠ HtNotify →
  wq_items s = [] ∧ handled s ≡ₚ accepted s ∧ (halt_at s = HtJoin → CQueueThread_stop s = Some (set_halt HtDone s)).
Proof.
  intros Hs Hne Hst Hh.
  assert (Hw : ∀ t pc, workers s !! t = Some pc → pc = WkAsleep ∨ pc = WkEnd).
  { intros t pc Ht. specialize (Hst (WqWork t) I). cbn [wq_exec] in Hst. unfold CQueueThread_work in Hst. rewrite Ht in Hst. destruct pc; auto; done. }
  assert (Hn : to_notify s = 0%nat).
  { destruct (to_notify s) as [|n] eqn:En; [done|exfalso]. destruct (decide (map_Forall (λ _ pc, worker_asleep pc = false) (workers s))) as [Ha|Ha].
    - specialize (Hst (WqNotify None) I). cbn [wq_exec] in Hst. unfold work_notify in Hst. by rewrite En, bool_decide_eq_true_2 in Hst.
    - apply map_not_Forall in Ha as (t & pc & Ht & Ha); [|apply _]. specialize (Hst (WqNotify (Some t)) I). cbn [wq_exec] in Hst. unfold work_notify in Hst.
      rewrite En, Ht in Hst. by destruct pc. }
  assert (Hi : wq_items s = []).
  { destruct (map_choose (workers s) Hne) as (t & pc & Ht). destruct (Hw t pc Ht) as [->| ->]; [|by destruct (wk_ended _ Hs t Ht)].
    destruct (wq_items s) as [|x items] eqn:Ei; [done|]. exfalso. destruct (wk_asleep _ Hs t Ht) as [Eh|Eh]; [|done].
    destruct (wk_noticed _ Hs) as [|(u & pc & Hu & Ha)]; [by apply (wk_started _ Hs)|done|by rewrite Ei|done|]. by destruct (Hw u pc Hu) as [->| ->]. }
  split; [done|]. split.
  - rewrite <-(wk_order _ Hs), Hi, app_nil_r, <-(wk_once _ Hs), hands_none, app_nil_r; [done|]. intros t pc Ht. by destruct (Hw t pc Ht) as [->| ->].
  - intros Eh. unfold CQueueThread_stop. rewrite Eh, bool_decide_eq_true_2; [done|]. intros t pc Ht. destruct (Hw t pc Ht) as [->| ->]; [|done].
    destruct (wk_asleep _ Hs t Ht); congruence.
Qed.

Lemma wq_ok_run es s s' : wq_ok s → run_all wq_exec es s = Some s' → wq_ok s'.
Proof. intros Hs Hr. eapply (run_inv wq_exec); [|exact Hs|exact Hr]. intros e s1 s2 _. apply wq_ok_step. Qed.

(** C38: the queue of work.  Whatever the order of starts and of the threads they make, of calls of [enqueue], of the turns of the workers, of notifications, wake-ups for no
    reason and of a stop: work leaves the queue in the order in which it was accepted, and what was taken is handled once or in the hands of a
    worker.  With at least one worker, the notifications and workers on their own make at most [work_left] steps, and when they can make no more,
    everything accepted is handled and a [stop] that has notified returns; so no worker sleeps over work, and when [stop] returns all work that
    was accepted is handled.  Starting again after a [stop] is not among the events. *)
Theorem work_queue_drains n es s :
  run_all wq_exec es (CQueueThread_new n) = Some s →
  taken s ++ wq_items s = accepted s ∧ handled s ++ hands (workers s) ≡ₚ taken s ∧
  (workers s ≠ ∅ → halt_at s = HtDone → handled s ≡ₚ accepted s) ∧
  (workers s ≠ ∅ → ∀ es' s', Forall work_event es' → run_all wq_exec es' s = Some s' →
    Z.of_nat (length es') <= work_left s ∧
    ((∀ e, work_event e → wq_exec e s' = None) → halt_at s' ≠ HtNotify →
      handled s' ≡ₚ accepted s' ∧ (halt_at s' = HtJoin → CQueueThread_stop s' = Some (set_halt HtDone s')))).
Proof.
  intros Hr. assert (Hs : wq_ok s) by (by eapply wq_ok_run; [apply wq_ok_new|]). split; [apply Hs|]. split; [apply Hs|]. split.
  - intros Hne Ed. pose proof (wk_done _ Hs Ed) as Hd. destruct (map_choose (workers s) Hne) as (t & pc & Ht). pose proof (Hd t pc Ht) as He.
    destruct pc; try done. destruct (wk_ended _ Hs t Ht) as [Hi _]. rewrite <-(wk_order _ Hs), Hi, app_nil_r, <-(wk_once _ Hs), hands_none, app_nil_r; [done|].
    intros u pc Hu. specialize (Hd u pc Hu). by destruct pc.
  - intros Hne es' s' Hes Hr'. pose proof (work_runs es' s s' Hes Hr') as Hlen. pose proof (work_left_nonneg s'). split; [lia|].
    intros Hst Hh. assert (Hs' : wq_ok s') by (by eapply wq_ok_run).
    assert (Hne' : workers s' ≠ ∅).
    { refine (run_inv wq_exec (λ s, workers s ≠ ∅) es' s s' _ Hne Hr'). intros e s1 s2 Hin Hne1 He.
      rewrite list.Forall_forall in Hes. specialize (Hes e Hin). destruct e; try done; cbn [wq_exec] in He; unfold work_notify, CQueueThread_work, CQueueThread_turn in He;
        repeat case_match; simplify_eq; cbn; first [apply insert_non_empty|done]. }
    destruct (work_stuck s' Hs' Hne' Hst Hh) as (_ & H1 & H2). by split.
Qed.

(** Two workers, three pieces of work, and a stop. *)
Definition demo_work : list wq_event :=
  [WqStart; WqSpawn; WqWork 0; WqEnqueue 7; WqSpawn; WqWork 1; WqEnqueue 8; WqNotify (Some 0%nat); WqStop; WqEnqueue 9; WqStop; WqWork 1; WqWork 0; WqWork 0; WqNotify None;
   WqWork 1; WqWork 0; WqStop].

Lemma work_queue_drains_witness :
  ∃ s, run_all wq_exec demo_work (CQueueThread_new 2) = Some s ∧ accepted s = [7; 8]%nat ∧ halt_at s = HtDone ∧ handled s ≡ₚ accepted s.
Proof.
  eexists. split; [vm_compute; reflexivity|]. split; [reflexivity|]. split; [reflexivity|].
  apply (work_queue_drains 2 demo_work); [vm_compute; reflexivity|vm_compute; discriminate|reflexivity].
Defined.

(** Work for a queue that was stopped, or not yet started, is refused; a thread pool takes work from its constructor on. *)
Lemma stopped_refuses n es s x :
  run_all wq_exec es (CQueueThread_new n) = Some s → halt_at s ≠ HtIdle ∨ workers s = ∅ ∧ running s = false → CQueueThread_enqueue x s = (false, s).
Proof.
  intros Hr Hor. assert (Hs : wq_ok s) by (by eapply wq_ok_run; [apply wq_ok_new|]). unfold CQueueThread_enqueue.
  by destruct Hor as [Hh|[_ Hh]]; [rewrite (wk_halted _ Hs Hh)|rewrite Hh].
Qed.

Lemma pool_accepts n x : (CThreadPool_execute x (CThreadPool_new n)).1 = true.
Proof. done. Qed.

(** A second [start] adds as many workers again. *)
Lemma start_twice : ∃ s, run_all wq_exec [WqStart; WqSpawn; WqSpawn; WqStart; WqSpawn; WqSpawn] (CQueueThread_new 2) = Some s ∧ size (workers s) = 4%nat.
Proof. eexists. split; [vm_compute; reflexivity|]. vm_compute. reflexivity. Qed.

(** ** Messages *)

Record mq_ok (s : msg_queue) : Prop := {
  mo_order : (Some <$> received s) ++ m_queue s = posted s;
  mo_asleep t : getters s !! t = Some GtAsleep → m_queue s = [];
  mo_bound : Z.of_nat (length (m_queue s)) <= max_messages + 1
}.

Lemma getters_insert (m : gmap nat getter_pc) t new (P : Prop) :
  new ≠ GtAsleep → (∀ u, m !! u = Some GtAsleep → P) → ∀ u, <[t := new]> m !! u = Some GtAsleep → P.
Proof. intros Hn Hm u. destruct (decide (u = t)) as [->|Hu]; [rewrite lookup_insert_eq; congruence|rewrite lookup_insert_ne by done; apply Hm]. Qed.

Lemma getmsg_front_ok t s : mq_ok s → mq_ok (getmsg_front t s).
Proof.
  intros [H1 H2 H3]. unfold getmsg_front. destruct (m_queue s) as [|[v|] q] eqn:Eq.
  - split; cbn; [done| |done]. by apply getters_insert.
  - split; cbn; [by rewrite fmap_app, <-app_assoc| |cbn in H3; lia]. apply getters_insert; [done|]. intros u Hu. by specialize (H2 u Hu).
  - split; cbn; [done| |done]. apply getters_insert; [done|]. intros u Hu. by specialize (H2 u Hu).
Qed.

Lemma mq_ok_step e s s' : mq_ok s → mq_exec e s = Some s' → mq_ok s'.
Proof.
  intros Hs H. pose proof Hs as [H1 H2 H3]. destruct e as [msg|t|t]; cbn [mq_exec] in H.
  - injection H as <-. unfold CTMsgQueueCond_postmsg. destruct (Z.ltb_spec max_messages (Z.of_nat (length (m_queue s)))) as [Hlt|Hle]; [done|]. split; cbn.
    + by rewrite app_assoc, H1.
    + intros t. rewrite lookup_fmap, fmap_Some. by intros ([] & _ & ?).
    + rewrite length_app. cbn. lia.
  - unfold CTMsgQueueCond_getmsg in H. destruct (getters s !! t) as [[ret| |]|] eqn:Et; try done; injection H as <-; [|by apply getmsg_front_ok].
    destruct (m_queue s) eqn:Eq; [|by apply getmsg_front_ok]. by split.
  - unfold getmsg_timeout in H. destruct (getters s !! t) as [[ret| |]|] eqn:Et; try done. injection H as <-. split; cbn; [done| |done]. by apply getters_insert.
Qed.

(** Messages are received in the order in which they were posted; no thread sleeps over one; 100001 of them fit. *)
Lemma messages_in_order th es s :
  map_Forall (λ _ pc, pc ≠ GtAsleep) th → run_all mq_exec es (CTMsgQueueCond_new th) = Some s →
  (Some <$> received s) ++ m_queue s = posted s ∧ (m_queue s ≠ [] → ∀ t, getters s !! t ≠ Some GtAsleep) ∧ Z.of_nat (length (m_queue s)) <= 100001.
Proof.
  intros Hth Hr. assert (Hs : mq_ok s).
  { refine (run_inv mq_exec mq_ok es _ s _ _ Hr); [by intros e s1 s2 _; apply mq_ok_step|]. split; cbn; [done| |done]. intros t Ht. by destruct (Hth t _ Ht). }
  split; [apply Hs|]. split; [|apply Hs]. intros Hne t Ht. by apply (mo_asleep _ Hs) in Ht.
Qed.

(** A null pointer is accepted and never leaves: from then on every call returns nothing, whatever is posted. *)
Lemma null_message_stays q t s s' : m_queue s = None :: q → mq_exec (MqGet t) s = Some s' → m_queue s' = None :: q ∧ getters s' !! t = Some (GtOut (Some None)).
Proof.
  intros Hq H. cbn [mq_exec] in H. unfold CTMsgQueueCond_getmsg, getmsg_front in H. rewrite Hq in H.
  destruct (getters s !! t) as [[ret| |]|]; try done; injection H as <-; cbn; by rewrite lookup_insert_eq.
Qed.

(** The destructor frees the messages before the first null pointer and leaves the others. *)
Lemma delete_leaves vs q : CTMsgQueueCond_delete ((Some <$> vs) ++ None :: q) = None :: q ∧ CTMsgQueueCond_delete (Some <$> vs) = [].
Proof. induction vs as [|v vs [IH1 IH2]]; by split. Qed.
