(* ===== verification/FifoWrap.v ===== *)
(** * Waiting queues of linked nodes

    The classes [IpcFifoQueue] and [LockFifoQueue] of src/src/common/bufferqueue.h, which let a reader wait for the queue of linked nodes
    ([FifoQueue], a bounded queue by the theorems of its own file): the first with a byte in a pipe and a status, the second with a condition
    variable.  Their threads interleave; every access to the queue, the status and the pipe is a step.  What was pushed and popped is kept.
    An event that is not possible is [None]. *)
From S2P Require Import Prelude.

(** ** IpcFifoQueue *)

Inductive ipc_status := IpcIdle | IpcBusy.
#[global] Instance ipc_status_dec : EqDecision ipc_status.
Proof. solve_decision. Defined.

(** A thread in [push]: outside, with the result of its last call; before the exchange of the status; before the byte. *)
Inductive pusher_pc := PsOut (ret : option bool) | PsCas | PsWrite.

(** The thread in [front]: outside, with the result of its last call; about to store the status, with the spin lock; waiting for the pipe; before
    the second look at the queue. *)
Inductive reader_pc := RdOut (ret : option (option nat)) | RdStore | RdWait | RdAgain.

Record ipc_queue := {
  ipc_capacity : Z;
  ipc_items : list nat;
  ipc_stat : ipc_status;
  ipc_pipe : Z;                       (* the number of bytes in the pipe *)
  pushers : gmap nat pusher_pc;
  reader : reader_pc;
  ipc_pushed : list nat;
  ipc_popped : list nat
}.

Definition ipc_set (st : ipc_status) (bytes : Z) (ps : gmap nat pusher_pc) (rd : reader_pc) (s : ipc_queue) : ipc_queue :=
  Build_ipc_queue (ipc_capacity s) (ipc_items s) st bytes ps rd (ipc_pushed s) (ipc_popped s).

Definition IpcFifoQueue_init (capacity : Z) (th : gmap nat pusher_pc) : ipc_queue :=
  {| ipc_capacity := u32 capacity; ipc_items := []; ipc_stat := IpcIdle; ipc_pipe := 0; pushers := th; reader := RdOut None;
     ipc_pushed := []; ipc_popped := [] |}.

(** The reader holds the spin lock. *)
Definition spin_taken (rd : reader_pc) : bool := match rd with RdStore => true | _ => false end.

(** The next step of [push x]. *)
Definition IpcFifoQueue_push (t x : nat) (s : ipc_queue) : option ipc_queue :=
  match pushers s !! t with
  | Some (PsOut _) =>
      if spin_taken (reader s) then None
      else if Z.of_nat (length (ipc_items s)) =? ipc_capacity s then
        Some (ipc_set (ipc_stat s) (ipc_pipe s) (<[t := PsOut (Some false)]> (pushers s)) (reader s) s)
      else
        Some (Build_ipc_queue (ipc_capacity s) (ipc_items s ++ [x]) (ipc_stat s) (ipc_pipe s) (<[t := PsCas]> (pushers s)) (reader s)
                (ipc_pushed s ++ [x]) (ipc_popped s))
  | _ => None
  end.

Definition IpcFifoQueue_push_go (t : nat) (s : ipc_queue) : option ipc_queue :=
  match pushers s !! t with
  | Some PsCas =>
      Some (if decide (ipc_stat s = IpcIdle) then ipc_set IpcBusy (ipc_pipe s) (<[t := PsWrite]> (pushers s)) (reader s) s
            else ipc_set (ipc_stat s) (ipc_pipe s) (<[t := PsOut (Some true)]> (pushers s)) (reader s) s)
  | Some PsWrite => Some (ipc_set (ipc_stat s) (ipc_pipe s + 1) (<[t := PsOut (Some true)]> (pushers s)) (reader s) s)
  | _ => None
  end.

(** The bytes that [front] reads from the pipe at once. *)
Definition pipe_read : Z := 1024.

(** The next step of [front]; [ready] is the result of waiting for the pipe, which is ready if it has a byte and not if it has none. *)
Definition IpcFifoQueue_front (ready : bool) (s : ipc_queue) : option ipc_queue :=
  match reader s with
  | RdOut _ =>
      Some (match ipc_items s with
            | x :: _ => ipc_set (ipc_stat s) (ipc_pipe s) (pushers s) (RdOut (Some (Some x))) s
            | [] => ipc_set (ipc_stat s) (ipc_pipe s) (pushers s) (if decide (ipc_stat s = IpcBusy) then RdStore else RdWait) s
            end)
  | RdStore => Some (ipc_set IpcIdle (ipc_pipe s) (pushers s) RdWait s)
  | RdWait =>
      if ready then
        if 0 <? ipc_pipe s then Some (ipc_set (ipc_stat s) (Z.max 0 (ipc_pipe s - pipe_read)) (pushers s) RdAgain s) else None
      else if 0 <? ipc_pipe s then None else Some (ipc_set (ipc_stat s) (ipc_pipe s) (pushers s) (RdOut (Some None)) s)
  | RdAgain =>
      Some (match ipc_items s with
            | x :: _ => ipc_set (ipc_stat s) (ipc_pipe s) (pushers s) (RdOut (Some (Some x))) s
            | [] => ipc_set (ipc_stat s) (ipc_pipe s) (pushers s) (RdOut (Some None)) s
            end)
  end.

(** [pop] turns the code of the inner queue, 0 for success, into a truth value. *)
Definition IpcFifoQueue_pop (s : ipc_queue) : bool * ipc_queue :=
  let code := match ipc_items s with [] => -1 | _ => 0 end in
  (negb (code =? 0),
   match ipc_items s with
   | [] => s
   | x :: items =>
       Build_ipc_queue (ipc_capacity s) items (ipc_stat s) (ipc_pipe s) (pushers s) (reader s) (ipc_pushed s) (ipc_popped s ++ [x])
   end).

Inductive ipc_event := IpcPush (t x : nat) | IpcGo (t : nat) | IpcFront (ready : bool) | IpcPop.

Definition ipc_exec (e : ipc_event) (s : ipc_queue) : option ipc_queue :=
  match e with
  | IpcPush t x => IpcFifoQueue_push t x s
  | IpcGo t => IpcFifoQueue_push_go t s
  | IpcFront ready => IpcFifoQueue_front ready s
  | IpcPop => match reader s with RdOut _ => Some (IpcFifoQueue_pop s).2 | _ => None end
  end.

(** ** LockFifoQueue *)

(** The thread that pushes: outside, with the result of its last call, or before its signal. *)
Inductive lpush_pc := LkOut (ret : option bool) | LkSignal.

(** A thread in [pop]: outside, with the result of its last call; holding the mutex after it found the queue empty; asleep; woken; holding the
    mutex before its second look. *)
Inductive lpop_pc := LkIdle (ret : option (option nat)) | LkEmpty | LkAsleep | LkWoken.

Record lock_fifo := {
  lk_capacity : Z;
  lk_items : list nat;
  lk_pusher : lpush_pc;
  lk_poppers : gmap nat lpop_pc;
  lk_pushed : list nat;
  lk_popped : list nat
}.

Definition lk_set (pu : lpush_pc) (po : gmap nat lpop_pc) (s : lock_fifo) : lock_fifo :=
  Build_lock_fifo (lk_capacity s) (lk_items s) pu po (lk_pushed s) (lk_popped s).

Definition LockFifoQueue_init (capacity : Z) (th : gmap nat lpop_pc) : lock_fifo :=
  {| lk_capacity := u32 capacity; lk_items := []; lk_pusher := LkOut None; lk_poppers := th; lk_pushed := []; lk_popped := [] |}.

Definition holds_mutex (pc : lpop_pc) : bool := match pc with LkEmpty => true | _ => false end.
Definition mutex_free (s : lock_fifo) : bool := bool_decide (map_Forall (λ _ pc, holds_mutex pc = false) (lk_poppers s)).

Definition lpop_asleep (pc : lpop_pc) : bool := match pc with LkAsleep => true | _ => false end.

(** [push] does not take the mutex. *)
Definition LockFifoQueue_push (x : nat) (s : lock_fifo) : option lock_fifo :=
  match lk_pusher s with
  | LkOut _ =>
      Some (if Z.of_nat (length (lk_items s)) =? lk_capacity s then lk_set (LkOut (Some false)) (lk_poppers s) s
            else Build_lock_fifo (lk_capacity s) (lk_items s ++ [x]) LkSignal (lk_poppers s) (lk_pushed s ++ [x]) (lk_popped s))
  | LkSignal => None
  end.

(** The signal wakes one sleeper, nobody only if nobody sleeps. *)
Definition LockFifoQueue_signal (woken : option nat) (s : lock_fifo) : option lock_fifo :=
  match lk_pusher s with
  | LkSignal =>
      match woken with
      | Some t =>
          match lk_poppers s !! t with Some LkAsleep => Some (lk_set (LkOut (Some true)) (<[t := LkWoken]> (lk_poppers s)) s) | _ => None end
      | None =>
          if bool_decide (map_Forall (λ _ pc, lpop_asleep pc = false) (lk_poppers s)) then Some (lk_set (LkOut (Some true)) (lk_poppers s) s) else None
      end
  | LkOut _ => None
  end.

(** The front of the queue, popped, or nothing. *)
Definition lpop_take (t : nat) (s : lock_fifo) : lock_fifo :=
  match lk_items s with
  | [] => lk_set (lk_pusher s) (<[t := LkIdle (Some None)]> (lk_poppers s)) s
  | x :: items =>
      Build_lock_fifo (lk_capacity s) items (lk_pusher s) (<[t := LkIdle (Some (Some x))]> (lk_poppers s)) (lk_pushed s) (lk_popped s ++ [x])
  end.

(** The next step of [pop]. *)
Definition LockFifoQueue_pop (t : nat) (s : lock_fifo) : option lock_fifo :=
  match lk_poppers s !! t with
  | Some (LkIdle _) =>
      if mutex_free s then
        Some (match lk_items s with
              | [] => lk_set (lk_pusher s) (<[t := LkEmpty]> (lk_poppers s)) s
              | _ => lpop_take t s
              end)
      else None
  | Some LkEmpty => Some (lk_set (lk_pusher s) (<[t := LkAsleep]> (lk_poppers s)) s)
  | Some LkWoken => if mutex_free s then Some (lpop_take t s) else None
  | _ => None
  end.

(** The time is over, or a wake-up for no reason. *)
Definition lpop_timeout (t : nat) (s : lock_fifo) : option lock_fifo :=
  match lk_poppers s !! t with Some LkAsleep => Some (lk_set (lk_pusher s) (<[t := LkWoken]> (lk_poppers s)) s) | _ => None end.

Inductive lk_event := LkPush (x : nat) | LkNotify (woken : option nat) | LkPop (t : nat) | LkTimeout (t : nat).

Definition lk_exec (e : lk_event) (s : lock_fifo) : option lock_fifo :=
  match e with
  | LkPush x => LockFifoQueue_push x s
  | LkNotify woken => LockFifoQueue_signal woken s
  | LkPop t => LockFifoQueue_pop t s
  | LkTimeout t => lpop_timeout t s
  end.
