(* ===== verification/FifoWrapSpec.v ===== *)
(** * What the waiting queues guarantee

    The queue with a pipe never lets its reader wait while something is there; the queue with a condition variable keeps the order, but may miss
    a signal. *)
From S2P Require Import Prelude FifoWrap.

(** ** IpcFifoQueue *)

Definition pusher_at (pc : pusher_pc) (s : ipc_queue) : Prop := ∃ t, pushers s !! t = Some pc.

Record ipc_ok (s : ipc_queue) : Prop := {
  ip_order : ipc_popped s ++ ipc_items s = ipc_pushed s;
  ip_pipe : 0 <= ipc_pipe s;
  ip_store : reader s = RdStore → ipc_items s = [];
  ip_busy : reader s = RdWait → ipc_stat s = IpcBusy → 0 < ipc_pipe s ∨ pusher_at PsWrite s;
  ip_items : reader s = RdWait → ipc_items s ≠ [] → ipc_stat s = IpcBusy ∨ pusher_at PsCas s
}.

Lemma pusher_other t new pc (s : ipc_queue) st b rd :
  pusher_at pc s → pushers s !! t ≠ Some pc ∨ new = pc → pusher_at pc (ipc_set st b (<[t := new]> (pushers s)) rd s).
Proof.
  intros [u Hu] Hor. destruct (decide (u = t)) as [->|Hne].
  - destruct Hor as [| ->]; [done|]. exists t. apply lookup_insert_eq.
  - exists u. cbn. by rewrite lookup_insert_ne.
Qed.

Lemma ipc_push_ok t x s s' : ipc_ok s → IpcFifoQueue_push t x s = Some s' → ipc_ok s'.
Proof.
  intros [H1 H2 H3 H4 H5] H. unfold IpcFifoQueue_push in H. destruct (pushers s !! t) as [[ret| |]|] eqn:Et; try done.
  destruct (reader s) eqn:Er; cbn [spin_taken] in H; try done.
  all: destruct (_ =? _); injection H as <-; split; cbn [ipc_set ipc_popped ipc_items ipc_pushed ipc_pipe reader ipc_stat]; try done; rewrite ?Er; try done;
    try (by rewrite app_assoc, H1).
  - intros _ Hb. destruct (H4 eq_refl Hb) as [|Hw]; [by left|right]. apply pusher_other; [done|left; congruence].
  - intros _ Hi. destruct (H5 eq_refl Hi) as [|Hw]; [by left|right]. apply pusher_other; [done|left; congruence].
  - intros _ Hb. destruct (H4 eq_refl Hb) as [|[u Hu]]; [by left|right]. exists u. cbn. rewrite lookup_insert_ne; [done|congruence].
  - intros _ _. right. exists t. apply lookup_insert_eq.
Qed.

Lemma ipc_go_ok t s s' : ipc_ok s → IpcFifoQueue_push_go t s = Some s' → ipc_ok s'.
Proof.
  intros [H1 H2 H3 H4 H5] H. unfold IpcFifoQueue_push_go in H. destruct (pushers s !! t) as [[ret| |]|] eqn:Et; try done; injection H as <-.
  - case_decide as Hd; split; cbn [ipc_set ipc_popped ipc_items ipc_pushed ipc_pipe reader ipc_stat]; try done.
    + intros Er _. right. exists t. apply lookup_insert_eq.
    + intros Er _. by left.
    + intros Er Hb. destruct (H4 Er Hb) as [|Hw]; [by left|right]. apply pusher_other; [done|left; congruence].
    + intros Er Hi. left. by destruct (ipc_stat s).
  - split; cbn [ipc_set ipc_popped ipc_items ipc_pushed ipc_pipe reader ipc_stat]; try done; [lia|intros; left; lia|].
    intros Er Hi. destruct (H5 Er Hi) as [|Hw]; [by left|right]. apply pusher_other; [done|left; congruence].
Qed.

Lemma ipc_front_ok ready s s' : ipc_ok s → IpcFifoQueue_front ready s = Some s' → ipc_ok s'.
Proof.
  intros [H1 H2 H3 H4 H5] H. unfold IpcFifoQueue_front in H. destruct (reader s) eqn:Er.
  - injection H as <-. destruct (ipc_items s) as [|x items] eqn:Ei; [case_decide|]; split; cbn; rewrite ?Ei; done.
  - injection H as <-. split; cbn; try done. rewrite (H3 eq_refl). done.
  - unfold pipe_read in H. destruct ready; destruct (Z.ltb_spec 0 (ipc_pipe s)); try done; injection H as <-; split; cbn; try done; lia.
  - injection H as <-. destruct (ipc_items s) as [|x items] eqn:Ei; split; cbn; rewrite ?Ei; done.
Qed.

Lemma ipc_ok_step e s s' : ipc_ok s → ipc_exec e s = Some s' → ipc_ok s'.
Proof.
  intros Hs H. destruct e as [t x|t|ready|]; cbn [ipc_exec] in H; [by eapply ipc_push_ok|by eapply ipc_go_ok|by eapply ipc_front_ok|].
  destruct (reader s) eqn:Er; try done. injection H as <-. unfold IpcFifoQueue_pop. destruct (ipc_items s) as [|x items] eqn:Ei; [done|].
  destruct Hs as [H1 H2 H3 H4 H5]. split; cbn; rewrite ?Er; try done. rewrite <-H1, Ei, <-app_assoc. done.
Qed.

(** The queue with a pipe.  For any interleaving of threads that push and one that reads: what was popped is a beginning of what was pushed.
    And although most pushes write no byte: when the reader waits for the pipe, no call of [push] is under way and something is in the queue, the
    pipe is ready, and the reader gets the first element in its next two steps, so that no element is forgotten while the reader sleeps. *)
Lemma ipc_reader_woken capacity th es s :
  map_Forall (λ _ pc, ∃ ret, pc = PsOut ret) th → run_all ipc_exec es (IpcFifoQueue_init capacity th) = Some s →
  ipc_popped s ++ ipc_items s = ipc_pushed s ∧
  (map_Forall (λ _ pc, ∃ ret, pc = PsOut ret) (pushers s) → reader s = RdWait → ∀ x items, ipc_items s = x :: items →
    IpcFifoQueue_front false s = None ∧ ∃ s', run_all ipc_exec [IpcFront true; IpcFront true] s = Some s' ∧ reader s' = RdOut (Some (Some x))).
Proof.
  intros Hth Hr. assert (Hs : ipc_ok s).
  { refine (run_inv ipc_exec ipc_ok es _ s _ _ Hr); [by intros e s1 s2 _; apply ipc_ok_step|]. by split. }
  destruct Hs as [H1 H2 H3 H4 H5]. split; [done|]. intros Hout Er x items Ei.
  assert (Hno : ∀ pc, (∀ ret, pc ≠ PsOut ret) → ¬ pusher_at pc s).
  { intros pc Hpc [t Ht]. destruct (Hout t pc Ht) as [ret ->]. by apply (Hpc ret). }
  assert (Hb : 0 < ipc_pipe s).
  { destruct (H5 Er) as [Hb|Hc]; [by rewrite Ei| |by apply Hno in Hc]. destruct (H4 Er Hb) as [|Hc]; [done|by apply Hno in Hc]. }
  assert (E : (0 <? ipc_pipe s) = true) by (by apply Z.ltb_lt). split; [unfold IpcFifoQueue_front; by rewrite Er, E|].
  set (s1 := ipc_set (ipc_stat s) (Z.max 0 (ipc_pipe s - pipe_read)) (pushers s) RdAgain s).
  assert (E1 : ipc_exec (IpcFront true) s = Some s1) by (cbn [ipc_exec]; unfold IpcFifoQueue_front; by rewrite Er, E).
  cbn [run_all]. rewrite E1, bind_Some_eq. cbn [ipc_exec]. unfold IpcFifoQueue_front. cbn [s1 ipc_set reader ipc_items]. rewrite Ei. by eexists.
Qed.

Definition demo_ipc : gmap nat pusher_pc := list_to_map ((λ t, (t, PsOut None)) <$> [0; 1]%nat).

Lemma demo_ipc_out : map_Forall (λ _ pc, ∃ ret, pc = PsOut ret) demo_ipc.
Proof. apply map_Forall_to_list; vm_compute; repeat constructor; eauto. Qed.

(** The reader finds the queue empty; two threads push, of which one writes the byte. *)
Lemma ipc_reader_woken_witness :
  ∃ s, run_all ipc_exec [IpcFront false; IpcPush 0 5; IpcPush 1 6; IpcGo 1; IpcGo 0; IpcGo 1] (IpcFifoQueue_init 10 demo_ipc) = Some s ∧
    ∃ s', run_all ipc_exec [IpcFront true; IpcFront true] s = Some s' ∧ reader s' = RdOut (Some (Some 5%nat)).
Proof.
  eexists. split; [vm_compute; reflexivity|].
  eapply (ipc_reader_woken 10 demo_ipc [IpcFront false; IpcPush 0 5; IpcPush 1 6; IpcGo 1; IpcGo 0; IpcGo 1]);
    [apply demo_ipc_out|vm_compute; reflexivity| |reflexivity|reflexivity].
  apply map_Forall_to_list; vm_compute; repeat constructor; eauto.
Defined.

(** [pop] says no when it has taken the front away, and yes when there was nothing. *)
Lemma ipc_pop_inverted s : (IpcFifoQueue_pop s).1 = bool_decide (ipc_items s = []).
Proof. unfold IpcFifoQueue_pop. by destruct (ipc_items s). Qed.

(** A byte of an element that is gone ends the wait of [front] early, with nothing. *)
Lemma ipc_front_early :
  ∃ s, run_all ipc_exec [IpcPush 0 5; IpcGo 0; IpcGo 0; IpcFront false; IpcPop; IpcFront false; IpcFront false; IpcFront true; IpcFront true] (IpcFifoQueue_init 10 demo_ipc) = Some s ∧
    reader s = RdOut (Some None).
Proof. eexists. split; [vm_compute; reflexivity|done]. Qed.

(** ** LockFifoQueue *)

(** Whatever the order of the steps, elements are popped once and in order. *)
Lemma lock_fifo_order capacity th es s :
  run_all lk_exec es (LockFifoQueue_init capacity th) = Some s → lk_popped s ++ lk_items s = lk_pushed s.
Proof.
  intros Hr. refine (run_inv lk_exec (λ s, lk_popped s ++ lk_items s = lk_pushed s) es _ s _ _ Hr); [|done].
  assert (Htake : ∀ t s, lk_popped s ++ lk_items s = lk_pushed s → lk_popped (lpop_take t s) ++ lk_items (lpop_take t s) = lk_pushed (lpop_take t s)).
  { intros t s0 H. unfold lpop_take. destruct (lk_items s0) as [|x items] eqn:Ei; cbn; rewrite ?Ei; [done|]. by rewrite <-app_assoc. }
  intros e s1 s2 _ H He. destruct e as [x|woken|t|t]; cbn [lk_exec] in He.
  - unfold LockFifoQueue_push in He. destruct (lk_pusher s1); [|done]. injection He as <-. destruct (_ =? _); [done|]. cbn. by rewrite app_assoc, H.
  - unfold LockFifoQueue_signal in He. repeat case_match; by simplify_eq.
  - unfold LockFifoQueue_pop in He. destruct (lk_poppers s1 !! t) as [[]|]; try done.
    + destruct (mutex_free s1); [|done]. injection He as <-. pose proof (Htake t s1 H) as Ht. destruct (lk_items s1) eqn:Ei; [cbn; by rewrite Ei|done].
    + by injection He as <-.
    + destruct (mutex_free s1); [|done]. injection He as <-. by apply Htake.
  - unfold lpop_timeout in He. repeat case_match; by simplify_eq.
Qed.

(** [push] signals without the mutex: between the look at the empty queue and the [wait] of a reader its signal wakes nobody, and the reader
    sleeps, with an element in the queue, until its time is over. *)
Lemma signal_missed :
  ∃ s, run_all lk_exec [LkPop 0; LkPush 5; LkNotify None; LkPop 0] (LockFifoQueue_init 10 {[0%nat := LkIdle None]}) = Some s ∧
    lk_items s = [5%nat] ∧ lk_pusher s = LkOut (Some true) ∧ lk_poppers s !! 0%nat = Some LkAsleep ∧ lk_exec (LkPop 0) s = None.
Proof. eexists. split; [vm_compute; reflexivity|]. split_and!; vm_compute; reflexivity. Qed.
