(* ===== verification/TableText.v ===== *)
(** * The text of the table file

    The rest of src/src/meta/table_mgr.cc that makes text of the mapped file and reads text: [getHashTableStr] and [getTableInfo], which the
    administration shows, and [translateFromText2Binary], which makes a table file from a text file.  A text is its characters as numbers, a
    file of text too.

    [None] is an execution without meaning: a failed assertion, a write through a null pointer or outside of the mapping or of a buffer. *)
From S2P Require Import Prelude Strings Config NetAddr MetaTable.
From stdpp Require Import strings.
Local Open Scope Z_scope.
Local Open Scope list_scope.

(** The characters of a literal. *)
Definition txt (s : string) : list Z := (λ a, Z.of_N (Ascii.N_of_ascii a)) <$> String.list_ascii_of_string s.

(** ** Writing *)

(** [char tmpbuf[1024]]. *)
Definition row_size : Z := 1024.

(** [index += snprintf(tmpbuf + index, sizeof(tmpbuf) - index, ...)]: what is printed is cut to the room that is left, the index grows by its
    full length; behind the end of the buffer the room wraps around to a huge number. *)
Definition format_into (s : list Z) (st : list Z * Z) : option (list Z * Z) :=
  let '(buf, index) := st in
  if row_size <? index then None
  else Some (buf ++ take (Z.to_nat (row_size - index) - 1) s, i32 (index + Z.of_nat (length s))).

(** The word of a table, [root[j * getBucketCount() + i]]; [root] is an offset of words. *)
Definition cell_of (f : table_file) (root : nat) (i j : Z) : option Z :=
  cells f !! (root + Z.to_nat (u32 (u32 (j * serverBucketCount (hdr f)) + i)))%nat.

Definition row_text (f : table_file) (root : nat) (i : Z) : option (list Z) :=
  st ← format_into (txt "bucket: " ++ to_string i) ([], 0);
  st ← run_all (λ j st, w ← cell_of f root i j; format_into (9 :: addr2String w) st) (seqZ 0 (serverCopyCount (hdr f))) st;
  st ← format_into [10] st;
  Some st.1.

(** [getHashTableStr]: the rows of a table, in a vector, and put together. *)
Definition getHashTableRows (f : table_file) (root : nat) : option (list (list Z)) :=
  mapM (row_text f root) (seqZ 0 (serverBucketCount (hdr f))).
Definition getHashTableStr (f : table_file) (root : nat) : option (list Z) :=
  rows ← getHashTableRows f root; Some (concat rows).

Definition info_line (name : string) (v : Z) : list Z := txt name ++ to_string v ++ [10].

Definition dashes : list Z := txt "--------------------".
Definition section_line (name : string) : list Z := dashes ++ txt name ++ txt "-----------------------" ++ [10].

Definition getTableInfo (m : table_mgr) : option (list Z) :=
  match mapped m with
  | None => Some (txt "please open table first!")
  | Some f =>
      let h := hdr f in
      t ← getHashTableStr f 0;
      mt ← getHashTableStr f (entries f);
      dt ← getHashTableStr f (2 * entries f);
      Some (info_line "copy_count: " (serverCopyCount h) ++ info_line "bucket_count: " (serverBucketCount h) ++ info_line "flag: " (flag h) ++
        info_line "clientVersion: " (clientVersion h) ++ info_line "serverVersion: " (serverVersion h) ++
        info_line "pluginsVersion: " (pluginsVersion h) ++ info_line "capacityVersion: " (namespaceCapacityVersion h) ++
        info_line "lastLoadConfigTime: " (lastLoadConfigTime h) ++ info_line "migrateBlockCount: " (migrateBlockCount h) ++
        [10] ++ section_line "hashtable" ++ t ++ [10] ++ section_line "Mhashtable" ++ mt ++ [10] ++ section_line "Dhashtable" ++ dt)
  end.

(** ** Reading *)

(** [strtoul] in base 10, at 64 bits. *)
Definition strtoul (s : list Z) : Z :=
  match parse_int s with
  | None => 0
  | Some n => if 2 ^ 64 <=? Z.abs n then 2 ^ 64 - 1 else u64 n
  end.

(** What is behind the first [pat], if there is one: [strstr] and the length of the literal. *)
Definition behind (pat : string) (s : list Z) : option (list Z) := pos ← find_str (txt pat) s; Some (drop (pos + String.length pat) s).

(** The local variables of [translateFromText2Binary], the object, and the file of the new table, if it exists.  [p_table] is the offset of a
    table, [None] if it does not point into the mapping. *)
Record reading := { copyCount : Z; out_file : option table_file; mgr : table_mgr; p_table : option nat }.

(** The counters of the header. *)
Inductive counter := CFlag | CClient | CServer | CPlugins | CCapacity | CLoadTime | CMigrate.
#[global] Instance counter_dec : EqDecision counter.
Proof. solve_decision. Defined.

Definition counter_name (k : counter) : string :=
  match k with
  | CFlag => "flag:" | CClient => "clientVersion:" | CServer => "serverVersion:" | CPlugins => "pluginsVersion:"
  | CCapacity => "capacityVersion:" | CLoadTime => "lastLoadConfigTime:" | CMigrate => "migrateBlockCount:"
  end.

Definition set_counter (k : counter) (v : Z) (h : meta_hdr) : meta_hdr :=
  match h with
  | Build_meta_hdr a b c d e f g cc bc =>
      match k with
      | CFlag => Build_meta_hdr (u32 v) b c d e f g cc bc
      | CClient => Build_meta_hdr a (u32 v) c d e f g cc bc
      | CServer => Build_meta_hdr a b (u32 v) d e f g cc bc
      | CPlugins => Build_meta_hdr a b c (u32 v) e f g cc bc
      | CCapacity => Build_meta_hdr a b c d (u32 v) f g cc bc
      | CLoadTime => Build_meta_hdr a b c d e (u32 v) g cc bc
      | CMigrate => Build_meta_hdr a b c d e f (i32 v) cc bc
      end
  end.

Definition put_file (f : table_file) (m : table_mgr) : table_mgr := Build_table_mgr (Some f) (fileOpened m) (deflateForClient m) (deflateForDataServer m).
Definition set_mgr (m : table_mgr) (r : reading) : reading := Build_reading (copyCount r) (out_file r) m (p_table r).

(** [*counter = v]. *)
Definition write_counter (k : counter) (v : Z) (r : reading) : option reading :=
  f ← mapped (mgr r);
  Some (set_mgr (put_file (set_hdr (set_counter k v (hdr f)) f) (mgr r)) r).

(** The start of one of the three tables. *)
Definition point_to (off : table_file → nat) (r : reading) : reading :=
  Build_reading (copyCount r) (out_file r) (mgr r) (off <$> mapped (mgr r)).

(** A line that makes the table; [inl] is the return of false. *)
Definition read_buckets (n : Z) (r : reading) : reading + reading :=
  let '(ok, m) := create (out_file r) n (copyCount r) (mgr r) in
  if ok : bool then inr (Build_reading (copyCount r) (mapped m) m None) else inl (set_mgr m r).

Section net.
Context `{Resolver}.

(** [p_table[line * getBucketCount() + bucket] = serverid]. *)
Definition write_cell (bucket line serverid : Z) (r : reading) : option reading :=
  root ← p_table r;
  f ← mapped (mgr r);
  let i := (root + Z.to_nat (u32 (u32 (line * serverBucketCount (hdr f)) + bucket)))%nat in
  _ ← cells f !! i;
  Some (set_mgr (put_file (Build_table_file (hdr f) (<[i := serverid]> (cells f))) (mgr r)) r).

Definition read_bucket (p : list Z) (r : reading) : option reading :=
  let bucket := atoi p in
  p ← behind "line:" p;
  let line := atoi p in
  p ← behind "ip:" p;
  write_cell bucket line (str2Addr p 0) r.

(** The counters behind [flag], and the lines of buckets. *)
Fixpoint read_counters (ks : list counter) (buf : list Z) (r : reading) : option reading :=
  match ks with
  | [] => match behind "bucket:" buf with Some p => read_bucket p r | None => Some r end
  | k :: ks => match behind (counter_name k) buf with Some p => write_counter k (strtoul p) r | None => read_counters ks buf r end
  end.

Definition counters : list counter := [CClient; CServer; CPlugins; CCapacity; CLoadTime; CMigrate].

(** One line, a C string. *)
Definition read_line (line : list Z) (r : reading) : option (reading + reading) :=
  let buf := cut0 line in
  match behind "copy_count:" buf with
  | Some p => Some (inr (Build_reading (u32 (strtoul p)) (out_file r) (mgr r) (p_table r)))
  | None =>
  match behind "bucket_count:" buf with
  | Some p => Some (read_buckets (u32 (strtoul p)) r)
  | None =>
  match behind "-hashtable" buf with
  | Some _ => Some (inr (point_to (λ _, 0%nat) r))
  | None =>
  match behind "-Mhashtable" buf with
  | Some _ => Some (inr (point_to entries r))
  | None =>
  match behind "-Dhashtable" buf with
  | Some _ => Some (inr (point_to (λ f, 2 * entries f)%nat r))
  | None =>
      r ← match behind "flag:" buf with Some p => write_counter CFlag (strtoul p) r | None => Some r end;
      r ← read_counters counters buf r;
      Some (inr r)
  end end end end end.

(** [char buf[4096]]; the loop over the lines, with fuel for the characters. *)
Definition line_room : nat := 4095.

Fixpoint read_lines (fuel : nat) (text : list Z) (r : reading) : option (bool * reading) :=
  match text with
  | [] => Some (true, r)
  | _ =>
      match fuel with
      | O => None
      | S fuel =>
          let '(line, text) := fgets line_room text in
          r ← read_line line r;
          match r with inl r => Some (false, r) | inr r => read_lines fuel text r end
      end
  end.

(** [src] and [out] are the files of the two names. *)
Definition translateFromText2Binary (src : option (list Z)) (out : option table_file) (m : table_mgr) : option (bool * table_mgr) :=
  match src with
  | None => Some (false, m)
  | Some text =>
      '(ok, r) ← read_lines (length text) text (Build_reading 0 out m None);
      Some (ok, mgr r)
  end.
End net.
