(* ===== verification/TableTextSpec.v ===== *)
(** * What the text of the table file guarantees

    The rows that are written are whole for up to 20 copies; a text with its counts, counters and a line for every copy of every bucket is read
    into exactly the file it describes. *)
From S2P Require Import Prelude Strings Config ConfigSpec NetAddr NetAddrSpec MetaTable TableText.
From stdpp Require Import strings.
Local Open Scope Z_scope.
Local Open Scope list_scope.

(** ** Finding text *)

Lemma find_absent (c : Z) pat s : c ∈ pat → c ∉ s → find_str pat s = None.
Proof.
  intros Hc. induction s as [|x s IH]; intros Hs; cbn [find_str]; rewrite bool_decide_eq_false_2; try done.
  - intros [k E]. destruct pat; [by apply elem_of_nil in Hc|done].
  - rewrite IH; [done|]. by apply not_elem_of_cons in Hs as [_ ?].
  - intros [k E]. apply Hs. rewrite E, elem_of_app. by left.
Qed.

Lemma find_here pat s : find_str pat (pat ++ s) = Some 0%nat.
Proof. destruct (pat ++ s) eqn:E; cbn [find_str]; rewrite bool_decide_eq_true_2; try done; rewrite <-E; by apply prefix_app_r. Qed.

Lemma find_after c pat s1 s2 : c ∉ s1 → find_str (c :: pat) (s1 ++ (c :: pat) ++ s2) = Some (length s1).
Proof.
  induction s1 as [|x s1 IH]; intros Hs; [exact (find_here (c :: pat) s2)|]. apply not_elem_of_cons in Hs as [Hx Hs]. cbn [app find_str length].
  rewrite bool_decide_eq_false_2 by (intros [k [= E]]; done). cbn [app] in IH. by rewrite IH.
Qed.

(** A pattern is not found in a constant that does not have it, followed by characters that are not its own. *)
Lemma find_const pat s1 s2 : pat ≠ [] → (∀ c, c ∈ pat → c ∉ s2) → find_str pat s1 = None → find_str pat (s1 ++ s2) = None.
Proof.
  intros Hne Hdis. assert (H2 : find_str pat s2 = None).
  { destruct pat as [|c pat]; [done|]. apply (find_absent c); [left|apply Hdis; left]. }
  induction s1 as [|x s1 IH]; [done|]. cbn [app find_str]. intros H1. case_bool_decide as Hp; [done|]. destruct (find_str pat s1); [done|].
  rewrite IH by done. rewrite bool_decide_eq_false_2; [done|]. intros [k E]. apply Hp. change (x :: s1 ++ s2) with ((x :: s1) ++ s2) in E.
  destruct (decide (length pat <= length (x :: s1))%nat) as [Hl|Hl].
  - exists (drop (length pat) (x :: s1)). rewrite <-(take_drop (length pat) (x :: s1)) at 1. f_equal.
    rewrite <-(take_app_le (x :: s1) s2), E, take_app_length by done. done.
  - exfalso. assert (Hin : ∃ c, c ∈ pat ∧ c ∈ s2); [|destruct Hin as (c & ? & ?); by apply (Hdis c)].
    assert (Hpl : pat !! length (x :: s1) = (pat ++ k) !! length (x :: s1)) by (rewrite lookup_app_l by lia; done).
    rewrite <-E, lookup_app_r, Nat.sub_diag in Hpl by lia. destruct (lookup_lt_is_Some_2 pat (length (x :: s1))) as [c Hc]; [lia|].
    exists c. split; [by eapply list_elem_of_lookup_2|]. rewrite Hc in Hpl. by eapply (list_elem_of_lookup_2 s2 0).
Qed.

(** ** Lines *)

Lemma length_txt s : length (txt s) = String.length s.
Proof. unfold txt. rewrite length_fmap. induction s as [|c s IH]; [done|]. cbn. by rewrite IH. Qed.

Lemma behind_here pat s : behind pat (txt pat ++ s) = Some s.
Proof. unfold behind. rewrite find_here, bind_Some_eq, Nat.add_0_l, <-length_txt. by rewrite drop_app_length. Qed.

(** The end of a line with a number. *)
Definition number_end (n : Z) : list Z := to_string n ++ [10].

Definition letters (pat : string) : bool := forallb (λ c, negb (is_digit c) && negb (c =? 10)) (txt pat).

Lemma number_end_other pat n c : 0 <= n → letters pat = true → c ∈ txt pat → c ∉ number_end n.
Proof.
  intros Hn Hl Hc. unfold letters in Hl. rewrite forallb_forall in Hl. specialize (Hl c). rewrite <-list_elem_of_In in Hl. apply andb_prop in Hl as [H1 H2]; [|done].
  apply negb_true_iff in H1, H2. unfold number_end. rewrite not_elem_of_app. split; [by apply to_string_no|]. apply Z.eqb_neq in H2. by rewrite list_elem_of_singleton.
Qed.

Lemma behind_none pat s n : 0 <= n → letters pat && negb (bool_decide (txt pat = [])) && bool_decide (find_str (txt pat) s = None) = true → behind pat (s ++ number_end n) = None.
Proof.
  intros Hn [[Hl Hne]%andb_prop Hf]%andb_prop. apply bool_decide_eq_true in Hf. apply negb_true_iff, bool_decide_eq_false in Hne. unfold behind.
  rewrite (find_const (txt pat)); [done|done| |done]. intros c Hc. by apply (number_end_other pat).
Qed.

Lemma strtoul_end n : 0 <= n < 2 ^ 32 → u32 (strtoul (number_end n)) = n.
Proof.
  intros Hn. unfold strtoul, number_end. rewrite parse_to_string_tail by (done || lia). rewrite (proj2 (Z.leb_gt _ _)) by lia. rewrite u64_id by lia. by rewrite u32_id by (unfold is_u32; lia).
Qed.

Lemma atoi_tail n t : 0 <= n < 2 ^ 31 → match t with [] => True | c :: _ => is_digit c = false end → atoi (to_string n ++ t) = n.
Proof.
  intros Hn Ht. unfold atoi. rewrite parse_to_string_tail by (done || lia). rewrite Z.min_r, Z.max_r by lia. unfold u32. rewrite Z.mod_small by lia. by rewrite i32_id by lia.
Qed.

(** ** What a line means *)

Inductive section_of := STable | SMigration | SDestination.

(** A line of a text, by what it says. *)
Inductive text_line :=
| TCopies (n : Z) | TBuckets (n : Z) | TCounter (k : counter) (v : Z) | TSection (w : section_of)
| TCell (bucket line ip port : Z).

Definition section_name (w : section_of) : string := match w with STable => "hashtable" | SMigration => "Mhashtable" | SDestination => "Dhashtable" end.
Definition section_start (w : section_of) (f : table_file) : nat := match w with STable => 0 | SMigration => entries f | SDestination => 2 * entries f end.

(** The words in front of the counters. *)
Definition label (k : counter) : string :=
  match k with
  | CFlag => "flag:"
  | CClient => "clientVersion:"
  | CServer => "serverVersion:"
  | CPlugins => "pluginsVersion:"
  | CCapacity => "capacityVersion:"
  | CLoadTime => "lastLoadConfigTime:"
  | CMigrate => "migrateBlockCount:"
  end.

Lemma label_name k : counter_name k = label k.
Proof. by destruct k. Qed.

Definition line_text (l : text_line) : list Z :=
  match l with
  | TCopies n => txt "copy_count:" ++ to_string n
  | TBuckets n => txt "bucket_count:" ++ to_string n
  | TCounter k v => txt (label k) ++ to_string v
  | TSection w => dashes ++ txt (section_name w) ++ txt "-----------------------"
  | TCell bucket line ip port =>
      txt "bucket:" ++ to_string bucket ++ txt " line:" ++ to_string line ++ txt " ip:" ++ addr2IpStr ip ++ [58] ++ to_string port
  end.

Definition line_fits (l : text_line) : Prop :=
  match l with
  | TCopies n | TBuckets n => 0 <= n < 2 ^ 32
  | TCounter k v => 0 <= v < 2 ^ 31
  | TSection _ => True
  | TCell bucket line ip port =>
      0 <= bucket < 2 ^ 31 ∧ 0 <= line < 2 ^ 31 ∧ is_u32 ip ∧ ip ≠ 0 ∧ ip ≠ INADDR_NONE ∧ 0 < port < 2 ^ 15
  end.

(** The identifier of an address with a port. *)
Definition server_id (ip port : Z) : Z := Z.lor (Z.shiftl port 32) ip.

Definition line_meaning (l : text_line) (r : reading) : option (reading + reading) :=
  match l with
  | TCopies n => Some (inr (Build_reading n (out_file r) (mgr r) (p_table r)))
  | TBuckets n => Some (read_buckets n r)
  | TCounter k v => r ← write_counter k v r; Some (inr r)
  | TSection w => Some (inr (point_to (section_start w) r))
  | TCell bucket line ip port => r ← write_cell bucket line (server_id ip port) r; Some (inr r)
  end.

Fixpoint lines_meaning (ls : list text_line) (r : reading) : option (bool * reading) :=
  match ls with
  | [] => Some (true, r)
  | l :: ls => r ← line_meaning l r; match r with inl r => Some (false, r) | inr r => lines_meaning ls r end
  end.

Section read.
Context `{HR : Resolver}.

Lemma cut0_text_line s : 0 ∉ s → cut0 (s ++ [10]) = s ++ [10].
Proof using Type. intros Hs. apply cut0_id. rewrite not_elem_of_app, list_elem_of_singleton. by split. Qed.

Lemma txt_no (c : Z) s : forallb (λ x, negb (x =? c)) (txt s) = true → c ∉ txt s.
Proof using Type. intros H Hin. rewrite forallb_forall in H. specialize (H c). rewrite <-list_elem_of_In in H. specialize (H Hin). by rewrite Z.eqb_refl in H. Qed.

(** Counts, and counters. *)
Lemma number_line_text name n : 0 <= n → 0 ∉ txt name → cut0 ((txt name ++ to_string n) ++ [10]) = txt name ++ number_end n.
Proof using Type.
  intros Hn Ht. rewrite cut0_text_line; [by rewrite <-app_assoc|]. rewrite not_elem_of_app. split; [done|]. by apply to_string_no.
Qed.

Lemma read_copies n r : 0 <= n < 2 ^ 32 → read_line (line_text (TCopies n) ++ [10]) r = line_meaning (TCopies n) r.
Proof using Type.
  intros Hn. cbn [line_text line_meaning]. unfold read_line. rewrite number_line_text by (lia || by apply txt_no). by rewrite behind_here, strtoul_end.
Qed.

Lemma read_bucket_count n r : 0 <= n < 2 ^ 32 → read_line (line_text (TBuckets n) ++ [10]) r = line_meaning (TBuckets n) r.
Proof using Type.
  intros Hn. cbn [line_text line_meaning]. unfold read_line. rewrite number_line_text by (lia || by apply txt_no).
  rewrite behind_none by (lia || done). by rewrite behind_here, strtoul_end.
Qed.

Lemma write_counter_end k v r : 0 <= v < 2 ^ 31 → write_counter k (strtoul (number_end v)) r = write_counter k v r.
Proof using Type.
  intros Hv. unfold write_counter. destruct (mapped (mgr r)) as [f|]; [|done]. cbn [mbind option_bind].
  enough (E : set_counter k (strtoul (number_end v)) (hdr f) = set_counter k v (hdr f)) by (by rewrite E).
  pose proof (strtoul_end v ltac:(lia)) as E. assert (Ev : u32 v = v) by (apply u32_id; unfold is_u32; lia).
  assert (Ei : i32 (strtoul (number_end v)) = v). { unfold strtoul, number_end. rewrite parse_to_string_tail by (done || lia). rewrite (proj2 (Z.leb_gt _ _)) by lia. rewrite u64_id by lia. apply i32_id. lia. }
  destruct (hdr f), k; cbn [set_counter]; rewrite ?E, ?Ev, ?Ei, ?i32_id by lia; done.
Qed.

Lemma read_counter k v r : 0 <= v < 2 ^ 31 → read_line (line_text (TCounter k v) ++ [10]) r = line_meaning (TCounter k v) r.
Proof using Type.
  intros Hv. cbn [line_text line_meaning]. unfold read_line. rewrite <-label_name. rewrite number_line_text by (lia || by destruct k; apply txt_no).
  rewrite !(behind_none _ (txt (counter_name k))) by (lia || by destruct k). unfold counters. cbn [read_counters].
  destruct k; rewrite ?behind_here, ?(behind_none _ (txt _)) by (lia || done); rewrite ?bind_Some_eq, ?write_counter_end by done; done.
Qed.

Lemma read_section w r : read_line (line_text (TSection w) ++ [10]) r = line_meaning (TSection w) r.
Proof using Type. by destruct w. Qed.

(** What is in a line of a cell. *)
Definition cell_letters : list Z := txt "bucket: line: ip:." ++ [10].

Lemma cell_line_no (c : Z) bucket line ip port :
  0 <= bucket → 0 <= line → 0 <= port → is_digit c = false → forallb (λ x, negb (x =? c)) cell_letters = true → c ∉ line_text (TCell bucket line ip port) ++ [10].
Proof using Type.
  intros Hb Hl Hp Hd Hc. cbn [line_text].
  assert (Hin : ∀ x, x ∈ cell_letters → x ≠ c). { intros x Hx ->. rewrite forallb_forall in Hc. specialize (Hc c). rewrite <-list_elem_of_In in Hc. specialize (Hc Hx). by rewrite Z.eqb_refl in Hc. }
  assert (Hsub : ∀ l, forallb (λ x, bool_decide (x ∈ cell_letters)) l = true → c ∉ l).
  { intros l Hl' Hcl. rewrite forallb_forall in Hl'. specialize (Hl' c). rewrite <-list_elem_of_In in Hl'. specialize (Hl' Hcl). apply bool_decide_eq_true in Hl'. by apply (Hin c). }
  rewrite !not_elem_of_app. split_and!; try (by apply Hsub); try (by apply to_string_no). apply dotted_no; [done|]. intros ->. by apply (Hin 46); [apply (bool_decide_unpack _); by vm_compute|].
Qed.

Lemma behind_absent (c : Z) pat s : c ∉ s → bool_decide (c ∈ txt pat) = true → behind pat s = None.
Proof using Type. intros Hs Hc. apply bool_decide_eq_true in Hc. unfold behind. by rewrite (find_absent c). Qed.

Lemma behind_later c pat s1 s2 : txt pat = c :: tail (txt pat) → c ∉ s1 → behind pat (s1 ++ txt pat ++ s2) = Some s2.
Proof using Type.
  intros E Hc. unfold behind. assert (Hf : find_str (txt pat) (s1 ++ txt pat ++ s2) = Some (length s1)) by (rewrite E; by apply find_after).
  rewrite Hf, bind_Some_eq, app_assoc, <-length_txt, <-length_app. by rewrite drop_app_length.
Qed.

Lemma read_cell bucket line ip port r :
  line_fits (TCell bucket line ip port) → read_line (line_text (TCell bucket line ip port) ++ [10]) r = line_meaning (TCell bucket line ip port) r.
Proof using Type.
  intros (Hb & Hl & Hip & H0 & Hn & Hp). pose proof (λ c, cell_line_no c bucket line ip port ltac:(lia) ltac:(lia) ltac:(lia)) as Hno. unfold read_line.
  rewrite cut0_id by (by apply Hno).
  rewrite (behind_absent 95), (behind_absent 95), (behind_absent 104), (behind_absent 77), (behind_absent 68), (behind_absent 102) by (done || by apply Hno).
  rewrite bind_Some_eq. unfold counters. cbn [read_counters counter_name].
  rewrite (behind_absent 86), (behind_absent 86), (behind_absent 86), (behind_absent 86), (behind_absent 76), (behind_absent 109) by (done || by apply Hno).
  cbn [line_text line_meaning]. rewrite <-!app_assoc, behind_here. unfold read_bucket.
  rewrite atoi_tail by (done || lia).
  change (txt " line:") with ([32] ++ txt "line:"). rewrite <-(app_assoc [32]), (app_assoc (to_string bucket)).
  rewrite (behind_later 108) by (done || (rewrite not_elem_of_app, list_elem_of_singleton; split; [by apply to_string_no; [lia|]|done])). rewrite bind_Some_eq.
  rewrite atoi_tail by (done || lia). change (txt " ip:") with ([32] ++ txt "ip:"). rewrite <-(app_assoc [32]), (app_assoc (to_string line)).
  rewrite (behind_later 105) by (done || (rewrite not_elem_of_app, list_elem_of_singleton; split; [by apply to_string_no; [lia|]|done])). rewrite bind_Some_eq.
  change [58; 10] with ([58] ++ [10]). rewrite str2Addr_port_tail by (done || lia || (rewrite list_elem_of_singleton; done)).
  rewrite port_bits by lia. rewrite (proj2 (Z.ltb_lt _ _)) by lia. done.
Qed.

Lemma read_line_ok l r : line_fits l → read_line (line_text l ++ [10]) r = line_meaning l r.
Proof using Type.
  destruct l as [n|n|k v|w|bucket line ip port]; intros Hf; [by apply read_copies|by apply read_bucket_count|by apply read_counter|by apply read_section|by apply read_cell].
Qed.

(** Lines fit the buffer of the reader. *)
Lemma length_digits fuel n : (length (digits fuel n []) <= fuel)%nat.
Proof using Type.
  revert n. induction fuel as [|fuel IH]; intros n; cbn [digits]; [done|]. destruct (n <? 10); [cbn; lia|]. rewrite digits_app, length_app. specialize (IH (n / 10)). cbn. lia.
Qed.

Lemma length_to_string n : 0 <= n < 2 ^ 32 → (length (to_string n) <= 32)%nat.
Proof using Type.
  intros Hn. unfold to_string. rewrite (proj2 (Z.ltb_ge _ _)) by lia. pose proof (length_digits (S (Z.to_nat (Z.log2 n))) n) as Hl.
  assert (Hlog : Z.log2 n < 32). { destruct (decide (n = 0)) as [->|]; [done|]. apply Z.log2_lt_pow2; lia. } lia.
Qed.

Lemma line_text_short l : line_fits l → (length (line_text l) < line_room)%nat.
Proof using Type.
  assert (Hroom : line_room = 4095%nat) by done. rewrite Hroom. clear Hroom.
  destruct l as [n|n|k v|w|bucket line ip port]; cbn [line_fits line_text]; intros Hf.
  1,2: rewrite length_app, length_txt; pose proof (length_to_string n Hf); cbn [String.length]; lia.
  - rewrite length_app, length_txt. pose proof (length_to_string v ltac:(lia)). assert (String.length (label k) <= 20)%nat by (destruct k; cbn; lia). lia.
  - destruct w; vm_compute; lia.
  - destruct Hf as (Hb & Hl & Hip & _ & _ & Hp). rewrite !length_app, !length_txt. pose proof (length_to_string bucket ltac:(lia)). pose proof (length_to_string line ltac:(lia)).
    pose proof (length_to_string port ltac:(lia)). pose proof (length_dotted ip). cbn [String.length length]. lia.
Qed.

Lemma line_text_no (c : Z) l : line_fits l → c = 0 ∨ c = 10 → c ∉ line_text l.
Proof using Type.
  intros Hf Hc. assert (Hd : is_digit c = false) by (by destruct Hc as [->| ->]). assert (Hne : c ≠ 46 ∧ c ≠ 58) by (by destruct Hc as [->| ->]).
  destruct l as [n|n|k v|w|bucket line ip port]; cbn [line_fits line_text] in *; unfold dashes; rewrite ?not_elem_of_app; split_and?; try (apply to_string_no; [lia|done]);
    try (destruct Hc as [->| ->]; by apply txt_no); try (destruct Hc as [->| ->]; try destruct k; try destruct w; by apply txt_no).
  - by apply dotted_no; [|apply Hne].
  - rewrite list_elem_of_singleton. by destruct Hc as [->| ->].
Qed.

Definition text_of (ls : list text_line) : list Z := concat ((λ l, line_text l ++ [10]) <$> ls).

Lemma lines_read ls r fuel : Forall line_fits ls → (length (text_of ls) <= fuel)%nat → read_lines fuel (text_of ls) r = lines_meaning ls r.
Proof using Type.
  revert r fuel. induction ls as [|l ls IH]; intros r fuel Hls Hf; [by destruct fuel|]. apply list.Forall_cons in Hls as [Hl Hls].
  assert (Et : text_of (l :: ls) = line_text l ++ 10 :: text_of ls) by (unfold text_of; cbn [fmap list_fmap concat]; by rewrite <-app_assoc).
  rewrite Et in *. rewrite length_app in Hf. cbn [length] in Hf. destruct fuel as [|fuel]; [lia|].
  assert (Hg : fgets line_room (line_text l ++ 10 :: text_of ls) = (line_text l ++ [10], text_of ls)).
  { apply fgets_line; [|by apply line_text_short]. apply list.Forall_forall. intros c Hc. unfold plain.
    apply andb_true_iff; split; apply negb_true_iff, Z.eqb_neq; intros ->; eapply line_text_no in Hc; try done; auto. }
  assert (Hs : ∃ c s, line_text l ++ 10 :: text_of ls = c :: s) by (destruct (line_text l); eauto). destruct Hs as (c & s & Es).
  cbn [lines_meaning]. rewrite <-(read_line_ok l r Hl). rewrite Es in *. cbn [read_lines]. rewrite Hg.
  destruct (read_line _ r) as [[r'|r']|]; [done| |done]. cbn [mbind option_bind]. apply IH; [done|lia].
Qed.
End read.

(** ** A whole text *)

Definition cell_lines (b : Z) (k : nat) (t : list (Z * Z)) : list text_line :=
  imap (λ i p, TCell (Z.of_nat (k + i) mod b) (Z.of_nat (k + i) / b) p.1 p.2) t.

Definition ids (t : list (Z * Z)) : list Z := (λ p, server_id p.1 p.2) <$> t.

(** A text with the counts, some counters, and three tables of addresses and ports. *)
Definition whole_text (b c : Z) (ks : list (counter * Z)) (t0 t1 t2 : list (Z * Z)) : list text_line :=
  [TCopies c; TBuckets b] ++ ((λ p, TCounter p.1 p.2) <$> ks) ++ TSection STable :: cell_lines b 0 t0 ++
  TSection SMigration :: cell_lines b 0 t1 ++ TSection SDestination :: cell_lines b 0 t2.

Lemma lines_meaning_app ls1 ls2 r r1 : lines_meaning ls1 r = Some (true, r1) → lines_meaning (ls1 ++ ls2) r = lines_meaning ls2 r1.
Proof.
  revert r. induction ls1 as [|l ls1 IH]; intros r; cbn [lines_meaning app]; [by intros [= <-]|]. destruct (line_meaning l r) as [[r'|r']|]; cbn; [done| |done]. apply IH.
Qed.

(** One cell, at its place. *)
Lemma cell_read b root k ip port h cs cc out m :
  0 < b → serverBucketCount h = b → (root + k < length cs)%nat → Z.of_nat k < 2 ^ 31 → mapped m = Some (Build_table_file h cs) →
  line_meaning (TCell (Z.of_nat k mod b) (Z.of_nat k / b) ip port) (Build_reading cc out m (Some root)) =
    Some (inr (Build_reading cc out (put_file (Build_table_file h (<[(root + k)%nat := server_id ip port]> cs)) m) (Some root))).
Proof.
  intros Hb Hh Hl Hk Hm. cbn [line_meaning]. unfold write_cell. cbn [p_table mgr]. rewrite bind_Some_eq, Hm, bind_Some_eq. cbn [hdr cells]. rewrite Hh.
  assert (Ei : u32 (u32 (Z.of_nat k / b * b) + Z.of_nat k mod b) = Z.of_nat k).
  { pose proof (Z.div_mod (Z.of_nat k) b ltac:(lia)). pose proof (Z.mod_pos_bound (Z.of_nat k) b Hb). pose proof (Z.div_pos (Z.of_nat k) b ltac:(lia) Hb).
    unfold u32. rewrite (Z.mod_small (Z.of_nat k / b * b)) by nia. rewrite Z.mod_small; nia. }
  rewrite Ei, Nat2Z.id. destruct (lookup_lt_is_Some_2 cs (root + k)) as [x Hx]; [lia|]. by rewrite Hx, !bind_Some_eq.
Qed.

(** The cells of one table, from place [k] on. *)
Lemma cells_read b root k t h cs cc out m :
  0 < b → serverBucketCount h = b → (root + k + length t <= length cs)%nat → Z.of_nat (k + length t) < 2 ^ 31 → mapped m = Some (Build_table_file h cs) →
  ∃ m', lines_meaning (cell_lines b k t) (Build_reading cc out m (Some root)) = Some (true, Build_reading cc out m' (Some root)) ∧
    mapped m' = Some (Build_table_file h (take (root + k) cs ++ ids t ++ drop (root + k + length t) cs)) ∧ fileOpened m' = fileOpened m.
Proof.
  intros Hb Hh. revert k cs m. induction t as [|[ip port] t IH]; intros k cs m Hl Hk Hm.
  - exists m. cbn. rewrite Nat.add_0_r, take_drop. done.
  - cbn [length] in *. set (cs' := <[(root + k)%nat := server_id ip port]> cs). assert (Hl' : length cs' = length cs) by (unfold cs'; by rewrite length_insert).
    destruct (IH (S k) cs' (put_file (Build_table_file h cs') m)) as (m' & Hr & Hm' & Ho); [lia|lia|done|].
    exists m'. split; [|split; [|done]].
    + unfold cell_lines. cbn [imap lines_meaning fst snd]. rewrite Nat.add_0_r. rewrite (cell_read b root k ip port h cs), bind_Some_eq by (done || lia).
      etrans; [|exact Hr]. unfold cell_lines. f_equal. apply imap_ext. intros i p _. cbn. by replace (k + S i)%nat with (S (k + i)) by lia.
    + rewrite Hm'. do 2 f_equal. replace (root + S k)%nat with (S (root + k)) by lia. unfold cs'. rewrite drop_insert_lt by lia.
      rewrite (take_S_r _ _ (server_id ip port)) by (by rewrite list_lookup_insert_eq by lia). rewrite take_insert_ge by lia.
      unfold ids. cbn [fmap list_fmap fst snd]. rewrite <-app_assoc. cbn [app]. do 3 f_equal. f_equal. lia.
Qed.

(** The header that [create] writes. *)
Definition created_hdr (b c : Z) : meta_hdr :=
  {| flag := sKvHtmVersion; clientVersion := 1; serverVersion := 1; pluginsVersion := 1; namespaceCapacityVersion := 1;
     lastLoadConfigTime := 0; migrateBlockCount := -1; serverCopyCount := c; serverBucketCount := b |}.

Lemma create_new b c m :
  0 < b → 0 < c → b * c * 24 + 36 < 2 ^ 31 →
  create None b c m = (true, {| mapped := Some (Build_table_file (created_hdr b c) (replicate (3 * Z.to_nat (b * c)) 0)); fileOpened := true;
                                deflateForClient := []; deflateForDataServer := [] |}).
Proof.
  intros Hb Hc Hsz. destruct (sizes_exact b c) as [Hbs Hts]; [lia|lia|done|]. unfold create, openFile. rewrite Hts, Hbs, i32_id by nia.
  rewrite (proj2 (Z.ltb_lt 0 _)) by nia. cbn [cells hdr lastLoadConfigTime].
  assert (Hcells : resizeCells (b * c * 24 + 36) [] = replicate (3 * Z.to_nat (b * c)) 0).
  { unfold resizeCells. rewrite div_cells, take_nil. cbn [length app]. f_equal. lia. }
  rewrite Hcells, length_replicate, Z.div_mul, drop_replicate, <-replicate_add by lia.
  by replace (Z.to_nat (b * c) `min` (3 * Z.to_nat (b * c)) + (3 * Z.to_nat (b * c) - Z.to_nat (b * c)))%nat with (3 * Z.to_nat (b * c))%nat by lia.
Qed.

Definition with_counters (ks : list (counter * Z)) (h : meta_hdr) : meta_hdr := foldl (λ h p, set_counter p.1 p.2 h) h ks.

Lemma set_counter_sizes k v h : serverBucketCount (set_counter k v h) = serverBucketCount h ∧ serverCopyCount (set_counter k v h) = serverCopyCount h.
Proof. by destruct h, k. Qed.

Lemma with_counters_sizes ks h : serverBucketCount (with_counters ks h) = serverBucketCount h ∧ serverCopyCount (with_counters ks h) = serverCopyCount h.
Proof.
  revert h. induction ks as [|[k v] ks IH]; intros h; [done|]. unfold with_counters in *. cbn [foldl fst snd]. destruct (IH (set_counter k v h)) as [-> ->]. apply set_counter_sizes.
Qed.

Lemma counters_read ks h cs cc out m pt :
  mapped m = Some (Build_table_file h cs) →
  ∃ m', lines_meaning ((λ p, TCounter p.1 p.2) <$> ks) (Build_reading cc out m pt) = Some (true, Build_reading cc out m' pt) ∧
    mapped m' = Some (Build_table_file (with_counters ks h) cs) ∧ fileOpened m' = fileOpened m.
Proof.
  revert h m. induction ks as [|[k v] ks IH]; intros h m Hm; [by exists m|].
  destruct (IH (set_counter k v h) (put_file (Build_table_file (set_counter k v h) cs) m) eq_refl) as (m' & Hr & Hm' & Ho).
  exists m'. split; [|done]. cbn [fmap list_fmap lines_meaning line_meaning fst snd]. unfold write_counter. cbn [mgr]. rewrite Hm, !bind_Some_eq. exact Hr.
Qed.

(** The lines of one table, with its name. *)
Lemma section_read w b t h cs cc out m pt :
  0 < b → serverBucketCount h = b → entries (Build_table_file h cs) = length t → length cs = (3 * length t)%nat → Z.of_nat (length t) < 2 ^ 31 →
  mapped m = Some (Build_table_file h cs) →
  let root := section_start w (Build_table_file h cs) in
  ∃ m', lines_meaning (TSection w :: cell_lines b 0 t) (Build_reading cc out m pt) = Some (true, Build_reading cc out m' (Some root)) ∧
    mapped m' = Some (Build_table_file h (take root cs ++ ids t ++ drop (root + length t) cs)) ∧ fileOpened m' = fileOpened m.
Proof.
  intros Hb Hh Hent Hlen Hsm Hm root. assert (Hroot : (root + length t <= length cs)%nat) by (unfold root; destruct w; cbn [section_start]; lia).
  destruct (cells_read b root 0 t h cs cc out m) as (m' & Hr & Hm' & Ho); [done|done|lia|lia|done|]. rewrite Nat.add_0_r in Hm'.
  exists m'. split; [|done]. cbn [lines_meaning line_meaning]. unfold point_to. cbn [mgr copyCount out_file]. rewrite Hm, bind_Some_eq. exact Hr.
Qed.

Lemma lines_fit b c ks t0 t1 t2 :
  0 < b < 2 ^ 31 → 0 < c < 2 ^ 31 → Forall (λ p : counter * Z, 0 <= p.2 < 2 ^ 31) ks →
  Forall (λ t : list (Z * Z), Z.of_nat (length t) < 2 ^ 31 ∧ Forall (λ p, is_u32 p.1 ∧ p.1 ≠ 0 ∧ p.1 ≠ INADDR_NONE ∧ 0 < p.2 < 2 ^ 15) t) [t0; t1; t2] →
  Forall line_fits (whole_text b c ks t0 t1 t2).
Proof.
  intros Hb Hc Hks Ht.
  assert (Hcell : ∀ t : list (Z * Z), Z.of_nat (length t) < 2 ^ 31 ∧ Forall (λ p, is_u32 p.1 ∧ p.1 ≠ 0 ∧ p.1 ≠ INADDR_NONE ∧ 0 < p.2 < 2 ^ 15) t → Forall line_fits (cell_lines b 0 t)).
  { intros t [Hl Hall]. apply Forall_lookup. intros i l Hi. unfold cell_lines in Hi. rewrite list_lookup_imap in Hi. destruct (t !! i) as [p|] eqn:Ep; [|done]. injection Hi as <-.
    rewrite Forall_lookup in Hall. specialize (Hall i p Ep) as (H1 & H2 & H3 & H4). apply lookup_lt_Some in Ep. cbn [line_fits Nat.add].
    pose proof (Z.mod_pos_bound (Z.of_nat i) b ltac:(lia)). pose proof (Z.div_pos (Z.of_nat i) b ltac:(lia) ltac:(lia)).
    assert (Z.of_nat i / b <= Z.of_nat i) by (apply Z.div_le_upper_bound; nia). split_and!; try done; try lia; apply H1. }
  rewrite !list.Forall_cons in Ht. destruct Ht as (H0 & H1 & H2 & _). unfold whole_text.
  rewrite !Forall_app, !list.Forall_cons, !Forall_app, !list.Forall_cons. split_and!; cbn [line_fits]; try (done || lia || by apply Hcell).
  - apply Forall_fmap. eapply Forall_impl; [exact Hks|]. done.
  - rewrite Forall_app, list.Forall_cons. split_and!; [by apply Hcell|done|by apply Hcell].
Qed.

(** The three tables of a file that is made of three parts. *)
Lemma three_tables h (A B C : list Z) n :
  length A = n → length B = n → length C = n → entries (Build_table_file h (A ++ B ++ C)) = n →
  hashTable (Build_table_file h (A ++ B ++ C)) = Some A ∧ mHashTable (Build_table_file h (A ++ B ++ C)) = Some B ∧
  dHashTable (Build_table_file h (A ++ B ++ C)) = Some C.
Proof.
  intros HA HB HC He. unfold hashTable, mHashTable, dHashTable. rewrite !tableAt_Some by (rewrite He; cbn [cells]; rewrite !length_app; lia).
  rewrite He. cbn [cells]. split_and!; f_equal.
  - rewrite drop_0. by apply take_app_length'.
  - rewrite drop_app_length' by done. by apply take_app_length'.
  - rewrite app_assoc, drop_app_length' by (rewrite length_app; lia). by rewrite firstn_all2 by lia.
Qed.

(** Writing a table into its place among three. *)
Lemma place_first (A : list Z) n : length A = n → take 0 (replicate (3 * n) 0) ++ A ++ drop (0 + n) (replicate (3 * n) 0) = A ++ replicate (2 * n) 0.
Proof. intros HA. rewrite take_0, drop_replicate. cbn [app]. do 2 f_equal. lia. Qed.

Lemma place_second (A B : list Z) n :
  length A = n → length B = n → take n (A ++ replicate (2 * n) 0) ++ B ++ drop (n + n) (A ++ replicate (2 * n) 0) = A ++ B ++ replicate n 0.
Proof.
  intros HA HB. rewrite take_app_length' by done. rewrite drop_app_ge by lia. rewrite drop_replicate. do 3 f_equal. lia.
Qed.

Lemma place_third (A B C : list Z) n :
  length A = n → length B = n → length C = n →
  take (2 * n) (A ++ B ++ replicate n 0) ++ C ++ drop (2 * n + n) (A ++ B ++ replicate n 0) = A ++ B ++ C.
Proof.
  intros HA HB HC. rewrite (app_assoc A B), take_app_length' by (rewrite length_app; lia).
  rewrite (drop_ge ((A ++ B) ++ replicate n 0)) by (rewrite !length_app, length_replicate; lia). by rewrite app_nil_r, <-app_assoc.
Qed.

(** What a text says of a counter: the last value with its word in front, else the one there was. *)
Definition given (k : counter) (ks : list (counter * Z)) (v : Z) : Z := default v (list.last (filter (λ p, p.1 = k) ks).*2).

(** The header of a new file with the counters of a text. *)
Definition described (b c : Z) (ks : list (counter * Z)) : meta_hdr :=
  {| flag := given CFlag ks sKvHtmVersion; clientVersion := given CClient ks 1; serverVersion := given CServer ks 1;
     pluginsVersion := given CPlugins ks 1; namespaceCapacityVersion := given CCapacity ks 1; lastLoadConfigTime := given CLoadTime ks 0;
     migrateBlockCount := given CMigrate ks (-1); serverCopyCount := c; serverBucketCount := b |}.

Lemma given_cons k k' x ks v : given k ((k', x) :: ks) v = given k ks (if decide (k' = k) then x else v).
Proof.
  unfold given. rewrite filter_cons. cbn [fst]. destruct (decide (k' = k)) as [->|]; [|done]. rewrite fmap_cons, last_cons. cbn [snd].
  by destruct (list.last _).
Qed.

Lemma with_counters_given ks h :
  Forall (λ p : counter * Z, 0 <= p.2 < 2 ^ 31) ks →
  with_counters ks h =
    {| flag := given CFlag ks (flag h); clientVersion := given CClient ks (clientVersion h); serverVersion := given CServer ks (serverVersion h);
       pluginsVersion := given CPlugins ks (pluginsVersion h); namespaceCapacityVersion := given CCapacity ks (namespaceCapacityVersion h);
       lastLoadConfigTime := given CLoadTime ks (lastLoadConfigTime h); migrateBlockCount := given CMigrate ks (migrateBlockCount h);
       serverCopyCount := serverCopyCount h; serverBucketCount := serverBucketCount h |}.
Proof.
  revert h. induction ks as [|[k v] ks IH]; intros h Hks; [by destruct h|]. apply list.Forall_cons in Hks as [Hv Hks]. cbn [snd] in Hv.
  change (with_counters ((k, v) :: ks) h) with (with_counters ks (set_counter k v h)). rewrite IH by done. rewrite !given_cons.
  assert (Hu : u32 v = v) by (apply u32_id; unfold is_u32; lia). destruct h, k; cbn -[given u32 i32]; rewrite ?Hu, ?i32_id by lia; done.
Qed.

(** C39: reading the text of a table.  From a text with the two counts (whose file is smaller than 2^31 bytes), counters from 0 to 2^31, and, for each
    of the three tables, its name and a line for every
    copy of every bucket with an address, neither all zeros nor all ones, and a port from 1 to 2^15, the reader makes, when there was no file, a file whose three tables have exactly
    these identifiers and whose header has in every field the last value that the text has for its word, and else what a new file has. *)
Theorem table_text_read `{HR : Resolver} b c ks t0 t1 t2 m :
  0 < b → 0 < c → b * c * 24 + 36 < 2 ^ 31 → Forall (λ p : counter * Z, 0 <= p.2 < 2 ^ 31) ks →
  Forall (λ t : list (Z * Z), length t = Z.to_nat (b * c) ∧ Forall (λ p, is_u32 p.1 ∧ p.1 ≠ 0 ∧ p.1 ≠ INADDR_NONE ∧ 0 < p.2 < 2 ^ 15) t) [t0; t1; t2] →
  ∃ m' f, translateFromText2Binary (Some (text_of (whole_text b c ks t0 t1 t2))) None m = Some (true, m') ∧
    mapped m' = Some f ∧ fileOpened m' = true ∧ hdr f = described b c ks ∧
    hashTable f = Some (ids t0) ∧ mHashTable f = Some (ids t1) ∧ dHashTable f = Some (ids t2).
Proof.
  intros Hb Hc Hsz Hks Ht. pose proof Ht as Ht'. rewrite !list.Forall_cons in Ht'. destruct Ht' as ((L0 & _) & (L1 & _) & (L2 & _) & _).
  set (n := Z.to_nat (b * c)) in *. set (h := with_counters ks (created_hdr b c)).
  assert (Hsmall : Z.of_nat n < 2 ^ 31) by (unfold n; nia). destruct (with_counters_sizes ks (created_hdr b c)) as [Hhb Hhc]. fold h in Hhb, Hhc. cbn in Hhb, Hhc.
  assert (Hent : ∀ cs, entries (Build_table_file h cs) = n).
  { intros cs. unfold entries, hashTableSize, u32. cbn [hdr]. rewrite Hhb, Hhc, Z.mod_small by nia. done. }
  set (m0 := {| mapped := Some (Build_table_file (created_hdr b c) (replicate (3 * n) 0)); fileOpened := true; deflateForClient := []; deflateForDataServer := [] |}).
  set (out := mapped m0).
  destruct (counters_read ks (created_hdr b c) (replicate (3 * n) 0) c out m0 None eq_refl) as (m1 & R1 & M1 & O1). fold h in M1.
  assert (Hids : ∀ t, length (ids t) = length t) by (intros; unfold ids; by rewrite length_fmap).
  destruct (section_read STable b t0 h (replicate (3 * n) 0) c out m1 None) as (m2 & R2 & M2 & O2); [lia|done|by rewrite Hent|rewrite length_replicate; lia|lia|done|].
  cbn [section_start] in *. rewrite L0, place_first in M2 by (rewrite Hids; done).
  destruct (section_read SMigration b t1 h (ids t0 ++ replicate (2 * n) 0) c out m2 (Some 0%nat)) as (m3 & R3 & M3 & O3);
    [lia|done|by rewrite Hent|rewrite length_app, length_replicate, Hids; lia|lia|done|].
  cbn [section_start] in *. rewrite Hent, L1, place_second in M3 by (rewrite Hids; done). rewrite Hent in R3.
  destruct (section_read SDestination b t2 h (ids t0 ++ ids t1 ++ replicate n 0) c out m3 (Some n)) as (m4 & R4 & M4 & O4);
    [lia|done|by rewrite Hent|rewrite !length_app, length_replicate, !Hids; lia|lia|done|].
  cbn [section_start] in *. rewrite Hent, L2, place_third in M4 by (rewrite Hids; done). rewrite Hent in R4.
  exists m4, (Build_table_file h (ids t0 ++ ids t1 ++ ids t2)). split; [|split; [done|]].
  - assert (Hfit : Forall line_fits (whole_text b c ks t0 t1 t2)).
    { apply lines_fit; [nia|nia|done|]. eapply Forall_impl; [exact Ht|]. intros t [Hl Hall]. split; [by rewrite Hl|done]. }
    unfold translateFromText2Binary. rewrite lines_read by done.
    unfold whole_text. cbn [app lines_meaning line_meaning]. rewrite bind_Some_eq. unfold read_buckets. cbn [out_file copyCount mgr].
    rewrite create_new, bind_Some_eq by done. fold n. fold m0. cbn [mapped]. fold out. rewrite (lines_meaning_app _ _ _ _ R1).
    rewrite (app_comm_cons (cell_lines b 0 t0)), (lines_meaning_app _ _ _ _ R2). rewrite (app_comm_cons (cell_lines b 0 t1)), (lines_meaning_app _ _ _ _ R3).
    by rewrite R4, bind_Some_eq.
  - split; [by rewrite O4, O3, O2, O1|]. split; [by apply with_counters_given|]. apply (three_tables h _ _ _ n); rewrite ?Hids; done.
Qed.

(** ** A resolver *)

(** [inet_addr] on four numbers with dots. *)
Definition dotted_addr (s : list Z) : Z :=
  match tokenize s [46] with
  | Some [a; b; c; d] =>
      match parse_int a, parse_int b, parse_int c, parse_int d with
      | Some a, Some b, Some c, Some d => a + 2 ^ 8 * b + 2 ^ 16 * c + 2 ^ 24 * d
      | _, _, _, _ => INADDR_NONE
      end
  | _ => INADDR_NONE
  end.

Lemma bytes_sum ip : is_u32 ip → byte_of ip 0 + 2 ^ 8 * byte_of ip 1 + 2 ^ 16 * byte_of ip 2 + 2 ^ 24 * byte_of ip 3 = ip.
Proof.
  unfold is_u32. intros Hip. unfold byte_of. change 255 with (Z.ones 8). rewrite !Z.land_ones, !Z.shiftr_div_pow2 by lia.
  change (2 ^ (8 * 0)) with 1. change (2 ^ (8 * 1)) with 256. change (2 ^ (8 * 2)) with 65536. change (2 ^ (8 * 3)) with 16777216.
  change (2 ^ 8) with 256. change (2 ^ 16) with 65536. change (2 ^ 24) with 16777216. change (2 ^ 32) with 4294967296 in Hip.
  pose proof (Z.div_mod ip 256). pose proof (Z.div_mod (ip / 256) 256). pose proof (Z.div_mod (ip / 256 / 256) 256).
  replace (ip / 65536) with (ip / 256 / 256) by (rewrite Z.div_div by lia; done).
  replace (ip / 16777216) with (ip / 256 / 256 / 256) by (rewrite !Z.div_div by lia; done).
  rewrite Z.div_1_r. rewrite (Z.mod_small (ip / 256 / 256 / 256)); [lia|]. rewrite !Z.div_div by lia. split; [apply Z.div_pos; lia|apply Z.div_lt_upper_bound; lia].
Qed.

Lemma dotted_addr_ok ip : is_u32 ip → dotted_addr (addr2IpStr ip) = ip.
Proof.
  intros Hip. unfold dotted_addr. pose proof (λ i, byte_of_u8 ip i) as Hu.
  assert (Ht : tokenize (addr2IpStr ip) [46] = Some [to_string (byte_of ip 0); to_string (byte_of ip 1); to_string (byte_of ip 2); to_string (byte_of ip 3)]).
  { apply (tokenize_parts 46 [to_string (byte_of ip 0); to_string (byte_of ip 1); to_string (byte_of ip 2)]).
    - repeat constructor; apply to_string_no; try done; apply Hu.
    - apply to_string_digits, Hu. }
  rewrite Ht. rewrite !parse_to_string by apply Hu. by apply bytes_sum.
Qed.

#[local] Instance demo_resolver : Resolver := {| inet_addr := dotted_addr; gethostbyname := λ _, None; inet_addr_dotted := dotted_addr_ok |}.

Definition demo_table : list (Z * Z) := [(16777226, 5191); (33554442, 5191)].

Lemma table_text_read_witness :
  ∃ m' f, translateFromText2Binary (Some (text_of (whole_text 2 1 [(CClient, 7)] demo_table demo_table demo_table))) None init_mgr = Some (true, m') ∧
    mapped m' = Some f ∧ hashTable f = Some (ids demo_table).
Proof.
  assert (Ht : Forall (λ t : list (Z * Z), length t = Z.to_nat (2 * 1) ∧ Forall (λ p, is_u32 p.1 ∧ p.1 ≠ 0 ∧ p.1 ≠ INADDR_NONE ∧ 0 < p.2 < 2 ^ 15) t)
    [demo_table; demo_table; demo_table]).
  { apply (bool_decide_unpack _). vm_compute. done. }
  destruct (table_text_read 2 1 [(CClient, 7)] demo_table demo_table demo_table init_mgr ltac:(lia) ltac:(lia) ltac:(lia)
    ltac:(repeat constructor; cbn; lia) Ht) as (m' & f & H1 & H2 & _ & _ & H3 & _).
  exists m', f. split; [exact H1|]. split; [exact H2|exact H3].
Defined.

(** ** Writing *)

Lemma length_addr2String w : (length (addr2String w) <= 48)%nat.
Proof.
  unfold addr2String. set (port := Z.land (Z.shiftr w 32) 65535). assert (Hp : 0 <= port < 2 ^ 32).
  { unfold port. change 65535 with (Z.ones 16). rewrite Z.land_ones by lia. pose proof (Z.mod_pos_bound (Z.shiftr w 32) (2 ^ 16)). lia. }
  pose proof (length_dotted (Z.land w 4294967295)) as Hd. pose proof (length_to_string port Hp). destruct (0 <? port); rewrite ?length_app; cbn [length]; lia.
Qed.

Lemma format_room s buf index :
  0 <= index → index = Z.of_nat (length buf) → index + Z.of_nat (length s) < row_size → format_into s (buf, index) = Some (buf ++ s, index + Z.of_nat (length s)).
Proof.
  unfold row_size. intros H0 Hi Hr. unfold format_into, row_size. rewrite (proj2 (Z.ltb_ge _ _)) by lia. rewrite firstn_all2 by lia. by rewrite i32_id by lia.
Qed.

(** What a row of at most 20 copies says: the number of the bucket and its servers, whole. *)
Lemma row_text_whole f root i ws :
  0 <= i < 2 ^ 32 → 0 <= serverCopyCount (hdr f) <= 20 → mapM (cell_of f root i) (seqZ 0 (serverCopyCount (hdr f))) = Some ws →
  row_text f root i = Some (txt "bucket: " ++ to_string i ++ concat ((λ w, 9 :: addr2String w) <$> ws) ++ [10]).
Proof.
  intros Hi Hc Hws. set (js := seqZ 0 (serverCopyCount (hdr f))) in *.
  assert (Hcols : ∀ js ws buf, mapM (cell_of f root i) js = Some ws → Z.of_nat (length buf) + 49 * Z.of_nat (length js) < row_size - 1 →
    run_all (λ j st, w ← cell_of f root i j; format_into (9 :: addr2String w) st) js (buf, Z.of_nat (length buf)) =
      Some (buf ++ concat ((λ w, 9 :: addr2String w) <$> ws), Z.of_nat (length (buf ++ concat ((λ w, 9 :: addr2String w) <$> ws)))) ∧
    Z.of_nat (length (buf ++ concat ((λ w, 9 :: addr2String w) <$> ws))) <= Z.of_nat (length buf) + 49 * Z.of_nat (length js)).
  { clear. intros js. induction js as [|j js IH]; intros ws buf Hm Hl; cbn [mapM] in Hm.
    - injection Hm as <-. cbn. rewrite app_nil_r. split; [done|lia].
    - apply bind_Some in Hm as (w & Hw & Hm). apply bind_Some in Hm as (ws' & Hm & [= <-]). cbn [length] in Hl. pose proof (length_addr2String w) as Ha.
      cbn [run_all]. rewrite Hw, bind_Some_eq, format_room, bind_Some_eq by (cbn [length]; lia).
      replace (Z.of_nat (length buf) + Z.of_nat (length (9 :: addr2String w))) with (Z.of_nat (length (buf ++ 9 :: addr2String w))) by (rewrite length_app; lia).
      destruct (IH ws' (buf ++ 9 :: addr2String w) Hm) as [E1 E2]; [rewrite length_app; cbn [length]; lia|]. rewrite E1. cbn [fmap list_fmap concat].
      rewrite <-app_assoc in *. split; [done|]. rewrite !length_app in *. cbn [length] in *. lia. }
  pose proof (length_to_string i Hi) as Hti. set (head := txt "bucket: " ++ to_string i). assert (Hh : (length head <= 40)%nat) by (unfold head; rewrite length_app, length_txt; cbn; lia).
  unfold row_text. fold head js. rewrite format_room, bind_Some_eq by (done || (unfold row_size; cbn; lia)). cbn [app].
  rewrite Z.add_0_l. assert (Hjs : length js = Z.to_nat (serverCopyCount (hdr f))) by (unfold js; by rewrite length_seqZ).
  destruct (Hcols js ws head Hws) as [E1 E2]; [unfold row_size; lia|]. rewrite E1, bind_Some_eq, format_room, bind_Some_eq by (done || (unfold row_size; cbn [length]; lia)).
  cbn [fst]. unfold head. by rewrite <-!app_assoc.
Qed.

(** With many copies the row does not fit: the second text behind the end of the buffer is written through a room that has wrapped around. *)
Lemma row_overrun :
  row_text (Build_table_file (created_hdr 1 60) (replicate 180 (server_id 4294967040 32767))) 0 0 = None.
Proof. vm_compute. reflexivity. Qed.

(** The reader does not understand what the writer writes: a row has no column of its own for line and address, and an assertion fails. *)
Lemma own_text_not_read :
  ∃ text, getTableInfo (create None 2 1 init_mgr).2 = Some text ∧ translateFromText2Binary (Some text) None init_mgr = None.
Proof. eexists. split; [vm_compute; reflexivity|]. vm_compute. reflexivity. Qed.

(** A file of the name that is there already ends the reading. *)
Lemma existing_file_kept f b c m :
  0 <= b < 2 ^ 32 → 0 <= c < 2 ^ 32 → ∃ m', translateFromText2Binary (Some (text_of [TCopies c; TBuckets b])) (Some f) m = Some (false, m').
Proof.
  intros Hb Hc. eexists. unfold translateFromText2Binary. rewrite lines_read by (try done; rewrite !list.Forall_cons; done). cbn [lines_meaning line_meaning]. by rewrite !bind_Some_eq.
Qed.
